(* ===== verification/_CoqProject ===== *)
-Q . S2P
Prelude.v
PublishLog.v
Subscriber.v
WriteAccess.v
Text.v
Replay.v
Calendar.v
Recurrence.v
WorkSession.v
WorkStore.v
Nodes.v
PlanLimits.v
SessionAccess.v
Sessions.v
ClientSync.v
Guards.v
Sync.v
TimeBlocks.v
LocalTime.v
GreenDays.v
Actions.v
ActionStore.v
Import.v
SyncIssues.v
IssueReport.v
Plans.v
PlansCorrect.v
Dispatch.v
Accounts.v
DbStore.v
DbDigest.v
WorkCache.v
SignUp.v
SyncCache.v
MainTree.v
CalendarCache.v
