(* ===== verification/Prelude.v ===== *)
(** * A verification library for the nextapp server and its client

    NextApp is a planner: a C++ server keeps the lists ("nodes"), actions,
    work sessions and calendar of its users in a database, and pushes every
    change to all the devices of the user over a gRPC stream; the client
    keeps a local copy and applies the updates.  This development models the
    core of the server (src/src/backend) and the part of the client
    (src/src/NextAppUi/ServerComm.cpp) that keeps the copy in step, and
    proves what makes them correct.

    ** How the parts interact

    A request arrives with the certificate of a device.  The session manager
    finds or creates its session and the context of its user (Sessions.v);
    a number that was seen before is refused (Replay.v); a request that
    changes something waits for the user's write access (WriteAccess.v).
    The handler checks that the session may write (SessionAccess.v) and
    that the plan has room (PlanLimits.v; Guards.v puts the two in front of
    the handlers), changes the tables (Nodes.v, WorkStore.v, Recurrence.v)
    and publishes the changes.  The user's log numbers and retains them
    (PublishLog.v) and queues them on the stream of every subscribed device
    (Subscriber.v); the client applies them in order, and syncs when it has
    missed some (ClientSync.v).

    ** Files

    - Prelude: the error codes of nextapp.proto, exceptions, the error monad
      [result], the state monad [M] of handlers that run in a transaction,
      integers of fixed width, and the automation ([inv_ok], [case_if],
      [split_bools]).
    - PublishLog: [UserContext] of backend/lib/UserContext.cpp as a log:
      [publishUpdates], [retainPublishedUpdate], [addPublisher],
      [removePublisher], [purgeExpiredPublishers], [publish].  The class
      [PublisherIface] states what the log needs of a subscriber.
    - Subscriber: the reactor of [SubscribeToUpdates] in
      backend/lib/grpc/GrpcServer.cpp as a state machine ([publish],
      [reply], [OnWriteDone], [failedToPublish], [finish], [OnDone]); the
      instance of [PublisherIface], so that the theorems of the log hold of
      the streams the server runs with.
    - WriteAccess: [acquireWriteAccess], [releaseWriteAccess] and the guard
      of include/nextapp/UserContext.h.
    - Text, Replay: [ValueContainer], [checkForReplay] with its critical
      sections, [getLastReqId], [saveLastReqIds], and the parsing of the
      request number from the meta-data.
    - Calendar, Recurrence: [processDueAtDate], [processDueAtDayspec],
      [adjustDueTime], [handleActionDone] of backend/lib/grpc/Actions.cpp,
      against the class [CivilCalendar] with the instance [Gregorian].
    - WorkSession, WorkStore: [updateOutcome] and the handlers of
      backend/lib/grpc/Work.cpp over the table of work sessions.
    - Nodes: the handlers of backend/lib/grpc/Node.cpp over the table of
      nodes with its foreign key, and the assembly of [GetNodes].
    - PlanLimits: the counters of a plan: [reserveAddition], the
      reservation's [commit] and [release], [onDeleted], [onMassDelete],
      the refresh, [elapsedWholeMonths], [loadPlans].
    - SessionAccess: [refreshSessionAccessLocked_], [currentSessionAccess],
      [requireWritableForAdd].
    - Sessions: [SessionManager]: [getSession], [getExistingSession],
      [getUserContext], [removeSession], [onTimer], [loadPublishState_],
      [savePublishState_], over a heap of contexts and sessions.
    - ClientSync: [startNextappSession] from the hello to the end of the
      sync, [onUpdateMessage], the queue of live updates, the deferred
      updates and [requestIncrementalRepair] of NextAppUi/ServerComm.cpp,
      and a transition system of server, stream and client.
    - Guards: the instances of [NodeGate] and [PlanGate].

    ** What is shown

    - Delivery.  Every subscriber holds a gap-free run of the log; a replay
      is exact or refused; a stream writes one update at a time, in order,
      and never stalls; after a failed write the updates go to the push
      service.  The numbers of a user continue when the context is dropped
      and created again.  A client asks for exactly what the log can replay
      or syncs, and its data reflect every update up to the one it says it
      has seen, whatever happens to it, to the connection and to the server.
    - Requests.  A request number is let through at most once; the check
      refines its specification; [ValueContainer] refines an array of
      options; mutating requests exclude each other and are served in order;
      a caller gets only sessions of its own device; the tables of sessions
      and users agree.
    - Limits.  What is used and reserved stays within the plan and its
      grace; full access goes to the devices that connected first; whole
      months are counted by the calendar.
    - Data.  The nodes stay a forest under all handlers; moves, deletes,
      templates and the tree for the client are exact.  The time of a work
      session is the time its log was active; at most one session is active;
      stopping books the time on the action.  The next occurrence of a
      repeating action lies on the day the rule asks for.
    - Failures.  Where modelling showed that the code does something else
      than it means to, a theorem states what it does (an interleaving, a
      lost refresh, a wrong branch).

    ** Conventions

    A handler is a function in the monad [M] over its tables: a throw loses
    the changes, as the rolled back transaction does.  Code that runs in
    several critical sections is split at them, and its sequential
    composition and its interleavings are both stated.  Unsigned integers
    are kept in range by [wrap]; [undefined] is the exception of an
    execution the language gives no meaning to.  Time, random numbers, the
    rows a query returns and what an external service answers are arguments.

    Fuel: [retry_loop] of Nodes.v stands for [for(retry = 0;; ++retry)] and
    gets six rounds because the code throws in the sixth; the search for a
    cycle and the tree of [GetNodes] recurse as often as there are rows,
    which the theorems show to be enough.  Loops over messages, events and
    days of the week are structural.

    ** What is not modelled

    The rest of Actions.cpp, Calendar.cpp, GreenDays.cpp, Tenants.cpp and
    Plans.cpp, the dispatch in GrpcServer.h (its steps are modelled one by
    one), the sign-up server, the client's caches, models and user
    interface, the agent gateway, certificates and metrics; SQL is modelled
    by what a statement does to a finite map of rows, gRPC and Asio by the
    callbacks they make.  The planned order: the handlers of actions, the
    request dispatch, the client's caches and its review window, time
    blocks, plans. *)
From Stdlib Require Export ZArith Lia Sorted.
From stdpp Require Export base tactics list numbers option gmap sets strings.

(** ** Notations *)
Declare Scope nextapp_scope.
Delimit Scope nextapp_scope with nextapp.

(** [nextapp::pb::Error] of src/src/proto/nextapp.proto. *)
Module Error.
Inductive t :=
| OK | MISSING_TENANT_NAME | MISSING_USER_NAME | MISSING_USER_EMAIL
| ALREADY_EXIST | INVALID_PARENT | DATABASE_UPDATE_FAILED
| DATABASE_REQUEST_FAILED | NOT_FOUND | DIFFEREENT_PARENT | NO_CHANGES
| CONSTRAINT_FAILED | GENERIC_ERROR | INVALID_ACTION | INVALID_REQUEST
| PAGE_SIZE_TOO_SMALL | AUTH_MISSING_SESSION_ID | NO_RELEVANT_DATA
| MISSING_CSR | INVALID_CSR | PERMISSION_DENIED | TENANT_SUSPENDED
| USER_SUSPENDED | MISSING_USER_ID | AUTH_FAILED | CONFLICT | MISSING_AUTH
| DEVICE_DISABLED | CLIENT_GRPC_ERROR | REPLAY_DETECTED | INVALID_ARGUMENT
| TEMPORATY_FAILURE | LIMIT_EXCEEDED.

#[global] Instance t_eq_dec : EqDecision t.
Proof. solve_decision. Defined.

(** The number of each value on the wire. *)
Definition code (e : t) : Z :=
  match e with
  | OK => 0 | MISSING_TENANT_NAME => 1 | MISSING_USER_NAME => 2
  | MISSING_USER_EMAIL => 3 | ALREADY_EXIST => 4 | INVALID_PARENT => 5
  | DATABASE_UPDATE_FAILED => 6 | DATABASE_REQUEST_FAILED => 7
  | NOT_FOUND => 8 | DIFFEREENT_PARENT => 9 | NO_CHANGES => 10
  | CONSTRAINT_FAILED => 11 | GENERIC_ERROR => 12 | INVALID_ACTION => 13
  | INVALID_REQUEST => 14 | PAGE_SIZE_TOO_SMALL => 15
  | AUTH_MISSING_SESSION_ID => 16 | NO_RELEVANT_DATA => 17
  | MISSING_CSR => 18 | INVALID_CSR => 19 | PERMISSION_DENIED => 20
  | TENANT_SUSPENDED => 21 | USER_SUSPENDED => 22 | MISSING_USER_ID => 23
  | AUTH_FAILED => 24 | CONFLICT => 25 | MISSING_AUTH => 26
  | DEVICE_DISABLED => 27 | CLIENT_GRPC_ERROR => 28 | REPLAY_DETECTED => 29
  | INVALID_ARGUMENT => 30 | TEMPORATY_FAILURE => 31 | LIMIT_EXCEEDED => 32
  end.
End Error.

(** What a C++ function of the program can throw: [server_err] with its
    error code or [std::runtime_error].  [undefined] marks an execution the
    language gives no meaning to (an out-of-range access, a null
    dereference) or that a failed [assert] stops. *)
Inductive exn :=
| server_err (e : Error.t)
| runtime_error
| undefined.

#[export] Instance exn_eq_dec : EqDecision exn.
Proof. solve_decision. Defined.

(** The error and state monad the handlers are written in. *)
Inductive result (A : Type) :=
| Ok (a : A)
| Throw (e : exn).
Arguments Ok {A} a.
Arguments Throw {A} e.

#[export] Instance result_ret : MRet result := @Ok.
#[export] Instance result_bind : MBind result := λ A B f m,
  match m with Ok a => f a | Throw e => Throw e end.
#[export] Instance result_fmap : FMap result := λ A B f m,
  match m with Ok a => Ok (f a) | Throw e => Throw e end.

Definition is_ok {A} (r : result A) : bool :=
  match r with Ok _ => true | Throw _ => false end.

Lemma bind_Ok {A B} (m : result A) (f : A → result B) (b : B) :
  m ≫= f = Ok b ↔ ∃ a, m = Ok a ∧ f a = Ok b.
Proof. destruct m; cbn; naive_solver. Qed.

Lemma bind_Throw {A B} (m : result A) (f : A → result B) (e : exn) :
  m ≫= f = Throw e ↔ m = Throw e ∨ ∃ a, m = Ok a ∧ f a = Throw e.
Proof. destruct m; cbn; naive_solver. Qed.

(** [throw_if b e; k] is [if (b) throw e; k]. *)
Definition throw_if (b : bool) (e : exn) : result unit :=
  if b then Throw e else Ok tt.

Lemma throw_if_Ok (b : bool) (e : exn) u :
  throw_if b e = Ok u ↔ b = false.
Proof. destruct b, u; cbn; naive_solver. Qed.

(** Computations over a state that may throw.  A throw loses the state: the
    handlers run in a database transaction that is rolled back. *)
Definition M (S A : Type) : Type := S → result (A * S).

#[export] Instance M_ret {S} : MRet (M S) := λ A a s, Ok (a, s).
#[export] Instance M_bind {S} : MBind (M S) := λ A B f m s,
  match m s with Ok (a, s') => f a s' | Throw e => Throw e end.

Definition lift {S A} (r : result A) : M S A := λ s,
  match r with Ok a => Ok (a, s) | Throw e => Throw e end.
Definition gets {S A} (f : S → A) : M S A := λ s, Ok (f s, s).
Definition modify {S} (f : S → S) : M S unit := λ s, Ok (tt, f s).

(** The state after a run; a throw leaves it as it was. *)
Definition after {S A} (m : M S A) (s : S) : S :=
  match m s with Ok (_, s') => s' | Throw _ => s end.

Lemma run_after {S A} (m : M S A) (s : S) :
  is_ok (m s) = true → ∃ a, m s = Ok (a, after m s).
Proof. unfold after. destruct (m s) as [[a s']|]; [by exists a|done]. Qed.

(** [for (x : l) f(x)] *)
Fixpoint for_each {S A} (f : A → M S unit) (l : list A) : M S unit :=
  match l with
  | [] => mret tt
  | x :: l => f x ≫= λ _, for_each f l
  end.

Lemma M_bind_Ok {S A B} (m : M S A) (f : A → M S B) s b s' :
  (m ≫= f) s = Ok (b, s') ↔ ∃ a s1, m s = Ok (a, s1) ∧ f a s1 = Ok (b, s').
Proof.
  unfold mbind, M_bind. destruct (m s) as [[a s1]|]; split; try naive_solver.
Qed.

Lemma lift_Ok {S A} (r : result A) (s s' : S) a :
  lift r s = Ok (a, s') ↔ r = Ok a ∧ s' = s.
Proof. unfold lift. destruct r; naive_solver. Qed.

(** A loop that collects results. *)
Lemma mapM_cons_Ok {S A B} (f : A → M S B) x l s ys s' :
  mapM (M := M S) f (x :: l) s = Ok (ys, s') ↔
  ∃ y s1 ys', f x s = Ok (y, s1) ∧ mapM (M := M S) f l s1 = Ok (ys', s') ∧ ys = y :: ys'.
Proof.
  cbn [mapM]. rewrite M_bind_Ok. split.
  - intros (y & s1 & Hy & (ys' & s2 & Hys & [= <- <-])%M_bind_Ok). eauto 10.
  - intros (y & s1 & ys' & Hy & Hys & ->). exists y, s1. split; [done|].
    apply M_bind_Ok. by exists ys', s'.
Qed.

(** A loop keeps what every round keeps. *)
Lemma for_each_inv {S A} (I : S → Prop) (f : A → M S unit) l s u s' :
  (∀ x s s', x ∈ l → I s → f x s = Ok (tt, s') → I s') →
  I s → for_each f l s = Ok (u, s') → I s'.
Proof.
  revert s. induction l as [|x l IH]; intros s Hf Hs; cbn [for_each].
  - intros [= _ <-]. done.
  - intros ([] & s1 & H1 & H2)%M_bind_Ok. apply (IH s1); [|by apply (Hf x s); [left|..]|done].
    intros y t t' Hy. apply Hf. by right.
Qed.

(** A fold keeps what every step keeps. *)
Lemma foldl_inv {A B} (P : A → Prop) (f : A → B → A) l a :
  (∀ a b, P a → P (f a b)) → P a → P (foldl f a l).
Proof. intros Hf. revert a. induction l as [|b l IH]; intros a Ha; [done|]. by apply IH, Hf. Qed.

(** ** Postconditions of runs that return

    [keeps I m]: whenever [m] returns from a state with [I], the state it
    leaves has [I]; a throw leaves the old state. *)
Definition keeps {S A} (I : S → Prop) (m : M S A) : Prop :=
  ∀ s a s', I s → m s = Ok (a, s') → I s'.

Section keeps.
Context {S : Type} (I : S → Prop).

Lemma keeps_ret {A} (a : A) : keeps I (mret a).
Proof. intros s a' s' Hs [= _ <-]. done. Qed.

Lemma keeps_lift {A} (r : result A) : keeps I (lift r).
Proof. by intros s a s' Hs [_ ->]%lift_Ok. Qed.

Lemma keeps_gets {A} (f : S → A) : keeps I (gets f).
Proof. by intros s a s' Hs [= _ <-]. Qed.

Lemma keeps_modify (f : S → S) : (∀ s, I s → I (f s)) → keeps I (modify f).
Proof. intros Hf s a s' Hs [= _ <-]. auto. Qed.

Lemma keeps_bind {A B} (m : M S A) (f : A → M S B) :
  keeps I m → (∀ a, keeps I (f a)) → keeps I (m ≫= f).
Proof. intros Hm Hf s b s' Hs (a & s1 & H1 & H2)%M_bind_Ok. eapply Hf; [|done]. by eapply Hm. Qed.

Lemma keeps_for_each {A} (f : A → M S unit) l :
  (∀ x, x ∈ l → keeps I (f x)) → keeps I (for_each f l).
Proof.
  intros Hf s u s' Hs Hr. eapply for_each_inv; [|done..].
  intros x t t' Hx Ht Hfx. by eapply Hf.
Qed.

Lemma keeps_after {A} (m : M S A) s : keeps I m → I s → I (after m s).
Proof.
  intros Hm Hs. unfold after. destruct (m s) as [[a s']|] eqn:Hr; [|done]. by eapply Hm.
Qed.

(** A computation over a part of the state, [put t s] being [s] with the
    part [t]. *)
Definition zoom {T A} (get : S → T) (put : T → S → S) (m : M T A) : M S A := λ s,
  match m (get s) with Ok (a, t) => Ok (a, put t s) | Throw e => Throw e end.

Lemma zoom_Ok {T A} (get : S → T) put (m : M T A) s a s' :
  zoom get put m s = Ok (a, s') ↔ ∃ t, m (get s) = Ok (a, t) ∧ s' = put t s.
Proof. clear I. unfold zoom. destruct (m (get s)) as [[]|]; naive_solver. Qed.

Lemma keeps_zoom {T A} (get : S → T) put (m : M T A) :
  (∀ s a t, I s → m (get s) = Ok (a, t) → I (put t s)) → keeps I (zoom get put m).
Proof. intros Hm s a s' Hs (t & Ht & ->)%zoom_Ok. by eapply Hm. Qed.
End keeps.

(** ** Handlers without a transaction

    Every statement is committed when it is done, so a throw keeps what was
    changed before it. *)
Definition Auto (S A : Type) : Type := S → result A * S.

#[export] Instance Auto_ret {S} : MRet (Auto S) := λ A a s, (Ok a, s).
#[export] Instance Auto_bind {S} : MBind (Auto S) := λ A B f m s,
  match m s with (Ok a, s') => f a s' | (Throw e, s') => (Throw e, s') end.

(** One statement: when it throws it has changed nothing. *)
Definition stmt {S A} (m : M S A) : Auto S A := λ s,
  match m s with Ok (a, s') => (Ok a, s') | Throw e => (Throw e, s) end.

(** [always R m]: [R] holds between the state before [m] and the one after
    it, whether [m] returns or throws. *)
Definition always {S A} (R : S → S → Prop) (m : Auto S A) : Prop := ∀ s, R s (m s).2.

Section always.
Context {S : Type} (R : S → S → Prop) `{!PreOrder R}.

Lemma always_ret {A} (a : A) : always R (mret a).
Proof. intros s. cbn. reflexivity. Qed.

Lemma always_bind {A B} (m : Auto S A) (f : A → Auto S B) :
  always R m → (∀ a, always R (f a)) → always R (m ≫= f).
Proof.
  intros Hm Hf s. specialize (Hm s). cbv [mbind Auto_bind].
  destruct (m s) as [[a|e] s']; cbn in Hm |- *; [|done]. by transitivity s'; [|apply Hf].
Qed.

Lemma always_stmt {A} (m : M S A) :
  (∀ s a s', m s = Ok (a, s') → R s s') → always R (stmt m).
Proof.
  intros Hm s. unfold stmt. destruct (m s) as [[a s']|] eqn:Hr; cbn; [by eapply Hm|reflexivity].
Qed.

(** The next step may use what a statement found. *)
Lemma always_gets {A B} (f : S → A) (k : A → Auto S B) :
  (∀ s, R s (k (f s) s).2) → always R (stmt (gets f) ≫= k).
Proof. intros Hk s. apply Hk. Qed.
End always.

Notation "'let!' x ':=' m 'in' k" := (mbind (λ x, k) m)
  (at level 10, x pattern, m at level 100, k at level 200) : nextapp_scope.
Notation "'guard!' b 'else' e 'in' k" := (mbind (λ _ : unit, k) (throw_if (negb b) e))
  (at level 10, b at level 100, e at level 100, k at level 200) : nextapp_scope.

(** ** Machine integers

    An unsigned integer of [w] bits is a [Z] kept in range by [wrap]. *)
Definition wrap (w : Z) (z : Z) : Z := z mod 2 ^ w.
Abbreviation u32 := (wrap 32).
Abbreviation u64 := (wrap 64).

Lemma wrap_range (w z : Z) : (0 ≤ w)%Z → (0 ≤ wrap w z < 2 ^ w)%Z.
Proof. intros. apply Z.mod_pos_bound. apply Z.pow_pos_nonneg; lia. Qed.

Lemma wrap_small w z : (0 ≤ z < 2 ^ w)%Z → wrap w z = z.
Proof. apply Z.mod_small. Qed.

Lemma wrap_idemp (w z : Z) : (0 ≤ w)%Z → wrap w (wrap w z) = wrap w z.
Proof. intros H. by apply wrap_small, wrap_range. Qed.

(** ** Automation *)
Create HintDb nextapp.
#[export] Hint Resolve wrap_range : nextapp.

(** [auto with keeps] follows the structure of a computation. *)
Create HintDb keeps.
#[export] Hint Resolve keeps_ret keeps_lift keeps_gets keeps_bind keeps_for_each : keeps.

(** Invert a run of the monad that returned. *)
Ltac inv_ok :=
  repeat match goal with
  | H : _ ≫= _ = Ok _ |- _ => apply bind_Ok in H as (? & ? & ?)
  | H : (_ ≫= _) _ = Ok (_, _) |- _ => apply M_bind_Ok in H as (? & ? & ? & ?)
  | H : lift _ _ = Ok (_, _) |- _ => apply lift_Ok in H as [? ->]
  | H : throw_if _ _ = Ok _ |- _ => apply throw_if_Ok in H
  | H : Ok _ = Ok _ |- _ => injection H as H; try subst
  | H : Throw _ = Ok _ |- _ => discriminate H
  | H : negb _ = false |- _ => apply negb_false_iff in H
  | H : negb _ = true |- _ => apply negb_true_iff in H
  end.

(** Split the conjunctions among the hypotheses. *)
Ltac split_ands := repeat match goal with H : _ ∧ _ |- _ => destruct H end.

(** Split the boolean conditions of the code into their comparisons. *)
Ltac split_bools :=
  repeat match goal with
  | H : _ && _ = true |- _ => apply andb_true_iff in H as [? ?]
  | H : _ || _ = false |- _ => apply orb_false_iff in H as [? ?]
  | H : bool_decide _ = true |- _ => apply bool_decide_eq_true in H
  | H : bool_decide _ = false |- _ => apply bool_decide_eq_false in H
  end.

(** Case analysis on the innermost conditional of the goal. *)
Ltac case_if :=
  match goal with
  | |- context [if ?b then _ else _] =>
      lazymatch b with
      | context [if _ then _ else _] => fail
      | _ => destruct b eqn:?
      end
  end.

(** ** Lists *)
Section lists.
Context {A : Type}.
Implicit Types (l : list A).

(** Keep the last [n] elements: what a bounded deque that pops its front
    retains. *)
Definition keep_last (n : nat) l : list A := drop (length l - n) l.

Lemma keep_last_length n l : length (keep_last n l) = min (length l) n.
Proof. unfold keep_last. rewrite length_drop. lia. Qed.

Lemma keep_last_all n l : length l ≤ n → keep_last n l = l.
Proof.
  intros H. unfold keep_last.
  replace (length l - n)%nat with 0%nat by lia. apply drop_0.
Qed.

Lemma keep_last_suffix n l : keep_last n l `suffix_of` l.
Proof. exists (take (length l - n) l). symmetry. apply take_drop. Qed.

Lemma filter_all_false (P : A → Prop) `{∀ x, Decision (P x)} l :
  Forall (λ x, ¬ P x) l → filter P l = [].
Proof.
  induction 1 as [|x l Hx _ IH]; [done|].
  by rewrite filter_cons_False.
Qed.

Lemma filter_all_true (P : A → Prop) `{∀ x, Decision (P x)} l :
  Forall P l → filter P l = l.
Proof.
  induction 1 as [|x l Hx _ IH]; [done|].
  by rewrite filter_cons_True, IH.
Qed.
End lists.

Lemma Forall_filter {A} (P Q : A → Prop) `{∀ x, Decision (Q x)} (l : list A) :
  Forall P l → Forall P (filter Q l).
Proof. rewrite !Forall_forall. intros HP x [_ ?]%list_elem_of_filter. auto. Qed.

Lemma fmap_filter_comp {A B} (f : A → B) (P : B → Prop) `{∀ x, Decision (P x)} (l : list A) :
  f <$> filter (λ x, P (f x)) l = filter P (f <$> l).
Proof.
  induction l as [|x l IH]; [done|]. cbn [fmap list_fmap].
  destruct (decide (P (f x))).
  - rewrite !filter_cons_True by done. cbn. by f_equal.
  - by rewrite !filter_cons_False by done.
Qed.

Lemma NoDup_fmap_inj {A B} (f : A → B) (l : list A) x y :
  NoDup (f <$> l) → x ∈ l → y ∈ l → f x = f y → x = y.
Proof.
  intros Hnd. induction l as [|z l IH]; [set_solver|]. cbn in Hnd. apply NoDup_cons in Hnd as [Hz Hnd].
  intros [->|Hx]%elem_of_cons [->|Hy]%elem_of_cons Hf; [done| | |by apply IH].
  - contradict Hz. rewrite Hf. by apply list_elem_of_fmap_2.
  - contradict Hz. rewrite <- Hf. by apply list_elem_of_fmap_2.
Qed.

(** *** Filtering and sorting of rows *)
Lemma elem_of_list_filter_bool {A} (f : A → bool) (l : list A) x :
  x ∈ List.filter f l ↔ x ∈ l ∧ f x = true.
Proof. by rewrite list_elem_of_In, filter_In, <- list_elem_of_In. Qed.

Lemma NoDup_fst_filter {K A} (f : K * A → bool) (l : list (K * A)) :
  NoDup l.*1 → NoDup (List.filter f l).*1.
Proof.
  induction l as [|x l IH]; [done|]. cbn. intros [Hx Hl]%NoDup_cons.
  destruct (f x); [|by apply IH]. cbn. apply NoDup_cons. split; [|by apply IH].
  contradict Hx. apply list_elem_of_fmap in Hx as (y & -> & [Hy _]%elem_of_list_filter_bool).
  by apply list_elem_of_fmap_2.
Qed.

Lemma StronglySorted_filter {A} (R : A → A → Prop) (f : A → bool) (l : list A) :
  StronglySorted R l → StronglySorted R (List.filter f l).
Proof.
  induction 1 as [|x l Hl IH Hx]; [constructor|]. cbn. destruct (f x); [|done].
  constructor; [done|]. rewrite Forall_forall in *. intros y [Hy _]%elem_of_list_filter_bool. auto.
Qed.

(** An order may be weakened on the elements of the list. *)
Lemma StronglySorted_impl {A} (R S : A → A → Prop) (l : list A) :
  (∀ a b, a ∈ l → b ∈ l → R a b → S a b) → StronglySorted R l → StronglySorted S l.
Proof.
  intros HRS Hl. induction Hl as [|x l Hl IH Hx]; constructor.
  - apply IH. intros a b Ha Hb. apply HRS; by right.
  - rewrite Forall_forall in *. intros y Hy. apply HRS; [by left|by right|auto].
Qed.

(** Rows that are told apart by their keys are sorted strictly. *)
Lemma StronglySorted_strict {K A} (R S : K * A → K * A → Prop) (l : list (K * A)) :
  (∀ a b, a ∈ l → b ∈ l → R a b → a.1 ≠ b.1 → S a b) →
  StronglySorted R l → NoDup l.*1 → StronglySorted S l.
Proof.
  intros HRS Hl. induction Hl as [|x l Hl IH Hx]; [constructor|].
  cbn. intros [Hxl Hnd]%NoDup_cons. constructor.
  - apply IH; [|done]. intros a b Ha Hb. apply HRS; by right.
  - rewrite Forall_forall in *. intros y Hy. apply HRS; [by left|by right|by apply Hx|].
    intros Heq. apply Hxl. rewrite Heq. by apply list_elem_of_fmap_2.
Qed.

(** *** Strings *)
Lemma string_app_assoc (a b c : string) : (a +:+ b) +:+ c = a +:+ b +:+ c.
Proof. induction a as [|x a IH]; [done|]. exact (f_equal (String x) IH). Qed.

(** [toStringOrNull], [toStringViewOrNull] of include/nextapp/util.h *)
Definition toStringOrNull (s : string) : option string :=
  if bool_decide (s = EmptyString) then None else Some s.

Lemma toStringOrNull_default s : default EmptyString (toStringOrNull s) = s.
Proof. unfold toStringOrNull. by case_bool_decide. Qed.

(** [std::ranges::find] and [erase]: the first equal element goes. *)
Fixpoint erase (x : string) (l : list string) : list string :=
  match l with
  | [] => []
  | y :: l => if bool_decide (y = x) then l else y :: erase x l
  end.

(** In a list without duplicates the erased element is gone. *)
Lemma elem_of_erase x y l : NoDup l → y ∈ erase x l ↔ y ∈ l ∧ y ≠ x.
Proof.
  induction 1 as [|z l Hz Hl IH]; cbn; [set_solver|].
  case_bool_decide; subst; [|set_solver].
  split; [intros Hy; split; [by right|congruence]|]. intros [[->|?]%elem_of_cons ?]; done.
Qed.

Lemma erase_sublist x l : erase x l `sublist_of` l.
Proof.
  induction l as [|y l IH]; cbn; [constructor|]. case_bool_decide; [by apply sublist_cons|].
  by apply sublist_skip.
Qed.

Lemma NoDup_erase x l : NoDup l → NoDup (erase x l).
Proof. intros Hl. eapply sublist_NoDup; [done|apply erase_sublist]. Qed.

(** [seqZ] pieces used by the publish log. *)
Lemma seqZ_snoc (i n : Z) : (0 ≤ n)%Z → seqZ i (n + 1) = seqZ i n ++ [(i + n)%Z].
Proof.
  intros Hn. rewrite seqZ_app by lia. f_equal.
Qed.

Lemma drop_seqZ (k : nat) (i n : Z) :
  drop k (seqZ i n) = seqZ (i + Z.of_nat k) (n - Z.of_nat k).
Proof.
  destruct (decide (Z.of_nat k ≤ n)%Z) as [Hk|Hk].
  - replace n with (Z.of_nat k + (n - Z.of_nat k))%Z at 1 by lia.
    rewrite seqZ_app by lia.
    rewrite drop_app_length'; rewrite ?length_seqZ; [done|lia].
  - rewrite (seqZ_nil (i + _)) by lia. apply drop_ge. rewrite length_seqZ. lia.
Qed.
