(* ===== verification/PublishLog.v ===== *)
(** * The per-user publish log (src/src/backend/lib/UserContext.cpp)

    Every change a user makes is published as a numbered [Update] to all the
    devices that subscribe.  [UserContext] numbers the updates, keeps the
    last 1024 of them, fans them out to the publishers (one per open
    subscription stream) and replays the retained ones to a device that
    reconnects.  A publisher is a type class here: the stream of
    [Subscriber.v] is the instance the program runs with. *)
From S2P Require Import Prelude.
Local Open Scope Z_scope.

Abbreviation uuid := string.

(** [pb::Update]: the fields the log looks at, and the rest as [body]. *)
Inductive UpdateBody :=
| CalendarEvents (data : string)
| Resync
| Other (data : string).

Record Update := mk_Update { messageId : Z; what : UpdateBody }.

#[global] Instance UpdateBody_eq_dec : EqDecision UpdateBody.
Proof. solve_decision. Defined.
#[global] Instance Update_eq_dec : EqDecision Update.
Proof. solve_decision. Defined.

(** The numbers of the log's own updates in a delivered sequence: a client
    update announcement travels on the same stream with the number 0. *)
Definition log_ids (us : list Update) : list Z :=
  filter (λ i, i ≠ 0) (messageId <$> us).

(** What the log needs of a [weak_ptr<Publisher>]: whether it is expired,
    the device of its session when the session is alive, and [publish],
    which either accepts an update for delivery, after everything it has
    accepted before, or leaves what it has accepted as it is and is dead
    from then on.  [evolve] is what the stream does on its own between two
    calls of the log. *)
Class PublisherIface (P : Type) := {
  pub_uuid : P → uuid;
  expired : P → bool;
  session_device : P → option uuid;
  pub_publish : P → Update → P * bool;
  accepted : P → list Update;
  dead : P → Prop;
  evolve : P → P → Prop;
  publish_true : ∀ p u p', pub_publish p u = (p', true) →
    accepted p' = accepted p ++ [u];
  publish_false : ∀ p u p', pub_publish p u = (p', false) →
    accepted p' = accepted p ∧ dead p';
  publish_uuid : ∀ p u, pub_uuid (pub_publish p u).1 = pub_uuid p;
  publish_dead : ∀ p u, dead p → (pub_publish p u).2 = false;
  expired_dead : ∀ p, expired p = true → dead p;
  no_session_dead : ∀ p, session_device p = None → dead p;
  evolve_accepted : ∀ p p', evolve p p' →
    log_ids (accepted p') = log_ids (accepted p);
  evolve_uuid : ∀ p p', evolve p p' → pub_uuid p' = pub_uuid p;
  evolve_dead : ∀ p p', evolve p p' → dead p → dead p';
}.

Inductive SubscribeReplayResult := LIVE_ONLY | REPLAY_QUEUED | REPLAY_UNAVAILABLE.
#[global] Instance SubscribeReplayResult_eq_dec : EqDecision SubscribeReplayResult.
Proof. solve_decision. Defined.

Definition kReplayBacklogLimit : nat := 1024.

Section log.
Context {P : Type} `{!PublisherIface P}.

(** The part of [UserContext] that [mutex_] guards for publishing. *)
Record UserContext := mk_UserContext {
  publish_message_id : Z;      (* uint32_t *)
  data_sync_epoch : Z;         (* uint64_t *)
  retained_updates : list Update;
  publishers : list P
}.

Definition retainPublishedUpdate (c : UserContext) (u : Update) : UserContext :=
  {| publish_message_id := publish_message_id c;
     data_sync_epoch := data_sync_epoch c;
     retained_updates := keep_last kReplayBacklogLimit (retained_updates c ++ [u]);
     publishers := publishers c |}.

Definition set_publishers (c : UserContext) (ps : list P) : UserContext :=
  {| publish_message_id := publish_message_id c;
     data_sync_epoch := data_sync_epoch c;
     retained_updates := retained_updates c;
     publishers := ps |}.

Definition purgeExpiredPublishers (c : UserContext) : UserContext :=
  set_publishers c (filter (λ p, expired p = false) (publishers c)).

(** A dangling pointer is removed too. *)
Definition removePublisher (c : UserContext) (id : uuid) : UserContext :=
  set_publishers c
    (filter (λ p, expired p = false ∧ pub_uuid p ≠ id) (publishers c)).

(** One subscriber of the fan-out loop: a publisher whose session is gone
    is skipped; the device is reported when the update was accepted. *)
Definition fan_out_one (u : Update) (p : P) : P * option uuid :=
  if expired p then (p, None) else
  match session_device p with
  | None => (p, None)
  | Some dev =>
      let '(p', ok) := pub_publish p u in
      (p', if ok then Some dev else None)
  end.

Fixpoint fan_out (u : Update) (ps : list P) : list P * list uuid :=
  match ps with
  | [] => ([], [])
  | p :: ps =>
      let '(p', d) := fan_out_one u p in
      let '(ps', ds) := fan_out u ps in
      (p' :: ps', match d with Some dev => dev :: ds | None => ds end)
  end.

(** [publishUpdates]: the new context, the update with its number, and the
    devices that accepted it. *)
Definition publishUpdates (c : UserContext) (w : UpdateBody)
    : UserContext * Update * list uuid :=
  let c1 := purgeExpiredPublishers c in
  let id := u32 (publish_message_id c1 + 1) in
  let u := mk_Update id w in
  let c2 := retainPublishedUpdate
              {| publish_message_id := id;
                 data_sync_epoch := data_sync_epoch c1;
                 retained_updates := retained_updates c1;
                 publishers := publishers c1 |} u in
  let '(ps, devices) := fan_out u (publishers c2) in
  (set_publishers c2 ps, u, devices).

Definition isForPush (u : Update) : bool :=
  match what u with CalendarEvents _ => true | _ => false end.

(** [publish]: besides the fan-out, the devices that get a push
    notification, those with a push handler that did not accept the update
    over a stream. *)
Definition publish (c : UserContext) (push_handlers : list uuid) (w : UpdateBody)
    : UserContext * Update * list uuid :=
  let '(c', u, devices) := publishUpdates c w in
  (c', u,
   if isForPush u
   then filter (λ d, d ∉ devices) push_handlers
   else []).

Definition publishFullResync (c : UserContext) (push_handlers : list uuid)
    (dataSyncEpoch : Z) : UserContext * Update * list uuid :=
  publish {| publish_message_id := publish_message_id c;
             data_sync_epoch := dataSyncEpoch;
             retained_updates := retained_updates c;
             publishers := publishers c |} push_handlers Resync.

(** The replay loop of [addPublisher]: queue every retained update after
    [from], and stop at the first one the publisher refuses. *)
Fixpoint replay_from (from : Z) (us : list Update) (p : P) : P * bool :=
  match us with
  | [] => (p, true)
  | u :: us =>
      if from <? messageId u then
        let '(p', ok) := pub_publish p u in
        if ok then replay_from from us p' else (p', false)
      else replay_from from us p
  end.

Definition addPublisher (c : UserContext) (p : P) (fromMessageId : option Z)
    : UserContext * P * SubscribeReplayResult :=
  let c := purgeExpiredPublishers c in
  let added p := set_publishers c (publishers c ++ [p]) in
  match fromMessageId with
  | None => (added p, p, LIVE_ONLY)
  | Some from =>
      let current := publish_message_id c in
      if current <? from then (c, p, REPLAY_UNAVAILABLE) else
      if from <? current then
        match retained_updates c with
        | [] => (c, p, REPLAY_UNAVAILABLE)
        | oldest :: _ =>
            if from + 1 <? messageId oldest then (c, p, REPLAY_UNAVAILABLE) else
            let '(p', ok) := replay_from from (retained_updates c) p in
            if ok then (added p', p', REPLAY_QUEUED)
            else (c, p', REPLAY_UNAVAILABLE)
        end
      else (added p, p, REPLAY_QUEUED)
  end.

(** ** The invariant: the retained updates carry the last numbers given
    out, without a gap. *)
Definition log_wf (c : UserContext) : Prop :=
  let n := Z.of_nat (length (retained_updates c)) in
  0 ≤ publish_message_id c < 2 ^ 32 ∧
  (length (retained_updates c) ≤ kReplayBacklogLimit)%nat ∧
  messageId <$> retained_updates c = seqZ (publish_message_id c - n + 1) n.

Lemma purge_retained c : retained_updates (purgeExpiredPublishers c) = retained_updates c.
Proof. done. Qed.

Lemma publishUpdates_id c w c' u ds :
  publishUpdates c w = (c', u, ds) →
  messageId u = u32 (publish_message_id c + 1) ∧
  what u = w ∧
  publish_message_id c' = messageId u ∧
  data_sync_epoch c' = data_sync_epoch c ∧
  retained_updates c' = keep_last kReplayBacklogLimit (retained_updates c ++ [u]) ∧
  publishers c' = (fan_out u (filter (λ p, expired p = false) (publishers c))).1.
Proof.
  unfold publishUpdates. cbn.
  destruct (fan_out _ _) as [ps devs] eqn:E. intros [= <- <- <-]. cbn.
  by rewrite E.
Qed.

Lemma log_wf_retain (c : UserContext) (u : Update) (c' : UserContext) :
  log_wf c → publish_message_id c + 1 < 2 ^ 32 →
  messageId u = publish_message_id c + 1 →
  publish_message_id c' = messageId u →
  retained_updates c' = keep_last kReplayBacklogLimit (retained_updates c ++ [u]) →
  log_wf c'.
Proof.
  intros (Hr & Hlen & Hids) Hno Hu Hid Hret.
  unfold log_wf. rewrite Hret, Hid, Hu, keep_last_length, length_app. cbn [length].
  split; [lia|]. split; [lia|].
  unfold keep_last. rewrite length_app, fmap_drop, fmap_app, Hids. cbn [fmap list_fmap length].
  rewrite Hu.
  set (n := length (retained_updates c)) in *.
  replace [publish_message_id c + 1] with
    [(publish_message_id c - Z.of_nat n + 1) + Z.of_nat n] by (f_equal; lia).
  rewrite <-seqZ_snoc by lia. rewrite drop_seqZ.
  unfold kReplayBacklogLimit in *. f_equal; lia.
Qed.

(** ** Replay *)
Lemma log_ids_app us vs : log_ids (us ++ vs) = log_ids us ++ log_ids vs.
Proof. unfold log_ids. by rewrite fmap_app, filter_app. Qed.

Lemma log_ids_singleton u : messageId u ≠ 0 → log_ids [u] = [messageId u].
Proof. intros Hu. unfold log_ids. cbn. by destruct (decide (messageId u ≠ 0)). Qed.

Lemma replay_from_accepted from us p p' :
  replay_from from us p = (p', true) →
  accepted p' = accepted p ++ filter (λ u, from < messageId u) us ∧
  pub_uuid p' = pub_uuid p.
Proof.
  revert p. induction us as [|u us IH]; intros p.
  { intros [= <-]. by rewrite filter_nil, app_nil_r. }
  cbn [replay_from]. destruct (Z.ltb_spec from (messageId u)) as [Hlt|Hge].
  - rewrite filter_cons_True by done.
    destruct (pub_publish p u) as [q [|]] eqn:E; [|by intros [= ]].
    intros [-> Hq]%IH. rewrite (publish_true _ _ _ E), <-app_assoc. split; [done|].
    rewrite Hq. pose proof (publish_uuid p u) as Hu. by rewrite E in Hu.
  - rewrite filter_cons_False by lia. apply IH.
Qed.

(** Over consecutive numbers, "after [from]" is a suffix. *)
Lemma filter_gt_seqZ (from i n : Z) :
  i ≤ from + 1 → from < i + n →
  filter (λ x, from < x) (seqZ i n) = seqZ (from + 1) (i + n - from - 1).
Proof.
  intros Hi Hn.
  replace n with ((from + 1 - i) + (i + n - from - 1)) at 1 by lia.
  rewrite seqZ_app by lia. rewrite filter_app.
  rewrite filter_all_false, filter_all_true; cbn.
  - f_equal; lia.
  - apply Forall_forall. intros x Hx%elem_of_seqZ. lia.
  - apply Forall_forall. intros x Hx%elem_of_seqZ. lia.
Qed.

Lemma log_wf_ids_after c from :
  log_wf c →
  publish_message_id c - Z.of_nat (length (retained_updates c)) ≤ from →
  from ≤ publish_message_id c →
  messageId <$> filter (λ u, from < messageId u) (retained_updates c) =
  seqZ (from + 1) (publish_message_id c - from).
Proof.
  intros (_ & _ & Hids) Hlo Hhi.
  rewrite (fmap_filter_comp messageId (λ x, from < x)), Hids.
  rewrite filter_gt_seqZ by lia. f_equal; lia.
Qed.

Lemma log_wf_oldest c u us :
  log_wf c → retained_updates c = u :: us →
  messageId u = publish_message_id c - Z.of_nat (length (retained_updates c)) + 1.
Proof.
  intros (_ & _ & Hids) E. rewrite E in *. cbn [fmap list_fmap length] in Hids.
  rewrite seqZ_cons in Hids by lia. injection Hids as Hu _. cbn [length]. lia.
Qed.

Lemma log_wf_purge c : log_wf c → log_wf (purgeExpiredPublishers c).
Proof. done. Qed.

Lemma addPublisher_queued (c : UserContext) (p : P) (from : Z)
    (c' : UserContext) (p' : P) :
  log_wf c →
  addPublisher c p (Some from) = (c', p', REPLAY_QUEUED) →
  messageId <$> accepted p' =
    (messageId <$> accepted p) ++ seqZ (from + 1) (publish_message_id c - from) ∧
  from ≤ publish_message_id c ∧
  publishers c' = filter (λ q, expired q = false) (publishers c) ++ [p'] ∧
  pub_uuid p' = pub_uuid p ∧
  publish_message_id c' = publish_message_id c ∧
  retained_updates c' = retained_updates c.
Proof.
  intros Hwf. pose proof Hwf as (Hr & _ & _). unfold addPublisher. cbn.
  destruct (Z.ltb_spec (publish_message_id c) from) as [|Hle]; [by intros [= ]|].
  destruct (Z.ltb_spec from (publish_message_id c)) as [Hlt|Hge].
  - destruct (retained_updates c) as [|u us] eqn:Eret; [by intros [= ]|].
    destruct (Z.ltb_spec (from + 1) (messageId u)) as [|Hold]; [by intros [= ]|].
    destruct (replay_from _ _ _) as [q [|]] eqn:E; [|by intros [= ]].
    intros [= <- <-].
    apply replay_from_accepted in E as [-> Hq].
    pose proof (log_wf_oldest c u us Hwf Eret).
    rewrite fmap_app, <-Eret, log_wf_ids_after by (done || lia).
    rewrite Eret. split_and!; (done || lia).
  - intros [= <- <-]. rewrite seqZ_nil, app_nil_r by lia. done.
Qed.

(** C3: A subscriber that reconnects after update [from] and gets
    [REPLAY_QUEUED] has been handed exactly the updates [from + 1], ...,
    [current], each once and in order, and is registered for the next ones;
    nothing else in the log changes. *)
Theorem addPublisher_replays_exactly (c : UserContext) (p : P) (from : Z)
    (c' : UserContext) (p' : P) :
  log_wf c →
  addPublisher c p (Some from) = (c', p', REPLAY_QUEUED) →
  messageId <$> accepted p' =
    (messageId <$> accepted p) ++ seqZ (from + 1) (publish_message_id c - from) ∧
  from ≤ publish_message_id c ∧
  publishers c' = filter (λ q, expired q = false) (publishers c) ++ [p'] ∧
  pub_uuid p' = pub_uuid p ∧
  publish_message_id c' = publish_message_id c ∧
  retained_updates c' = retained_updates c.
Proof. apply addPublisher_queued. Qed.

(** A device whose last update is older than the retained window, or
    newer than the log, is refused with [REPLAY_UNAVAILABLE] and gets no
    partial replay: nothing is queued and it is not registered. *)
Theorem addPublisher_outside_window (c : UserContext) (p : P) (from : Z) :
  log_wf c →
  from < publish_message_id c - Z.of_nat (length (retained_updates c)) ∨
  publish_message_id c < from →
  addPublisher c p (Some from) = (purgeExpiredPublishers c, p, REPLAY_UNAVAILABLE).
Proof.
  intros Hwf Hout. unfold addPublisher. cbn.
  destruct (Z.ltb_spec (publish_message_id c) from) as [|Hle]; [done|].
  destruct Hout as [Hout|]; [|lia].
  destruct (Z.ltb_spec from (publish_message_id c)) as [Hlt|]; [|lia].
  destruct (retained_updates c) as [|u us] eqn:E; [done|].
  pose proof (log_wf_oldest c u us Hwf E) as Hu. rewrite E in Hu.
  destruct (Z.ltb_spec (from + 1) (messageId u)); [done|lia].
Qed.

(** ** Live delivery

    [sys] adds to the context the number each open subscription started
    after; [sys_step] is what can happen to it. *)
Record sys := mk_sys { ctx : UserContext; base : gmap uuid Z }.

Inductive sys_step : sys → sys → Prop :=
| step_publish s w c' u ds :
    publish_message_id (ctx s) + 1 < 2 ^ 32 →
    publishUpdates (ctx s) w = (c', u, ds) →
    sys_step s (mk_sys c' (base s))
| step_subscribe s p from c' p' res :
    accepted p = [] → base s !! pub_uuid p = None →
    match from with Some f => 0 ≤ f | None => True end →
    addPublisher (ctx s) p from = (c', p', res) →
    sys_step s (mk_sys c'
      (if decide (res = REPLAY_UNAVAILABLE) then base s
       else <[pub_uuid p := default (publish_message_id (ctx s)) from]> (base s)))
| step_remove s id :
    sys_step s (mk_sys (removePublisher (ctx s) id) (base s))
| step_evolve s i p p' :
    publishers (ctx s) !! i = Some p → evolve p p' →
    sys_step s (mk_sys (set_publishers (ctx s) (<[i := p']> (publishers (ctx s)))) (base s)).

(** One subscriber that started after [f] in a log that stands at [cur]:
    what it accepted is gap-free from [f + 1], and up to date unless the
    stream is dead. *)
Definition sub_ok (cur f : Z) (p : P) : Prop :=
  0 ≤ f ∧ ∃ k, 0 ≤ k ∧ f + k ≤ cur ∧
    log_ids (accepted p) = seqZ (f + 1) k ∧ (dead p ∨ f + k = cur).

Definition sys_ok (s : sys) : Prop :=
  log_wf (ctx s) ∧
  Forall (λ p, ∃ f, base s !! pub_uuid p = Some f ∧
                    sub_ok (publish_message_id (ctx s)) f p) (publishers (ctx s)).

Lemma log_ids_pos us i n :
  messageId <$> us = seqZ i n → 0 < i → log_ids us = seqZ i n.
Proof.
  intros E Hi. unfold log_ids. rewrite E.
  apply filter_all_true, Forall_forall. intros x Hx%elem_of_seqZ. lia.
Qed.

(** An update of the log reaches the subscriber or finds it dead. *)
Lemma sub_ok_fan_out_one cur f p u :
  0 ≤ cur → messageId u = cur + 1 → sub_ok cur f p →
  sub_ok (cur + 1) f (fan_out_one u p).1 ∧
  pub_uuid (fan_out_one u p).1 = pub_uuid p.
Proof.
  intros Hcur Hu (Hf & k & Hk & Hle & Hids & Hlive).
  assert (dead p → sub_ok (cur + 1) f p) as Hdead.
  { intros Hd. split; [done|]. exists k. split_and!; [lia..|done|by left]. }
  unfold fan_out_one. destruct (expired p) eqn:Ee.
  { split; [|done]. by apply Hdead, expired_dead. }
  destruct (session_device p) as [dev|] eqn:Es.
  2: { split; [|done]. by apply Hdead, no_session_dead. }
  pose proof (publish_uuid p u) as Huuid.
  destruct (pub_publish p u) as [p' [|]] eqn:Ep; cbn [fst snd] in *; (split; [|done]).
  - assert (¬ dead p) as Hnd.
    { intros Hd. pose proof (publish_dead p u Hd) as Hx. by rewrite Ep in Hx. }
    destruct Hlive as [|Hlive]; [done|].
    split; [done|]. exists (k + 1). split_and!; [lia..| |right; lia].
    rewrite (publish_true _ _ _ Ep), log_ids_app, Hids, seqZ_snoc by lia.
    rewrite log_ids_singleton by lia. rewrite Hu. do 2 f_equal. lia.
  - apply publish_false in Ep as [Ha Hd]. split; [done|].
    exists k. rewrite Ha. split_and!; [lia..|done|by left].
Qed.

Lemma fan_out_Forall (Q Q' : P → Prop) u ps :
  (∀ p, Q p → Q' (fan_out_one u p).1) →
  Forall Q ps → Forall Q' (fan_out u ps).1.
Proof.
  intros HQ. induction 1 as [|p ps Hp _ IH]; [constructor|].
  cbn. specialize (HQ p Hp). destruct (fan_out_one u p) as [p' d].
  destruct (fan_out u ps) as [ps' ds]. cbn in *. by constructor.
Qed.

Lemma sys_ok_publish s w c' u ds :
  sys_ok s → publish_message_id (ctx s) + 1 < 2 ^ 32 →
  publishUpdates (ctx s) w = (c', u, ds) →
  sys_ok (mk_sys c' (base s)).
Proof.
  intros [Hwf Hps] Hno E. pose proof Hwf as (Hr & _ & _).
  apply publishUpdates_id in E as (Hu & _ & Hid & _ & Hret & Hpub).
  rewrite wrap_small in Hu by lia.
  split; cbn.
  { by apply (log_wf_retain (ctx s) u). }
  rewrite Hpub, Hid, Hu.
  eapply fan_out_Forall; [|exact (Forall_filter _ _ (publishers (ctx s)) Hps)]. cbn.
  intros p (f & Hb & Hsub).
  destruct (sub_ok_fan_out_one _ f p u (proj1 Hr) Hu Hsub) as [Hsub' ->]. eauto.
Qed.

Lemma sys_ok_subscribe s p from c' p' res :
  sys_ok s → accepted p = [] → base s !! pub_uuid p = None →
  match from with Some f => 0 ≤ f | None => True end →
  addPublisher (ctx s) p from = (c', p', res) →
  sys_ok (mk_sys c'
    (if decide (res = REPLAY_UNAVAILABLE) then base s
     else <[pub_uuid p := default (publish_message_id (ctx s)) from]> (base s))).
Proof.
  intros [Hwf Hps] Hacc Hfresh Hfrom E. pose proof Hwf as (Hr & _ & _).
  assert (Forall (λ q, ∃ f, <[pub_uuid p := default (publish_message_id (ctx s)) from]>
      (base s) !! pub_uuid q = Some f ∧ sub_ok (publish_message_id (ctx s)) f q)
      (filter (λ q, expired q = false) (publishers (ctx s)))) as Hold.
  { apply Forall_filter. apply (Forall_impl _ _ _ Hps).
    intros q (f & Hb & Hsub). exists f. split; [|done].
    rewrite lookup_insert_ne; [done|]. congruence. }
  case_decide as Hres.
  - subst. split; cbn; unfold addPublisher in E; repeat case_match;
      simplify_eq/=; try done; by apply Forall_filter.
  - destruct from as [from|].
    + assert (res = REPLAY_QUEUED) as ->.
      { unfold addPublisher in E. repeat case_match; by simplify_eq/=. }
      apply addPublisher_queued in E
        as (Hids & Hle & Hpubs & Hu & Hid & Hret); [|done].
      rewrite Hacc in Hids. cbn in Hids. split; cbn.
      { unfold log_wf in *. by rewrite Hret, Hid. }
      rewrite Hpubs, Hid. apply Forall_app. split; [done|].
      apply Forall_singleton. exists from. rewrite Hu, lookup_insert_eq. split; [done|].
      split; [done|]. exists (publish_message_id (ctx s) - from).
      split_and!; [lia..| |right; lia].
      apply log_ids_pos; [done|lia].
    + unfold addPublisher in E. cbn in E. injection E as <- <- <-.
      split; cbn; [done|]. apply Forall_app. split; [done|].
      apply Forall_singleton. exists (publish_message_id (ctx s)).
      rewrite lookup_insert_eq. split; [done|]. split; [lia|]. exists 0.
      rewrite Hacc. split_and!; [lia..|done|right; lia].
Qed.

Lemma sys_ok_evolve s i p p' :
  sys_ok s → publishers (ctx s) !! i = Some p → evolve p p' →
  sys_ok (mk_sys (set_publishers (ctx s) (<[i := p']> (publishers (ctx s)))) (base s)).
Proof.
  intros [Hwf Hps] Hi Hev. split; cbn; [done|].
  apply Forall_insert; [done|].
  rewrite Forall_lookup in Hps. destruct (Hps i p Hi) as (f & Hb & Hf & k & Hk & Hle & Hids & Hl).
  exists f. rewrite (evolve_uuid _ _ Hev). split; [done|]. split; [done|].
  exists k. rewrite (evolve_accepted _ _ Hev). split_and!; [done..|].
  destruct Hl as [Hd|]; [left; by eapply evolve_dead|by right].
Qed.

Lemma sys_ok_step s s' : sys_ok s → sys_step s s' → sys_ok s'.
Proof.
  intros Hok Hstep. revert Hok.
  destruct Hstep as [s w c' u ds Hno E|s p from c' p' res Ha Hb Hf E|s id|s i p p' Hi He];
    intros Hok.
  - exact (sys_ok_publish s w c' u ds Hok Hno E).
  - exact (sys_ok_subscribe s p from c' p' res Hok Ha Hb Hf E).
  - destruct Hok as [Hwf Hps]. split; cbn; [done|]. by apply Forall_filter.
  - exact (sys_ok_evolve s i p p' Hok Hi He).
Qed.

(** C1: Exactly-once, in-order delivery.  Whatever a user's publications,
    subscriptions, reconnections, removals and stream events, every
    registered subscriber that asked for the updates after [f] has accepted
    exactly [f + 1], [f + 2], ... without a gap or a repetition, and has
    accepted all of the log unless its stream is dead. *)
Theorem subscribers_gap_free (s s' : sys) :
  log_wf (ctx s) → publishers (ctx s) = [] →
  rtc sys_step s s' →
  Forall (λ p, ∃ f, base s' !! pub_uuid p = Some f ∧
                    sub_ok (publish_message_id (ctx s')) f p) (publishers (ctx s')).
Proof.
  intros Hwf Hnil Hsteps.
  assert (sys_ok s) as Hok by (split; [done|rewrite Hnil; constructor]).
  enough (sys_ok s') by apply H. clear Hwf Hnil.
  induction Hsteps as [|s1 s2 s3 Hstep _ IH]; [done|].
  by eapply IH, sys_ok_step.
Qed.
End log.

Arguments UserContext : clear implicits.
