(* ===== verification/Subscriber.v ===== *)
(** * The update stream of one subscriber
    (src/src/backend/lib/grpc/GrpcServer.cpp, [SubscribeToUpdates])

    [ServerWriteReactorImpl] is the [Publisher] behind one open gRPC stream:
    a queue of updates, one write in flight at a time, and the states in
    which it still accepts updates.  The gRPC calls it makes ([StartWrite],
    [Finish]) and the push service are recorded in the state, so that what
    reaches the wire can be stated.  The stream implements the interface of
    [PublishLog]. *)
From S2P Require Import Prelude PublishLog.
Local Open Scope Z_scope.

Inductive State := READY | WAITING_ON_WRITE | FAILED | FINISHING | DONE.
#[global] Instance State_eq_dec : EqDecision State.
Proof. solve_decision. Defined.

(** The order of the enumerators, which [state_ >= State::FAILED] uses. *)
Definition state_rank (s : State) : Z :=
  match s with
  | READY => 0 | WAITING_ON_WRITE => 1 | FAILED => 2 | FINISHING => 3 | DONE => 4
  end.

(** [ServerWriteReactorImpl].  [session_] is the device of the session, or
    [None] when the weak pointer no longer locks; [owner_active] is
    [owner_.active()].  The last five fields are what the outside saw:
    the updates passed to [StartWrite], those whose write completed, those
    [failedToPublish] took out of the queue, those it handed to the push
    service, and the number of calls of [Finish]. *)
Record Stream := mk_Stream {
  str_uuid : uuid;
  state_ : State;
  updates_ : list Update;
  close_after_drain_ : bool;
  session_has_push_ : bool;
  session_ : option uuid;
  owner_active : bool;
  started : list Update;
  written : list Update;
  moved : list Update;
  pushed : list Update;
  finished : nat
}.

Definition with_state (s : Stream) (st : State) : Stream :=
  mk_Stream (str_uuid s) st (updates_ s) (close_after_drain_ s) (session_has_push_ s)
    (session_ s) (owner_active s) (started s) (written s) (moved s) (pushed s) (finished s).

Definition with_queue (s : Stream) (us : list Update) : Stream :=
  mk_Stream (str_uuid s) (state_ s) us (close_after_drain_ s) (session_has_push_ s)
    (session_ s) (owner_active s) (started s) (written s) (moved s) (pushed s) (finished s).

Definition new_stream (id : uuid) (dev : uuid) (has_push active : bool) : Stream :=
  mk_Stream id READY [] false has_push (Some dev) active [] [] [] [] 0.

Definition setHasPush (s : Stream) (enable : bool) : Stream :=
  mk_Stream (str_uuid s) (state_ s) (updates_ s) (close_after_drain_ s) enable
    (session_ s) (owner_active s) (started s) (written s) (moved s) (pushed s) (finished s).

Definition finish (s : Stream) : Stream :=
  if state_rank FINISHING <=? state_rank (state_ s) then s
  else mk_Stream (str_uuid s) FINISHING (updates_ s) (close_after_drain_ s)
         (session_has_push_ s) (session_ s) (owner_active s)
         (started s) (written s) (moved s) (pushed s) (S (finished s)).

Definition close (s : Stream) : Stream := finish s.

Definition reply (s : Stream) : Stream :=
  if negb (bool_decide (state_ s = READY)) then s else
  match updates_ s with
  | [] => if close_after_drain_ s || negb (owner_active s) then finish s else s
  | u :: _ =>
      if negb (owner_active s) then finish s
      else mk_Stream (str_uuid s) WAITING_ON_WRITE (updates_ s) (close_after_drain_ s)
             (session_has_push_ s) (session_ s) (owner_active s)
             (started s ++ [u]) (written s) (moved s) (pushed s) (finished s)
  end.

Definition publish (s : Stream) (message : Update) : Stream * bool :=
  match session_ s with
  | Some _ =>
      if state_rank FAILED <=? state_rank (state_ s) then (s, false)
      else (reply (with_queue s (updates_ s ++ [message])), true)
  | None => (close s, false)
  end.

Definition requestCloseAfterDrain (s : Stream) : Stream :=
  reply (mk_Stream (str_uuid s) (state_ s) (updates_ s) true (session_has_push_ s)
    (session_ s) (owner_active s) (started s) (written s) (moved s) (pushed s) (finished s)).

(** [user_alive] is whether [user_.lock()] still gives the user. *)
Definition failedToPublish (s : Stream) (user_alive : bool) : Stream :=
  let s := if state_rank (state_ s) <? state_rank FAILED then with_state s FAILED else s in
  if negb (session_has_push_ s) || bool_decide (updates_ s = []) then s
  else mk_Stream (str_uuid s) (state_ s) [] (close_after_drain_ s) (session_has_push_ s)
         (session_ s) (owner_active s) (started s) (written s) (moved s ++ updates_ s)
         (pushed s ++ if user_alive
                      then filter (λ u, isForPush u = true) (updates_ s) else [])
         (finished s).

(** [OnWriteDone]; popping an empty queue is undefined behaviour. *)
Definition OnWriteDone (s : Stream) (ok user_alive : bool) : result Stream :=
  if negb ok then Ok (finish (failedToPublish s user_alive)) else
  if bool_decide (state_ s = WAITING_ON_WRITE) then
    match updates_ s with
    | [] => Throw undefined
    | u :: us =>
        Ok (reply (mk_Stream (str_uuid s) READY us (close_after_drain_ s)
              (session_has_push_ s) (session_ s) (owner_active s)
              (started s) (written s ++ [u]) (moved s) (pushed s) (finished s)))
    end
  else Ok (close s).

(** [OnDone]: [self_], the only owner of the reactor, is reset. *)
Definition OnDone (s : Stream) : Stream := with_state s DONE.

Definition set_env (s : Stream) (sess : option uuid) (active : bool) : Stream :=
  mk_Stream (str_uuid s) (state_ s) (updates_ s) (close_after_drain_ s)
    (session_has_push_ s) sess active (started s) (written s) (moved s) (pushed s) (finished s).

(** [pb::ClientUpdate] and [Session::publishClientUpdate]
    (src/src/backend/lib/UserContext.cpp): an announcement is sent once per
    session and never numbered by the log.  [None] for the publisher is a
    weak pointer that no longer locks. *)
Record ClientUpdate := mk_ClientUpdate { version_code : Z; version : string; required : bool }.
#[global] Instance ClientUpdate_eq_dec : EqDecision ClientUpdate.
Proof. solve_decision. Defined.

Definition publishClientUpdate (announced : option ClientUpdate) (pub : option Stream)
    (serialize : ClientUpdate → string) (u : ClientUpdate)
    : option ClientUpdate * option Stream * bool :=
  if bool_decide (announced = Some u) then (announced, pub, false) else
  match pub with
  | None => (announced, None, false)
  | Some s =>
      let '(s', ok) := publish s (mk_Update 0 (Other (serialize u))) in
      (Some u, Some s', ok)
  end.

(** What happens to a stream between two calls of the log. *)
Inductive stream_step : Stream → Stream → Prop :=
| ev_write_done s ok ua s' : OnWriteDone s ok ua = Ok s' → stream_step s s'
| ev_close s : stream_step s (close s)
| ev_drain s : stream_step s (requestCloseAfterDrain s)
| ev_push s b : stream_step s (setHasPush s b)
| ev_done s : finished s ≠ 0%nat → stream_step s (OnDone s)
| ev_session_gone s : stream_step s (set_env s None (owner_active s))
| ev_shutdown s : stream_step s (set_env s (session_ s) false)
| ev_client_update s w : stream_step s (publish s (mk_Update 0 w)).1.

Definition stream_accepted (s : Stream) : list Update :=
  written s ++ moved s ++ updates_ s.
Definition stream_dead (s : Stream) : Prop :=
  2 ≤ state_rank (state_ s) ∨ session_ s = None.

(** ** The invariant of a stream *)
Definition stream_wf (s : Stream) : Prop :=
  match state_ s with
  | READY => updates_ s = [] ∧ moved s = [] ∧ started s = written s ∧ finished s = 0%nat
  | WAITING_ON_WRITE =>
      (∃ u us, updates_ s = u :: us ∧ started s = written s ++ [u]) ∧
      moved s = [] ∧ finished s = 0%nat
  | FAILED => False
  | FINISHING | DONE => finished s = 1%nat
  end ∧ started s `prefix_of` stream_accepted s.

Ltac stream_crush :=
  repeat match goal with
  | H : stream_wf _ |- _ => destruct H
  | s : Stream |- _ => destruct s
  | H : _ ∧ _ |- _ => destruct H
  | H : ∃ _, _ |- _ => destruct H
  end; simplify_eq/=.

Lemma finish_wf_ready s :
  stream_wf s → stream_wf (finish s).
Proof.
  intros [Hs Hp]. unfold finish, stream_wf, stream_accepted in *.
  destruct s as [? st]; destruct st; cbn in *; destruct_and?; try done; split; cbn; auto with lia.
Qed.

(** [reply] starts the next write, or finishes a stream that is done. *)
Lemma reply_wf s :
  state_ s = READY → moved s = [] → started s = written s → finished s = 0%nat →
  stream_wf (reply s).
Proof.
  destruct s as [id st us cad hp se ac sta wr mo pu fi]. cbn. intros -> -> -> ->.
  unfold reply, finish, stream_wf, stream_accepted. cbn.
  rewrite bool_decide_true by done. cbn.
  assert (∀ l : list Update, wr `prefix_of` wr ++ l) as Hpre by (intros; by exists l).
  destruct us as [|u us]; cbn.
  - destruct (cad || negb ac); cbn; repeat split; auto.
  - destruct ac; cbn; [|by repeat split; auto].
    split; [split; [by exists u, us|done]|]. exists us. by rewrite <-app_assoc.
Qed.

Lemma reply_idle s : state_ s ≠ READY → reply s = s.
Proof. intros H. unfold reply. by rewrite bool_decide_false. Qed.

Lemma reply_same s :
  written (reply s) = written s ∧ moved (reply s) = moved s ∧
  updates_ (reply s) = updates_ s ∧ str_uuid (reply s) = str_uuid s ∧
  session_ (reply s) = session_ s ∧ pushed (reply s) = pushed s.
Proof.
  destruct s as [id st us cad hp se ac sta wr mo pu fi].
  unfold reply, finish. cbn.
  destruct (negb (bool_decide (st = READY))); [done|].
  destruct us; cbn; destruct cad, ac; cbn; try done; by destruct st.
Qed.

Lemma finish_same s :
  written (finish s) = written s ∧ moved (finish s) = moved s ∧
  updates_ (finish s) = updates_ s ∧ str_uuid (finish s) = str_uuid s ∧
  session_ (finish s) = session_ s ∧ pushed (finish s) = pushed s ∧
  3 ≤ state_rank (state_ (finish s)).
Proof.
  unfold finish. destruct (Z.leb_spec (state_rank FINISHING) (state_rank (state_ s)));
    cbn in *; split_and!; done || lia.
Qed.

Lemma publish_wf s u : stream_wf s → stream_wf (publish s u).1.
Proof.
  intros Hwf. unfold publish. destruct (session_ s); [|by apply finish_wf_ready].
  destruct Hwf as [Hs Hp].
  destruct (state_ s) eqn:E; cbn; try done; try (split; [by rewrite E|done]).
  - apply reply_wf; cbn; naive_solver.
  - rewrite reply_idle by (cbn; congruence).
    destruct Hs as [(u0 & us & Hu & Hst) [Hm Hf]].
    unfold stream_wf, stream_accepted in *. cbn. rewrite E, Hm, Hu, Hst in *. cbn in *.
    split; [|by eexists (us ++ [u]); rewrite <-app_assoc].
    split; [|done]. by exists u0, (us ++ [u]).
Qed.

Lemma failedToPublish_accepted s ua :
  stream_accepted (failedToPublish s ua) = stream_accepted s.
Proof.
  unfold failedToPublish, stream_accepted. cbn.
  repeat case_if; cbn; rewrite ?app_nil_r, <-?app_assoc; done.
Qed.

Lemma failedToPublish_same s ua :
  started (failedToPublish s ua) = started s ∧
  written (failedToPublish s ua) = written s ∧
  finished (failedToPublish s ua) = finished s ∧
  str_uuid (failedToPublish s ua) = str_uuid s ∧
  session_ (failedToPublish s ua) = session_ s ∧
  state_ (failedToPublish s ua) =
    (if state_rank (state_ s) <? 2 then FAILED else state_ s).
Proof. unfold failedToPublish. cbn. repeat case_if; cbn; done. Qed.

Lemma OnWriteDone_wf s ok ua s' :
  stream_wf s → OnWriteDone s ok ua = Ok s' → stream_wf s'.
Proof.
  intros Hwf. unfold OnWriteDone. destruct ok; cbn.
  - case_bool_decide as E; [|intros [= <-]; by apply finish_wf_ready].
    destruct Hwf as [Hs Hp]. rewrite E in Hs.
    destruct Hs as [(u & us & Hu & Hst) [Hm Hf]]. rewrite Hu. intros [= <-].
    by apply reply_wf.
  - intros [= <-].
    destruct (failedToPublish_same s ua) as (Hst & Hwr & Hfi & _ & _ & Hstate).
    pose proof (failedToPublish_accepted s ua) as Hacc.
    destruct Hwf as [Hs Hp]. rewrite <-Hst, <-Hacc in Hp. revert Hp.
    unfold finish. rewrite Hstate.
    destruct (state_ s) eqn:E; cbn; try done; intros Hp;
      (split; [cbn; rewrite ?Hstate, ?E; cbn; rewrite ?Hfi; naive_solver|done]).
Qed.

Lemma OnWriteDone_defined s ok ua : stream_wf s → ∃ s', OnWriteDone s ok ua = Ok s'.
Proof.
  intros [Hs _]. unfold OnWriteDone. destruct ok; cbn; [|by eauto].
  case_bool_decide as E; [|by eauto]. rewrite E in Hs.
  destruct Hs as [(u & us & -> & _) _]. eauto.
Qed.

Lemma stream_step_wf s s' : stream_wf s → stream_step s s' → stream_wf s'.
Proof.
  intros Hwf Hstep. destruct Hstep as [s ok ua s' E|s|s|s b|s Hd|s|s|s w].
  - by eapply OnWriteDone_wf.
  - by apply finish_wf_ready.
  - destruct Hwf as [Hs Hp]. unfold requestCloseAfterDrain.
    destruct (decide (state_ s = READY)) as [E|E].
    + rewrite E in Hs. by apply reply_wf; cbn; naive_solver.
    + by rewrite reply_idle.
  - by destruct s.
  - destruct Hwf as [Hs Hp]. split; [cbn|done]. destruct (state_ s); naive_solver.
  - by destruct s.
  - by destruct s.
  - by apply publish_wf.
Qed.

Lemma new_stream_wf id dev hp ac : stream_wf (new_stream id dev hp ac).
Proof. by repeat split; apply prefix_nil. Qed.

(** The events of a stream, the calls of the log included. *)
Inductive stream_event : Stream → Stream → Prop :=
| own_event s s' : stream_step s s' → stream_event s s'
| log_event s u : stream_event s (publish s u).1.

Lemma stream_event_wf s s' : stream_wf s → stream_event s s' → stream_wf s'.
Proof.
  intros Hwf Hev. revert Hwf. destruct Hev; intros Hwf;
    [by eapply stream_step_wf|by apply publish_wf].
Qed.

(** C11: The wire of a subscription.  From a new stream, whatever the
    sequence of publications, write completions, failures, closes and
    shutdowns: the updates passed to [StartWrite] are a prefix of those the
    stream accepted, in the same order; at most one write is in flight; an
    idle stream has an empty queue; [Finish] is called at most once, exactly
    when the stream has left its working states; and a write completion
    never pops an empty queue. *)
Theorem stream_wire_fifo (id dev : uuid) (hp ac : bool) (s : Stream) :
  rtc stream_event (new_stream id dev hp ac) s →
  started s `prefix_of` stream_accepted s ∧
  (state_ s = WAITING_ON_WRITE → ∃ u, started s = written s ++ [u]) ∧
  (state_ s = READY → started s = written s ∧ updates_ s = []) ∧
  (finished s ≤ 1)%nat ∧
  (finished s = 1%nat ↔ 3 ≤ state_rank (state_ s)) ∧
  ∀ ok ua, is_ok (OnWriteDone s ok ua) = true.
Proof.
  intros Hsteps.
  assert (stream_wf s) as Hwf.
  { pose proof (new_stream_wf id dev hp ac) as Hwf. revert Hwf.
    induction Hsteps as [|s1 s2 s3 Hstep _ IH]; [done|].
    intros Hwf. by eapply IH, stream_event_wf. }
  pose proof (λ ok ua, OnWriteDone_defined s ok ua Hwf) as Hdef.
  destruct Hwf as [Hs Hp]. split_and!; try done.
  - intros E. rewrite E in Hs. naive_solver.
  - intros E. rewrite E in Hs. naive_solver.
  - destruct (state_ s); naive_solver lia.
  - destruct (state_ s); cbn; naive_solver lia.
  - intros ok ua. by destruct (Hdef ok ua) as [s' ->].
Qed.

(** No pushable update is lost with a broken stream.  When a write
    fails on a device that has push enabled, every update still queued is
    taken out of the queue, the one in flight included, and those meant
    for push are handed to the push service in their order; without push
    nothing is handed over.  Either way the stream refuses every later
    update. *)
Theorem write_failure_falls_back_to_push (s s' : Stream) :
  stream_wf s → OnWriteDone s false true = Ok s' →
  pushed s' = pushed s ++
    (if session_has_push_ s then filter (λ u, isForPush u = true) (updates_ s) else []) ∧
  updates_ s' = (if session_has_push_ s then [] else updates_ s) ∧
  stream_accepted s' = stream_accepted s ∧
  ∀ u, (publish s' u).2 = false.
Proof.
  intros Hwf. unfold OnWriteDone. cbn. intros [= <-].
  set (f := failedToPublish s true).
  destruct (finish_same f) as (Hw & Hm & Hu & _ & Hse & Hpu & Hrank).
  assert (∀ u, (publish (finish f) u).2 = false) as Hrefuse.
  { intros u. unfold publish. destruct (session_ _); [|done].
    destruct (Z.leb_spec (state_rank FAILED) (state_rank (state_ (finish f)))); [done|].
    cbn in *. lia. }
  assert (stream_accepted (finish f) = stream_accepted s) as Hacc.
  { unfold stream_accepted. rewrite Hw, Hm, Hu. by apply failedToPublish_accepted. }
  rewrite Hpu, Hu. split_and!; [..|done|done].
  - unfold f, failedToPublish. destruct (session_has_push_ s) eqn:E;
      repeat (case_if || case_bool_decide); cbn in *; rewrite ?E in *; cbn in *;
      simplify_eq; rewrite ?app_nil_r; try done; try congruence;
      match goal with H : updates_ s = [] |- _ => rewrite H end; by rewrite app_nil_r.
  - unfold f, failedToPublish. destruct (session_has_push_ s) eqn:E;
      repeat (case_if || case_bool_decide); cbn in *; rewrite ?E in *; cbn in *;
      simplify_eq; try done; congruence.
Qed.

(** ** The stream as a publisher of the log *)
Lemma publish_accepted s u :
  stream_wf s → (publish s u).2 = true →
  stream_accepted (publish s u).1 = stream_accepted s ++ [u].
Proof.
  intros [Hs _]. unfold publish. destruct (session_ s); [|done].
  destruct (Z.leb_spec (state_rank FAILED) (state_rank (state_ s))) as [|Hlt]; [done|].
  intros _. cbn [fst]. unfold stream_accepted.
  destruct (reply_same (with_queue s (updates_ s ++ [u]))) as (-> & -> & -> & _).
  cbn. assert (moved s = []) as ->.
  { destruct (state_ s); cbn in Hlt; naive_solver lia. }
  cbn. by rewrite app_assoc.
Qed.

Lemma publish_refused s u :
  (publish s u).2 = false →
  stream_accepted (publish s u).1 = stream_accepted s ∧ stream_dead (publish s u).1.
Proof.
  unfold publish, stream_dead, close. destruct (session_ s) eqn:E.
  - destruct (Z.leb_spec (state_rank FAILED) (state_rank (state_ s))); cbn in *; [|done].
    intros _. split; [done|left; lia].
  - intros _. cbn. destruct (finish_same s) as (Hw & Hm & Hu & _ & Hse & _ & Hr).
    unfold stream_accepted. rewrite Hw, Hm, Hu, Hse. auto.
Qed.

Lemma publish_keeps s u :
  str_uuid (publish s u).1 = str_uuid s ∧ session_ (publish s u).1 = session_ s.
Proof.
  unfold publish, close. destruct (session_ s) eqn:E; [case_if|]; cbn; [done|..].
  - destruct (reply_same (with_queue s (updates_ s ++ [u]))) as (_&_&_& -> & -> & _). done.
  - destruct (finish_same s) as (_&_&_& -> & -> & _). done.
Qed.

Lemma publish_when_dead s u : stream_dead s → (publish s u).2 = false.
Proof.
  unfold publish, stream_dead. intros Hd. destruct (session_ s) eqn:E; [|done].
  destruct Hd as [Hd|]; [|done].
  destruct (Z.leb_spec (state_rank FAILED) (state_rank (state_ s))); [done|].
  cbn in *. lia.
Qed.

Lemma reply_rank s : state_rank (state_ s) ≤ state_rank (state_ (reply s)) ∨ state_ s = READY.
Proof. destruct (decide (state_ s = READY)); [by right|left]. by rewrite reply_idle. Qed.

Lemma reply_dead s : stream_dead s → stream_dead (reply s).
Proof.
  unfold stream_dead. destruct (reply_same s) as (_&_&_&_& -> & _).
  intros [Hd|]; [left|by right].
  destruct (reply_rank s) as [|E]; [lia|]. rewrite E in Hd. cbn in Hd. lia.
Qed.

Lemma finish_dead s : stream_dead (finish s).
Proof. left. destruct (finish_same s) as (_&_&_&_&_&_&?). lia. Qed.

Lemma publish_stays_dead s u : stream_dead s → stream_dead (publish s u).1.
Proof.
  intros Hd. apply publish_refused. by apply publish_when_dead.
Qed.

Lemma stream_step_same s s' :
  stream_wf s → stream_step s s' →
  log_ids (stream_accepted s') = log_ids (stream_accepted s) ∧
  str_uuid s' = str_uuid s ∧ (stream_dead s → stream_dead s').
Proof.
  intros Hwf Hstep. destruct Hstep as [s ok ua s' E|s|s|s b|s Hd|s|s|s w].
  - unfold OnWriteDone in E. destruct ok; cbn in E.
    + case_bool_decide as Hst.
      * destruct Hwf as [Hs _]. rewrite Hst in Hs.
        destruct Hs as [(u & us & Hu & _) [Hm _]]. rewrite Hu in E.
        injection E as <-. unfold stream_accepted at 1.
        match goal with |- context [reply ?r] =>
          destruct (reply_same r) as (-> & -> & -> & -> & Hse & _) end.
        cbn in *. unfold stream_accepted. rewrite Hm, Hu. cbn.
        rewrite <-app_assoc. split_and!; [done..|].
        intros [Hd|Hd]; [rewrite Hst in Hd; cbn in Hd; lia|].
        right. rewrite Hm in Hse. exact (eq_trans Hse Hd).
      * injection E as <-. unfold close.
        destruct (finish_same s) as (Hw & Hm & Hu & Hi & _).
        unfold stream_accepted. rewrite Hw, Hm, Hu.
        split_and!; [done..|intros; apply finish_dead].
    + injection E as <-. set (f := failedToPublish s ua).
      destruct (finish_same f) as (Hw & Hm & Hu & Hi & _).
      unfold stream_accepted at 1. rewrite Hw, Hm, Hu, Hi.
      change (written f ++ moved f ++ updates_ f) with (stream_accepted f).
      unfold f. rewrite failedToPublish_accepted.
      destruct (failedToPublish_same s ua) as (_&_&_& -> & _).
      split_and!; [done..|intros; apply finish_dead].
  - destruct (finish_same s) as (Hw & Hm & Hu & Hi & _). unfold close, stream_accepted.
    rewrite Hw, Hm, Hu. split_and!; [done..|intros; apply finish_dead].
  - unfold requestCloseAfterDrain, stream_accepted at 1.
    match goal with |- context [reply ?r] =>
      destruct (reply_same r) as (-> & -> & -> & -> & _) end.
    split_and!; [done..|]. intros Hd. by apply reply_dead.
  - done.
  - split_and!; [done..|]. intros _. left. cbn. lia.
  - split_and!; [done..|]. intros _. by right.
  - done.
  - destruct (publish_keeps s (mk_Update 0 w)) as [-> _].
    destruct (publish s (mk_Update 0 w)).2 eqn:Eb.
    + rewrite publish_accepted by done. rewrite log_ids_app.
      split_and!; [by rewrite app_nil_r|done|]. intros Hd. by apply publish_stays_dead.
    + destruct (publish_refused s _ Eb) as [-> ?]. done.
Qed.

Record LiveStream := mk_Live { the_stream : Stream; the_wf : stream_wf the_stream }.

Definition live_publish (p : LiveStream) (u : Update) : LiveStream * bool :=
  (mk_Live (publish (the_stream p) u).1 (publish_wf _ u (the_wf p)),
   (publish (the_stream p) u).2).

#[export] Program Instance LiveStream_publisher : PublisherIface LiveStream := {|
  pub_uuid p := str_uuid (the_stream p);
  expired p := bool_decide (state_ (the_stream p) = DONE);
  session_device p := session_ (the_stream p);
  pub_publish := live_publish;
  accepted p := stream_accepted (the_stream p);
  dead p := stream_dead (the_stream p);
  evolve p p' := stream_step (the_stream p) (the_stream p')
|}.
Next Obligation.
  intros [s wf] u p' [= <- Hb]. cbn. by apply publish_accepted.
Qed.
Next Obligation.
  intros [s wf] u p' [= <- Hb]. cbn. by apply publish_refused.
Qed.
Next Obligation. intros [s wf] u. cbn. apply publish_keeps. Qed.
Next Obligation. intros [s wf] u. cbn. apply publish_when_dead. Qed.
Next Obligation. intros [s wf] E%bool_decide_eq_true. left. cbn in *. rewrite E. cbn. lia. Qed.
Next Obligation. intros [s wf] E. by right. Qed.
Next Obligation. intros [s wf] [s' wf'] H. cbn in *. by apply stream_step_same. Qed.
Next Obligation. intros [s wf] [s' wf'] H. cbn in *. by apply stream_step_same. Qed.
Next Obligation. intros [s wf] [s' wf'] H Hd. cbn in *. revert Hd. by apply stream_step_same. Qed.

(** ** Concrete runs *)
Definition demo_stream (id : uuid) : LiveStream :=
  mk_Live (new_stream id "phone" true true) (new_stream_wf id "phone" true true).

Definition demo_update (i : Z) : Update := mk_Update i (Other "x").

(** A log that stands at 7 and still retains 5, 6 and 7. *)
Definition demo_log : UserContext LiveStream :=
  mk_UserContext 7 0 [demo_update 5; demo_update 6; demo_update 7] [].

Lemma demo_log_wf : log_wf demo_log.
Proof.
  unfold log_wf. cbn [retained_updates publish_message_id demo_log length].
  split_and!; [lia|lia|unfold kReplayBacklogLimit; lia|vm_compute; reflexivity].
Defined.

Lemma addPublisher_replays_exactly_witness :
  ∃ c' p', addPublisher demo_log (demo_stream "a") (Some 5) = (c', p', REPLAY_QUEUED) ∧
    messageId <$> accepted p' = [6; 7].
Proof.
  eexists _, _. split; [reflexivity|].
  pose proof (addPublisher_replays_exactly demo_log (demo_stream "a") 5 _ _
    demo_log_wf eq_refl) as H.
  exact (eq_trans (proj1 H) eq_refl).
Defined.

Lemma addPublisher_outside_window_witness :
  addPublisher demo_log (demo_stream "a") (Some 3) =
    (purgeExpiredPublishers demo_log, demo_stream "a", REPLAY_UNAVAILABLE).
Proof.
  apply (addPublisher_outside_window demo_log (demo_stream "a") 3 demo_log_wf).
  left. reflexivity.
Defined.

Lemma subscribers_gap_free_witness :
  ∃ s' : sys, rtc sys_step (mk_sys demo_log ∅) s' ∧
    length (publishers (ctx s')) = 1%nat ∧
    Forall (λ p, ∃ f, base s' !! pub_uuid p = Some f ∧
                      sub_ok (publish_message_id (ctx s')) f p) (publishers (ctx s')).
Proof.
  eexists. split; [|split].
  - eapply rtc_l.
    { eapply (step_subscribe _ (demo_stream "a") (Some 6));
        [reflexivity|reflexivity|cbn; lia|reflexivity]. }
    eapply rtc_l; [|apply rtc_refl].
    eapply (step_publish _ (Other "y")); [cbn; lia|reflexivity].
  - reflexivity.
  - apply (subscribers_gap_free (mk_sys demo_log ∅)); [exact demo_log_wf|reflexivity|].
    eapply rtc_l.
    { eapply (step_subscribe _ (demo_stream "a") (Some 6));
        [reflexivity|reflexivity|cbn; lia|reflexivity]. }
    eapply rtc_l; [|apply rtc_refl].
    eapply (step_publish _ (Other "y")); [cbn; lia|reflexivity].
Defined.

Lemma stream_wire_fifo_witness :
  let s := (publish (new_stream "a" "phone" true true) (demo_update 1)).1 in
  started s = [demo_update 1] ∧ started s `prefix_of` stream_accepted s.
Proof.
  cbv zeta. split; [reflexivity|].
  apply (stream_wire_fifo "a" "phone" true true).
  eapply rtc_l; [apply log_event|apply rtc_refl].
Defined.

Lemma write_failure_falls_back_to_push_witness :
  let s := (publish (new_stream "a" "phone" true true)
              (mk_Update 1 (CalendarEvents "c"))).1 in
  ∃ s', OnWriteDone s false true = Ok s' ∧ pushed s' = [mk_Update 1 (CalendarEvents "c")].
Proof.
  cbv zeta. eexists. split; [reflexivity|].
  eapply eq_trans.
  { eapply (write_failure_falls_back_to_push _ _
      (publish_wf _ _ (new_stream_wf "a" "phone" true true)) eq_refl). }
  reflexivity.
Defined.
