(* ===== verification/WriteAccess.v ===== *)
(** * The per-user write lock (src/src/backend/include/nextapp/UserContext.h)

    [mutatingUnaryHandler] runs every mutating request of a user under
    [acquireWriteAccess] / [releaseWriteAccess]: a flag and a queue of
    waiting coroutines, each one parked on a timer that the releasing request
    expires to hand the access over.  The model keeps the two fields of the
    source and adds who holds the access, who has been handed it but has not
    resumed yet, and the history of requests and grants. *)
From S2P Require Import Prelude.
Local Open Scope Z_scope.

Section write_access.
Context {R : Type}.   (* the requests (coroutines) of one user *)

Record WriteAccess := mk_WriteAccess {
  write_access_in_progress : bool;
  write_access_waiters : list R;
  handed : option R;         (* its timer has expired; it has not resumed *)
  holder : option R;         (* it has the [WriteAccessGuard] *)
  requested : list R;        (* the calls of [acquireWriteAccess], in order *)
  granted : list R           (* the guards given out, in order *)
}.

Definition initial : WriteAccess := mk_WriteAccess false [] None None [] [].

(** The critical section of [acquireWriteAccess]: a guard at once, or the
    end of the queue. *)
Definition acquireWriteAccess (w : WriteAccess) (r : R) : WriteAccess :=
  if negb (write_access_in_progress w)
  then mk_WriteAccess true (write_access_waiters w) (handed w) (Some r)
         (requested w ++ [r]) (granted w ++ [r])
  else mk_WriteAccess true (write_access_waiters w ++ [r]) (handed w) (holder w)
         (requested w ++ [r]) (granted w).

(** The coroutine whose timer expired leaves [async_wait] with its guard. *)
Definition resume (w : WriteAccess) : option WriteAccess :=
  match handed w with
  | Some r => Some (mk_WriteAccess (write_access_in_progress w) (write_access_waiters w)
                      None (Some r) (requested w) (granted w ++ [r]))
  | None => None
  end.

(** [releaseWriteAccess], by the destructor of the holder's guard. *)
Definition releaseWriteAccess (w : WriteAccess) : WriteAccess :=
  match write_access_waiters w with
  | [] => mk_WriteAccess false [] (handed w) None (requested w) (granted w)
  | next :: rest => mk_WriteAccess (write_access_in_progress w) rest (Some next) None
                      (requested w) (granted w)
  end.

(** Only a request that has a guard releases it. *)
Inductive wa_step : WriteAccess → WriteAccess → Prop :=
| wa_acquire w r : wa_step w (acquireWriteAccess w r)
| wa_resume w w' : resume w = Some w' → wa_step w w'
| wa_release w r : holder w = Some r → wa_step w (releaseWriteAccess w).

Definition one_owner (w : WriteAccess) : Prop :=
  match holder w, handed w with
  | Some _, Some _ => False
  | None, None => write_access_in_progress w = false ∧ write_access_waiters w = []
  | _, _ => write_access_in_progress w = true
  end.

Definition wa_ok (w : WriteAccess) : Prop :=
  one_owner w ∧
  requested w = granted w ++ option_list (handed w) ++ write_access_waiters w.

Lemma wa_ok_step w w' : wa_ok w → wa_step w w' → wa_ok w'.
Proof.
  intros Hok Hstep. revert Hok.
  destruct Hstep as [w r|w w' Hr|w r Hh]; unfold wa_ok, one_owner; intros [Ho Hq];
    destruct w as [ip ws ha ho rq gr]; cbn in *.
  - unfold acquireWriteAccess. cbn.
    destruct ho, ha; cbn in *; try done; split_ands; subst ip; subst; cbn;
      (split; [done|]); cbn; by rewrite <-?app_assoc.
  - unfold resume in Hr. cbn in Hr. destruct ha as [r|]; [|done]. injection Hr as <-.
    destruct ho; [done|]. cbn. split; [done|]. by rewrite Hq, <-app_assoc.
  - subst ho. destruct ha; [done|]. unfold releaseWriteAccess. cbn.
    destruct ws; cbn; by rewrite Hq.
Qed.

End write_access.

Arguments WriteAccess : clear implicits.

