(* ===== verification/Text.v ===== *)
(** * Strings as the program handles them

    The pieces of [std::string_view] and [std::from_chars] that several
    components use: positions, substrings, trimming and the decimal parser
    for unsigned integers.  A string is its list of characters. *)
From S2P Require Import Prelude.
From Stdlib Require Export Ascii.
Local Open Scope Z_scope.

Abbreviation chars := (list ascii).

(** A C++ literal. *)
Definition lit (s : string) : chars := String.list_ascii_of_string s.

Definition char_code (c : ascii) : Z := Z.of_N (N_of_ascii c).

(** [sv.find(c, from)]; [None] is [npos]. *)
Fixpoint find_from (c : ascii) (i : nat) (s : chars) : option nat :=
  match s with
  | [] => None
  | a :: s => if Ascii.eqb a c then Some i else find_from c (S i) s
  end.
Definition find (c : ascii) (s : chars) : option nat := find_from c 0 s.

(** [sv.substr(pos, n)] for [pos <= size]. *)
Definition substr (pos n : nat) (s : chars) : chars := take n (drop pos s).

Definition one_of (set : chars) (a : ascii) : bool := existsb (Ascii.eqb a) set.

(** Drop the characters of [set] from the front. *)
Fixpoint drop_set (set s : chars) : chars :=
  match s with
  | [] => []
  | a :: s' => if one_of set a then drop_set set s' else s
  end.

Definition trim_set (set s : chars) : chars :=
  reverse (drop_set set (reverse (drop_set set s))).

Definition is_digit (a : ascii) : bool :=
  (48 <=? char_code a) && (char_code a <=? 57).

Fixpoint decimal (acc : Z) (s : chars) : Z :=
  match s with
  | [] => acc
  | a :: s => decimal (acc * 10 + (char_code a - 48)) s
  end.

(** [std::from_chars] into a [uint64_t], required to consume everything:
    [None] for no digits, a foreign character or a value out of range. *)
Definition from_chars_u64 (s : chars) : option Z :=
  match s with
  | [] => None
  | _ => if forallb is_digit s
         then if decimal 0 s <? 2 ^ 64 then Some (decimal 0 s) else None
         else None
  end.

Definition chars_eqb (a b : chars) : bool := bool_decide (a = b).

#[global] Instance ascii_eq_dec' : EqDecision ascii := ascii_dec.

(** ** Lemmas *)
Lemma is_digit_range a : is_digit a = true → 0 ≤ char_code a - 48 ≤ 9.
Proof. unfold is_digit. intros H. split_bools. lia. Qed.

Lemma decimal_nonneg acc s :
  forallb is_digit s = true → 0 ≤ acc → 0 ≤ decimal acc s.
Proof.
  revert acc. induction s as [|a s IH]; intros acc Hd Ha; cbn in *; [done|].
  apply andb_true_iff in Hd as [Hd Hs]. apply is_digit_range in Hd.
  apply IH; [done|lia].
Qed.

Lemma from_chars_u64_range s z : from_chars_u64 s = Some z → 0 ≤ z < 2 ^ 64.
Proof.
  unfold from_chars_u64. destruct s as [|a s]; [done|].
  generalize (a :: s). intros l.
  destruct (forallb _ l) eqn:E; [|done].
  destruct (Z.ltb_spec (decimal 0 l) (2 ^ 64)) as [Hlt|]; [|done].
  intros H. injection H as <-. split; [|exact Hlt].
  apply decimal_nonneg; [exact E|lia].
Qed.

Lemma drop_set_app set s : ∃ p, s = p ++ drop_set set s ∧ Forall (λ a, one_of set a = true) p.
Proof.
  induction s as [|a s (p & Hp & Hf)]; [by exists []|]. cbn.
  destruct (one_of set a) eqn:E; [|by exists []].
  exists (a :: p). split; [by rewrite Hp at 1|by constructor].
Qed.

Lemma drop_set_head set s a s' : drop_set set s = a :: s' → one_of set a = false.
Proof.
  induction s as [|b s IH]; cbn; [done|].
  destruct (one_of set b) eqn:E; [done|]. by intros [= <- <-].
Qed.
