(* ===== verification/Replay.v ===== *)
(** * Replay protection of requests
    (src/src/backend/include/nextapp/UserContext.h,
     src/src/backend/lib/UserContext.cpp,
     src/src/backend/lib/grpc/GrpcServer.cpp)

    A client numbers its requests per instance; the server remembers the
    highest number per device and instance, in memory and, across sessions,
    in the table [request_state], and refuses a number it has seen. *)
From Stdlib Require Import Sorting.Sorted.
From S2P Require Import Prelude Text.
Local Open Scope Z_scope.
Local Open Scope nextapp_scope.

(** ** [ValueContainer]: one value, or a vector from the second on *)
Section ValueContainer.
Context {V : Type}.   (* T is [std::optional<V>], and [T{}] is [nullopt] *)

Inductive storage :=
| holds_single (v : option V)
| holds_vector (vs : list (option V)).

Definition empty_container : storage := holds_single None.

Definition vc_size (s : storage) : nat :=
  match s with holds_single _ => 1 | holds_vector vs => length vs end.

Definition vc_get (s : storage) (index : nat) (emptyVal : option (option V)) : option V :=
  match s with
  | holds_single v =>
      if bool_decide (index = 0%nat) then v
      else match emptyVal with Some e => e | None => None end
  | holds_vector vs =>
      match vs !! index with
      | Some v => v
      | None => match emptyVal with Some e => e | None => None end
      end
  end.

(** [vec.resize(n)] for a longer vector. *)
Definition resize_to (n : nat) (vs : list (option V)) : list (option V) :=
  vs ++ replicate (n - length vs) None.

Definition vc_set (maxT : nat) (s : storage) (index : nat) (value : option V) : result storage :=
  if (maxT <=? index)%nat then Throw runtime_error else
  match s with
  | holds_single v =>
      if bool_decide (index = 0%nat) then Ok (holds_single value)
      else Ok (holds_vector
        (<[index := value]> (<[0%nat := v]> (replicate (S index) None))))
  | holds_vector vs =>
      let vs := if (length vs <=? index)%nat then resize_to (S index) vs else vs in
      Ok (holds_vector (<[index := value]> vs))
  end.

Definition vc_wf (maxT : nat) (s : storage) : Prop :=
  match s with holds_single _ => True | holds_vector vs => (0 < length vs ≤ maxT)%nat end.

Lemma vc_set_spec (maxT : nat) (s : storage) (i : nat) (v : option V) :
  vc_wf maxT s →
  if (i <? maxT)%nat
  then ∃ s', vc_set maxT s i v = Ok s' ∧ vc_wf maxT s' ∧
         ∀ j, vc_get s' j None = if bool_decide (j = i) then v else vc_get s j None
  else vc_set maxT s i v = Throw runtime_error.
Proof.
  intros Hwf. unfold vc_set.
  destruct (Nat.ltb_spec i maxT) as [Hi|Hi].
  2: { destruct (Nat.leb_spec maxT i); [done|lia]. }
  destruct (Nat.leb_spec maxT i) as [|_]; [lia|].
  destruct s as [w|vs].
  - case_bool_decide as Hi0.
    + eexists. split; [done|]. split; [done|]. intros j. subst. cbn.
      repeat case_bool_decide; done.
    + eexists. split; [done|]. split.
      { cbn. rewrite !length_insert. cbn. rewrite length_replicate. lia. }
      intros j. cbn [vc_get]. destruct (decide (j = i)) as [->|Hji].
      { rewrite (bool_decide_true (i = i)) by done.
        by rewrite list_lookup_insert_eq by (rewrite length_insert, length_replicate; lia). }
      rewrite (bool_decide_false (j = i)), list_lookup_insert_ne by done.
      case_bool_decide as Hj; subst.
      * by rewrite list_lookup_insert_eq by (rewrite length_replicate; lia).
      * rewrite list_lookup_insert_ne by lia.
        destruct (replicate (S i) None !! j) eqn:E; [|done].
        by apply lookup_replicate in E as [-> _].
  - eexists. split; [done|].
    set (vs' := if (length vs <=? i)%nat then _ else vs).
    assert (i < length vs' ∧ length vs' ≤ maxT)%nat as [Hl Hm].
    { unfold vs', resize_to. cbn in Hwf. destruct (Nat.leb_spec (length vs) i); [|lia].
      rewrite length_app, length_replicate. lia. }
    split; [cbn; rewrite length_insert; lia|].
    intros j. cbn [vc_get]. case_bool_decide as Hj; subst.
    + by rewrite list_lookup_insert_eq.
    + rewrite list_lookup_insert_ne by done.
      unfold vs', resize_to. destruct (Nat.leb_spec (length vs) i); [|done].
      rewrite lookup_app. destruct (vs !! j) eqn:E; [done|].
      destruct (replicate _ None !! _) eqn:E2; [|done].
      by apply lookup_replicate in E2 as [-> _].
Qed.

(** A [ValueContainer] behaves as an array of [maxT] optional values:
    [set] succeeds exactly inside the bound, [get] then returns the value
    just set there and every other slot is unchanged, whichever of its two
    representations the container is in, and it never outgrows the bound. *)
Theorem ValueContainer_refines_array (maxT : nat) (s : storage) (i : nat) (v : option V) :
  vc_wf maxT s →
  if (i <? maxT)%nat
  then ∃ s', vc_set maxT s i v = Ok s' ∧ vc_wf maxT s' ∧
         ∀ j, vc_get s' j None = if bool_decide (j = i) then v else vc_get s j None
  else vc_set maxT s i v = Throw runtime_error.
Proof. apply vc_set_spec. Qed.
End ValueContainer.
Arguments storage : clear implicits.

Lemma ValueContainer_refines_array_witness :
  vc_set 10 (holds_single (Some 4)) 3 (Some 7) =
    Ok (holds_vector [Some 4; None; None; Some 7]) ∧
  ∃ s', vc_set 10 (holds_single (Some 4)) 3 (Some 7) = Ok s' ∧ vc_wf 10 s' ∧
    ∀ j, vc_get s' j None = if bool_decide (j = 3%nat) then Some 7
                            else vc_get (holds_single (Some 4)) j None.
Proof.
  split; [reflexivity|].
  exact (ValueContainer_refines_array 10 (holds_single (Some 4)) 3 (Some 7) I).
Defined.

(** ** The replay check *)
Abbreviation uuid := string.

(** [UserContext::devices_], with the field of [Device] the check uses, and
    the rows of [request_state] of this user. *)
Record ReplayState := mk_ReplayState {
  devices_ : gmap uuid (option (storage Z));
  request_state : gmap (uuid * Z) Z
}.

Definition maxInstances : nat := 10.

(** [devices_[deviceId].last_request_id]; the subscript creates the entry. *)
Definition last_request_id (st : ReplayState) (dev : uuid) : option (storage Z) :=
  default None (devices_ st !! dev).

Definition set_last_request_id (st : ReplayState) (dev : uuid) (c : option (storage Z))
    : ReplayState :=
  mk_ReplayState (<[dev := c]> (devices_ st)) (request_state st).

Definition validateInstanceId (instanceId : Z) : result unit :=
  throw_if ((instanceId <? 1) || (10 <? instanceId)) (server_err Error.INVALID_ARGUMENT).

Definition index_of (instanceId : Z) : nat := Z.to_nat (instanceId - 1).

(** [last_request_id->set(index, value)], creating the container first. *)
Definition remember (st : ReplayState) (dev : uuid) (instanceId value : Z)
    : result ReplayState :=
  let c := default empty_container (last_request_id st dev) in
  c' ← vc_set maxInstances c (index_of instanceId) (Some value);
  Ok (set_last_request_id st dev (Some c')).

(** The first critical section: the answer, if the number is in memory. *)
Definition check_in_memory (st : ReplayState) (dev : uuid) (instanceId reqId : Z)
    : result (ReplayState * option bool) :=
  _ ← validateInstanceId instanceId;
  match last_request_id st dev with
  | None => Ok (set_last_request_id st dev None, None)
  | Some c =>
      match vc_get c (index_of instanceId) None with
      | None => Ok (set_last_request_id st dev (Some c), None)
      | Some last =>
          st' ← remember st dev instanceId (Z.max last reqId);
          Ok (st', Some (reqId <=? last))
      end
  end.

(** The lookup in the database, which also fills the memory. *)
Definition getLastReqId (st : ReplayState) (dev : uuid) (instanceId : Z)
    (lookupInDbOnly : bool) : result (ReplayState * option Z) :=
  _ ← validateInstanceId instanceId;
  let from_db :=
    match request_state st !! (dev, instanceId) with
    | None => Ok (st, None)
    | Some v =>
        st' ← remember st dev instanceId (u32 v);
        Ok (st', Some (u32 v))
    end in
  if lookupInDbOnly then from_db else
  match last_request_id st dev ≫= λ c, vc_get c (index_of instanceId) None with
  | Some v => Ok (st, Some v)
  | None => from_db
  end.

(** The last critical section. *)
Definition store_checked (st : ReplayState) (dev : uuid) (instanceId reqId last : Z)
    : result (ReplayState * bool) :=
  st' ← remember st dev instanceId (Z.max last reqId);
  Ok (st', reqId <=? last).

(** [checkForReplay], with nothing else running on the user in between. *)
Definition checkForReplay (st : ReplayState) (dev : uuid) (instanceId reqId : Z)
    : result (ReplayState * bool) :=
  '(st1, in_memory) ← check_in_memory st dev instanceId reqId;
  match in_memory with
  | Some rval => Ok (st1, rval)
  | None =>
      '(st2, v) ← getLastReqId st1 dev instanceId true;
      store_checked st2 dev instanceId reqId (default 0 v)
  end.

(** [resetReplay] and [saveLastReqIds]: every value in memory is written. *)
Definition saveLastReqIds (st : ReplayState) (dev : uuid) : ReplayState :=
  match last_request_id st dev with
  | None => st
  | Some c =>
      mk_ReplayState (devices_ st)
        (foldr (λ i db,
           match vc_get c i (Some (Some 0)) with
           | None => db
           | Some v => <[(dev, Z.of_nat i + 1) := v]> db
           end) (request_state st) (seq 0 (vc_size c)))
  end.

Definition resetReplay (st : ReplayState) (dev : uuid) (instanceId : Z)
    : result ReplayState :=
  _ ← validateInstanceId instanceId;
  st' ← remember st dev instanceId 0;
  Ok (saveLastReqIds st' dev).

(** The metadata of a request, [GrpcServer::isReplay] and [getInstanceId]. *)
Definition parseMetadataUint : chars → option Z := from_chars_u64.

Definition getInstanceId (metadata : option chars) : Z :=
  match metadata ≫= parseMetadataUint with
  | Some id => if 0 <? id then u32 id else 1
  | None => 1
  end.

Definition isReplay (st : ReplayState) (dev : uuid) (req_id instance_id : option chars)
    : result (ReplayState * bool) :=
  match req_id ≫= parseMetadataUint with
  | Some id =>
      if 0 <? id then checkForReplay st dev (getInstanceId instance_id) (u32 id)
      else Ok (st, false)
  | None => Ok (st, false)
  end.

(** ** What the check guarantees *)

(** The highest number the server knows for an instance of a device. *)
Definition known (st : ReplayState) (dev : uuid) (instanceId : Z) : Z :=
  match last_request_id st dev ≫= λ c, vc_get c (index_of instanceId) None with
  | Some v => v
  | None => match request_state st !! (dev, instanceId) with Some v => u32 v | None => 0 end
  end.

Definition replay_wf (st : ReplayState) : Prop :=
  ∀ dev c, last_request_id st dev = Some c → vc_wf maxInstances c.

Definition valid_instance (i : Z) : Prop := 1 ≤ i ≤ 10.

Lemma validateInstanceId_spec i :
  validateInstanceId i =
    if decide (valid_instance i) then Ok tt else Throw (server_err Error.INVALID_ARGUMENT).
Proof.
  unfold validateInstanceId, throw_if, valid_instance.
  destruct (Z.ltb_spec i 1), (Z.ltb_spec 10 i); cbn; case_decide; (done || lia).
Qed.

Lemma validateInstanceId_Ok i u : validateInstanceId i = Ok u ↔ valid_instance i.
Proof. rewrite validateInstanceId_spec. case_decide; destruct u; naive_solver. Qed.

Lemma last_request_id_set st dev dev' c :
  last_request_id (set_last_request_id st dev c) dev' =
  if decide (dev = dev') then c else last_request_id st dev'.
Proof. unfold last_request_id. cbn. rewrite lookup_insert. by case_decide. Qed.

Lemma remember_spec st dev i v :
  replay_wf st → valid_instance i →
  ∃ st', remember st dev i v = Ok st' ∧ replay_wf st' ∧
    request_state st' = request_state st ∧
    known st' dev i = v ∧
    ∀ dev' i', valid_instance i' → (dev', i') ≠ (dev, i) → known st' dev' i' = known st dev' i'.
Proof.
  intros Hwf Hi. unfold remember.
  set (c := default empty_container (last_request_id st dev)).
  assert (vc_wf maxInstances c) as Hc.
  { unfold c. destruct (last_request_id st dev) eqn:E; cbn; [by eapply Hwf|done]. }
  pose proof (vc_set_spec maxInstances c (index_of i) (Some v) Hc) as H.
  unfold valid_instance in *.
  destruct (Nat.ltb_spec (index_of i) maxInstances) as [_|Hout].
  2: { unfold index_of, maxInstances in Hout. lia. }
  destruct H as (c' & -> & Hc' & Hget). cbn. eexists. split; [done|].
  split_and!.
  - intros dev' c''. rewrite last_request_id_set. case_decide; [|apply Hwf].
    by intros [= <-].
  - done.
  - unfold known. rewrite last_request_id_set, decide_True by done. cbn.
    by rewrite Hget, bool_decide_true.
  - intros dev' i' Hi' Hne. unfold known. rewrite last_request_id_set.
    case_decide as Hd; [subst dev'|done]. cbn.
    rewrite Hget, bool_decide_false.
    + unfold c. destruct (last_request_id st dev); cbn; [done|]. by case_bool_decide.
    + unfold index_of. intros ?. apply Hne. f_equal. lia.
Qed.

(** Touching the map entry of a device does not change what is known. *)
Lemma touch_device st dev :
  let st' := set_last_request_id st dev (last_request_id st dev) in
  (replay_wf st → replay_wf st') ∧ request_state st' = request_state st ∧
  ∀ dev' i, known st' dev' i = known st dev' i.
Proof.
  cbn zeta. unfold replay_wf, known. split_and!; [|done|].
  - intros Hwf dev' c. rewrite last_request_id_set. case_decide; [|apply Hwf].
    subst. apply Hwf.
  - intros dev' i. rewrite last_request_id_set. by case_decide; subst.
Qed.

Lemma checkForReplay_spec st dev i reqId :
  replay_wf st → valid_instance i → 0 ≤ reqId →
  ∃ st', checkForReplay st dev i reqId = Ok (st', reqId <=? known st dev i) ∧
    replay_wf st' ∧ request_state st' = request_state st ∧
    known st' dev i = Z.max (known st dev i) reqId ∧
    ∀ dev' i', valid_instance i' → (dev', i') ≠ (dev, i) → known st' dev' i' = known st dev' i'.
Proof.
  intros Hwf Hi Hreq. unfold checkForReplay, check_in_memory, getLastReqId, store_checked.
  rewrite (proj2 (validateInstanceId_Ok i tt) Hi). cbn [mbind result_bind].
  destruct (last_request_id st dev ≫= λ c, vc_get c (index_of i) None) as [last|] eqn:Emem.
  - destruct (last_request_id st dev) as [c|] eqn:Ec; [|done]. cbn in Emem. rewrite Emem.
    assert (known st dev i = last) as Hk by (unfold known; rewrite Ec; cbn; by rewrite Emem).
    destruct (remember_spec st dev i (Z.max last reqId) Hwf Hi) as (st' & -> & Hw & Hr & Hs & Ho).
    exists st'. rewrite Hk. cbn. done.
  - (* not in memory: the map entry is created, then the database is asked *)
    assert (match last_request_id st dev with
            | Some c => match vc_get c (index_of i) None with Some _ => False | None => True end
            | None => True end) as Hnone.
    { destruct (last_request_id st dev); cbn in *; [by rewrite Emem|done]. }
    destruct (touch_device st dev) as (Hw1 & Hr1 & Hk1). specialize (Hw1 Hwf).
    set (st1 := set_last_request_id st dev (last_request_id st dev)) in *.
    assert (match last_request_id st dev with
            | Some c => match vc_get c (index_of i) None with
                | Some last => st' ← remember st dev i (Z.max last reqId);
                               Ok (st', Some (reqId <=? last))
                | None => Ok (set_last_request_id st dev (Some c), None) end
            | None => Ok (set_last_request_id st dev None, None) end = Ok (st1, None)) as ->.
    { unfold st1. destruct (last_request_id st dev) as [c|]; [|done].
      by destruct (vc_get c (index_of i) None). }
    cbn [mbind result_bind]. rewrite Hr1.
    assert (known st dev i =
      match request_state st !! (dev, i) with Some v => u32 v | None => 0 end) as Hk.
    { unfold known. by rewrite Emem. }
    destruct (request_state st !! (dev, i)) as [v|] eqn:Edb.
    + destruct (remember_spec st1 dev i (u32 v) Hw1 Hi) as (st2 & -> & Hw2 & Hr2 & Hs2 & Ho2).
      cbn. destruct (remember_spec st2 dev i (Z.max (u32 v) reqId) Hw2 Hi)
        as (st3 & -> & Hw3 & Hr3 & Hs3 & Ho3).
      cbn. exists st3. rewrite Hk. split_and!; [done|done|congruence|done|].
      intros dev' i' Hi' Hne. by rewrite Ho3, Ho2, Hk1.
    + cbn. destruct (remember_spec st1 dev i (Z.max 0 reqId) Hw1 Hi)
        as (st3 & -> & Hw3 & Hr3 & Hs3 & Ho3).
      cbn. exists st3. rewrite Hk. split_and!; [done|done|congruence|done|].
      intros dev' i' Hi' Hne. by rewrite Ho3, Hk1.
Qed.

(** The replay check implements its specification.  A number is refused
    exactly when it is not above the highest number known for that instance
    of that device, in memory or else in the database; afterwards the
    highest known number is the maximum of the two, and what is known for
    every other instance and device is unchanged.  An instance id outside
    1 to 10 is an error. *)
Theorem checkForReplay_correct (st : ReplayState) (dev : uuid) (i reqId : Z) :
  replay_wf st → 0 ≤ reqId →
  if decide (valid_instance i)
  then ∃ st', checkForReplay st dev i reqId = Ok (st', reqId <=? known st dev i) ∧
         replay_wf st' ∧
         known st' dev i = Z.max (known st dev i) reqId ∧
         ∀ dev' i', valid_instance i' → (dev', i') ≠ (dev, i) →
           known st' dev' i' = known st dev' i'
  else checkForReplay st dev i reqId = Throw (server_err Error.INVALID_ARGUMENT).
Proof.
  intros Hwf Hreq. case_decide as Hi.
  - destruct (checkForReplay_spec st dev i reqId Hwf Hi Hreq) as (st' & H & ? & _ & ? & ?).
    by exists st'.
  - unfold checkForReplay, check_in_memory. rewrite validateInstanceId_spec.
    by rewrite decide_False.
Qed.

Lemma checkForReplay_correct_witness :
  let st := mk_ReplayState ∅ {[ ("phone", 2) := 41 ]} in
  ∃ st', checkForReplay st "phone" 2 42 = Ok (st', false) ∧
    known st' "phone" 2 = 42.
Proof.
  cbv zeta.
  assert (replay_wf (mk_ReplayState ∅ {[ ("phone", 2) := 41 ]})) as Hwf by (intros ? ? [=]).
  pose proof (checkForReplay_correct _ "phone" 2 42 Hwf ltac:(lia)) as H.
  rewrite decide_True in H by (unfold valid_instance; lia).
  destruct H as (st' & H & _ & Hk & _). exists st'. split; [exact H|]. exact Hk.
Defined.

(** A sequence of checks, of any devices and instances, one after another;
    the result lists those that were let through. *)
Fixpoint run_checks (st : ReplayState) (reqs : list (uuid * Z * Z))
    : result (ReplayState * list (uuid * Z * Z)) :=
  match reqs with
  | [] => Ok (st, [])
  | (dev, i, reqId) :: reqs =>
      '(st1, replay) ← checkForReplay st dev i reqId;
      '(st2, through) ← run_checks st1 reqs;
      Ok (st2, if replay : bool then through else (dev, i, reqId) :: through)
  end.

Definition numbers_of (dev : uuid) (i : Z) (reqs : list (uuid * Z * Z)) : list Z :=
  (λ r, r.2) <$> filter (λ r, r.1 = (dev, i)) reqs.

Lemma run_checks_sorted st reqs :
  replay_wf st → Forall (λ r, valid_instance r.1.2 ∧ 0 ≤ r.2) reqs →
  ∃ st' through, run_checks st reqs = Ok (st', through) ∧
    ∀ dev i, valid_instance i →
      StronglySorted Z.lt (numbers_of dev i through) ∧
      Forall (λ n, known st dev i < n) (numbers_of dev i through).
Proof.
  intros Hwf Hall. revert st Hwf.
  induction Hall as [|[[dev i] n] reqs [Hi Hn] _ IH]; intros st Hwf.
  { exists st, []. split; [done|]. intros. split; constructor. }
  cbn [run_checks]. cbn in Hi, Hn.
  destruct (checkForReplay_spec st dev i n Hwf Hi Hn) as (st1 & -> & Hw1 & _ & Hk & Ho).
  cbn. destruct (IH st1 Hw1) as (st' & through & -> & Hth). cbn.
  eexists _, _. split; [done|]. intros dev' i' Hi'.
  destruct (Hth dev' i' Hi') as [Hs Hf].
  destruct (decide ((dev', i') = (dev, i))) as [Heq|Hne].
  - injection Heq as -> ->. rewrite Hk in Hf.
    assert (Forall (λ m, known st dev i < m) (numbers_of dev i through)) as Hf'.
    { eapply Forall_impl; [exact Hf|]. cbn. lia. }
    destruct (Z.leb_spec n (known st dev i)); [done|].
    unfold numbers_of. rewrite filter_cons_True by done. cbn.
    split; constructor; try done. eapply Forall_impl; [exact Hf|]. cbn. lia.
  - rewrite Ho in Hf by done.
    destruct (n <=? known st dev i); [done|].
    unfold numbers_of. rewrite filter_cons_False by (cbn; congruence). done.
Qed.

(** C5: At most once.  Checks that run one after another let through, for
    each instance of each device, strictly increasing numbers only, all
    above what was known at the start: a request number is executed at most
    once, whatever the clients retry and however they interleave. *)
Theorem replay_at_most_once (st : ReplayState) (reqs : list (uuid * Z * Z)) :
  replay_wf st → Forall (λ r, valid_instance r.1.2 ∧ 0 ≤ r.2) reqs →
  ∃ st' through, run_checks st reqs = Ok (st', through) ∧
    ∀ dev i, valid_instance i →
      StronglySorted Z.lt (numbers_of dev i through) ∧
      Forall (λ n, known st dev i < n) (numbers_of dev i through).
Proof. apply run_checks_sorted. Qed.

Lemma replay_at_most_once_witness :
  let reqs := [("phone", 1, 1); ("phone", 1, 2); ("phone", 1, 1); ("phone", 2, 1)] in
  ∃ st' through, run_checks (mk_ReplayState ∅ ∅) reqs = Ok (st', through) ∧
    ∀ dev i, valid_instance i → StronglySorted Z.lt (numbers_of dev i through).
Proof.
  cbv zeta.
  destruct (replay_at_most_once (mk_ReplayState ∅ ∅)
    [("phone", 1, 1); ("phone", 1, 2); ("phone", 1, 1); ("phone", 2, 1)])
    as (st' & through & H & Hs).
  - intros ? ? [=].
  - repeat constructor; cbn; unfold valid_instance; lia.
  - exists st', through. split; [exact H|]. intros dev i Hi. apply (Hs dev i Hi).
Defined.

(** ** Saving the numbers *)
Lemma foldr_save_lookup (db : gmap (uuid * Z) Z) (dev : uuid) (c : storage Z) (l : list nat) dev' i :
  NoDup l →
  foldr (λ k db, match vc_get c k (Some (Some 0)) with
                 | None => db | Some v => <[(dev, Z.of_nat k + 1) := v]> db end) db l !! (dev', i)
  = if decide (dev' = dev ∧ 1 ≤ i ∧ index_of i ∈ l)
    then match vc_get c (index_of i) (Some (Some 0)) with
         | Some v => Some v | None => db !! (dev', i) end
    else db !! (dev', i).
Proof.
  induction l as [|k l IH]; intros Hnd; cbn [foldr].
  { rewrite decide_False; [done|]. set_solver. }
  apply NoDup_cons in Hnd as [Hk Hnd].
  destruct (decide (dev' = dev ∧ i = Z.of_nat k + 1)) as [[-> ->]|Hne].
  - assert (index_of (Z.of_nat k + 1) = k) as Hix by (unfold index_of; lia).
    rewrite Hix in *. rewrite (decide_True (P := dev = dev ∧ _)) by (set_solver by lia).
    destruct (vc_get c k (Some (Some 0))) as [v|].
    + by rewrite lookup_insert_eq.
    + rewrite IH by done. rewrite decide_False; [done|]. naive_solver.
  - assert (foldr (λ k db, match vc_get c k (Some (Some 0)) with
        | None => db | Some v => <[(dev, Z.of_nat k + 1) := v]> db end) db l !! (dev', i)
      = match vc_get c k (Some (Some 0)) with
        | None => foldr (λ k db, match vc_get c k (Some (Some 0)) with
            | None => db | Some v => <[(dev, Z.of_nat k + 1) := v]> db end) db l
        | Some v => <[(dev, Z.of_nat k + 1) := v]>
           (foldr (λ k db, match vc_get c k (Some (Some 0)) with
            | None => db | Some v => <[(dev, Z.of_nat k + 1) := v]> db end) db l)
        end !! (dev', i)) as <-.
    { destruct (vc_get c k _); [|done]. rewrite lookup_insert_ne; [done|]. naive_solver. }
    rewrite IH by done. f_equal. repeat case_decide; try done; exfalso;
      rewrite ?list_elem_of_In in *; cbn in *; unfold index_of in *; naive_solver lia.
Qed.

(** What was saved survives a restart.  After [saveLastReqIds] for a
    device, a server that lost its memory knows, for every instance of that
    device, the same highest number as before, as long as the numbers are
    32-bit values: nothing accepted before the restart is accepted again. *)
Theorem saved_numbers_survive_restart (st : ReplayState) (dev : uuid) (i : Z) :
  replay_wf st → valid_instance i →
  (∀ c k v, last_request_id st dev = Some c → vc_get c k None = Some v → 0 ≤ v < 2 ^ 32) →
  known (mk_ReplayState ∅ (request_state (saveLastReqIds st dev))) dev i = known st dev i.
Proof.
  intros Hwf Hi Hrange. unfold known at 1. cbn. unfold saveLastReqIds.
  destruct (last_request_id st dev) as [c|] eqn:Ec.
  2: { cbn. unfold known. by rewrite Ec. }
  cbn [request_state]. rewrite foldr_save_lookup by apply NoDup_seq.
  unfold known. rewrite Ec. cbn [mbind option_bind].
  assert (∀ v, vc_get c (index_of i) None = Some v → u32 v = v) as Hu.
  { intros v Hv. apply wrap_small. by eapply Hrange. }
  destruct (decide (index_of i < vc_size c)%nat) as [Hlt|Hge].
  - rewrite decide_True.
    2: { unfold valid_instance in Hi. split_and!; [done|lia|]. apply list_elem_of_In, in_seq. lia. }
    assert (vc_get c (index_of i) (Some (Some 0)) = vc_get c (index_of i) None) as ->.
    { destruct c as [v|vs]; cbn in *.
      - by rewrite !bool_decide_true by lia.
      - destruct (vs !! index_of i) eqn:E; [done|].
        apply lookup_ge_None in E. lia. }
    destruct (vc_get c (index_of i) None) as [v|]; [by apply Hu|done].
  - rewrite decide_False.
    2: { intros (_ & _ & Hin%list_elem_of_In%in_seq). lia. }
    assert (vc_get c (index_of i) None = None) as ->; [|done].
    destruct c as [v|vs]; cbn in *.
    + by rewrite bool_decide_false by lia.
    + by rewrite lookup_ge_None_2 by lia.
Qed.

Lemma saved_numbers_survive_restart_witness :
  let st := mk_ReplayState {[ "phone" := Some (holds_vector [Some 5; None; Some 9]) ]} ∅ in
  known (mk_ReplayState ∅ (request_state (saveLastReqIds st "phone"))) "phone" 3 = 9.
Proof.
  cbv zeta. eapply eq_trans.
  - apply saved_numbers_survive_restart.
    + intros dev c H. unfold last_request_id in H. cbn in H.
      destruct (decide (dev = "phone")) as [->|Hne].
      * vm_compute in H. injection H as <-. cbn. unfold maxInstances. lia.
      * rewrite lookup_singleton_ne in H by done. discriminate H.
    + unfold valid_instance. lia.
    + intros c k v H. vm_compute in H. injection H as <-.
      destruct k as [|[|[|k]]]; cbn; intros [= <-]; lia.
  - reflexivity.
Defined.

(** ** Two requests at once

    [isReplay] runs before the write access is acquired, so two checks of
    one user can interleave at the database lookup. *)
Inductive phase := AtStart | AtDb | AtStore (last : Z) | Answered (replay : bool).

Definition advance (st : ReplayState) (dev : uuid) (i reqId : Z) (p : phase)
    : result (ReplayState * phase) :=
  match p with
  | AtStart =>
      '(st', m) ← check_in_memory st dev i reqId;
      Ok (st', match m with Some r => Answered r | None => AtDb end)
  | AtDb =>
      '(st', v) ← getLastReqId st dev i true;
      Ok (st', AtStore (default 0 v))
  | AtStore last =>
      '(st', r) ← store_checked st dev i reqId last;
      Ok (st', Answered r)
  | Answered r => Ok (st, p)
  end.

(** A schedule names the task that runs next: [true] the first. *)
Fixpoint interleave (sched : list bool) (dev : uuid) (i r1 r2 : Z)
    (st : ReplayState) (p1 p2 : phase) : result (ReplayState * phase * phase) :=
  match sched with
  | [] => Ok (st, p1, p2)
  | true :: sched =>
      '(st', p1') ← advance st dev i r1 p1; interleave sched dev i r1 r2 st' p1' p2
  | false :: sched =>
      '(st', p2') ← advance st dev i r2 p2; interleave sched dev i r1 r2 st' p1 p2'
  end.

(** The check alone does not protect two copies of a request that
    arrive together before the device's numbers are in memory: under the
    schedule in which both look in the database before either stores, both
    are let through, and when the later store is the lower number of the
    two, the server forgets the higher one. *)
Theorem concurrent_first_checks_race :
  let sched := [true; false; true; false; true; false] in
  let run r1 r2 := interleave sched "phone" 1 r1 r2 (mk_ReplayState ∅ ∅) AtStart AtStart in
  ((λ r, (r.1.2, r.2)) <$> run 7 7) = Ok (Answered false, Answered false) ∧
  ((λ r, (r.1.2, r.2, known r.1.1 "phone" 1)) <$> run 8 7)
    = Ok (Answered false, Answered false, 7).
Proof. cbv zeta. split; vm_compute; reflexivity. Qed.
