(* ===== verification/Calendar.v ===== *)
(** * The civil calendar the backend computes dates with

    [date::year_month_day] and [std::chrono::year_month_day] share one
    documented behaviour: field-wise month and year arithmetic, and a
    bijection between the valid dates and the days counted from 1970-01-01.
    The class [CivilCalendar] states that behaviour; the recurrence rules of
    src/src/backend/lib/grpc/Actions.cpp are proved against it.  The
    instance [Gregorian] computes it, so that witnesses can evaluate. *)
From S2P Require Import Prelude.

#[local] Open Scope Z_scope.

(** A date as the fields of [year_month_day]; not every value is [ok()]. *)
Record ymd := Ymd { year : Z; month : Z; day : Z }.

#[export] Instance ymd_eq_dec : EqDecision ymd.
Proof. solve_decision. Defined.

(** Months counted from January of year 0. *)
Definition month_index (x : ymd) : Z := 12 * year x + (month x - 1).

(** [ymd + months{n}]: the day is kept, also where the month is shorter. *)
Definition add_months (x : ymd) (n : Z) : ymd :=
  let i := month_index x + n in Ymd (i / 12) (i mod 12 + 1) (day x).

(** [ymd + years{n}]. *)
Definition add_years (x : ymd) (n : Z) : ymd :=
  Ymd (year x + n) (month x) (day x).

(** [weekday::c_encoding] of a day count: 1970-01-01 was a Thursday. *)
Definition weekday (d : Z) : Z := (d + 4) mod 7.

(** [weekday::iso_encoding]: Sunday is 7. *)
Definition iso_encoding (wd : Z) : Z := if wd =? 0 then 7 else wd.

Class CivilCalendar := {
  (** [year_month_day{local_days}] *)
  ymd_of_days : Z → ymd;
  (** [local_days{year_month_day}], also for a date that is not [ok()] *)
  days_of_ymd : ymd → Z;
  (** [year / month / last] *)
  last_day : Z → Z → Z;
  last_day_range y m : 1 ≤ m ≤ 12 → 28 ≤ last_day y m ≤ 31;
  days_of_day y m d : days_of_ymd (Ymd y m d) = days_of_ymd (Ymd y m 1) + (d - 1);
  next_month_start y m : 1 ≤ m ≤ 12 →
    days_of_ymd (add_months (Ymd y m 1) 1) = days_of_ymd (Ymd y m 1) + last_day y m;
  ymd_of_days_valid d :
    (1 ≤ month (ymd_of_days d) ≤ 12 ∧
     1 ≤ day (ymd_of_days d) ≤ last_day (year (ymd_of_days d)) (month (ymd_of_days d)))
    ∧ days_of_ymd (ymd_of_days d) = d
}.

(** ** What follows for every such calendar *)
Section laws.
Context `{CivilCalendar}.

(** [year_month_day::ok] *)
Definition ymd_ok (x : ymd) : bool :=
  (1 <=? month x) && (month x <=? 12) && (1 <=? day x)
  && (day x <=? last_day (year x) (month x)).

(** [offset.year() / offset.month() / last], taken when the sum is not
    [ok()]. *)
Definition clamp (x : ymd) : ymd :=
  if ymd_ok x then x else Ymd (year x) (month x) (last_day (year x) (month x)).

(** The first day of the month with index [i]. *)
Definition month_start (i : Z) : Z :=
  days_of_ymd (Ymd (i / 12) (i mod 12 + 1) 1).

(** The length of that month. *)
Definition month_len (i : Z) : Z := last_day (i / 12) (i mod 12 + 1).

Lemma ymd_okE x :
  ymd_ok x = true ↔ 1 ≤ month x ≤ 12 ∧ 1 ≤ day x ≤ last_day (year x) (month x).
Proof. unfold ymd_ok. rewrite !andb_true_iff, !Z.leb_le. lia. Qed.

Lemma month_mod_range i : 1 ≤ i mod 12 + 1 ≤ 12.
Proof. pose proof (Z.mod_pos_bound i 12 ltac:(lia)). lia. Qed.

Lemma month_index_split x :
  1 ≤ month x ≤ 12 → month_index x / 12 = year x ∧ month_index x mod 12 + 1 = month x.
Proof.
  unfold month_index. intros Hm.
  replace (12 * year x + (month x - 1)) with ((month x - 1) + year x * 12) by lia.
  rewrite Z.div_add, Z.mod_add, Z.div_small, Z.mod_small by lia. lia.
Qed.

Lemma month_index_of i d : month_index (Ymd (i / 12) (i mod 12 + 1) d) = i.
Proof. unfold month_index; cbn [year month]. pose proof (Z.div_mod i 12 ltac:(lia)). lia. Qed.

Lemma month_index_add x n : month_index (add_months x n) = month_index x + n.
Proof. unfold add_months. apply month_index_of. Qed.

Lemma month_index_add_years x n : month_index (add_years x n) = month_index x + 12 * n.
Proof. unfold month_index, add_years; cbn. lia. Qed.

Lemma month_start_succ i : month_start (i + 1) = month_start i + month_len i.
Proof.
  unfold month_start, month_len.
  rewrite <- next_month_start by apply month_mod_range.
  unfold add_months at 1. rewrite month_index_of. reflexivity.
Qed.

Lemma month_len_range i : 28 ≤ month_len i ≤ 31.
Proof. apply last_day_range, month_mod_range. Qed.

Lemma month_start_mono i j : i < j → month_start i + month_len i ≤ month_start j.
Proof.
  intros Hij. replace j with (i + 1 + Z.of_nat (Z.to_nat (j - i - 1))) by lia.
  generalize (Z.to_nat (j - i - 1)) as n. intros n. induction n as [|n IH].
  - rewrite Z.add_0_r, month_start_succ. lia.
  - rewrite Nat2Z.inj_succ, <- Z.add_1_r, Z.add_assoc, month_start_succ.
    pose proof (month_len_range (i + 1 + Z.of_nat n)). lia.
Qed.

(** A date is its month and its day. *)
Lemma days_of_ymd_month x :
  1 ≤ month x ≤ 12 → days_of_ymd x = month_start (month_index x) + (day x - 1).
Proof.
  intros Hm. destruct (month_index_split x Hm) as [Hy Hmm].
  unfold month_start. rewrite Hy, Hmm, <- days_of_day. by destruct x.
Qed.

Lemma month_len_last x :
  1 ≤ month x ≤ 12 → month_len (month_index x) = last_day (year x) (month x).
Proof.
  intros Hm. destruct (month_index_split x Hm) as [Hy Hmm].
  unfold month_len. by rewrite Hy, Hmm.
Qed.

Lemma ok_in_month x :
  ymd_ok x = true →
  month_start (month_index x) ≤ days_of_ymd x < month_start (month_index x + 1).
Proof.
  intros [Hm Hd]%ymd_okE.
  rewrite month_start_succ, month_len_last, days_of_ymd_month by done. lia.
Qed.

(** A later month is later, whatever the days are. *)
Lemma later_month x y :
  ymd_ok x = true → ymd_ok y = true →
  month_index x < month_index y → days_of_ymd x < days_of_ymd y.
Proof.
  intros Hx%ok_in_month Hy%ok_in_month Hlt.
  pose proof (month_start_mono _ _ Hlt). rewrite month_start_succ in Hx. lia.
Qed.

Lemma of_days_ok d : ymd_ok (ymd_of_days d) = true.
Proof. apply ymd_okE, ymd_of_days_valid. Qed.

Lemma days_of_days d : days_of_ymd (ymd_of_days d) = d.
Proof. apply ymd_of_days_valid. Qed.

(** The month a day lies in is the only one whose bounds hold it. *)
Lemma month_of_unique i d :
  month_start i ≤ d < month_start (i + 1) → month_index (ymd_of_days d) = i.
Proof.
  intros Hd. pose proof (ok_in_month _ (of_days_ok d)) as Hb.
  rewrite days_of_days in Hb. set (j := month_index (ymd_of_days d)) in *.
  destruct (Z.lt_trichotomy i j) as [Hlt|[->|Hlt]]; [|done|].
  - pose proof (month_start_mono _ _ Hlt). rewrite month_start_succ in Hd. lia.
  - pose proof (month_start_mono _ _ Hlt). rewrite month_start_succ in Hb. lia.
Qed.

Lemma days_inj_month i d :
  month_index (ymd_of_days d) = i ↔ month_start i ≤ d < month_start (i + 1).
Proof.
  split; [|apply month_of_unique]. intros <-.
  pose proof (ok_in_month _ (of_days_ok d)) as Hb. by rewrite days_of_days in Hb.
Qed.

(** A valid date is recovered from its day count. *)
Lemma ymd_of_days_of x : ymd_ok x = true → ymd_of_days (days_of_ymd x) = x.
Proof.
  intros Hok. pose proof (ok_in_month _ Hok) as Hb.
  apply month_of_unique in Hb as Hi.
  assert (Hx : 1 ≤ month x ≤ 12) by (apply ymd_okE in Hok; lia).
  pose proof (of_days_ok (days_of_ymd x)) as Hok'. apply ymd_okE in Hok' as [Hm' _].
  destruct (month_index_split _ Hx) as [Hy Hm], (month_index_split _ Hm') as [Hy' Hm2].
  pose proof (days_of_ymd_month _ Hx). pose proof (days_of_ymd_month _ Hm') as Hd'.
  rewrite days_of_days, Hi in Hd'.
  destruct x as [y m d], (ymd_of_days _) as [y' m' d'] eqn:E.
  cbn in *. rewrite Hi in Hy', Hm2. f_equal; lia.
Qed.

Lemma clamp_month x : month (clamp x) = month x ∧ year (clamp x) = year x.
Proof. unfold clamp. by destruct (ymd_ok x). Qed.

Lemma clamp_index x : month_index (clamp x) = month_index x.
Proof. unfold month_index. by destruct (clamp_month x) as [-> ->]. Qed.

Lemma clamp_ok x : 1 ≤ month x ≤ 12 → ymd_ok (clamp x) = true.
Proof.
  intros Hm. unfold clamp. destruct (ymd_ok x) eqn:E; [done|].
  apply ymd_okE. cbn. pose proof (last_day_range (year x) (month x) Hm). lia.
Qed.

(** The day [clamp] keeps: the requested one, or the last of the month. *)
Lemma clamp_day x :
  1 ≤ month x ≤ 12 → 1 ≤ day x → day (clamp x) = Z.min (day x) (last_day (year x) (month x)).
Proof.
  intros Hm Hd. unfold clamp. destruct (ymd_ok x) eqn:E.
  - apply ymd_okE in E. lia.
  - cbn. destruct (Z.le_gt_cases (day x) (last_day (year x) (month x))); [|lia].
    exfalso. apply not_true_iff_false in E. apply E, ymd_okE. lia.
Qed.

Lemma month_add_range x n : 1 ≤ month (add_months x n) ≤ 12.
Proof. apply month_mod_range. Qed.
End laws.

(** ** The Gregorian calendar *)
Definition is_leap (y : Z) : bool :=
  ((y mod 4 =? 0) && negb (y mod 100 =? 0)) || (y mod 400 =? 0).

Definition greg_last_day (y m : Z) : Z :=
  if m =? 2 then (if is_leap y then 29 else 28)
  else if (m =? 4) || (m =? 6) || (m =? 9) || (m =? 11) then 30 else 31.

(** Days from 1970-01-01 to January 1st of [y]. *)
Definition year_start (y : Z) : Z :=
  365 * (y - 1970) + ((y - 1) / 4 - (y - 1) / 100 + (y - 1) / 400) - 477.

(** Days of the year before month [m]. *)
Definition before_month (y m : Z) : Z :=
  let l := if is_leap y then 1 else 0 in
  if m <=? 1 then 0 else if m =? 2 then 31
  else l + (if m =? 3 then 59 else if m =? 4 then 90 else if m =? 5 then 120
       else if m =? 6 then 151 else if m =? 7 then 181 else if m =? 8 then 212
       else if m =? 9 then 243 else if m =? 10 then 273 else if m =? 11 then 304
       else 334).

Definition greg_days (x : ymd) : Z :=
  year_start (year x) + before_month (year x) (month x) + (day x - 1).

(** The year of a day count: an estimate that is off by at most one. *)
Definition year_of (d : Z) : Z :=
  let y := 1970 + d * 400 / 146097 in
  if d <? year_start y then y - 1
  else if year_start (y + 1) <=? d then y + 1 else y.

(** The month of the [k]-th day of year [y], counted from 0. *)
Definition month_of (y k : Z) : Z :=
  if k <? before_month y 2 then 1 else if k <? before_month y 3 then 2
  else if k <? before_month y 4 then 3 else if k <? before_month y 5 then 4
  else if k <? before_month y 6 then 5 else if k <? before_month y 7 then 6
  else if k <? before_month y 8 then 7 else if k <? before_month y 9 then 8
  else if k <? before_month y 10 then 9 else if k <? before_month y 11 then 10
  else if k <? before_month y 12 then 11 else 12.

Definition greg_of_days (d : Z) : ymd :=
  let y := year_of d in
  let k := d - year_start y in
  let m := month_of y k in
  Ymd y m (k - before_month y m + 1).

Lemma is_leap_year_start y :
  year_start (y + 1) = year_start y + 365 + (if is_leap y then 1 else 0).
Proof.
  unfold year_start, is_leap. replace (y + 1 - 1) with y by lia.
  destruct (y mod 4 =? 0) eqn:H4, (y mod 100 =? 0) eqn:H100, (y mod 400 =? 0) eqn:H400;
    cbn [negb andb orb]; rewrite ?Z.eqb_eq, ?Z.eqb_neq in *;
    Z.to_euclidean_division_equations; lia.
Qed.

(** A year is 146097/400 days on average; the sum is never far off. *)
Lemma year_start_bounds y :
  -800 < 400 * year_start y - 146097 * (y - 1970) < 800.
Proof. unfold year_start. Z.to_euclidean_division_equations. lia. Qed.

Lemma year_of_spec d : year_start (year_of d) ≤ d < year_start (year_of d + 1).
Proof.
  unfold year_of. set (y := 1970 + d * 400 / 146097).
  assert (Hy : 146097 * (y - 1970) ≤ d * 400 < 146097 * (y - 1970) + 146097).
  { subst y. Z.to_euclidean_division_equations. lia. }
  pose proof (year_start_bounds y). pose proof (year_start_bounds (y + 1)).
  pose proof (year_start_bounds (y - 1)). pose proof (year_start_bounds (y + 1 + 1)).
  destruct (Z.ltb_spec d (year_start y)).
  - replace (y - 1 + 1) with y by lia. lia.
  - destruct (Z.leb_spec (year_start (y + 1)) d); lia.
Qed.

Lemma month_cases (P : Z → Prop) m :
  1 ≤ m ≤ 12 → P 1 → P 2 → P 3 → P 4 → P 5 → P 6 → P 7 → P 8 → P 9 → P 10 → P 11 → P 12 → P m.
Proof.
  intros. assert (m = 1 ∨ m = 2 ∨ m = 3 ∨ m = 4 ∨ m = 5 ∨ m = 6 ∨ m = 7 ∨ m = 8 ∨ m = 9
    ∨ m = 10 ∨ m = 11 ∨ m = 12) by lia. naive_solver.
Qed.

Lemma month_of_spec y k :
  0 ≤ k < 365 + (if is_leap y then 1 else 0) →
  1 ≤ month_of y k ≤ 12 ∧
  before_month y (month_of y k) ≤ k < before_month y (month_of y k) + greg_last_day y (month_of y k).
Proof.
  intros Hk. unfold month_of, before_month, greg_last_day.
  destruct (is_leap y); cbn -[Z.add Z.sub Z.ltb]; repeat case_if; cbn -[Z.add Z.sub];
    rewrite ?Z.ltb_lt, ?Z.ltb_ge in *; lia.
Qed.

Lemma before_month_succ y m :
  1 ≤ m < 12 → before_month y (m + 1) = before_month y m + greg_last_day y m.
Proof.
  intros Hm. assert (Hne : m ≠ 12) by lia. revert Hne. pattern m.
  apply month_cases; [lia|..]; intros; try done;
    unfold before_month, greg_last_day; destruct (is_leap y); reflexivity.
Qed.

#[export] Program Instance Gregorian : CivilCalendar := {
  ymd_of_days := greg_of_days;
  days_of_ymd := greg_days;
  last_day := greg_last_day
}.
Next Obligation. intros y m _. unfold greg_last_day. repeat case_if; lia. Qed.
Next Obligation. intros y m d. unfold greg_days; cbn [year month day]. lia. Qed.
Next Obligation.
  intros y m Hm. unfold add_months, month_index; cbn [year month day].
  unfold greg_days; cbn [year month day].
  destruct (decide (m = 12)) as [->|Hne].
  - replace (12 * y + (12 - 1) + 1) with ((y + 1) * 12) by lia.
    rewrite Z.div_mul, Z.mod_mul by lia. rewrite is_leap_year_start.
    generalize (year_start y). intros s. unfold before_month, greg_last_day.
    change (0 + 1) with 1. cbn -[Z.add Z.sub is_leap]. destruct (is_leap y); lia.
  - replace (12 * y + (m - 1) + 1) with (m + y * 12) by lia.
    rewrite Z.div_add, Z.mod_add, Z.div_small, Z.mod_small by lia.
    cbn -[Z.add Z.sub before_month greg_last_day].
    rewrite before_month_succ, Z.add_0_l by lia. lia.
Qed.
Next Obligation.
  intros d. pose proof (year_of_spec d) as Hy. rewrite is_leap_year_start in Hy.
  unfold greg_of_days, greg_days; cbn [year month day].
  pose proof (month_of_spec (year_of d) (d - year_start (year_of d))). lia.
Qed.
