(* ===== verification/Recurrence.v ===== *)
(** * Recurring actions

    The rules of src/src/backend/lib/grpc/Actions.cpp that compute when a
    repeating action is due again ([processDueAtDate],
    [processDueAtDayspec], [adjustDueTime], [handleActionDone]), with the
    helpers of src/src/backend/lib/grpc/shared_grpc_server.h.

    The calendar is the class [CivilCalendar] of Calendar.v.  The time zone
    database is third-party: [locate_zone] is a parameter, and a zone is a
    record of its two conversions with the one law the code relies on. *)
From S2P Require Import Prelude Calendar.

#[local] Open Scope Z_scope.
#[local] Open Scope nextapp_scope.

(** [date::time_zone]: [to_sys] throws for a local time the zone skips or
    has twice; a local time it does convert is the one shown there. *)
Record TimeZone := {
  to_local : Z → Z;
  to_sys : Z → result Z;
  to_sys_local l s : to_sys l = Ok s → to_local s = l
}.

(** [pb::ActionDueKind] *)
Inductive ActionDueKind :=
| DATETIME | DATE | WEEK | MONTH | QUARTER | YEAR | UNSET | SPAN_HOURS | SPAN_DAYS.

#[export] Instance ActionDueKind_eq_dec : EqDecision ActionDueKind.
Proof. solve_decision. Defined.

(** [pb::Due]; the two times are [optional] *)
Record Due := {
  start : option Z;
  due : option Z;
  kind : ActionDueKind;
  timezone : string
}.

(** The message with no field set. *)
Definition empty_due : Due := {| start := None; due := None; kind := DATETIME; timezone := EmptyString |}.

(** [pb::Action::RepeatUnit] and the values outside the enum. *)
Inductive RepeatUnit := DAYS | WEEKS | MONTHS | QUARTERS | YEARS | UNIT_OTHER.

(** [pb::Action::RepeatKind], [pb::Action::RepeatWhen], [pb::ActionStatus] *)
Inductive RepeatKind := NEVER | COMPLETED | START_TIME | DUE_TIME | KIND_OTHER.
Inductive RepeatWhen := AT_DATE | AT_DAYSPEC | WHEN_OTHER.
Inductive ActionStatus := ACTIVE | DONE | ONHOLD | DELETED.

(** [pb::Action::RepeatSpecs]: the bits of [repeatAfter] *)
Definition FIRST_DAY_IN_WEEK : Z := 7.
Definition LAST_DAY_OF_WEEK : Z := 8.
Definition FIRST_DAY_IN_MONTH : Z := 9.
Definition LAST_DAY_IN_MONTH : Z := 10.
Definition FIRST_DAY_IN_QUARTER : Z := 11.
Definition LAST_DAY_IN_QUARTER : Z := 12.
Definition FIRST_DAY_IN_YEAR : Z := 13.
Definition LAST_DAY_IN_YEAR : Z := 14.

(** What the rules read of the user's settings. *)
Record Settings := { tz_name : string; sundayIsFirstWeekday : bool }.

Section recurrence.
Context {C : CivilCalendar} (locate_zone : string → result TimeZone).

(** ** Helpers *)

(** The table [quarters], read with [.at(month - 1)]. *)
Definition quarters (m : Z) : Z := 3 * ((m - 1) / 3) + 1.

(** [local_days{y / m / last}] *)
Definition local_days_last (x : ymd) : Z :=
  days_of_ymd (Ymd (year x) (month x) (last_day (year x) (month x))).

(** An [int] product: out of range it has no meaning. *)
Definition int_mul (a b : Z) : result Z :=
  if (- 2 ^ 31 <=? a * b) && (a * b <? 2 ^ 31) then Ok (a * b) else Throw undefined.

(** The years [date::year] can hold. *)
Definition year_in_range (x : ymd) : result ymd :=
  if (-32767 <=? year x) && (year x <=? 32767) then Ok x else Throw undefined.

(** [getDueTime]: only a [DATETIME] is due when it starts. *)
Definition getDueTime (start_sys : Z) (k : ActionDueKind) : Z :=
  match k with DATETIME => start_sys | _ => 0 end.

(** ** [processDueAtDate] *)

(** The local day on which the action starts again. *)
Definition date_offset (units : RepeatUnit) (repeatAfter ldays : Z) : result Z :=
  let start_date := ymd_of_days ldays in
  match units with
  | DAYS => Ok (ldays + repeatAfter)
  | WEEKS => let! n := int_mul repeatAfter 7 in Ok (ldays + n)
  | MONTHS =>
      let! offset := year_in_range (add_months start_date repeatAfter) in
      Ok (days_of_ymd (clamp offset))
  | QUARTERS =>
      let qmonth := quarters (month start_date) in
      let start_point := Ymd (year start_date) qmonth (day start_date) in
      let! n := int_mul repeatAfter 3 in
      let! offset := year_in_range (add_months start_point n) in
      Ok (days_of_ymd (clamp offset))
  | YEARS =>
      let! offset := year_in_range (add_years start_date repeatAfter) in
      Ok (days_of_ymd (clamp offset))
  | UNIT_OTHER => Throw undefined
  end.

Definition processDueAtDate (from_timepoint : Z) (units : RepeatUnit)
    (k : ActionDueKind) (repeatAfter : Z) (uctx : Settings) : result Due :=
  guard! (0 <? from_timepoint) && (0 <? repeatAfter) else undefined in
  let! local_ts := locate_zone (tz_name uctx) in
  let t_local := to_local local_ts from_timepoint in
  let ldays := t_local / 86400 in
  (* [hh_mm_ss::seconds] is the seconds field, not the time of day *)
  let time_seconds := t_local mod 86400 mod 60 in
  let! offset := date_offset units repeatAfter ldays in
  let! start_sys := to_sys local_ts (86400 * offset + time_seconds) in
  Ok {| start := Some start_sys; due := Some (getDueTime start_sys k);
        kind := k; timezone := tz_name uctx |}.

(** ** [processDueAtDayspec] *)

(** [if (best_match < next) best_match = next;] *)
Definition best (best_match next : Z) : Z :=
  if best_match <? next then next else best_match.

Definition start_of_week_offset (sunday : bool) : Z := if sunday then 0 else 1.

(** The next day with weekday [i]. *)
Definition next_weekday (i ldays : Z) : Z :=
  let wday := weekday ldays in
  let next := if i =? wday then ldays else ldays + (i - wday) in
  if next <=? ldays then next + 7 else next.

Definition next_week_start (sunday : bool) (ldays : Z) : Z :=
  ldays + 7 + (- weekday ldays + start_of_week_offset sunday).

(** Also the end of the week of [adjustDueTime]. *)
Definition next_week_end (sunday : bool) (ldays : Z) : Z :=
  let next := ldays + (- weekday ldays + 6 + start_of_week_offset sunday) in
  if next <=? ldays then next + 7 else next.

Definition next_month_first (ldays : Z) : Z :=
  let d := ymd_of_days ldays in days_of_ymd (add_months (Ymd (year d) (month d) 1) 1).

(** Also the end of the month of [adjustDueTime]. *)
Definition next_month_last (ldays : Z) : Z :=
  let d := ymd_of_days ldays in
  let next := local_days_last d in
  if next <=? ldays then local_days_last (add_months d 1) else next.

Definition next_quarter_first (ldays : Z) : Z :=
  let d := ymd_of_days ldays in
  days_of_ymd (add_months (Ymd (year d) (quarters (month d)) 1) 3).

(** Also the end of the quarter of [adjustDueTime]. *)
Definition next_quarter_last (ldays : Z) : Z :=
  let d := ymd_of_days ldays in
  let q := add_months (Ymd (year d) (quarters (month d)) 1) 2 in
  let next := local_days_last q in
  if next <=? ldays then local_days_last (add_months q 3) else next.

Definition next_year_first (ldays : Z) : Z :=
  days_of_ymd (add_years (Ymd (year (ymd_of_days ldays)) 1 1) 1).

Definition next_year_last (ldays : Z) : Z :=
  let q := Ymd (year (ymd_of_days ldays)) 12 1 in
  let next := local_days_last q in
  if next <=? ldays then local_days_last (add_years q 1) else next.

(** The chain of conditionals that computes [best_match]. *)
Definition dayspec_best (repeatAfter : Z) (sunday : bool) (ldays : Z) : Z :=
  let pick (bit next b : Z) := if Z.testbit repeatAfter bit then best b next else b in
  let b := ldays in
  let b := if Z.land repeatAfter 127 =? 0 then b
           else foldl (λ b i, pick i (next_weekday i ldays) b) b (seqZ 0 7) in
  let b := pick FIRST_DAY_IN_WEEK (next_week_start sunday ldays) b in
  let b := pick LAST_DAY_OF_WEEK (next_week_end sunday ldays) b in
  let b := pick FIRST_DAY_IN_MONTH (next_month_first ldays) b in
  let b := pick LAST_DAY_IN_MONTH (next_month_last ldays) b in
  let b := pick FIRST_DAY_IN_QUARTER (next_quarter_first ldays) b in
  let b := pick LAST_DAY_IN_QUARTER (next_quarter_last ldays) b in
  let b := pick FIRST_DAY_IN_YEAR (next_year_first ldays) b in
  pick LAST_DAY_IN_YEAR (next_year_last ldays) b.

Definition processDueAtDayspec (from_timepoint : Z) (units : RepeatUnit)
    (k : ActionDueKind) (repeatAfter : Z) (uctx : Settings) : result Due :=
  guard! (0 <? from_timepoint) && (0 <? repeatAfter) else undefined in
  let! local_ts := locate_zone (tz_name uctx) in
  let ldays := to_local local_ts from_timepoint / 86400 in
  let best_match := dayspec_best repeatAfter (sundayIsFirstWeekday uctx) ldays in
  let! start_sys := to_sys local_ts (86400 * best_match) in
  Ok {| start := Some start_sys; due := None; kind := k; timezone := tz_name uctx |}.

(** ** [adjustDueTime] *)

(** [toTimet(next + days(1) - 1min, local_ts)] *)
Definition day_end (local_ts : TimeZone) (d : Z) : result Z :=
  to_sys local_ts (86400 * (d + 1) - 60).

Definition set_due (d : Due) (t : option Z) : Due :=
  {| start := start d; due := t; kind := kind d; timezone := timezone d |}.

Definition adjustDueTime (fromDue : Due) (uctx : Settings) : result Due :=
  match start fromDue with
  | None => Ok empty_due
  | Some st =>
    if st =? 0 then Ok empty_due else
    guard! negb (bool_decide (timezone fromDue = EmptyString)) else undefined in
    let! local_ts := locate_zone (timezone fromDue) in
    let ldays := to_local local_ts st / 86400 in
    match kind fromDue with
    | DATETIME => Ok (set_due fromDue (Some st))
    | DATE => let! t := day_end local_ts ldays in Ok (set_due fromDue (Some t))
    | WEEK =>
        let! t := day_end local_ts (next_week_end (sundayIsFirstWeekday uctx) ldays) in
        Ok (set_due fromDue (Some t))
    | MONTH | YEAR =>
        let! t := day_end local_ts (next_month_last ldays) in
        Ok (set_due fromDue (Some t))
    | QUARTER =>
        let! t := day_end local_ts (next_quarter_last ldays) in
        Ok (set_due fromDue (Some t))
    | UNSET => Ok (set_due fromDue None)
    | SPAN_HOURS | SPAN_DAYS => Throw undefined
    end
  end.

(** ** [handleActionDone] *)

(** The fields of [pb::Action] the rule reads or writes; the others are
    copied with the message and are one field here. *)
Record Action {R : Type} := {
  id : string;
  origin : string;
  status : ActionStatus;
  completedTime : option Z;
  action_due : Due;
  repeatKind : RepeatKind;
  repeatUnits : RepeatUnit;
  repeatWhen : RepeatWhen;
  repeatAfter : Z;
  rest : R
}.
#[global] Arguments Action : clear implicits.

(** The action [handleActionDone] adds, if any; [new_id] is the uuid it
    draws.  (It first ends the action's work session, see WorkSession.v, and
    then stores and publishes the new action.) *)
Definition handleActionDone {R} (orig : Action R) (new_id : string)
    (uctx : Settings) : result (option (Action R)) :=
  match repeatKind orig with
  | NEVER => Ok None
  | _ =>
    let! from_timepoint :=
      match repeatKind orig with
      | COMPLETED => Ok (default 0 (completedTime orig))
      | START_TIME => Ok (default 0 (start (action_due orig)))
      | DUE_TIME => Ok (default 0 (due (action_due orig)))
      | _ => Throw undefined
      end in
    guard! negb (from_timepoint =? 0) else undefined in
    let! d :=
      match repeatWhen orig with
      | AT_DATE => processDueAtDate from_timepoint (repeatUnits orig)
                     (kind (action_due orig)) (repeatAfter orig) uctx
      | AT_DAYSPEC => processDueAtDayspec from_timepoint (repeatUnits orig)
                     (kind (action_due orig)) (repeatAfter orig) uctx
      | WHEN_OTHER => Throw undefined
      end in
    let! d := adjustDueTime d uctx in
    Ok (Some {| id := new_id; origin := id orig; status := ACTIVE;
                completedTime := None; action_due := d;
                repeatKind := repeatKind orig; repeatUnits := repeatUnits orig;
                repeatWhen := repeatWhen orig; repeatAfter := repeatAfter orig;
                rest := rest orig |})
  end.

(** [sanitize(pb::Due&)]: without a due time the rest is meaningless. *)
Definition sanitize (d : Due) : Due :=
  if bool_decide (due d = None) || bool_decide (due d = Some 0)
  then {| start := None; due := due d; kind := UNSET; timezone := EmptyString |}
  else d.

(** ** Specification: the first later day with a property *)
Definition first_after (P : Z → Prop) (d n : Z) : Prop :=
  d < n ∧ P n ∧ ∀ k, d < k < n → ¬ P k.

(** The first day of a period of [p] months: 1, 3 or 12. *)
Definition period_first (p n : Z) : Prop :=
  day (ymd_of_days n) = 1 ∧ month_index (ymd_of_days n) mod p = 0.

Definition period_last (p n : Z) : Prop := period_first p (n + 1).

(** What each bit of a day specification asks for. *)
Definition dayspec_rule (sunday : bool) (bit n : Z) : Prop :=
  if bit <? 7 then weekday n = bit
  else if bit =? 7 then weekday n = start_of_week_offset sunday
  else if bit =? 8 then weekday n = (6 + start_of_week_offset sunday) mod 7
  else if bit =? 9 then period_first 1 n
  else if bit =? 10 then period_last 1 n
  else if bit =? 11 then period_first 3 n
  else if bit =? 12 then period_last 3 n
  else if bit =? 13 then period_first 12 n
  else period_last 12 n.

(** The day the code computes for each bit. *)
Definition dayspec_candidate (sunday : bool) (bit ldays : Z) : Z :=
  if bit <? 7 then next_weekday bit ldays
  else if bit =? 7 then next_week_start sunday ldays
  else if bit =? 8 then next_week_end sunday ldays
  else if bit =? 9 then next_month_first ldays
  else if bit =? 10 then next_month_last ldays
  else if bit =? 11 then next_quarter_first ldays
  else if bit =? 12 then next_quarter_last ldays
  else if bit =? 13 then next_year_first ldays
  else next_year_last ldays.

(** ** Periods of months *)
Definition mi (d : Z) : Z := month_index (ymd_of_days d).

Lemma mi_bounds d : month_start (mi d) ≤ d < month_start (mi d + 1).
Proof. by apply days_inj_month. Qed.

Lemma mi_mono a b : a ≤ b → mi a ≤ mi b.
Proof.
  intros Hab. destruct (Z.le_gt_cases (mi a) (mi b)) as [|Hlt]; [done|].
  pose proof (month_start_mono _ _ Hlt). pose proof (mi_bounds a). pose proof (mi_bounds b).
  rewrite month_start_succ in *. lia.
Qed.

Lemma mi_month_start i : mi (month_start i) = i.
Proof.
  apply month_of_unique. rewrite month_start_succ. pose proof (month_len_range i). lia.
Qed.

Lemma mi_month_range d : 1 ≤ month (ymd_of_days d) ≤ 12.
Proof. apply ymd_of_days_valid. Qed.

Lemma mi_div12 d : mi d / 12 = year (ymd_of_days d) ∧ mi d mod 12 + 1 = month (ymd_of_days d).
Proof. apply month_index_split, mi_month_range. Qed.

Lemma period_firstE p n : period_first p n ↔ n = month_start (mi n) ∧ mi n mod p = 0.
Proof.
  unfold period_first. pose proof (days_of_ymd_month _ (mi_month_range n)) as Hn.
  rewrite days_of_days in Hn. fold (mi n) in *. lia.
Qed.

(** The index of the first month of the next period. *)
Definition next_period (p i : Z) : Z := p * (i / p) + p.

Lemma next_period_bounds p i : 0 < p → i < next_period p i ≤ i + p.
Proof. intros Hp. unfold next_period. pose proof (Z.div_mod i p). pose proof (Z.mod_pos_bound i p). lia. Qed.

Lemma next_period_unique p i j :
  0 < p → i ≤ j < next_period p i → j mod p = 0 → j = i.
Proof.
  unfold next_period. intros Hp Hj Hm.
  pose proof (Z.div_mod i p). pose proof (Z.mod_pos_bound i p).
  pose proof (Z.div_mod j p). assert (j / p = i / p); [|lia].
  symmetry. apply (Z.div_unique j p _ (j - p * (i / p))); lia.
Qed.

Lemma next_period_mod p i : 0 < p → next_period p i mod p = 0.
Proof.
  intros Hp. unfold next_period. replace (p * (i / p) + p) with ((i / p + 1) * p) by lia.
  apply Z.mod_mul. lia.
Qed.

Lemma next_period_aligned p i : 0 < p → i mod p = 0 → next_period p i = i + p.
Proof. unfold next_period. intros Hp Hm. pose proof (Z.div_mod i p). lia. Qed.

Lemma next_period_idem p i j : 0 < p → i ≤ j < next_period p i → next_period p j = next_period p i.
Proof.
  unfold next_period. intros Hp Hj. f_equal. f_equal. symmetry.
  apply (Z.div_unique j p _ (j - p * (i / p))); [|lia].
  left. pose proof (Z.div_mod i p). pose proof (Z.mod_pos_bound i p). lia.
Qed.

Lemma first_after_period p d :
  0 < p → first_after (period_first p) d (month_start (next_period p (mi d))).
Proof.
  intros Hp. pose proof (next_period_bounds p (mi d) Hp) as Hb. pose proof (mi_bounds d).
  assert (Hd : d < month_start (next_period p (mi d))).
  { destruct (decide (next_period p (mi d) = mi d + 1)) as [->|]; [lia|].
    pose proof (month_start_mono (mi d + 1) (next_period p (mi d)) ltac:(lia)).
    pose proof (month_len_range (mi d + 1)). lia. }
  split_and!; [done| |].
  - apply period_firstE. rewrite mi_month_start. split; [done|]. by apply next_period_mod.
  - intros k Hk [Hkm Hkp]%period_firstE. pose proof (mi_bounds k).
    assert (Hlt : mi k < next_period p (mi d)).
    { destruct (Z.lt_ge_cases (mi k) (next_period p (mi d))) as [|Hge]; [done|].
      destruct (decide (mi k = next_period p (mi d))) as [Heq|]; [rewrite Heq in *; lia|].
      pose proof (month_start_mono (next_period p (mi d)) (mi k) ltac:(lia)).
      pose proof (month_len_range (next_period p (mi d))). lia. }
    pose proof (mi_mono d k ltac:(lia)).
    pose proof (next_period_unique p (mi d) (mi k) Hp ltac:(lia) Hkp) as Heq.
    rewrite Heq in Hkm. lia.
Qed.

(** The last day of the current period, or of the next one on that day. *)
Definition period_end (p d : Z) : Z :=
  let n := month_start (next_period p (mi d)) - 1 in
  if n <=? d then month_start (next_period p (mi d) + p) - 1 else n.

Lemma first_after_shift P d n :
  first_after P (d + 1) (n + 1) → first_after (λ k, P (k + 1)) d n.
Proof.
  intros (H1 & H2 & H3). split_and!; [lia|done|]. intros k Hk. apply H3. lia.
Qed.

Lemma period_end_spec p d : 0 < p → first_after (period_last p) d (period_end p d).
Proof.
  intros Hp. apply first_after_shift.
  pose proof (first_after_period p (d + 1) Hp) as Hn.
  pose proof (first_after_period p d Hp) as (Hd & _ & _).
  unfold period_end. case_if; rewrite ?Z.leb_le, ?Z.leb_gt in *.
  - assert (Hm : mi (d + 1) = next_period p (mi d)).
    { replace (d + 1) with (month_start (next_period p (mi d))) by lia. apply mi_month_start. }
    rewrite Hm, next_period_aligned in Hn by (lia || by apply next_period_mod).
    by replace (_ - 1 + 1) with (month_start (next_period p (mi d) + p)) by lia.
  - replace (_ - 1 + 1) with (month_start (next_period p (mi d))) by lia.
    rewrite <- (next_period_idem p (mi d) (mi (d + 1))); [done..|].
    split; [apply mi_mono; lia|]. pose proof (mi_bounds (d + 1)).
    destruct (Z.lt_ge_cases (mi (d + 1)) (next_period p (mi d))) as [|Hge]; [done|].
    destruct (decide (mi (d + 1) = next_period p (mi d))) as [Heq|]; [rewrite Heq in *; lia|].
    pose proof (month_start_mono (next_period p (mi d)) (mi (d + 1)) ltac:(lia)).
    pose proof (month_len_range (next_period p (mi d))). lia.
Qed.

(** ** The candidates meet their rules *)
Lemma month_startE x d :
  1 ≤ month x ≤ 12 → day x = d → days_of_ymd x = month_start (month_index x) + (d - 1).
Proof. intros Hm <-. by apply days_of_ymd_month. Qed.

Lemma local_days_lastE x :
  1 ≤ month x ≤ 12 → local_days_last x = month_start (month_index x + 1) - 1.
Proof.
  intros Hm. unfold local_days_last. rewrite days_of_ymd_month by done.
  cbn [day]. rewrite month_start_succ, month_len_last by done.
  unfold month_index; cbn [year month]. lia.
Qed.

Lemma quarters_range m : 1 ≤ m ≤ 12 → 1 ≤ quarters m ≤ 10.
Proof. unfold quarters. intros. Z.to_euclidean_division_equations. lia. Qed.

Lemma next_period_1 d : next_period 1 (mi d) = mi d + 1.
Proof. unfold next_period. rewrite Z.div_1_r. lia. Qed.

Lemma next_period_3 d :
  next_period 3 (mi d) =
  month_index (Ymd (year (ymd_of_days d)) (quarters (month (ymd_of_days d))) 1) + 3.
Proof.
  unfold next_period, mi, month_index, quarters; cbn [year month].
  Z.to_euclidean_division_equations. lia.
Qed.

Lemma next_period_12 d :
  next_period 12 (mi d) = month_index (Ymd (year (ymd_of_days d)) 1 1) + 12.
Proof. unfold next_period. destruct (mi_div12 d) as [-> _]. unfold month_index; cbn. lia. Qed.

Lemma next_month_firstE d : next_month_first d = month_start (next_period 1 (mi d)).
Proof.
  unfold next_month_first. rewrite next_period_1, (month_startE _ 1) by (apply month_add_range || done).
  rewrite month_index_add. unfold mi, month_index; cbn [year month]. f_equal; lia.
Qed.

Lemma next_quarter_firstE d : next_quarter_first d = month_start (next_period 3 (mi d)).
Proof.
  unfold next_quarter_first. rewrite next_period_3, (month_startE _ 1) by (apply month_add_range || done).
  rewrite month_index_add. lia.
Qed.

Lemma next_year_firstE d : next_year_first d = month_start (next_period 12 (mi d)).
Proof.
  unfold next_year_first. rewrite next_period_12, (month_startE _ 1) by (cbn; lia || done).
  rewrite month_index_add_years. rewrite Z.mul_1_r. lia.
Qed.

Lemma next_month_lastE d : next_month_last d = period_end 1 d.
Proof.
  unfold next_month_last, period_end. rewrite next_period_1.
  rewrite !local_days_lastE by (apply mi_month_range || apply month_add_range).
  rewrite month_index_add. reflexivity.
Qed.

Lemma next_quarter_lastE d : next_quarter_last d = period_end 3 d.
Proof.
  unfold next_quarter_last, period_end. rewrite next_period_3.
  rewrite !local_days_lastE by apply month_add_range. rewrite !month_index_add.
  by rewrite <- !Z.add_assoc.
Qed.

Lemma next_year_lastE d : next_year_last d = period_end 12 d.
Proof.
  unfold next_year_last, period_end. rewrite next_period_12.
  rewrite !local_days_lastE by (cbn; lia). rewrite month_index_add_years.
  unfold month_index; cbn [year month].
  by replace (12 * year (ymd_of_days d) + (12 - 1) + 1) with
    (12 * year (ymd_of_days d) + (1 - 1) + 12) by lia;
  replace (12 * year (ymd_of_days d) + (12 - 1) + 12 * 1 + 1) with
    (12 * year (ymd_of_days d) + (1 - 1) + 12 + 12) by lia.
Qed.

Lemma first_after_weekday i d n :
  d < n ≤ d + 7 → weekday n = i → first_after (λ k, weekday k = i) d n.
Proof.
  intros Hn Hi. split_and!; [lia|done|]. intros k Hk Hw. unfold weekday in *.
  Z.to_euclidean_division_equations. lia.
Qed.

Lemma next_weekday_spec i d :
  0 ≤ i < 7 → first_after (λ k, weekday k = i) d (next_weekday i d).
Proof.
  intros Hi. apply first_after_weekday; unfold next_weekday, weekday; repeat case_if;
    rewrite ?Z.eqb_eq, ?Z.eqb_neq, ?Z.leb_le, ?Z.leb_gt in *;
    Z.to_euclidean_division_equations; lia.
Qed.

Lemma next_week_end_spec sunday d :
  first_after (λ k, weekday k = (6 + start_of_week_offset sunday) mod 7) d (next_week_end sunday d).
Proof.
  apply first_after_weekday; unfold next_week_end, weekday, start_of_week_offset;
    destruct sunday; cbn -[Z.mul Z.add Z.modulo Z.opp]; repeat case_if;
    rewrite ?Z.leb_le, ?Z.leb_gt in *; Z.to_euclidean_division_equations; lia.
Qed.

(** On a Sunday, with weeks that start on Monday, the code skips tomorrow. *)
Definition skips_tomorrow (sunday : bool) (bit d : Z) : bool :=
  (bit =? FIRST_DAY_IN_WEEK) && negb sunday && (weekday d =? 0).

Lemma next_week_start_spec sunday d :
  skips_tomorrow sunday FIRST_DAY_IN_WEEK d = false →
  first_after (λ k, weekday k = start_of_week_offset sunday) d (next_week_start sunday d).
Proof.
  unfold skips_tomorrow. cbn. intros Hs.
  apply first_after_weekday; unfold next_week_start, start_of_week_offset;
    destruct sunday; cbn in Hs; rewrite ?Z.eqb_neq in Hs; unfold weekday in *;
    Z.to_euclidean_division_equations; lia.
Qed.

Lemma next_week_start_later sunday d : d < next_week_start sunday d.
Proof.
  unfold next_week_start, start_of_week_offset, weekday. destruct sunday;
    Z.to_euclidean_division_equations; lia.
Qed.

Lemma bit_cases (P : Z → Prop) b :
  0 ≤ b < 15 → (∀ i, 0 ≤ i < 7 → P i) → P 7 → P 8 → P 9 → P 10 → P 11 → P 12 → P 13 → P 14 → P b.
Proof.
  intros Hb H0. intros. destruct (Z.lt_ge_cases b 7); [apply H0; lia|].
  assert (b = 7 ∨ b = 8 ∨ b = 9 ∨ b = 10 ∨ b = 11 ∨ b = 12 ∨ b = 13 ∨ b = 14) by lia.
  naive_solver.
Qed.

Lemma dayspec_candidate_spec sunday bit d :
  0 ≤ bit < 15 → skips_tomorrow sunday bit d = false →
  first_after (dayspec_rule sunday bit) d (dayspec_candidate sunday bit d).
Proof.
  intros Hb. pattern bit. apply bit_cases; [done|..].
  { intros i Hi _. unfold dayspec_rule, dayspec_candidate.
    replace (i <? 7) with true by (symmetry; apply Z.ltb_lt; lia). by apply next_weekday_spec. }
  all: unfold dayspec_rule, dayspec_candidate; cbn [Z.ltb Z.eqb Z.compare Pos.compare Pos.compare_cont Pos.eqb].
  { apply next_week_start_spec. }
  all: intros _.
  - apply next_week_end_spec.
  - rewrite next_month_firstE. by apply first_after_period.
  - rewrite next_month_lastE. by apply period_end_spec.
  - rewrite next_quarter_firstE. by apply first_after_period.
  - rewrite next_quarter_lastE. by apply period_end_spec.
  - rewrite next_year_firstE. by apply first_after_period.
  - rewrite next_year_lastE. by apply period_end_spec.
Qed.

Lemma dayspec_candidate_later sunday bit d :
  0 ≤ bit < 15 → d < dayspec_candidate sunday bit d.
Proof.
  intros Hb. destruct (skips_tomorrow sunday bit d) eqn:Hs.
  - unfold skips_tomorrow in Hs. split_bools. apply Z.eqb_eq in H. subst.
    apply next_week_start_later.
  - by apply dayspec_candidate_spec.
Qed.

(** ** [dayspec_best] is the latest of the candidates *)
Definition pick_all (r : Z) (sunday : bool) (ldays : Z) (b : Z) (bits : list Z) : Z :=
  foldl (λ b i, if Z.testbit r i then best b (dayspec_candidate sunday i ldays) else b) b bits.

Lemma best_max a b : best a b = Z.max a b.
Proof. unfold best. case_if; rewrite ?Z.ltb_lt, ?Z.ltb_ge in *; lia. Qed.

Lemma pick_all_spec r sunday d bits b :
  let n := pick_all r sunday d b bits in
  b ≤ n ∧
  (n = b ∨ ∃ i, i ∈ bits ∧ Z.testbit r i = true ∧ n = dayspec_candidate sunday i d) ∧
  (∀ i, i ∈ bits → Z.testbit r i = true → dayspec_candidate sunday i d ≤ n).
Proof.
  unfold pick_all. revert b. induction bits as [|i bits IH]; intros b; cbn [foldl].
  - split_and!; [lia|by left|]. intros i Hi. by apply elem_of_nil in Hi.
  - destruct (Z.testbit r i) eqn:Hi.
    + specialize (IH (best b (dayspec_candidate sunday i d))).
      rewrite best_max in *. destruct IH as (H1 & H2 & H3). split_and!; [lia| |].
      * destruct H2 as [H2|(j & ? & ? & ?)]; [|right; exists j; split_and!; [by right|done|done]].
        rewrite H2. destruct (Z.max_spec b (dayspec_candidate sunday i d)) as [[_ ->]|[_ ->]];
          [right|by left]. exists i. split_and!; [by left|done|done].
      * intros j [->|Hj]%elem_of_cons Ht; [lia|by apply H3].
    + destruct (IH b) as (H1 & H2 & H3). split_and!; [done| |].
      * destruct H2 as [?|(j & ? & ? & ?)]; [by left|right].
        exists j. split_and!; [by right|done|done].
      * intros j [->|Hj]%elem_of_cons Ht; [congruence|by apply H3].
Qed.

Lemma land127_bits r i : Z.land r 127 = 0 → 0 ≤ i < 7 → Z.testbit r i = false.
Proof.
  intros Hr Hi. pose proof (Z.land_spec r 127 i) as Hl. rewrite Hr, Z.bits_0 in Hl.
  replace (Z.testbit 127 i) with true in Hl; [by rewrite andb_true_r in Hl|].
  change 127 with (Z.ones 7). symmetry. apply Z.ones_spec_low. lia.
Qed.

Lemma pick_all_none r sunday d b bits :
  (∀ i, i ∈ bits → Z.testbit r i = false) → pick_all r sunday d b bits = b.
Proof.
  unfold pick_all. revert b. induction bits as [|i bits IH]; intros b Hb; [done|].
  cbn [foldl]. rewrite (Hb i) by by left. apply IH. intros j Hj. apply Hb. by right.
Qed.

Lemma dayspec_bestE r sunday d : dayspec_best r sunday d = pick_all r sunday d d (seqZ 0 15).
Proof.
  assert (Hs : seqZ 0 15 = seqZ 0 7 ++ [7; 8; 9; 10; 11; 12; 13; 14]) by reflexivity.
  rewrite Hs. unfold pick_all. rewrite foldl_app.
  unfold dayspec_best. destruct (Z.land r 127 =? 0) eqn:Hz; [|reflexivity].
  apply Z.eqb_eq in Hz. fold (pick_all r sunday d d (seqZ 0 7)).
  rewrite pick_all_none; [reflexivity|]. intros i Hi%elem_of_seqZ.
  apply land127_bits; [done|lia].
Qed.

Lemma some_bit r : 0 < r < 2 ^ 15 → ∃ i, 0 ≤ i < 15 ∧ Z.testbit r i = true.
Proof.
  intros Hr. exists (Z.log2 r). split; [|apply Z.bit_log2; lia].
  split; [apply Z.log2_nonneg|]. apply Z.log2_lt_pow2; lia.
Qed.

Lemma dayspec_best_spec r sunday d :
  let n := dayspec_best r sunday d in
  0 < r < 2 ^ 15 →
  (∃ i, 0 ≤ i < 15 ∧ Z.testbit r i = true ∧ n = dayspec_candidate sunday i d) ∧
  (∀ i, 0 ≤ i < 15 → Z.testbit r i = true → dayspec_candidate sunday i d ≤ n).
Proof.
  cbn zeta. intros Hr. rewrite dayspec_bestE.
  destruct (pick_all_spec r sunday d (seqZ 0 15) d) as (H1 & H2 & H3).
  assert (H3' : ∀ i, 0 ≤ i < 15 → Z.testbit r i = true →
    dayspec_candidate sunday i d ≤ pick_all r sunday d d (seqZ 0 15)).
  { intros i Hi. apply H3, elem_of_seqZ. lia. }
  split; [|exact H3']. destruct H2 as [H2|(i & Hi & Ht & ->)].
  - exfalso. destruct (some_bit r Hr) as (i & Hi & Ht).
    pose proof (H3' i Hi Ht). pose proof (dayspec_candidate_later sunday i d Hi). lia.
  - exists i. apply elem_of_seqZ in Hi. by split_and!; try lia.
Qed.

(** ** The next start of a repetition counted in units *)

(** Same month [n] months on, the day kept or cut to the month's length. *)
Definition months_on (d n month : Z) : Prop :=
  mi n = month ∧ day (ymd_of_days n) = Z.min (day (ymd_of_days d)) (month_len month).

Definition date_rule (units : RepeatUnit) (r d n : Z) : Prop :=
  match units with
  | DAYS => n = d + r
  | WEEKS => n = d + 7 * r
  | MONTHS => months_on d n (mi d + r)
  | QUARTERS => months_on d n (3 * (mi d / 3) + 3 * r)
  | YEARS => months_on d n (mi d + 12 * r)
  | UNIT_OTHER => False
  end.

Lemma months_on_clamp d x :
  1 ≤ month x ≤ 12 → day x = day (ymd_of_days d) →
  months_on d (days_of_ymd (clamp x)) (month_index x).
Proof.
  intros Hm Hd. unfold months_on, mi. rewrite ymd_of_days_of by by apply clamp_ok.
  rewrite clamp_index, month_len_last, clamp_day by (done || rewrite Hd; apply ymd_of_days_valid).
  by rewrite Hd.
Qed.

Lemma months_on_later d n i : mi d < i → months_on d n i → d < n.
Proof.
  intros Hi [Hn _]. destruct (Z.lt_ge_cases d n) as [|Hge]; [done|].
  pose proof (mi_mono n d ltac:(lia)). lia.
Qed.

Lemma date_offset_spec units r d n :
  0 < r → date_offset units r d = Ok n → date_rule units r d n ∧ d < n.
Proof.
  intros Hr. destruct units; cbn [date_offset date_rule]; unfold int_mul, year_in_range.
  1: intros [= <-]; lia.
  1: case_if; cbn; intros Ho; inv_ok; lia.
  4: done.
  all: intros Ho; inv_ok; repeat match goal with
    | H : (if ?b then _ else _) = Ok _ |- _ => destruct b; [|discriminate H] end; inv_ok.
  - match goal with |- ?R ∧ _ => assert (R) as Hrule end; [|split; [done|eapply months_on_later, Hrule; lia]].
    unfold mi at 1. rewrite <- month_index_add. apply months_on_clamp; [apply month_add_range|done].
  - match goal with |- ?R ∧ _ => assert (R) as Hrule end.
    + pose proof (next_period_3 d) as Hp. unfold next_period in Hp.
      replace (3 * (mi d / 3) + 3 * r) with
        (month_index (Ymd (year (ymd_of_days d)) (quarters (month (ymd_of_days d)))
          (day (ymd_of_days d))) + r * 3) by (unfold month_index in *; cbn [year month] in *; lia).
      rewrite <- month_index_add. apply months_on_clamp; [apply month_add_range|done].
    + split; [done|]. eapply months_on_later, Hrule.
      pose proof (next_period_bounds 3 (mi d)). unfold next_period in *. lia.
  - match goal with |- ?R ∧ _ => assert (R) as Hrule end; [|split; [done|eapply months_on_later, Hrule; lia]].
    unfold mi at 1. rewrite <- month_index_add_years.
    apply months_on_clamp; [apply mi_month_range|done].
Qed.

Lemma processDueAtDate_inv z uctx from units k r d :
  locate_zone (tz_name uctx) = Ok z →
  processDueAtDate from units k r uctx = Ok d →
  ∃ s n, start d = Some s ∧ to_local z s = 86400 * n + to_local z from mod 60 ∧
    to_local z from / 86400 < n ∧ date_rule units r (to_local z from / 86400) n ∧
    kind d = k ∧ timezone d = tz_name uctx ∧ due d = Some (getDueTime s k).
Proof.
  intros Hz Hp. unfold processDueAtDate in Hp. inv_ok. split_bools.
  rewrite Hz in *. inv_ok. simplify_eq.
  match goal with H : date_offset _ _ _ = Ok _ |- _ => apply date_offset_spec in H as [? ?]; [|lia] end.
  match goal with H : to_sys _ _ = Ok _ |- _ => apply to_sys_local in H end.
  eexists _, _. split_and!; try done.
  etrans; [eassumption|]. f_equal. Z.to_euclidean_division_equations. lia.
Qed.

Lemma processDueAtDayspec_inv z uctx from units k r d :
  locate_zone (tz_name uctx) = Ok z →
  processDueAtDayspec from units k r uctx = Ok d →
  ∃ s, start d = Some s ∧
    to_local z s = 86400 * dayspec_best r (sundayIsFirstWeekday uctx) (to_local z from / 86400) ∧
    kind d = k ∧ timezone d = tz_name uctx ∧ 0 < r ∧ due d = None.
Proof.
  intros Hz Hp. unfold processDueAtDayspec in Hp. inv_ok. split_bools.
  rewrite Hz in *. inv_ok. simplify_eq.
  match goal with H : to_sys _ _ = Ok _ |- _ => apply to_sys_local in H end.
  eexists. split_and!; try done. lia.
Qed.

(** ** [adjustDueTime] ends the period *)

(** The last day of the period a kind of due time names, seen from day [d];
    a year is treated as a month. *)
Definition due_day (sunday : bool) (k : ActionDueKind) (d n : Z) : Prop :=
  match k with
  | DATE => n = d
  | WEEK => first_after (λ k, weekday k = (6 + start_of_week_offset sunday) mod 7) d n
  | MONTH | YEAR => first_after (period_last 1) d n
  | QUARTER => first_after (period_last 3) d n
  | _ => False
  end.

Lemma due_day_later sunday k d n : due_day sunday k d n → d ≤ n.
Proof. unfold due_day, first_after. destruct k; intros; naive_solver lia. Qed.

Lemma adjustDueTime_inv z uctx (d d' : Due) st :
  locate_zone (timezone d) = Ok z → start d = Some st → st ≠ 0 →
  adjustDueTime d uctx = Ok d' →
  start d' = Some st ∧ kind d' = kind d ∧ timezone d' = timezone d ∧
  match kind d with
  | DATETIME => due d' = Some st
  | UNSET => due d' = None
  | SPAN_HOURS | SPAN_DAYS => False
  | k => ∃ t n, due d' = Some t ∧ to_local z t = 86400 * (n + 1) - 60 ∧
           due_day (sundayIsFirstWeekday uctx) k (to_local z st / 86400) n
  end.
Proof.
  intros Hz Hs Hne Ha. unfold adjustDueTime in Ha. rewrite Hs in Ha.
  apply Z.eqb_neq in Hne. rewrite Hne in Ha. inv_ok. rewrite Hz in *. inv_ok.
  destruct (kind d) eqn:Hk; inv_ok; unfold day_end in *;
    repeat match goal with H : to_sys _ _ = Ok _ |- _ => apply to_sys_local in H end;
    cbn [set_due start due kind timezone];
    (split_and!; [done..|]); try done;
    eexists _, _; (split_and!; [done|eassumption|]); cbn [due_day].
  - done.
  - apply next_week_end_spec.
  - rewrite next_month_lastE. by apply period_end_spec.
  - rewrite next_quarter_lastE. by apply period_end_spec.
  - rewrite next_month_lastE. by apply period_end_spec.
Qed.

(** The reference time the repetition is counted from. *)
Definition from_time {R} (a : Action R) : Z :=
  match repeatKind a with
  | COMPLETED => default 0 (completedTime a)
  | START_TIME => default 0 (start (action_due a))
  | DUE_TIME => default 0 (due (action_due a))
  | _ => 0
  end.

Lemma handleActionDone_inv {R} (orig : Action R) new_id uctx a :
  handleActionDone orig new_id uctx = Ok (Some a) →
  id a = new_id ∧ origin a = id orig ∧ status a = ACTIVE ∧ completedTime a = None ∧
  repeatAfter a = repeatAfter orig ∧ rest a = rest orig ∧
  ∃ d, adjustDueTime d uctx = Ok (action_due a) ∧
    match repeatWhen orig with
    | AT_DATE => processDueAtDate (from_time orig) (repeatUnits orig) (kind (action_due orig))
                   (repeatAfter orig) uctx = Ok d
    | AT_DAYSPEC => processDueAtDayspec (from_time orig) (repeatUnits orig)
                   (kind (action_due orig)) (repeatAfter orig) uctx = Ok d
    | WHEN_OTHER => False
    end.
Proof.
  unfold handleActionDone, from_time. intros H.
  destruct (repeatKind orig) eqn:Hk; inv_ok; try discriminate;
    destruct (repeatWhen orig) eqn:Hw; inv_ok;
    match goal with H : Some _ = Some _ |- _ => injection H as <- | _ => idtac end;
    cbn; (split_and!; [done..|]); eexists; done.
Qed.

(** C40: Repeating an action at a date: whenever [processDueAtDate] returns,
    the new start is on the day the unit and count ask for (days and weeks
    on; the same day some months, quarters from the start of the quarter, or
    years on, cut to the length of that month), on a strictly later local
    day than the reference time, and carries the reference time's seconds
    within the minute only: the hour and minute of day are lost. *)
Theorem processDueAtDate_next_occurrence z uctx from units k r d :
  locate_zone (tz_name uctx) = Ok z →
  processDueAtDate from units k r uctx = Ok d →
  ∃ s n, start d = Some s ∧ to_local z s = 86400 * n + to_local z from mod 60 ∧
    to_local z from / 86400 < n ∧ date_rule units r (to_local z from / 86400) n ∧
    kind d = k ∧ timezone d = tz_name uctx ∧ due d = Some (getDueTime s k).
Proof. apply processDueAtDate_inv. Qed.

(** Repeating an action on a day specification: [processDueAtDayspec]
    fails only when the zone cannot convert the midnight it picks.  That day
    is after the reference day, it satisfies one of the selected rules, and
    it is the LATEST candidate: every selected rule has its first day after
    the reference day no later than the day picked (except "first day in
    week", with weeks from Monday, on a Sunday). *)
Theorem processDueAtDayspec_latest_match z uctx from units k r :
  locate_zone (tz_name uctx) = Ok z → 0 < from → 0 < r < 2 ^ 15 →
  let d := to_local z from / 86400 in
  let sunday := sundayIsFirstWeekday uctx in
  ∃ n, processDueAtDayspec from units k r uctx =
         (let! s := to_sys z (86400 * n) in
          Ok {| start := Some s; due := None; kind := k; timezone := tz_name uctx |}) ∧
    d < n ∧
    (∃ i, 0 ≤ i < 15 ∧ Z.testbit r i = true ∧
       (skips_tomorrow sunday i d = false → first_after (dayspec_rule sunday i) d n)) ∧
    (∀ i, 0 ≤ i < 15 → Z.testbit r i = true → skips_tomorrow sunday i d = false →
       ∃ m, first_after (dayspec_rule sunday i) d m ∧ m ≤ n).
Proof.
  intros Hz Hf Hr. cbn zeta.
  set (d := to_local z from / 86400). set (sunday := sundayIsFirstWeekday uctx).
  destruct (dayspec_best_spec r sunday d Hr) as [(i & Hi & Ht & Hn) Hle].
  exists (dayspec_best r sunday d). split_and!.
  - unfold processDueAtDayspec. replace (0 <? from) with true by (symmetry; apply Z.ltb_lt; lia).
    replace (0 <? r) with true by (symmetry; apply Z.ltb_lt; lia). cbn [andb negb throw_if].
    rewrite Hz. reflexivity.
  - rewrite Hn. by apply dayspec_candidate_later.
  - exists i. rewrite Hn. eauto using dayspec_candidate_spec.
  - intros j Hj Htj Hs. eexists. split; [by apply dayspec_candidate_spec|by apply Hle].
Qed.

(** [adjustDueTime] on a due time that has a start: the start, the kind
    and the time zone are kept; the due time is the start for [DATETIME],
    cleared for [UNSET], and otherwise 23:59 local time on the last day of
    the period: that same day, or the first later day that ends a week, a
    month or a quarter. A [YEAR] ends with the month; the span kinds, which
    the switch does not know, never return. *)
Theorem adjustDueTime_period_end z uctx (d d' : Due) st :
  locate_zone (timezone d) = Ok z → start d = Some st → st ≠ 0 →
  adjustDueTime d uctx = Ok d' →
  start d' = Some st ∧ kind d' = kind d ∧ timezone d' = timezone d ∧
  match kind d with
  | DATETIME => due d' = Some st
  | UNSET => due d' = None
  | SPAN_HOURS | SPAN_DAYS => False
  | k => ∃ t n, due d' = Some t ∧ to_local z t = 86400 * (n + 1) - 60 ∧
           due_day (sundayIsFirstWeekday uctx) k (to_local z st / 86400) n
  end.
Proof. apply adjustDueTime_inv. Qed.

(** Completing a repeating action creates an active, uncompleted action
    whose origin is the completed one; its start lies on a strictly later
    local day than the time the repetition is counted from, and its due
    time, for every kind but [UNSET], is not before its start. *)
Theorem handleActionDone_progress {R} z uctx (orig : Action R) new_id a s :
  locate_zone (tz_name uctx) = Ok z → repeatAfter orig < 2 ^ 15 →
  handleActionDone orig new_id uctx = Ok (Some a) →
  start (action_due a) = Some s →
  id a = new_id ∧ origin a = id orig ∧ status a = ACTIVE ∧ completedTime a = None ∧
  rest a = rest orig ∧
  to_local z (from_time orig) / 86400 < to_local z s / 86400 ∧
  (kind (action_due a) = UNSET ∨
   ∃ t, due (action_due a) = Some t ∧ to_local z s ≤ to_local z t).
Proof.
  intros Hz Hr H Hs. apply handleActionDone_inv in H as (? & ? & ? & ? & _ & ? & d & Ha & Hd).
  do 5 (split; [done|]).
  assert (Hstart : ∃ s0 n, start d = Some s0 ∧ timezone d = tz_name uctx ∧
    86400 * n ≤ to_local z s0 < 86400 * n + 60 ∧ to_local z (from_time orig) / 86400 < n).
  { destruct (repeatWhen orig); [| |done].
    - apply (processDueAtDate_inv z) in Hd as (s0 & n & ? & ? & ? & _ & _ & ? & _); [|done].
      exists s0, n. pose proof (Z.mod_pos_bound (to_local z (from_time orig)) 60 ltac:(lia)).
      split_and!; (done || lia).
    - apply (processDueAtDayspec_inv z) in Hd as (s0 & ? & ? & _ & ? & Hr0 & _); [|done].
      match goal with E : _ = 86400 * ?b |- _ => exists s0, b end.
      split_and!; [done|done|lia|lia|].
      destruct (dayspec_best_spec (repeatAfter orig) (sundayIsFirstWeekday uctx)
        (to_local z (from_time orig) / 86400) ltac:(lia)) as [(i & Hi & _ & ->) _].
      by apply dayspec_candidate_later. }
  destruct Hstart as (s0 & n & Hs0 & Htz & Hn & Hlt).
  assert (Hne : s0 ≠ 0).
  { intros ->. unfold adjustDueTime in Ha. rewrite Hs0 in Ha. cbn in Ha.
    injection Ha as Ha. rewrite <- Ha in Hs. discriminate Hs. }
  rewrite <- Htz in Hz.
  destruct (adjustDueTime_inv z uctx d _ s0 Hz Hs0 Hne Ha) as (Hst & Hk & _ & Hdue).
  assert (s0 = s) as -> by congruence.
  assert (Hday : to_local z s / 86400 = n) by (Z.to_euclidean_division_equations; lia).
  split; [by rewrite Hday|]. rewrite Hk.
  destruct (kind d) eqn:Hkd; try (by left); try done; right.
  { eauto with lia. }
  all: destruct Hdue as (t & m & Ht & Hl & Hm); rewrite Hday in Hm;
    apply due_day_later in Hm; exists t; split; [done|]; rewrite Hl; lia.
Qed.
End recurrence.

(** ** Examples: a zone one hour ahead of UTC *)
#[program] Definition cet : TimeZone := {|
  to_local s := s + 3600;
  to_sys l := Ok (l - 3600)
|}.
Next Obligation. intros l s [= <-]. lia. Qed.

Definition zones (name : string) : result TimeZone :=
  if bool_decide (name = "CET"%string) then Ok cet else Throw runtime_error.

Definition settings : Settings := {| tz_name := "CET"; sundayIsFirstWeekday := false |}.

(** 2024-01-31 15:30:20 local time *)
Definition example_time : Z := 1706711420.

Lemma example_date :
  processDueAtDate zones example_time MONTHS DATETIME 1 settings
  = Ok {| start := Some 1709161220; due := Some 1709161220; kind := DATETIME; timezone := "CET" |}
  ∧ ymd_of_days ((1709161220 + 3600) / 86400) = Ymd 2024 2 29.
Proof. vm_compute. done. Qed.

Definition example_action : Action unit := {|
  id := "a"; origin := ""; status := DONE; completedTime := Some example_time;
  action_due := {| start := None; due := Some example_time; kind := WEEK; timezone := "CET" |};
  repeatKind := COMPLETED; repeatUnits := WEEKS; repeatWhen := AT_DAYSPEC;
  repeatAfter := 2 + 1024; rest := tt
|}.

Definition example_next : Action unit := {|
  id := "b"; origin := "a"; status := ACTIVE; completedTime := None;
  action_due := {| start := Some 1709161200; due := Some 1709506740; kind := WEEK; timezone := "CET" |};
  repeatKind := COMPLETED; repeatUnits := WEEKS; repeatWhen := AT_DAYSPEC;
  repeatAfter := 2 + 1024; rest := tt
|}.

Lemma processDueAtDate_next_occurrence_witness :
  ∃ s n, Some 1709161220 = Some s ∧ to_local cet s = 86400 * n + to_local cet example_time mod 60 ∧
    to_local cet example_time / 86400 < n ∧
    date_rule MONTHS 1 (to_local cet example_time / 86400) n ∧
    DATETIME = DATETIME ∧ "CET"%string = "CET"%string ∧ Some 1709161220 = Some (getDueTime s DATETIME).
Proof.
  exact (processDueAtDate_next_occurrence zones cet settings example_time MONTHS DATETIME 1 _
    eq_refl (proj1 example_date)).
Defined.

Lemma processDueAtDayspec_latest_match_witness :
  ∃ n, to_local cet example_time / 86400 < n.
Proof.
  destruct (processDueAtDayspec_latest_match zones cet settings example_time WEEKS WEEK 1026
    eq_refl ltac:(vm_compute; done) ltac:(vm_compute; done)) as (n & _ & Hn & _).
  exists n. exact Hn.
Defined.

Lemma adjustDueTime_period_end_witness :
  ∃ t n, Some 1709506740 = Some t ∧ to_local cet t = 86400 * (n + 1) - 60 ∧
    due_day false WEEK (to_local cet 1709161200 / 86400) n.
Proof.
  refine (proj2 (proj2 (proj2 (adjustDueTime_period_end zones cet settings
    {| start := Some 1709161200; due := None; kind := WEEK; timezone := "CET" |}
    {| start := Some 1709161200; due := Some 1709506740; kind := WEEK; timezone := "CET" |}
    1709161200 eq_refl eq_refl _ _)))).
  - lia.
  - vm_compute. reflexivity.
Defined.

Lemma handleActionDone_progress_witness :
  to_local cet example_time / 86400 < to_local cet 1709161200 / 86400.
Proof.
  refine (proj1 (proj2 (proj2 (proj2 (proj2 (proj2 (handleActionDone_progress zones cet settings
    example_action "b" example_next 1709161200 eq_refl _ _ eq_refl))))))).
  - vm_compute. reflexivity.
  - vm_compute. reflexivity.
Defined.
