(* ===== verification/WorkSession.v ===== *)
(** * What a work session amounts to

    [WorkSession] and [WorkEvent] of src/src/proto/nextapp.proto and
    [GrpcServer::updateOutcome] of src/src/backend/lib/grpc/Work.cpp, which
    recomputes a session's start, end, pause, duration and state from its
    log of events.  Times are seconds; the C++ integers keep their width. *)
From S2P Require Import Prelude.

#[local] Open Scope Z_scope.
#[local] Open Scope nextapp_scope.

(** [WorkEvent::Kind] *)
Inductive EventKind := START | STOP | PAUSE | RESUME | TOUCH | CORRECTION.

#[export] Instance EventKind_eq_dec : EqDecision EventKind.
Proof. solve_decision. Defined.

Record WorkEvent := {
  ev_kind : EventKind;
  ev_time : Z;
  ev_start : option Z;
  ev_end : option Z;
  ev_duration : option Z;
  ev_paused : option Z;
  ev_name : option string;
  ev_notes : option string
}.

(** [WorkSession::State] *)
Inductive WorkState := ACTIVE | PAUSED | DONE | DELETED.

#[export] Instance WorkState_eq_dec : EqDecision WorkState.
Proof. solve_decision. Defined.

(** [WorkSession]; an empty [ws_action] is no action.  The user is the same
    for every session of one store. *)
Record WorkSession := {
  ws_id : string;
  ws_action : string;
  ws_start : Z;
  ws_end : option Z;
  ws_duration : Z;
  ws_paused : Z;
  ws_state : WorkState;
  ws_version : Z;
  ws_touched : Z;
  ws_events : list WorkEvent;
  ws_name : string;
  ws_notes : string
}.

(** ** The setters of the generated class *)
Definition set_start (v : Z) (w : WorkSession) : WorkSession :=
  {| ws_id := ws_id w; ws_action := ws_action w; ws_start := v; ws_end := ws_end w;
     ws_duration := ws_duration w; ws_paused := ws_paused w; ws_state := ws_state w;
     ws_version := ws_version w; ws_touched := ws_touched w; ws_events := ws_events w;
     ws_name := ws_name w; ws_notes := ws_notes w |}.
Definition set_end (v : option Z) (w : WorkSession) : WorkSession :=
  {| ws_id := ws_id w; ws_action := ws_action w; ws_start := ws_start w; ws_end := v;
     ws_duration := ws_duration w; ws_paused := ws_paused w; ws_state := ws_state w;
     ws_version := ws_version w; ws_touched := ws_touched w; ws_events := ws_events w;
     ws_name := ws_name w; ws_notes := ws_notes w |}.
Definition set_duration (v : Z) (w : WorkSession) : WorkSession :=
  {| ws_id := ws_id w; ws_action := ws_action w; ws_start := ws_start w; ws_end := ws_end w;
     ws_duration := u32 v; ws_paused := ws_paused w; ws_state := ws_state w;
     ws_version := ws_version w; ws_touched := ws_touched w; ws_events := ws_events w;
     ws_name := ws_name w; ws_notes := ws_notes w |}.
Definition set_paused (v : Z) (w : WorkSession) : WorkSession :=
  {| ws_id := ws_id w; ws_action := ws_action w; ws_start := ws_start w; ws_end := ws_end w;
     ws_duration := ws_duration w; ws_paused := u32 v; ws_state := ws_state w;
     ws_version := ws_version w; ws_touched := ws_touched w; ws_events := ws_events w;
     ws_name := ws_name w; ws_notes := ws_notes w |}.
Definition set_state (v : WorkState) (w : WorkSession) : WorkSession :=
  {| ws_id := ws_id w; ws_action := ws_action w; ws_start := ws_start w; ws_end := ws_end w;
     ws_duration := ws_duration w; ws_paused := ws_paused w; ws_state := v;
     ws_version := ws_version w; ws_touched := ws_touched w; ws_events := ws_events w;
     ws_name := ws_name w; ws_notes := ws_notes w |}.
Definition set_texts (name notes : string) (w : WorkSession) : WorkSession :=
  {| ws_id := ws_id w; ws_action := ws_action w; ws_start := ws_start w; ws_end := ws_end w;
     ws_duration := ws_duration w; ws_paused := ws_paused w; ws_state := ws_state w;
     ws_version := ws_version w; ws_touched := ws_touched w; ws_events := ws_events w;
     ws_name := name; ws_notes := notes |}.
Definition add_event (e : WorkEvent) (w : WorkSession) : WorkSession :=
  {| ws_id := ws_id w; ws_action := ws_action w; ws_start := ws_start w; ws_end := ws_end w;
     ws_duration := ws_duration w; ws_paused := ws_paused w; ws_state := ws_state w;
     ws_version := ws_version w; ws_touched := ws_touched w; ws_events := ws_events w ++ [e];
     ws_name := ws_name w; ws_notes := ws_notes w |}.

(** [createWorkEvent]: an event of the kind, now. *)
Definition createWorkEvent (now : Z) (k : EventKind) : WorkEvent :=
  {| ev_kind := k; ev_time := now; ev_start := None; ev_end := None; ev_duration := None;
     ev_paused := None; ev_name := None; ev_notes := None |}.

(** ** [updateOutcome] *)

(** A 64-bit value read as signed. *)
Definition to_long (z : Z) : Z :=
  let m := u64 z in if m <? 2 ^ 63 then m else m - 2 ^ 64.

(** The lambda [end_pause]: the loop's state is the session and
    [pause_from]. *)
Definition end_pause (e : WorkEvent) (l : WorkSession * Z) : WorkSession * Z :=
  let '(w, pause_from) := l in
  if 0 <? pause_from
  then (set_paused (ws_paused w + u64 (ev_time e - pause_from)) w, 0)
  else (w, pause_from).

(** One round of the loop over the events. *)
Definition outcome_step (l : WorkSession * Z) (e : WorkEvent) : result (WorkSession * Z) :=
  let '(w, pause_from) := l in
  match ev_kind e with
  | START => Ok (set_state ACTIVE (set_start (ev_time e) w), pause_from)
  | STOP =>
      let '(w, pause_from) := end_pause e (w, pause_from) in
      let w := set_end (Some (default (ev_time e) (ev_end e))) w in
      Ok (set_state DONE w, pause_from)
  | PAUSE =>
      let pause_from := if pause_from =? 0 then to_long (ev_time e) else pause_from in
      Ok (set_state PAUSED w, pause_from)
  | RESUME =>
      let '(w, pause_from) := end_pause e (w, pause_from) in
      Ok (set_state ACTIVE w, pause_from)
  | TOUCH => Ok (w, pause_from)
  | CORRECTION =>
      let w := match ev_start e with Some t => set_start t w | None => w end in
      let! w := match ev_end e with
                | Some t =>
                    if bool_decide (ws_state w = DONE) then Ok (set_end (Some t) w)
                    else Throw (server_err Error.INVALID_REQUEST)
                | None => Ok w
                end in
      let w := match ev_duration e with Some d => set_duration d w | None => w end in
      let '(w, pause_from) :=
        match ev_paused e with
        | Some p => (set_paused p w,
                     if pause_from =? 0 then pause_from else to_long (ev_time e))
        | None => (w, pause_from)
        end in
      Ok (set_texts (default (ws_name w) (ev_name e)) (default (ws_notes w) (ev_notes e)) w,
          pause_from)
  end.

Fixpoint outcome_loop (l : WorkSession * Z) (es : list WorkEvent) : result (WorkSession * Z) :=
  match es with
  | [] => Ok l
  | e :: es => let! l := outcome_step l e in outcome_loop l es
  end.

(** The conditionals after the loop. *)
Definition finish_outcome (now : Z) (w : WorkSession) : result WorkSession :=
  if ws_start w =? 0 then Ok (set_paused 0 (set_duration 0 w))
  else match ws_end w with
  | Some e =>
      if e <=? ws_start w then Ok (set_duration 0 w)
      else let duration := u64 (e - ws_start w) in
           Ok (set_duration (Z.max 0 (to_long (duration - ws_paused w))) w)
  | None =>
      if bool_decide (ws_state w = DONE) then Throw undefined
      else if u64 now <=? ws_start w then Ok (set_duration 0 w)
      else Ok (set_duration (Z.min (Z.max 0 (to_long (u64 (now - ws_start w) - ws_paused w)))
                               (3600 * 24 * 7)) w)
  end.

Definition updateOutcome (now : Z) (work : WorkSession) : result WorkSession :=
  if bool_decide (ws_events work = []) then Ok work else
  let w := set_duration 0 (set_paused 0 (set_start 0 work)) in
  let w := if bool_decide (ws_state w = DONE) then w else set_end None w in
  let orig_state := ws_state w in
  let! l := outcome_loop (w, 0) (ws_events w) in
  let! w := finish_outcome now l.1 in
  Ok (if bool_decide (orig_state = DONE) then set_state orig_state w else w).

(** ** Specification: the time spent in each state

    [tally] walks a log second by second worth: the time since the previous
    event counts for the state the session was in. *)
Record Tally := { ta_active : Z; ta_paused : Z; ta_running : bool; ta_last : Z }.

Definition tally_step (s : Tally) (e : WorkEvent) : Tally :=
  let dt := ev_time e - ta_last s in
  {| ta_active := ta_active s + (if ta_running s then dt else 0);
     ta_paused := ta_paused s + (if ta_running s then 0 else dt);
     ta_running := match ev_kind e with
                   | PAUSE => false
                   | RESUME | START => true
                   | _ => ta_running s
                   end;
     ta_last := ev_time e |}.

Definition tally (t0 : Z) (es : list WorkEvent) : Tally :=
  foldl tally_step {| ta_active := 0; ta_paused := 0; ta_running := true; ta_last := t0 |} es.

(** The events between start and stop: no correction, in order of time. *)
Definition is_inner (e : WorkEvent) : bool :=
  match ev_kind e with PAUSE | RESUME | TOUCH => true | _ => false end.

Fixpoint ordered_from (t : Z) (es : list WorkEvent) : bool :=
  match es with
  | [] => true
  | e :: es => (t <=? ev_time e) && ordered_from (ev_time e) es
  end.

(** ** Lemmas *)
Lemma to_long_small z : 0 ≤ z < 2 ^ 63 → to_long z = z.
Proof.
  intros Hz. unfold to_long. rewrite wrap_small by lia.
  destruct (Z.ltb_spec z (2 ^ 63)); lia.
Qed.

Lemma u32_small z : 0 ≤ z < 2 ^ 32 → u32 z = z.
Proof. apply wrap_small. Qed.

Lemma u64_small z : 0 ≤ z < 2 ^ 64 → u64 z = z.
Proof. apply wrap_small. Qed.

Lemma outcome_loop_app l es es' :
  outcome_loop l (es ++ es') = (outcome_loop l es ≫= λ l', outcome_loop l' es').
Proof.
  revert l. induction es as [|e es IH]; intros l; [done|]. cbn [outcome_loop app].
  destruct (outcome_step l e) as [l'|]; cbn; [apply IH|done].
Qed.

Lemma tally_app t0 es es' : tally t0 (es ++ es') = foldl tally_step (tally t0 es) es'.
Proof. apply foldl_app. Qed.

(** The loop's state and the tally, after the same inner events: the pause
    counted so far, and the one still running since [pause_from]. *)
Definition agrees (t0 : Z) (w0 : WorkSession) (l : WorkSession * Z) (s : Tally) : Prop :=
  let '(w, pf) := l in
  ws_start w = t0 ∧ ws_end w = ws_end w0 ∧ ws_events w = ws_events w0 ∧
  ws_state w = (if ta_running s then ACTIVE else PAUSED) ∧
  0 ≤ ta_active s ∧ 0 ≤ ws_paused w ∧
  ta_active s + ta_paused s = ta_last s - t0 ∧ t0 ≤ ta_last s < 2 ^ 63 ∧
  ta_last s - t0 < 2 ^ 32 ∧
  (if ta_running s then pf = 0 ∧ ws_paused w = ta_paused s
   else 0 < pf ≤ ta_last s ∧ t0 ≤ pf ∧ ws_paused w + (ta_last s - pf) = ta_paused s).

Lemma end_pause_agrees t0 w0 l s e :
  agrees t0 w0 l s → 0 < t0 → ta_last s ≤ ev_time e < 2 ^ 63 → ev_time e - t0 < 2 ^ 32 →
  let '(w', pf') := end_pause e l in
  pf' = 0 ∧ ws_paused w' = ta_paused (tally_step s e) ∧ ws_start w' = ws_start l.1 ∧
  ws_end w' = ws_end l.1 ∧ ws_events w' = ws_events l.1.
Proof.
  destruct l as [w pf]. unfold agrees, end_pause, tally_step. cbn [ta_paused fst].
  intros (? & ? & ? & ? & ? & ? & ? & ? & ? & Hr) Ht He Hd.
  destruct (ta_running s).
  - destruct Hr as [-> ?]. cbn [Z.ltb Z.compare]. split_and!; (done || lia).
  - destruct (Z.ltb_spec 0 pf); [|lia]. cbn [ws_paused ws_start ws_end ws_events set_paused].
    rewrite u64_small by lia. rewrite u32_small by lia. split_and!; (done || lia).
Qed.

Lemma outcome_step_agrees t0 w0 l s e :
  is_inner e = true → 0 < t0 → ta_last s ≤ ev_time e < 2 ^ 63 → ev_time e - t0 < 2 ^ 32 →
  agrees t0 w0 l s →
  ∃ l', outcome_step l e = Ok l' ∧ agrees t0 w0 l' (tally_step s e).
Proof.
  intros Hin Ht He Hd Ha. pose proof (end_pause_agrees t0 w0 l s e Ha Ht He Hd) as Hp.
  destruct l as [w pf]. unfold is_inner in Hin. unfold outcome_step.
  destruct (ev_kind e) eqn:Hk; try discriminate.
  - eexists. split; [done|]. unfold agrees, tally_step in *. rewrite Hk.
    cbn [ta_active ta_paused ta_running ta_last ws_start ws_end ws_events ws_state ws_paused set_state].
    destruct Ha as (? & ? & ? & ? & ? & ? & ? & ? & ? & Hr). destruct (ta_running s).
    + destruct Hr as [-> ?]. cbn [Z.eqb]. rewrite to_long_small by lia. split_and!; (done || lia).
    + destruct (Z.eqb_spec pf 0); [lia|]. split_and!; (done || lia).
  - destruct (end_pause e (w, pf)) as [w' pf'] eqn:Hep. eexists. split; [done|].
    destruct Hp as (-> & Hpa & Hs & He' & Hev).
    unfold agrees, tally_step in *. rewrite Hk in *.
    cbn [fst ta_active ta_paused ta_running ta_last ws_start ws_end ws_events ws_state ws_paused set_state] in *.
    destruct Ha as (? & ? & ? & ? & ? & ? & ? & ? & ? & Hr).
    destruct (ta_running s); split_and!; (congruence || lia || done).
  - eexists. split; [done|]. unfold agrees, tally_step in *. rewrite Hk.
    cbn [ta_active ta_paused ta_running ta_last].
    destruct Ha as (? & ? & ? & ? & ? & ? & ? & ? & ? & Hr).
    destruct (ta_running s); split_and!; (done || lia).
Qed.

Lemma outcome_loop_agrees t0 w0 es l s :
  forallb is_inner es = true → 0 < t0 → ordered_from (ta_last s) es = true →
  Forall (λ e, ev_time e < 2 ^ 63 ∧ ev_time e - t0 < 2 ^ 32) es →
  agrees t0 w0 l s →
  ∃ l', outcome_loop l es = Ok l' ∧ agrees t0 w0 l' (foldl tally_step s es).
Proof.
  intros Hin Ht Ho Hf. revert l s Hin Ho. induction Hf as [|e es [He Hd] Hf IH];
    intros l s Hin Ho Ha; [by exists l|].
  cbn [forallb ordered_from] in Hin, Ho. apply andb_true_iff in Hin as [Hin1 Hin].
  apply andb_true_iff in Ho as [Ho1%Z.leb_le Ho].
  destruct (outcome_step_agrees t0 w0 l s e) as (l' & Hl' & Ha'); [done..|lia|done|done|].
  destruct (IH l' (tally_step s e)) as (l'' & Hl'' & Ha''); [done..|].
  exists l''. split; [|done]. cbn [outcome_loop]. rewrite Hl'. exact Hl''.
Qed.

Lemma ordered_from_app t es es' : ordered_from t (es ++ es') = true → ordered_from t es = true.
Proof.
  revert t. induction es as [|e es IH]; intros t; cbn [ordered_from app]; [done|].
  intros [-> H2]%andb_true_iff. by apply (IH (ev_time e)).
Qed.

Lemma tally_last_le s es e :
  ordered_from (ta_last s) (es ++ [e]) = true → ta_last (foldl tally_step s es) ≤ ev_time e.
Proof.
  revert s. induction es as [|e' es IH]; intros s; cbn [ordered_from app foldl];
    intros [H1 H2]%andb_true_iff; [by apply Z.leb_le|by apply IH].
Qed.

(** After the start event the loop and the tally agree. *)
Lemma start_agrees t0 w :
  0 < t0 < 2 ^ 63 → ws_paused w = 0 →
  agrees t0 w (set_state ACTIVE (set_start t0 w), 0)
    {| ta_active := 0; ta_paused := 0; ta_running := true; ta_last := t0 |}.
Proof. intros Ht Hp. unfold agrees; cbn. rewrite Hp. split_and!; (done || lia). Qed.

(** A log as the server writes it: a start, pauses and resumes. *)
Definition started (t0 : Z) (es : list WorkEvent) : Prop :=
  0 < t0 ∧ forallb is_inner es = true ∧ ordered_from t0 es = true ∧
  Forall (λ e, ev_time e < 2 ^ 63 ∧ ev_time e - t0 < 2 ^ 32) es ∧ t0 < 2 ^ 63.

Lemma started_loop t0 es w e0 :
  started t0 es → ev_kind e0 = START → ev_time e0 = t0 → ws_paused w = 0 →
  ∃ l, outcome_loop (w, 0) (e0 :: es) = Ok l ∧ agrees t0 w l (tally t0 es).
Proof.
  intros (Ht & Hin & Ho & Hf & Hb) Hk <- Hp. cbn [outcome_loop outcome_step]. rewrite Hk.
  cbn [mbind result_bind].
  apply (outcome_loop_agrees (ev_time e0) w es _
    {| ta_active := 0; ta_paused := 0; ta_running := true; ta_last := ev_time e0 |}); try done.
  by apply start_agrees.
Qed.

Lemma agrees_total t0 w l s : agrees t0 w l s →
  0 ≤ ta_active s ∧ 0 ≤ ta_paused s ∧ ta_active s + ta_paused s = ta_last s - t0 ∧
  ta_last s - t0 < 2 ^ 32.
Proof. destruct l as [w' pf]. unfold agrees. destruct (ta_running s); intros; lia. Qed.

Lemma updateOutcomeE now w :
  ws_events w ≠ [] →
  updateOutcome now w =
    (let! l := outcome_loop
       ((if bool_decide (ws_state w = DONE) then set_duration 0 (set_paused 0 (set_start 0 w))
         else set_end None (set_duration 0 (set_paused 0 (set_start 0 w)))), 0) (ws_events w) in
     let! w' := finish_outcome now l.1 in
     Ok (if bool_decide (ws_state w = DONE) then set_state DONE w' else w')).
Proof.
  intros Hne. unfold updateOutcome. rewrite (bool_decide_false _ Hne).
  cbn [ws_state set_duration set_paused set_start].
  destruct (decide (ws_state w = DONE)) as [Hd|Hd].
  - rewrite (bool_decide_true (ws_state w = DONE)) by done.
    cbn [ws_state set_duration set_paused set_start]. rewrite Hd. reflexivity.
  - rewrite (bool_decide_false (ws_state w = DONE)) by done.
    cbn [ws_state set_end set_duration set_paused set_start].
    rewrite (bool_decide_false (ws_state w = DONE)) by done. reflexivity.
Qed.

(** C37: A stopped session counts its time exactly: for a log that starts,
    pauses, resumes and stops in order of time (any number of repeated
    pauses and resumes), [updateOutcome] ends the session at the stop, sets
    [paused] to the seconds it was paused and [duration] to the seconds it
    was active. *)
Theorem updateOutcome_counts_active_time now w t0 e0 es stop :
  ws_events w = e0 :: es ++ [stop] →
  ev_kind e0 = START → ev_time e0 = t0 → started t0 (es ++ [createWorkEvent (ev_time stop) TOUCH]) →
  ev_kind stop = STOP → ev_end stop = None →
  t0 < ev_time stop →
  let s := tally t0 (es ++ [stop]) in
  ∃ w', updateOutcome now w = Ok w' ∧
    ws_state w' = DONE ∧ ws_start w' = t0 ∧ ws_end w' = Some (ev_time stop) ∧
    ws_duration w' = ta_active s ∧ ws_paused w' = ta_paused s ∧
    ta_active s + ta_paused s = ev_time stop - t0.
Proof.
  intros Hev Hk Ht0 Hst Hsk Hse Hlt. cbn zeta.
  rewrite updateOutcomeE by (rewrite Hev; done).
  set (w0 := if bool_decide (ws_state w = DONE) then _ else _).
  assert (Hw0 : ws_paused w0 = 0) by (subst w0; by case_bool_decide).
  destruct Hst as (Ht & Hin & Ho & Hf & Hb).
  set (s := tally t0 (es ++ [stop])).
  assert (Hes : started t0 es).
  { rewrite forallb_app in Hin. apply andb_true_iff in Hin as [Hin _].
    apply Forall_app in Hf as [Hf _]. split_and!; try done.
    by apply ordered_from_app in Ho. }
  assert (Hlast : ta_last (tally t0 es) ≤ ev_time stop).
  { by apply (tally_last_le {| ta_active := 0; ta_paused := 0; ta_running := true; ta_last := t0 |} es
      (createWorkEvent (ev_time stop) TOUCH)). }
  apply Forall_app in Hf as [_ Hf]. apply Forall_singleton in Hf as [Hs1 Hs2]. cbn in Hs1, Hs2.
  destruct (started_loop t0 es w0 e0 Hes Hk Ht0 Hw0) as (l & Hl & Ha).
  rewrite Hev, app_comm_cons, outcome_loop_app, Hl. cbn [mbind result_bind outcome_loop].
  pose proof (end_pause_agrees t0 w0 l (tally t0 es) stop Ha Ht ltac:(lia) Hs2) as Hp.
  assert (Hs : s = tally_step (tally t0 es) stop) by (subst s; by rewrite tally_app).
  assert (Htot : ta_active s + ta_paused s = ev_time stop - t0 ∧ 0 ≤ ta_active s ∧ 0 ≤ ta_paused s).
  { pose proof (agrees_total _ _ _ _ Ha). rewrite Hs. unfold tally_step; cbn.
    destruct (ta_running (tally t0 es)); lia. }
  destruct l as [w1 pf]. unfold outcome_step. rewrite Hsk.
  assert (Hstart : ws_start w1 = t0) by (unfold agrees in Ha; tauto).
  destruct (end_pause stop (w1, pf)) as [w2 pf2].
  destruct Hp as (-> & Hpa & Hs' & _ & _). rewrite <- Hs in Hpa. cbn [fst] in Hs'.
  rewrite Hse. cbn [default mbind result_bind fst]. unfold finish_outcome.
  cbn [ws_start ws_end ws_paused set_state set_end]. rewrite Hs', Hstart.
  destruct (Z.eqb_spec t0 0); [lia|]. destruct (Z.leb_spec (ev_time stop) t0); [lia|].
  cbn [mbind result_bind].
  rewrite Hpa, u64_small, to_long_small, Z.max_r by lia.
  eexists. split; [done|].
  assert (Hdur : u32 (ev_time stop - t0 - ta_paused s) = ta_active s) by (rewrite u32_small; lia).
  case_bool_decide;
    cbn [ws_state ws_start ws_end ws_duration ws_paused set_state set_duration set_end];
    rewrite Hs', Hstart, Hdur, Hpa; (split_and!; (done || lia)).
Qed.

(** A running session counts the time since it started less the pauses
    that have ended, and at most a week: for a log without a stop the
    session stays open with the state of its last pause or resume; while it
    is active the duration is the active time so far, and while it is paused
    the pause that is still going on is counted as work. *)
Theorem updateOutcome_running_time now w t0 e0 es :
  ws_events w = e0 :: es → ws_state w ≠ DONE →
  ev_kind e0 = START → ev_time e0 = t0 → started t0 es →
  t0 < now < 2 ^ 63 → ta_last (tally t0 es) ≤ now → now - t0 < 2 ^ 32 →
  ∃ w' ended_pauses, updateOutcome now w = Ok w' ∧
    ws_start w' = t0 ∧ ws_end w' = None ∧
    ws_state w' = (if ta_running (tally t0 es) then ACTIVE else PAUSED) ∧
    ws_paused w' = ended_pauses ∧
    (ta_running (tally t0 es) = true → ended_pauses = ta_paused (tally t0 es)) ∧
    ws_duration w' = Z.min (now - t0 - ended_pauses) (7 * 24 * 3600) ∧
    (ta_running (tally t0 es) = true →
       now - t0 - ended_pauses = ta_active (tally t0 es) + (now - ta_last (tally t0 es))).
Proof.
  intros Hev Hnd Hk Ht0 Hst Hnow Hlast Hwin.
  rewrite updateOutcomeE by (rewrite Hev; done). rewrite (bool_decide_false _ Hnd).
  set (w0 := set_end None _).
  destruct (started_loop t0 es w0 e0 Hst Hk Ht0 eq_refl) as (l & Hl & Ha).
  rewrite Hev, Hl. cbn [mbind result_bind].
  pose proof (agrees_total _ _ _ _ Ha) as Htot.
  destruct l as [w1 pf]. unfold agrees in Ha.
  destruct Ha as (Hs & He & _ & Hst1 & H1 & H2 & H3 & H4 & H5 & Hr). cbn [fst].
  destruct Hst as (Ht & _). unfold finish_outcome.
  rewrite Hs, He. destruct (Z.eqb_spec t0 0); [lia|].
  change (ws_end w0) with (@None Z). cbv iota.
  rewrite bool_decide_false by (rewrite Hst1; by case_if).
  rewrite u64_small by lia. destruct (Z.leb_spec now t0); [lia|].
  rewrite u64_small by lia.
  assert (Hpz : 0 ≤ ws_paused w1 ≤ now - t0) by (destruct (ta_running _); lia).
  rewrite to_long_small, Z.max_r by lia. cbn [mbind result_bind].
  eexists _, (ws_paused w1). split; [done|].
  cbn [ws_state ws_start ws_end ws_duration ws_paused set_duration].
  rewrite u32_small by lia.
  destruct (ta_running (tally t0 es)); split_and!; (done || intros; lia).
Qed.

Lemma loop_no_start w pf es l :
  outcome_loop (w, pf) es = Ok l → ws_start w = 0 →
  Forall (λ e, ev_kind e ≠ START ∧ ev_start e = None) es → ws_start l.1 = 0.
Proof.
  intros Hl Hs Hf. revert w pf Hl Hs.
  induction Hf as [|e es [He1 He2] Hf IH]; intros w pf Hl Hs.
  - cbn in Hl. by injection Hl as <-.
  - cbn [outcome_loop] in Hl. apply bind_Ok in Hl as ([w2 pf2] & Hst & Hl).
    apply (IH w2 pf2 Hl). clear IH Hl. unfold outcome_step, end_pause in Hst.
    rewrite He2 in Hst.
    destruct (ev_kind e); try done; repeat case_match; inv_ok; simplify_eq;
      repeat case_match; inv_ok; simplify_eq; done.
Qed.

Lemma outcome_without_start now w w' :
  ws_events w ≠ [] →
  Forall (λ e, ev_kind e ≠ START ∧ ev_start e = None) (ws_events w) →
  updateOutcome now w = Ok w' →
  ws_start w' = 0 ∧ ws_duration w' = 0 ∧ ws_paused w' = 0.
Proof.
  intros Hne Hf. rewrite updateOutcomeE by done. intros H. inv_ok.
  match goal with H : outcome_loop _ _ = Ok _ |- _ =>
    apply loop_no_start in H as Hsl; [|by case_bool_decide|done] end.
  match goal with H : finish_outcome _ _ = Ok _ |- _ => unfold finish_outcome in H; rewrite Hsl in H end.
  cbn [Z.eqb] in *. inv_ok. by case_bool_decide.
Qed.

(** Without a start event and without a corrected start no time is ever
    counted: whatever other events the log holds, whenever [updateOutcome]
    returns, the start, the duration and the pause are zero. *)
Theorem no_start_no_time now w w' :
  ws_events w ≠ [] →
  Forall (λ e, ev_kind e ≠ START ∧ ev_start e = None) (ws_events w) →
  updateOutcome now w = Ok w' →
  ws_start w' = 0 ∧ ws_duration w' = 0 ∧ ws_paused w' = 0.
Proof. apply outcome_without_start. Qed.

(** ** Examples *)
Definition at_time (t : Z) (k : EventKind) : WorkEvent := createWorkEvent t k.

Definition example_log : list WorkEvent :=
  [at_time 1600 PAUSE; at_time 1700 TOUCH; at_time 1900 RESUME].

Definition example_session (es : list WorkEvent) : WorkSession :=
  {| ws_id := "w"; ws_action := "a"; ws_start := 0; ws_end := None; ws_duration := 0;
     ws_paused := 0; ws_state := ACTIVE; ws_version := 1; ws_touched := 0;
     ws_events := es; ws_name := "n"; ws_notes := "" |}.

Lemma example_started es :
  es = [at_time 1600 PAUSE; at_time 1700 TOUCH; at_time 1900 RESUME] ∨
  es = [at_time 1600 PAUSE; at_time 1700 TOUCH; at_time 1900 RESUME; at_time 4600 TOUCH] →
  started 1000 es.
Proof.
  intros [-> | ->]; unfold started; (split_and!; [lia|done|done| |lia]);
    repeat constructor; cbn; lia.
Qed.

Lemma updateOutcome_counts_active_time_witness :
  ∃ w', updateOutcome 0 (example_session (at_time 1000 START :: example_log ++ [at_time 4600 STOP])) = Ok w' ∧
    ws_duration w' = 3300 ∧ ws_paused w' = 300.
Proof.
  destruct (updateOutcome_counts_active_time 0
    (example_session (at_time 1000 START :: example_log ++ [at_time 4600 STOP]))
    1000 (at_time 1000 START) example_log (at_time 4600 STOP) eq_refl eq_refl eq_refl
    (example_started _ (or_intror eq_refl)) eq_refl eq_refl ltac:(cbn; lia))
    as (w' & Hw & _ & _ & _ & Hd & Hp & _).
  exists w'. split; [exact Hw|]. split; [exact Hd|exact Hp].
Defined.

Lemma updateOutcome_running_time_witness :
  ∃ w', updateOutcome 2000 (example_session (at_time 1000 START :: example_log)) = Ok w' ∧
    ws_state w' = ACTIVE ∧ ws_end w' = None.
Proof.
  destruct (updateOutcome_running_time 2000 (example_session (at_time 1000 START :: example_log))
    1000 (at_time 1000 START) example_log eq_refl ltac:(done) eq_refl eq_refl
    (example_started _ (or_introl eq_refl)) ltac:(lia) ltac:(vm_compute; done) ltac:(lia))
    as (w' & p & Hw & _ & He & Hs & _).
  exists w'. split; [exact Hw|]. split; [exact Hs|exact He].
Defined.

Lemma no_start_no_time_witness :
  ws_duration (example_session [at_time 1600 RESUME; at_time 4600 STOP]) = 0 ∧
  ∃ w', updateOutcome 0 (example_session [at_time 1600 RESUME; at_time 4600 STOP]) = Ok w' ∧
    ws_duration w' = 0.
Proof.
  split; [done|]. eexists. split; [vm_compute; reflexivity|].
  refine (proj1 (proj2 (no_start_no_time 0
    (example_session [at_time 1600 RESUME; at_time 4600 STOP]) _ _ _ _))).
  - done.
  - repeat constructor; done.
  - vm_compute. reflexivity.
Defined.
