(* ===== verification/WorkStore.v ===== *)
(** * The work sessions of a user

    The handlers of src/src/backend/lib/grpc/Work.cpp over the table
    [work_session]: creating sessions, adding events, the one active
    session, and the time spent per action.  A handler runs at one instant
    [now]; a throw rolls its transaction back.  Every query of the file
    filters on the user, so the store is that of one user.  The stored
    times are seconds; their conversion to and from the user's local time is
    not modelled. *)
From S2P Require Import Prelude WorkSession.

#[local] Open Scope Z_scope.
#[local] Open Scope nextapp_scope.

(** ** What the handlers need from elsewhere *)

(** The guards of UserContext.cpp: see PlanLimits.v and SessionAccess.v. *)
Class PlanGate := {
  requireWritableForAdd : result unit;
  reserveAddition : Z → result unit
}.

(** The [DEFAULT UUID()] of the table. *)
Class RowIds := {
  new_uuid : list WorkSession → string;
  new_uuid_fresh l : new_uuid l ∉ ws_id <$> l
}.

(** The two settings the handlers read. *)
Record Settings := { autoStartNextWorkSession : bool; autoStartNewWorkSession : bool }.

(** The columns of [action] the handlers use. *)
Record ActionRow := { a_name : string; a_active : bool; a_time_spent : Z }.

Inductive Operation := ADDED | UPDATED | OP_DELETED.

(** What [publishLater] queues. *)
Inductive Update :=
| upd_work (op : Operation) (w : WorkSession)
| upd_action (id : string) (time_spent : Z).

Record Db := {
  sessions : list WorkSession;
  actions : gmap string ActionRow;
  time_blocks : gmap string (list string);
  updates : list Update
}.

Section store.
Context `{PlanGate, RowIds} (settings : Settings) (now : Z).

Definition set_sessions (f : list WorkSession → list WorkSession) (d : Db) : Db :=
  {| sessions := f (sessions d); actions := actions d;
     time_blocks := time_blocks d; updates := updates d |}.

Definition publishLater (u : Update) : M Db unit := modify (λ d,
  {| sessions := sessions d; actions := actions d;
     time_blocks := time_blocks d; updates := updates d ++ [u] |}).

(** ** Reading *)

(** [ToWorkSession::assign]: the pause column is read as a flag. *)
Definition assign (row : WorkSession) : WorkSession :=
  set_paused (if ws_paused row =? 0 then 0 else 1) row.

Definition has_id (uuid : string) (w : WorkSession) : bool := bool_decide (ws_id w = uuid).
Definition is_active (w : WorkSession) : bool := bool_decide (ws_state w = ACTIVE).
Definition is_paused (w : WorkSession) : bool := bool_decide (ws_state w = PAUSED).

Definition fetchWorkSession (uuid : string) : M Db WorkSession :=
  let! rows := gets (λ d, List.filter (has_id uuid) (sessions d)) in
  match rows with
  | [] => lift (Throw (server_err Error.NOT_FOUND))
  | row :: _ => mret (assign row)
  end.

Definition fetchActiveWorkSession : M Db (option WorkSession) :=
  let! rows := gets (λ d, List.filter is_active (sessions d)) in
  match rows with
  | [] => mret None
  | row :: _ => mret (Some (assign row))
  end.

Definition validateAction (uuid : string) : M Db string :=
  let! a := gets (λ d, actions d !! uuid) in
  match a with
  | None => lift (Throw (server_err Error.INVALID_ACTION))
  | Some a => mret (a_name a)
  end.

(** ** Writing *)

(** [UPDATE work_session SET ... WHERE id=?] *)
Definition update_rows (uuid : string) (f : WorkSession → WorkSession) (d : Db) : Db :=
  set_sessions (fmap (λ r, if has_id uuid r then f r else r)) d.

Definition saved_row (touch : bool) (w row : WorkSession) : WorkSession :=
  {| ws_id := ws_id row; ws_action := ws_action row; ws_start := ws_start w;
     ws_end := match ws_end w with Some e => Some e | None => ws_end row end;
     ws_duration := ws_duration w; ws_paused := ws_paused w;
     ws_state := match ws_end w with Some _ => DONE | None => ws_state w end;
     ws_version := ws_version row + 1;
     ws_touched := if touch then now else ws_touched row;
     ws_events := ws_events w; ws_name := ws_name w; ws_notes := ws_notes w |}.

Definition saveWorkSession (w : WorkSession) (touch : bool) : M Db unit :=
  let! _ := lift (throw_if (bool_decide (ws_end w ≠ None) && negb (bool_decide (ws_state w = DONE)))
                           undefined) in
  modify (update_rows (ws_id w) (saved_row touch w)).

Definition refreshAndQueueCommittedWorkSession (w : WorkSession) (op : Operation) : M Db WorkSession :=
  let! w := fetchWorkSession (ws_id w) in
  let! _ := publishLater (upd_work op w) in
  mret w.

(** The row [insertWork] adds, as read back. *)
Definition new_row (d : Db) (action name : string) (addStartEvent : bool) : WorkSession :=
  {| ws_id := new_uuid (sessions d); ws_action := action;
     ws_start := if addStartEvent then now else 0; ws_end := None;
     ws_duration := 0; ws_paused := 0;
     ws_state := if addStartEvent then ACTIVE else PAUSED;
     ws_version := 1; ws_touched := now;
     ws_events := if addStartEvent then [createWorkEvent now START] else [];
     ws_name := name; ws_notes := EmptyString |}.

Definition insertWork (action name : string) (addStartEvent : bool) : M Db WorkSession :=
  let! row := gets (λ d, new_row d action name addStartEvent) in
  let! _ := modify (set_sessions (λ l, l ++ [row])) in
  mret (assign row).

(** [SELECT SUM(duration) ... WHERE action = ? AND state = 'done'] *)
Definition done_time (uuid : string) (l : list WorkSession) : Z :=
  foldr (λ w n, if bool_decide (ws_action w = uuid) && bool_decide (ws_state w = DONE)
                then ws_duration w + n else n) 0 l.

Definition updateTimeSpentInAction (uuid : string) : M Db unit :=
  let! a := gets (λ d, actions d !! uuid) in
  match a with
  | None => mret tt
  | Some a =>
      let! t := gets (λ d, done_time uuid (sessions d)) in
      let! _ := modify (λ d,
        {| sessions := sessions d;
           actions := <[uuid := {| a_name := a_name a; a_active := a_active a; a_time_spent := t |}]>
                        (actions d);
           time_blocks := time_blocks d; updates := updates d |}) in
      publishLater (upd_action uuid t)
  end.

(** ** The transitions of a session *)
Definition stopWorkSession (w : WorkSession) (event : option WorkEvent) : M Db WorkSession :=
  let stopevent := createWorkEvent now STOP in
  let stopevent := {| ev_kind := STOP; ev_time := now; ev_start := None;
    ev_end := event ≫= ev_end; ev_duration := None; ev_paused := None;
    ev_name := None; ev_notes := None |} in
  let! w := lift (updateOutcome now (add_event stopevent w)) in
  let! _ := lift (throw_if (negb (bool_decide (ws_state w = DONE))) undefined) in
  let! _ := saveWorkSession w true in
  let! w := refreshAndQueueCommittedWorkSession w UPDATED in
  let! _ := (if bool_decide (ws_action w = EmptyString) then mret tt
             else updateTimeSpentInAction (ws_action w)) in
  mret w.

Definition pauseWorkSession (w : WorkSession) : M Db WorkSession :=
  let! w := lift (updateOutcome now (add_event (createWorkEvent now PAUSE) w)) in
  let! _ := lift (throw_if (negb (bool_decide (ws_state w = PAUSED))) undefined) in
  let! _ := saveWorkSession w true in
  refreshAndQueueCommittedWorkSession w UPDATED.

Definition touchWorkSession (w : WorkSession) : M Db WorkSession :=
  let w := add_event (createWorkEvent now TOUCH) w in
  let! _ := saveWorkSession w true in
  refreshAndQueueCommittedWorkSession w UPDATED.

Definition has_start (w : WorkSession) : bool :=
  existsb (λ e, bool_decide (ev_kind e = START)) (ws_events w).

Definition resumeWorkSession (w : WorkSession) : M Db WorkSession :=
  let! current_ws := fetchActiveWorkSession in
  let! _ := match current_ws with
            | Some c => let! _ := pauseWorkSession c in mret tt
            | None => mret tt
            end in
  let e := createWorkEvent now (if has_start w then RESUME else START) in
  let! w := lift (updateOutcome now (add_event e w)) in
  let! _ := lift (throw_if (negb (bool_decide (ws_state w = ACTIVE))) undefined) in
  let! _ := saveWorkSession w true in
  refreshAndQueueCommittedWorkSession w UPDATED.

(** [ORDER BY touch_time DESC LIMIT 1] *)
Definition latest_touched (l : list WorkSession) : option WorkSession :=
  foldl (λ o w, match o with
                | Some b => if ws_touched b <? ws_touched w then Some w else Some b
                | None => Some w
                end) None l.

Definition activateNextWorkSession : M Db unit :=
  let! active := gets (λ d, List.filter is_active (sessions d)) in
  match active with
  | _ :: _ => mret tt
  | [] =>
    let! next := gets (λ d, latest_touched (List.filter is_paused (sessions d))) in
    match next with
    | None => mret tt
    | Some row =>
        let w := set_state ACTIVE (assign row) in
        let! w := lift (updateOutcome now (add_event (createWorkEvent now RESUME) w)) in
        let! _ := saveWorkSession w true in
        let! _ := refreshAndQueueCommittedWorkSession w UPDATED in
        mret tt
    end
  end.

Definition pauseWork : M Db unit :=
  let! rows := gets (λ d, List.filter is_active (sessions d)) in
  for_each (λ row, let! _ := pauseWorkSession (assign row) in mret tt) rows.

Definition syncActiveWork : M Db unit :=
  let! rows := gets (λ d, List.filter is_active (sessions d)) in
  for_each (λ row, let! w := lift (updateOutcome now (assign row)) in
                   saveWorkSession w true) rows.

Definition endWorkSessionForAction (action : string) : M Db unit :=
  let! rows := gets (λ d, List.filter (λ w, bool_decide (ws_action w = action)
                                          && (is_active w || is_paused w)) (sessions d)) in
  let! _ := for_each (λ row, let! _ := stopWorkSession (assign row) None in mret tt) rows in
  if existsb is_active rows && autoStartNextWorkSession settings
  then activateNextWorkSession else mret tt.

(** ** The handlers *)

(** [CreateWorkReq::what] *)
Inductive What := actionId (id : string) | timeBlockId (id : string) | what_not_set.

Definition requested_actions (what : What) (d : Db) : list string :=
  match what with
  | actionId a => [a]
  | timeBlockId b =>
      List.filter (λ a, match actions d !! a with Some r => a_active r | None => false end)
                  (default [] (time_blocks d !! b))
  | what_not_set => []
  end.

(** The actions without a session that is active or paused. *)
Definition new_actions (what : What) (d : Db) : list string :=
  foldl (λ l w, if is_active w || is_paused w then erase (ws_action w) l else l)
        (requested_actions what d) (sessions d).

(** The body of the loop over the actions; [count] is its local counter. *)
Definition create_one (activate : bool) (count : Z) (action : string) : M Db Z :=
  let! name := validateAction action in
  let! active_session :=
    (if autoStartNewWorkSession settings || activate then fetchActiveWorkSession else mret None) in
  let may_start := activate || (bool_decide (active_session = None) && autoStartNewWorkSession settings) in
  let count := if may_start then count + 1 else count in
  let do_start_event := may_start && (count =? 1) in
  let! _ := match active_session with
            | Some c => let! _ := pauseWorkSession c in mret tt
            | None => mret tt
            end in
  let! w := insertWork action name do_start_event in
  let! _ := publishLater (upd_work ADDED w) in
  mret count.

Fixpoint create_all (activate : bool) (count : Z) (l : list string) : M Db unit :=
  match l with
  | [] => mret tt
  | a :: l => let! count := create_one activate count a in create_all activate count l
  end.

Definition CreateWorkSession (what : What) (activate : bool) : M Db unit :=
  let! _ := lift requireWritableForAdd in
  let! l := gets (new_actions what) in
  let! _ := lift (throw_if (bool_decide (l = [])) (server_err Error.NO_RELEVANT_DATA)) in
  let! _ := lift (reserveAddition (Z.of_nat (length l))) in
  create_all activate 0 l.

(** One round of the loop of [AddWorkEvent]. *)
Definition add_work_event (w : WorkSession) (event : WorkEvent) : M Db WorkSession :=
  match ev_kind event with
  | START => lift (Throw (server_err Error.INVALID_REQUEST))
  | STOP =>
      let! _ := lift (throw_if (bool_decide (ws_state w = DONE)) (server_err Error.INVALID_REQUEST)) in
      let! w := stopWorkSession w (Some event) in
      let! _ := (if autoStartNextWorkSession settings then activateNextWorkSession else mret tt) in
      mret w
  | PAUSE =>
      let! _ := lift (throw_if (negb (is_active w)) (server_err Error.INVALID_REQUEST)) in
      pauseWorkSession w
  | RESUME =>
      let! _ := lift (throw_if (negb (is_paused w)) (server_err Error.INVALID_REQUEST)) in
      resumeWorkSession w
  | TOUCH => touchWorkSession w
  | CORRECTION =>
      let! _ := lift (throw_if (bool_decide (ev_end event ≠ None)
                                && negb (bool_decide (ws_state w = DONE)))
                               (server_err Error.INVALID_REQUEST)) in
      let ne := {| ev_kind := CORRECTION; ev_time := now; ev_start := ev_start event;
        ev_end := ev_end event; ev_duration := ev_duration event;
        ev_paused := ev_paused event; ev_name := ev_name event; ev_notes := ev_notes event |} in
      let! w := lift (updateOutcome now (add_event ne w)) in
      let! _ := saveWorkSession w false in
      refreshAndQueueCommittedWorkSession w UPDATED
  end.

Fixpoint add_work_events (w : WorkSession) (es : list WorkEvent) : M Db WorkSession :=
  match es with
  | [] => mret w
  | e :: es => let! w := add_work_event w e in add_work_events w es
  end.

Definition AddWorkEvent (uuid : string) (es : list WorkEvent) : M Db WorkSession :=
  let! _ := lift requireWritableForAdd in
  let! w := fetchWorkSession uuid in
  add_work_events w es.

(** [AddWork]: a session with the times the client gives; [user] is the
    user the message names. *)
Definition AddWork (cuser user : string) (work : WorkSession) : M Db WorkSession :=
  let! action_name := validateAction (ws_action work) in
  let! _ := lift (throw_if (negb (bool_decide (user = EmptyString)) && negb (bool_decide (user = cuser)))
                           (server_err Error.INVALID_REQUEST)) in
  let work := (if bool_decide (ws_name work = EmptyString)
               then set_texts action_name (ws_notes work) work else work) in
  let! _ := lift (reserveAddition 1) in
  let! row := insertWork (ws_action work) (ws_name work) false in
  let ev := {| ev_kind := CORRECTION; ev_time := now; ev_start := None; ev_end := None;
    ev_duration := None; ev_paused := Some (ws_paused work); ev_name := None; ev_notes := None |} in
  let work := (if ws_paused work =? 0 then work else add_event ev work) in
  let! work := lift (updateOutcome now work) in
  let work := {| ws_id := ws_id row; ws_action := ws_action work; ws_start := ws_start work;
    ws_end := ws_end work; ws_duration := ws_duration work; ws_paused := ws_paused work;
    ws_state := ws_state work; ws_version := ws_version work; ws_touched := ws_touched work;
    ws_events := ws_events work; ws_name := ws_name work; ws_notes := ws_notes work |} in
  let! _ := saveWorkSession work true in
  let! work := fetchWorkSession (ws_id row) in
  let! _ := publishLater (upd_work ADDED work) in
  mret work.

Definition deleted_row (row : WorkSession) : WorkSession :=
  {| ws_id := ws_id row; ws_action := EmptyString; ws_start := 0; ws_end := None;
     ws_duration := 0; ws_paused := 0; ws_state := DELETED; ws_version := ws_version row + 1;
     ws_touched := ws_touched row; ws_events := []; ws_name := EmptyString;
     ws_notes := EmptyString |}.

Definition deleteWorkSession (uuid : string) : M Db unit :=
  let! rows := gets (λ d, List.filter (has_id uuid) (sessions d)) in
  match rows with
  | [] => lift (Throw (server_err Error.NOT_FOUND))
  | _ =>
      let! _ := modify (update_rows uuid deleted_row) in
      let! w := fetchWorkSession uuid in
      publishLater (upd_work OP_DELETED w)
  end.

(** ** Which sessions are active *)
Definition active (d : Db) (i : string) : Prop :=
  ∃ w, w ∈ sessions d ∧ ws_id w = i ∧ ws_state w = ACTIVE.

(** What the last event that sets the state sets it to. *)
Definition event_state (e : WorkEvent) : option WorkState :=
  match ev_kind e with
  | START | RESUME => Some ACTIVE
  | PAUSE => Some PAUSED
  | STOP => Some DONE
  | TOUCH | CORRECTION => None
  end.

Definition log_state (es : list WorkEvent) : option WorkState :=
  foldl (λ o e, match event_state e with Some s => Some s | None => o end) None es.

(** A log that ends active belongs to an active or a finished session. *)
Definition log_ok (w : WorkSession) : Prop :=
  log_state (ws_events w) = Some ACTIVE → ws_state w = ACTIVE ∨ ws_state w = DONE.

Definition one_active (d : Db) : Prop := ∀ i j, active d i → active d j → i = j.

Definition inv (d : Db) : Prop := one_active d ∧ Forall log_ok (sessions d).

Lemma log_state_snoc es e :
  log_state (es ++ [e]) = match event_state e with Some s => Some s | None => log_state es end.
Proof. unfold log_state. by rewrite foldl_app. Qed.

Lemma outcome_step_inv l e l' :
  outcome_step l e = Ok l' →
  ws_state l'.1 = default (ws_state l.1) (event_state e) ∧
  ws_events l'.1 = ws_events l.1 ∧ ws_id l'.1 = ws_id l.1 ∧ ws_action l'.1 = ws_action l.1.
Proof.
  destruct l as [w pf]. unfold outcome_step, event_state, end_pause. intros Hs.
  destruct (ev_kind e); repeat case_match; inv_ok; repeat case_match; inv_ok; simplify_eq; done.
Qed.

Lemma outcome_loop_inv l es l' :
  outcome_loop l es = Ok l' →
  ws_state l'.1 = default (ws_state l.1)
    (foldl (λ o e, match event_state e with Some s => Some s | None => o end) None es) ∧
  ws_events l'.1 = ws_events l.1 ∧ ws_id l'.1 = ws_id l.1 ∧ ws_action l'.1 = ws_action l.1.
Proof.
  induction es as [|e es IH] using rev_ind in l' |- *; intros Hl.
  - cbn in Hl. by injection Hl as <-.
  - rewrite outcome_loop_app in Hl. apply bind_Ok in Hl as (l1 & H1 & H2).
    cbn [outcome_loop] in H2. apply bind_Ok in H2 as (l2 & H2 & [= <-]).
    apply IH in H1 as (Hs & He & Hi & Ha). apply outcome_step_inv in H2 as (Hs' & -> & -> & ->).
    rewrite Hs', Hs, foldl_app. cbn. split_and!; try done. by destruct (event_state e).
Qed.

Lemma finish_outcome_inv w w' :
  finish_outcome now w = Ok w' →
  ws_state w' = ws_state w ∧ ws_events w' = ws_events w ∧ ws_id w' = ws_id w ∧
  ws_action w' = ws_action w ∧ ws_end w' = ws_end w ∧ ws_start w' = ws_start w.
Proof. unfold finish_outcome. intros H1. repeat case_match; inv_ok; done. Qed.

Lemma updateOutcome_inv w w' :
  updateOutcome now w = Ok w' →
  ws_events w' = ws_events w ∧ ws_id w' = ws_id w ∧ ws_action w' = ws_action w ∧
  ws_state w' = (if bool_decide (ws_state w = DONE) then DONE
                 else default (ws_state w) (log_state (ws_events w))).
Proof.
  intros Hu. destruct (decide (ws_events w = [])) as [He|He].
  { unfold updateOutcome in Hu. rewrite (bool_decide_true _ He) in Hu. injection Hu as <-.
    rewrite He. cbn. split_and!; try done. by case_bool_decide. }
  rewrite updateOutcomeE in Hu by done. inv_ok.
  match goal with H : outcome_loop _ _ = _ |- _ => apply outcome_loop_inv in H as (Hs & Hev & Hi & Ha) end.
  match goal with H : finish_outcome _ _ = _ |- _ => apply finish_outcome_inv in H as (Hs' & Hev' & Hi' & Ha' & _) end.
  cbn [fst] in *. unfold log_state. case_bool_decide; cbn; rewrite ?Hev', ?Hi', ?Ha', ?Hs', ?Hs, ?Hev, ?Hi, ?Ha;
    done.
Qed.

(** The state of a log that was extended by one event. *)
Lemma updateOutcome_last w w' e s :
  updateOutcome now (add_event e w) = Ok w' → event_state e = Some s →
  ws_id w' = ws_id w ∧ ws_action w' = ws_action w ∧ ws_events w' = ws_events w ++ [e] ∧
  log_state (ws_events w') = Some s ∧ (ws_state w' = s ∨ ws_state w' = DONE).
Proof.
  intros (He & Hi & Ha & Hs)%updateOutcome_inv Hes.
  rewrite He, Hi, Ha, Hs. clear Hs He Hi Ha. cbn [ws_events add_event ws_state ws_id ws_action].
  rewrite log_state_snoc, Hes. split_and!; try done. case_bool_decide; [right|left]; reflexivity.
Qed.

(** ** Saving a session *)
Definition saved_state (w : WorkSession) : WorkState :=
  match ws_end w with Some _ => DONE | None => ws_state w end.

Lemma elem_of_update_rows uuid f d w :
  w ∈ sessions (update_rows uuid f d) ↔
  ∃ r, r ∈ sessions d ∧ w = (if has_id uuid r then f r else r).
Proof. cbn. rewrite list_elem_of_fmap. naive_solver. Qed.

Lemma saveWorkSession_inv w touch d d' :
  saveWorkSession w touch d = Ok (tt, d') →
  d' = update_rows (ws_id w) (saved_row touch w) d ∧
  (ws_end w ≠ None → ws_state w = DONE) ∧ saved_state w = ws_state w.
Proof.
  unfold saveWorkSession. intros Hs. inv_ok. unfold modify in *. simplify_eq.
  assert (Hd : ws_end w ≠ None → ws_state w = DONE).
  { intros He. match goal with H : _ && _ = false |- _ => rename H into Hb end.
    rewrite (bool_decide_true (ws_end w ≠ None)) in Hb by done. cbn in Hb.
    apply negb_false_iff in Hb. by apply bool_decide_eq_true in Hb. }
  split_and!; [done|done|]. unfold saved_state. destruct (ws_end w); [|done].
  symmetry. by apply Hd.
Qed.

Lemma active_saved w touch d i :
  active (update_rows (ws_id w) (saved_row touch w) d) i →
  (active d i ∧ i ≠ ws_id w) ∨ (i = ws_id w ∧ saved_state w = ACTIVE).
Proof.
  intros (x & Hx & Hi & Ha). apply elem_of_update_rows in Hx as (r & Hr & ->).
  unfold has_id in *. case_bool_decide as Heq; cbn in Hi, Ha.
  - right. split; [congruence|done].
  - left. split; [by exists r|congruence].
Qed.

Lemma log_ok_saved w touch d :
  Forall log_ok (sessions d) →
  (log_state (ws_events w) = Some ACTIVE → saved_state w = ACTIVE ∨ saved_state w = DONE) →
  Forall log_ok (sessions (update_rows (ws_id w) (saved_row touch w) d)).
Proof.
  intros Hf Hw. apply Forall_forall. intros x Hx.
  apply elem_of_update_rows in Hx as (r & Hr & ->). case_if.
  - exact Hw.
  - rewrite Forall_forall in Hf. by apply Hf.
Qed.

(** Reading changes no session. *)
Lemma fetchWorkSession_inv uuid d w d' :
  fetchWorkSession uuid d = Ok (w, d') →
  d' = d ∧ ∃ row, row ∈ sessions d ∧ ws_id row = uuid ∧ w = assign row.
Proof.
  unfold fetchWorkSession. cbv [gets mbind M_bind lift mret M_ret]. destruct (List.filter (has_id uuid) (sessions d)) as [|row l] eqn:Hf; [done|].
  intros [= <- <-]. split; [done|]. exists row.
  assert (Hin : row ∈ List.filter (has_id uuid) (sessions d)) by (rewrite Hf; by left).
  apply list_elem_of_In, filter_In in Hin as [Hin Hid].
  apply list_elem_of_In in Hin. apply bool_decide_eq_true in Hid. done.
Qed.

Lemma active_filter d w :
  w ∈ List.filter is_active (sessions d) ↔ w ∈ sessions d ∧ ws_state w = ACTIVE.
Proof.
  rewrite !list_elem_of_In, filter_In, <- list_elem_of_In.
  unfold is_active. by rewrite bool_decide_eq_true.
Qed.

Lemma fetchActiveWorkSession_inv d o d' :
  fetchActiveWorkSession d = Ok (o, d') →
  d' = d ∧ match o with
           | None => ∀ i, ¬ active d i
           | Some w => active d (ws_id w) ∧ ws_state w = ACTIVE ∧
                       ∃ row, row ∈ sessions d ∧ w = assign row
           end.
Proof.
  unfold fetchActiveWorkSession. cbv [gets mbind M_bind lift mret M_ret].
  destruct (List.filter is_active (sessions d)) as [|row l] eqn:Hf; cbn; intros [= <- <-];
    (split; [done|]).
  - intros i (w & Hw & _ & Ha).
    assert (Hin : w ∈ List.filter is_active (sessions d)) by by apply active_filter.
    rewrite Hf in Hin. by apply elem_of_nil in Hin.
  - assert (Hin : row ∈ List.filter is_active (sessions d)) by (rewrite Hf; by left).
    apply active_filter in Hin as [Hin Ha]. split_and!; [by exists row|done|by exists row].
Qed.

Lemma publishLater_inv u d d' :
  publishLater u d = Ok (tt, d') → sessions d' = sessions d ∧ actions d' = actions d.
Proof. unfold publishLater, modify. by intros [= <-]. Qed.

Lemma refresh_inv w op d w' d' :
  refreshAndQueueCommittedWorkSession w op d = Ok (w', d') →
  sessions d' = sessions d ∧ actions d' = actions d ∧
  ∃ row, row ∈ sessions d ∧ ws_id row = ws_id w ∧ w' = assign row.
Proof.
  unfold refreshAndQueueCommittedWorkSession. intros Hr.
  apply M_bind_Ok in Hr as (w1 & d1 & Hf & Hr).
  apply fetchWorkSession_inv in Hf as (-> & row & ? & ? & ->).
  apply M_bind_Ok in Hr as ([] & d2 & Hp & Hr).
  apply publishLater_inv in Hp as [? ?]. injection Hr as <- <-.
  split_and!; [done|done|]. by exists row.
Qed.

(** ** What each transition does to the active sessions *)

(** The session a handler works on: active only if its row is. *)
Definition current (w : WorkSession) (d : Db) : Prop :=
  (ws_state w = ACTIVE → active d (ws_id w)) ∧ log_ok w.

Lemma current_row row d : Forall log_ok (sessions d) → row ∈ sessions d → current (assign row) d.
Proof.
  intros Hf Hr. split; [intros Ha; by exists row|].
  rewrite Forall_forall in Hf. exact (Hf row Hr).
Qed.

Lemma inv_subset d d' :
  inv d → Forall log_ok (sessions d') → (∀ i, active d' i → active d i) → inv d'.
Proof. intros [Ho _] Hf Hs. split; [|done]. intros i j Hi%Hs Hj%Hs. by apply Ho. Qed.

Lemma inv_single d i :
  Forall log_ok (sessions d) → (∀ j, active d j → j = i) → inv d.
Proof. intros Hf Hs. split; [|done]. intros j k ->%Hs ->%Hs. done. Qed.

Lemma active_sessions d d' i : sessions d' = sessions d → active d' i ↔ active d i.
Proof. unfold active. by intros ->. Qed.

(** [saveWorkSession] followed by [refreshAndQueueCommittedWorkSession] *)
Lemma commit_inv w touch d w' d' :
  (let! _ := saveWorkSession w touch in refreshAndQueueCommittedWorkSession w UPDATED) d
    = Ok (w', d') →
  (log_state (ws_events w) = Some ACTIVE → ws_state w = ACTIVE ∨ ws_state w = DONE) →
  Forall log_ok (sessions d) →
  Forall log_ok (sessions d') ∧ actions d' = actions d ∧
  sessions d' = sessions (update_rows (ws_id w) (saved_row touch w) d) ∧
  ws_id w' = ws_id w ∧ ws_state w' = ws_state w ∧ ws_duration w' = ws_duration w ∧
  ws_end w' = ws_end (saved_row touch w w') ∧
  current w' d' ∧
  (∀ i, active d' i → (active d i ∧ i ≠ ws_id w) ∨ (i = ws_id w ∧ ws_state w = ACTIVE)).
Proof.
  intros Hc Hlog Hf. apply M_bind_Ok in Hc as ([] & d1 & Hs & Hr).
  apply saveWorkSession_inv in Hs as (-> & Hd & Hsv).
  apply refresh_inv in Hr as (Hses & Hact & row & Hrow & Hid & ->).
  assert (Hf' : Forall log_ok (sessions d')).
  { rewrite Hses. apply log_ok_saved; [done|]. by rewrite Hsv. }
  assert (Hcur : current (assign row) d').
  { apply current_row; [done|]. by rewrite Hses. }
  apply elem_of_update_rows in Hrow as (r & Hr & Hrow).
  assert (Hrow' : row = saved_row touch w r ∧ ws_id r = ws_id w).
  { unfold has_id in Hrow. case_bool_decide as Hb; [by subst|]. subst. by destruct Hb. }
  destruct Hrow' as [-> Hrid].
  split_and!; try done.
  - cbn. by destruct (ws_end w).
  - intros i Hi. rewrite (active_sessions _ _ _ Hses) in Hi.
    apply active_saved in Hi. by rewrite Hsv in Hi.
Qed.

Lemma pauseWorkSession_inv w d w' d' :
  pauseWorkSession w d = Ok (w', d') → Forall log_ok (sessions d) →
  Forall log_ok (sessions d') ∧ actions d' = actions d ∧ current w' d' ∧
  (∀ i, active d' i → active d i ∧ i ≠ ws_id w).
Proof.
  unfold pauseWorkSession. intros Hp Hf. inv_ok.
  match goal with H : updateOutcome _ _ = Ok _ |- _ =>
    apply (updateOutcome_last _ _ _ PAUSED) in H as (Hi & Ha & _ & Hl & _); [|done] end.
  match goal with H : bool_decide _ = true |- _ => apply bool_decide_eq_true in H as Hst end.
  match goal with H : saveWorkSession ?x _ _ = _, Hr : refreshAndQueueCommittedWorkSession _ _ ?s = _ |- _ =>
    edestruct (commit_inv x true d w' d') as (Hf' & Hact & _ & _ & _ & _ & _ & Hc & Hs);
      [by apply M_bind_Ok; eexists _, _|by rewrite Hl|done|] end.
  split_and!; [done|done|done|]. intros i Hi'. apply Hs in Hi' as [?|[_ ?]]; [|congruence].
  by rewrite <- Hi.
Qed.

Lemma updateTimeSpentInAction_inv uuid d d' :
  updateTimeSpentInAction uuid d = Ok (tt, d') →
  sessions d' = sessions d ∧
  (∀ a, actions d !! uuid = Some a →
     actions d' !! uuid = Some {| a_name := a_name a; a_active := a_active a;
                                  a_time_spent := done_time uuid (sessions d) |}).
Proof.
  unfold updateTimeSpentInAction. cbv [gets mbind M_bind modify publishLater mret M_ret].
  destruct (actions d !! uuid) as [a|] eqn:Ha; intros [= <-]; cbn; (split; [done|]).
  - intros b [= <-]. by rewrite lookup_insert_eq.
  - done.
Qed.

Lemma stopWorkSession_inv w ev d w' d' :
  stopWorkSession w ev d = Ok (w', d') → Forall log_ok (sessions d) →
  Forall log_ok (sessions d') ∧ current w' d' ∧ ws_state w' = DONE ∧ ws_id w' = ws_id w ∧
  (∀ i, active d' i → active d i ∧ i ≠ ws_id w) ∧
  (∃ w1, updateOutcome now (add_event
           {| ev_kind := STOP; ev_time := now; ev_start := None; ev_end := ev ≫= ev_end;
              ev_duration := None; ev_paused := None; ev_name := None; ev_notes := None |} w) = Ok w1 ∧
     ws_duration w' = ws_duration w1 ∧
     sessions d' = sessions (update_rows (ws_id w) (saved_row true w1) d)) ∧
  (∀ a, ws_action w' ≠ EmptyString → actions d !! ws_action w' = Some a →
     actions d' !! ws_action w' = Some {| a_name := a_name a; a_active := a_active a;
       a_time_spent := done_time (ws_action w') (sessions d') |}).
Proof.
  unfold stopWorkSession. intros Hp Hf.
  apply M_bind_Ok in Hp as (w1 & d1 & Hu & Hp). apply lift_Ok in Hu as [Hu ->].
  apply M_bind_Ok in Hp as ([] & d1 & Ht & Hp). apply lift_Ok in Ht as [Ht ->].
  apply throw_if_Ok, negb_false_iff, bool_decide_eq_true in Ht.
  apply M_bind_Ok in Hp as ([] & d1 & Hs & Hp).
  apply M_bind_Ok in Hp as (w2 & d2 & Hr & Hp).
  apply M_bind_Ok in Hp as ([] & d3 & Hact & Hp). injection Hp as -> ->.
  pose proof (updateOutcome_last _ _ _ DONE Hu eq_refl) as (Hi & _ & _ & Hl & _).
  edestruct (commit_inv w1 true d w' d2) as (Hf' & Ha' & Hses & Hi' & Hst & Hdur & _ & Hc & Hsub);
    [apply M_bind_Ok; by eexists _, _|by rewrite Hl|done|].
  assert (Hfin : sessions d' = sessions d2 ∧ (∀ a, ws_action w' ≠ EmptyString →
    actions d2 !! ws_action w' = Some a → actions d' !! ws_action w' =
      Some {| a_name := a_name a; a_active := a_active a;
              a_time_spent := done_time (ws_action w') (sessions d2) |})).
  { case_bool_decide; [by injection Hact as <-|].
    apply updateTimeSpentInAction_inv in Hact as [? ?]. naive_solver. }
  destruct Hfin as [Hs2 Hact2]. rewrite Ha' in Hact2.
  assert (Hsub' : ∀ i, active d' i → active d i ∧ i ≠ ws_id w).
  { intros i Hi2. rewrite (active_sessions _ _ _ Hs2) in Hi2.
    apply Hsub in Hi2 as [?|[_ ?]]; [|congruence]. by rewrite <- Hi. }
  split_and!; try done.
  - by rewrite Hs2.
  - destruct Hc as [Hc1 Hc2]. split; [|done]. intros Hx. congruence.
  - congruence.
  - congruence.
  - exists w1. rewrite Hs2, Hses, Hi. done.
  - rewrite Hs2. done.
Qed.

Lemma touchWorkSession_inv w d w' d' :
  touchWorkSession w d = Ok (w', d') → Forall log_ok (sessions d) → current w d →
  Forall log_ok (sessions d') ∧ current w' d' ∧ actions d' = actions d ∧
  (∀ i, active d' i → active d i).
Proof.
  intros Ht Hf [Hc Hl]. unfold touchWorkSession in Ht.
  edestruct commit_inv as (Hf' & Ha & _ & _ & _ & _ & _ & Hc' & Hs); [exact Ht| |done|].
  { cbn [ws_events add_event ws_state]. rewrite log_state_snoc. exact Hl. }
  split_and!; try done. intros i Hi. apply Hs in Hi as [[? _]|[-> ?]]; [done|by apply Hc].
Qed.

Lemma resumeWorkSession_inv w d w' d' :
  resumeWorkSession w d = Ok (w', d') → inv d →
  Forall log_ok (sessions d') ∧ current w' d' ∧ actions d' = actions d ∧
  (∀ i, active d' i → i = ws_id w).
Proof.
  unfold resumeWorkSession. intros Hr [Ho Hf].
  apply M_bind_Ok in Hr as (o & d1 & Ha & Hr).
  apply fetchActiveWorkSession_inv in Ha as [-> Ha].
  apply M_bind_Ok in Hr as ([] & d1 & Hp & Hr).
  assert (Hd1 : Forall log_ok (sessions d1) ∧ actions d1 = actions d ∧ ∀ i, ¬ active d1 i).
  { destruct o as [c|]; [|by injection Hp as <-].
    apply M_bind_Ok in Hp as (c' & d2 & Hp & [= <-]).
    destruct (pauseWorkSession_inv _ _ _ _ Hp Hf) as (? & ? & _ & Hs).
    split_and!; [done|done|]. intros i [Hi Hne]%Hs. destruct Ha as (Hac & _).
    by destruct Hne; apply Ho. }
  destruct Hd1 as (Hf1 & Ha1 & Hno). clear Hp Ha.
  apply M_bind_Ok in Hr as (w1 & d2 & Hu & Hr). apply lift_Ok in Hu as [Hu ->].
  apply M_bind_Ok in Hr as ([] & d2 & Ht & Hr). apply lift_Ok in Ht as [Ht ->].
  apply throw_if_Ok, negb_false_iff, bool_decide_eq_true in Ht.
  assert (Hes : event_state (createWorkEvent now (if has_start w then RESUME else START)) = Some ACTIVE)
    by (by destruct (has_start w)).
  pose proof (updateOutcome_last _ _ _ _ Hu Hes) as (Hi & _ & _ & Hl & _).
  edestruct commit_inv as (Hf' & Ha & _ & _ & _ & _ & _ & Hc' & Hs); [exact Hr|by left|done|].
  split_and!; [done|done|congruence|].
  intros i Hi'. apply Hs in Hi' as [[Hx _]|[-> _]]; [by destruct (Hno i)|done].
Qed.

Lemma activateNextWorkSession_inv d d' :
  activateNextWorkSession d = Ok (tt, d') → inv d → inv d' ∧ actions d' = actions d.
Proof.
  unfold activateNextWorkSession. intros Hr Hinv.
  apply M_bind_Ok in Hr as (l & d1 & [= <- <-] & Hr).
  destruct (List.filter is_active (sessions d)) as [|w0 l0] eqn:Hfl; [|by injection Hr as <-].
  apply M_bind_Ok in Hr as (o & d1 & [= <- <-] & Hr).
  destruct (latest_touched _) as [row|]; [|by injection Hr as <-].
  apply M_bind_Ok in Hr as (w1 & d2 & Hu & Hr). apply lift_Ok in Hu as [Hu ->].
  apply M_bind_Ok in Hr as ([] & d2 & Hsave & Hr).
  apply M_bind_Ok in Hr as (w2 & d3 & Href & [= <-]).
  pose proof (updateOutcome_last _ _ _ ACTIVE Hu eq_refl) as (Hi & _ & _ & Hl & Hst).
  destruct Hinv as [Ho Hf].
  edestruct (commit_inv w1 true d w2 d3) as (Hf' & Ha & _ & _ & _ & _ & _ & Hc' & Hs);
    [by apply M_bind_Ok; eexists _, _|by intros _|done|].
  split; [|done]. apply (inv_single _ (ws_id w1)); [done|].
  intros i Hi'. apply Hs in Hi' as [[Hx _]|[-> _]]; [|done].
  destruct Hx as (x & Hx & _ & Hxa).
  assert (Hin : x ∈ List.filter is_active (sessions d)) by by apply active_filter.
  rewrite Hfl in Hin. by apply elem_of_nil in Hin.
Qed.

(** ** The handlers keep the invariant *)
Lemma add_work_event_inv w e d w' d' :
  add_work_event w e d = Ok (w', d') → inv d → current w d → inv d' ∧ current w' d'.
Proof.
  unfold add_work_event. intros Ha Hinv Hc. pose proof Hinv as [Ho Hf].
  destruct (ev_kind e).
  - done.
  - apply M_bind_Ok in Ha as ([] & d1 & Ht & Ha). apply lift_Ok in Ht as [_ ->].
    apply M_bind_Ok in Ha as (w1 & d1 & Hs & Ha).
    apply M_bind_Ok in Ha as ([] & d2 & Hn & [= <- <-]).
    destruct (stopWorkSession_inv _ _ _ _ _ Hs Hf) as (Hf1 & Hc1 & Hst & _ & Hsub & _).
    assert (Hi1 : inv d1) by (apply (inv_subset d); [done|done|naive_solver]).
    split; [|split; [congruence|apply Hc1]].
    destruct (autoStartNextWorkSession settings); [by apply activateNextWorkSession_inv in Hn as [? _]|by injection Hn as <-].
  - apply M_bind_Ok in Ha as ([] & d1 & Ht & Ha). apply lift_Ok in Ht as [_ ->].
    destruct (pauseWorkSession_inv _ _ _ _ Ha Hf) as (Hf1 & _ & Hc1 & Hsub).
    split; [|done]. apply (inv_subset d); [done|done|naive_solver].
  - apply M_bind_Ok in Ha as ([] & d1 & Ht & Ha). apply lift_Ok in Ht as [_ ->].
    destruct (resumeWorkSession_inv _ _ _ _ Ha Hinv) as (Hf1 & Hc1 & _ & Hsub).
    split; [|done]. by apply (inv_single _ (ws_id w)).
  - destruct (touchWorkSession_inv _ _ _ _ Ha Hf Hc) as (Hf1 & Hc1 & _ & Hsub).
    split; [|done]. by apply (inv_subset d).
  - apply M_bind_Ok in Ha as ([] & d1 & Ht & Ha). apply lift_Ok in Ht as [_ ->].
    apply M_bind_Ok in Ha as (w1 & d1 & Hu & Ha). apply lift_Ok in Hu as [Hu ->].
    apply updateOutcome_inv in Hu as (Hev & Hi & _ & Hst).
    destruct Hc as [Hc Hl]. unfold log_ok in Hl.
    assert (Hls : log_state (ws_events w1) = log_state (ws_events w)).
    { rewrite Hev. cbn [ws_events add_event]. by rewrite log_state_snoc. }
    rewrite <- Hev, Hls in Hst. cbn [ws_state add_event] in Hst.
    edestruct commit_inv as (Hf' & _ & _ & _ & _ & _ & _ & Hc' & Hs); [exact Ha| |done|].
    { rewrite Hls, Hst. intros Hla. case_bool_decide; [by right|]. rewrite Hla. by left. }
    split; [|done]. apply (inv_subset d); [done|done|].
    intros i Hi'. apply Hs in Hi' as [[? _]|[-> Hw1]]; [done|]. rewrite Hi. apply Hc.
    rewrite Hst in Hw1. case_bool_decide; [done|].
    destruct (log_state (ws_events w)) as [st|]; cbn in Hw1; [|done]. subst st.
    by destruct Hl.
Qed.

Lemma add_work_events_inv es w d w' d' :
  add_work_events w es d = Ok (w', d') → inv d → current w d → inv d'.
Proof.
  revert w d. induction es as [|e es IH]; intros w d Ha Hi Hc.
  - by injection Ha as <- <-.
  - cbn [add_work_events] in Ha. apply M_bind_Ok in Ha as (w1 & d1 & H1 & H2).
    destruct (add_work_event_inv _ _ _ _ _ H1 Hi Hc). by apply (IH w1 d1).
Qed.

Lemma AddWorkEvent_inv uuid es d w d' :
  AddWorkEvent uuid es d = Ok (w, d') → inv d → inv d'.
Proof.
  unfold AddWorkEvent. intros Ha Hi. apply M_bind_Ok in Ha as ([] & d1 & Hw & Ha).
  apply lift_Ok in Hw as [_ ->]. apply M_bind_Ok in Ha as (w1 & d1 & Hf & Ha).
  apply fetchWorkSession_inv in Hf as (-> & row & Hr & _ & ->).
  apply (add_work_events_inv _ _ _ _ _ Ha Hi). apply current_row; [apply Hi|done].
Qed.

Lemma insertWork_inv a name b d w d' :
  insertWork a name b d = Ok (w, d') →
  sessions d' = sessions d ++ [new_row d a name b] ∧ actions d' = actions d ∧
  w = assign (new_row d a name b) ∧
  (Forall log_ok (sessions d) → Forall log_ok (sessions d')) ∧
  (∀ i, active d' i → active d i ∨ (b = true ∧ i = new_uuid (sessions d))).
Proof.
  unfold insertWork. cbv [gets mbind M_bind modify mret M_ret]. intros [= <- <-].
  split_and!; [done|done|done| |].
  - intros Hf. cbn. apply Forall_app. split; [done|]. apply Forall_singleton.
    unfold log_ok, new_row. cbn. destruct b; cbn; [by left|done].
  - intros i (x & [Hx|Hx%list_elem_of_singleton]%elem_of_app & Hi & Ha).
    + left. by exists x.
    + right. subst. cbn in *. by destruct b.
Qed.

Lemma create_one_inv activate count a d count' d' :
  create_one activate count a d = Ok (count', d') → inv d →
  inv d' ∧ (activate = true → count' = count + 1 ∧ (1 ≤ count → ∀ i, ¬ active d' i)).
Proof.
  unfold create_one. intros Hc [Ho Hf].
  apply M_bind_Ok in Hc as (name & d1 & Hv & Hc).
  assert (Hd1 : d1 = d).
  { unfold validateAction in Hv. cbv [gets mbind M_bind lift mret M_ret] in Hv.
    by destruct (actions d !! a); simplify_eq. }
  subst d1. apply M_bind_Ok in Hc as (o & d1 & Ha & Hc).
  assert (Hd1 : d1 = d ∧ (autoStartNewWorkSession settings || activate = true → match o with
    | None => ∀ i, ¬ active d i | Some w => active d (ws_id w) end)
    ∧ (autoStartNewWorkSession settings || activate = false → o = None)).
  { destruct (autoStartNewWorkSession settings || activate).
    - apply fetchActiveWorkSession_inv in Ha as [-> Ha]. split_and!; [done| |done].
      intros _. destruct o; naive_solver.
    - by injection Ha as <- <-. }
  destruct Hd1 as (-> & Ho1 & Ho2). cbv zeta in Hc.
  apply M_bind_Ok in Hc as ([] & d2 & Hp & Hc).
  assert (Hd2 : Forall log_ok (sessions d2) ∧ inv d2 ∧
    (autoStartNewWorkSession settings || activate = true → ∀ i, ¬ active d2 i)).
  { destruct o as [c|].
    - apply M_bind_Ok in Hp as (c' & d3 & Hp & [= <-]).
      destruct (pauseWorkSession_inv _ _ _ _ Hp Hf) as (? & _ & _ & Hs).
      split_and!; [done|apply (inv_subset d); [done|done|naive_solver]|].
      intros Hb i [Hi Hne]%Hs. destruct Hne. apply Ho; [done|by apply Ho1].
    - injection Hp as <-. split_and!; [done|done|done]. }
  destruct Hd2 as (Hf2 & Hi2 & Hno). clear Hp.
  apply M_bind_Ok in Hc as (w & d3 & Hins & Hc).
  apply M_bind_Ok in Hc as ([] & d4 & Hpub & [= <- <-]).
  apply publishLater_inv in Hpub as [Hses _].
  apply insertWork_inv in Hins as (_ & _ & _ & Hlf & Hact).
  specialize (Hlf Hf2). rewrite <- Hses in Hlf.
  assert (Hact' : ∀ i, active d4 i → active d2 i ∨ _) by
    (intros i; rewrite (active_sessions _ _ _ Hses); apply Hact).
  clear Hact. split.
  - destruct (autoStartNewWorkSession settings || activate) eqn:Hb.
    + apply (inv_single _ (new_uuid (sessions d2))); [done|].
      intros i [Hi|[_ ->]]%Hact'; [by destruct (Hno eq_refl i)|done].
    + apply orb_false_iff in Hb as [Hb1 ->]. rewrite Hb1 in Hact'.
      apply (inv_subset d2); [done|done|].
      intros i [Hi|[Hx _]]%Hact'; [done|]. rewrite andb_false_r in Hx. done.
  - intros ->. rewrite orb_true_r in Hno. split; [done|].
    intros Hcount i [Hi|[Hx _]]%Hact'; [by destruct (Hno eq_refl i)|].
    cbn in Hx. apply Z.eqb_eq in Hx. lia.
Qed.

Lemma create_all_inv l activate count d u d' :
  create_all activate count l d = Ok (u, d') → inv d → inv d'.
Proof.
  revert count d. induction l as [|a l IH]; intros count d Hc Hi.
  - by injection Hc as <- <-.
  - cbn [create_all] in Hc. apply M_bind_Ok in Hc as (c & d1 & H1 & H2).
    apply (IH c d1); [done|]. by apply (create_one_inv _ _ _ _ _ _ H1 Hi).
Qed.

Lemma create_all_none_active l count d u d' :
  create_all true count l d = Ok (u, d') → inv d → 1 ≤ count → l ≠ [] → ∀ i, ¬ active d' i.
Proof.
  revert count d. induction l as [|a l IH]; intros count d Hc Hi Hn Hne; [done|].
  cbn [create_all] in Hc. apply M_bind_Ok in Hc as (c & d1 & H1 & H2).
  destruct (create_one_inv _ _ _ _ _ _ H1 Hi) as [Hi1 Hx]. destruct (Hx eq_refl) as [-> Hno].
  destruct l as [|b l].
  - injection H2 as <- <-. by apply Hno.
  - apply (IH (count + 1) d1); [done|done|lia|done].
Qed.

Lemma CreateWorkSession_run what activate d u d' :
  CreateWorkSession what activate d = Ok (u, d') →
  create_all activate 0 (new_actions what d) d = Ok (u, d') ∧ new_actions what d ≠ [].
Proof.
  unfold CreateWorkSession. intros Hc.
  apply M_bind_Ok in Hc as ([] & d1 & Hw & Hc). apply lift_Ok in Hw as [_ ->].
  apply M_bind_Ok in Hc as (l & d1 & [= <- <-] & Hc).
  apply M_bind_Ok in Hc as ([] & d1 & Ht & Hc). apply lift_Ok in Ht as [Ht ->].
  apply throw_if_Ok, bool_decide_eq_false in Ht.
  apply M_bind_Ok in Hc as ([] & d1 & Hr & Hc). by apply lift_Ok in Hr as [_ ->].
Qed.

Lemma pauseWork_inv d u d' : pauseWork d = Ok (u, d') → inv d → inv d'.
Proof.
  unfold pauseWork. intros Hp Hi. apply M_bind_Ok in Hp as (l & d1 & [= <- <-] & Hp).
  eapply (for_each_inv inv); [|done|exact Hp].
  intros row s s' _ Hs Hf. apply M_bind_Ok in Hf as (w & d1 & Hf & [= <-]).
  destruct (pauseWorkSession_inv _ _ _ _ Hf (proj2 Hs)) as (? & _ & _ & Hsub).
  apply (inv_subset s); [done|done|naive_solver].
Qed.

Lemma syncActiveWork_inv d u d' : syncActiveWork d = Ok (u, d') → inv d → inv d'.
Proof.
  unfold syncActiveWork. intros Hp [Ho Hf]. apply M_bind_Ok in Hp as (l & d1 & [= <- <-] & Hp).
  destruct (List.filter is_active (sessions d)) as [|r0 rows] eqn:Hfl.
  { by injection Hp as <- <-. }
  assert (Hall : ∀ r, r ∈ r0 :: rows → ws_id r = ws_id r0 ∧ log_ok r).
  { intros r Hr. rewrite <- Hfl in Hr. apply active_filter in Hr as [Hr Ha].
    assert (Hr0 : r0 ∈ List.filter is_active (sessions d)) by (rewrite Hfl; by left).
    apply active_filter in Hr0 as [Hr0 Ha0]. split; [|by intros _; left].
    apply Ho; [by exists r|by exists r0]. }
  assert (Hend : Forall log_ok (sessions d') ∧ ∀ j, active d' j → j = ws_id r0).
  { eapply (for_each_inv (λ d, Forall log_ok (sessions d) ∧ ∀ j, active d j → j = ws_id r0));
      [| |exact Hp].
    - intros r s s' Hr [Hfs Hs] Hrun. destruct (Hall r Hr) as [Hid Hlr].
      apply M_bind_Ok in Hrun as (w1 & d1 & Hu & Hsv). apply lift_Ok in Hu as [Hu ->].
      apply updateOutcome_inv in Hu as (Hev & Hi & _ & Hst).
      apply saveWorkSession_inv in Hsv as (-> & _ & Hss).
      split.
      + apply log_ok_saved; [done|]. rewrite Hss, Hev, Hst. intros ->.
        case_bool_decide; [by right|by left].
      + intros j [[Hj _]|[-> _]]%active_saved; [by apply Hs|]. by rewrite Hi.
    - split; [done|]. intros j Hj. apply Ho; [done|].
      assert (Hr0 : r0 ∈ List.filter is_active (sessions d)) by (rewrite Hfl; by left).
      apply active_filter in Hr0 as [Hr0 Ha0]. by exists r0. }
  destruct Hend. by apply (inv_single _ (ws_id r0)).
Qed.

Lemma endWorkSessionForAction_inv a d u d' :
  endWorkSessionForAction a d = Ok (u, d') → inv d → inv d'.
Proof.
  unfold endWorkSessionForAction. intros Hp Hi.
  apply M_bind_Ok in Hp as (l & d1 & [= <- <-] & Hp).
  apply M_bind_Ok in Hp as ([] & d1 & Hloop & Hp).
  assert (Hi1 : inv d1).
  { eapply (for_each_inv inv); [|done|exact Hloop].
    intros row s s' _ Hs Hf. apply M_bind_Ok in Hf as (w & d2 & Hf & [= <-]).
    destruct (stopWorkSession_inv _ _ _ _ _ Hf (proj2 Hs)) as (? & _ & _ & _ & Hsub & _).
    apply (inv_subset s); [done|done|naive_solver]. }
  destruct u. destruct (existsb _ _ && _); [by apply activateNextWorkSession_inv in Hp as [? _]|by injection Hp as <-].
Qed.

Lemma deleteWorkSession_inv uuid d u d' :
  deleteWorkSession uuid d = Ok (u, d') → inv d → inv d'.
Proof.
  unfold deleteWorkSession. intros Hp Hi. apply M_bind_Ok in Hp as (l & d1 & [= <- <-] & Hp).
  destruct (List.filter _ (sessions d)) as [|r0 rows]; [done|].
  apply M_bind_Ok in Hp as ([] & d1 & [= <-] & Hp).
  apply M_bind_Ok in Hp as (w & d2 & Hf & Hp). apply fetchWorkSession_inv in Hf as [-> _].
  destruct u. apply publishLater_inv in Hp as [Hses _].
  apply (inv_subset d); [done| |].
  - rewrite Hses. apply Forall_forall. intros x Hx.
    apply elem_of_update_rows in Hx as (r & Hr & ->). case_if; [done|].
    destruct Hi as [_ Hf]. rewrite Forall_forall in Hf. by apply Hf.
  - intros i (x & Hx & Hid & Ha). rewrite Hses in Hx.
    apply elem_of_update_rows in Hx as (r & Hr & ->). destruct (has_id uuid r); [done|by exists r].
Qed.

(** A row with the id is found. *)
Lemma has_id_found uuid w l :
  w ∈ l → ws_id w = uuid → ∃ x y, List.filter (has_id uuid) l = x :: y.
Proof.
  intros Hw Hi. destruct (List.filter (has_id uuid) l) as [|x y] eqn:Hf; [|eauto].
  assert (Hin : w ∈ List.filter (has_id uuid) l).
  { apply list_elem_of_In, List.filter_In. split; [by apply list_elem_of_In|].
    unfold has_id. by apply bool_decide_eq_true. }
  rewrite Hf in Hin. by apply not_elem_of_nil in Hin.
Qed.

(** Deleting a session that exists succeeds and clears its rows. *)
Lemma deleteWorkSession_run uuid d w :
  w ∈ sessions d → ws_id w = uuid →
  ∃ x, deleteWorkSession uuid d =
    Ok (tt, {| sessions := (λ r, if has_id uuid r then deleted_row r else r) <$> sessions d;
               actions := actions d; time_blocks := time_blocks d;
               updates := updates d ++ [upd_work OP_DELETED x] |}).
Proof.
  intros Hw Hi. unfold deleteWorkSession, fetchWorkSession. cbv [mbind M_bind gets modify].
  destruct (has_id_found uuid w (sessions d) Hw Hi) as (x & y & ->).
  set (f := λ r, if has_id uuid r then deleted_row r else r).
  cbn [update_rows set_sessions sessions].
  destruct (has_id_found uuid (f w) (f <$> sessions d)) as (x' & y' & Hf).
  - by apply list_elem_of_fmap_2.
  - unfold f. by case_if.
  - subst f. rewrite Hf. cbv [mret M_ret]. by exists (assign x').
Qed.

Lemma AddWork_inv cuser user w d w' d' :
  AddWork cuser user w d = Ok (w', d') → ws_state w = DONE → inv d → inv d'.
Proof.
  unfold AddWork. intros Ha Hd [Ho Hf].
  apply M_bind_Ok in Ha as (name & d1 & Hv & Ha).
  assert (Hd1 : d1 = d).
  { unfold validateAction in Hv. cbv [gets mbind M_bind lift mret M_ret] in Hv.
    by destruct (actions d !! ws_action w); simplify_eq. }
  subst d1.
  apply M_bind_Ok in Ha as ([] & d1 & Ht & Ha). apply lift_Ok in Ht as [_ ->]. cbv zeta in Ha.
  set (w1 := if bool_decide (ws_name w = EmptyString) then _ else _) in Ha.
  assert (Hw1 : ws_state w1 = DONE) by (subst w1; by case_bool_decide).
  apply M_bind_Ok in Ha as ([] & d1 & Ht & Ha). apply lift_Ok in Ht as [_ ->].
  apply M_bind_Ok in Ha as (row & d1 & Hins & Ha).
  apply insertWork_inv in Hins as (_ & _ & _ & Hlf & Hact). specialize (Hlf Hf).
  match type of Ha with (lift (updateOutcome now ?x) ≫= _) _ = _ => set (w2 := x) in Ha end.
  assert (Hw2 : ws_state w2 = DONE) by (subst w2; by destruct (ws_paused w1 =? 0)).
  apply M_bind_Ok in Ha as (w3 & d2 & Hu & Ha). apply lift_Ok in Hu as [Hu ->].
  apply updateOutcome_inv in Hu as (_ & _ & _ & Hst). rewrite Hw2, bool_decide_true in Hst by done.
  apply M_bind_Ok in Ha as ([] & d2 & Hs & Ha).
  apply saveWorkSession_inv in Hs as (-> & _ & Hss). cbn [ws_state] in Hss.
  apply M_bind_Ok in Ha as (w4 & d2 & Hfe & Ha). apply fetchWorkSession_inv in Hfe as [-> _].
  apply M_bind_Ok in Ha as ([] & d3 & Hp & [= <- <-]). apply publishLater_inv in Hp as [Hses _].
  apply (inv_subset d); [done| |].
  - rewrite Hses. apply log_ok_saved; [done|]. intros _. right. by rewrite Hss.
  - intros i Hi. rewrite (active_sessions _ _ _ Hses) in Hi.
    apply active_saved in Hi as [[Hi _]|[_ Hx]]; [|by rewrite Hss, Hst in Hx].
    apply Hact in Hi as [?|[? _]]; done.
Qed.

Lemma AddWorkEvent_actions uuid es d w d' :
  Forall (λ e, ev_kind e ≠ STOP) es → inv d →
  AddWorkEvent uuid es d = Ok (w, d') → actions d' = actions d.
Proof.
  intros Hes Hi Ha. unfold AddWorkEvent in Ha.
  apply M_bind_Ok in Ha as ([] & d1 & Hw & Ha). apply lift_Ok in Hw as [_ ->].
  apply M_bind_Ok in Ha as (w1 & d1 & Hf & Ha).
  apply fetchWorkSession_inv in Hf as (-> & row & Hr & _ & ->).
  assert (Hc : current (assign row) d) by (apply current_row; [apply Hi|done]).
  revert Ha Hc. generalize (assign row). clear Hr row. revert d Hi.
  induction Hes as [|e es He _ IH]; intros d Hi w1 Ha Hc; [by injection Ha as <- <-|].
  cbn [add_work_events] in Ha. apply M_bind_Ok in Ha as (w2 & d2 & H1 & H2).
  destruct (add_work_event_inv _ _ _ _ _ H1 Hi Hc) as [Hi2 Hc2].
  etrans; [by apply (IH d2 Hi2 w2)|]. clear H2 IH.
  unfold add_work_event in H1. destruct (ev_kind e); try done.
  - apply M_bind_Ok in H1 as ([] & d1 & Ht & H1). apply lift_Ok in Ht as [_ ->].
    by apply pauseWorkSession_inv in H1 as (_ & ? & _); [|apply Hi].
  - apply M_bind_Ok in H1 as ([] & d1 & Ht & H1). apply lift_Ok in Ht as [_ ->].
    by apply resumeWorkSession_inv in H1 as (_ & _ & ? & _).
  - by apply touchWorkSession_inv in H1 as (_ & _ & ? & _); [|apply Hi|].
  - apply M_bind_Ok in H1 as ([] & d1 & Ht & H1). apply lift_Ok in Ht as [_ ->].
    apply M_bind_Ok in H1 as (w3 & d1 & Hu & H1). apply lift_Ok in Hu as [Hu ->].
    apply M_bind_Ok in H1 as ([] & d1 & Hs & H1).
    apply saveWorkSession_inv in Hs as (-> & _ & _).
    by apply refresh_inv in H1 as (_ & -> & _).
Qed.
End store.

(** ** One active session *)

(** A change of the store: a handler that returned, or a part of one that
    other handlers run ([MarkActionAsDone] ends the sessions of an action).
    [AddWork] adds finished sessions, as the client sends them. *)
Inductive work_step `{PlanGate, RowIds} (settings : Settings) (d d' : Db) : Prop :=
| step_create now what activate :
    CreateWorkSession settings now what activate d = Ok (tt, d') → work_step settings d d'
| step_events now uuid es w :
    AddWorkEvent settings now uuid es d = Ok (w, d') → work_step settings d d'
| step_add now cuser user w w' :
    ws_state w = DONE → AddWork now cuser user w d = Ok (w', d') → work_step settings d d'
| step_delete uuid : deleteWorkSession uuid d = Ok (tt, d') → work_step settings d d'
| step_end_action now a :
    endWorkSessionForAction settings now a d = Ok (tt, d') → work_step settings d d'
| step_pause now : pauseWork now d = Ok (tt, d') → work_step settings d d'
| step_sync now : syncActiveWork now d = Ok (tt, d') → work_step settings d d'
| step_next now : activateNextWorkSession now d = Ok (tt, d') → work_step settings d d'.

Lemma work_step_inv `{PlanGate, RowIds} settings d d' :
  work_step settings d d' → inv d → inv d'.
Proof.
  intros [now what a Hs|now u es w Hs|now c u w w' Hd Hs|u Hs|now a Hs|now Hs|now Hs|now Hs] Hi.
  - apply CreateWorkSession_run in Hs as [Hs _]. by eapply create_all_inv.
  - by eapply AddWorkEvent_inv.
  - by eapply AddWork_inv.
  - by eapply deleteWorkSession_inv.
  - by eapply endWorkSessionForAction_inv.
  - by eapply pauseWork_inv.
  - by eapply syncActiveWork_inv.
  - by eapply activateNextWorkSession_inv.
Qed.

Lemma reachable_inv `{PlanGate, RowIds} settings d0 d :
  sessions d0 = [] → rtc (work_step settings) d0 d → inv d.
Proof.
  intros He0 Hr. assert (Hi : inv d0).
  { split; [intros i j (w & Hw & _)|]; rewrite He0 in *; [by apply elem_of_nil in Hw|constructor]. }
  clear He0. induction Hr as [|? ? ? Hs _ IH]; [done|]. by apply IH, (work_step_inv settings _ _ Hs).
Qed.


(** Creating sessions for several actions with activation leaves no
    session active: the loop starts the first session and pauses it when it
    adds the second. *)
Theorem create_several_leaves_none_active `{PlanGate, RowIds} settings now what d d' :
  inv d → CreateWorkSession settings now what true d = Ok (tt, d') →
  (2 ≤ length (new_actions what d))%nat →
  ∀ w, w ∈ sessions d' → ws_state w ≠ ACTIVE.
Proof.
  intros Hi Hc Hl w Hw Ha. apply CreateWorkSession_run in Hc as [Hc _].
  destruct (new_actions what d) as [|a [|b l]]; cbn in Hl; [lia|lia|].
  cbn [create_all] in Hc. apply M_bind_Ok in Hc as (c & d1 & H1 & H2).
  destruct (create_one_inv _ _ _ _ _ _ _ _ H1 Hi) as [Hi1 Hx]. destruct (Hx eq_refl) as [-> _].
  eapply (create_all_none_active settings now (b :: l) (0 + 1) d1); [exact H2|done|lia|done|].
  by exists w.
Qed.

(** Stopping a session finishes its row and books its time: the row is
    done with an end, every other row is untouched, and the time spent on
    its action becomes the sum of the durations of all its done sessions,
    this one included. *)
Theorem stopWorkSession_books_time now w ev d w' d' a :
  stopWorkSession now w ev d = Ok (w', d') → inv d →
  ws_action w' ≠ EmptyString → actions d !! ws_action w' = Some a →
  ws_state w' = DONE ∧ ws_id w' = ws_id w ∧
  (∀ r, r ∈ sessions d → ws_id r ≠ ws_id w → r ∈ sessions d') ∧
  (∀ r, r ∈ sessions d' → ws_id r = ws_id w → ws_state r = DONE ∧ ws_duration r = ws_duration w') ∧
  actions d' !! ws_action w' = Some {| a_name := a_name a; a_active := a_active a;
    a_time_spent := done_time (ws_action w') (sessions d') |}.
Proof.
  intros Hs [_ Hf] Hne Ha.
  destruct (stopWorkSession_inv _ _ _ _ _ _ Hs Hf) as (_ & _ & Hst & Hid & _ & (w1 & Hu & Hdur & Hses) & Hact).
  split_and!; [done|done| | |by apply Hact].
  - intros r Hr Hne'. rewrite Hses. apply elem_of_update_rows. exists r. split; [done|].
    unfold has_id. by rewrite bool_decide_false.
  - intros r Hr Hrid. rewrite Hses in Hr. apply elem_of_update_rows in Hr as (r0 & _ & ->).
    unfold has_id in *. case_bool_decide; [|done]. cbn. rewrite Hdur. split; [|done].
    destruct (updateOutcome_last _ _ _ _ _ Hu eq_refl) as (_ & _ & _ & _ & [-> | ->]); by destruct (ws_end w1).
Qed.

(** Only a stop books time: events that do not stop the session, among
    them the correction of the duration of a finished one, leave the time
    spent on every action as it was. *)
Theorem events_keep_time_spent `{PlanGate, RowIds} settings now uuid es d w d' :
  Forall (λ e, ev_kind e ≠ STOP) es → inv d →
  AddWorkEvent settings now uuid es d = Ok (w, d') → actions d' = actions d.
Proof. apply AddWorkEvent_actions. Qed.

(** A finished session the client adds with a pause loses its times:
    the pause is written as a correction event, the outcome is recomputed
    from that event alone, and the stored row has neither start nor
    duration nor pause. *)
Theorem AddWork_with_pause_loses_times `{PlanGate, RowIds} now cuser user w d w' d' :
  ws_events w = [] → ws_paused w ≠ 0 →
  AddWork now cuser user w d = Ok (w', d') →
  ws_start w' = 0 ∧ ws_duration w' = 0 ∧ ws_paused w' = 0.
Proof.
  intros Hev Hp Ha. unfold AddWork in Ha.
  apply M_bind_Ok in Ha as (name & d1 & _ & Ha).
  apply M_bind_Ok in Ha as ([] & d2 & _ & Ha). cbv zeta in Ha.
  set (w1 := if bool_decide (ws_name w = EmptyString) then _ else _) in Ha.
  assert (Hw1 : ws_events w1 = [] ∧ ws_paused w1 = ws_paused w) by (subst w1; by case_bool_decide).
  destruct Hw1 as [Hev1 Hp1]. apply Z.eqb_neq in Hp. rewrite Hp1, Hp in Ha.
  apply M_bind_Ok in Ha as ([] & d3 & _ & Ha).
  apply M_bind_Ok in Ha as (row & d4 & _ & Ha).
  apply M_bind_Ok in Ha as (w3 & d5 & Hu & Ha). apply lift_Ok in Hu as [Hu ->].
  apply outcome_without_start in Hu as (Hs & Hd & Hpa);
    [|cbn [ws_events add_event]; by rewrite Hev1|
     cbn [ws_events add_event]; rewrite Hev1; by repeat constructor].
  apply M_bind_Ok in Ha as ([] & d6 & Hsv & Ha). apply saveWorkSession_inv in Hsv as (-> & _ & _).
  apply M_bind_Ok in Ha as (w4 & d7 & Hfe & Ha).
  apply fetchWorkSession_inv in Hfe as (-> & r & Hr & Hrid & ->).
  apply M_bind_Ok in Ha as ([] & d8 & _ & [= <- _]).
  apply elem_of_update_rows in Hr as (r0 & Hr0 & ->).
  unfold has_id in *. cbn [ws_id] in *. case_bool_decide as Hc; [|done].
  cbn. rewrite Hs, Hd, Hpa. done.
Qed.

(** ** Examples *)
#[export] Instance fresh_ids : RowIds :=
  {| new_uuid l := fresh (ws_id <$> l); new_uuid_fresh l := infinite_is_fresh _ |}.

#[export] Instance open_gate : PlanGate := {|
  requireWritableForAdd := Ok tt;
  reserveAddition _ := Ok tt
|}.

Definition no_autostart : Settings :=
  {| autoStartNextWorkSession := false; autoStartNewWorkSession := false |}.

Definition example_db : Db := {|
  sessions := [];
  actions := <["a" := {| a_name := "A"; a_active := true; a_time_spent := 0 |}]>
    (<["b" := {| a_name := "B"; a_active := true; a_time_spent := 0 |}]> ∅);
  time_blocks := <["t" := ["a"; "b"]]> ∅;
  updates := [] |}.

Definition db1 : Db := after (CreateWorkSession no_autostart 1000 (actionId "a") true) example_db.
Definition id1 : string := match sessions db1 with w :: _ => ws_id w | [] => EmptyString end.
Definition stop_now : WorkEvent := createWorkEvent 0 STOP.
Definition db2 : Db := after (AddWorkEvent no_autostart 1600 id1 [stop_now]) db1.


Lemma inv_example : inv example_db.
Proof. split; [intros i j (w & Hw & _); by apply elem_of_nil in Hw|constructor]. Qed.

Lemma create_several_leaves_none_active_witness :
  let d' := after (CreateWorkSession no_autostart 1000 (timeBlockId "t") true) example_db in
  (∀ w, w ∈ sessions d' → ws_state w ≠ ACTIVE) ∧ length (sessions d') = 2%nat.
Proof.
  cbn zeta. split; [|vm_compute; reflexivity].
  destruct (run_after (CreateWorkSession no_autostart 1000 (timeBlockId "t") true) example_db)
    as [[] Hr]; [vm_compute; reflexivity|].
  refine (create_several_leaves_none_active no_autostart 1000 (timeBlockId "t") example_db _
    inv_example Hr _). vm_compute. lia.
Defined.

Lemma inv_db1 : inv db1.
Proof.
  destruct (run_after (CreateWorkSession no_autostart 1000 (actionId "a") true) example_db)
    as [[] Hr]; [vm_compute; reflexivity|].
  apply (work_step_inv no_autostart example_db); [by eapply step_create|apply inv_example].
Qed.

Definition row1 : WorkSession :=
  match sessions db1 with w :: _ => w | [] => set_state DONE (new_row 0 example_db "" "" false) end.
Definition db_stopped : Db := after (stopWorkSession 1600 (assign row1) None) db1.

Lemma stopWorkSession_books_time_witness :
  ∃ w', ws_state w' = DONE ∧
    actions db_stopped !! ws_action w' =
      Some {| a_name := "A"; a_active := true;
              a_time_spent := done_time (ws_action w') (sessions db_stopped) |} ∧
    done_time "a" (sessions db_stopped) = 600.
Proof.
  destruct (stopWorkSession 1600 (assign row1) None db1) as [[w' d']|] eqn:Hr.
  - assert (Hd : d' = db_stopped) by (unfold db_stopped, after; by rewrite Hr).
    assert (Ha : ws_action w' = "a"%string).
    { apply (f_equal (λ r, match r with Ok (w, _) => ws_action w | Throw _ => EmptyString end)) in Hr.
      rewrite <- Hr. vm_compute. reflexivity. }
    exists w'. subst d'.
    destruct (stopWorkSession_books_time 1600 (assign row1) None db1 w' db_stopped
      {| a_name := "A"; a_active := true; a_time_spent := 0 |} Hr inv_db1
      ltac:(rewrite Ha; done) ltac:(rewrite Ha; vm_compute; reflexivity))
      as (Hst & _ & _ & _ & Hact).
    split; [exact Hst|]. split; [exact Hact|]. vm_compute. reflexivity.
  - exfalso. apply (f_equal is_ok) in Hr. vm_compute in Hr. discriminate Hr.
Defined.

Lemma events_keep_time_spent_witness :
  actions (after (AddWorkEvent no_autostart 1600 id1 [createWorkEvent 0 PAUSE]) db1) = actions db1.
Proof.
  destruct (run_after (AddWorkEvent no_autostart 1600 id1 [createWorkEvent 0 PAUSE]) db1)
    as [w Hr]; [vm_compute; reflexivity|].
  refine (events_keep_time_spent no_autostart 1600 id1 _ db1 w _ _ inv_db1 Hr).
  by repeat constructor.
Defined.

Definition finished_with_pause : WorkSession := {|
  ws_id := ""; ws_action := "a"; ws_start := 1000; ws_end := Some 4600; ws_duration := 3300;
  ws_paused := 300; ws_state := DONE; ws_version := 0; ws_touched := 0; ws_events := [];
  ws_name := "n"; ws_notes := "" |}.

Lemma AddWork_with_pause_loses_times_witness :
  ∃ w', ws_start w' = 0 ∧ ws_duration w' = 0 ∧ ws_paused w' = 0 ∧ ws_end w' = Some 4600.
Proof.
  destruct (AddWork 5000 "u" "u" finished_with_pause example_db) as [[w' d']|] eqn:Hr.
  - exists w'.
    destruct (AddWork_with_pause_loses_times 5000 "u" "u" finished_with_pause example_db w' d'
      eq_refl ltac:(cbn; lia) Hr) as (H1 & H2 & H3).
    split; [exact H1|]. split; [exact H2|]. split; [exact H3|].
    apply (f_equal (λ r, match r with Ok (w, _) => ws_end w | Throw _ => None end)) in Hr.
    rewrite <- Hr. vm_compute. reflexivity.
  - exfalso. apply (f_equal is_ok) in Hr. vm_compute in Hr. discriminate Hr.
Defined.
