(* ===== verification/Nodes.v ===== *)
(** * The tree of nodes

    The handlers of src/src/backend/lib/grpc/Node.cpp over the table [node]:
    creating, importing, updating, moving and deleting nodes, and the tree
    [GetNodes] assembles.  The table is a finite map from the primary key to
    the row; its foreign key cascades deletes and its triggers count the
    version.  [new_uuid] stands for [newUuidStr] and [DEFAULT UUID()]. *)
From S2P Require Import Prelude.

#[local] Open Scope nextapp_scope.

(** The columns of [node], less the replication cursors. *)
Record NodeRow := {
  n_user : string;
  n_name : string;
  n_kind : Z;
  n_descr : string;
  n_active : bool;
  n_inbox : bool;
  n_parent : option string;
  n_version : Z;
  n_exclude : bool;
  n_category : option string
}.

(** [pb::Node] as a client sends it; an empty string is an absent one, and
    [active] is an [optional] field. *)
Record NodeMsg := {
  m_uuid : string;
  m_parent : string;
  m_active : option bool;
  m_name : string;
  m_kind : Z;
  m_descr : string;
  m_exclude : bool;
  m_category : string;
  m_inbox : bool
}.

(** [pb::NodeTemplate] *)
Inductive NodeTemplate :=
  Template (t_name t_descr : string) (t_kind : Z) (t_inbox : bool) (t_children : list NodeTemplate).

Definition t_name (t : NodeTemplate) : string := match t with Template n _ _ _ _ => n end.
Definition t_children (t : NodeTemplate) : list NodeTemplate :=
  match t with Template _ _ _ _ c => c end.

(** [countTemplateNodes] *)
Fixpoint countTemplateNodes (t : NodeTemplate) : nat :=
  match t with Template name _ _ _ children =>
    (if bool_decide (name = EmptyString) then 0 else 1)
      + list_sum (countTemplateNodes <$> children)
  end.

(** [templateHasInbox] *)
Fixpoint templateHasInbox (t : NodeTemplate) : bool :=
  match t with Template _ _ _ inbox children =>
    inbox || existsb templateHasInbox children
  end.

Inductive Operation := ADDED | UPDATED | MOVED | RELOAD_NODES | FULL_RESYNC (epoch : Z).

Record Db := {
  nodes : gmap string NodeRow;
  epoch : gmap string Z;      (* [user.data_sync_epoch] *)
  updates : list (Operation * option (string * NodeRow))
}.

(** What the guards of the session and of the plan answer. *)
Class NodeGate := {
  requireWritableForAdd : result unit;
  reserveAddition : nat → result unit
}.

Class NodeIds := {
  new_uuid : gmap string NodeRow → string;
  new_uuid_fresh t : t !! new_uuid t = None;
  new_uuid_nonempty t : new_uuid t ≠ EmptyString
}.

Definition set_nodes (f : gmap string NodeRow → gmap string NodeRow) (d : Db) : Db :=
  {| nodes := f (nodes d); epoch := epoch d; updates := updates d |}.

Definition publishLater (op : Operation) (n : option (string * NodeRow)) : M Db unit :=
  modify (λ d, {| nodes := nodes d; epoch := epoch d; updates := updates d ++ [(op, n)] |}).

(** ** SQL *)

(** [UPDATE node SET inbox=FALSE WHERE p]; the trigger counts every row. *)
Definition clear_inbox (p : string → NodeRow → bool) (t : gmap string NodeRow) : gmap string NodeRow :=
  map_imap (λ id r, Some (if p id r then
    {| n_user := n_user r; n_name := n_name r; n_kind := n_kind r; n_descr := n_descr r;
       n_active := n_active r; n_inbox := false; n_parent := n_parent r;
       n_version := n_version r + 1; n_exclude := n_exclude r; n_category := n_category r |}
    else r)) t.

Definition owned_by (cuser : string) (id : string) (r : NodeRow) : bool :=
  bool_decide (n_user r = cuser).

(** The rows whose parent is one of [ids]. *)
Definition is_child (p : NodeRow → bool) (ids : list string) (kv : string * NodeRow) : bool :=
  p kv.2 && match n_parent kv.2 with Some q => bool_decide (q ∈ ids) | None => false end.

Definition children_of (p : NodeRow → bool) (t : gmap string NodeRow) (ids : list string) : list string :=
  (List.filter (is_child p ids) (map_to_list t)).*1.

(** [WITH RECURSIVE ... UNION ALL]: level by level until a level is empty. *)
Fixpoint descendants (fuel : nat) (p : NodeRow → bool) (t : gmap string NodeRow)
    (level : list string) : list string :=
  match fuel, level with
  | O, _ | _, [] => []
  | S fuel, _ => level ++ descendants fuel p t (children_of p t level)
  end.

Definition all_descendants (p : NodeRow → bool) (t : gmap string NodeRow) (level : list string) :=
  descendants (S (size t)) p t level.

(** [DELETE FROM node WHERE id IN ids], with [ON DELETE CASCADE]. *)
Definition delete_cascade (ids : list string) (t : gmap string NodeRow) : gmap string NodeRow :=
  filter (λ kv : string * NodeRow, kv.1 ∉ all_descendants (λ _, true) t ids) t.

Section handlers.
Context `{NodeGate, NodeIds} (cuser : string).

(** An [INSERT]: the database refuses a key that exists and a parent that
    does not; a row may be its own parent. *)
Definition insert_row (id : string) (r : NodeRow) : M Db unit :=
  let! t := gets nodes in
  let! _ := lift (throw_if (bool_decide (is_Some (t !! id))) runtime_error) in
  let! _ := lift (throw_if (match n_parent r with
                            | Some p => bool_decide (p ≠ id ∧ t !! p = None)
                            | None => false
                            end) runtime_error) in
  modify (set_nodes <[id := r]>).

(** [fetcNode]: no row is an access past the end. *)
Definition fetcNode (uuid : string) : M Db NodeRow :=
  let! t := gets nodes in
  match t !! uuid with
  | Some r => if owned_by cuser uuid r then mret r else lift (Throw undefined)
  | None => lift (Throw undefined)
  end.

Definition validateNode (uuid : string) : M Db unit :=
  let! t := gets nodes in
  match t !! uuid with
  | Some r => lift (throw_if (negb (owned_by cuser uuid r)) (server_err Error.INVALID_PARENT))
  | None => lift (Throw (server_err Error.INVALID_PARENT))
  end.

(** ** Adding *)

(** [CreateNode] computes [active] like this. *)
Definition create_active (m : NodeMsg) : bool :=
  match m_active m with None => default false (m_active m) | Some _ => true end.

Definition created_row (m : NodeMsg) : NodeRow :=
  {| n_user := cuser; n_name := m_name m; n_kind := m_kind m; n_descr := m_descr m;
     n_active := create_active m; n_inbox := m_inbox m; n_parent := toStringOrNull (m_parent m);
     n_version := 1; n_exclude := m_exclude m; n_category := toStringOrNull (m_category m) |}.

Definition CreateNode (m : NodeMsg) : M Db string :=
  let! _ := (if bool_decide (m_parent m = EmptyString) then mret tt else validateNode (m_parent m)) in
  let! fresh := gets (λ d, new_uuid (nodes d)) in
  let id := if bool_decide (m_uuid m = EmptyString) then fresh else m_uuid m in
  let! _ := lift requireWritableForAdd in
  let! _ := (if m_inbox m then modify (set_nodes (clear_inbox (owned_by cuser))) else mret tt) in
  let! _ := lift (reserveAddition 1) in
  let! _ := insert_row id (created_row m) in
  let! _ := publishLater ADDED (Some (id, created_row m)) in
  mret id.

Definition template_row (t : NodeTemplate) (parent_id : string) : NodeRow :=
  match t with Template name descr kind inbox _ =>
    {| n_user := cuser; n_name := name; n_kind := kind; n_descr := descr; n_active := true;
       n_inbox := inbox; n_parent := toStringOrNull parent_id; n_version := 1;
       n_exclude := false; n_category := None |}
  end.

(** [addNodes]: a node without a name adds only its children, at the root. *)
Fixpoint addNodes (parent_id : string) (t : NodeTemplate) {struct t} : M Db unit :=
  match t with Template name descr kind inbox children =>
    let! id :=
      (if bool_decide (name = EmptyString)
       then let! _ := lift (throw_if (negb (bool_decide (parent_id = EmptyString))) undefined) in
            mret EmptyString
       else let! id := gets (λ d, new_uuid (nodes d)) in
            let! _ := (if inbox then modify (set_nodes (clear_inbox (owned_by cuser)))
                       else mret tt) in
            let! _ := insert_row id (template_row t parent_id) in
            mret id) in
    (fix add_children (l : list NodeTemplate) : M Db unit :=
       match l with
       | [] => mret tt
       | c :: l => let! _ := addNodes id c in add_children l
       end) children
  end.

Definition CreateNodesFromTemplate (t : NodeTemplate) : M Db unit :=
  let! _ := lift requireWritableForAdd in
  let! _ := (if templateHasInbox t then modify (set_nodes (clear_inbox (owned_by cuser)))
             else mret tt) in
  let! _ := lift (reserveAddition (countTemplateNodes t)) in
  let! _ := addNodes EmptyString t in
  publishLater RELOAD_NODES None.

(** The row [saveNodes] inserts for an imported node. *)
Definition imported_row (m : NodeMsg) : NodeRow :=
  {| n_user := cuser; n_name := m_name m; n_kind := m_kind m; n_descr := m_descr m;
     n_active := default false (m_active m); n_inbox := m_inbox m;
     n_parent := toStringOrNull (m_parent m); n_version := 1; n_exclude := m_exclude m;
     n_category := toStringOrNull (m_category m) |}.

Definition saveNodes (l : list NodeMsg) : M Db unit :=
  let! _ := (if bool_decide (l = []) then mret tt else lift requireWritableForAdd) in
  let inbox_count := length (List.filter m_inbox l) in
  let! _ := lift (throw_if (Nat.ltb 1 inbox_count) (server_err Error.CONSTRAINT_FAILED)) in
  let! _ := (if Nat.eqb inbox_count 1 then modify (set_nodes (clear_inbox (owned_by cuser)))
             else mret tt) in
  let! _ := lift (reserveAddition (length l)) in
  for_each (λ m, insert_row (m_uuid m) (imported_row m)) l.

(** ** Changing *)

(** The columns [UpdateNode] writes. *)
Definition updated_row (m : NodeMsg) (r : NodeRow) : NodeRow :=
  {| n_user := n_user r; n_name := m_name m; n_kind := m_kind m; n_descr := m_descr m;
     n_active := default false (m_active m); n_inbox := m_inbox m; n_parent := n_parent r;
     n_version := n_version r + 1; n_exclude := m_exclude m;
     n_category := toStringOrNull (m_category m) |}.

Definition moved_row (parent : option string) (r : NodeRow) : NodeRow :=
  {| n_user := n_user r; n_name := n_name r; n_kind := n_kind r; n_descr := n_descr r;
     n_active := n_active r; n_inbox := n_inbox r; n_parent := parent;
     n_version := n_version r + 1; n_exclude := n_exclude r; n_category := n_category r |}.

(** [UPDATE node SET f WHERE id=? AND user=? AND version=?]: whether a row
    was affected. *)
Definition update_version (uuid : string) (version : Z) (f : NodeRow → NodeRow) : M Db bool :=
  let! t := gets nodes in
  match t !! uuid with
  | Some r => if owned_by cuser uuid r && bool_decide (n_version r = version)
              then let! _ := modify (set_nodes <[uuid := f r]>) in mret true
              else mret false
  | None => mret false
  end.

(** What other connections do to the database in the [k]-th round, between
    the read and the write. *)
Context (other : nat → gmap string NodeRow → gmap string NodeRow).

(** A transaction that is not committed. *)
Definition rolled_back (m : M Db bool) : M Db bool := λ d,
  match m d with
  | Ok (true, d') => Ok (true, d')
  | Ok (false, _) => Ok (false, d)
  | Throw e => Throw e
  end.

Definition update_once (m : NodeMsg) (k : nat) : M Db bool :=
  let! existing := fetcNode (m_uuid m) in
  let! _ := lift (throw_if (negb (bool_decide (m_parent m = default EmptyString (n_parent existing))))
                           (server_err Error.DIFFEREENT_PARENT)) in
  let! _ := modify (set_nodes (other k)) in
  rolled_back (
    let! _ := (if m_inbox m
               then modify (set_nodes (clear_inbox (λ id r, owned_by cuser id r
                                                     && negb (bool_decide (id = m_uuid m)))))
               else mret tt) in
    update_version (m_uuid m) (n_version existing) (updated_row m)).

(** [for (auto retry = 0;; ++retry)]: six rounds, then it throws. *)
Fixpoint retry_loop {A} (fuel : nat) (k : nat) (once : nat → M Db (option A)) : M Db A :=
  match fuel with
  | O => lift (Throw (server_err Error.DATABASE_UPDATE_FAILED))
  | S fuel => let! done := once k in
              match done with
              | Some a => mret a
              | None => retry_loop fuel (S k) once
              end
  end.

Definition UpdateNode (m : NodeMsg) : M Db NodeRow :=
  let! _ := retry_loop 6 0 (λ k, let! ok := update_once m k in
                                 mret (if ok : bool then Some tt else None)) in
  let! current := fetcNode (m_uuid m) in
  let! _ := publishLater UPDATED (Some (m_uuid m, current)) in
  mret current.

(** What [MoveNode] answers: moved, or the error it puts in the reply. *)
Inductive MoveReply := moved | refused (e : Error.t).

Definition move_once (uuid parentuuid : string) (k : nat) : M Db (option MoveReply) :=
  let! existing := fetcNode uuid in
  if bool_decide (default EmptyString (n_parent existing) = parentuuid)
  then mret (Some (refused Error.NO_CHANGES))
  else if bool_decide (parentuuid = uuid)
  then mret (Some (refused Error.CONSTRAINT_FAILED))
  else
    let! t := gets nodes in
    if negb (bool_decide (parentuuid = EmptyString))
       && bool_decide (parentuuid ∈ all_descendants (owned_by cuser EmptyString) t [uuid])
    then mret (Some (refused Error.CONSTRAINT_FAILED))
    else
      let! _ := (if bool_decide (parentuuid = EmptyString) then mret tt
                 else validateNode parentuuid) in
      let! _ := modify (set_nodes (other k)) in
      let! ok := update_version uuid (n_version existing) (moved_row (toStringOrNull parentuuid)) in
      mret (if ok : bool then Some moved else None).

Definition MoveNode (uuid parentuuid : string) : M Db MoveReply :=
  let! r := retry_loop 6 0 (move_once uuid parentuuid) in
  match r with
  | refused e => mret (refused e)
  | moved =>
      let! current := fetcNode uuid in
      let! _ := publishLater MOVED (Some (uuid, current)) in
      mret moved
  end.

(** ** Deleting *)

(** The epoch is counted up and every client is told to load everything;
    the updates queued so far are dropped. *)
Definition publishNodeResync : M Db unit :=
  let! e := gets epoch in
  match (e : gmap string Z) !! cuser with
  | None => lift (Throw (server_err Error.GENERIC_ERROR))
  | Some n => modify (λ d, {| nodes := nodes d; epoch := <[cuser := (n + 1)%Z]> (epoch d);
                              updates := [(FULL_RESYNC (n + 1), None)] |})
  end.

Definition deleteNode (uuid : string) : M Db unit :=
  let! t := gets nodes in
  match t !! uuid with
  | Some r =>
      let! _ := lift (throw_if (negb (owned_by cuser uuid r)) (server_err Error.NOT_FOUND)) in
      let! _ := modify (set_nodes (delete_cascade [uuid])) in
      publishNodeResync
  | None => lift (Throw (server_err Error.NOT_FOUND))
  end.

Definition owned_ids (t : gmap string NodeRow) : list string :=
  (filter (λ kv : string * NodeRow, n_user kv.2 = cuser) (map_to_list t)).*1.

Definition ResetNodes (template_root : option NodeTemplate) : M Db unit :=
  let! _ := lift requireWritableForAdd in
  let! _ := modify (λ d, set_nodes (delete_cascade (owned_ids (nodes d))) d) in
  let! _ := match template_root with
            | Some t => let! _ := lift (reserveAddition (countTemplateNodes t)) in
                        addNodes EmptyString t
            | None => mret tt
            end in
  publishNodeResync.

(** ** [GetNodes]

    The reply's tree is built by appending children to items found in
    [known]; it is kept here as the list of children under each item.  The
    row order is the database's. *)
Record Assembly := {
  as_children : gmap string (list string);
  as_known : gset string;
  as_pending : list (string * string)   (* id, parent *)
}.

Definition add_child (p id : string) (c : gmap string (list string)) : gmap string (list string) :=
  <[p := default [] (c !! p) ++ [id]]> c.

Definition assemble_row (a : Assembly) (row : string * NodeRow) : Assembly :=
  let '(id, r) := row in
  let parent := default EmptyString (n_parent r) in
  if bool_decide (parent ∈ as_known a)
  then {| as_children := add_child parent id (as_children a);
          as_known := {[id]} ∪ as_known a; as_pending := as_pending a |}
  else {| as_children := as_children a;
          as_known := {[id]} ∪ as_known a; as_pending := as_pending a ++ [(id, parent)] |}.

Definition assemble_pending (known : gset string) (c : gmap string (list string))
    (l : list (string * string)) : result (gmap string (list string)) :=
  foldl (λ c '(id, parent),
    let! c := c in
    if bool_decide (parent ∈ known) then Ok (add_child parent id c) else Throw undefined) (Ok c) l.

Definition GetNodes (rows : list (string * NodeRow)) : result (gmap string (list string)) :=
  let a := foldl assemble_row
    {| as_children := ∅; as_known := {[EmptyString]}; as_pending := [] |} rows in
  assemble_pending (as_known a) (as_children a) (as_pending a).
End handlers.

(** ** Specification: a forest

    [rooted t d id]: following the parents from [id] reaches a root after
    [d] steps. *)
Inductive rooted (t : gmap string NodeRow) : nat → string → Prop :=
| rooted_root id r : t !! id = Some r → n_parent r = None → rooted t 0 id
| rooted_child d id r p :
    t !! id = Some r → n_parent r = Some p → rooted t d p → rooted t (S d) id.

(** [below p t k a id]: [id] is [k] levels below [a], through rows that
    satisfy [p]. *)
Inductive below (p : NodeRow → bool) (t : gmap string NodeRow) : nat → string → string → Prop :=
| below_self a : below p t 0 a a
| below_child k a id r q :
    t !! id = Some r → p r = true → n_parent r = Some q → below p t k a q → below p t (S k) a id.

(** A table the handlers keep: a forest, every child with its parent's
    user, at most one inbox per user; no row has the empty key. *)
Record wf (t : gmap string NodeRow) : Prop := {
  wf_rooted id : is_Some (t !! id) → ∃ d, rooted t d id;
  wf_user id r p q : t !! id = Some r → n_parent r = Some p → t !! p = Some q → n_user r = n_user q;
  wf_inbox i j r s : t !! i = Some r → t !! j = Some s → n_inbox r = true → n_inbox s = true →
    n_user r = n_user s → i = j;
  wf_key : t !! EmptyString = None
}.

Lemma rooted_some t d id : rooted t d id → is_Some (t !! id).
Proof. by destruct 1; eexists. Qed.

Lemma rooted_unique t d d' id : rooted t d id → rooted t d' id → d = d'.
Proof.
  intros H. revert d'. induction H as [id r Hr Hp|d id r p Hr Hp H IH]; intros d' H'.
  - inversion H'; simplify_eq; done.
  - inversion H'; simplify_eq; f_equal. by apply IH.
Qed.

(** The nodes on the way to the root are distinct, so the way is shorter
    than the table. *)
Lemma rooted_path t d id : rooted t d id →
  ∃ l, NoDup l ∧ length l = S d ∧ ∀ x, x ∈ l → ∃ d', d' ≤ d ∧ rooted t d' x.
Proof.
  induction 1 as [id r Hr Hp|d id r p Hr Hp H (l & Hn & Hl & Hd)].
  - exists [id]. split_and!; [apply NoDup_singleton|done|].
    intros x ->%list_elem_of_singleton. exists 0. split; [lia|by eapply rooted_root].
  - exists (id :: l). split_and!.
    + apply NoDup_cons. split; [|done]. intros (d' & Hle & Hd')%Hd.
      pose proof (rooted_unique t d' (S d) id Hd' ltac:(by eapply rooted_child)). lia.
    + cbn. lia.
    + intros x [->|Hx]%elem_of_cons.
      * exists (S d). split; [lia|by eapply rooted_child].
      * apply Hd in Hx as (d' & ? & ?). exists d'. split; [lia|done].
Qed.

Lemma rooted_bound t d id : rooted t d id → d < size t.
Proof.
  intros (l & Hn & Hl & Hd)%rooted_path.
  assert (Hs : (list_to_set l : gset string) ⊆ dom t).
  { intros x Hx%elem_of_list_to_set. apply Hd in Hx as (d' & _ & Hx).
    apply elem_of_dom. by eapply rooted_some. }
  apply subseteq_size in Hs. rewrite size_list_to_set, size_dom in Hs by done. lia.
Qed.

Lemma below_rooted p t k a id d : below p t k a id → rooted t d a → rooted t (k + d) id.
Proof. induction 1; intros Ha; [done|]. eapply rooted_child; [done..|by apply IHbelow]. Qed.

(** A rooted node's ancestors are rooted. *)
Lemma below_rooted_inv p t k a id d : below p t k a id → rooted t d id → ∃ d', rooted t d' a ∧ d = k + d'.
Proof.
  intros H. revert d. induction H as [a|k a id r q Hr Hp Hq H IH]; intros d Hd; [by exists d|].
  inversion Hd; simplify_eq. destruct (IH _ ltac:(done)) as (d' & ? & ->). by exists d'.
Qed.

Lemma elem_of_children_of p t ids id :
  id ∈ children_of p t ids ↔ ∃ r q, t !! id = Some r ∧ p r = true ∧ n_parent r = Some q ∧ q ∈ ids.
Proof.
  unfold children_of. rewrite list_elem_of_fmap. split.
  - intros ([i r] & -> & Hin). apply list_elem_of_In, filter_In in Hin as [Hin Hc].
    apply list_elem_of_In, elem_of_map_to_list in Hin. unfold is_child in Hc. cbn in *.
    apply andb_true_iff in Hc as [? Hc]. destruct (n_parent r) as [q|] eqn:Hq; [|done].
    apply bool_decide_eq_true in Hc. by exists r, q.
  - intros (r & q & Hr & Hp & Hq & Hin). exists (id, r). split; [done|].
    apply list_elem_of_In, filter_In. rewrite <- list_elem_of_In, elem_of_map_to_list.
    split; [done|]. unfold is_child. cbn. rewrite Hp, Hq. by apply bool_decide_eq_true.
Qed.

Lemma descendants_sound fuel p t l id :
  id ∈ descendants fuel p t l → ∃ k a, a ∈ l ∧ below p t k a id.
Proof.
  revert l. induction fuel as [|fuel IH]; intros l; cbn [descendants].
  - intros H. by apply elem_of_nil in H.
  - destruct l as [|x l]; [intros H; by apply elem_of_nil in H|].
    intros [H|H]%elem_of_app; [by exists 0, id; split; [|constructor]|].
    apply IH in H as (k & a & Ha & Hb).
    apply elem_of_children_of in Ha as (r & q & Hr & Hp & Hq & Hin).
    exists (S k), q. split; [done|]. clear -Hr Hp Hq Hb.
    induction Hb as [a|k a id r' q' Hr' Hp' Hq' Hb IH].
    + eapply below_child; [done..|constructor].
    + eapply below_child; [done..|by apply IH].
Qed.

(** The first step down of a path. *)
Lemma below_split p t k a id :
  below p t (S k) a id → ∃ c r, t !! c = Some r ∧ p r = true ∧ n_parent r = Some a ∧ below p t k c id.
Proof.
  revert id. induction k as [|k IH]; intros id H; inversion H as [|? ? ? r q Hr Hp Hq Hb]; subst.
  - inversion Hb; subst. exists id, r. split_and!; [done..|constructor].
  - apply IH in Hb as (c & r' & ? & ? & ? & ?). exists c, r'. split_and!; [done..|].
    by eapply below_child.
Qed.

Lemma descendants_complete fuel p t l k a id :
  k < fuel → a ∈ l → below p t k a id → id ∈ descendants fuel p t l.
Proof.
  revert l k a. induction fuel as [|fuel IH]; intros l k a Hk Ha Hb; [lia|].
  cbn [descendants]. destruct l as [|x l]; [by apply elem_of_nil in Ha|].
  apply elem_of_app. destruct k as [|k]; [left; by inversion Hb; subst|right].
  apply below_split in Hb as (c & r & Hc & Hp & Hq & Hb).
  apply (IH _ k c); [lia| |done]. apply elem_of_children_of. by exists r, a.
Qed.

(** The fuel of [all_descendants] is enough on a forest. *)
Lemma all_descendants_spec p t l id :
  wf t → is_Some (t !! id) →
  id ∈ all_descendants p t l ↔ ∃ k a, a ∈ l ∧ below p t k a id.
Proof.
  intros Hwf Hid. split; [apply descendants_sound|]. intros (k & a & Ha & Hb).
  destruct (wf_rooted t Hwf id Hid) as [d Hd].
  destruct (below_rooted_inv _ _ _ _ _ _ Hb Hd) as (d' & _ & ->).
  apply rooted_bound in Hd. by eapply (descendants_complete _ _ _ _ k); [lia|..].
Qed.

(** In a table where children have their parent's user, everything below a
    user's node is the user's. *)
Lemma below_owned t cuser k a id r s :
  wf t → t !! a = Some r → n_user r = cuser → t !! id = Some s →
  below (λ _, true) t k a id → below (λ r, bool_decide (n_user r = cuser)) t k a id ∧ n_user s = cuser.
Proof.
  intros Hwf Ha Hu Hid Hb. revert s Hid. induction Hb as [a|k a id r' q Hr' _ Hq Hb IH]; intros s Hid.
  - split; [constructor|by simplify_eq].
  - simplify_eq.
    destruct (wf_rooted t Hwf id ltac:(by eexists)) as [d Hd]. inversion Hd; simplify_eq.
    match goal with H : rooted t _ q |- _ => apply rooted_some in H as [x Hx] end.
    destruct (IH Ha x Hx) as [Hb' Hxu]. pose proof (wf_user t Hwf id _ q x Hr' Hq Hx) as Huu.
    split; [|congruence]. eapply below_child; [done| |done|done].
    apply bool_decide_eq_true. congruence.
Qed.

(** ** Changes that keep the forest *)

(** [t'] has the rows of [t], with the same parents and users. *)
Definition extends (t t' : gmap string NodeRow) : Prop :=
  ∀ id r, t !! id = Some r →
    ∃ r', t' !! id = Some r' ∧ n_parent r' = n_parent r ∧ n_user r' = n_user r.

Lemma extends_refl t : extends t t.
Proof. intros id r Hr. by exists r. Qed.

Lemma extends_trans t1 t2 t3 : extends t1 t2 → extends t2 t3 → extends t1 t3.
Proof.
  intros H1 H2 id r Hr. destruct (H1 id r Hr) as (r2 & Hr2 & Hp & Hu).
  destruct (H2 id r2 Hr2) as (r3 & Hr3 & Hp' & Hu'). exists r3. split_and!; congruence.
Qed.

Lemma extends_rooted t t' d id : extends t t' → rooted t d id → rooted t' d id.
Proof.
  intros He. induction 1 as [id r Hr Hp|d id r p Hr Hp _ IH].
  - destruct (He id r Hr) as (r' & ? & ? & _). eapply rooted_root; [done|congruence].
  - destruct (He id r Hr) as (r' & ? & Hp' & _). eapply rooted_child; [done|by rewrite Hp'|done].
Qed.

(** Rows rewritten in place, keeping parent and user and adding no inbox. *)
Lemma wf_rewrite (f : string → NodeRow → NodeRow) t t' :
  (∀ id, t' !! id = f id <$> t !! id) →
  (∀ id r, t !! id = Some r → n_parent (f id r) = n_parent r ∧ n_user (f id r) = n_user r) →
  (∀ i j r s, t !! i = Some r → t !! j = Some s → n_inbox (f i r) = true → n_inbox (f j s) = true →
     n_user r = n_user s → i = j) →
  wf t → wf t' ∧ extends t t'.
Proof.
  intros Hf Hk Hin Hwf.
  assert (He : extends t t').
  { intros id r Hr. exists (f id r). rewrite Hf, Hr. split; [done|by apply Hk]. }
  split; [|done]. split.
  - intros id [r' Hr']. rewrite Hf in Hr'. destruct (t !! id) as [r|] eqn:Hr; [|done].
    destruct (wf_rooted t Hwf id ltac:(by eexists)) as [d Hd]. exists d. by eapply extends_rooted.
  - intros id r p q Hr Hp Hq. rewrite Hf in Hr, Hq.
    apply fmap_Some in Hr as (r0 & Hr & ->). apply fmap_Some in Hq as (q0 & Hq & ->).
    destruct (Hk _ _ Hr) as [Hp1 ->], (Hk _ _ Hq) as [_ ->]. rewrite Hp1 in Hp.
    by eapply (wf_user t Hwf).
  - intros i j r s Hr Hs Hri Hsi Hu. rewrite Hf in Hr, Hs.
    apply fmap_Some in Hr as (r0 & Hr & ->). apply fmap_Some in Hs as (s0 & Hs & ->).
    destruct (Hk _ _ Hr) as [_ Hu1], (Hk _ _ Hs) as [_ Hu2].
    eapply Hin; [done..|congruence].
  - rewrite Hf, (wf_key t Hwf). done.
Qed.

Lemma lookup_clear_inbox p t id :
  clear_inbox p t !! id = (λ r, if p id r then
    {| n_user := n_user r; n_name := n_name r; n_kind := n_kind r; n_descr := n_descr r;
       n_active := n_active r; n_inbox := false; n_parent := n_parent r;
       n_version := n_version r + 1; n_exclude := n_exclude r; n_category := n_category r |}
    else r) <$> t !! id.
Proof. unfold clear_inbox. rewrite map_lookup_imap. by destruct (t !! id). Qed.

(** After clearing the owner has no inbox among the rows [p] selects. *)
Lemma clear_inbox_none p t id r :
  clear_inbox p t !! id = Some r → n_inbox r = true →
  ∃ r0, t !! id = Some r0 ∧ p id r0 = false ∧ r = r0.
Proof.
  rewrite lookup_clear_inbox. intros (r0 & Hr0 & ->)%fmap_Some. destruct (p id r0) eqn:Hp; [done|].
  intros _. by exists r0.
Qed.

Lemma clear_inbox_wf p t : wf t → wf (clear_inbox p t) ∧ extends t (clear_inbox p t).
Proof.
  intros Hwf. eapply (wf_rewrite (λ id r, if p id r then _ else r)); [apply lookup_clear_inbox| | |done].
  - intros id r _. by destruct (p id r).
  - intros i j r s Hr Hs Hi Hj Hu. destruct (p i r), (p j s); try done.
    by eapply (wf_inbox t Hwf).
Qed.

Lemma clear_inbox_size p t : size (clear_inbox p t) = size t.
Proof.
  rewrite <- !size_dom. f_equal. apply set_eq. intros id. rewrite !elem_of_dom, lookup_clear_inbox.
  by rewrite fmap_is_Some.
Qed.

(** A new row under the root or under a row of its user. *)
Lemma wf_insert_new t id r :
  wf t → t !! id = None → id ≠ EmptyString →
  match n_parent r with
  | Some p => ∃ q, t !! p = Some q ∧ n_user q = n_user r
  | None => True
  end →
  (n_inbox r = true → ∀ j s, t !! j = Some s → n_inbox s = true → n_user s ≠ n_user r) →
  wf (<[id := r]> t) ∧ extends t (<[id := r]> t).
Proof.
  intros Hwf Hid Hne Hp Hin.
  assert (He : extends t (<[id := r]> t)).
  { intros i s Hs. exists s. rewrite lookup_insert_ne by congruence. done. }
  split; [|done]. split.
  - intros i [s Hs]. destruct (decide (i = id)) as [->|Hi].
    + rewrite lookup_insert_eq in Hs. simplify_eq.
      destruct (n_parent s) as [p|] eqn:Hps.
      * destruct Hp as (q & Hq & _). destruct (wf_rooted t Hwf p ltac:(by eexists)) as [d Hd].
        exists (S d). eapply rooted_child; [by rewrite lookup_insert_eq|done|by eapply extends_rooted].
      * exists 0. eapply rooted_root; [by rewrite lookup_insert_eq|done].
    + rewrite lookup_insert_ne in Hs by done.
      destruct (wf_rooted t Hwf i ltac:(by eexists)) as [d Hd]. exists d. by eapply extends_rooted.
  - intros i s p q Hs Hps Hq.
    assert (Hpid : i ≠ id → p ≠ id).
    { intros Hi ->. rewrite lookup_insert_ne in Hs by done.
      destruct (wf_rooted t Hwf i ltac:(by eexists)) as [d Hd]. inversion Hd; simplify_eq.
      match goal with H : rooted t _ id |- _ => apply rooted_some in H as [? ?] end. congruence. }
    destruct (decide (i = id)) as [->|Hi].
    + rewrite lookup_insert_eq in Hs. simplify_eq. rewrite Hps in Hp.
      destruct Hp as (q' & Hq' & Hu). rewrite lookup_insert_ne in Hq by congruence. congruence.
    + rewrite lookup_insert_ne in Hs, Hq by (done || by apply not_eq_sym, Hpid). by eapply (wf_user t Hwf).
  - intros i j s1 s2 H1 H2 Hi1 Hi2 Hu.
    destruct (decide (i = id)) as [->|Hi], (decide (j = id)) as [->|Hj]; [done| | |].
    + rewrite lookup_insert_eq in H1. rewrite lookup_insert_ne in H2 by done. simplify_eq.
      by destruct (Hin Hi1 j s2 H2 Hi2).
    + rewrite lookup_insert_eq in H2. rewrite lookup_insert_ne in H1 by done. simplify_eq.
      by destruct (Hin Hi2 i s1 H1 Hi1).
    + rewrite lookup_insert_ne in H1, H2 by done. by eapply (wf_inbox t Hwf).
  - rewrite lookup_insert_ne by done. apply (wf_key t Hwf).
Qed.

(** A row moved to the root or under a row of its user that is not below it. *)
Lemma wf_move t id r r' :
  wf t → t !! id = Some r → n_user r' = n_user r → n_inbox r' = n_inbox r →
  match n_parent r' with
  | Some p => (∃ q, t !! p = Some q ∧ n_user q = n_user r) ∧ ∀ k, ¬ below (λ _, true) t k id p
  | None => True
  end →
  wf (<[id := r']> t).
Proof.
  intros Hwf Hid Hu Hin Hp.
  assert (Hout : ∀ d q, rooted t d q → (∀ k, ¬ below (λ _, true) t k id q) → rooted (<[id := r']> t) d q).
  { induction 1 as [q s Hs Hps|d q s p Hs Hps _ IH]; intros Hb.
    - assert (q ≠ id) by (intros ->; destruct (Hb 0); constructor).
      eapply rooted_root; [by rewrite lookup_insert_ne|done].
    - assert (q ≠ id) by (intros ->; destruct (Hb 0); constructor).
      eapply rooted_child; [by rewrite lookup_insert_ne|done|].
      apply IH. intros k Hk. apply (Hb (S k)). by eapply below_child. }
  assert (Hself : ∃ d, rooted (<[id := r']> t) d id).
  { destruct (n_parent r') as [p|] eqn:Hp'.
    - destruct Hp as [(q & Hq & _) Hb]. destruct (wf_rooted t Hwf p ltac:(by eexists)) as [d Hd].
      exists (S d). eapply rooted_child; [by rewrite lookup_insert_eq|done|by apply Hout].
    - exists 0. eapply rooted_root; [by rewrite lookup_insert_eq|done]. }
  split.
  - intros i [s Hs]. assert (Hi : is_Some (t !! i)).
    { destruct (decide (i = id)) as [->|]; [by eexists|]. rewrite lookup_insert_ne in Hs by done. by eexists. }
    destruct (wf_rooted t Hwf i Hi) as [d Hd]. clear s Hs Hi. induction Hd as [i s Hs Hps|d i s p Hs Hps _ IH].
    + destruct (decide (i = id)) as [->|Hi]; [done|].
      exists 0. eapply rooted_root; [by rewrite lookup_insert_ne|done].
    + destruct (decide (i = id)) as [->|Hi]; [done|]. destruct IH as [d' Hd'].
      exists (S d'). eapply rooted_child; [by rewrite lookup_insert_ne|done|done].
  - intros i s p q Hs Hps Hq.
    assert (Hq' : ∃ q0, t !! p = Some q0 ∧ n_user q0 = n_user q).
    { destruct (decide (p = id)) as [->|]; [rewrite lookup_insert_eq in Hq; simplify_eq; by exists r|].
      rewrite lookup_insert_ne in Hq by done. by exists q. }
    destruct Hq' as (q0 & Hq0 & <-). destruct (decide (i = id)) as [->|Hi].
    + rewrite lookup_insert_eq in Hs. simplify_eq. rewrite Hps in Hp.
      destruct Hp as [(q1 & Hq1 & Hu1) _]. congruence.
    + rewrite lookup_insert_ne in Hs by done. by eapply (wf_user t Hwf).
  - intros i j s1 s2 H1 H2 Hi1 Hi2 Hus.
    assert (Hold : ∀ i s, <[id := r']> t !! i = Some s → n_inbox s = true →
      ∃ s0, t !! i = Some s0 ∧ n_inbox s0 = true ∧ n_user s0 = n_user s).
    { intros x s Hs Hsi. destruct (decide (x = id)) as [->|Hx].
      - rewrite lookup_insert_eq in Hs. simplify_eq. exists r. split_and!; congruence.
      - rewrite lookup_insert_ne in Hs by done. by exists s. }
    destruct (Hold i s1 H1 Hi1) as (a & ? & ? & ?), (Hold j s2 H2 Hi2) as (b & ? & ? & ?).
    eapply (wf_inbox t Hwf); [done..|congruence].
  - rewrite lookup_insert_ne; [apply (wf_key t Hwf)|]. intros ->. rewrite (wf_key t Hwf) in Hid. done.
Qed.

(** Deleting with the cascade leaves no child behind. *)
Lemma wf_delete t ids : wf t → wf (delete_cascade ids t).
Proof.
  intros Hwf.
  assert (Hl : ∀ i s, delete_cascade ids t !! i = Some s ↔
    t !! i = Some s ∧ i ∉ all_descendants (λ _, true) t ids).
  { intros i s. unfold delete_cascade. by rewrite map_lookup_filter_Some. }
  assert (Hroot : ∀ d i, rooted t d i → i ∉ all_descendants (λ _, true) t ids →
    rooted (delete_cascade ids t) d i).
  { induction 1 as [i s Hs Hps|d i s p Hs Hps Hd IH]; intros Hn.
    - eapply rooted_root; [by apply Hl|done].
    - eapply rooted_child; [by apply Hl|done|]. apply IH. intros Hp. apply Hn.
      apply rooted_some in Hd. apply all_descendants_spec in Hp as (k & a & Ha & Hb); [|done..].
      apply all_descendants_spec; [done|by eexists|]. exists (S k), a. split; [done|].
      by eapply below_child. }
  split.
  - intros i [s [Hs Hn]%Hl]. destruct (wf_rooted t Hwf i ltac:(by eexists)) as [d Hd].
    exists d. by apply Hroot.
  - intros i s p q [Hs _]%Hl Hps [Hq _]%Hl. by eapply (wf_user t Hwf).
  - intros i j s1 s2 [H1 _]%Hl [H2 _]%Hl. by eapply (wf_inbox t Hwf).
  - destruct (delete_cascade ids t !! EmptyString) as [s|] eqn:Hs; [|done].
    apply Hl in Hs as [Hs _]. by rewrite (wf_key t Hwf) in Hs.
Qed.

(** ** The handlers keep the forest *)
Lemma NodeTemplate_ind' (P : NodeTemplate → Prop) :
  (∀ n d k i c, Forall P c → P (Template n d k i c)) → ∀ t, P t.
Proof.
  intros HP. fix IH 1. intros [n d k i c]. apply HP.
  induction c as [|x c IHc]; constructor; [apply IH|exact IHc].
Qed.

Lemma insert_row_inv id r d u d' :
  insert_row id r d = Ok (u, d') →
  nodes d !! id = None ∧ nodes d' = <[id := r]> (nodes d) ∧
  match n_parent r with Some p => p = id ∨ is_Some (nodes d !! p) | None => True end.
Proof.
  unfold insert_row. intros Hi. apply M_bind_Ok in Hi as (t & d1 & [= <- <-] & Hi).
  apply M_bind_Ok in Hi as ([] & d1 & H1 & Hi). apply lift_Ok in H1 as [H1 ->].
  apply M_bind_Ok in Hi as ([] & d1 & H2 & Hi). apply lift_Ok in H2 as [H2 ->].
  injection Hi as _ <-. apply throw_if_Ok in H1, H2. apply bool_decide_eq_false in H1.
  split_and!; [by apply eq_None_not_Some|done|].
  destruct (n_parent r) as [p|]; [|done]. apply bool_decide_eq_false in H2.
  destruct (decide (p = id)); [by left|right]. apply not_eq_None_Some. tauto.
Qed.

(** What clearing the inbox leaves of a row. *)
Definition same_but_inbox (r r' : NodeRow) : Prop :=
  n_user r' = n_user r ∧ n_name r' = n_name r ∧ n_kind r' = n_kind r ∧ n_descr r' = n_descr r ∧
  n_active r' = n_active r ∧ n_parent r' = n_parent r ∧ n_exclude r' = n_exclude r ∧
  n_category r' = n_category r.

(** The rows after an import: the old ones and one for every message. *)
Lemma insert_rows_inv cuser l d u d' :
  for_each (λ m, insert_row (m_uuid m) (imported_row cuser m)) l d = Ok (u, d') →
  (∀ m, m ∈ l → nodes d' !! m_uuid m = Some (imported_row cuser m)) ∧
  (∀ x r, nodes d !! x = Some r → nodes d' !! x = Some r) ∧
  (∀ x r, nodes d' !! x = Some r → nodes d !! x = Some r ∨ ∃ m, m ∈ l ∧ x = m_uuid m).
Proof.
  revert d. induction l as [|m l IH]; intros d; cbn [for_each].
  - intros [= _ <-]. split_and!; [set_solver|done|by left].
  - intros ([] & d1 & (Hn & Hd1 & _)%insert_row_inv & (Hin & Hold & Hnew)%IH)%M_bind_Ok.
    rewrite Hd1 in Hold, Hnew. split_and!.
    + intros m' [->|Hm]%elem_of_cons; [|by apply Hin]. apply Hold. by rewrite lookup_insert_eq.
    + intros x r Hx. apply Hold. rewrite lookup_insert_ne; [done|congruence].
    + intros x r [Hx|(m' & Hm' & ->)]%Hnew.
      * destruct (decide (m_uuid m = x)) as [<-|Hne]; [right; exists m; set_solver|].
        rewrite lookup_insert_ne in Hx by done. by left.
      * right. exists m'. set_solver.
Qed.

Lemma saveNodes_rows `{NodeGate} cuser l d u d' :
  saveNodes cuser l d = Ok (u, d') →
  (∀ m, m ∈ l → nodes d' !! m_uuid m = Some (imported_row cuser m)) ∧
  (∀ x r, nodes d !! x = Some r → ∃ r', nodes d' !! x = Some r' ∧ same_but_inbox r r') ∧
  (∀ x r', nodes d' !! x = Some r' → (∃ m, m ∈ l ∧ x = m_uuid m) ∨
     ∃ r, nodes d !! x = Some r ∧ same_but_inbox r r').
Proof.
  unfold saveNodes. intros Hs.
  apply M_bind_Ok in Hs as (v1 & d1 & H1 & Hs).
  assert (d1 = d) as -> by (case_bool_decide; [by injection H1|by apply lift_Ok in H1 as [_ ->]]).
  apply M_bind_Ok in Hs as (v2 & d2 & [_ ->]%lift_Ok & Hs).
  apply M_bind_Ok in Hs as (v3 & d3 & H3 & Hs).
  apply M_bind_Ok in Hs as (v4 & d4 & [_ ->]%lift_Ok & (Hin & Hold & Hnew)%insert_rows_inv).
  assert (Hcl : ∀ x, nodes d3 !! x = nodes d !! x ∨ nodes d3 !! x = clear_inbox (owned_by cuser) (nodes d) !! x).
  { intros x. destruct (Nat.eqb _ 1); injection H3 as _ <-; [by right|by left]. }
  assert (Hsim : ∀ x, match nodes d !! x, nodes d3 !! x with
                      | Some r, Some r' => same_but_inbox r r' | None, None => True | _, _ => False end).
  { intros x. destruct (Hcl x) as [-> | ->]; [by destruct (nodes d !! x)|].
    rewrite lookup_clear_inbox. destruct (nodes d !! x) as [r|]; [|done]. cbn.
    destruct (owned_by cuser x r); by split_and!. }
  split_and!; [done| |].
  - intros x r Hx. specialize (Hsim x). rewrite Hx in Hsim.
    destruct (nodes d3 !! x) as [r'|] eqn:Hr'; [|done]. exists r'. auto.
  - intros x r' [Hx|Hm]%Hnew; [right|by left]. specialize (Hsim x). rewrite Hx in Hsim.
    destruct (nodes d !! x) as [r|]; [|done]. by exists r.
Qed.

Lemma fetcNode_inv cuser uuid d r d' :
  fetcNode cuser uuid d = Ok (r, d') → d' = d ∧ nodes d !! uuid = Some r ∧ n_user r = cuser.
Proof.
  unfold fetcNode, owned_by. cbv [gets mbind M_bind lift mret M_ret].
  destruct (nodes d !! uuid) as [s|]; [|done]. case_bool_decide; [|done]. by intros [= <- <-].
Qed.

Lemma validateNode_inv cuser uuid d u d' :
  validateNode cuser uuid d = Ok (u, d') →
  d' = d ∧ ∃ r, nodes d !! uuid = Some r ∧ n_user r = cuser.
Proof.
  unfold validateNode, owned_by. cbv [gets mbind M_bind lift throw_if].
  destruct (nodes d !! uuid) as [s|]; [|done]. case_bool_decide; cbn; [|done].
  intros [= _ <-]. split; [done|by exists s].
Qed.

(** The table after the inbox of the user was cleared, if at all. *)
Lemma maybe_clear_inv (b : bool) cuser d u d' :
  (if b then modify (set_nodes (clear_inbox (owned_by cuser))) else mret tt) d = Ok (u, d') →
  wf (nodes d) →
  wf (nodes d') ∧ extends (nodes d) (nodes d') ∧ size (nodes d') = size (nodes d) ∧
  (b = true → ∀ j s, nodes d' !! j = Some s → n_inbox s = true → n_user s ≠ cuser).
Proof.
  intros Hm Hwf. destruct b; injection Hm as _ <-; cbn.
  - destruct (clear_inbox_wf (owned_by cuser) _ Hwf). split_and!; [done|done|apply clear_inbox_size|].
    intros _ j s Hs Hi. apply clear_inbox_none in Hs as (r0 & _ & Ho & ->); [|done].
    unfold owned_by in Ho. by apply bool_decide_eq_false in Ho.
  - split_and!; [done|apply extends_refl|done|done].
Qed.

Section preserved.
Context `{NodeGate, NodeIds} (cuser : string).

(** A parent given by name: the root, or a node of the user. *)
Definition good_parent (parent : string) (t : gmap string NodeRow) : Prop :=
  parent = EmptyString ∨ ∃ q, t !! parent = Some q ∧ n_user q = cuser.

Lemma good_parent_extends parent t t' :
  extends t t' → good_parent parent t → good_parent parent t'.
Proof.
  intros He [->|(q & Hq & Hu)]; [by left|right].
  destruct (He _ _ Hq) as (q' & Hq' & _ & Hu'). exists q'. split; congruence.
Qed.

Lemma insert_new_wf id r parent (b : bool) d0 d u d1 :
  (if b then modify (set_nodes (clear_inbox (owned_by cuser))) else mret tt) d0 = Ok (u, d) →
  insert_row id r d = Ok (u, d1) → id ≠ EmptyString →
  wf (nodes d0) → good_parent parent (nodes d0) →
  n_parent r = toStringOrNull parent → n_user r = cuser → n_inbox r = b →
  wf (nodes d1) ∧ extends (nodes d0) (nodes d1) ∧ size (nodes d1) = S (size (nodes d0)) ∧
  nodes d1 !! id = Some r.
Proof.
  intros Hm Hi Hne Hwf Hp Hpar Hu Hin.
  apply maybe_clear_inv in Hm as (Hwf1 & He1 & Hs1 & Hnone); [|done].
  apply insert_row_inv in Hi as (Hid & Hd1 & Hex). rewrite Hd1.
  apply (good_parent_extends _ _ _ He1) in Hp.
  destruct (wf_insert_new (nodes d) id r) as [Hwf2 He2]; [done|done|done| | |].
  - rewrite Hpar. unfold toStringOrNull. case_bool_decide; [done|].
    destruct Hp as [?|(q & Hq & Hqu)]; [done|]. exists q. split; congruence.
  - rewrite Hin, Hu. intros Hb. by apply Hnone.
  - split_and!; [done|by eapply extends_trans|rewrite map_size_insert_None by done; lia|
      by rewrite lookup_insert_eq].
Qed.

Lemma CreateNode_wf m d id d' :
  CreateNode cuser m d = Ok (id, d') → wf (nodes d) →
  wf (nodes d') ∧ extends (nodes d) (nodes d') ∧ size (nodes d') = S (size (nodes d)) ∧
  nodes d' !! id = Some (created_row cuser m).
Proof.
  unfold CreateNode. intros Hc Hwf.
  apply M_bind_Ok in Hc as ([] & d1 & Hv & Hc).
  assert (Hv' : d1 = d ∧ good_parent (m_parent m) (nodes d)).
  { clear Hc. destruct (decide (m_parent m = EmptyString)) as [Hb|Hb].
    { rewrite bool_decide_true in Hv by done. injection Hv as <-. by split; [|left]. }
    rewrite bool_decide_false in Hv by done.
    apply validateNode_inv in Hv as [-> ?]. split; [done|by right]. }
  destruct Hv' as [-> Hpar].
  apply M_bind_Ok in Hc as (f & d1 & [= <- <-] & Hc). cbv zeta in Hc.
  set (nid := if bool_decide (m_uuid m = EmptyString) then _ else _) in Hc.
  assert (Hne : nid ≠ EmptyString).
  { clear Hc Hv. subst nid. case_bool_decide; [apply new_uuid_nonempty|done]. }
  apply M_bind_Ok in Hc as ([] & d1 & Hw & Hc). apply lift_Ok in Hw as [_ ->].
  apply M_bind_Ok in Hc as ([] & d1 & Hcl & Hc).
  apply M_bind_Ok in Hc as ([] & d2 & Hw & Hc). apply lift_Ok in Hw as [_ ->].
  apply M_bind_Ok in Hc as ([] & d2 & Hi & Hc).
  apply M_bind_Ok in Hc as ([] & d3 & [= <-] & [= <- <-]). cbn [nodes].
  by eapply (insert_new_wf nid (created_row cuser m) (m_parent m) (m_inbox m)).
Qed.

(** Adding a template grows the table by the nodes that were counted. *)
Lemma addNodes_wf t parent d u d' :
  addNodes cuser parent t d = Ok (u, d') → wf (nodes d) → good_parent parent (nodes d) →
  wf (nodes d') ∧ extends (nodes d) (nodes d') ∧
  size (nodes d') = size (nodes d) + countTemplateNodes t.
Proof.
  revert parent d u d'. induction t as [name descr kind inbox children IH] using NodeTemplate_ind'.
  intros parent d u d' Ha Hwf Hp. cbn [addNodes] in Ha.
  apply M_bind_Ok in Ha as (id & d1 & Hid & Hch).
  assert (H1 : wf (nodes d1) ∧ extends (nodes d) (nodes d1) ∧ good_parent id (nodes d1) ∧
    size (nodes d1) = size (nodes d) + (if bool_decide (name = EmptyString) then 0 else 1)).
  { clear Hch. case_bool_decide.
    - apply M_bind_Ok in Hid as ([] & d2 & Ht & [= <- <-]). apply lift_Ok in Ht as [_ ->].
      split_and!; [done|apply extends_refl|by left|lia].
    - apply M_bind_Ok in Hid as (i & d2 & [= <- <-] & Hid).
      apply M_bind_Ok in Hid as ([] & d2 & Hcl & Hid).
      apply M_bind_Ok in Hid as ([] & d3 & Hins & [= <- <-]).
      edestruct (insert_new_wf (new_uuid (nodes d)) (template_row cuser (Template name descr kind inbox children) parent)
        parent inbox) as (? & ? & Hs & Hl); [exact Hcl|exact Hins|apply new_uuid_nonempty|done..|].
      split_and!; [done|done| |lia]. right. eexists. by split. }
  destruct H1 as (Hwf1 & He1 & Hgp & Hs1). cbn [countTemplateNodes].
  assert (Hend : wf (nodes d') ∧ extends (nodes d1) (nodes d') ∧
    size (nodes d') = size (nodes d1) + list_sum (countTemplateNodes <$> children)).
  { clear Hid He1 Hs1 Hp Hwf. revert d1 Hch Hwf1 Hgp.
    induction IH as [|c cs Hc _ IHcs]; intros d1 Hch Hwf1 Hgp.
    - injection Hch as _ <-. split_and!; [done|apply extends_refl|cbn; lia].
    - apply M_bind_Ok in Hch as ([] & d2 & Hc1 & Hch).
      apply Hc in Hc1 as (Hwf2 & He2 & Hs2); [|done..].
      apply IHcs in Hch as (Hwf3 & He3 & Hs3); [|done|by eapply good_parent_extends].
      unfold list_sum in *. cbn [fmap list_fmap foldr]. split_and!; [done|by eapply extends_trans|lia]. }
  destruct Hend as (? & ? & ?). split_and!; [done|by eapply extends_trans|lia].
Qed.

Lemma CreateNodesFromTemplate_wf t d u d' :
  CreateNodesFromTemplate cuser t d = Ok (u, d') → wf (nodes d) →
  wf (nodes d') ∧ extends (nodes d) (nodes d') ∧
  size (nodes d') = size (nodes d) + countTemplateNodes t ∧
  reserveAddition (countTemplateNodes t) = Ok tt.
Proof.
  unfold CreateNodesFromTemplate. intros Hc Hwf.
  apply M_bind_Ok in Hc as ([] & d1 & Hw & Hc). apply lift_Ok in Hw as [_ ->].
  apply M_bind_Ok in Hc as ([] & d1 & Hcl & Hc).
  apply maybe_clear_inv in Hcl as (Hwf1 & He1 & Hs1 & _); [|done].
  apply M_bind_Ok in Hc as ([] & d2 & Hw & Hc). apply lift_Ok in Hw as [Hres ->].
  apply M_bind_Ok in Hc as ([] & d2 & Ha & Hc). injection Hc as _ <-. cbn [nodes].
  apply addNodes_wf in Ha as (? & ? & ?); [|done|by left].
  split_and!; [done|by eapply extends_trans|lia|done].
Qed.

Lemma update_version_inv uuid v f d (b : bool) d' :
  update_version cuser uuid v f d = Ok (b, d') →
  if b then ∃ r, nodes d !! uuid = Some r ∧ n_user r = cuser ∧ n_version r = v ∧
                 nodes d' = <[uuid := f r]> (nodes d)
  else d' = d.
Proof.
  unfold update_version, owned_by. intros Hu. apply M_bind_Ok in Hu as (t & d1 & [= <- <-] & Hu).
  destruct (nodes d !! uuid) as [r|]; [|by injection Hu as <- <-].
  destruct (bool_decide (n_user r = cuser)) eqn:Hb1; cbn in Hu; [|by injection Hu as <- <-].
  destruct (bool_decide (n_version r = v)) eqn:Hb2; cbn in Hu; [|by injection Hu as <- <-].
  apply bool_decide_eq_true in Hb1, Hb2. injection Hu as <- <-. cbn. by exists r.
Qed.

Lemma update_once_wf other m k d (b : bool) d' :
  (∀ k t, wf t → wf (other k t)) →
  update_once cuser other m k d = Ok (b, d') → wf (nodes d) → wf (nodes d').
Proof.
  unfold update_once. intros Ho Hu Hwf.
  apply M_bind_Ok in Hu as (ex & d1 & Hf & Hu). apply fetcNode_inv in Hf as (-> & _ & _).
  apply M_bind_Ok in Hu as ([] & d1 & Ht & Hu). apply lift_Ok in Ht as [_ ->].
  apply M_bind_Ok in Hu as ([] & d1 & [= <-] & Hu).
  assert (Hwf1 : wf (nodes (set_nodes (other k) d))) by by apply Ho.
  revert Hu Hwf1. generalize (set_nodes (other k) d). clear d Hwf. intros d Hu Hwf.
  unfold rolled_back in Hu.
  match type of Hu with match ?x with _ => _ end = _ => destruct x as [[[] d2]|] eqn:Hrun end;
    [|by injection Hu as <- <-|done].
  injection Hu as <- <-.
  apply M_bind_Ok in Hrun as ([] & d1 & Hcl & Hrun). apply update_version_inv in Hrun as (r & Hr & Hru & _ & ->).
  assert (Hd1 : wf (nodes d1) ∧ (m_inbox m = true → ∀ j s, nodes d1 !! j = Some s → n_inbox s = true →
    n_user s = cuser → j = m_uuid m)).
  { destruct (m_inbox m); [|by injection Hcl as <-]. injection Hcl as <-. cbn.
    split; [by apply clear_inbox_wf|]. intros _ j s Hs Hi Hsu.
    apply clear_inbox_none in Hs as (s0 & _ & Hp & ->); [|done].
    unfold owned_by in Hp. rewrite bool_decide_true in Hp by done.
    cbn in Hp. apply negb_false_iff in Hp. by apply bool_decide_eq_true in Hp. }
  destruct Hd1 as [Hwf1 Hin].
  eapply (wf_rewrite (λ id s, if decide (id = m_uuid m) then updated_row m s else s) (nodes d1));
    [| | |done].
  - intros id. destruct (decide (id = m_uuid m)) as [->|Hne].
    + by rewrite lookup_insert_eq, Hr.
    + rewrite lookup_insert_ne by done. by destruct (nodes d1 !! id).
  - intros id s _. by destruct (decide _).
  - intros i j s1 s2 H1 H2 Hi1 Hi2 Hus.
    destruct (decide (i = m_uuid m)) as [->|Hi], (decide (j = m_uuid m)) as [->|Hj]; [done| | |].
    + simplify_eq. symmetry. apply (Hin Hi1 j s2); [done|done|congruence].
    + simplify_eq. apply (Hin Hi2 i s1); [done|done|congruence].
    + by eapply (wf_inbox _ Hwf1).
Qed.

Lemma retry_loop_inv {A} (I : Db → Prop) fuel k (once : nat → M Db (option A)) d a d' :
  (∀ k d o d', I d → once k d = Ok (o, d') → I d') →
  I d → retry_loop fuel k once d = Ok (a, d') →
  I d' ∧ ∃ k d1, k < k + fuel ∧ I d1 ∧ once k d1 = Ok (Some a, d').
Proof.
  revert k d. induction fuel as [|fuel IH]; intros k d Ho Hi Hr; [done|].
  cbn [retry_loop] in Hr. apply M_bind_Ok in Hr as (o & d1 & H1 & Hr).
  destruct o as [x|].
  - injection Hr as <- <-. split; [by eapply Ho|]. exists k, d. split_and!; [lia|done|done].
  - assert (Hi1 : I d1) by by eapply Ho.
    destruct (IH _ _ Ho Hi1 Hr) as [? (k' & d2 & ? & ? & ?)]. split; [done|].
    exists k', d2. split_and!; [lia|done|done].
Qed.

Lemma UpdateNode_wf other m d r d' :
  (∀ k t, wf t → wf (other k t)) →
  UpdateNode cuser other m d = Ok (r, d') → wf (nodes d) → wf (nodes d').
Proof.
  unfold UpdateNode. intros Ho Hu Hwf.
  apply M_bind_Ok in Hu as ([] & d1 & Hl & Hu).
  apply (retry_loop_inv (λ d, wf (nodes d))) in Hl as [Hwf1 _]; [| |done].
  - apply M_bind_Ok in Hu as (c & d2 & Hf & Hu). apply fetcNode_inv in Hf as (-> & _ & _).
    apply M_bind_Ok in Hu as ([] & d3 & [= <-] & [= <- <-]). done.
  - intros k d2 o d3 Hw Hon. apply M_bind_Ok in Hon as (b & d4 & Hon & [= <- <-]).
    by eapply update_once_wf.
Qed.
End preserved.

(** No other connection interferes: the handlers that change a user's data
    hold the user's write access (WriteAccess.v). *)
Definition alone (k : nat) (t : gmap string NodeRow) : gmap string NodeRow := t.

(** Row [id] is at or below [a]. *)
Definition at_or_below (t : gmap string NodeRow) (a id : string) : Prop :=
  ∃ k, below (λ _, true) t k a id.

Section moving.
Context `{NodeGate, NodeIds} (cuser : string).

Lemma cycle_check t uuid r p :
  wf t → t !! uuid = Some r → n_user r = cuser → p ≠ EmptyString →
  p ∈ all_descendants (owned_by cuser EmptyString) t [uuid] ↔ at_or_below t uuid p.
Proof.
  intros Hwf Hr Hu Hp. split.
  - intros (k & a & ->%list_elem_of_singleton & Hb)%descendants_sound. exists k.
    clear -Hb. induction Hb; [constructor|by eapply below_child].
  - intros [k Hb].
    assert (Hps : is_Some (t !! p)) by (inversion Hb; subst; by eexists).
    destruct Hps as [s Hs]. apply all_descendants_spec; [done|by eexists|].
    exists k, uuid. split; [by left|]. by eapply (below_owned t cuser k uuid p r s).
Qed.

Lemma not_below_root t uuid r :
  wf t → t !! uuid = Some r → ¬ at_or_below t uuid EmptyString.
Proof.
  intros Hwf Hr [k Hb]. pose proof (wf_key t Hwf) as Hk. inversion Hb; subst; congruence.
Qed.

Lemma MoveNode_run uuid p d r :
  wf (nodes d) → nodes d !! uuid = Some r → n_user r = cuser →
  MoveNode cuser alone uuid p d =
    (if bool_decide (default EmptyString (n_parent r) = p) then Ok (refused Error.NO_CHANGES, d)
     else if bool_decide (p = uuid)
       || (negb (bool_decide (p = EmptyString))
           && bool_decide (p ∈ all_descendants (owned_by cuser EmptyString) (nodes d) [uuid]))
     then Ok (refused Error.CONSTRAINT_FAILED, d)
     else if bool_decide (p = EmptyString)
       || match nodes d !! p with Some q => bool_decide (n_user q = cuser) | None => false end
     then Ok (moved, {| nodes := <[uuid := moved_row (toStringOrNull p) r]> (nodes d);
       epoch := epoch d;
       updates := updates d ++ [(MOVED, Some (uuid, moved_row (toStringOrNull p) r))] |})
     else Throw (server_err Error.INVALID_PARENT)).
Proof.
  intros Hwf Hr Hu. unfold MoveNode. cbn [retry_loop]. unfold move_once.
  assert (Hf : ∀ d0 r0, nodes d0 !! uuid = Some r0 → n_user r0 = cuser →
    fetcNode cuser uuid d0 = Ok (r0, d0)).
  { intros d0 r0 Hr0 Hu0. unfold fetcNode, owned_by. cbv [gets mbind M_bind mret M_ret].
    rewrite Hr0. by rewrite bool_decide_true. }
  cbv [mbind M_bind]. rewrite (Hf d r Hr Hu).
  destruct (bool_decide (default EmptyString (n_parent r) = p)); [done|].
  destruct (bool_decide (p = uuid)); [done|]. cbn [orb]. cbv [gets].
  destruct (negb (bool_decide (p = EmptyString)) && _); [done|].
  assert (Hv : (if bool_decide (p = EmptyString) then mret tt else validateNode cuser p) d =
    if bool_decide (p = EmptyString)
       || match nodes d !! p with Some q => bool_decide (n_user q = cuser) | None => false end
    then Ok (tt, d) else Throw (server_err Error.INVALID_PARENT)).
  { destruct (bool_decide (p = EmptyString)); [done|]. cbn [orb]. unfold validateNode, owned_by.
    cbv [gets mbind M_bind lift throw_if]. destruct (nodes d !! p) as [q|]; [|done].
    by destruct (bool_decide (n_user q = cuser)). }
  rewrite Hv. destruct (bool_decide (p = EmptyString) || _); [|done].
  cbv [modify set_nodes alone]. cbn [nodes epoch updates].
  unfold update_version, owned_by. cbv [gets mbind M_bind modify set_nodes mret M_ret].
  cbn [nodes epoch updates]. rewrite Hr, (bool_decide_true (n_user r = cuser)) by done.
  rewrite bool_decide_true by done. cbn [andb].
  erewrite Hf; [reflexivity| |done]. cbn [nodes]. by rewrite lookup_insert_eq.
Qed.

(** The two conditions of [MoveNode_run], as statements about the tree. *)
Definition refuses (uuid p : string) (t : gmap string NodeRow) : bool :=
  bool_decide (p = uuid)
  || (negb (bool_decide (p = EmptyString))
      && bool_decide (p ∈ all_descendants (owned_by cuser EmptyString) t [uuid])).

Definition accepts (p : string) (t : gmap string NodeRow) : bool :=
  bool_decide (p = EmptyString)
  || match t !! p with Some q => bool_decide (n_user q = cuser) | None => false end.

Lemma refuses_spec uuid p t r :
  wf t → t !! uuid = Some r → n_user r = cuser →
  refuses uuid p t = true ↔ at_or_below t uuid p.
Proof.
  intros Hwf Hr Hu. unfold refuses.
  rewrite orb_true_iff, andb_true_iff, negb_true_iff, !bool_decide_eq_true, bool_decide_eq_false.
  destruct (decide (p = EmptyString)) as [->|Hp].
  - split; [|intros Hx; by destruct (not_below_root _ _ _ Hwf Hr)].
    intros [<-|[? _]]; [|done]. by rewrite (wf_key _ Hwf) in Hr.
  - rewrite (cycle_check _ _ _ _ Hwf Hr Hu Hp). split; [|by right].
    intros [->|[_ ?]]; [|done]. exists 0. constructor.
Qed.

Lemma accepts_spec p t : accepts p t = true ↔ good_parent cuser p t.
Proof.
  unfold accepts, good_parent. rewrite orb_true_iff, bool_decide_eq_true.
  destruct (t !! p) as [q|]; rewrite ?bool_decide_eq_true.
  - split; (intros [?|Hx]; [by left|right]); [by exists q|].
    by destruct Hx as (q' & [= <-] & ?).
  - split; (intros [?|Hx]; [by left|]); [done|by destruct Hx as (q' & ? & ?)].
Qed.

Lemma moved_wf uuid p t r :
  wf t → t !! uuid = Some r → n_user r = cuser →
  refuses uuid p t = false → accepts p t = true →
  wf (<[uuid := moved_row (toStringOrNull p) r]> t).
Proof.
  intros Hwf Hr Hu Hb Hg. apply accepts_spec in Hg.
  assert (Hb' : ¬ at_or_below t uuid p).
  { rewrite <- (refuses_spec uuid p t r) by done. by rewrite Hb. }
  apply (wf_move _ _ r); [done..|]. unfold moved_row, toStringOrNull; cbn.
  case_bool_decide as He; [done|]. split; [|intros k Hk; apply Hb'; by exists k].
  destruct Hg as [?|(q & ? & ?)]; [done|]. exists q. split; congruence.
Qed.

Lemma MoveNode_cases uuid p d r :
  wf (nodes d) → nodes d !! uuid = Some r → n_user r = cuser →
  let m := MoveNode cuser alone uuid p d in
  let same := default EmptyString (n_parent r) = p in
  (same → m = Ok (refused Error.NO_CHANGES, d)) ∧
  (¬ same → at_or_below (nodes d) uuid p → m = Ok (refused Error.CONSTRAINT_FAILED, d)) ∧
  (¬ same → ¬ at_or_below (nodes d) uuid p → ¬ good_parent cuser p (nodes d) →
     m = Throw (server_err Error.INVALID_PARENT)) ∧
  (¬ same → ¬ at_or_below (nodes d) uuid p → good_parent cuser p (nodes d) →
     ∃ d', m = Ok (moved, d') ∧ wf (nodes d') ∧
       nodes d' = <[uuid := moved_row (toStringOrNull p) r]> (nodes d)).
Proof.
  intros Hwf Hr Hu. cbn zeta. rewrite (MoveNode_run uuid p d r Hwf Hr Hu).
  fold (refuses uuid p (nodes d)). fold (accepts p (nodes d)).
  pose proof (refuses_spec uuid p (nodes d) r Hwf Hr Hu) as Hb.
  rewrite <- Hb, <- accepts_spec, !not_true_iff_false.
  split_and!.
  - intros Hs. by rewrite bool_decide_true.
  - intros Hs ->. by rewrite bool_decide_false.
  - intros Hs -> ->. by rewrite bool_decide_false.
  - intros Hs Hr1 Hg. rewrite Hr1, Hg, bool_decide_false by done.
    eexists. split_and!; [done| |done]. by apply moved_wf.
Qed.

Lemma MoveNode_wf uuid p d rep d' :
  MoveNode cuser alone uuid p d = Ok (rep, d') → wf (nodes d) → wf (nodes d').
Proof.
  intros Hm Hwf. assert (Hr : ∃ r, nodes d !! uuid = Some r ∧ n_user r = cuser).
  { unfold MoveNode in Hm. cbn [retry_loop] in Hm. unfold move_once in Hm.
    apply M_bind_Ok in Hm as (x & d1 & Hm & _). apply M_bind_Ok in Hm as (o & d2 & Hm & _).
    apply M_bind_Ok in Hm as (r & d3 & Hf & _). apply fetcNode_inv in Hf as (_ & ? & ?). by exists r. }
  destruct Hr as (r & Hr & Hu). rewrite (MoveNode_run uuid p d r Hwf Hr Hu) in Hm.
  fold (refuses uuid p (nodes d)) in Hm. fold (accepts p (nodes d)) in Hm.
  destruct (bool_decide (default EmptyString (n_parent r) = p)); [by injection Hm as <- <-|].
  destruct (refuses uuid p (nodes d)) eqn:Hb; [by injection Hm as <- <-|].
  destruct (accepts p (nodes d)) eqn:Hg; [|done]. injection Hm as <- <-. by apply moved_wf.
Qed.

Lemma publishFullResync_inv d u d' :
  publishNodeResync cuser d = Ok (u, d') →
  nodes d' = nodes d ∧ ∃ n, epoch d !! cuser = Some n ∧ epoch d' !! cuser = Some (n + 1)%Z ∧
    updates d' = [(FULL_RESYNC (n + 1), None)].
Proof.
  unfold publishNodeResync. intros Hp. apply M_bind_Ok in Hp as (e & d1 & [= <- <-] & Hp).
  destruct (epoch d !! cuser) as [n|] eqn:Hn; [|done]. injection Hp as _ <-. cbn.
  split; [done|]. exists n. by rewrite lookup_insert_eq.
Qed.

Lemma deleteNode_inv uuid d u d' :
  deleteNode cuser uuid d = Ok (u, d') →
  nodes d' = delete_cascade [uuid] (nodes d) ∧
  (∃ r, nodes d !! uuid = Some r ∧ n_user r = cuser) ∧
  ∃ n, epoch d !! cuser = Some n ∧ epoch d' !! cuser = Some (n + 1)%Z ∧
    updates d' = [(FULL_RESYNC (n + 1), None)].
Proof.
  unfold deleteNode. intros Hm. apply M_bind_Ok in Hm as (t & d1 & [= <- <-] & Hm).
  destruct (nodes d !! uuid) as [r|]; [|done].
  apply M_bind_Ok in Hm as ([] & d1 & Ht & Hm). apply lift_Ok in Ht as [Ht ->].
  apply throw_if_Ok, negb_false_iff, bool_decide_eq_true in Ht.
  apply M_bind_Ok in Hm as ([] & d1 & [= <-] & Hm).
  apply publishFullResync_inv in Hm as (-> & n & ? & ? & ?).
  split_and!; [done|by exists r|by exists n].
Qed.

Lemma ResetNodes_wf o d u d' :
  ResetNodes cuser o d = Ok (u, d') → wf (nodes d) → wf (nodes d').
Proof.
  unfold ResetNodes. intros Hm Hwf.
  apply M_bind_Ok in Hm as ([] & d1 & Ht & Hm). apply lift_Ok in Ht as [_ ->].
  apply M_bind_Ok in Hm as ([] & d1 & [= <-] & Hm).
  apply M_bind_Ok in Hm as ([] & d2 & Ht & Hm). apply publishFullResync_inv in Hm as [-> _].
  destruct o as [t|].
  - apply M_bind_Ok in Ht as ([] & d3 & Hl & Ht). apply lift_Ok in Hl as [_ ->].
    eapply addNodes_wf; [exact Ht|by apply wf_delete|by left].
  - injection Ht as <-. by apply wf_delete.
Qed.
End moving.

(** ** Theorems *)

(** A handler of some user that returned. *)
Inductive node_step `{NodeGate, NodeIds} (d d' : Db) : Prop :=
| step_create cuser m id : CreateNode cuser m d = Ok (id, d') → node_step d d'
| step_template cuser t : CreateNodesFromTemplate cuser t d = Ok (tt, d') → node_step d d'
| step_update cuser m r : UpdateNode cuser alone m d = Ok (r, d') → node_step d d'
| step_move cuser uuid p rep : MoveNode cuser alone uuid p d = Ok (rep, d') → node_step d d'
| step_delete cuser uuid : deleteNode cuser uuid d = Ok (tt, d') → node_step d d'
| step_reset cuser o : ResetNodes cuser o d = Ok (tt, d') → node_step d d'.

Lemma node_step_wf `{NodeGate, NodeIds} d d' : node_step d d' → wf (nodes d) → wf (nodes d').
Proof.
  intros [u m id Hs|u t Hs|u m r Hs|u i p rep Hs|u i Hs|u o Hs] Hwf.
  - by apply CreateNode_wf in Hs as (? & _).
  - by apply CreateNodesFromTemplate_wf in Hs as (? & _).
  - eapply UpdateNode_wf; [|exact Hs|exact Hwf]. done.
  - by eapply MoveNode_wf.
  - apply deleteNode_inv in Hs as (-> & _). by apply wf_delete.
  - by eapply ResetNodes_wf.
Qed.

Lemma wf_empty : wf ∅.
Proof. split; [by intros id [? ?]|by intros ????|by intros ????|done]. Qed.

Lemma reachable_wf `{NodeGate, NodeIds} d0 d :
  nodes d0 = ∅ → rtc node_step d0 d → wf (nodes d).
Proof.
  intros He Hr. assert (Hwf : wf (nodes d0)) by (rewrite He; apply wf_empty). clear He.
  induction Hr as [|? ? ? Hs _ IH]; [done|]. by apply IH, (node_step_wf _ _ Hs).
Qed.

(** C7: The nodes stay a forest: after any sequence of successful handlers
    of any users (create, create from a template, update, move, delete,
    reset), starting from an empty table, following the parents from every
    node ends at a root, every node has the user of its parent, and every
    user has at most one inbox. *)
Theorem nodes_stay_a_forest `{NodeGate, NodeIds} d0 d :
  nodes d0 = ∅ → rtc node_step d0 d →
  (∀ id, is_Some (nodes d !! id) → ∃ depth, rooted (nodes d) depth id) ∧
  (∀ id r p q, nodes d !! id = Some r → n_parent r = Some p → nodes d !! p = Some q →
     n_user r = n_user q) ∧
  (∀ i j r s, nodes d !! i = Some r → nodes d !! j = Some s → n_inbox r = true → n_inbox s = true →
     n_user r = n_user s → i = j).
Proof. intros He Hr. destruct (reachable_wf d0 d He Hr) as [H1 H2 H3 _]. done. Qed.

(** C9: [MoveNode] on a node of the user, alone: the same parent is refused
    as no change; a parent at or below the node is refused as a constraint
    error; a parent that does not exist or is another user's throws; every
    other parent is accepted, only the moved row changes, and the table is
    still a forest.  The search for a cycle always terminates with the right
    answer. *)
Theorem MoveNode_correct `{NodeGate, NodeIds} cuser uuid p d r :
  wf (nodes d) → nodes d !! uuid = Some r → n_user r = cuser →
  let m := MoveNode cuser alone uuid p d in
  let same := default EmptyString (n_parent r) = p in
  (same → m = Ok (refused Error.NO_CHANGES, d)) ∧
  (¬ same → at_or_below (nodes d) uuid p → m = Ok (refused Error.CONSTRAINT_FAILED, d)) ∧
  (¬ same → ¬ at_or_below (nodes d) uuid p → ¬ good_parent cuser p (nodes d) →
     m = Throw (server_err Error.INVALID_PARENT)) ∧
  (¬ same → ¬ at_or_below (nodes d) uuid p → good_parent cuser p (nodes d) →
     ∃ d', m = Ok (moved, d') ∧ wf (nodes d') ∧
       nodes d' = <[uuid := moved_row (toStringOrNull p) r]> (nodes d)).
Proof. apply MoveNode_cases. Qed.

(** Creating nodes from a template adds exactly the nodes that were
    reserved: when the handler returns, the plan granted
    [countTemplateNodes] additions and the table has grown by that many
    rows, keeping every node that was there. *)
Theorem template_adds_what_is_reserved `{NodeGate, NodeIds} cuser t d u d' :
  wf (nodes d) → CreateNodesFromTemplate cuser t d = Ok (u, d') →
  reserveAddition (countTemplateNodes t) = Ok tt ∧
  size (nodes d') = size (nodes d) + countTemplateNodes t ∧
  extends (nodes d) (nodes d').
Proof. intros Hwf Hc. by apply CreateNodesFromTemplate_wf in Hc as (_ & ? & ? & ?). Qed.

(** [deleteNode] removes exactly the subtree: a row is left unchanged
    unless it is at or below the deleted node, which must be the user's; the
    user's sync epoch goes up by one, and the only update that is left tells
    every client to load everything. *)
Theorem deleteNode_removes_subtree `{NodeGate, NodeIds} cuser uuid d u d' :
  wf (nodes d) → deleteNode cuser uuid d = Ok (u, d') →
  (∀ id r, nodes d' !! id = Some r ↔ nodes d !! id = Some r ∧ ¬ at_or_below (nodes d) uuid id) ∧
  (∃ r, nodes d !! uuid = Some r ∧ n_user r = cuser) ∧
  ∃ n, epoch d !! cuser = Some n ∧ epoch d' !! cuser = Some (n + 1)%Z ∧
    updates d' = [(FULL_RESYNC (n + 1), None)].
Proof.
  intros Hwf Hd. apply deleteNode_inv in Hd as (-> & Hr & Hn). split; [|done].
  intros id r. unfold delete_cascade. rewrite map_lookup_filter_Some. cbn [fst].
  split; intros [Hid Hx]; (split; [done|]); intros Hb; apply Hx.
  - destruct Hb as [k Hb]. apply all_descendants_spec; [done|by eexists|].
    exists k, uuid. split; [by left|done].
  - apply descendants_sound in Hb as (k & a & ->%list_elem_of_singleton & Hb). by exists k.
Qed.

(** What [CreateNode] stores as active is inverted: a node sent without
    the optional field is stored inactive, and a node sent with the field
    is stored active, even when it says inactive. *)
Theorem CreateNode_active `{NodeGate, NodeIds} cuser m d id d' :
  wf (nodes d) → CreateNode cuser m d = Ok (id, d') →
  ∃ r, nodes d' !! id = Some r ∧
    n_active r = match m_active m with None => false | Some _ => true end.
Proof.
  intros Hwf Hc. apply CreateNode_wf in Hc as (_ & _ & _ & Hl); [|done].
  eexists. split; [exact Hl|]. cbn. unfold create_active. by destruct (m_active m).
Qed.

(** ** The tree [GetNodes] sends *)
Definition kids (p : string) (rows : list (string * NodeRow)) : list string :=
  (filter (λ row : string * NodeRow, default EmptyString (n_parent row.2) = p) rows).*1.

Definition waiting (p : string) (l : list (string * string)) : list string :=
  (filter (λ x : string * string, x.2 = p) l).*1.

Definition children (c : gmap string (list string)) (p : string) : list string := default [] (c !! p).

Lemma children_add_child p q id c :
  children (add_child p id c) q = children c q ++ (if decide (p = q) then [id] else []).
Proof.
  unfold children, add_child. destruct (decide (p = q)) as [->|Hne].
  - by rewrite lookup_insert_eq.
  - by rewrite lookup_insert_ne, app_nil_r.
Qed.

Lemma kids_snoc p rows id r :
  kids p (rows ++ [(id, r)]) =
  kids p rows ++ (if decide (default EmptyString (n_parent r) = p) then [id] else []).
Proof.
  unfold kids. rewrite filter_app, fmap_app. f_equal.
  destruct (decide (default EmptyString (n_parent r) = p)).
  - by rewrite filter_cons_True, filter_nil.
  - by rewrite filter_cons_False, filter_nil.
Qed.

Lemma waiting_snoc p l id q :
  waiting p (l ++ [(id, q)]) = waiting p l ++ (if decide (q = p) then [id] else []).
Proof.
  unfold waiting. rewrite filter_app, fmap_app. f_equal. destruct (decide (q = p)).
  - by rewrite filter_cons_True, filter_nil.
  - by rewrite filter_cons_False, filter_nil.
Qed.

Lemma assemble_rows_inv rows :
  let a := foldl assemble_row
    {| as_children := ∅; as_known := {[EmptyString]}; as_pending := [] |} rows in
  (∀ p, children (as_children a) p ++ waiting p (as_pending a) ≡ₚ kids p rows) ∧
  as_known a = {[EmptyString]} ∪ list_to_set (rows.*1) ∧
  (∀ x, x ∈ as_pending a → ∃ row, row ∈ rows ∧ x.2 = default EmptyString (n_parent row.2)).
Proof.
  induction rows as [|[id r] rows IH] using rev_ind; cbn zeta.
  - cbn. split_and!; [done|set_solver|]. intros x Hx. by apply elem_of_nil in Hx.
  - rewrite foldl_app. cbn [foldl]. destruct IH as (Hk & Hkn & Hp).
    set (a := foldl assemble_row _ rows) in *. unfold assemble_row at 1 2 3 4.
    rewrite fmap_app, list_to_set_app_L. cbn [fmap list_fmap list_to_set fst].
    case_bool_decide as Hpar; cbn [as_children as_known as_pending].
    + split_and!.
      * intros p. rewrite kids_snoc, <- Hk, children_add_child.
        rewrite <- !app_assoc. f_equiv. apply Permutation_app_comm.
      * rewrite Hkn. set_solver.
      * intros x Hx. destruct (Hp x Hx) as (row & ? & ?). exists row. split; [|done].
        apply elem_of_app. by left.
    + split_and!.
      * intros p. rewrite kids_snoc, <- Hk, waiting_snoc. by rewrite app_assoc.
      * rewrite Hkn. set_solver.
      * intros x [Hx|Hx%list_elem_of_singleton]%elem_of_app.
        -- destruct (Hp x Hx) as (row & ? & ?). exists row. split; [|done]. apply elem_of_app. by left.
        -- subst. exists (id, r). split; [apply elem_of_app; right; by left|done].
Qed.

Lemma assemble_pending_ok known l c :
  (∀ x, x ∈ l → x.2 ∈ known) →
  ∃ c', assemble_pending known c l = Ok c' ∧ ∀ p, children c' p = children c p ++ waiting p l.
Proof.
  unfold assemble_pending. revert c. induction l as [|[id q] l IH]; intros c Hl.
  - exists c. split; [done|]. intros p. cbn. by rewrite app_nil_r.
  - cbn [foldl mbind result_bind]. rewrite bool_decide_true by (apply (Hl (id, q)); by left).
    destruct (IH (add_child q id c)) as (c' & -> & Hc'); [intros x Hx; apply Hl; by right|].
    exists c'. split; [done|]. intros p. rewrite Hc', children_add_child, <- app_assoc. f_equal.
    unfold waiting. rewrite filter_cons. cbn. by destruct (decide (q = p)).
Qed.

(** [GetNodes] assembles the whole tree: for any order of the rows in
    which every parent is among the rows, no item is left over (the final
    assert holds), and the children of every item, the root included, are
    exactly the rows that name it as their parent. *)
Theorem GetNodes_complete rows :
  (∀ id r, (id, r) ∈ rows → n_parent r = None ∨ default EmptyString (n_parent r) ∈ rows.*1) →
  ∃ c, GetNodes rows = Ok c ∧ ∀ p, children c p ≡ₚ kids p rows.
Proof.
  intros Hc. destruct (assemble_rows_inv rows) as (Hk & Hkn & Hp).
  unfold GetNodes. set (a := foldl assemble_row _ rows) in *. cbv zeta.
  destruct (assemble_pending_ok (as_known a) (as_pending a) (as_children a)) as (c & Hr & Hch).
  - intros x Hx. apply Hp in Hx as ([id r] & Hin & ->). cbn. rewrite Hkn.
    destruct (Hc id r Hin) as [-> | Hx]; set_solver.
  - exists c. split; [done|]. intros p. rewrite Hch. apply Hk.
Qed.

(** ** Examples *)
#[export] Instance set_ids : NodeIds.
Proof.
  refine {| new_uuid t := fresh ({[EmptyString]} ∪ dom t : gset string) |}.
  - intros t. apply not_elem_of_dom. pose proof (is_fresh ({[EmptyString]} ∪ dom t : gset string)).
    set_solver.
  - intros t. pose proof (is_fresh ({[EmptyString]} ∪ dom t : gset string)). set_solver.
Defined.

#[export] Instance open_gate : NodeGate := {|
  requireWritableForAdd := Ok tt;
  reserveAddition _ := Ok tt
|}.

Definition msg (uuid parent : string) (active : option bool) (inbox : bool) : NodeMsg :=
  {| m_uuid := uuid; m_parent := parent; m_active := active; m_name := "n"; m_kind := 0;
     m_descr := ""; m_exclude := false; m_category := ""; m_inbox := inbox |}.

Definition empty_db : Db := {| nodes := ∅; epoch := {["u" := 7%Z]}; updates := [] |}.

Definition db_a : Db := after (CreateNode "u" (msg "a" "" None true)) empty_db.
Definition db_ab : Db := after (CreateNode "u" (msg "b" "a" (Some false) true)) db_a.
Definition db_abc : Db := after (CreateNode "u" (msg "c" "" None false)) db_ab.

Lemma steps_abc : rtc node_step empty_db db_abc.
Proof.
  destruct (run_after (CreateNode "u" (msg "a" "" None true)) empty_db) as [i1 H1]; [vm_compute; reflexivity|].
  destruct (run_after (CreateNode "u" (msg "b" "a" (Some false) true)) db_a) as [i2 H2]; [vm_compute; reflexivity|].
  destruct (run_after (CreateNode "u" (msg "c" "" None false)) db_ab) as [i3 H3]; [vm_compute; reflexivity|].
  do 3 (eapply rtc_l; [eapply step_create; eassumption|]). apply rtc_refl.
Qed.

Lemma nodes_stay_a_forest_witness :
  (∀ id, is_Some (nodes db_abc !! id) → ∃ depth, rooted (nodes db_abc) depth id) ∧
  size (nodes db_abc) = 3.
Proof.
  split; [|vm_compute; reflexivity].
  exact (proj1 (nodes_stay_a_forest empty_db db_abc eq_refl steps_abc)).
Defined.

Lemma wf_abc : wf (nodes db_abc).
Proof. exact (reachable_wf empty_db db_abc eq_refl steps_abc). Qed.

Definition row_of (uuid : string) (d : Db) : NodeRow :=
  default (created_row "u" (msg "" "" None false)) (nodes d !! uuid).

Lemma row_of_some uuid d : is_Some (nodes d !! uuid) → nodes d !! uuid = Some (row_of uuid d).
Proof. unfold row_of. by intros [r ->]. Qed.

Lemma MoveNode_correct_witness :
  MoveNode "u" alone "a" "b" db_abc = Ok (refused Error.CONSTRAINT_FAILED, db_abc) ∧
  ∃ d', MoveNode "u" alone "a" "c" db_abc = Ok (moved, d').
Proof.
  assert (Ha : nodes db_abc !! "a" = Some (row_of "a" db_abc)).
  { apply row_of_some. vm_compute. by eexists. }
  assert (Hb : at_or_below (nodes db_abc) "a" "b").
  { exists 1. eapply (below_child _ _ _ _ _ (row_of "b" db_abc)).
    - apply row_of_some. vm_compute. by eexists.
    - done.
    - vm_compute. reflexivity.
    - constructor. }
  split.
  - refine (proj1 (proj2 (MoveNode_correct "u" "a" "b" db_abc _ wf_abc Ha _)) _ Hb).
    + vm_compute. reflexivity.
    + vm_compute. discriminate.
  - assert (Hr : is_ok (MoveNode "u" alone "a" "c" db_abc) = true) by (vm_compute; reflexivity).
    destruct (MoveNode_correct "u" "a" "c" db_abc _ wf_abc Ha ltac:(vm_compute; reflexivity))
      as (_ & _ & _ & Hm).
    destruct Hm as (d' & Hm & _).
    + vm_compute. discriminate.
    + intros Hx. apply (refuses_spec "u" "a" "c" _ _ wf_abc Ha) in Hx; [|vm_compute; reflexivity].
      vm_compute in Hx. discriminate Hx.
    + right. exists (row_of "c" db_abc). split; [|vm_compute; reflexivity].
      apply row_of_some. vm_compute. by eexists.
    + by exists d'.
Defined.

Definition two_nodes : NodeTemplate :=
  Template "" "" 0 false [Template "x" "" 0 true [Template "y" "" 0 false []]].

Lemma template_adds_what_is_reserved_witness :
  size (nodes (after (CreateNodesFromTemplate "u" two_nodes) db_abc)) = 5.
Proof.
  destruct (run_after (CreateNodesFromTemplate "u" two_nodes) db_abc) as [u H]; [vm_compute; reflexivity|].
  destruct (template_adds_what_is_reserved "u" two_nodes db_abc u _ wf_abc H) as (_ & Hs & _).
  rewrite Hs. vm_compute. reflexivity.
Defined.

Lemma deleteNode_removes_subtree_witness :
  let d' := after (deleteNode "u" "a") db_abc in
  (∃ n, epoch d' !! "u" = Some (n + 1)%Z) ∧ size (nodes d') = 1.
Proof.
  cbn zeta. split; [|vm_compute; reflexivity].
  destruct (run_after (deleteNode "u" "a") db_abc) as [u H]; [vm_compute; reflexivity|].
  destruct (deleteNode_removes_subtree "u" "a" db_abc u _ wf_abc H) as (_ & _ & n & _ & Hn & _).
  exists n. exact Hn.
Defined.

Lemma CreateNode_active_witness :
  ∃ id r, nodes (after (CreateNode "u" (msg "b" "a" (Some false) true)) db_a) !! id = Some r
    ∧ n_active r = true.
Proof.
  destruct (run_after (CreateNode "u" (msg "b" "a" (Some false) true)) db_a) as [id H];
    [vm_compute; reflexivity|].
  assert (Hwf : wf (nodes db_a)).
  { destruct (run_after (CreateNode "u" (msg "a" "" None true)) empty_db) as [i H1];
      [vm_compute; reflexivity|].
    exact (node_step_wf _ _ (step_create _ _ _ _ _ H1) wf_empty). }
  destruct (CreateNode_active "u" (msg "b" "a" (Some false) true) db_a id _ Hwf H) as (r & Hr & Ha).
  exists id, r. split; [exact Hr|exact Ha].
Defined.

Lemma GetNodes_complete_witness :
  ∃ c, GetNodes [("b", row_of "b" db_abc); ("a", row_of "a" db_abc)] = Ok c ∧
    children c "a" ≡ₚ kids "a" [("b", row_of "b" db_abc); ("a", row_of "a" db_abc)].
Proof.
  destruct (GetNodes_complete [("b", row_of "b" db_abc); ("a", row_of "a" db_abc)]) as (c & Hc & Hk).
  - intros id r [Hx|[Hx|Hx%elem_of_nil]%elem_of_cons]%elem_of_cons; [right|left|done];
      injection Hx as -> ->; [|vm_compute; reflexivity].
    replace (default EmptyString (n_parent (row_of "b" db_abc))) with "a"%string by (vm_compute; reflexivity).
    right. left.
  - exists c. split; [exact Hc|exact (Hk "a"%string)].
Defined.

(** Without the write access a cycle is possible: two moves, of [b]
    under [c] and of [c] under [b], each pass the search for a cycle when
    the second runs between the first one's search and its update; both
    succeed and neither node reaches a root any more. *)
Theorem concurrent_moves_make_cycle :
  let between (k : nat) (t : gmap string NodeRow) : gmap string NodeRow :=
    nodes (after (MoveNode "u" alone "c" "b") {| nodes := t; epoch := ∅; updates := [] |}) in
  let d' := after (MoveNode "u" between "b" "c") db_abc in
  is_ok (MoveNode "u" between "b" "c" db_abc) = true ∧
  n_parent (row_of "b" d') = Some "c"%string ∧ n_parent (row_of "c" d') = Some "b"%string.
Proof. vm_compute. done. Qed.
