(* ===== verification/PlanLimits.v ===== *)
(** * The limits of a plan

    The counters of [UserContext] in src/src/backend/lib/UserContext.cpp that
    bound what a user may add: reserving before an addition, committing or
    releasing the reservation, deletes with their grace, and the refresh
    that counts what the database holds.  The database counts, the clock and
    the random delay are arguments. *)
From S2P Require Import Prelude Calendar.

#[local] Open Scope Z_scope.
#[local] Open Scope nextapp_scope.

(** [UserContext::PlanResource] *)
Inductive PlanResource := DEVICE | NODE | ACTION | WORK_SESSION | TIME_BLOCK.

#[export] Instance PlanResource_eq_dec : EqDecision PlanResource.
Proof. solve_decision. Defined.

(** [UserContext::PlanCounter]; the three counts are [uint32_t]. *)
Record PlanCounter := {
  used : Z;
  reserved : Z;
  allowed : Z;
  stale_after_delete : bool
}.

(** [UserContext::PlanUsageState] *)
Record PlanUsage := {
  loaded : bool;
  refresh_in_progress : bool;
  next_refresh_at : Z;
  counters : PlanResource → PlanCounter
}.

(** The limits of [Plan]. *)
Record Plan := {
  max_devices : Z;
  max_nodes : Z;
  nodes_monthly_growth : Z;
  max_actions : Z;
  actions_monthly_growth : Z;
  max_worksessions : Z;
  work_sessions_monthly_growth : Z;
  max_time_blocks : Z;
  time_blocks_monthly_growth : Z
}.

(** [SessionManager::loadPlans]: the columns are 64 bit numbers, the
    members are [uint16_t], the growths [uint32_t]. *)
Definition loadPlan (row : Plan) : Plan :=
  {| max_devices := wrap 16 (max_devices row);
     max_nodes := wrap 16 (max_nodes row);
     nodes_monthly_growth := u32 (nodes_monthly_growth row);
     max_actions := wrap 16 (max_actions row);
     actions_monthly_growth := u32 (actions_monthly_growth row);
     max_worksessions := wrap 16 (max_worksessions row);
     work_sessions_monthly_growth := u32 (work_sessions_monthly_growth row);
     max_time_blocks := wrap 16 (max_time_blocks row);
     time_blocks_monthly_growth := u32 (time_blocks_monthly_growth row) |}.

(** [UserContext::ResourceReservation]; [r_owner] is [owner_ != nullptr]. *)
Record Reservation := {
  r_owner : bool;
  r_resource : PlanResource;
  r_amount : Z;
  r_committed : bool
}.

Definition u32_max : Z := 2 ^ 32 - 1.

(** [elapsedWholeMonths]: seconds since the epoch; [int] arithmetic on
    unsigned months wraps and is read back as [int]. *)
Definition to_int (z : Z) : Z := let m := u32 z in if m <? 2 ^ 31 then m else m - 2 ^ 32.

Definition elapsedWholeMonths `{CivilCalendar} (createdAt now : Z) : Z :=
  if now <=? createdAt then 0 else
  let created_ymd := ymd_of_days (createdAt / 86400) in
  let now_ymd := ymd_of_days (now / 86400) in
  let months := to_int ((year now_ymd - year created_ymd) * 12
                        + u32 (month now_ymd - month created_ymd)) in
  let months := if day now_ymd <? day created_ymd then months - 1 else months in
  u32 (Z.max months 0).

(** The lambda [compute_allowed] of [loadPlanUsageState_]. *)
Definition compute_allowed (months base growth : Z) : Z :=
  if base =? 0 then 0 else Z.min (u64 (base + growth * months)) u32_max.

Definition allowed_for (p : Plan) (months : Z) (r : PlanResource) : Z :=
  match r with
  | DEVICE => max_devices p
  | NODE => compute_allowed months (max_nodes p) (nodes_monthly_growth p)
  | ACTION => compute_allowed months (max_actions p) (actions_monthly_growth p)
  | WORK_SESSION => compute_allowed months (max_worksessions p) (work_sessions_monthly_growth p)
  | TIME_BLOCK => compute_allowed months (max_time_blocks p) (time_blocks_monthly_growth p)
  end.

(** A limit that is a multiple of 65536 is loaded as 0, which means that
    there is no limit. *)
Lemma large_limit_is_no_limit row months :
  (2 ^ 16 | max_nodes row) → allowed_for (loadPlan row) months NODE = 0.
Proof.
  intros Hd. cbn [allowed_for loadPlan max_nodes]. unfold wrap.
  by rewrite (proj2 (Z.mod_divide (max_nodes row) (2 ^ 16) ltac:(lia)) Hd).
Qed.

Section plan.
(** [config().payment.enable_plan] and [config().svr.plan_delete_grace_window] *)
Context (enable_plan : bool) (grace_window : Z).

Definition set_counter (r : PlanResource) (f : PlanCounter → PlanCounter) (u : PlanUsage) : PlanUsage :=
  {| loaded := loaded u; refresh_in_progress := refresh_in_progress u;
     next_refresh_at := next_refresh_at u;
     counters := λ r', if decide (r' = r) then f (counters u r) else counters u r' |}.

Definition set_refresh (b : bool) (next : Z) (u : PlanUsage) : PlanUsage :=
  {| loaded := loaded u; refresh_in_progress := b; next_refresh_at := next; counters := counters u |}.

(** [allowedWithGrace_] *)
Definition allowedWithGrace (c : PlanCounter) : Z :=
  if allowed c =? 0 then 0
  else Z.min (allowed c + (if stale_after_delete c then grace_window else 0)) u32_max.

(** ** Refreshing *)

(** [loadPlanUsageState_]; [count] is what the database holds and [jitter]
    the random minutes. *)
Definition loadPlanUsageState (plan : option Plan) (months now jitter : Z)
    (count : PlanResource → Z) (u : PlanUsage) : PlanUsage :=
  match plan with
  | Some p =>
      if enable_plan then
        {| loaded := true; refresh_in_progress := false;
           next_refresh_at := now + 24 * 3600 + 60 * jitter;
           counters := λ r, {| used := u32 (Z.max (count r) 0); reserved := reserved (counters u r);
                               allowed := allowed_for p months r; stale_after_delete := false |} |}
      else
        {| loaded := true; refresh_in_progress := false; next_refresh_at := now + 24 * 3600;
           counters := λ _, {| used := 0; reserved := 0; allowed := 0; stale_after_delete := false |} |}
  | None =>
      {| loaded := true; refresh_in_progress := false; next_refresh_at := now + 24 * 3600;
         counters := λ _, {| used := 0; reserved := 0; allowed := 0; stale_after_delete := false |} |}
  end.

(** [refreshPlanUsageNow]: [load] is [None] when the database fails. *)
Definition refreshPlanUsageNow (now : Z) (load : option (PlanUsage → PlanUsage)) (u : PlanUsage) : PlanUsage :=
  if refresh_in_progress u then u
  else
    let u := set_refresh true (next_refresh_at u) u in
    match load with
    | Some f => f u
    | None => set_refresh false (now + 5 * 60) u
    end.

(** ** Reserving *)

(** [reserveAddition]: the counters it leaves, also when it throws, and
    whether it spawned a refresh. *)
Definition reserveAddition (now amount : Z) (r : PlanResource) (u : PlanUsage)
    : PlanUsage * bool * result Reservation :=
  if (amount =? 0) || negb enable_plan then
    (u, false, Ok {| r_owner := false; r_resource := DEVICE; r_amount := 0; r_committed := false |})
  else if negb (loaded u) then (u, false, Throw (server_err Error.TEMPORATY_FAILURE))
  else
    let spawn := (next_refresh_at u <=? now) && negb (refresh_in_progress u) in
    let u := if spawn then set_refresh true (next_refresh_at u) u else u in
    let counter := counters u r in
    let effective_allowed := allowedWithGrace counter in
    if negb (effective_allowed =? 0) && (effective_allowed <? used counter + reserved counter + amount)
    then (u, spawn, Throw (server_err Error.LIMIT_EXCEEDED))
    else
      (set_counter r (λ c, {| used := used c; reserved := u32 (reserved c + amount);
                              allowed := allowed c; stale_after_delete := stale_after_delete c |}) u,
       spawn,
       Ok {| r_owner := true; r_resource := r; r_amount := amount; r_committed := false |}).

Definition commitReservation (r : PlanResource) (amount : Z) : PlanUsage → PlanUsage :=
  set_counter r (λ c,
    {| used := u32 (used c + amount);
       reserved := if amount <=? reserved c then reserved c - amount else 0;
       allowed := allowed c; stale_after_delete := stale_after_delete c |}).

Definition releaseReservation (r : PlanResource) (amount : Z) : PlanUsage → PlanUsage :=
  set_counter r (λ c,
    {| used := used c;
       reserved := if amount <=? reserved c then reserved c - amount else 0;
       allowed := allowed c; stale_after_delete := stale_after_delete c |}).

(** [ResourceReservation::commit] and [ResourceReservation::release]; the
    destructor releases. *)
Definition commit (x : Reservation) (u : PlanUsage) : Reservation * PlanUsage :=
  if r_owner x && negb (r_committed x)
  then ({| r_owner := r_owner x; r_resource := r_resource x; r_amount := r_amount x;
           r_committed := true |}, commitReservation (r_resource x) (r_amount x) u)
  else (x, u).

Definition release (x : Reservation) (u : PlanUsage) : Reservation * PlanUsage :=
  ({| r_owner := false; r_resource := r_resource x; r_amount := r_amount x;
      r_committed := r_committed x |},
   if r_owner x && negb (r_committed x) then releaseReservation (r_resource x) (r_amount x) u else u).

(** ** Deleting *)
Definition onDeleted (r : PlanResource) (amount : Z) (u : PlanUsage) : PlanUsage :=
  if negb enable_plan || (amount =? 0) then u
  else set_counter r (λ c,
    {| used := if amount <=? used c then used c - amount else 0; reserved := reserved c;
       allowed := allowed c; stale_after_delete := false |}) u.

Definition onMassDelete (rs : list PlanResource) (u : PlanUsage) : PlanUsage :=
  if negb enable_plan then u
  else foldl (λ u r, set_counter r (λ c,
    {| used := used c; reserved := reserved c; allowed := allowed c; stale_after_delete := true |}) u) u rs.

(** ** Histories *)

(** The counters and the reservations that are alive. *)
Record Ledger := { usage : PlanUsage; live : list Reservation }.

(** One operation between two refreshes; amounts are [uint32_t]. *)
Inductive plan_step : Ledger → Ledger → Prop :=
| step_reserve now amount r l u spawn x :
    0 ≤ amount < 2 ^ 32 →
    reserveAddition now amount r (usage l) = (u, spawn, Ok x) →
    plan_step l {| usage := u; live := x :: live l |}
| step_refused now amount r l u spawn e :
    reserveAddition now amount r (usage l) = (u, spawn, Throw e) →
    plan_step l {| usage := u; live := live l |}
| step_commit l l1 l2 x x' u :
    live l = l1 ++ x :: l2 → commit x (usage l) = (x', u) →
    plan_step l {| usage := u; live := l1 ++ x' :: l2 |}
| step_destroy l l1 l2 x x' u :
    live l = l1 ++ x :: l2 → release x (usage l) = (x', u) →
    plan_step l {| usage := u; live := l1 ++ l2 |}
| step_deleted r amount l :
    0 ≤ amount → plan_step l {| usage := onDeleted r amount (usage l); live := live l |}
| step_mass rs l :
    plan_step l {| usage := onMassDelete rs (usage l); live := live l |}.

(** What the live reservations of a resource still hold. *)
Definition holds (r : PlanResource) (x : Reservation) : Z :=
  if r_owner x && negb (r_committed x) && bool_decide (r_resource x = r) then r_amount x else 0.

Definition held (r : PlanResource) (l : list Reservation) : Z :=
  foldr (λ x n, holds r x + n) 0 l.

(** What the counter of a limited resource satisfies, given the bound [b]. *)
Definition counted (b : Z) (r : PlanResource) (l : Ledger) : Prop :=
  let c := counters (usage l) r in
  Forall (λ x, 0 ≤ r_amount x) (live l) ∧
  0 ≤ used c ∧ reserved c = held r (live l) ∧ used c + reserved c ≤ b.

Lemma held_app r l1 l2 : held r (l1 ++ l2) = held r l1 + held r l2.
Proof. induction l1; cbn; [done|]. unfold held in *. lia. Qed.

Lemma held_cons r x l : held r (x :: l) = holds r x + held r l.
Proof. done. Qed.

Lemma held_nonneg r l : Forall (λ x, 0 ≤ r_amount x) l → 0 ≤ held r l.
Proof.
  induction 1 as [|x l Hx _ IH]; [done|]. rewrite held_cons. unfold holds. case_if; lia.
Qed.

Lemma allowedWithGrace_le c : 0 ≤ grace_window →
  allowedWithGrace c ≤ Z.min (allowed c + grace_window) u32_max ∨ allowed c = 0.
Proof.
  intros Hg. unfold allowedWithGrace. destruct (Z.eqb_spec (allowed c) 0); [by right|left].
  destruct (stale_after_delete c); lia.
Qed.

Lemma allowedWithGrace_pos c : 0 ≤ grace_window → 0 < allowed c → 0 < allowedWithGrace c.
Proof.
  intros Hg Ha. unfold allowedWithGrace, u32_max. destruct (Z.eqb_spec (allowed c) 0); [lia|].
  destruct (stale_after_delete c); lia.
Qed.

(** The operations change only the counter they name, and no operation
    between refreshes changes what is allowed. *)
Lemma set_counter_at r f u r' :
  counters (set_counter r f u) r' = if decide (r' = r) then f (counters u r) else counters u r'.
Proof. done. Qed.

Lemma onMassDelete_counters rs u r :
  ∃ b, counters (onMassDelete rs u) r =
    {| used := used (counters u r); reserved := reserved (counters u r);
       allowed := allowed (counters u r); stale_after_delete := b |}.
Proof.
  unfold onMassDelete. destruct (negb enable_plan).
  { exists (stale_after_delete (counters u r)). by destruct (counters u r). }
  revert u. induction rs as [|r0 rs IH]; intros u; cbn [foldl].
  - exists (stale_after_delete (counters u r)). by destruct (counters u r).
  - destruct (IH (set_counter r0 (λ c, {| used := used c; reserved := reserved c;
      allowed := allowed c; stale_after_delete := true |}) u)) as [b Hb].
    exists b. rewrite Hb, set_counter_at. destruct (decide (r = r0)) as [->|]; done.
Qed.

(** A reservation either changes no counter, or it was granted and adds to
    the one counter it names. *)
Lemma reserveAddition_spec now amount r u u' spawn out :
  reserveAddition now amount r u = (u', spawn, out) →
  ((∀ r', counters u' r' = counters u r') ∧
   (∀ x, out = Ok x → r_owner x = false ∧ r_amount x = 0)) ∨
  (out = Ok {| r_owner := true; r_resource := r; r_amount := amount; r_committed := false |} ∧
   (allowedWithGrace (counters u r) = 0 ∨
    used (counters u r) + reserved (counters u r) + amount ≤ allowedWithGrace (counters u r)) ∧
   ∀ r', counters u' r' = if decide (r' = r) then
     {| used := used (counters u r); reserved := u32 (reserved (counters u r) + amount);
        allowed := allowed (counters u r); stale_after_delete := stale_after_delete (counters u r) |}
     else counters u r').
Proof.
  unfold reserveAddition.
  destruct ((amount =? 0) || negb enable_plan); [intros [= <- <- <-]; left; naive_solver|].
  destruct (loaded u); cbn [negb]; [|intros [= <- <- <-]; left; naive_solver].
  set (u1 := if (next_refresh_at u <=? now) && negb (refresh_in_progress u) then _ else _).
  assert (Hc : ∀ x, counters u1 x = counters u x) by (intros x; subst u1; by case_if).
  rewrite !Hc. destruct (negb _ && _) eqn:Hlim; intros [= <- <- <-]; [left; naive_solver|right].
  split_and!; [done| |intros r'; by rewrite set_counter_at, !Hc].
  apply andb_false_iff in Hlim as [Hl|Hl]; [left|right].
  - apply negb_false_iff in Hl. by apply Z.eqb_eq.
  - by apply Z.ltb_ge in Hl.
Qed.

(** Settling a reservation takes what it holds out of [reserved]; a commit
    moves it to [used]. *)
Lemma commit_spec x u x' u' r :
  commit x u = (x', u') →
  r_amount x' = r_amount x ∧ holds r x' = 0 ∧
  ((counters u' r = counters u r ∧ holds r x = 0) ∨
   counters u' r = {| used := u32 (used (counters u r) + holds r x);
     reserved := if holds r x <=? reserved (counters u r) then reserved (counters u r) - holds r x else 0;
     allowed := allowed (counters u r); stale_after_delete := stale_after_delete (counters u r) |}).
Proof.
  unfold commit, holds. destruct (r_owner x) eqn:Ho, (r_committed x) eqn:Hcm; cbn [negb andb];
    intros [= <- <-]; cbn [r_owner r_committed r_amount negb andb]; rewrite ?Ho, ?Hcm;
    cbn [negb andb]; (split_and!; [done|done|]); try (by left).
  unfold commitReservation. rewrite set_counter_at.
  destruct (decide (r = r_resource x)) as [->|Hne].
  - rewrite bool_decide_true by done. by right.
  - rewrite bool_decide_false by congruence. by left.
Qed.

Lemma release_spec x u x' u' r :
  release x u = (x', u') →
  (counters u' r = counters u r ∧ holds r x = 0) ∨
  counters u' r = {| used := used (counters u r);
     reserved := if holds r x <=? reserved (counters u r) then reserved (counters u r) - holds r x else 0;
     allowed := allowed (counters u r); stale_after_delete := stale_after_delete (counters u r) |}.
Proof.
  unfold release, holds. destruct (r_owner x), (r_committed x); cbn [negb andb];
    intros [= <- <-]; try (by left).
  unfold releaseReservation. rewrite set_counter_at.
  destruct (decide (r = r_resource x)) as [->|Hne].
  - rewrite bool_decide_true by done. by right.
  - rewrite bool_decide_false by congruence. by left.
Qed.

Lemma onDeleted_spec r0 amount u r :
  0 ≤ amount →
  ∃ n b, 0 ≤ n ∧ counters (onDeleted r0 amount u) r =
    {| used := if decide (n ≤ used (counters u r)) then used (counters u r) - n else 0;
       reserved := reserved (counters u r); allowed := allowed (counters u r);
       stale_after_delete := b |} ∨
  counters (onDeleted r0 amount u) r = counters u r.
Proof.
  intros Ha. unfold onDeleted. destruct (negb enable_plan || _).
  { exists 0, true. by right. }
  rewrite set_counter_at. destruct (decide (r = r0)) as [->|]; [|exists 0, true; by right].
  exists amount, false. left. split; [done|]. f_equal.
  destruct (decide _), (Z.leb_spec amount (used (counters u r0))); lia.
Qed.

Lemma held_split r l1 x l2 : held r (l1 ++ x :: l2) = held r l1 + holds r x + held r l2.
Proof. rewrite held_app, held_cons. lia. Qed.

Lemma holds_range r x : 0 ≤ r_amount x → 0 ≤ holds r x ≤ r_amount x.
Proof. unfold holds. case_if; lia. Qed.

Lemma counted_step b r l l' :
  plan_step l l' → 0 ≤ grace_window → 0 < allowed (counters (usage l) r) →
  Z.min (allowed (counters (usage l) r) + grace_window) u32_max ≤ b ≤ u32_max →
  counted b r l →
  counted b r l' ∧ allowed (counters (usage l') r) = allowed (counters (usage l) r).
Proof.
  intros Hs Hg Hal Hb (Hnn & Hu & Hr & Hle).
  pose proof (allowedWithGrace_le (counters (usage l) r) Hg) as Heff.
  pose proof (allowedWithGrace_pos (counters (usage l) r) Hg Hal) as Hpos.
  pose proof (held_nonneg r (live l) Hnn) as Hh. unfold u32_max in *. unfold counted.
  revert Hal Hb Hnn Hu Hr Hle Heff Hpos Hh.
  destruct Hs as [now amount r0 l0 u spawn x Ham Hres|now amount r0 l0 u spawn e Hres
    |l0 l1 l2 x x' u Hl Hc|l0 l1 l2 x x' u Hl Hc|r0 amount l0 Ham|rs l0];
    intros Hal Hb Hnn Hu Hr Hle Heff Hpos Hh; cbn [usage live].
  - apply reserveAddition_spec in Hres as [[Hsame Hx]|(Hx & Hlim & Hch)].
    + destruct (Hx x eq_refl) as [Ho Ha]. rewrite Hsame, held_cons.
      assert (holds r x = 0) as -> by (unfold holds; by rewrite Ho).
      split_and!; try lia. constructor; [lia|done].
    + injection Hx as ->. rewrite Hch, held_cons. unfold holds at 1. cbn [r_owner r_committed r_resource r_amount negb andb].
      split_and!; try (constructor; [cbn; lia|done]).
      all: destruct (decide (r = r0)) as [->|Hne];
        [rewrite ?bool_decide_true by done|rewrite ?bool_decide_false by congruence];
        cbn [used reserved allowed]; rewrite ?wrap_small by lia; lia.
  - apply reserveAddition_spec in Hres as [[Hsame _]|([=] & _)]. rewrite Hsame. done.
  - rewrite Hl in *. apply Forall_app in Hnn as [Hn1 Hn2]. inversion Hn2 as [|? ? Hx Hn3]; subst.
    apply (commit_spec _ _ _ _ r) in Hc as (Ha & Hz & Hc).
    rewrite !held_split in *. rewrite Hz.
    pose proof (holds_range r x Hx). pose proof (held_nonneg r l1 Hn1). pose proof (held_nonneg r l2 Hn3).
    assert (Forall (λ x, 0 ≤ r_amount x) (l1 ++ x' :: l2)).
    { apply Forall_app. split; [done|]. constructor; [by rewrite Ha|done]. }
    destruct Hc as [[-> Hz']| ->]; cbn [used reserved allowed]; [split_and!; (done || lia)|].
    destruct (Z.leb_spec (holds r x) (reserved (counters (usage l0) r))); [|lia].
    rewrite wrap_small by lia. split_and!; (done || lia).
  - rewrite Hl in *. apply Forall_app in Hnn as [Hn1 Hn2]. inversion Hn2 as [|? ? Hx Hn3]; subst.
    apply (release_spec _ _ _ _ r) in Hc. rewrite held_split in *. rewrite held_app.
    pose proof (holds_range r x Hx). pose proof (held_nonneg r l1 Hn1). pose proof (held_nonneg r l2 Hn3).
    assert (Forall (λ x, 0 ≤ r_amount x) (l1 ++ l2)) by by apply Forall_app.
    destruct Hc as [[-> Hz']| ->]; cbn [used reserved allowed]; [split_and!; (done || lia)|].
    destruct (Z.leb_spec (holds r x) (reserved (counters (usage l0) r))); [|lia].
    split_and!; (done || lia).
  - destruct (onDeleted_spec r0 amount (usage l0) r Ham) as (n & b' & [[Hn ->]| ->]); [|done].
    cbn [used reserved allowed]. destruct (decide _); split_and!; (done || lia).
  - destruct (onMassDelete_counters rs (usage l0) r) as [b' ->]. cbn [used reserved allowed]. done.
Qed.

Lemma counted_steps b r l l' :
  rtc plan_step l l' → 0 ≤ grace_window → 0 < allowed (counters (usage l) r) →
  Z.min (allowed (counters (usage l) r) + grace_window) u32_max ≤ b ≤ u32_max →
  counted b r l →
  counted b r l' ∧ allowed (counters (usage l') r) = allowed (counters (usage l) r).
Proof.
  induction 1 as [|l l1 l' Hs _ IH]; intros Hg Hal Hb Hc; [done|].
  destruct (counted_step b r l l1 Hs Hg Hal Hb Hc) as [Hc1 Ha1].
  rewrite <- Ha1 in *. by apply IH.
Qed.

(** C34: A plan's limit holds between two refreshes whatever happens: from
    counters with nothing reserved, after any sequence of reservations
    (granted or refused), commits, releases by the destructor (also of
    settled reservations), deletes and mass deletes, what is used and
    reserved of a limited resource is at most the allowance and the grace
    window, or what was used at the start; and [reserved] is exactly what
    the live, unsettled reservations hold. *)
Theorem plan_limit_holds r u l :
  0 ≤ grace_window → 0 < allowed (counters u r) →
  0 ≤ used (counters u r) < 2 ^ 32 → reserved (counters u r) = 0 →
  rtc plan_step {| usage := u; live := [] |} l →
  used (counters (usage l) r) + reserved (counters (usage l) r)
    ≤ Z.max (Z.min (allowed (counters u r) + grace_window) u32_max) (used (counters u r)) ∧
  reserved (counters (usage l) r) = held r (live l) ∧
  allowed (counters (usage l) r) = allowed (counters u r).
Proof.
  intros Hg Hal Hu Hr Hs.
  destruct (counted_steps (Z.max (Z.min (allowed (counters u r) + grace_window) u32_max) (used (counters u r)))
    r _ _ Hs) as [(_ & _ & Hres & Hle) Ha]; cbn [usage live] in *; [done|done|unfold u32_max; lia| |done].
  unfold counted; cbn [usage live]. rewrite Hr. split_and!; [constructor|lia|done|lia].
Qed.

(** ** The refresh *)

(** What happens to the counters after a reservation has spawned a refresh:
    the coroutine runs, timers fire, handlers go on. *)
Inductive usage_step : PlanUsage → PlanUsage → Prop :=
| usage_refresh now load u : usage_step u (refreshPlanUsageNow now load u)
| usage_reserve now amount r u : usage_step u (reserveAddition now amount r u).1.1
| usage_commit x u : usage_step u (commit x u).2
| usage_release x u : usage_step u (release x u).2
| usage_deleted r amount u : usage_step u (onDeleted r amount u)
| usage_mass rs u : usage_step u (onMassDelete rs u).

Lemma set_refresh_same u : refresh_in_progress u = true → set_refresh true (next_refresh_at u) u = u.
Proof. destruct u; cbn. by intros ->. Qed.

Ltac same_allowed :=
  let r' := fresh in
  intros r'; unfold commitReservation, releaseReservation; cbn;
  destruct (decide _) as [->|]; done.

Lemma usage_step_stuck u u' :
  usage_step u u' → refresh_in_progress u = true →
  refresh_in_progress u' = true ∧ next_refresh_at u' = next_refresh_at u ∧
  ∀ r, allowed (counters u' r) = allowed (counters u r).
Proof.
  intros Hs Hp. destruct Hs as [now load u|now amount r u|x u|x u|r amount u|rs u].
  - unfold refreshPlanUsageNow. rewrite Hp. done.
  - unfold reserveAddition. rewrite Hp, andb_false_r. repeat case_match; cbn; try done.
    split_and!; [done|done|]. same_allowed.
  - unfold commit. case_if; cbn; [|done]. split_and!; [done|done|]. same_allowed.
  - unfold release. cbn. case_if; cbn; [|done]. split_and!; [done|done|]. same_allowed.
  - unfold onDeleted. case_if; cbn; [done|]. split_and!; [done|done|]. same_allowed.
  - unfold onMassDelete. case_if; [done|]. revert u Hp. induction rs as [|r0 rs IH]; intros u Hp; [done|].
    cbn [foldl]. match goal with |- context [foldl _ ?v rs] => destruct (IH v Hp) as (H1 & H2 & H3) end.
    split_and!; [done|done|]. intros r'. rewrite H3. revert r'. same_allowed.
Qed.

(** A refresh that a reservation starts never happens: when the counters
    are due for a refresh and none is in progress, [reserveAddition] marks
    one as in progress and spawns [refreshPlanUsageNow], which returns at
    once because of that mark; from then on, whatever runs, the mark stays,
    no refresh is due at another time and no allowance ever changes. *)
Theorem refresh_from_reservation_is_lost now amount r u u' spawn out u'' :
  reserveAddition now amount r u = (u', spawn, out) →
  amount ≠ 0 → enable_plan = true → loaded u = true →
  refresh_in_progress u = false → next_refresh_at u ≤ now →
  rtc usage_step u' u'' →
  spawn = true ∧ refresh_in_progress u'' = true ∧ next_refresh_at u'' = next_refresh_at u ∧
  ∀ r', allowed (counters u'' r') = allowed (counters u r').
Proof.
  intros Hres Ha He Hl Hp Hn Hs.
  assert (Hfirst : spawn = true ∧ refresh_in_progress u' = true ∧ next_refresh_at u' = next_refresh_at u ∧
    ∀ r', allowed (counters u' r') = allowed (counters u r')).
  { unfold reserveAddition in Hres. rewrite (proj2 (Z.eqb_neq amount 0) Ha), He, Hl, Hp in Hres.
    rewrite (proj2 (Z.leb_le _ _) Hn) in Hres. cbn [orb negb andb] in Hres.
    repeat case_match; simplify_eq; cbn; split_and!; try done.
    intros r'. destruct (decide (r' = r)) as [->|]; done. }
  destruct Hfirst as (Hsp & Hp' & Hn' & Hal). split; [done|].
  assert (Hend : refresh_in_progress u'' = true ∧ next_refresh_at u'' = next_refresh_at u' ∧
    ∀ r', allowed (counters u'' r') = allowed (counters u' r')).
  { clear Hres Hal Hn'. induction Hs as [|a b c Hab _ IH]; [done|].
    destruct (usage_step_stuck a b Hab Hp') as (H1 & H2 & H3).
    destruct (IH H1) as (H4 & H5 & H6). split_and!; [done|congruence|]. intros r'. by rewrite H6. }
  destruct Hend as (H1 & H2 & H3). split_and!; [done|congruence|]. intros r'. by rewrite H3.
Qed.
End plan.

(** ** Whole months *)

(** [elapsedWholeMonths] counts the whole months between two instants:
    [n] months after the day of the first, counted in the calendar, is not
    after the day of the second, and [n + 1] months is (the days of the two
    months compared as numbers, so the 31st of a month is reached in a
    shorter month only with the next one). *)
Theorem elapsedWholeMonths_spec `{CivilCalendar} createdAt now :
  createdAt < now →
  let c := ymd_of_days (createdAt / 86400) in
  let d := ymd_of_days (now / 86400) in
  month_index d - month_index c < 2 ^ 31 - 1 →
  let n := elapsedWholeMonths createdAt now in
  0 ≤ n ∧
  (month_index c + n < month_index d ∨ (month_index c + n = month_index d ∧ (day c ≤ day d ∨ n = 0))) ∧
  (month_index d < month_index c + n + 1 ∨ (month_index d = month_index c + n + 1 ∧ day d < day c)).
Proof.
  intros Hlt. cbn zeta. intros Hb. unfold elapsedWholeMonths.
  destruct (Z.leb_spec now createdAt) as [|_]; [lia|].
  pose proof (ymd_of_days_valid (createdAt / 86400)) as [[Hm1 Hd1] Hc1].
  pose proof (ymd_of_days_valid (now / 86400)) as [[Hm2 Hd2] Hc2].
  set (c := ymd_of_days (createdAt / 86400)) in *. set (d := ymd_of_days (now / 86400)) in *.
  assert (Hle : month_index c ≤ month_index d).
  { destruct (Z.le_gt_cases (month_index c) (month_index d)) as [|Hgt]; [done|].
    pose proof (later_month d c (of_days_ok _) (of_days_ok _) Hgt) as Hl.
    rewrite Hc1, Hc2 in Hl. assert (createdAt / 86400 ≤ now / 86400) by (apply Z.div_le_mono; lia). lia. }
  assert (Hsame : month_index c = month_index d → day c ≤ day d).
  { intros Heq. pose proof (days_of_ymd_month c Hm1) as H1. pose proof (days_of_ymd_month d Hm2) as H2.
    rewrite Hc1 in H1. rewrite Hc2 in H2. rewrite Heq in H1.
    assert (createdAt / 86400 ≤ now / 86400) by (apply Z.div_le_mono; lia). lia. }
  assert (Hint : to_int ((year d - year c) * 12 + u32 (month d - month c)) = month_index d - month_index c).
  { unfold to_int, wrap. rewrite Zplus_mod_idemp_r.
    replace ((year d - year c) * 12 + (month d - month c)) with (month_index d - month_index c)
      by (unfold month_index; lia).
    rewrite Z.mod_small by lia. destruct (Z.ltb_spec (month_index d - month_index c) (2 ^ 31)); lia. }
  rewrite Hint. destruct (Z.ltb_spec (day d) (day c)).
  - rewrite wrap_small by lia. lia.
  - rewrite wrap_small by lia. lia.
Qed.

(** ** Examples *)
Definition fresh_counter (used allowed : Z) : PlanCounter :=
  {| used := used; reserved := 0; allowed := allowed; stale_after_delete := false |}.

Definition example_usage : PlanUsage :=
  {| loaded := true; refresh_in_progress := false; next_refresh_at := 1000;
     counters := λ r, match r with NODE => fresh_counter 9 10 | _ => fresh_counter 0 0 end |}.

Definition node_reservation : Reservation :=
  {| r_owner := true; r_resource := NODE; r_amount := 1; r_committed := false |}.

Lemma plan_limit_holds_witness :
  let u' := (reserveAddition true 5 0 1 NODE example_usage).1.1 in
  (used (counters u' NODE) + reserved (counters u' NODE) ≤ 15 ∧ reserved (counters u' NODE) = 1) ∧
  (reserveAddition true 5 0 7 NODE example_usage).2 = Throw (server_err Error.LIMIT_EXCEEDED).
Proof.
  cbn zeta. split; [|vm_compute; reflexivity].
  destruct (plan_limit_holds true 5 NODE example_usage
    {| usage := (reserveAddition true 5 0 1 NODE example_usage).1.1; live := [node_reservation] |}
    ltac:(lia) ltac:(cbn; lia) ltac:(cbn; lia) eq_refl) as (H1 & H2 & _).
  - eapply rtc_l; [|apply rtc_refl].
    apply (step_reserve true 5 0 1 NODE {| usage := example_usage; live := [] |} _ false node_reservation);
      [lia|reflexivity].
  - split; [exact H1|exact H2].
Defined.

Lemma refresh_from_reservation_is_lost_witness :
  let u' := (reserveAddition true 5 2000 1 NODE example_usage).1.1 in
  let u'' := refreshPlanUsageNow 2001 (Some (λ u, u)) u' in
  refresh_in_progress u'' = true ∧ next_refresh_at u'' = 1000.
Proof.
  cbn zeta.
  destruct (refresh_from_reservation_is_lost true 5 2000 1 NODE example_usage
    (reserveAddition true 5 2000 1 NODE example_usage).1.1 true (Ok node_reservation)
    (refreshPlanUsageNow 2001 (Some (λ u, u)) (reserveAddition true 5 2000 1 NODE example_usage).1.1)
    eq_refl ltac:(lia) eq_refl eq_refl eq_refl ltac:(cbn; lia)) as (_ & H1 & H2 & _).
  - eapply rtc_l; [apply usage_refresh|apply rtc_refl].
  - split; [exact H1|exact H2].
Defined.

(** 2024-01-31 to 2024-02-29: not yet a month; to 2024-03-31: two. *)
Lemma elapsedWholeMonths_spec_witness :
  0 ≤ elapsedWholeMonths 1706659200 1709164800 ∧
  elapsedWholeMonths 1706659200 1709164800 = 0 ∧ elapsedWholeMonths 1706659200 1711843200 = 2.
Proof.
  split; [|split; vm_compute; reflexivity].
  refine (proj1 (elapsedWholeMonths_spec 1706659200 1709164800 _ _)).
  - lia.
  - vm_compute. reflexivity.
Defined.
