(* ===== verification/SessionAccess.v ===== *)
(** * Which devices may write

    [refreshSessionAccessLocked_] and [Session::requireWritableForAdd] of
    src/src/backend/lib/UserContext.cpp: with a plan that limits the devices
    the ones that connected first get full access, the others read only.
    A uuid is the 128-bit number its bytes spell, which is how it compares. *)
From Stdlib Require Import Sorting.Sorted.
From S2P Require Import Prelude.
From stdpp Require Import sorting.

#[local] Open Scope Z_scope.
#[local] Open Scope nextapp_scope.

(** [UserContext::SessionAccessMode] and [pb::Tenant::State] *)
Inductive SessionAccessMode :=
  FULL_ACCESS | READ_ONLY_DEVICE_LIMIT | READ_ONLY_MOBILE_ONLY | READ_ONLY_TENANT.
Inductive TenantState := PENDING_ACTIVATION | ACTIVE | SUSPENDED | READ_ONLY.

#[export] Instance SessionAccessMode_eq_dec : EqDecision SessionAccessMode.
Proof. solve_decision. Defined.

#[export] Instance TenantState_eq_dec : EqDecision TenantState.
Proof. solve_decision. Defined.

(** A [Session] as the refresh sees it. *)
Record Session := {
  sessionId : Z;
  deviceId : Z;
  connectedOrder : Z;
  accessMode : SessionAccessMode
}.

(** The local [DeviceState]; its sessions are those of [device_id]. *)
Record DeviceState := {
  device_id : Z;
  connected_order : Z;
  is_mobile : bool
}.

#[export] Instance DeviceState_eq_dec : EqDecision DeviceState.
Proof. solve_decision. Defined.

(** The locals the refresh sets from the tenant's state and plan. *)
Record Policy := {
  tenant_read_only : bool;
  max_devices : Z;
  mobile_only : bool
}.

(** [plan] is the [max_devices] and [mobile_only] of the tenant's plan;
    without [config().payment.enable_plan] or a plan nothing is limited. *)
Definition policy_of (enable_plan : bool) (plan : option (Z * bool)) (state : TenantState) : Policy :=
  {| tenant_read_only := match state with READ_ONLY => true | _ => false end;
     max_devices := match plan with Some (n, _) => if enable_plan then n else 0 | None => 0 end;
     mobile_only := match plan with Some (_, m) => if enable_plan then m else false | None => false end |}.

Section access.
Context (policy : Policy) (mobile : Z → bool).

(** ** The devices, in the order they connected *)

(** One round of the first loop. *)
Definition see_session (by_device : gmap Z DeviceState) (s : Session) : gmap Z DeviceState :=
  let order := match by_device !! deviceId s with Some st => connected_order st | None => 0 end in
  <[deviceId s := {| device_id := deviceId s;
      connected_order := if (order =? 0) || (connectedOrder s <? order) then connectedOrder s else order;
      is_mobile := mobile (deviceId s) |}]> by_device.

Definition by_device (sessions : list Session) : gmap Z DeviceState :=
  foldl see_session ∅ sessions.

(** The order of [ranges::sort]. *)
Definition before (a b : DeviceState) : Prop :=
  connected_order a < connected_order b ∨
  (connected_order a = connected_order b ∧ device_id a ≤ device_id b).

#[global] Instance before_dec a b : Decision (before a b).
Proof. unfold before. apply _. Defined.

Definition ranked (sessions : list Session) : list DeviceState :=
  merge_sort before (map_to_list (by_device sessions)).*2.

(** ** The second loop: who gets full access *)
Definition eligible (d : DeviceState) : bool := negb (mobile_only policy) || is_mobile d.

Definition mode_of (granted : Z) (d : DeviceState) : SessionAccessMode :=
  if tenant_read_only policy then READ_ONLY_TENANT
  else if negb (eligible d) then READ_ONLY_MOBILE_ONLY
  else if negb (max_devices policy =? 0) && (max_devices policy <=? granted) then READ_ONLY_DEVICE_LIMIT
  else FULL_ACCESS.

Fixpoint grant (granted : Z) (l : list DeviceState) : list (DeviceState * SessionAccessMode) :=
  match l with
  | [] => []
  | d :: l =>
      let mode := mode_of granted d in
      (d, mode) :: grant (if bool_decide (mode = FULL_ACCESS) then granted + 1 else granted) l
  end.

(** [setAccessMode] for the sessions of the device. *)
Definition set_mode (dm : DeviceState * SessionAccessMode) (s : Session) : Session :=
  if deviceId s =? device_id dm.1
  then {| sessionId := sessionId s; deviceId := deviceId s;
          connectedOrder := connectedOrder s; accessMode := dm.2 |}
  else s.

(** The changes to publish: the sessions whose mode was another one. *)
Definition changed_by (sessions : list Session) (dm : DeviceState * SessionAccessMode)
    : list (Z * SessionAccessMode) :=
  omap (λ s, if (deviceId s =? device_id dm.1) && negb (bool_decide (accessMode s = dm.2))
             then Some (deviceId s, dm.2) else None) sessions.

Definition refreshSessionAccessLocked (sessions : list Session)
    : list Session * list (Z * SessionAccessMode) :=
  let grants := grant 0 (ranked sessions) in
  (foldl (λ l dm, set_mode dm <$> l) sessions grants, grants ≫= changed_by sessions).

(** [currentSessionAccess]: the mode of the first session of the device. *)
Definition currentSessionAccess (sessions : list Session) (dev : Z) : SessionAccessMode :=
  match List.find (λ s, deviceId s =? dev) sessions with
  | Some s => accessMode s
  | None => FULL_ACCESS
  end.

(** ** Writing *)
Definition requireWritableForAdd (state : TenantState) (mode : SessionAccessMode) : result unit :=
  match state with
  | READ_ONLY => Throw (server_err Error.PERMISSION_DENIED)
  | SUSPENDED => Throw (server_err Error.TENANT_SUSPENDED)
  | ACTIVE | PENDING_ACTIVATION =>
      match mode with
      | FULL_ACCESS => Ok tt
      | READ_ONLY_DEVICE_LIMIT | READ_ONLY_MOBILE_ONLY => Throw (server_err Error.LIMIT_EXCEEDED)
      | READ_ONLY_TENANT => Throw (server_err Error.PERMISSION_DENIED)
      end
  end.

(** ** Lemmas *)
#[global] Instance before_total : Total before.
Proof. intros a b. unfold before. lia. Qed.

#[global] Instance before_trans : Transitive before.
Proof. intros a b c. unfold before. lia. Qed.

Lemma by_device_snoc l s : by_device (l ++ [s]) = see_session (by_device l) s.
Proof. unfold by_device. by rewrite foldl_app. Qed.

(** The entry of a device: its own id, and the first of its orders. *)
Lemma by_device_spec l dev :
  Forall (λ s, 0 < connectedOrder s) l →
  match by_device l !! dev with
  | Some d => device_id d = dev ∧ is_mobile d = mobile dev ∧ 0 < connected_order d ∧
      (∃ s, s ∈ l ∧ deviceId s = dev ∧ connectedOrder s = connected_order d) ∧
      (∀ s, s ∈ l → deviceId s = dev → connected_order d ≤ connectedOrder s)
  | None => ∀ s, s ∈ l → deviceId s ≠ dev
  end.
Proof.
  induction l as [|s l IH] using rev_ind; intros Hf.
  - change (by_device []) with (∅ : gmap Z DeviceState). rewrite lookup_empty.
    intros s Hs. by apply elem_of_nil in Hs.
  - apply Forall_app in Hf as [Hf Hs]. apply Forall_cons in Hs as [Hs _]. specialize (IH Hf).
    rewrite by_device_snoc. unfold see_session. destruct (decide (deviceId s = dev)) as [<-|Hne].
    + rewrite lookup_insert_eq. cbn [device_id is_mobile connected_order].
      destruct (by_device l !! deviceId s) as [d|].
      * destruct IH as (_ & _ & Hpos & (s0 & Hs0 & Hd0 & Ho0) & Hmin).
        destruct (Z.eqb_spec (connected_order d) 0); [lia|]. cbn [orb].
        destruct (Z.ltb_spec (connectedOrder s) (connected_order d)).
        -- split; [done|]. split; [done|]. split; [exact Hs|]. split.
           ++ exists s. split; [apply elem_of_app; right; by left|done].
           ++ intros x [Hx|Hx%list_elem_of_singleton]%elem_of_app Hxd; [|subst x; lia].
              specialize (Hmin x Hx Hxd). lia.
        -- split; [done|]. split; [done|]. split; [done|]. split.
           ++ exists s0. split; [apply elem_of_app; by left|done].
           ++ intros x [Hx|Hx%list_elem_of_singleton]%elem_of_app Hxd; [by apply Hmin|subst x; lia].
      * cbn [Z.eqb orb]. split; [done|]. split; [done|]. split; [exact Hs|]. split.
        -- exists s. split; [apply elem_of_app; right; by left|done].
        -- intros x [Hx|Hx%list_elem_of_singleton]%elem_of_app Hxd; [by destruct (IH x Hx Hxd)|subst x; lia].
    + rewrite lookup_insert_ne by done. destruct (by_device l !! dev) as [d|].
      * destruct IH as (? & ? & ? & (s0 & ? & ? & ?) & Hmin). do 3 (split; [done|]). split.
        -- exists s0. split; [apply elem_of_app; by left|done].
        -- intros x [Hx|Hx%list_elem_of_singleton]%elem_of_app Hxd; [by apply Hmin|subst x; done].
      * intros x [Hx|Hx%list_elem_of_singleton]%elem_of_app; [by apply IH|subst x; done].
Qed.

Lemma elem_of_ranked l d :
  Forall (λ s, 0 < connectedOrder s) l →
  d ∈ ranked l ↔ by_device l !! device_id d = Some d.
Proof.
  intros Hf. unfold ranked. rewrite merge_sort_Permutation, list_elem_of_fmap. split.
  - intros ([dev d'] & -> & Hin%elem_of_map_to_list). cbn.
    pose proof (by_device_spec l dev Hf) as Hd. rewrite Hin in Hd. destruct Hd as [-> _]. done.
  - intros Hd. exists (device_id d, d). split; [done|]. by apply elem_of_map_to_list.
Qed.

Lemma ranked_NoDup l :
  Forall (λ s, 0 < connectedOrder s) l → NoDup (device_id <$> ranked l).
Proof.
  intros Hf. unfold ranked. rewrite merge_sort_Permutation, <- list_fmap_compose.
  rewrite (list_fmap_ext _ fst); [apply NoDup_fst_map_to_list|].
  intros i [dev d] Hi. cbn. apply list_elem_of_lookup_2, elem_of_map_to_list in Hi.
  pose proof (by_device_spec l dev Hf) as Hd. rewrite Hi in Hd. by destruct Hd as [-> _].
Qed.

Definition is_full (dm : DeviceState * SessionAccessMode) : bool := bool_decide (dm.2 = FULL_ACCESS).

Lemma grant_fst g l : (grant g l).*1 = l.
Proof. revert g. induction l as [|d l IH]; intros g; [done|]. cbn. by rewrite IH. Qed.

(** The mode of the [i]-th device depends on the eligible ones before it. *)
Lemma grant_lookup g l i d m :
  0 ≤ g → max_devices policy = 0 ∨ g ≤ max_devices policy →
  grant g l !! i = Some (d, m) →
  l !! i = Some d ∧ m = mode_of (g + Z.of_nat (length (List.filter eligible (take i l)))) d.
Proof.
  revert g i. induction l as [|x l IH]; intros g i Hg Hmax Hl; [done|].
  destruct i as [|i]; cbn [grant] in Hl; rewrite lookup_cons in Hl.
  - injection Hl as <- <-. cbn. by rewrite Z.add_0_r.
  - assert (Hmode : mode_of g x = FULL_ACCESS → eligible x = true ∧ (max_devices policy = 0 ∨ g < max_devices policy)).
    { unfold mode_of. destruct (tenant_read_only policy), (eligible x); cbn; try done.
      destruct (Z.eqb_spec (max_devices policy) 0), (Z.leb_spec (max_devices policy) g); cbn; try done; auto. }
    rewrite lookup_cons. cbn [take List.filter]. case_bool_decide as Hfull.
    + destruct (Hmode Hfull) as [He Hlt]. apply IH in Hl as [-> ->]; [|lia|lia].
      split; [done|]. rewrite He. cbn [length]. f_equal. lia.
    + apply IH in Hl as [-> ->]; [|done|done]. split; [done|].
      destruct (eligible x) eqn:He; [|done]. cbn [length].
      unfold mode_of in *. rewrite He in Hfull. destruct (tenant_read_only policy); [done|].
      cbn [negb] in Hfull. destruct (negb (eligible d)); [done|].
      destruct (Z.eqb_spec (max_devices policy) 0); cbn [negb andb] in *; [done|].
      destruct (Z.leb_spec (max_devices policy) g); [|done].
      destruct (Z.leb_spec (max_devices policy) (g + Z.of_nat (length (List.filter eligible (take i l))))),
        (Z.leb_spec (max_devices policy) (g + Z.of_nat (S (length (List.filter eligible (take i l))))));
        (done || lia).
Qed.

Lemma grant_full_count g l :
  max_devices policy ≠ 0 → g ≤ max_devices policy →
  Z.of_nat (length (List.filter is_full (grant g l))) ≤ max_devices policy - g.
Proof.
  intros Hne. revert g. induction l as [|d l IH]; intros g Hg; [cbn; lia|].
  cbn [grant List.filter]. unfold is_full at 1. cbn [snd]. case_bool_decide as Hf.
  - assert (g < max_devices policy).
    { unfold mode_of in Hf. destruct (tenant_read_only policy), (negb (eligible d)); try done.
      apply Z.eqb_neq in Hne. rewrite Hne in Hf. cbn in Hf.
      destruct (Z.leb_spec (max_devices policy) g); done. }
    cbn [length]. specialize (IH (g + 1) ltac:(lia)). lia.
  - by apply IH.
Qed.

(** Setting the modes of distinct devices one after the other. *)
Lemma set_modes_lookup (grants : list (DeviceState * SessionAccessMode)) (l : list Session) i s :
  NoDup (device_id <$> grants.*1) → l !! i = Some s →
  foldl (λ (l : list Session) dm, set_mode dm <$> l) l grants !! i =
    Some {| sessionId := sessionId s; deviceId := deviceId s; connectedOrder := connectedOrder s;
            accessMode := match List.find (λ dm, deviceId s =? device_id dm.1) grants with
                          | Some dm => dm.2 | None => accessMode s end |}.
Proof.
  revert l s. induction grants as [|[d m] grants IH]; intros l s Hn Hs.
  - cbn. rewrite Hs. by destruct s.
  - cbn [fmap list_fmap fst] in Hn. apply NoDup_cons in Hn as [Hni Hn]. cbn [foldl].
    rewrite (IH _ (set_mode (d, m) s)); [|done|by rewrite list_lookup_fmap, Hs].
    unfold set_mode. cbn [List.find fst snd]. destruct (Z.eqb_spec (deviceId s) (device_id d)) as [He|]; [|done].
    cbn [sessionId deviceId connectedOrder accessMode]. f_equal. f_equal.
    destruct (List.find _ grants) as [[d' m']|] eqn:Hf; [|done]. exfalso.
    apply find_some in Hf as [Hin Heq]. apply Z.eqb_eq in Heq. cbn in Heq.
    apply Hni. rewrite <- He, Heq. apply list_elem_of_fmap. exists d'. split; [done|].
    apply list_elem_of_fmap. exists (d', m'). split; [done|by apply list_elem_of_In].
Qed.

Lemma set_modes_none (grants : list (DeviceState * SessionAccessMode)) (l : list Session) i :
  l !! i = None → foldl (λ (l : list Session) dm, set_mode dm <$> l) l grants !! i = None.
Proof.
  revert l. induction grants as [|dm grants IH]; intros l Hl; [done|]. cbn [foldl].
  apply IH. by rewrite list_lookup_fmap, Hl.
Qed.

Lemma find_device (grants : list (DeviceState * SessionAccessMode)) dev d m :
  NoDup (device_id <$> grants.*1) → (d, m) ∈ grants → device_id d = dev →
  List.find (λ dm, dev =? device_id dm.1) grants = Some (d, m).
Proof.
  induction grants as [|[d' m'] grants IH]; intros Hn Hin Hd; [by apply elem_of_nil in Hin|].
  cbn [fmap list_fmap fst] in Hn. apply NoDup_cons in Hn as [Hni Hn]. cbn [List.find fst].
  apply elem_of_cons in Hin as [[= -> ->]|Hin]; [by rewrite Hd, Z.eqb_refl|].
  destruct (Z.eqb_spec dev (device_id d')) as [He|]; [|by apply IH].
  exfalso. apply Hni. rewrite <- He, <- Hd. apply list_elem_of_fmap. exists d. split; [done|].
  apply list_elem_of_fmap. by exists (d, m).
Qed.
End access.

(** The rank of a device among the eligible ones: how many of them come
    before it. *)
Definition eligible_before (policy : Policy) (l : list DeviceState) (i : nat) : Z :=
  Z.of_nat (length (List.filter (eligible policy) (take i l))).

(** What a device is told is what each of its sessions has. *)
Lemma currentSessionAccess_mode policy mobile sessions d m :
  Forall (λ s, 0 < connectedOrder s) sessions →
  (d, m) ∈ grant policy 0 (ranked mobile sessions) →
  currentSessionAccess (refreshSessionAccessLocked policy mobile sessions).1 (device_id d) = m.
Proof.
  intros Hf Hin. unfold currentSessionAccess.
  assert (Hn : NoDup (device_id <$> (grant policy 0 (ranked mobile sessions)).*1))
    by (rewrite grant_fst; by apply ranked_NoDup).
  assert (Hpt : ∀ i s', (refreshSessionAccessLocked policy mobile sessions).1 !! i = Some s' →
    deviceId s' = device_id d → accessMode s' = m).
  { intros i s' Hi Hd. unfold refreshSessionAccessLocked in Hi. cbn [fst] in Hi.
    destruct (sessions !! i) as [s|] eqn:Hs.
    - rewrite (set_modes_lookup _ _ _ _ Hn Hs) in Hi. injection Hi as <-. cbn in Hd |- *.
      by rewrite (find_device _ _ _ _ Hn Hin).
    - exfalso. by rewrite set_modes_none in Hi. }
  destruct (List.find _ _) as [s|] eqn:Hfind.
  - apply find_some in Hfind as [Hs Hd%Z.eqb_eq]. apply list_elem_of_In, list_elem_of_lookup in Hs as [i Hi].
    by eapply Hpt.
  - exfalso. assert (Hdev : d ∈ ranked mobile sessions).
    { rewrite <- (grant_fst policy 0). apply list_elem_of_fmap. by exists (d, m). }
    apply (elem_of_ranked mobile _ _ Hf) in Hdev. pose proof (by_device_spec mobile sessions (device_id d) Hf) as Hb.
    rewrite Hdev in Hb. destruct Hb as (_ & _ & _ & (s & Hs & Hsd & _) & _).
    apply list_elem_of_lookup in Hs as [i Hi].
    pose proof (set_modes_lookup (grant policy 0 (ranked mobile sessions)) _ _ _ Hn Hi) as Hl.
    apply list_elem_of_lookup_2, list_elem_of_In in Hl. eapply find_none in Hfind; [|exact Hl].
    cbn in Hfind. by apply Z.eqb_neq in Hfind.
Qed.

(** Full access is granted first come, first served: after a refresh
    every session has the mode of its device; the devices are those of the
    sessions, each once, in the order of their first session (then of their
    id); a read-only tenant's devices read only, a device the plan does not
    admit reads only, and an eligible device has full access exactly when
    the plan does not limit devices or fewer than [max_devices] eligible
    devices come before it.  So at most [max_devices] devices have full
    access. *)
Theorem refreshSessionAccess_first_come policy mobile sessions :
  Forall (λ s, 0 < connectedOrder s) sessions → 0 ≤ max_devices policy →
  let devs := ranked mobile sessions in
  let grants := grant policy 0 devs in
  (NoDup (device_id <$> devs) ∧ StronglySorted before devs ∧
   ∀ dev, dev ∈ device_id <$> devs ↔ ∃ s, s ∈ sessions ∧ deviceId s = dev) ∧
  (∀ i d m, grants !! i = Some (d, m) →
     devs !! i = Some d ∧ m = mode_of policy (eligible_before policy devs i) d) ∧
  (max_devices policy ≠ 0 → Z.of_nat (length (List.filter is_full grants)) ≤ max_devices policy) ∧
  (∀ i s, sessions !! i = Some s → ∃ d m, (d, m) ∈ grants ∧ device_id d = deviceId s ∧
     (refreshSessionAccessLocked policy mobile sessions).1 !! i =
       Some {| sessionId := sessionId s; deviceId := deviceId s;
               connectedOrder := connectedOrder s; accessMode := m |}) ∧
  (∀ d m, (d, m) ∈ grants →
     currentSessionAccess (refreshSessionAccessLocked policy mobile sessions).1 (device_id d) = m).
Proof.
  intros Hf Hmax. cbn zeta.
  assert (Hdevs : ∀ dev, dev ∈ device_id <$> ranked mobile sessions ↔ ∃ s, s ∈ sessions ∧ deviceId s = dev).
  { intros dev. rewrite list_elem_of_fmap. pose proof (by_device_spec mobile sessions dev Hf) as Hd. split.
    - intros (d & -> & Hin). apply (elem_of_ranked mobile _ _ Hf) in Hin. rewrite Hin in Hd.
      destruct Hd as (_ & _ & _ & (s & ? & ? & _) & _). by exists s.
    - intros (s & Hs & Hsd). destruct (by_device mobile sessions !! dev) as [d|] eqn:Hl; [|by destruct (Hd s)].
      destruct Hd as [Hid _]. exists d. split; [done|]. apply (elem_of_ranked mobile _ _ Hf). by rewrite Hid. }
  split_and!; [by apply ranked_NoDup|apply StronglySorted_merge_sort; apply _|done| | | |by intros d m; apply currentSessionAccess_mode].
  - intros i d m Hi. apply grant_lookup in Hi as [? ->]; [|lia|lia]. by rewrite Z.add_0_l.
  - intros Hne. pose proof (grant_full_count policy 0 (ranked mobile sessions) Hne Hmax). lia.
  - intros i s Hi. assert (Hs : deviceId s ∈ device_id <$> ranked mobile sessions).
    { apply Hdevs. exists s. split; [by eapply list_elem_of_lookup_2|done]. }
    apply list_elem_of_fmap in Hs as (d & Hd & Hin).
    rewrite <- (grant_fst policy 0 (ranked mobile sessions)) in Hin.
    apply list_elem_of_fmap in Hin as ([d' m] & -> & Hin). exists d', m. split_and!; [done|done|].
    unfold refreshSessionAccessLocked. cbn [fst].
    assert (Hn : NoDup (device_id <$> (grant policy 0 (ranked mobile sessions)).*1))
      by (rewrite grant_fst; by apply ranked_NoDup).
    rewrite (set_modes_lookup _ _ _ _ Hn Hi). by rewrite (find_device _ _ _ _ Hn Hin).
Qed.

(** What a session may do: adding anything is allowed exactly for a
    session with full access of an active (or not yet activated) tenant;
    every other combination throws, a suspended tenant with its own error
    and a device beyond the plan's limit with [LIMIT_EXCEEDED]. *)
Theorem requireWritableForAdd_spec state mode :
  (requireWritableForAdd state mode = Ok tt ↔
     (state = ACTIVE ∨ state = PENDING_ACTIVATION) ∧ mode = FULL_ACCESS) ∧
  (requireWritableForAdd state mode = Throw (server_err Error.LIMIT_EXCEEDED) ↔
     (state = ACTIVE ∨ state = PENDING_ACTIVATION) ∧
     (mode = READ_ONLY_DEVICE_LIMIT ∨ mode = READ_ONLY_MOBILE_ONLY)) ∧
  (requireWritableForAdd state mode = Throw (server_err Error.TENANT_SUSPENDED) ↔ state = SUSPENDED).
Proof. destruct state, mode; cbn; naive_solver. Qed.

(** ** Examples *)
Definition example_policy : Policy := {| tenant_read_only := false; max_devices := 1; mobile_only := false |}.

Definition example_sessions : list Session := [
  {| sessionId := 1; deviceId := 20; connectedOrder := 2; accessMode := FULL_ACCESS |};
  {| sessionId := 2; deviceId := 10; connectedOrder := 1; accessMode := READ_ONLY_DEVICE_LIMIT |};
  {| sessionId := 3; deviceId := 10; connectedOrder := 3; accessMode := FULL_ACCESS |}].

Lemma refreshSessionAccess_first_come_witness :
  (∀ i s, example_sessions !! i = Some s → ∃ m,
     (refreshSessionAccessLocked example_policy (λ _, false) example_sessions).1 !! i =
       Some {| sessionId := sessionId s; deviceId := deviceId s;
               connectedOrder := connectedOrder s; accessMode := m |}) ∧
  refreshSessionAccessLocked example_policy (λ _, false) example_sessions =
    ([ {| sessionId := 1; deviceId := 20; connectedOrder := 2; accessMode := READ_ONLY_DEVICE_LIMIT |};
       {| sessionId := 2; deviceId := 10; connectedOrder := 1; accessMode := FULL_ACCESS |};
       {| sessionId := 3; deviceId := 10; connectedOrder := 3; accessMode := FULL_ACCESS |}],
     [(10, FULL_ACCESS); (20, READ_ONLY_DEVICE_LIMIT)]).
Proof.
  split; [|vm_compute; reflexivity].
  destruct (refreshSessionAccess_first_come example_policy (λ _, false) example_sessions) as (_ & _ & _ & H & _).
  - repeat constructor.
  - cbn. lia.
  - intros i s Hi. destruct (H i s Hi) as (d & m & _ & _ & Hm). exists m. exact Hm.
Defined.
