(* ===== verification/Sessions.v ===== *)
(** * The sessions of the server

    [SessionManager] of src/src/backend/lib/UserContext.cpp: finding or
    creating the session of a request, creating and dropping the user's
    context with it, the timer that expires sessions, and the publish state
    (number and epoch) that outlives the context.  Contexts and sessions are
    shared objects: they live in a heap and the tables hold their addresses. *)
From S2P Require Import Prelude SessionAccess.

#[local] Open Scope Z_scope.
#[local] Open Scope nextapp_scope.

(** [UserPublishState] *)
Record UserPublishState := { publish_id : Z; publish_epoch : Z }.

(** A [UserContext] and a [Session], as the manager uses them. *)
Record Ctx := {
  cx_user : Z;
  cx_valid : bool;
  cx_sessions : list nat;
  cx_state : UserPublishState
}.

Record Sess := {
  sess_id : Z;
  sess_device : Z;
  sess_user : nat;
  sess_order : Z;
  last_access : Z
}.

(** [SessionManager] with the heap and the table
    [user_runtime_publish_state] of the database. *)
Record Manager := {
  sessions_ : gmap Z nat;
  users_ : gmap Z nat;
  publish_states_ : gmap Z UserPublishState;
  next_connected_order_ : Z;
  db_states : gmap Z UserPublishState;
  ctxs : gmap nat Ctx;
  objs : gmap nat Sess;
  next_addr : nat
}.

(** [PendingPublishStateSave] *)
Definition PendingSave : Type := Z * UserPublishState.

(** What the database says of a device and a user; a tenant state that does
    not parse is [None]. *)
Record DeviceRow := { d_user : Z; d_enabled : bool }.
Record UserRow := { u_tenant_state : option TenantState; u_active : bool; u_readable : bool }.

(** The caller: what gRPC knows of its certificate, and its meta-data. *)
Record Peer := {
  authenticated : bool;
  cert_names : list Z;
  meta_did : option Z;
  meta_sid : option Z
}.

(** Updates of the parts. *)
Definition set_sessions (f : gmap Z nat → gmap Z nat) (m : Manager) : Manager :=
  {| sessions_ := f (sessions_ m); users_ := users_ m; publish_states_ := publish_states_ m;
     next_connected_order_ := next_connected_order_ m; db_states := db_states m;
     ctxs := ctxs m; objs := objs m; next_addr := next_addr m |}.

Definition set_users (f : gmap Z nat → gmap Z nat) (m : Manager) : Manager :=
  {| sessions_ := sessions_ m; users_ := f (users_ m); publish_states_ := publish_states_ m;
     next_connected_order_ := next_connected_order_ m; db_states := db_states m;
     ctxs := ctxs m; objs := objs m; next_addr := next_addr m |}.

Definition set_states (mem db : gmap Z UserPublishState) (m : Manager) : Manager :=
  {| sessions_ := sessions_ m; users_ := users_ m; publish_states_ := mem;
     next_connected_order_ := next_connected_order_ m; db_states := db;
     ctxs := ctxs m; objs := objs m; next_addr := next_addr m |}.

Definition set_ctx (c : nat) (f : Ctx → Ctx) (m : Manager) : Manager :=
  {| sessions_ := sessions_ m; users_ := users_ m; publish_states_ := publish_states_ m;
     next_connected_order_ := next_connected_order_ m; db_states := db_states m;
     ctxs := alter f c (ctxs m); objs := objs m; next_addr := next_addr m |}.

Definition with_sessions (f : list nat → list nat) (x : Ctx) : Ctx :=
  {| cx_user := cx_user x; cx_valid := cx_valid x; cx_sessions := f (cx_sessions x);
     cx_state := cx_state x |}.

(** ** The publish state *)

Section manager.
(** [skip_tls_auth_], [session_timeout_sec], and the tables the manager only
    reads. *)
Context (skip_tls_auth : bool) (session_timeout : Z).
Context (device_row : Z → option DeviceRow) (user_row : Z → option UserRow).

(** [loadPublishState_]; [fresh] is [newPublishEpoch()]. *)
Definition loadPublishState (u fresh : Z) (m : Manager) : UserPublishState * Manager :=
  match publish_states_ m !! u with
  | Some s => (s, m)
  | None =>
      match db_states m !! u with
      | None =>
          let s := {| publish_id := 0; publish_epoch := fresh |} in
          (s, set_states (<[u := s]> (publish_states_ m)) (<[u := s]> (db_states m)) m)
      | Some row =>
          let s := if publish_epoch row =? 0
                   then {| publish_id := publish_id row; publish_epoch := fresh |} else row in
          (s, set_states (<[u := s]> (publish_states_ m)) (<[u := s]> (db_states m)) m)
      end
  end.

(** [savePublishState_] *)
Definition savePublishState (fresh : Z) (p : PendingSave) (m : Manager) : Manager :=
  let s := if publish_epoch p.2 =? 0
           then {| publish_id := publish_id p.2; publish_epoch := fresh |} else p.2 in
  set_states (<[p.1 := s]> (publish_states_ m)) (<[p.1 := s]> (db_states m)) m.

(** ** Removing a session *)

(** [UserContext::removeSession]: the sessions with that id. *)
Definition has_id (m : Manager) (sid : Z) (o : nat) : bool :=
  match objs m !! o with Some s => sess_id s =? sid | None => false end.

(** [removeSession_].  [held] says that somebody beside the context owns the
    session: when nobody does, erasing it from the context destroys it and
    the [session->user()] that follows reads freed memory. *)
Definition removeSession_locked (held : bool) (sid : Z) (m : Manager)
    : result (Manager * option PendingSave) :=
  match sessions_ m !! sid with
  | None => Ok (m, None)
  | Some o =>
      match objs m !! o with
      | None => Throw undefined
      | Some s =>
          let m1 := set_ctx (sess_user s) (with_sessions (List.filter (λ o', negb (has_id m sid o'))))
                      (set_sessions (delete sid) m) in
          if negb held then Throw undefined else
          match ctxs m1 !! sess_user s with
          | None => Throw undefined
          | Some x =>
              if bool_decide (cx_sessions x = [])
              then Ok (set_users (delete (cx_user x)) m1, Some (cx_user x, cx_state x))
              else Ok (m1, None)
          end
      end
  end.

Definition save_pending (fresh : Z) (p : option PendingSave) (m : Manager) : Manager :=
  match p with Some p => savePublishState fresh p m | None => m end.

(** [removeSession]; its caller [OnDone] holds the session. *)
Definition removeSession (fresh sid : Z) (m : Manager) : result Manager :=
  let! (m, p) := removeSession_locked true sid m in
  mret (save_pending fresh p m).

(** [onTimer]: the expired sessions are removed under the lock, and the
    publish states saved after it. *)
Fixpoint expire (now : Z) (l : list (Z * nat)) (acc : Manager * list PendingSave)
    : result (Manager * list PendingSave) :=
  match l with
  | [] => Ok acc
  | (sid, o) :: l =>
      match objs acc.1 !! o with
      | None => Throw undefined
      | Some s =>
          if last_access s + session_timeout <? now then
            let! (m, p) := removeSession_locked true sid acc.1 in
            expire now l (m, acc.2 ++ option_list p)
          else expire now l acc
      end
  end.

Definition onTimer (fresh now : Z) (m : Manager) : result Manager :=
  let! (m, pending) := expire now (map_to_list (sessions_ m)) (m, []) in
  mret (foldl (λ m p, savePublishState fresh p m) m pending).

(** [UserContext::publishUpdates]: the number of the next update. *)
Definition publish_next (c : nat) (m : Manager) : Manager :=
  set_ctx c (λ x, {| cx_user := cx_user x; cx_valid := cx_valid x; cx_sessions := cx_sessions x;
    cx_state := {| publish_id := u32 (publish_id (cx_state x) + 1);
                   publish_epoch := publish_epoch (cx_state x) |} |}) m.

(** [UserContext::setAsInvalid] and [Session::touch] *)
Definition setAsInvalid (c : nat) (m : Manager) : Manager :=
  set_ctx c (λ x, {| cx_user := cx_user x; cx_valid := false; cx_sessions := cx_sessions x;
    cx_state := cx_state x |}) m.

Definition touch (now : Z) (o : nat) (m : Manager) : Manager :=
  {| sessions_ := sessions_ m; users_ := users_ m; publish_states_ := publish_states_ m;
     next_connected_order_ := next_connected_order_ m; db_states := db_states m; ctxs := ctxs m;
     objs := alter (λ s, {| sess_id := sess_id s; sess_device := sess_device s;
       sess_user := sess_user s; sess_order := sess_order s; last_access := now |}) o (objs m);
     next_addr := next_addr m |}.

(** ** Finding or creating a session *)

(** The device of the caller: the name in its certificate. *)
Definition peer_device (p : Peer) : result Z :=
  if negb (authenticated p) then
    if skip_tls_auth then
      match meta_did p with Some d => Ok d | None => Throw (server_err Error.AUTH_FAILED) end
    else Throw (server_err Error.AUTH_FAILED)
  else match cert_names p with
       | [] => Throw (server_err Error.NOT_FOUND)
       | d :: _ => Ok d
       end.

(** The happy path of [getSession]. *)
Definition find_session (held : bool) (fresh dev sid : Z) (m : Manager) : Manager * result (option nat) :=
  match sessions_ m !! sid with
  | None => (m, Ok None)
  | Some o =>
      match objs m !! o with
      | None => (m, Throw undefined)
      | Some s =>
          match ctxs m !! sess_user s with
          | None => (m, Throw undefined)
          | Some x =>
              if negb (cx_valid x) then
                match removeSession_locked held sid m with
                | Ok (m', p) => (save_pending fresh p m', Throw (server_err Error.AUTH_FAILED))
                | Throw e => (m, Throw e)
                end
              else if sess_device s =? dev then (m, Ok (Some o))
              else (m, Throw (server_err Error.AUTH_FAILED))
          end
      end
  end.

(** [getUserContext] *)
Definition new_context (u fresh : Z) (m : Manager) : Manager * nat :=
  let '(s, m) := loadPublishState u fresh m in
  let c := next_addr m in
  ({| sessions_ := sessions_ m; users_ := <[u := c]> (users_ m); publish_states_ := publish_states_ m;
      next_connected_order_ := next_connected_order_ m; db_states := db_states m;
      ctxs := <[c := {| cx_user := u; cx_valid := true; cx_sessions := []; cx_state := s |}]> (ctxs m);
      objs := objs m; next_addr := S c |}, c).

Definition getUserContext (fresh dev : Z) (m : Manager) : Manager * result nat :=
  match device_row dev with
  | None => (m, Throw (server_err Error.NOT_FOUND))
  | Some d =>
      if negb (d_enabled d) then (m, Throw (server_err Error.DEVICE_DISABLED)) else
      match users_ m !! d_user d with
      | Some c => (m, Ok c)
      | None =>
          match user_row (d_user d) with
          | None => (m, Throw (server_err Error.AUTH_FAILED))
          | Some r =>
              match u_tenant_state r with
              | None => (m, Throw runtime_error)
              | Some SUSPENDED => (m, Throw (server_err Error.TENANT_SUSPENDED))
              | Some _ =>
                  if negb (u_active r) then (m, Throw (server_err Error.USER_SUSPENDED))
                  else if negb (u_readable r) then (m, Throw runtime_error)
                  else let '(m, c) := new_context (d_user d) fresh m in (m, Ok c)
              end
          end
      end
  end.

(** The new session of [getSession], and [UserContext::addSession]. *)
Definition add_session (now dev sid : Z) (c : nat) (m : Manager) : Manager * nat :=
  let o := next_addr m in
  ({| sessions_ := <[sid := o]> (sessions_ m); users_ := users_ m;
      publish_states_ := publish_states_ m; next_connected_order_ := next_connected_order_ m + 1;
      db_states := db_states m;
      ctxs := alter (with_sessions (λ l, l ++ [o])) c (ctxs m);
      objs := <[o := {| sess_id := sid; sess_device := dev; sess_user := c;
                        sess_order := next_connected_order_ m; last_access := now |}]> (objs m);
      next_addr := S o |}, o).

Definition create_session (fresh now dev sid : Z) (m : Manager) : Manager * result nat :=
  match getUserContext fresh dev m with
  | (m, Throw e) => (m, Throw e)
  | (m, Ok c) => let '(m, o) := add_session now dev sid c m in (m, Ok o)
  end.

(** [getSession], when no other request runs between its steps. *)
Definition getSession (held : bool) (fresh now new_sid : Z) (p : Peer) (allowNewSession : bool)
    (m : Manager) : Manager * result nat :=
  match peer_device p with
  | Throw e => (m, Throw e)
  | Ok dev =>
      match meta_sid p with
      | Some sid =>
          match find_session held fresh dev sid m with
          | (m, Throw e) => (m, Throw e)
          | (m, Ok (Some o)) => (m, Ok o)
          | (m, Ok None) => create_session fresh now dev sid m
          end
      | None =>
          if negb allowNewSession then (m, Throw (server_err Error.AUTH_FAILED))
          else create_session fresh now dev new_sid m
      end
  end.

(** [getExistingSession]; the certificate's name is read without a check. *)
Definition getExistingSession (p : Peer) (m : Manager) : result nat :=
  let! dev :=
    if negb (authenticated p) then peer_device p
    else match cert_names p with [] => Throw undefined | d :: _ => Ok d end in
  match meta_sid p with
  | None => Throw (server_err Error.AUTH_FAILED)
  | Some sid =>
      match sessions_ m !! sid with
      | None => Throw (server_err Error.AUTH_FAILED)
      | Some o =>
          match objs m !! o with
          | None => Throw undefined
          | Some s => if sess_device s =? dev then Ok o else Throw (server_err Error.AUTH_FAILED)
          end
      end
  end.

(** ** Histories

    One request, close, timer round or publication after the other; the
    label is the user an update was published to. *)
Inductive step : Manager → option Z → Manager → Prop :=
| step_get held fresh now new_sid p allow m m' r :
    fresh ≠ 0 → sessions_ m !! new_sid = None →
    getSession held fresh now new_sid p allow m = (m', r) → r ≠ Throw undefined →
    step m None m'
| step_remove fresh sid m m' :
    fresh ≠ 0 → removeSession fresh sid m = Ok m' → step m None m'
| step_timer fresh now m m' :
    fresh ≠ 0 → onTimer fresh now m = Ok m' → step m None m'
| step_publish c x m :
    ctxs m !! c = Some x → users_ m !! cx_user x = Some c →
    step m (Some (cx_user x)) (publish_next c m)
| step_invalid c m : step m None (setAsInvalid c m)
| step_touch now o m : step m None (touch now o m).

Inductive run : Manager → list (option Z) → Manager → Prop :=
| run_nil m : run m [] m
| run_cons m l m1 ls m2 : step m l m1 → run m1 ls m2 → run m (l :: ls) m2.

Definition published (u : Z) (ls : list (option Z)) : Z :=
  Z.of_nat (length (List.filter (λ l, bool_decide (l = Some u)) ls)).

(** The publish state a user's updates go on from: that of the context, or
    the saved one. *)
Definition state_of (u : Z) (m : Manager) : option UserPublishState :=
  match users_ m !! u with
  | Some c => cx_state <$> ctxs m !! c
  | None => match publish_states_ m !! u with Some s => Some s | None => db_states m !! u end
  end.

(** ** The invariant *)

(** A session of the table: its object, and its context, which is the one
    registered for its user and lists it. *)
Definition session_ok (m : Manager) (sid : Z) (o : nat) : Prop :=
  ∃ s x, objs m !! o = Some s ∧ sess_id s = sid ∧ ctxs m !! sess_user s = Some x ∧
    o ∈ cx_sessions x ∧ users_ m !! cx_user x = Some (sess_user s).

(** A registered context: it lists sessions of the table only, and at least
    one unless it is the context [ex] a request is about to use. *)
Definition user_ok (ex : option nat) (m : Manager) (u : Z) (c : nat) : Prop :=
  ∃ x, ctxs m !! c = Some x ∧ cx_user x = u ∧ (ex = Some c ∨ cx_sessions x ≠ []) ∧
    ∀ o, o ∈ cx_sessions x → ∃ s, objs m !! o = Some s ∧ sess_user s = c ∧
      sessions_ m !! sess_id s = Some o.

Definition heap_ok (m : Manager) : Prop :=
  (∀ c, is_Some (ctxs m !! c) → (c < next_addr m)%nat) ∧
  (∀ o, is_Some (objs m !! o) → (o < next_addr m)%nat) ∧
  0 < next_connected_order_ m ∧
  (∀ o s, objs m !! o = Some s → 0 < sess_order s < next_connected_order_ m) ∧
  (∀ o o' s s', objs m !! o = Some s → objs m !! o' = Some s' → sess_order s = sess_order s' → o = o').

Definition wfx (ex : option nat) (m : Manager) : Prop :=
  (∀ sid o, sessions_ m !! sid = Some o → session_ok m sid o) ∧
  (∀ u c, users_ m !! u = Some c → user_ok ex m u c) ∧
  heap_ok m.

Abbreviation wf := (wfx None).

(** A change of the saved states only. *)
Lemma wfx_set_states ex a b m : wfx ex m → wfx ex (set_states a b m).
Proof. done. Qed.

Lemma wfx_save ex fresh p m : wfx ex m → wfx ex (savePublishState fresh p m).
Proof. done. Qed.

Lemma wfx_save_pending ex fresh p m : wfx ex m → wfx ex (save_pending fresh p m).
Proof. destruct p; done. Qed.

(** The context after a removal lists the same sessions but the one removed. *)
Lemma elem_of_filter_out m sid o l :
  o ∈ List.filter (λ o', negb (has_id m sid o')) l ↔ o ∈ l ∧ has_id m sid o = false.
Proof. rewrite !list_elem_of_In, filter_In, negb_true_iff. done. Qed.

Lemma has_id_false m sid o s : objs m !! o = Some s → has_id m sid o = false ↔ sess_id s ≠ sid.
Proof. unfold has_id. intros ->. apply Z.eqb_neq. Qed.

(** What a removal does in a well-formed state. *)
Lemma removeSession_locked_cases sid o m :
  wf m → sessions_ m !! sid = Some o →
  ∃ s x, objs m !! o = Some s ∧ ctxs m !! sess_user s = Some x ∧ users_ m !! cx_user x = Some (sess_user s) ∧
    let keep := List.filter (λ o', negb (has_id m sid o')) (cx_sessions x) in
    let m1 := set_ctx (sess_user s) (with_sessions (List.filter (λ o', negb (has_id m sid o'))))
                (set_sessions (delete sid) m) in
    removeSession_locked true sid m =
      if bool_decide (keep = []) then Ok (set_users (delete (cx_user x)) m1, Some (cx_user x, cx_state x))
      else Ok (m1, None).
Proof.
  intros (Hs & _ & _) Hl. destruct (Hs _ _ Hl) as (s & x & Ho & Hid & Hx & Hin & Hu).
  exists s, x. split_and!; [done..|]. cbv zeta. unfold removeSession_locked. rewrite Hl, Ho. cbn [negb].
  cbn [ctxs set_ctx set_sessions]. rewrite lookup_alter_eq, Hx. cbn [fmap option_fmap option_map].
  by rewrite bool_decide_decide.
Qed.

(** Looking up in the contexts after a removal. *)
Lemma set_ctx_lookup c f m c' :
  ctxs (set_ctx c f m) !! c' = if decide (c' = c) then f <$> ctxs m !! c else ctxs m !! c'.
Proof.
  cbn [ctxs set_ctx]. destruct (decide (c' = c)) as [->|]; [apply lookup_alter_eq|].
  by apply lookup_alter_ne.
Qed.

Lemma heap_ok_set_ctx c f m : heap_ok m → heap_ok (set_ctx c f m).
Proof.
  intros (H1 & H2 & H3). split; [|done]. intros c' Hc. apply H1. revert Hc.
  rewrite set_ctx_lookup. destruct (decide (c' = c)) as [->|]; [|done].
  destruct (ctxs m !! c); cbn; intros [? ?]; [by eexists|done].
Qed.

(** Taking the sessions named [sid] out of the table and their context,
    while other sessions are left in it. *)
Section removal.
Variables (m : Manager) (sid : Z) (o : nat) (s : Sess) (x : Ctx).
Hypothesis Hwf : wf m.
Hypothesis Hlook : sessions_ m !! sid = Some o.
Hypothesis Hobj : objs m !! o = Some s.
Hypothesis Hctx : ctxs m !! sess_user s = Some x.
Hypothesis Hreg : users_ m !! cx_user x = Some (sess_user s).

Definition other_sessions : list nat → list nat := List.filter (λ o', negb (has_id m sid o')).
Definition unlisted : Manager :=
  set_ctx (sess_user s) (with_sessions other_sessions) (set_sessions (delete sid) m).

Lemma removal_other sid' o' s' x' :
  sid' ≠ sid → sessions_ m !! sid' = Some o' → objs m !! o' = Some s' → sess_id s' = sid' →
  ctxs m !! sess_user s' = Some x' → o' ∈ cx_sessions x' → users_ m !! cx_user x' = Some (sess_user s') →
  ∃ x1, ctxs unlisted !! sess_user s' = Some x1 ∧ cx_user x1 = cx_user x' ∧ o' ∈ cx_sessions x1.
Proof.
  intros Hne Hl' Ho' Hid Hx' Hin Hu. unfold unlisted. rewrite set_ctx_lookup.
  destruct (decide (sess_user s' = sess_user s)) as [He|]; [|by exists x'].
  rewrite He in Hx'. cbn [ctxs set_sessions]. rewrite Hx'. eexists. split_and!; [done|done|].
  cbn. apply elem_of_filter_out. split; [done|].
  apply (has_id_false _ _ _ _ Ho'). congruence.
Qed.

Lemma removal_listed u c y o' :
  users_ m !! u = Some c → ctxs unlisted !! c = Some y → o' ∈ cx_sessions y →
  ∃ s', objs m !! o' = Some s' ∧ sess_user s' = c ∧ delete sid (sessions_ m) !! sess_id s' = Some o'.
Proof.
  intros Hu Hy Hin. destruct Hwf as (_ & Hus & _). destruct (Hus _ _ Hu) as (x' & Hx' & _ & _ & Hl).
  assert (o' ∈ cx_sessions x' ∧ (c = sess_user s → has_id m sid o' = false)) as [Hin' Hno].
  { unfold unlisted in Hy. rewrite set_ctx_lookup in Hy. destruct (decide (c = sess_user s)) as [->|].
    - cbn [ctxs set_sessions] in Hy. rewrite Hx' in Hy. injection Hy as <-. cbn in Hin.
      apply elem_of_filter_out in Hin as [? ?]. done.
    - cbn [ctxs set_sessions] in Hy. rewrite Hx' in Hy. injection Hy as <-. done. }
  destruct (Hl _ Hin') as (s' & Ho' & Hc & Hs'). exists s'. split_and!; [done|done|].
  rewrite lookup_delete_ne; [done|]. intros He. rewrite <- He, Hlook in Hs'. injection Hs' as <-.
  rewrite Ho' in Hobj. injection Hobj as <-. specialize (Hno (eq_sym Hc)).
  apply (has_id_false _ _ _ _ Ho') in Hno. congruence.
Qed.

Lemma removal_keeps : other_sessions (cx_sessions x) ≠ [] → wf unlisted.
Proof.
  intros Hne. pose proof Hwf as (Hs & Hus & Hh). split_and!.
  - intros sid' o' Hl'. unfold unlisted in Hl'. cbn [sessions_ set_ctx set_sessions] in Hl'.
    apply lookup_delete_Some in Hl' as [Hd Hl']. destruct (Hs _ _ Hl') as (s' & x' & Ho' & Hid & Hx' & Hin & Hu).
    destruct (removal_other sid' o' s' x') as (x1 & Hx1 & Hux & Hi); try done.
    exists s', x1. split_and!; try done. by rewrite Hux.
  - intros u c Hu. destruct (Hus _ _ Hu) as (x' & Hx' & Hxu & Hxe & _).
    unfold unlisted, user_ok. rewrite set_ctx_lookup. destruct (decide (c = sess_user s)) as [->|Hc].
    + cbn [ctxs set_sessions]. rewrite Hctx. rewrite Hctx in Hx'. injection Hx' as <-.
      eexists. split_and!; [done|done|by right|]. intros o' Hin.
      apply (removal_listed u (sess_user s) (with_sessions other_sessions x)); try done.
      unfold unlisted. rewrite set_ctx_lookup, decide_True by done. cbn [ctxs set_sessions]. by rewrite Hctx.
    + exists x'. split_and!; [done|done|done|]. intros o' Hin.
      apply (removal_listed u c x'); try done. unfold unlisted. by rewrite set_ctx_lookup, decide_False.
  - by apply heap_ok_set_ctx.
Qed.

Lemma removal_drops : other_sessions (cx_sessions x) = [] → wf (set_users (delete (cx_user x)) unlisted).
Proof.
  intros Hnil. pose proof Hwf as (Hs & Hus & Hh). split_and!.
  - intros sid' o' Hl'. unfold unlisted in Hl'. cbn [sessions_ set_ctx set_sessions set_users] in Hl'.
    apply lookup_delete_Some in Hl' as [Hd Hl']. destruct (Hs _ _ Hl') as (s' & x' & Ho' & Hid & Hx' & Hin & Hu).
    destruct (removal_other sid' o' s' x') as (x1 & Hx1 & Hux & Hi); try done.
    exists s', x1. split_and!; try done. cbn [users_ set_users set_ctx set_sessions]. rewrite Hux.
    apply lookup_delete_Some. split; [|done]. intros He. rewrite <- He, Hreg in Hu. injection Hu as Hu.
    rewrite <- Hu in Hx1. unfold unlisted in Hx1. rewrite set_ctx_lookup, decide_True in Hx1 by done.
    cbn [ctxs set_sessions] in Hx1. rewrite Hctx in Hx1. injection Hx1 as <-. cbn in Hi. rewrite Hnil in Hi.
    by apply elem_of_nil in Hi.
  - intros u c Hu. cbn [users_ set_users] in Hu. apply lookup_delete_Some in Hu as [Hd Hu].
    destruct (Hus _ _ Hu) as (x' & Hx' & Hxu & Hxe & _). exists x'.
    assert (c ≠ sess_user s). { intros ->. rewrite Hctx in Hx'. injection Hx' as <-. done. }
    assert (Hc : ctxs unlisted !! c = Some x') by (unfold unlisted; by rewrite set_ctx_lookup, decide_False).
    split_and!; [exact Hc|done|done|]. intros o' Hin. by apply (removal_listed u c x').
  - by apply heap_ok_set_ctx.
Qed.
End removal.

Lemma wf_removeSession_locked sid m m' p :
  wf m → removeSession_locked true sid m = Ok (m', p) → wf m'.
Proof.
  intros Hwf Hr. destruct (sessions_ m !! sid) as [o|] eqn:Hl.
  - destruct (removeSession_locked_cases sid o m Hwf Hl) as (s & x & Ho & Hx & Hu & Hcase).
    rewrite Hcase in Hr. destruct (bool_decide _) eqn:Hb; injection Hr as <- _.
    + apply bool_decide_eq_true in Hb. by eapply removal_drops.
    + apply bool_decide_eq_false in Hb. by eapply removal_keeps.
  - unfold removeSession_locked in Hr. rewrite Hl in Hr. by injection Hr as <- _.
Qed.

(** The publish state of every user survives a removal once what is pending
    is saved. *)
Lemma state_of_save u fresh p m :
  state_of u (savePublishState fresh p m) =
    match users_ m !! u with
    | Some c => cx_state <$> ctxs m !! c
    | None => if decide (p.1 = u)
              then Some (if publish_epoch p.2 =? 0 then {| publish_id := publish_id p.2; publish_epoch := fresh |} else p.2)
              else state_of u m
    end.
Proof.
  unfold state_of. cbn [users_ savePublishState set_states ctxs publish_states_ db_states].
  destruct (users_ m !! u); [done|]. destruct (decide (p.1 = u)) as [->|].
  - by rewrite lookup_insert_eq.
  - by rewrite !lookup_insert_ne.
Qed.

Lemma state_of_unlisted u c f m :
  state_of u (set_ctx c (with_sessions f) m) = state_of u m.
Proof.
  unfold state_of. destruct (users_ m !! u) as [c'|] eqn:Hu; cbn [users_ set_ctx]; rewrite Hu; [|done].
  rewrite set_ctx_lookup. destruct (decide (c' = c)) as [->|]; [|done]. by destruct (ctxs m !! c).
Qed.

Lemma removal_keeps_state fresh sid m m' p u s :
  wf m → removeSession_locked true sid m = Ok (m', p) →
  state_of u m = Some s → publish_epoch s ≠ 0 → state_of u (save_pending fresh p m') = Some s.
Proof.
  intros Hwf Hr Hst He. destruct (sessions_ m !! sid) as [o|] eqn:Hl.
  2: { unfold removeSession_locked in Hr. rewrite Hl in Hr. injection Hr as <- <-. done. }
  destruct (removeSession_locked_cases sid o m Hwf Hl) as (s0 & x & Ho & Hx & Hu & Hcase).
  rewrite Hcase in Hr. clear Hcase.
  assert (Hkeep : ∀ f, state_of u (set_ctx (sess_user s0) (with_sessions f) (set_sessions (delete sid) m)) = Some s)
    by (intros f; by rewrite state_of_unlisted).
  destruct (bool_decide _); injection Hr as <- <-; [|apply Hkeep].
  cbn [save_pending]. rewrite state_of_save. cbn [fst snd].
  destruct (decide (cx_user x = u)) as [<-|Hne].
  - cbn [users_ set_users]. rewrite lookup_delete_eq.
    unfold state_of in Hst. rewrite Hu, Hx in Hst. injection Hst as ->.
    by rewrite (proj2 (Z.eqb_neq _ _) He).
  - specialize (Hkeep (List.filter (λ o', negb (has_id m sid o')))).
    unfold state_of in Hkeep |- *. cbn [users_ set_users set_ctx set_sessions ctxs publish_states_ db_states] in *.
    rewrite lookup_delete_ne by done. by destruct (users_ m !! u).
Qed.

(** Saving states commutes with a removal: the timer is a sequence of
    removals, each saved at once. *)
Definition save_all (fresh : Z) (l : list PendingSave) (m : Manager) : Manager :=
  foldl (λ m p, savePublishState fresh p m) m l.

Lemma save_all_shape fresh l m : ∃ a b, save_all fresh l m = set_states a b m.
Proof.
  revert m. induction l as [|p l IH]; intros m; [by exists (publish_states_ m), (db_states m); destruct m|].
  cbn. destruct (IH (savePublishState fresh p m)) as (a & b & E). by exists a, b.
Qed.

Lemma removeSession_locked_states held sid a b m m' p :
  removeSession_locked held sid m = Ok (m', p) →
  removeSession_locked held sid (set_states a b m) = Ok (set_states a b m', p).
Proof.
  unfold removeSession_locked. cbn [sessions_ objs set_states set_ctx set_sessions ctxs].
  destruct (sessions_ m !! sid); [|by intros [= <- <-]].
  destruct (objs m !! _); [|done]. destruct (negb held); [done|].
  change (has_id (set_states a b m)) with (has_id m).
  destruct (alter _ _ _ !! _); [|done]. destruct (bool_decide _); by intros [= <- <-].
Qed.

Lemma publish_states_removal held sid m m' p :
  removeSession_locked held sid m = Ok (m', p) →
  publish_states_ m' = publish_states_ m ∧ db_states m' = db_states m.
Proof.
  unfold removeSession_locked. destruct (sessions_ m !! sid); [|by intros [= <- <-]].
  destruct (objs m !! _); [|done]. destruct (negb held); [done|].
  destruct (ctxs _ !! _); [|done]. destruct (bool_decide _); by intros [= <- <-].
Qed.

Lemma sessions_removal held sid m m' p :
  removeSession_locked held sid m = Ok (m', p) → sessions_ m' = delete sid (sessions_ m).
Proof.
  unfold removeSession_locked. destruct (sessions_ m !! sid) eqn:Hl.
  - destruct (objs m !! _); [|done]. destruct (negb held); [done|].
    destruct (ctxs _ !! _); [|done]. destruct (bool_decide _); by intros [= <- _].
  - intros [= <- _]. by rewrite delete_id.
Qed.

Lemma save_all_removal fresh held sid l m m' p :
  removeSession_locked held sid m = Ok (m', p) →
  removeSession_locked held sid (save_all fresh l m) = Ok (save_all fresh l m', p).
Proof.
  revert m m'. induction l as [|q l IH]; intros m m' Hr; [done|]. cbn. apply IH.
  destruct (publish_states_removal _ _ _ _ _ Hr) as [H1 H2].
  unfold savePublishState. rewrite H1, H2. by apply removeSession_locked_states.
Qed.

(** One removal with its save. *)
Inductive removals (fresh : Z) : Manager → Manager → Prop :=
| removals_nil m : removals fresh m m
| removals_cons sid m m1 p m2 :
    removeSession_locked true sid m = Ok (m1, p) → removals fresh (save_pending fresh p m1) m2 →
    removals fresh m m2.

Lemma expire_removals fresh now l m pend m' pend' :
  expire now l (m, pend) = Ok (m', pend') →
  removals fresh (save_all fresh pend m) (save_all fresh pend' m').
Proof.
  revert m pend. induction l as [|[sid o] l IH]; intros m pend; cbn [expire fst snd].
  - intros [= -> ->]. constructor.
  - destruct (objs m !! o) as [s|]; [|done]. destruct (_ <? now); [|apply IH].
    intros Hb. apply bind_Ok in Hb as ([m1 p] & Hr & Hb).
    eapply removals_cons; [exact (save_all_removal fresh true sid pend m m1 p Hr)|]. apply IH in Hb.
    replace (save_pending fresh p (save_all fresh pend m1)) with (save_all fresh (pend ++ option_list p) m1); [done|].
    unfold save_all. destruct p; cbn; [by rewrite foldl_app|by rewrite app_nil_r].
Qed.

Lemma onTimer_removals fresh now m m' : onTimer fresh now m = Ok m' → removals fresh m m'.
Proof.
  unfold onTimer. intros Hb. apply bind_Ok in Hb as ([m1 pend] & Hr & Hb). injection Hb as <-.
  by apply (expire_removals fresh _ _ m []) in Hr.
Qed.

Lemma removals_ok fresh m m' :
  removals fresh m m' → wf m →
  wf m' ∧ ∀ u s, state_of u m = Some s → publish_epoch s ≠ 0 → state_of u m' = Some s.
Proof.
  induction 1 as [|sid m m1 p m2 Hr _ IH]; intros Hwf; [done|].
  destruct IH as [H1 H2]; [exact (wfx_save_pending _ _ _ _ (wf_removeSession_locked _ _ _ _ Hwf Hr))|].
  split; [done|].
  intros u s Hs He. apply H2; [|done]. exact (removal_keeps_state _ _ _ _ _ _ _ Hwf Hr Hs He).
Qed.

(** A new context, a new session. *)
Lemma loadPublishState_spec u fresh m :
  users_ m !! u = None →
  let '(s, m') := loadPublishState u fresh m in
  (∃ a b, m' = set_states a b m) ∧
  (∀ s0, state_of u m = Some s0 → publish_epoch s0 ≠ 0 → s = s0) ∧
  ∀ v, v ≠ u → state_of v m' = state_of v m.
Proof.
  intros Hu. unfold loadPublishState, state_of. rewrite Hu.
  destruct (publish_states_ m !! u) as [s|].
  { split_and!; [exists (publish_states_ m), (db_states m); by destruct m|by intros s0 [= ->]|done]. }
  destruct (db_states m !! u) as [row|]; (split_and!; [by eexists _, _| |]).
  - intros s0 [= ->] He. by rewrite (proj2 (Z.eqb_neq _ _) He).
  - intros v Hv. cbn. by rewrite !lookup_insert_ne.
  - done.
  - intros v Hv. cbn. by rewrite !lookup_insert_ne.
Qed.

Lemma fresh_addr ex m : wfx ex m → ctxs m !! next_addr m = None ∧ objs m !! next_addr m = None.
Proof.
  intros (_ & _ & H1 & H2 & _). split; apply eq_None_not_Some; intros H; [specialize (H1 _ H)|specialize (H2 _ H)]; lia.
Qed.

Lemma new_context_ok u fresh m m' c :
  wf m → users_ m !! u = None → new_context u fresh m = (m', c) →
  wfx (Some c) m' ∧ sessions_ m' = sessions_ m ∧ users_ m' !! u = Some c ∧
  (∃ x, ctxs m' !! c = Some x ∧ cx_user x = u) ∧
  ∀ v s, state_of v m = Some s → publish_epoch s ≠ 0 → state_of v m' = Some s.
Proof.
  intros Hwf Hu Hn. unfold new_context in Hn. pose proof (loadPublishState_spec u fresh m Hu) as Hl.
  destruct (loadPublishState u fresh m) as [s m0]. destruct Hl as ((a & b & ->) & Hsame & Hother).
  injection Hn as <- <-. destruct (fresh_addr _ _ Hwf) as [Hc _].
  pose proof Hwf as (Hs & Hus & H1 & H2 & H3). cbn [next_addr set_states].
  assert (Hold : ∀ c' x, ctxs m !! c' = Some x → c' ≠ next_addr m).
  { intros c' x Hx ->. by rewrite Hc in Hx. }
  split_and!.
  - split_and!.
    + intros sid o Hl. destruct (Hs sid o Hl) as (s' & x & Ho & Hid & Hx & Hin & Hux). exists s', x.
      cbn [objs ctxs users_ set_states]. split_and!; [done|done|..|done|].
      * rewrite lookup_insert_ne; [done|]. intros He. by apply (Hold _ _ Hx).
      * rewrite lookup_insert_ne; [done|]. intros He. by rewrite <- He, Hu in Hux.
    + intros v c' Hv. cbn [users_ set_states] in Hv. unfold user_ok. cbn [ctxs objs sessions_ set_states].
      apply lookup_insert_Some in Hv as [[<- <-]|[Hne Hv]].
      * rewrite lookup_insert_eq. eexists. split_and!; [done|done|by left|]. intros o Ho. by apply elem_of_nil in Ho.
      * destruct (Hus _ _ Hv) as (x & Hx & Hxu & [He|He] & Hl); [done|]. exists x.
        rewrite lookup_insert_ne by (intros He'; by apply (Hold _ _ Hx)). split_and!; [done|done|by right|done].
    + unfold heap_ok. cbn [ctxs objs next_connected_order_ next_addr set_states]. split_and!; [| |tauto..].
      * intros c' [x [[<- <-]|[_ Hx]]%lookup_insert_Some]; [lia|]. specialize (H1 c' (mk_is_Some _ _ Hx)). lia.
      * intros o Ho. specialize (H2 o Ho). lia.
  - done.
  - cbn [users_ set_states]. apply lookup_insert_eq.
  - eexists. cbn [ctxs set_states]. split; [apply lookup_insert_eq|done].
  - intros v s0 Hv He. destruct (decide (v = u)) as [->|Hne].
    + rewrite <- (Hsame s0) by done. unfold state_of. cbn [users_ ctxs set_states].
      rewrite lookup_insert_eq. by rewrite lookup_insert_eq.
    + specialize (Hother v Hne). rewrite Hv in Hother. rewrite <- Hother. unfold state_of.
      cbn [users_ ctxs publish_states_ db_states set_states]. rewrite lookup_insert_ne by done.
      destruct (users_ m !! v) as [c'|] eqn:Hvc; [|done].
      destruct (Hus _ _ Hvc) as (x & Hx & _). rewrite lookup_insert_ne; [done|].
      intros He'. by apply (Hold _ _ Hx).
Qed.

Lemma wfx_weaken c m : wf m → wfx (Some c) m.
Proof.
  intros (Hs & Hus & Hh). split_and!; [done| |done]. intros u c' Hu.
  destruct (Hus _ _ Hu) as (x & Hx & Hxu & [|He] & Hl); [done|]. exists x. split_and!; [done|done|by right|done].
Qed.

Lemma add_session_state now dev sid c m u :
  state_of u (add_session now dev sid c m).1 = state_of u m.
Proof.
  unfold state_of. cbn. destruct (users_ m !! u) as [c'|]; [|done].
  destruct (decide (c' = c)) as [->|]; [|by rewrite lookup_alter_ne].
  rewrite lookup_alter_eq. by destruct (ctxs m !! c).
Qed.

Lemma add_session_ok now dev sid c u x m :
  wfx (Some c) m → users_ m !! u = Some c → ctxs m !! c = Some x → sessions_ m !! sid = None →
  wf (add_session now dev sid c m).1.
Proof.
  intros Hwf Hu Hx Hn. destruct (fresh_addr _ _ Hwf) as [_ Hf].
  pose proof Hwf as (Hs & Hus & H1 & H2 & H3 & H4 & H5).
  assert (Hold : ∀ o s, objs m !! o = Some s → o ≠ next_addr m) by (intros o s Ho ->; by rewrite Hf in Ho).
  assert (Hxu : cx_user x = u) by (destruct (Hus _ _ Hu) as (x' & Hx' & ? & _); congruence).
  cbn [add_session fst]. split_and!.
  - intros sid' o Hl. unfold session_ok. cbn [objs ctxs users_ sessions_] in *.
    apply lookup_insert_Some in Hl as [[<- <-]|[Hne Hl]].
    + eexists _, (with_sessions (λ l, l ++ [next_addr m]) x). split_and!;
        [apply lookup_insert_eq|done|cbn; by rewrite lookup_alter_eq, Hx| |cbn; by rewrite Hxu].
      cbn. apply elem_of_app. right. by left.
    + destruct (Hs _ _ Hl) as (s & y & Ho & Hid & Hy & Hin & Hyu).
      exists s, (if decide (sess_user s = c) then with_sessions (λ l, l ++ [next_addr m]) y else y).
      split_and!; [rewrite lookup_insert_ne; [done|by intros He; apply (Hold _ _ Ho)]|done|..].
      * destruct (decide (sess_user s = c)) as [He|]; [by rewrite He, lookup_alter_eq, <- He, Hy|by rewrite lookup_alter_ne].
      * destruct (decide _); [cbn; apply elem_of_app; by left|done].
      * by destruct (decide _).
  - intros v c' Hv. destruct (Hus _ _ Hv) as (y & Hy & Hyu & Hne & Hl). unfold user_ok.
    cbn [objs ctxs users_ sessions_] in *.
    assert (Hkeep : ∀ o, o ∈ cx_sessions y → ∃ s, <[next_addr m := {| sess_id := sid; sess_device := dev;
        sess_user := c; sess_order := next_connected_order_ m; last_access := now |}]> (objs m) !! o = Some s ∧
        sess_user s = c' ∧ <[sid := next_addr m]> (sessions_ m) !! sess_id s = Some o).
    { intros o Ho. destruct (Hl o Ho) as (s & Hso & Hsc & Hsl). exists s.
      split_and!; [rewrite lookup_insert_ne; [done|by intros He; apply (Hold _ _ Hso)]|done|].
      rewrite lookup_insert_ne; [done|]. intros He. by rewrite <- He, Hn in Hsl. }
    destruct (decide (c' = c)) as [->|Hc].
    + exists (with_sessions (λ l, l ++ [next_addr m]) y). split_and!;
        [by rewrite lookup_alter_eq, Hy|done|right; cbn; by destruct (cx_sessions y)|].
      intros o [Ho|Ho%list_elem_of_singleton]%elem_of_app; [by apply Hkeep|]. subst o.
      eexists. split_and!; [apply lookup_insert_eq|done|]. cbn. apply lookup_insert_eq.
    + exists y. rewrite lookup_alter_ne by done. split_and!; [done|done| |done].
      destruct Hne as [[= ->]|]; [done|by right].
  - unfold heap_ok. cbn [objs ctxs next_addr next_connected_order_]. split_and!; [| |lia|..].
    + intros c' Hc. assert (is_Some (ctxs m !! c')) as Hc'.
      { destruct (decide (c' = c)) as [->|]; [by rewrite Hx|by rewrite lookup_alter_ne in Hc]. }
      specialize (H1 _ Hc'). lia.
    + intros o [s [[<- _]|[_ Ho]]%lookup_insert_Some]; [lia|]. specialize (H2 o (mk_is_Some _ _ Ho)). lia.
    + intros o s [[_ <-]|[_ Ho]]%lookup_insert_Some; [cbn; lia|]. specialize (H4 _ _ Ho). lia.
    + intros o o' s s' [[<- <-]|[_ Ho]]%lookup_insert_Some [[<- <-]|[_ Ho']]%lookup_insert_Some; cbn; [done|..|by apply H5].
      * specialize (H4 _ _ Ho'). lia.
      * specialize (H4 _ _ Ho). lia.
Qed.

(** What a creation does: the session is new, of that device and that id,
    in the context of the device's user. *)
Lemma create_session_ok fresh now dev sid m m' r :
  wf m → sessions_ m !! sid = None → create_session fresh now dev sid m = (m', r) →
  wf m' ∧ (∀ u s, state_of u m = Some s → publish_epoch s ≠ 0 → state_of u m' = Some s) ∧
  match r with
  | Ok o => ∃ s d, objs m' !! o = Some s ∧ sess_id s = sid ∧ sess_device s = dev ∧
      device_row dev = Some d ∧ users_ m' !! d_user d = Some (sess_user s) ∧
      sessions_ m' = <[sid := o]> (sessions_ m)
  | Throw _ => m' = m
  end.
Proof.
  intros Hwf Hn. unfold create_session, getUserContext.
  destruct (device_row dev) as [d|]; [|by intros [= <- <-]].
  destruct (d_enabled d); cbn [negb]; [|by intros [= <- <-]].
  destruct (users_ m !! d_user d) as [c|] eqn:Hu.
  - intros [= <- <-]. pose proof Hwf as (_ & Hus & _). destruct (Hus _ _ Hu) as (x & Hx & _).
    split_and!.
    + apply (add_session_ok now dev sid c (d_user d) x); [by apply wfx_weaken|done..].
    + intros u s Hst _. rewrite <- Hst. by apply (add_session_state now dev sid c m u).
    + eexists _, d. split_and!; [cbn; apply lookup_insert_eq|done..].
  - destruct (user_row (d_user d)) as [r0|]; [|by intros [= <- <-]].
    destruct (u_tenant_state r0) as [ts|]; [|by intros [= <- <-]].
    destruct (decide (ts = SUSPENDED)) as [->|Hts]; [by intros [= <- <-]|].
    replace (match ts with SUSPENDED => (m, Throw (server_err Error.TENANT_SUSPENDED)) | _ => _ end)
      with (if negb (u_active r0) then (m, Throw (server_err Error.USER_SUSPENDED))
            else if negb (u_readable r0) then (m, Throw runtime_error)
            else let '(m0, c) := new_context (d_user d) fresh m in (m0, Ok c)) by (by destruct ts).
    destruct (u_active r0); cbn [negb]; [|by intros [= <- <-]].
    destruct (u_readable r0); cbn [negb]; [|by intros [= <- <-]].
    destruct (new_context (d_user d) fresh m) as [m0 c] eqn:Hc.
    destruct (new_context_ok _ _ _ _ _ Hwf Hu Hc) as (Hw & Hss & Hu0 & (x & Hx & Hxu) & Hst).
    intros [= <- <-]. split_and!.
    + apply (add_session_ok now dev sid c (d_user d) x); [done..|by rewrite Hss].
    + intros u s Hs He. rewrite <- (Hst _ _ Hs He). by apply (add_session_state now dev sid c m0 u).
    + eexists _, d. split_and!; [cbn; apply lookup_insert_eq|done|done|done|done|cbn; by rewrite Hss].
Qed.

(** What [getSession] answers in a well-formed state. *)
Definition get_post (p : Peer) (m m' : Manager) (r : result nat) : Prop :=
  match r with
  | Ok o => ∃ s dev, peer_device p = Ok dev ∧ objs m' !! o = Some s ∧ sess_device s = dev ∧
      (∀ sid, meta_sid p = Some sid → sess_id s = sid) ∧ sessions_ m' !! sess_id s = Some o ∧
      ((m' = m ∧ sessions_ m !! sess_id s = Some o) ∨ sessions_ m' = <[sess_id s := o]> (sessions_ m))
  | Throw e => m' = m ∨ ∃ sid, meta_sid p = Some sid ∧ sessions_ m' !! sid = None ∧ e = server_err Error.AUTH_FAILED
  end.

Lemma getSession_ok held fresh now new_sid p allow m m' r :
  wf m → sessions_ m !! new_sid = None → getSession held fresh now new_sid p allow m = (m', r) →
  wf m' ∧ (∀ u s, state_of u m = Some s → publish_epoch s ≠ 0 → state_of u m' = Some s) ∧
  get_post p m m' r.
Proof.
  intros Hwf Hn. unfold getSession. destruct (peer_device p) as [dev|e] eqn:Hp.
  2: { intros [= <- <-]. split_and!; [done|done|by left]. }
  assert (Hcreate : ∀ sid, sessions_ m !! sid = None → (∀ sid', meta_sid p = Some sid' → sid' = sid) →
    create_session fresh now dev sid m = (m', r) →
    wf m' ∧ (∀ u s, state_of u m = Some s → publish_epoch s ≠ 0 → state_of u m' = Some s) ∧ get_post p m m' r).
  { intros sid Hsid Hmeta Hc. destruct (create_session_ok _ _ _ _ _ _ _ Hwf Hsid Hc) as (H1 & H2 & H3).
    split_and!; [done|done|]. destruct r as [o|e]; [|by left].
    destruct H3 as (s & d & Ho & Hid & Hd & _ & _ & Hs). exists s, dev. rewrite Hid, Hs.
    split_and!; [done|done|done|by intros sid' H; rewrite (Hmeta _ H)|apply lookup_insert_eq|by right]. }
  destruct (meta_sid p) as [sid|] eqn:Hm.
  2: { destruct allow; cbn [negb]; [by apply Hcreate|]. intros [= <- <-]. split_and!; [done|done|by left]. }
  unfold find_session. destruct (sessions_ m !! sid) as [o|] eqn:Hl; [|apply Hcreate; [done|by intros ? [= ->]]].
  pose proof Hwf as (Hs & _). destruct (Hs _ _ Hl) as (s & x & Ho & Hid & Hx & Hin & Hu). rewrite Ho, Hx.
  destruct (cx_valid x); cbn [negb].
  - destruct (Z.eqb_spec (sess_device s) dev) as [Hd|]; intros [= <- <-]; (split_and!; [done|done|]); [|by left].
    exists s, dev. rewrite Hid. split_and!; [done|done|done|by rewrite Hm; intros ? [= ->]|done|by left].
  - destruct (removeSession_locked held sid m) as [[m1 pend]|e] eqn:Hr.
    + assert (Hr' : removeSession_locked true sid m = Ok (m1, pend)).
      { destruct held; [done|]. revert Hr. unfold removeSession_locked. by rewrite Hl, Ho. }
      intros [= <- <-]. split_and!.
      * apply wfx_save_pending. by eapply wf_removeSession_locked.
      * intros u st Hst He. exact (removal_keeps_state _ _ _ _ _ _ _ Hwf Hr' Hst He).
      * right. exists sid. split_and!; [done| |done].
        pose proof (sessions_removal _ _ _ _ _ Hr') as Hg.
        destruct pend; cbn [save_pending savePublishState sessions_ set_states]; rewrite Hg; apply lookup_delete_eq.
    + intros [= <- <-]. split_and!; [done|done|by left].
Qed.

Lemma wf_set_ctx c f m :
  (∀ x, cx_user (f x) = cx_user x ∧ cx_sessions (f x) = cx_sessions x) → wf m → wf (set_ctx c f m).
Proof.
  intros Hf (Hs & Hus & Hh). split_and!; [| |by apply heap_ok_set_ctx].
  - intros sid o Hl. destruct (Hs _ _ Hl) as (s & x & Ho & Hid & Hx & Hin & Hu).
    exists s, (if decide (sess_user s = c) then f x else x). rewrite set_ctx_lookup.
    destruct (Hf x) as [H1 H2]. split_and!; [done|done|..].
    + destruct (decide _) as [He|]; [by rewrite <- He, Hx|done].
    + destruct (decide _); [by rewrite H2|done].
    + destruct (decide _); [by rewrite H1|done].
  - intros u c' Hu. destruct (Hus _ _ Hu) as (x & Hx & Hxu & Hne & Hl).
    unfold user_ok. rewrite set_ctx_lookup. destruct (decide (c' = c)) as [->|]; [|by exists x].
    exists (f x). destruct (Hf x) as [H1 H2]. rewrite Hx, H1, H2. done.
Qed.

Lemma wf_touch now o m : wf m → wf (touch now o m).
Proof.
  intros (Hs & Hus & H1 & H2 & H3 & H4 & H5). unfold touch.
  set (g := λ s : Sess, {| sess_id := sess_id s; sess_device := sess_device s;
    sess_user := sess_user s; sess_order := sess_order s; last_access := now |}).
  assert (Hg : ∀ o', ∃ h : Sess → Sess, alter g o (objs m) !! o' = h <$> objs m !! o' ∧
    ∀ s, sess_id (h s) = sess_id s ∧ sess_user (h s) = sess_user s ∧ sess_order (h s) = sess_order s).
  { intros o'. destruct (decide (o' = o)) as [->|]; [exists g|exists id].
    - by rewrite lookup_alter_eq.
    - rewrite lookup_alter_ne by done. split; [by destruct (objs m !! o')|done]. }
  split_and!.
  - intros sid o' Hl. destruct (Hs _ _ Hl) as (s & x & Ho & Hid & Hx & Hin & Hu).
    destruct (Hg o') as (h & He & Hh). destruct (Hh s) as (? & E & ?). exists (h s), x. cbn [objs ctxs users_].
    rewrite He, Ho, E. split_and!; [done|congruence|done..].
  - intros u c Hu. destruct (Hus _ _ Hu) as (x & Hx & Hxu & Hne & Hl). exists x. split_and!; [done..|].
    intros o' Hin. destruct (Hl _ Hin) as (s & Ho & Hc & Hsid). destruct (Hg o') as (h & He & Hh).
    destruct (Hh s) as (E1 & E2 & E3). exists (h s). cbn [objs sessions_]. rewrite He, Ho, E1, E2. done.
  - unfold heap_ok. cbn [objs ctxs next_addr next_connected_order_]. split_and!; [done| |done|..].
    + intros o'. destruct (Hg o') as (h & -> & _). rewrite fmap_is_Some. apply H2.
    + intros o' s. destruct (Hg o') as (h & -> & Hh). intros (s0 & Ho & ->)%fmap_Some.
      destruct (Hh s0) as (_ & _ & ->). by eapply H4.
    + intros o1 o2 s1 s2. destruct (Hg o1) as (h1 & -> & Hh1), (Hg o2) as (h2 & -> & Hh2).
      intros (t1 & Ho1 & ->)%fmap_Some (t2 & Ho2 & ->)%fmap_Some.
      destruct (Hh1 t1) as (_ & _ & ->), (Hh2 t2) as (_ & _ & ->). by eapply H5.
Qed.

(** The state of a user after a step, given how often it was published to. *)
Definition next_state (u : Z) (l : option Z) (s : UserPublishState) : UserPublishState :=
  if bool_decide (l = Some u) then {| publish_id := u32 (publish_id s + 1); publish_epoch := publish_epoch s |} else s.

Lemma state_of_set_ctx u c f m :
  (∀ x, cx_state (f x) = cx_state x) → state_of u (set_ctx c f m) = state_of u m.
Proof.
  intros Hf. unfold state_of. cbn [users_ set_ctx]. destruct (users_ m !! u) as [c'|]; [|done].
  rewrite set_ctx_lookup. destruct (decide (c' = c)) as [->|]; [|done].
  destruct (ctxs m !! c); cbn; [by rewrite Hf|done].
Qed.

Lemma step_ok m l m' :
  wf m → step m l m' →
  wf m' ∧ ∀ u s, state_of u m = Some s → publish_epoch s ≠ 0 → state_of u m' = Some (next_state u l s).
Proof.
  intros Hwf Hst. destruct Hst as [held fresh now new_sid p allow m m' r _ Hn Hg _|fresh sid m m' _ Hr
    |fresh now m m' _ Hr|c x m Hx Hu|c m|now o m].
  - destruct (getSession_ok _ _ _ _ _ _ _ _ _ Hwf Hn Hg) as (H1 & H2 & _). done.
  - unfold removeSession in Hr. apply bind_Ok in Hr as ([m1 p] & Hr & Hb). injection Hb as <-. split.
    + apply wfx_save_pending. by eapply wf_removeSession_locked.
    + intros u s Hs He. exact (removal_keeps_state _ _ _ _ _ _ _ Hwf Hr Hs He).
  - apply onTimer_removals in Hr. by destruct (removals_ok _ _ _ Hr Hwf).
  - split; [by apply wf_set_ctx|]. intros u s Hs He. unfold next_state.
    unfold state_of, publish_next in *. cbn [users_ set_ctx publish_states_ db_states] in *.
    destruct (users_ m !! u) as [c'|] eqn:Huc.
    + rewrite set_ctx_lookup. destruct (decide (c' = c)) as [->|Hne].
      * rewrite Hx in Hs |- *. injection Hs as <-.
        rewrite bool_decide_true; [done|]. f_equal.
        destruct Hwf as (_ & Hus & _). destruct (Hus _ _ Huc) as (x' & Hx' & <- & _). congruence.
      * rewrite bool_decide_false; [done|]. intros [= He']. rewrite He' in Hu. congruence.
    + rewrite bool_decide_false; [done|]. intros [= He']. rewrite He' in Hu. congruence.
  - split; [by apply wf_set_ctx|]. intros u s Hs He. unfold setAsInvalid. by rewrite state_of_set_ctx.
  - split; [by apply wf_touch|]. done.
Qed.

Lemma run_ok m ls m' :
  run m ls m' → wf m →
  wf m' ∧ ∀ u s, state_of u m = Some s → publish_epoch s ≠ 0 → 0 ≤ publish_id s < 2 ^ 32 →
    state_of u m' = Some {| publish_id := u32 (publish_id s + published u ls); publish_epoch := publish_epoch s |}.
Proof.
  induction 1 as [m|m l m1 ls m2 Hst _ IH]; intros Hwf.
  - split; [done|]. intros u s Hs _ Hr. change (published u []) with 0. rewrite Z.add_0_r, wrap_small by done.
    by destruct s.
  - destruct (step_ok _ _ _ Hwf Hst) as [H1 H2]. destruct (IH H1) as [H3 H4]. split; [done|].
    intros u s Hs He Hr. specialize (H2 u s Hs He). apply H4 in H2.
    + rewrite H2. unfold next_state, published. cbn [List.filter]. destruct (bool_decide (l = Some u)); cbn [publish_id publish_epoch length]; [|done].
      f_equal. f_equal. unfold wrap. rewrite Zplus_mod_idemp_l. f_equal. lia.
    + unfold next_state. by destruct (bool_decide _).
    + unfold next_state. destruct (bool_decide _); [apply wrap_range; lia|done].
Qed.

(** A server that has just started. *)
Definition started (db : gmap Z UserPublishState) : Manager :=
  {| sessions_ := ∅; users_ := ∅; publish_states_ := ∅; next_connected_order_ := 1;
     db_states := db; ctxs := ∅; objs := ∅; next_addr := 0 |}.

Lemma started_wf db : wf (started db).
Proof.
  split_and!; [by intros ? ? H; cbn in H; rewrite lookup_empty in H..|].
  unfold heap_ok. cbn. split_and!; try lia; intros *; rewrite ?lookup_empty; try done; by intros [? ?].
Qed.
End manager.

(** The tables of the session manager agree with the users' contexts
    whatever requests, closed streams, timer rounds, publications and
    invalidations follow one another: the context a session belongs to is
    the one context registered for its user, and lists it; a registered
    context lists sessions of the table only, and always at least one, so a
    user has a context exactly as long as there are sessions; and sessions
    connect in a strict order that starts above zero. *)
Theorem session_tables_agree skip timeout device_row user_row db ls m :
  run skip timeout device_row user_row (started db) ls m →
  (∀ sid o, sessions_ m !! sid = Some o → ∃ s x, objs m !! o = Some s ∧ sess_id s = sid ∧
     ctxs m !! sess_user s = Some x ∧ o ∈ cx_sessions x ∧ users_ m !! cx_user x = Some (sess_user s)) ∧
  (∀ u c, users_ m !! u = Some c → ∃ x, ctxs m !! c = Some x ∧ cx_user x = u ∧ cx_sessions x ≠ [] ∧
     ∀ o, o ∈ cx_sessions x → ∃ s, objs m !! o = Some s ∧ sess_user s = c ∧ sessions_ m !! sess_id s = Some o) ∧
  (∀ o o' s s', objs m !! o = Some s → objs m !! o' = Some s' →
     0 < sess_order s ∧ (sess_order s = sess_order s' → o = o')).
Proof.
  intros Hr. destruct (run_ok _ _ _ _ _ _ _ Hr (started_wf db)) as [(Hs & Hus & _ & _ & _ & H4 & H5) _].
  split_and!; [exact Hs| |].
  - intros u c Hu. destruct (Hus _ _ Hu) as (x & Hx & Hxu & [|Hne] & Hl); [done|by exists x].
  - intros o o' s s' Ho Ho'. split; [by destruct (H4 _ _ Ho)|by apply H5].
Qed.


(** [getSession] gives a caller only a session of its own device: a
    session it returns is in the table, belongs to the device that the
    certificate (or, without TLS, the meta-data) names and has the id the
    caller asked for, if it asked for one; it is the session of that id when
    there is one and a new one otherwise.  When it throws, nothing has
    changed but that the session of an invalidated user is gone. *)
Theorem getSession_spec skip timeout device_row user_row db ls held fresh now new_sid p allow m m' r :
  run skip timeout device_row user_row (started db) ls m → sessions_ m !! new_sid = None →
  getSession skip device_row user_row held fresh now new_sid p allow m = (m', r) →
  match r with
  | Ok o => ∃ s dev, peer_device skip p = Ok dev ∧ objs m' !! o = Some s ∧ sess_device s = dev ∧
      (∀ sid, meta_sid p = Some sid → sess_id s = sid) ∧ sessions_ m' !! sess_id s = Some o ∧
      ((m' = m ∧ sessions_ m !! sess_id s = Some o) ∨ sessions_ m' = <[sess_id s := o]> (sessions_ m))
  | Throw e => m' = m ∨ ∃ sid, meta_sid p = Some sid ∧ sessions_ m' !! sid = None ∧ e = server_err Error.AUTH_FAILED
  end.
Proof.
  intros Hr Hn Hg. destruct (run_ok _ _ _ _ _ _ _ Hr (started_wf db)) as [Hwf _].
  eapply getSession_ok in Hg as (_ & _ & H); done.
Qed.

(** The saved number comes too late when a user logs in while its last
    session is removed: [removeSession] drops the context under the lock and
    saves its publish state after it; a request that looks the user up in
    between creates a new context from the state saved before, and keeps
    using it.  Updates then get numbers that other updates of the same
    epoch already had. *)
Theorem concurrent_login_reuses_numbers device_row user_row fresh sid dev d m m1 p m2 c s0 :
  removeSession_locked true sid m = Ok (m1, Some p) →
  device_row dev = Some d → d_user d = p.1 →
  publish_states_ m !! p.1 = Some s0 →
  getUserContext device_row user_row fresh dev m1 = (m2, Ok c) →
  state_of (p.1) (savePublishState fresh p m2) = Some s0.
Proof.
  intros Hr Hd Hu Hp Hg. destruct (publish_states_removal _ _ _ _ _ Hr) as [H1 _].
  assert (Hnone : users_ m1 !! p.1 = None).
  { revert Hr. unfold removeSession_locked. destruct (sessions_ m !! sid); [|done].
    destruct (objs m !! _); [|done]. cbn [negb]. destruct (ctxs _ !! _) as [x|]; [|done].
    destruct (bool_decide _); [|done]. intros [= <- <-]. cbn. apply lookup_delete_eq. }
  unfold getUserContext in Hg. rewrite Hd in Hg. destruct (d_enabled d); [|done]. cbn [negb] in Hg.
  rewrite Hu, Hnone in Hg. destruct (user_row (p.1)) as [r|]; [|done].
  assert (Hnew : new_context (p.1) fresh m1 = (m2, c)).
  { destruct (u_tenant_state r) as [[]|]; try done; destruct (u_active r); cbn [negb] in Hg; try done;
      destruct (u_readable r); cbn [negb] in Hg; try done;
      destruct (new_context (p.1) fresh m1); by injection Hg as <- <-. }
  unfold new_context, loadPublishState in Hnew. rewrite H1, Hp in Hnew. injection Hnew as <- <-.
  rewrite state_of_save. cbn [users_ ctxs]. rewrite lookup_insert_eq. by rewrite lookup_insert_eq.
Qed.

(** ** Examples *)
Definition example_device (dev : Z) : option DeviceRow :=
  if (dev =? 10) || (dev =? 11) then Some {| d_user := 1; d_enabled := true |} else None.

Definition example_user (u : Z) : option UserRow :=
  Some {| u_tenant_state := Some ACTIVE; u_active := true; u_readable := true |}.

Definition example_peer (dev sid : Z) : Peer :=
  {| authenticated := true; cert_names := [dev]; meta_did := None; meta_sid := Some sid |}.

(** Device 10 of user 1 connects as session 100. *)
Definition example_login : Manager :=
  (getSession false example_device example_user true 7 0 999 (example_peer 10 100) true (started ∅)).1.

Lemma example_login_run : run false 60 example_device example_user (started ∅) [None] example_login.
Proof.
  eapply run_cons; [|apply run_nil].
  eapply (step_get false 60 example_device example_user true 7 0 999 (example_peer 10 100) true
    (started ∅) _ (Ok 1%nat)); [lia|reflexivity|vm_compute; reflexivity|done].
Defined.

Lemma session_tables_agree_witness :
  sessions_ example_login !! 100 = Some 1%nat ∧
  ∃ s x, objs example_login !! 1%nat = Some s ∧ sess_id s = 100 ∧
     ctxs example_login !! sess_user s = Some x ∧ 1%nat ∈ cx_sessions x ∧
     users_ example_login !! cx_user x = Some (sess_user s).
Proof.
  split; [vm_compute; reflexivity|].
  apply (proj1 (session_tables_agree false 60 example_device example_user ∅ [None] example_login example_login_run)).
  vm_compute. reflexivity.
Defined.

(** Two updates, the last session goes, device 11 connects: number 2 and
    the same epoch. *)
Definition example_published : Manager := publish_next 0 (publish_next 0 example_login).

Definition example_ctx (n : Z) : Ctx :=
  {| cx_user := 1; cx_valid := true; cx_sessions := [1%nat]; cx_state := {| publish_id := n; publish_epoch := 7 |} |}.

Definition example_gone : Manager :=
  match removeSession 9 100 example_published with Ok m => m | Throw _ => example_published end.


Lemma getSession_spec_witness :
  getSession false example_device example_user true 7 0 999 (example_peer 11 100) true example_login =
    (example_login, Throw (server_err Error.AUTH_FAILED)) ∧
  (example_login = example_login ∨ ∃ sid, meta_sid (example_peer 11 100) = Some sid ∧
     sessions_ example_login !! sid = None ∧ server_err Error.AUTH_FAILED = server_err Error.AUTH_FAILED).
Proof.
  split; [vm_compute; reflexivity|].
  apply (getSession_spec false 60 example_device example_user ∅ [None] true 7 0 999 (example_peer 11 100) true
    example_login example_login (Throw (server_err Error.AUTH_FAILED)) example_login_run); vm_compute; reflexivity.
Defined.

(** The same two updates, but device 11 logs in before the state is saved:
    the next update of epoch 7 is number 1 again. *)
Lemma concurrent_login_reuses_numbers_witness :
  state_of 1 example_published = Some {| publish_id := 2; publish_epoch := 7 |} ∧
  ∃ m1 p m2 c, removeSession_locked true 100 example_published = Ok (m1, Some p) ∧ p.1 = 1 ∧
    getUserContext example_device example_user 9 11 m1 = (m2, Ok c) ∧
    state_of (p.1) (savePublishState 9 p m2) = Some {| publish_id := 0; publish_epoch := 7 |}.
Proof.
  split; [vm_compute; reflexivity|]. eexists _, _, _, _.
  split; [vm_compute; reflexivity|]. split; [reflexivity|]. split; [vm_compute; reflexivity|].
  eapply (concurrent_login_reuses_numbers example_device example_user 9 100 11
    {| d_user := 1; d_enabled := true |} example_published); vm_compute; reflexivity.
Defined.
