(* ===== verification/ClientSync.v ===== *)
(** * How a client stays in step with the server

    The part of [ServerComm] (src/src/NextAppUi/ServerComm.cpp) that decides,
    when a session starts, between a durable sync and a replay of the missed
    updates, holds back the updates that arrive during the sync, applies the
    live ones in order, and asks for a repair when one is missing.  The
    server's side is the log of [PublishLog.v]. *)
From S2P Require Import Prelude PublishLog.

#[local] Open Scope Z_scope.
#[local] Open Scope nextapp_scope.

(** ** State *)

(** [pb::Hello], as far as the decision reads it. *)
Record Hello := {
  lastPublishId : Z;
  serverInstanceTag : Z;
  userPublishEpoch : Z;
  userDataEpoch : Z;
  oldestRetainedPublishId : option Z;
  supportsUpdatedId : bool
}.

(** What survives the client: the file of [saveValuesToFile], the settings
    and the table [sync_state]. *)
Record Saved := {
  last_seen_update_id : Z;
  last_seen_server_instance : Z;
  last_seen_user_publish_epoch : Z;
  user_data_epoch : Z;
  incremental_repair : bool;
  resync_pending : bool;
  updatedIdInitialized : bool
}.

(** The members of [ServerComm] of a running session; [applying] is the
    update [drainLiveUpdateQueue] waits for. *)
Record Live := {
  session_start_publish_id : Z;
  session_user_publish_epoch : Z;
  session_user_data_epoch : Z;
  deferred_update_id : Z;
  queued_update_id : Z;
  deferred_updates : list Z;
  live_update_apply_queue : list Z;
  applying : option Z;
  draining_live_updates : bool
}.

Record Client := { saved : Saved; live : Live }.

(** The locals of [startNextappSession]. *)
Record SessionPlan := { needs_sync : bool; full_sync : bool; server_reset_detected : bool }.

Definition set_saved (f : Saved → Saved) (c : Client) : Client := {| saved := f (saved c); live := live c |}.
Definition set_live (f : Live → Live) (c : Client) : Client := {| saved := saved c; live := f (live c) |}.

Definition with_seen (id inst ep : Z) (s : Saved) : Saved :=
  {| last_seen_update_id := id; last_seen_server_instance := inst; last_seen_user_publish_epoch := ep;
     user_data_epoch := user_data_epoch s; incremental_repair := incremental_repair s;
     resync_pending := resync_pending s; updatedIdInitialized := updatedIdInitialized s |}.

Definition with_last_seen (id : Z) (s : Saved) : Saved :=
  with_seen id (last_seen_server_instance s) (last_seen_user_publish_epoch s) s.

Definition with_repair (b : bool) (s : Saved) : Saved :=
  {| last_seen_update_id := last_seen_update_id s; last_seen_server_instance := last_seen_server_instance s;
     last_seen_user_publish_epoch := last_seen_user_publish_epoch s; user_data_epoch := user_data_epoch s;
     incremental_repair := b; resync_pending := resync_pending s; updatedIdInitialized := updatedIdInitialized s |}.

(** The deferred updates with their last number. *)
Definition with_deferred (id : Z) (l : list Z) (v : Live) : Live :=
  {| session_start_publish_id := session_start_publish_id v;
     session_user_publish_epoch := session_user_publish_epoch v;
     session_user_data_epoch := session_user_data_epoch v;
     deferred_update_id := id; queued_update_id := queued_update_id v; deferred_updates := l;
     live_update_apply_queue := live_update_apply_queue v; applying := applying v;
     draining_live_updates := draining_live_updates v |}.

(** The queue of live updates: last number, waiting, being applied, and
    whether it is drained. *)
Definition with_queue (id : Z) (l : list Z) (a : option Z) (d : bool) (v : Live) : Live :=
  {| session_start_publish_id := session_start_publish_id v;
     session_user_publish_epoch := session_user_publish_epoch v;
     session_user_data_epoch := session_user_data_epoch v;
     deferred_update_id := deferred_update_id v; queued_update_id := id;
     deferred_updates := deferred_updates v; live_update_apply_queue := l; applying := a;
     draining_live_updates := d |}.

(** ** Starting a session *)

(** [startNextappSession] up to the hello: the members of the last session
    are reset, and the hello's numbers remembered. *)
Definition begin_session (h : Hello) (v : Live) : Live :=
  {| session_start_publish_id := lastPublishId h; session_user_publish_epoch := userPublishEpoch h;
     session_user_data_epoch := userDataEpoch h; deferred_update_id := 0; queued_update_id := 0;
     deferred_updates := []; live_update_apply_queue := []; applying := applying v;
     draining_live_updates := false |}.

(** The comparison of the hello with what was seen: what is remembered from
    now on, whether a sync is needed, and whether the server was reset. *)
Definition compare_hello (h : Hello) (s : Saved) (needs : bool) : Saved * bool * bool :=
  if negb (serverInstanceTag h =? last_seen_server_instance s) then
    (with_seen 0 (serverInstanceTag h) (userPublishEpoch h) s, true, true)
  else if negb (userPublishEpoch h =? last_seen_user_publish_epoch s) then
    (with_seen 0 (last_seen_server_instance s) (userPublishEpoch h) s, true, false)
  else if negb (supportsUpdatedId h) && (lastPublishId h <? last_seen_update_id s) then (s, true, false)
  else if supportsUpdatedId h && (lastPublishId h <? last_seen_update_id s) then (s, needs, false)
  else if last_seen_update_id s <? lastPublishId h then
    let next_needed := u32 (last_seen_update_id s + 1) in
    let replay_available :=
      match oldestRetainedPublishId h with Some oldest => oldest <=? next_needed | None => false end in
    (s, (supportsUpdatedId h && negb replay_available) || needs, false)
  else (s, needs, false).

(** The decision; [need_full] is [needFullResync()]. *)
Definition hello_decision (need_full : bool) (h : Hello) (c : Client) : Client * SessionPlan :=
  let '(s, needs, reset) := compare_hello h (saved c) (incremental_repair (saved c)) in
  let data_changed := negb (userDataEpoch h =? user_data_epoch s) in
  let bootstrap := supportsUpdatedId h && negb (updatedIdInitialized s) in
  ({| saved := s; live := begin_session h (live c) |},
   {| needs_sync := needs || data_changed || bootstrap;
      full_sync := need_full || data_changed || bootstrap;
      server_reset_detected := reset |}).

(** The request for updates: where to replay from, and the number from
    which the stream's updates are new while the sync runs. *)
Definition updates_request (d : SessionPlan) (c : Client) : Client * option Z :=
  let start := session_start_publish_id (live c) in
  let seen := last_seen_update_id (saved c) in
  if negb (full_sync d) && negb (needs_sync d) && (seen <=? start) then (c, Some seen)
  else if (full_sync d || needs_sync d) && (seen <? start)
  then (set_live (λ v, with_deferred start (deferred_updates v) v) c, None)
  else (c, None).

(** After the sync: the numbers up to the start of the session are seen. *)
Definition complete_sync (d : SessionPlan) (c : Client) : Client :=
  let start := session_start_publish_id (live c) in
  if (needs_sync d || full_sync d)
     && (server_reset_detected d || (last_seen_update_id (saved c) <? start))
  then set_saved (λ s, with_seen start (last_seen_server_instance s) (session_user_publish_epoch (live c)) s) c
  else c.

(** The end of [startNextappSession], once the deferred updates are applied. *)
Definition finish_session (d : SessionPlan) (c : Client) : Client :=
  set_live (λ v, with_deferred 0 [] v)
    (set_saved (λ s,
      {| last_seen_update_id := last_seen_update_id s; last_seen_server_instance := last_seen_server_instance s;
         last_seen_user_publish_epoch := last_seen_user_publish_epoch s;
         user_data_epoch := if full_sync d then session_user_data_epoch (live c) else user_data_epoch s;
         incremental_repair := false;
         resync_pending := if full_sync d then false else resync_pending s;
         updatedIdInitialized := if full_sync d then true else updatedIdInitialized s |}) c).

(** ** Updates *)

(** [requestIncrementalRepair]: whether it stopped the session. *)
Definition requestIncrementalRepair (c : Client) : Client * bool :=
  if resync_pending (saved c) then (c, false)
  else (set_live (λ v, with_queue 0 [] (applying v) false v) (set_saved (with_repair true) c), true).

Definition effectiveLastSeenUpdateId (c : Client) : Z :=
  let effective := if last_seen_update_id (saved c) <? deferred_update_id (live c)
                   then deferred_update_id (live c) else last_seen_update_id (saved c) in
  if effective <? queued_update_id (live c) then queued_update_id (live c) else effective.

(** [enqueueLiveUpdateForApply]; the drain runs at once up to its first
    wait. *)
Definition enqueueLiveUpdateForApply (id : Z) (c : Client) : Client :=
  set_live (λ v,
    let q := live_update_apply_queue v ++ [id] in
    let queued := Z.max (queued_update_id v) id in
    if draining_live_updates v then with_queue queued q (applying v) true v
    else match q with
         | m :: q => with_queue queued q (Some m) true v
         | [] => v
         end) c.

(** The kinds of message [onUpdateMessage] tells apart. *)
Inductive Message := ClientUpdateMsg | ResyncMsg | UpdateMsg (id : Z).

(** [onUpdateMessage]; [initial_sync] is [status_ == INITIAL_SYNC].  The
    last component tells that the stream was found to have a gap and the
    session was stopped. *)
Definition onUpdateMessage (initial_sync : bool) (m : Message) (c : Client) : Client * bool :=
  match m with
  | ClientUpdateMsg => (c, false)
  | ResyncMsg => (c, false)
  | UpdateMsg id =>
      if initial_sync then
        if deferred_update_id (live c) <? id
        then (set_live (λ v, with_deferred id (deferred_updates v ++ [id]) v) c, false)
        else (c, false)
      else
        let effective := effectiveLastSeenUpdateId c in
        if id <=? effective then (c, false)
        else if negb (id =? u32 (effective + 1)) then requestIncrementalRepair c
        else (enqueueLiveUpdateForApply id c, false)
  end.

(** [applyUpdateDurably] of the update the drain waits for has ended:
    [drainLiveUpdateQueue] goes on to the next one. *)
Definition drain_resumed (ok : bool) (c : Client) : Client * bool :=
  match applying (live c) with
  | None => (c, false)
  | Some id =>
      if ok then
        (set_live (λ v, match live_update_apply_queue v with
                        | m :: q => with_queue (queued_update_id v) q (Some m) (draining_live_updates v) v
                        | [] => with_queue 0 [] None false v
                        end) (set_saved (with_last_seen id) c), false)
      else requestIncrementalRepair (set_live (with_queue 0 [] None false) c)
  end.

(** One round of [replayDeferredUpdates]. *)
Definition replay_deferred (ok : bool) (c : Client) : Client * bool :=
  match deferred_updates (live c) with
  | [] => (c, false)
  | id :: l =>
      if ok then (set_live (λ v, with_deferred (deferred_update_id v) l v) (set_saved (with_last_seen id) c), false)
      else requestIncrementalRepair (set_live (with_deferred 0 []) c)
  end.

(** ** The hello of the server's log *)
Section hello.
Context {P : Type} `{!PublisherIface P}.

(** [helloCommon] (src/src/backend/lib/grpc/GrpcServer.cpp). *)
Definition hello_of (instance epoch data_epoch : Z) (u : UserContext P) : Hello :=
  {| lastPublishId := publish_message_id u; serverInstanceTag := instance;
     userPublishEpoch := epoch; userDataEpoch := data_epoch;
     oldestRetainedPublishId :=
       match retained_updates u with [] => None | o :: _ => Some (messageId o) end;
     supportsUpdatedId := true |}.
End hello.

(** ** The server, the stream and the client together *)

(** What the client can see of a user's log: the instance of the server, the
    epoch, the last number, and how many of the last updates are retained. *)
Record Server := { instance : Z; epoch : Z; data_epoch : Z; cur : Z; kept : Z }.

Definition server_hello (s : Server) : Hello :=
  {| lastPublishId := cur s; serverInstanceTag := instance s; userPublishEpoch := epoch s;
     userDataEpoch := data_epoch s;
     oldestRetainedPublishId := if kept s =? 0 then None else Some (cur s - kept s + 1);
     supportsUpdatedId := true |}.

(** The number after which the stream of a subscription starts; [None] when
    the replay is refused and the stream closed ([addPublisher]). *)
Definition open_stream (s : Server) (from : option Z) : option Z :=
  match from with
  | None => Some (cur s)
  | Some f =>
      if cur s <? f then None
      else if f <? cur s then
        if kept s =? 0 then None
        else if f + 1 <? cur s - kept s + 1 then None else Some f
      else Some f
  end.

(** Where [startNextappSession] has come to; [sub] is the last number when
    the stream was opened. *)
Inductive Phase :=
| Offline
| Greeted (d : SessionPlan)
| Syncing (d : SessionPlan) (sub : Z)
| Replaying (d : SessionPlan)
| Online.

(** [received] is the last number the open stream has delivered;
    [synced_to] and [applied] record what the client's data reflect: the
    state of the server at that number, and single updates. *)
Record World := {
  server : Server;
  client : Client;
  phase : Phase;
  received : option Z;
  synced_to : Z;
  applied : list Z
}.

Section world.
(** Which updates of an instance's log are resync requests, which carry no
    data. *)
Context (resync : Z → Z → bool).

Definition message_at (s : Server) (n : Z) : Message :=
  if resync (instance s) n then ResyncMsg else UpdateMsg n.

(** The client's data reflect update [n]; 0 stands for what was there
    before the first. *)
Definition has (w : World) (n : Z) : Prop :=
  n ≤ synced_to w ∨ n ∈ applied w ∨ (1 ≤ n ∧ resync (instance (server w)) n = true).

Definition known (w : World) : Prop :=
  last_seen_server_instance (saved (client w)) = instance (server w) ∧
  last_seen_user_publish_epoch (saved (client w)) = epoch (server w).

#[local] Instance known_dec w : Decision (known w).
Proof. unfold known. apply _. Defined.

Definition syncs (d : SessionPlan) : bool := needs_sync d || full_sync d.

Definition initial_phase (p : Phase) : bool :=
  match p with Offline | Online => false | _ => true end.

(** [stop()] while [startNextappSession] runs closes the stream only. *)
Definition stopped_phase (stopped : bool) (p : Phase) : Phase :=
  if stopped then match p with Online => Offline | _ => p end else p.

Definition with_stop (stopped : bool) (r : option Z) : option Z := if stopped then None else r.

Definition move (w : World) (c : Client) (p : Phase) (r : option Z) (to : Z) (ids : list Z) : World :=
  {| server := server w; client := c; phase := p; received := r; synced_to := to; applied := ids |}.

Inductive world_step : World → World → Prop :=
(** the server publishes, or starts again *)
| ev_publish w kept' :
    cur (server w) + 1 < 2 ^ 32 → 0 ≤ kept' ≤ kept (server w) + 1 →
    world_step w {| server := {| instance := instance (server w); epoch := epoch (server w);
                      data_epoch := data_epoch (server w); cur := cur (server w) + 1; kept := kept' |};
      client := client w; phase := phase w; received := received w;
      synced_to := synced_to w; applied := applied w |}
| ev_restart w s :
    instance s ≠ last_seen_server_instance (saved (client w)) → kept s = 0 → 1 ≤ cur s < 2 ^ 32 →
    world_step w {| server := s; client := client w; phase := Offline; received := None;
      synced_to := -1; applied := [] |}
(** a session starts *)
| ev_hello w need_full c d :
    phase w = Offline → applying (live (client w)) = None →
    hello_decision need_full (server_hello (server w)) (client w) = (c, d) →
    world_step w (move w c (Greeted d) None (synced_to w) (applied w))
| ev_subscribe w d c from :
    phase w = Greeted d → updates_request d (client w) = (c, from) →
    world_step w (move w c (Syncing d (cur (server w))) (open_stream (server w) from) (synced_to w) (applied w))
| ev_sync w d sub k :
    phase w = Syncing d sub → sub ≤ k ≤ cur (server w) →
    world_step w (move w (complete_sync d (client w)) (Replaying d) (received w)
      (if syncs d then Z.max (synced_to w) k else synced_to w) (applied w))
| ev_replay w d id l c b :
    phase w = Replaying d → deferred_updates (live (client w)) = id :: l →
    replay_deferred true (client w) = (c, b) →
    world_step w (move w c (Replaying d) (received w) (synced_to w) (id :: applied w))
| ev_replay_failed w d id l c b :
    phase w = Replaying d → deferred_updates (live (client w)) = id :: l →
    replay_deferred false (client w) = (c, b) →
    world_step w (move w (finish_session d c) Online (with_stop b (received w)) (synced_to w) (applied w))
| ev_online w d :
    phase w = Replaying d → deferred_updates (live (client w)) = [] →
    world_step w (move w (finish_session d (client w)) Online (received w) (synced_to w) (applied w))
(** updates arrive and are applied *)
| ev_deliver w r c b :
    received w = Some r → r < cur (server w) →
    onUpdateMessage (initial_phase (phase w)) (message_at (server w) (r + 1)) (client w) = (c, b) →
    world_step w (move w c (stopped_phase b (phase w)) (with_stop b (Some (r + 1))) (synced_to w) (applied w))
| ev_apply w ok id c b :
    applying (live (client w)) = Some id → drain_resumed ok (client w) = (c, b) →
    world_step w (move w c (stopped_phase b (phase w)) (with_stop b (received w)) (synced_to w)
      (if ok && bool_decide (known w) then id :: applied w else applied w))
(** repairs, failures, the client starts again *)
| ev_repair w c b :
    requestIncrementalRepair (client w) = (c, b) →
    world_step w (move w c (stopped_phase b (phase w)) (with_stop b (received w)) (synced_to w) (applied w))
| ev_lost w : world_step w (move w (client w) Offline None (synced_to w) (applied w))
| ev_client_restart w :
    world_step w (move w (set_live (with_queue 0 [] None false) (client w)) Offline None (synced_to w) (applied w)).

(** ** The invariant *)
Definition upto (w : World) (x : Z) : Prop := ∀ n, 0 ≤ n ≤ x → has w n.

Definition plain (s : Server) (i n : Z) : list Z :=
  filter (λ k, resync (instance s) k = false) (seqZ i n).

(** The updates between [x] and what was received are held back. *)
Definition held_back (w : World) (x : Z) : Prop :=
  ∃ r, x ≤ r ≤ cur (server w) ∧ (received w = None ∨ received w = Some r) ∧
    deferred_update_id (live (client w)) ≤ r ∧
    deferred_updates (live (client w)) = plain (server w) (x + 1) (r - x).

Definition idle (v : Live) : Prop :=
  applying v = None ∧ live_update_apply_queue v = [] ∧ queued_update_id v = 0 ∧ draining_live_updates v = false.

Definition phase_ok (w : World) : Prop :=
  let seen := last_seen_update_id (saved (client w)) in
  let v := live (client w) in
  let start := session_start_publish_id v in
  let n := cur (server w) in
  match phase w with
  | Offline => received w = None
  | Greeted d =>
      known w ∧ idle v ∧ session_user_publish_epoch v = epoch (server w) ∧ received w = None ∧
      seen ≤ start ≤ n ∧ deferred_update_id v = 0 ∧ deferred_updates v = [] ∧ (syncs d = false → upto w seen)
  | Syncing d sub =>
      known w ∧ idle v ∧ session_user_publish_epoch v = epoch (server w) ∧
      seen ≤ start ≤ sub ∧ sub ≤ n ∧
      if syncs d then held_back w sub else upto w seen ∧ held_back w seen
  | Replaying d => known w ∧ idle v ∧ ∃ x, upto w x ∧ seen ≤ x ∧ held_back w x
  | Online =>
      known w ∧ upto w seen ∧ deferred_update_id v = 0 ∧ deferred_updates v = [] ∧
      (∃ r, effectiveLastSeenUpdateId (client w) ≤ r ≤ n ∧ (received w = None ∨ received w = Some r)) ∧
      match applying v with
      | None => idle v
      | Some id => draining_live_updates v = true ∧
          queued_update_id v = id + Z.of_nat (length (live_update_apply_queue v))
      end
  end.

(** The updates that are applied or wait in the queue follow each other and
    what the client has. *)
Definition drain_ok (w : World) : Prop :=
  match applying (live (client w)) with
  | None => True
  | Some id =>
      let q := live_update_apply_queue (live (client w)) in
      1 ≤ id ∧ id + Z.of_nat (length q) ≤ cur (server w) ∧ upto w (id - 1) ∧
      last_seen_update_id (saved (client w)) < id ∧ q = seqZ (id + 1) (Z.of_nat (length q))
  end.

Definition world_ok (w : World) : Prop :=
  let seen := last_seen_update_id (saved (client w)) in
  let s := server w in
  0 ≤ kept s ≤ cur s ∧ cur s < 2 ^ 32 ∧ synced_to w ≤ cur s ∧
  (known w ∨ kept s < cur s) ∧
  (known w → 0 ≤ seen ≤ cur s ∧ (upto w seen ∨ (seen = 0 ∧ kept s < cur s)) ∧ drain_ok w) ∧
  phase_ok w.

(** ** Lemmas *)
Lemma upto_weaken w x y : upto w x → y ≤ x → upto w y.
Proof. intros H Hy n Hn. apply H. lia. Qed.

Lemma known_cases w : known w ∨ ¬ known w.
Proof. destruct (decide (known w)); auto. Qed.

(** What the client has only grows while the server runs. *)
Lemma upto_mono w w' x :
  instance (server w') = instance (server w) → synced_to w ≤ synced_to w' →
  (∀ n, n ∈ applied w → n ∈ applied w') → upto w x → upto w' x.
Proof.
  intros Hi Hs Ha H n Hn. destruct (H n Hn) as [|[|]]; [left; lia|right; left; auto|right; right].
  by rewrite Hi.
Qed.

(** Applying the next update that is not a resync request. *)
Lemma upto_apply w w' x id :
  instance (server w') = instance (server w) → synced_to w ≤ synced_to w' →
  applied w' = id :: applied w → upto w x →
  (∀ n, x < n < id → 1 ≤ n ∧ resync (instance (server w)) n = true) → upto w' id.
Proof.
  intros Hi Hs Ha H Hr n Hn. destruct (Z.le_gt_cases n x) as [Hx|Hx].
  - destruct (H n ltac:(lia)) as [|[|]]; [left; lia|right; left; rewrite Ha; by right|right; right; by rewrite Hi].
  - destruct (decide (n = id)) as [->|]; [right; left; rewrite Ha; by left|].
    right; right. rewrite Hi. apply Hr. lia.
Qed.

(** The held back updates, one received, one applied. *)
Lemma plain_snoc s i n :
  0 ≤ n → plain s i (n + 1) = plain s i n ++ (if resync (instance s) (i + n) then [] else [i + n]).
Proof.
  intros Hn. unfold plain. rewrite seqZ_snoc, filter_app by done. f_equal.
  destruct (resync (instance s) (i + n)) eqn:Hr.
  - by rewrite filter_cons_False by (rewrite Hr; done).
  - by rewrite filter_cons_True.
Qed.

Lemma plain_head s i n id l :
  plain s i n = id :: l →
  i ≤ id < i + n ∧ (∀ k, i ≤ k < id → resync (instance s) k = true) ∧
  l = plain s (id + 1) (i + n - id - 1).
Proof.
  destruct (Z.le_gt_cases n 0) as [|Hn]; [unfold plain; by rewrite seqZ_nil|].
  replace n with (Z.of_nat (Z.to_nat n)) by lia. clear Hn. generalize (Z.to_nat n). clear n.
  intros n. revert i. induction n as [|n IH]; intros i; [done|]. unfold plain in *.
  rewrite seqZ_cons by lia. replace (Z.pred (Z.of_nat (S n))) with (Z.of_nat n) by lia.
  destruct (resync (instance s) i) eqn:Hr.
  - rewrite filter_cons_False by (rewrite Hr; done). intros Hl.
    destruct (IH _ Hl) as (H1 & H2 & H3). split_and!; [lia|lia|..].
    + intros k Hk. destruct (decide (k = i)) as [->|]; [done|]. apply H2. lia.
    + rewrite H3. f_equal. f_equal. lia.
  - rewrite filter_cons_True by done. intros [= <- <-]. split_and!; [lia|lia|intros; lia|].
    f_equal. f_equal; lia.
Qed.

(** ** Each operation keeps its part *)

(** The hello's decision without a sync means that nothing is missing up to
    what was seen. *)
Lemma hello_spec need_full s c c' d :
  hello_decision need_full (server_hello s) c = (c', d) →
  let seen := last_seen_update_id (saved c) in
  let v := live c' in
  last_seen_server_instance (saved c') = instance s ∧ last_seen_user_publish_epoch (saved c') = epoch s ∧
  v = begin_session (server_hello s) (live c) ∧
  ((last_seen_server_instance (saved c) = instance s ∧ last_seen_user_publish_epoch (saved c) = epoch s ∧
    last_seen_update_id (saved c') = seen ∧
    (0 ≤ seen ≤ cur s → cur s < 2 ^ 32 → 0 ≤ kept s → syncs d = false →
     seen = cur s ∨ (kept s ≠ 0 ∧ cur s - kept s ≤ seen))) ∨
   (last_seen_update_id (saved c') = 0 ∧ syncs d = true ∧
    ¬ (last_seen_server_instance (saved c) = instance s ∧ last_seen_user_publish_epoch (saved c) = epoch s))).
Proof.
  unfold hello_decision, compare_hello. cbn [server_hello serverInstanceTag userPublishEpoch supportsUpdatedId lastPublishId
    oldestRetainedPublishId negb andb].
  destruct (Z.eqb_spec (instance s) (last_seen_server_instance (saved c))) as [Hi|Hi]; cbn [negb].
  2: { intros [= <- <-]. cbn. split_and!; [done|done|done|]. right. split_and!; [done|done|]. intros [? _]. congruence. }
  destruct (Z.eqb_spec (epoch s) (last_seen_user_publish_epoch (saved c))) as [He|He]; cbn [negb].
  2: { intros [= <- <-]. cbn. split_and!; [done|done|done|]. right. split_and!; [done|done|]. intros [_ ?]. congruence. }
  destruct (Z.ltb_spec (cur s) (last_seen_update_id (saved c))).
  { intros [= <- <-]. cbn. split_and!; [done|done|done|]. left. split_and!; [done|done|done|]. lia. }
  destruct (Z.ltb_spec (last_seen_update_id (saved c)) (cur s)) as [Hlt|].
  - intros [= <- <-]. cbn. split_and!; [done|done|done|]. left. split_and!; [done|done|done|].
    intros Hr Hc Hk. unfold syncs. cbn [needs_sync full_sync]. intros Hs. right.
    apply orb_false_iff in Hs as [Hs _]. apply orb_false_iff in Hs as [Hs _].
    apply orb_false_iff in Hs as [Hs _]. apply orb_false_iff in Hs as [Hs _].
    destruct (Z.eqb_spec (kept s) 0) as [|Hk0]; [done|]. apply negb_false_iff, Z.leb_le in Hs.
    rewrite wrap_small in Hs by lia. split; [done|lia].
  - intros [= <- <-]. cbn. split_and!; [done|done|done|]. left. split_and!; [done|done|done|]. lia.
Qed.

Lemma updates_request_spec d c c' from :
  updates_request d c = (c', from) →
  saved c' = saved c ∧ live c' = with_deferred (deferred_update_id (live c')) (deferred_updates (live c)) (live c) ∧
  (last_seen_update_id (saved c) ≤ session_start_publish_id (live c) →
   from = (if syncs d then None else Some (last_seen_update_id (saved c)))) ∧
  (deferred_update_id (live c') = deferred_update_id (live c) ∨
   (deferred_update_id (live c') = session_start_publish_id (live c) ∧ syncs d = true)).
Proof.
  unfold updates_request, syncs. destruct (needs_sync d), (full_sync d); cbn [negb andb orb];
    destruct c as [s v]; cbn [saved live].
  1-3: destruct (last_seen_update_id s <? session_start_publish_id v); intros [= <- <-]; cbn;
    (split_and!; [done|by destruct v|done|auto]).
  destruct (Z.leb_spec (last_seen_update_id s) (session_start_publish_id v)); intros [= <- <-]; cbn;
    (split_and!; [done|by destruct v|done || lia|auto]).
Qed.

Lemma repair_spec c c' b :
  requestIncrementalRepair c = (c', b) →
  last_seen_update_id (saved c') = last_seen_update_id (saved c) ∧
  last_seen_server_instance (saved c') = last_seen_server_instance (saved c) ∧
  last_seen_user_publish_epoch (saved c') = last_seen_user_publish_epoch (saved c) ∧
  live c' = (if b then with_queue 0 [] (applying (live c)) false (live c) else live c).
Proof.
  unfold requestIncrementalRepair. by destruct (resync_pending (saved c)); intros [= <- <-].
Qed.

(** Moving to [Offline], with nothing new applied. *)
Lemma offline_ok w c ids to :
  world_ok w →
  last_seen_update_id (saved c) = last_seen_update_id (saved (client w)) →
  last_seen_server_instance (saved c) = last_seen_server_instance (saved (client w)) →
  last_seen_user_publish_epoch (saved c) = last_seen_user_publish_epoch (saved (client w)) →
  (applying (live c) = None ∨ (applying (live c) = applying (live (client w)) ∧
     (live_update_apply_queue (live c) = [] ∨
      live_update_apply_queue (live c) = live_update_apply_queue (live (client w))))) →
  ids = applied w → to = synced_to w →
  world_ok (move w c Offline None to ids).
Proof.
  intros (H1 & H2 & H3 & H4 & H5 & _) Es Ei Ee Hq -> ->. unfold world_ok, known.
  cbn [server client move synced_to]. rewrite Es, Ei, Ee. split_and!; [lia|lia|lia|lia|exact H4| |exact eq_refl].
  intros Hk. destruct (H5 Hk) as (Hs & Hu & Hd). split_and!; [lia|lia|exact Hu|].
  unfold drain_ok in *. cbn [server client move]. rewrite Es.
  destruct Hq as [->|[-> Hq]]; [done|]. destruct (applying (live (client w))) as [id|]; [|done].
  destruct Hd as (Ha & Hb & Hc & Hd & He). destruct Hq as [->| ->].
  - cbn. split_and!; [lia|lia|exact Hc|lia|done].
  - split_and!; [lia|lia|exact Hc|lia|done].
Qed.

Lemma publish_ok w kept' :
  cur (server w) + 1 < 2 ^ 32 → 0 ≤ kept' ≤ kept (server w) + 1 → world_ok w →
  world_ok {| server := {| instance := instance (server w); epoch := epoch (server w);
                data_epoch := data_epoch (server w); cur := cur (server w) + 1; kept := kept' |};
              client := client w; phase := phase w; received := received w;
              synced_to := synced_to w; applied := applied w |}.
Proof.
  intros Hc Hk (H1 & H2 & H3 & H4 & H5 & H6). set (w' := Build_World _ _ _ _ _ _).
  assert (Hup : ∀ x, upto w x → upto w' x) by (intros x; by apply upto_mono).
  assert (Hh : ∀ x, held_back w x → held_back w' x).
  { intros x (r & Hr & Hrest). exists r. cbn. split; [lia|exact Hrest]. }
  unfold world_ok. cbn [server client synced_to w' kept cur]. split_and!; [lia|lia|lia|lia|..].
  - destruct H4 as [H4|]; [left; exact H4|right; lia].
  - intros Hkn. destruct (H5 Hkn) as (Hs & Hu & Hd). split_and!; [lia|lia|..].
    + destruct Hu as [Hu|[? ?]]; [left; by apply Hup|right; split; [done|lia]].
    + unfold drain_ok in *. cbn [server client w' cur]. destruct (applying (live (client w))); [|done].
      destruct Hd as (? & ? & ? & ? & ?). split_and!; [lia|lia|by apply Hup|done|done].
  - unfold phase_ok in *. cbn [server client phase received w' cur epoch]. destruct (phase w) as [|d|d sub|d|].
    + exact H6.
    + destruct H6 as (? & ? & ? & ? & [? ?] & ? & ? & Hu). split_and!; try done; lia.
    + destruct H6 as (? & ? & ? & [? ?] & ? & Hu). split_and!; try done; [lia|]. destruct (syncs d); [by apply Hh|].
      destruct Hu. split; [by apply Hup|by apply Hh].
    + destruct H6 as (? & ? & x & ? & ? & ?). split_and!; try done. exists x. split; [by apply Hup|]. split; [done|by apply Hh].
    + destruct H6 as (? & ? & ? & ? & (r & ? & ?) & ?). split_and!; try done.
      exists r. split; [lia|done].
Qed.

Lemma restart_ok w s :
  instance s ≠ last_seen_server_instance (saved (client w)) → kept s = 0 → 1 ≤ cur s < 2 ^ 32 →
  world_ok {| server := s; client := client w; phase := Offline; received := None;
              synced_to := -1; applied := [] |}.
Proof.
  intros Hi Hk Hc. unfold world_ok, known. cbn [server client synced_to]. rewrite Hk.
  split_and!; [lia|lia|lia|lia|right; lia| |exact eq_refl]. intros [He _]. done.
Qed.

Lemma hello_ok w need_full c d :
  phase w = Offline → applying (live (client w)) = None →
  hello_decision need_full (server_hello (server w)) (client w) = (c, d) → world_ok w →
  world_ok (move w c (Greeted d) None (synced_to w) (applied w)).
Proof.
  intros _ Ha Hh (H1 & H2 & H3 & H4 & H5 & _).
  destruct (hello_spec _ _ _ _ _ Hh) as (Hi & He & Hl & Hcase).
  unfold world_ok. cbn [server client synced_to move].
  assert (Hkn : known (move w c (Greeted d) None (synced_to w) (applied w))) by done.
  assert (Hseen : 0 ≤ last_seen_update_id (saved c) ≤ cur (server w) ∧
    (upto w (last_seen_update_id (saved c)) ∨ (last_seen_update_id (saved c) = 0 ∧ kept (server w) < cur (server w))) ∧
    (syncs d = false → upto w (last_seen_update_id (saved c)))).
  { destruct Hcase as [(Hi0 & He0 & -> & Hn)|(-> & Hs & Hno)].
    - destruct (H5 (conj Hi0 He0)) as (Hs & Hu & _). split_and!; [lia|lia|done|].
      intros Hsy. destruct Hu as [|[E Hk]]; [done|]. specialize (Hn Hs H2 ltac:(lia) Hsy). lia.
    - split_and!; [lia|lia| |by rewrite Hs]. right. split; [done|]. by destruct H4. }
  destruct Hseen as (Hs & Hu & Hsy). split_and!; [lia|lia|lia|lia|by left|..].
  - intros _. split_and!; [lia|lia|exact Hu|]. unfold drain_ok. cbn [client move]. rewrite Hl. cbn. by rewrite Ha.
  - unfold phase_ok. cbn [phase move server client received]. rewrite Hl.
    cbn [begin_session session_user_publish_epoch server_hello userPublishEpoch session_start_publish_id
      deferred_update_id deferred_updates lastPublishId].
    unfold idle. cbn. rewrite Ha. split_and!; try done; lia.
Qed.

Lemma subscribe_ok w d c from :
  phase w = Greeted d → updates_request d (client w) = (c, from) → world_ok w →
  world_ok (move w c (Syncing d (cur (server w))) (open_stream (server w) from) (synced_to w) (applied w)).
Proof.
  intros Hp Hreq (H1 & H2 & H3 & H4 & H5 & H6). unfold phase_ok in H6. rewrite Hp in H6.
  destruct H6 as (Hkn & Hidle & Hep & _ & [Hst1 Hst2] & Hdid & Hdef & Hsy).
  destruct (updates_request_spec _ _ _ _ Hreq) as (Hsav & Hliv & Hfrom & Hid). specialize (Hfrom Hst1).
  destruct (H5 Hkn) as (Hs & Hu & Hd).
  assert (Hkn' : known (move w c (Syncing d (cur (server w))) (open_stream (server w) from) (synced_to w) (applied w)))
    by (unfold known; cbn [client move server]; by rewrite Hsav).
  destruct Hidle as (Hi1 & Hi2 & Hi3 & Hi4).
  unfold world_ok. cbn [server client synced_to move]. rewrite Hsav. split_and!; [lia|lia|lia|lia|by left|..].
  - intros _. split_and!; [lia|lia|exact Hu|]. unfold drain_ok. cbn [client move]. rewrite Hliv. cbn. by rewrite Hi1.
  - unfold phase_ok. cbn [phase move server client received]. rewrite Hsav.
    assert (Hst : session_start_publish_id (live c) = session_start_publish_id (live (client w)) ∧
      session_user_publish_epoch (live c) = session_user_publish_epoch (live (client w)) ∧ idle (live c) ∧
      deferred_updates (live c) = []).
    { rewrite Hliv. cbn. unfold idle. cbn. split_and!; done. }
    destruct Hst as (-> & -> & Hidle & Hdl). split_and!; try done; try lia.
    destruct (syncs d) eqn:Hsd.
    + exists (cur (server w)). cbn [received move client server]. rewrite Hfrom, Hdl. unfold plain.
      split_and!; [lia|lia|by right| |by rewrite seqZ_nil by lia].
      destruct Hid as [->|[-> _]]; lia.
    + split; [exact (Hsy eq_refl)|]. exists (last_seen_update_id (saved (client w))).
      cbn [received move client server]. rewrite Hfrom, Hdl. unfold plain.
      split_and!; [lia|lia| | |by rewrite seqZ_nil by lia].
      * unfold open_stream. repeat case_match; auto.
      * destruct Hid as [->|[_ ?]]; [lia|done].
Qed.

Lemma sync_ok w d sub k :
  phase w = Syncing d sub → sub ≤ k ≤ cur (server w) → world_ok w →
  world_ok (move w (complete_sync d (client w)) (Replaying d) (received w)
    (if syncs d then Z.max (synced_to w) k else synced_to w) (applied w)).
Proof.
  intros Hp Hk (H1 & H2 & H3 & H4 & H5 & H6). unfold phase_ok in H6. rewrite Hp in H6.
  destruct H6 as (Hkn & Hidle & Hep & [Hst1 Hst2] & Hsub & Hcase). destruct (H5 Hkn) as (Hs & Hu & Hd).
  set (to := if syncs d then _ else _). set (w' := move _ _ _ _ _ _).
  assert (Hto : synced_to w ≤ to ≤ cur (server w)) by (subst to; destruct (syncs d); lia).
  assert (Hup : ∀ x, upto w x → upto w' x) by (intros x; apply upto_mono; [done|cbn; lia|done]).
  assert (Hc : live (complete_sync d (client w)) = live (client w) ∧
    last_seen_server_instance (saved (complete_sync d (client w))) = last_seen_server_instance (saved (client w)) ∧
    last_seen_user_publish_epoch (saved (complete_sync d (client w))) = last_seen_user_publish_epoch (saved (client w)) ∧
    (last_seen_update_id (saved (complete_sync d (client w))) = last_seen_update_id (saved (client w)) ∨
     (syncs d = true ∧ last_seen_update_id (saved (complete_sync d (client w))) = session_start_publish_id (live (client w))))).
  { unfold complete_sync. destruct ((needs_sync d || full_sync d) && _) eqn:E; cbn; [|by auto].
    apply andb_true_iff in E as [E _]. split_and!; [done|done|rewrite Hep; symmetry; apply Hkn|by right]. }
  destruct Hc as (Hl & Hi & He & Hseen).
  assert (Hx : ∃ x, upto w' x ∧ last_seen_update_id (saved (complete_sync d (client w))) ≤ x ∧ held_back w x).
  { destruct (syncs d) eqn:Hsd.
    - exists sub. split_and!; [|destruct Hseen as [->|[_ ->]]; lia|done].
      intros n Hn. left. cbn. subst to. lia.
    - destruct Hcase as [Hc Hh]. exists (last_seen_update_id (saved (client w))).
      split_and!; [by apply Hup|destruct Hseen as [->|[? _]]; [lia|done]|done]. }
  destruct Hx as (x & Hux & Hle & Hh).
  assert (Hh' : held_back w' x).
  { destruct Hh as (r & Hr). exists r. unfold w'. cbn [server client move received]. by rewrite Hl. }
  assert (Hkn' : known w') by (unfold known, w'; cbn [client move server]; by rewrite Hi, He).
  unfold world_ok. cbn [server synced_to move w']. split_and!; [lia|lia|lia|lia|by left|..].
  - intros _. change (client w') with (complete_sync d (client w)). destruct Hh as (r & Hr & _).
    split_and!; [destruct Hseen as [->|[_ ->]]; lia|lia|left; by eapply upto_weaken|].
    unfold drain_ok. cbn [client w' move]. rewrite Hl. destruct Hidle as [-> _]. done.
  - unfold phase_ok. cbn [phase w' move client]. rewrite Hl. split_and!; [done|done|]. by exists x.
Qed.

(** One held back update is applied. *)
Lemma replay_ok w d id l c b :
  phase w = Replaying d → deferred_updates (live (client w)) = id :: l →
  replay_deferred true (client w) = (c, b) → world_ok w →
  world_ok (move w c (Replaying d) (received w) (synced_to w) (id :: applied w)).
Proof.
  intros Hp Hdef Hr (H1 & H2 & H3 & H4 & H5 & H6). unfold phase_ok in H6. rewrite Hp in H6.
  destruct H6 as (Hkn & Hidle & x & Hux & Hle & r & Hxr & Hrec & Hdid & Hpl).
  destruct (H5 Hkn) as (Hs & _ & _). rewrite Hdef in Hpl. symmetry in Hpl. apply plain_head in Hpl as (Hid & Hskip & ->).
  unfold replay_deferred in Hr. rewrite Hdef in Hr. injection Hr as <- _.
  set (w' := move _ _ _ _ _ _).
  assert (Hup : upto w' id).
  { apply (upto_apply w w' x id); [done|cbn; lia|done|done|]. intros n Hn. split; [lia|]. apply Hskip. lia. }
  assert (Hkn' : known w') by done.
  unfold world_ok. cbn [server synced_to move w']. split_and!; [lia|lia|lia|lia|by left|..].
  - intros _. cbn. split_and!; [lia|lia|by left|]. unfold drain_ok. cbn. destruct Hidle as [-> _]. done.
  - unfold phase_ok. cbn [phase w' move client]. split_and!; [done|done|]. exists id. split_and!; [done|cbn; lia|].
    exists r. cbn. split_and!; [lia|lia|done|done|]. f_equal. lia.
Qed.

(** The session goes online with nothing held back. *)
Lemma finish_ok w d c r' ids :
  phase w = Replaying d → world_ok w →
  saved c = saved (client w) ∨ (∃ b, saved c = with_repair b (saved (client w))) →
  idle (live c) → session_user_data_epoch (live c) = session_user_data_epoch (live (client w)) →
  (r' = None ∨ r' = received w) → ids = applied w →
  world_ok (move w (finish_session d c) Online r' (synced_to w) ids).
Proof.
  intros Hp (H1 & H2 & H3 & H4 & H5 & H6) Hc Hi Hde Hr' ->. unfold phase_ok in H6. rewrite Hp in H6.
  destruct H6 as (Hkn & Hidle & x & Hux & Hle & r & Hxr & Hrec & Hdid & Hpl).
  destruct (H5 Hkn) as (Hs & _ & _).
  assert (Hsv : last_seen_update_id (saved c) = last_seen_update_id (saved (client w)) ∧
    last_seen_server_instance (saved c) = last_seen_server_instance (saved (client w)) ∧
    last_seen_user_publish_epoch (saved c) = last_seen_user_publish_epoch (saved (client w))).
  { by destruct Hc as [->|[b ->]]. }
  destruct Hsv as (Es & Ei & Ee). set (w' := move _ _ _ _ _ _).
  assert (Hkn' : known w') by (unfold known, w'; cbn; by rewrite Ei, Ee).
  destruct Hi as (Hi1 & Hi2 & Hi3 & Hi4).
  assert (Hup : upto w' (last_seen_update_id (saved c))) by (rewrite Es; by eapply upto_weaken).
  unfold world_ok. cbn [server synced_to move w']. split_and!; [lia|lia|lia|lia|by left|..].
  - intros _. cbn. rewrite Es in Hup |- *. split_and!; [lia|lia|by left|]. unfold drain_ok. cbn. by rewrite Hi1.
  - unfold phase_ok. cbn. split_and!; [done|done|done|done| |].
    + exists r. split; [|destruct Hr' as [->| ->]; auto].
      unfold effectiveLastSeenUpdateId. cbn. rewrite Hi3. repeat case_match; lia.
    + rewrite Hi1. done.
Qed.

Lemma replay_failed_ok w d id l c b :
  phase w = Replaying d → deferred_updates (live (client w)) = id :: l →
  replay_deferred false (client w) = (c, b) → world_ok w →
  world_ok (move w (finish_session d c) Online (with_stop b (received w)) (synced_to w) (applied w)).
Proof.
  intros Hp Hdef Hr Hok. pose proof Hok as (_ & _ & _ & _ & _ & H6). unfold phase_ok in H6. rewrite Hp in H6.
  destruct H6 as (_ & (Hi1 & Hi2 & Hi3 & Hi4) & _).
  unfold replay_deferred in Hr. rewrite Hdef in Hr. unfold requestIncrementalRepair in Hr.
  cbn [saved set_live live] in Hr. destruct (resync_pending (saved (client w))); injection Hr as <- <-;
    apply finish_ok; try done; cbn; try (by right); try (by left); try (by right; exists true).
Qed.

Lemma online_ok w d :
  phase w = Replaying d → world_ok w →
  world_ok (move w (finish_session d (client w)) Online (received w) (synced_to w) (applied w)).
Proof.
  intros Hp Hok. pose proof Hok as (_ & _ & _ & _ & _ & H6). unfold phase_ok in H6. rewrite Hp in H6.
  apply finish_ok; try done; [by left|tauto|by right].
Qed.

(** A message of the running sync is held back. *)
Lemma held_back_deliver w r c x ids :
  received w = Some r → r < cur (server w) → 0 ≤ x → held_back w x →
  onUpdateMessage true (message_at (server w) (r + 1)) (client w) = (c, false) →
  held_back (move w c (phase w) (Some (r + 1)) (synced_to w) ids) x ∧
  saved c = saved (client w) ∧
  live c = with_deferred (deferred_update_id (live c)) (deferred_updates (live c)) (live (client w)).
Proof.
  intros Hr Hlt Hx (r0 & Hr0 & [Hrec|Hrec] & Hid & Hpl) Hm; [by rewrite Hr in Hrec|].
  rewrite Hr in Hrec. injection Hrec as <-.
  assert (Hsn : plain (server w) (x + 1) (r + 1 - x) = plain (server w) (x + 1) (r - x) ++
    (if resync (instance (server w)) (r + 1) then [] else [r + 1])).
  { replace (r + 1 - x) with (r - x + 1) by lia. rewrite plain_snoc by lia.
    by replace (x + 1 + (r - x)) with (r + 1) by lia. }
  unfold message_at in Hm. destruct (resync (instance (server w)) (r + 1)); cbn [onUpdateMessage] in Hm.
  - injection Hm as <-. split_and!; [|done|by destruct (live (client w))].
    exists (r + 1). cbn [server client received move]. rewrite Hsn, app_nil_r.
    split_and!; [lia|lia|by right|lia|done].
  - destruct (Z.ltb_spec (deferred_update_id (live (client w))) (r + 1)); [|lia].
    injection Hm as <-. split_and!; [|done|done].
    exists (r + 1). cbn. rewrite Hsn, Hpl. split_and!; [lia|lia|by right|lia|done].
Qed.

Lemma onUpdateMessage_deferred m c c' b : onUpdateMessage true m c = (c', b) → b = false.
Proof. destruct m; cbn; repeat case_match; by intros [= _ <-]. Qed.

Lemma deliver_initial_ok w r c b :
  initial_phase (phase w) = true → received w = Some r → r < cur (server w) →
  onUpdateMessage true (message_at (server w) (r + 1)) (client w) = (c, b) → world_ok w →
  world_ok (move w c (stopped_phase b (phase w)) (with_stop b (Some (r + 1))) (synced_to w) (applied w)).
Proof.
  intros Hip Hr Hlt Hm (H1 & H2 & H3 & H4 & H5 & H6).
  pose proof (onUpdateMessage_deferred _ _ _ _ Hm) as ->. cbn [stopped_phase with_stop].
  assert (Hdel : ∀ x, 0 ≤ x → held_back w x → held_back (move w c (phase w) (Some (r + 1)) (synced_to w) (applied w)) x ∧
    saved c = saved (client w) ∧
    live c = with_deferred (deferred_update_id (live c)) (deferred_updates (live c)) (live (client w))).
  { intros x Hx Hh. by apply held_back_deliver. }
  assert (Hall : ∃ x, 0 ≤ x ∧ held_back w x ∧ known w ∧ idle (live (client w))).
  { unfold phase_ok in H6. destruct (phase w) as [|d|d sub|d|]; try done.
    - destruct H6 as (_ & _ & _ & Hn & _). by rewrite Hr in Hn.
    - destruct H6 as (Hkn & Hi & _ & [? ?] & ? & Hc). destruct (H5 Hkn) as ([? ?] & _).
      destruct (syncs d); [exists sub|exists (last_seen_update_id (saved (client w)))]; split_and!; try done; try lia; apply Hc.
    - destruct H6 as (Hkn & Hi & x & _ & ? & Hh). destruct (H5 Hkn) as ([? ?] & _). exists x. split_and!; [lia|done..]. }
  destruct Hall as (x & Hx & Hh & Hkn & Hidle). destruct (Hdel x Hx Hh) as (_ & Hs & Hl).
  set (w' := move _ _ _ _ _ _) in *. assert (Hkn' : known w') by (unfold known, w'; cbn; by rewrite Hs).
  assert (Hi' : idle (live c)) by (rewrite Hl; exact Hidle).
  destruct (H5 Hkn) as (Hse & Hu & _).
  unfold world_ok. cbn [server synced_to move w']. split_and!; [lia|lia|lia|lia|by left|..].
  - intros _. change (client w') with c. rewrite Hs. split_and!; [lia|lia|exact Hu|].
    unfold drain_ok. change (client w') with c. destruct Hi' as [-> _]. done.
  - unfold phase_ok in *. change (phase w') with (phase w). change (client w') with c. change (server w') with (server w).
    rewrite Hs. assert (Hsame : session_start_publish_id (live c) = session_start_publish_id (live (client w)) ∧
      session_user_publish_epoch (live c) = session_user_publish_epoch (live (client w))) by (by rewrite Hl).
    destruct Hsame as [-> ->]. destruct (phase w) as [|d|d sub|d|]; try done.
    + destruct H6 as (_ & _ & _ & Hn & _). by rewrite Hr in Hn.
    + destruct H6 as (_ & _ & ? & ? & ? & Hc). destruct (syncs d).
      * split_and!; try done; try tauto. apply Hdel; [lia|done].
      * split_and!; try done; try tauto. apply Hdel; [lia|apply Hc].
    + destruct H6 as (_ & _ & y & Huy & Hy & Hhy). split_and!; [done|done|]. exists y.
      split_and!; [done|done|]. apply Hdel; [lia|done].
Qed.

Lemma deliver_online_ok w r c b :
  phase w = Online → received w = Some r → r < cur (server w) →
  onUpdateMessage false (message_at (server w) (r + 1)) (client w) = (c, b) → world_ok w →
  world_ok (move w c (stopped_phase b (phase w)) (with_stop b (Some (r + 1))) (synced_to w) (applied w)).
Proof.
  intros Hp Hr Hlt Hm Hok. pose proof Hok as (H1 & H2 & H3 & H4 & H5 & H6).
  unfold phase_ok in H6. rewrite Hp in H6 |- *.
  destruct H6 as (Hkn & Hup & Hdid & Hdef & (r0 & Heff & Hrec) & Hdr). destruct (H5 Hkn) as (Hs & Hu & Hd).
  destruct Hrec as [Hrec|Hrec]; rewrite Hr in Hrec; [done|]. injection Hrec as <-.
  assert (Hsame : ∀ c', saved c' = saved (client w) → live c' = live (client w) →
    world_ok (move w c' Online (Some (r + 1)) (synced_to w) (applied w))).
  { intros c' Es El. assert (c' = client w) as -> by (destruct c', (client w); cbn in *; congruence).
    unfold world_ok. cbn [server synced_to move client]. split_and!; [lia|lia|lia|lia|by left|..].
    - intros _. split_and!; [lia|lia|exact Hu|exact Hd].
    - unfold phase_ok. cbn [phase move client server received]. split_and!; try done.
      exists (r + 1). split; [lia|by right]. }
  unfold message_at in Hm. destruct (resync (instance (server w)) (r + 1)); cbn [onUpdateMessage] in Hm.
  { injection Hm as <- <-. by apply Hsame. }
  destruct (Z.leb_spec (r + 1) (effectiveLastSeenUpdateId (client w))); [lia|].
  destruct (Z.eqb_spec (r + 1) (u32 (effectiveLastSeenUpdateId (client w) + 1))) as [He|]; cbn [negb] in Hm.
  - injection Hm as <- <-. cbn [stopped_phase with_stop].
    assert (Hnn : 0 ≤ effectiveLastSeenUpdateId (client w)).
    { unfold effectiveLastSeenUpdateId. repeat case_match; lia. }
    rewrite wrap_small in He by lia.
    assert (Heq : effectiveLastSeenUpdateId (client w) = r) by lia. clear He.
    set (v := live (client w)) in *.
    unfold enqueueLiveUpdateForApply. set (c' := set_live _ _).
    assert (Hw : ∃ a q, live c' = with_queue (r + 1) q (Some a) true v ∧ q = seqZ (a + 1) (r + 1 - a) ∧ 1 ≤ a ≤ r + 1 ∧
      upto w (a - 1) ∧ last_seen_update_id (saved (client w)) < a ∧ effectiveLastSeenUpdateId c' = r + 1).
    { subst c'. unfold effectiveLastSeenUpdateId in *. cbn [set_live live saved] in *. fold v in Heq |- *.
      rewrite Hdid in *. destruct (applying v) as [a|] eqn:Ha.
      - destruct Hdr as [Hdr Hq]. rewrite Hdr. unfold drain_ok in Hd. fold v in Hd. rewrite Ha in Hd.
        destruct Hd as (Hd1 & Hd2 & Hd3 & Hd4 & Hd5). exists a, (live_update_apply_queue v ++ [r + 1]).
        assert (Hqr : queued_update_id v = r).
        { revert Heq. destruct (Z.ltb_spec (last_seen_update_id (saved (client w))) 0); [lia|].
          destruct (Z.ltb_spec (last_seen_update_id (saved (client w))) (queued_update_id v)); [done|lia]. }
        split_and!; [f_equal; lia| |lia|lia|done|lia|].
        + rewrite Hd5. replace (r + 1) with ((a + 1) + Z.of_nat (length (live_update_apply_queue v))) at 1 by lia.
          rewrite <- seqZ_snoc by lia. f_equal. lia.
        + cbn. repeat case_match; lia.
      - destruct Hdr as (_ & Hq & Hqi & Hdf). rewrite Hdf, Hq. cbn [app]. exists (r + 1), [].
        rewrite Hqi in *. revert Heq. destruct (Z.ltb_spec (last_seen_update_id (saved (client w))) 0); [lia|].
        intros Heq. assert (Hsr : last_seen_update_id (saved (client w)) = r) by (rewrite (proj2 (Z.ltb_ge _ _) (proj1 Hs)) in Heq; exact Heq).
        split_and!; [f_equal; lia|by rewrite seqZ_nil by lia|lia|lia| |lia|].
        + replace (r + 1 - 1) with (last_seen_update_id (saved (client w))) by lia. done.
        + cbn. repeat case_match; lia. }
    destruct Hw as (a & q & Hl & Hq & Ha & Hua & Hsa & Heff').
    assert (Hlen : Z.of_nat (length q) = r + 1 - a) by (rewrite Hq, length_seqZ; lia).
    unfold world_ok. cbn [server synced_to move client]. change (saved c') with (saved (client w)).
    split_and!; [lia|lia|lia|lia|by left|..].
    + intros _. split_and!; [lia|lia|exact Hu|]. unfold drain_ok. cbn [client move server].
      change (saved c') with (saved (client w)). rewrite Hl. cbn [applying with_queue live_update_apply_queue].
      split_and!; [lia|lia|exact Hua|done|]. rewrite Hq at 1. f_equal. lia.
    + unfold phase_ok. cbn [phase move client server received]. change (saved c') with (saved (client w)). rewrite Hl.
      split_and!; [done|done|done|done| |].
      * exists (r + 1). rewrite Heff'. split; [lia|by right].
      * cbn. split; [done|lia].
  - destruct (repair_spec _ _ _ Hm) as (Es & Ei & Ee & El). destruct b; cbn [stopped_phase with_stop].
    + apply offline_ok; try done. rewrite El. right. cbn. auto.
    + unfold requestIncrementalRepair in Hm. destruct (resync_pending (saved (client w))); [|done].
      injection Hm as <-. by apply Hsame.
Qed.

Lemma apply_ok w (ok : bool) id c b :
  applying (live (client w)) = Some id → drain_resumed ok (client w) = (c, b) → world_ok w →
  world_ok (move w c (stopped_phase b (phase w)) (with_stop b (received w)) (synced_to w)
    (if ok && bool_decide (known w) then id :: applied w else applied w)).
Proof.
  intros Ha Hd Hok. pose proof Hok as (H1 & H2 & H3 & H4 & H5 & H6).
  assert (Hph : phase w = Offline ∨ phase w = Online).
  { unfold phase_ok in H6. destruct (phase w); auto; exfalso.
    - destruct H6 as (_ & [Hi _] & _). by rewrite Ha in Hi.
    - destruct H6 as (_ & [Hi _] & _). by rewrite Ha in Hi.
    - destruct H6 as (_ & [Hi _] & _). by rewrite Ha in Hi. }
  unfold drain_resumed in Hd. rewrite Ha in Hd. destruct ok.
  - injection Hd as <- <-. cbn [andb stopped_phase with_stop]. set (c := set_live _ _).
    set (w' := move _ _ _ _ _ _).
    destruct (known_cases w) as [Hkn|Hkn].
    2: { assert (Hoff : phase w = Offline).
         { destruct Hph as [|Hp]; [done|]. unfold phase_ok in H6. rewrite Hp in H6. by destruct H6. }
         assert (Hn' : ¬ known w') by exact Hkn.
         unfold world_ok. cbn [server synced_to move w']. split_and!; [lia|lia|lia|lia|by right; destruct H4|done|].
         unfold phase_ok in *. change (phase w') with (phase w). rewrite Hoff in *. exact H6. }
    assert (Hap : applied w' = id :: applied w) by (cbn; by rewrite bool_decide_true).
    destruct (H5 Hkn) as (Hs & Hu & Hdr). unfold drain_ok in Hdr. rewrite Ha in Hdr.
    destruct Hdr as (Hd1 & Hd2 & Hd3 & Hd4 & Hd5).
    assert (Hup : upto w' id).
    { apply (upto_apply w w' (id - 1) id); [done|cbn; lia|done|done|lia]. }
    assert (Hkn' : known w') by exact Hkn.
    set (q := live_update_apply_queue (live (client w))) in *.
    unfold world_ok. cbn [server synced_to move w']. split_and!; [lia|lia|lia|lia|by left|..].
    + intros _. change (client w') with c. change (last_seen_update_id (saved c)) with id.
      split_and!; [lia|lia|left; exact Hup|]. unfold drain_ok.
      subst c. cbn [client w' move set_live live saved set_saved]. fold q.
      destruct q as [|m q'] eqn:Hq; [done|]. cbn [applying with_queue live_update_apply_queue with_last_seen with_seen last_seen_update_id].
      cbn [length] in Hd2, Hd5. rewrite seqZ_cons in Hd5 by lia. injection Hd5 as -> Hq'.
      replace (id + 1 - 1) with id by lia. change (server w') with (server w).
      split_and!; [lia|lia|exact Hup|lia|]. rewrite Hq' at 1. f_equal; lia.
    + unfold phase_ok in *. change (phase w') with (phase w). destruct Hph as [Hp|Hp]; rewrite Hp in *; [exact H6|].
      destruct H6 as (_ & _ & Hdid & Hdef & (r & Heff & Hrec) & Hdrain). rewrite Ha in Hdrain.
      destruct Hdrain as [Hdt Hqi]. fold q in Hqi.
      change (client w') with c. subst c. cbn [set_live live saved set_saved]. fold q.
      assert (He0 : id + Z.of_nat (length q) ≤ r).
      { revert Heff. unfold effectiveLastSeenUpdateId. rewrite Hqi, Hdid. repeat case_match; lia. }
      destruct q as [|m q'] eqn:Hq.
      * cbn. split_and!; try done. exists r. split; [|exact Hrec].
        unfold effectiveLastSeenUpdateId. cbn. subst q. rewrite Hq. cbn. rewrite Hdid. repeat case_match; lia.
      * cbn [length] in Hd2, Hd5, Hqi, He0. rewrite seqZ_cons in Hd5 by lia. injection Hd5 as -> Hq'.
        cbn. split_and!; try done; [|lia]. exists r. split; [|exact Hrec].
        unfold effectiveLastSeenUpdateId. cbn. subst q. rewrite Hq. cbn. rewrite Hdid, Hqi. repeat case_match; lia.
  - cbn [andb]. destruct (repair_spec _ _ _ Hd) as (Es & Ei & Ee & El).
    destruct Hph as [Hp|Hp]; rewrite Hp.
    + assert (Hr : with_stop b (received w) = None).
      { unfold phase_ok in H6. rewrite Hp in H6. by destruct b. }
      rewrite Hr. replace (stopped_phase b Offline) with Offline by (by destruct b).
      apply offline_ok; try done. rewrite El. left. by destruct b.
    + destruct b; cbn [stopped_phase with_stop].
      * apply offline_ok; try done. rewrite El. left. done.
      * unfold phase_ok in H6. rewrite Hp in H6. destruct H6 as (Hkn & Hup & Hdid & Hdef & (r & Heff & Hrec) & _).
        destruct (H5 Hkn) as (Hs & Hu & _). set (w' := move _ _ _ _ _ _).
        assert (Hkn' : known w') by (unfold known, w'; cbn; rewrite Ei, Ee; exact Hkn).
        cbn [set_live live saved] in El, Es.
        unfold world_ok. cbn [server synced_to move w']. split_and!; [lia|lia|lia|lia|by left|..].
        -- intros _. change (client w') with c. rewrite Es. split_and!; [lia|lia|exact Hu|].
           unfold drain_ok. cbn [client w' move]. by rewrite El.
        -- unfold phase_ok. cbn [phase w' move client server received]. rewrite Es, El. cbn.
           split_and!; try done. exists r. split; [|exact Hrec].
           revert Heff. unfold effectiveLastSeenUpdateId. rewrite El, Es. cbn. repeat case_match; lia.
Qed.

(** Nothing the invariant reads changes but that the stream may close. *)
Lemma same_data_ok w c r' :
  last_seen_update_id (saved c) = last_seen_update_id (saved (client w)) →
  last_seen_server_instance (saved c) = last_seen_server_instance (saved (client w)) →
  last_seen_user_publish_epoch (saved c) = last_seen_user_publish_epoch (saved (client w)) →
  live c = live (client w) → (r' = None ∨ r' = received w) → world_ok w →
  world_ok (move w c (phase w) r' (synced_to w) (applied w)).
Proof.
  intros Es Ei Ee El Hr (H1 & H2 & H3 & H4 & H5 & H6).
  assert (Hh : ∀ x, held_back w x → held_back (move w c (phase w) r' (synced_to w) (applied w)) x).
  { intros x (r & Hxr & Hrec & Hrest). exists r. cbn [server client received move]. rewrite El.
    split; [exact Hxr|]. split; [|exact Hrest]. destruct Hr as [->| ->]; [by left|exact Hrec]. }
  assert (Hkn : known w ↔ known (move w c (phase w) r' (synced_to w) (applied w)))
    by (unfold known; cbn [client move server]; by rewrite Ei, Ee).
  unfold world_ok. cbn [server client synced_to move]. rewrite Es.
  split; [exact H1|]. split; [exact H2|]. split; [exact H3|]. split; [by rewrite <- Hkn|]. split.
  - rewrite <- Hkn. intros Hk. destruct (H5 Hk) as (Hs & Hu & Hd). split; [exact Hs|]. split; [exact Hu|].
    unfold drain_ok in *. cbn [client server move]. rewrite Es, El. exact Hd.
  - unfold phase_ok in *. cbn [phase client server received move]. rewrite Es, El.
    destruct (phase w) as [|d|d sub|d|].
    + destruct Hr as [->| ->]; [done|exact H6].
    + rewrite <- Hkn. destruct H6 as (? & ? & ? & Hn & H6). rewrite Hn in Hr.
      do 3 (split; [done|]). split; [by destruct Hr|exact H6].
    + rewrite <- Hkn. destruct H6 as (? & ? & ? & ? & ? & Hc). do 5 (split; [done|]).
      destruct (syncs d); [by apply Hh|]. destruct Hc as [? Hc]. split; [done|by apply Hh].
    + rewrite <- Hkn. destruct H6 as (? & ? & x & ? & ? & Hc). do 2 (split; [done|]). exists x. do 2 (split; [done|]). by apply Hh.
    + rewrite <- Hkn. destruct H6 as (? & ? & ? & ? & (r & He & Hrec) & Hd). do 4 (split; [done|]). split; [|exact Hd].
      exists r. split; [|destruct Hr as [->| ->]; auto].
      revert He. unfold effectiveLastSeenUpdateId. by rewrite Es, El.
Qed.

Lemma repair_ok w c b :
  requestIncrementalRepair (client w) = (c, b) → world_ok w →
  world_ok (move w c (stopped_phase b (phase w)) (with_stop b (received w)) (synced_to w) (applied w)).
Proof.
  intros Hd Hok. destruct (repair_spec _ _ _ Hd) as (Es & Ei & Ee & El).
  destruct b; cbn [stopped_phase with_stop]; [|apply same_data_ok; try done; by right].
  destruct (phase w) as [|d|d sub|d|] eqn:Hp.
  1, 5: apply offline_ok; try done; rewrite El; right; cbn; auto.
  all: rewrite <- Hp; apply same_data_ok; try done; [|by left];
    destruct Hok as (_ & _ & _ & _ & _ & H6); unfold phase_ok in H6; rewrite Hp in H6;
    destruct H6 as (_ & (Hi1 & Hi2 & Hi3 & Hi4) & _); rewrite El; unfold with_queue; rewrite Hi1;
    destruct (live (client w)); cbn in *; congruence.
Qed.

Lemma world_step_ok w w' : world_step w w' → world_ok w → world_ok w'.
Proof.
  intros Hst Hok. destruct Hst.
  - by apply publish_ok.
  - by apply restart_ok.
  - by eapply hello_ok.
  - by eapply subscribe_ok.
  - by eapply sync_ok.
  - by eapply replay_ok.
  - by eapply replay_failed_ok.
  - by apply online_ok.
  - destruct (initial_phase (phase w)) eqn:Hip; [by eapply deliver_initial_ok|].
    destruct (phase w) eqn:Hp; try done.
    + destruct Hok as (_ & _ & _ & _ & _ & H6). unfold phase_ok in H6. rewrite Hp in H6. congruence.
    + rewrite <- Hp. by eapply deliver_online_ok.
  - by eapply apply_ok.
  - by apply repair_ok.
  - apply offline_ok; try done. right. auto.
  - apply offline_ok; try done. by left.
Qed.
End world.

(** A client that has not seen this instance of the server yet. *)
Definition new_client (s : Server) (c : Client) : World :=
  {| server := s; client := c; phase := Offline; received := None; synced_to := -1; applied := [] |}.

Lemma new_client_ok resync s c :
  instance s ≠ last_seen_server_instance (saved c) → kept s = 0 → 1 ≤ cur s < 2 ^ 32 →
  world_ok resync (new_client s c).
Proof. intros Hi Hk Hc. by apply (restart_ok resync (new_client s c) s). Qed.


(** The decision at the start of a session fits the server's log.  A
    client that has the server's instance and epoch and is not ahead of the
    log either syncs, and then subscribes to what comes after, or it asks
    for a replay from the last update it has seen; then the log queues
    exactly the updates it has missed, in order, unless the new stream
    itself refuses one of them. *)
Theorem session_start_complete {P} `{!PublisherIface P} need_full inst ep data (u : UserContext P) (p : P)
    c c1 c2 d from u' p' res :
  log_wf u → publish_message_id u < 2 ^ 32 →
  last_seen_server_instance (saved c) = inst → last_seen_user_publish_epoch (saved c) = ep →
  0 ≤ last_seen_update_id (saved c) ≤ publish_message_id u →
  hello_decision need_full (hello_of inst ep data u) c = (c1, d) →
  updates_request d c1 = (c2, from) →
  addPublisher u p from = (u', p', res) →
  (syncs d = true ∧ from = None ∧ res = LIVE_ONLY ∧ accepted p' = accepted p) ∨
  (syncs d = false ∧ from = Some (last_seen_update_id (saved c)) ∧
   ((res = REPLAY_QUEUED ∧
     messageId <$> accepted p' = (messageId <$> accepted p) ++
       seqZ (last_seen_update_id (saved c) + 1) (publish_message_id u - last_seen_update_id (saved c))) ∨
    (res = REPLAY_UNAVAILABLE ∧ (replay_from (last_seen_update_id (saved c)) (retained_updates u) p).2 = false))).
Proof.
  intros Hwf Hmax Hi He Hs Hh Hreq Hadd. set (seen := last_seen_update_id (saved c)) in *.
  set (n := length (retained_updates u)).
  set (s := {| instance := inst; epoch := ep; data_epoch := data; cur := publish_message_id u; kept := Z.of_nat n |}).
  assert (Hhello : hello_of inst ep data u = server_hello s).
  { unfold hello_of, server_hello. cbn. f_equal. subst n. destruct (retained_updates u) as [|o us] eqn:E; [done|].
    rewrite (log_wf_oldest u o us Hwf E), E. cbn [length]. by destruct (Z.eqb_spec (Z.of_nat (S (length us))) 0). }
  rewrite Hhello in Hh. destruct (hello_spec _ _ _ _ _ Hh) as (_ & _ & Hl & [(_ & _ & Hseen & Hn)|(_ & _ & Hno)]);
    [|by destruct Hno].
  destruct (updates_request_spec _ _ _ _ Hreq) as (_ & _ & Hfrom & _). rewrite Hseen, Hl in Hfrom.
  cbn in Hfrom. specialize (Hfrom (proj2 Hs)). destruct (syncs d) eqn:Hsd; [left|right]; rewrite Hfrom in *.
  { unfold addPublisher in Hadd. injection Hadd as <- <- <-. done. }
  split_and!; [done|done|]. fold seen in Hfrom, Hn, Hadd. specialize (Hn Hs Hmax ltac:(cbn; lia) eq_refl). cbn in Hn.
  destruct res.
  - exfalso. unfold addPublisher in Hadd. repeat case_match; congruence.
  - left. split; [done|]. by apply addPublisher_queued in Hadd as [-> _].
  - right. split; [done|]. unfold addPublisher in Hadd. cbn [publish_message_id retained_updates purgeExpiredPublishers set_publishers] in Hadd.
    destruct (Z.ltb_spec (publish_message_id u) seen); [lia|].
    destruct (Z.ltb_spec seen (publish_message_id u)); [|by injection Hadd].
    destruct (retained_updates u) as [|o us] eqn:E; [cbn in n; lia|].
    pose proof (log_wf_oldest u o us Hwf E) as Ho. rewrite E in Ho. fold n in Ho.
    destruct (Z.ltb_spec (seen + 1) (messageId o)); [lia|].
    destruct (replay_from seen (o :: us) p) as [q [|]]; [by injection Hadd|done].
Qed.

(** ** What the decisions miss *)

(** When the server's number is behind what the client has seen, with the
    same instance and epoch, the client neither syncs nor asks for a replay,
    and drops the updates that come with the numbers again. *)
Lemma lower_number_is_ignored h c c1 c2 d from :
  serverInstanceTag h = last_seen_server_instance (saved c) →
  userPublishEpoch h = last_seen_user_publish_epoch (saved c) →
  userDataEpoch h = user_data_epoch (saved c) → updatedIdInitialized (saved c) = true →
  incremental_repair (saved c) = false → supportsUpdatedId h = true →
  lastPublishId h < last_seen_update_id (saved c) →
  hello_decision false h c = (c1, d) → updates_request d c1 = (c2, from) →
  syncs d = false ∧ from = None ∧
  ∀ id, id ≤ last_seen_update_id (saved c) →
    onUpdateMessage false (UpdateMsg id) (finish_session d (complete_sync d c2)) =
      (finish_session d (complete_sync d c2), false).
Proof.
  intros Hi He Hd Hu Hr Hs Hlt Hh Hreq. unfold hello_decision, compare_hello in Hh.
  rewrite Hi, He, Hs, !Z.eqb_refl in Hh. cbn [negb andb] in Hh. rewrite (proj2 (Z.ltb_lt _ _) Hlt) in Hh.
  rewrite Hd, Hu, Hr, Z.eqb_refl in Hh. cbn in Hh. injection Hh as <- <-.
  unfold updates_request in Hreq. cbn in Hreq. rewrite (proj2 (Z.leb_gt _ _) Hlt) in Hreq. injection Hreq as <- <-.
  split_and!; [done|done|]. intros id Hid. cbn [onUpdateMessage]. set (c' := finish_session _ _).
  assert (Hle : id ≤ effectiveLastSeenUpdateId c').
  { unfold effectiveLastSeenUpdateId. cbn. repeat case_match; lia. }
  by rewrite (proj2 (Z.leb_le _ _) Hle).
Qed.

(** The need of a sync after a new instance of the server is not remembered:
    the instance is on file before the sync, so when that session fails, the
    next one sees nothing new if the log is still empty. *)
Lemma failed_sync_is_forgotten h c c1 d1 c2 d2 :
  serverInstanceTag h ≠ last_seen_server_instance (saved c) →
  userDataEpoch h = user_data_epoch (saved c) → updatedIdInitialized (saved c) = true →
  incremental_repair (saved c) = false → lastPublishId h = 0 →
  hello_decision false h c = (c1, d1) → hello_decision false h c1 = (c2, d2) →
  syncs d1 = true ∧ syncs d2 = false.
Proof.
  intros Hi Hd Hu Hr Hl H1 H2. unfold hello_decision, compare_hello in H1.
  rewrite (proj2 (Z.eqb_neq _ _) Hi) in H1. cbn in H1. rewrite Hd, Hu, Z.eqb_refl in H1. injection H1 as <- <-.
  unfold hello_decision, compare_hello in H2. cbn in H2. rewrite !Z.eqb_refl, Hl in H2. cbn in H2.
  rewrite !andb_false_r in H2. cbn in H2. rewrite Hd, Hu, Hr, Z.eqb_refl in H2. cbn in H2.
  rewrite andb_false_r in H2. by injection H2 as <- <-.
Qed.

(** A held back update that fails to apply asks for a repair and closes the
    stream; the end of the session start then withdraws the repair and goes
    online. *)
Lemma failed_replay_leaves_no_repair d c c' id l :
  deferred_updates (live c) = id :: l → replay_deferred false c = (c', true) →
  incremental_repair (saved c') = true ∧ incremental_repair (saved (finish_session d c')) = false.
Proof.
  intros Hd. unfold replay_deferred, requestIncrementalRepair. rewrite Hd.
  cbn [saved set_live]. destruct (resync_pending (saved c)); intros [= <-]; done.
Qed.

(** ** Examples *)
Definition example_client (seen : Z) : Client :=
  {| saved := {| last_seen_update_id := seen; last_seen_server_instance := 1; last_seen_user_publish_epoch := 7;
       user_data_epoch := 3; incremental_repair := false; resync_pending := false; updatedIdInitialized := true |};
     live := {| session_start_publish_id := 0; session_user_publish_epoch := 0; session_user_data_epoch := 0;
       deferred_update_id := 0; queued_update_id := 0; deferred_updates := []; live_update_apply_queue := [];
       applying := None; draining_live_updates := false |} |}.

Definition example_server : Server :=
  {| instance := 2; epoch := 7; data_epoch := 3; cur := 5; kept := 0 |}.

(** A publisher that takes everything. *)
#[local] Program Instance list_publisher : PublisherIface (list Update) := {|
  pub_uuid _ := "a"; expired _ := false; session_device _ := Some "phone";
  pub_publish p u := (p ++ [u], true); accepted p := p; dead _ := False; evolve p p' := p = p' |}.
Solve Obligations with naive_solver.

Definition example_context : UserContext (list Update) :=
  {| publish_message_id := 7; PublishLog.data_sync_epoch := 3;
     retained_updates := [mk_Update 5 Resync; mk_Update 6 Resync; mk_Update 7 Resync]; publishers := [] |}.

Definition request_of (need_full : bool) (h : Hello) (c : Client) : option Z :=
  (updates_request (hello_decision need_full h c).2 (hello_decision need_full h c).1).2.

Lemma session_start_complete_witness :
  request_of false (hello_of 1 7 3 example_context) (example_client 5) = Some 5 ∧
  let '(_, p', res) := addPublisher example_context [] (Some 5) in
  res = REPLAY_QUEUED ∧ messageId <$> accepted p' = [6; 7].
Proof.
  split; [vm_compute; reflexivity|].
  destruct (session_start_complete false 1 7 3 example_context [] (example_client 5)
    (hello_decision false (hello_of 1 7 3 example_context) (example_client 5)).1
    (updates_request (hello_decision false (hello_of 1 7 3 example_context) (example_client 5)).2
      (hello_decision false (hello_of 1 7 3 example_context) (example_client 5)).1).1
    (hello_decision false (hello_of 1 7 3 example_context) (example_client 5)).2 (Some 5)
    (addPublisher example_context [] (Some 5)).1.1 (addPublisher example_context [] (Some 5)).1.2
    (addPublisher example_context [] (Some 5)).2)
    as [(H & _)|(_ & _ & [[_ H]|[H _]])].
  - unfold log_wf. cbn. split_and!; [lia|lia|unfold kReplayBacklogLimit; lia|vm_compute; reflexivity].
  - cbn. lia.
  - reflexivity.
  - reflexivity.
  - cbn. lia.
  - vm_compute. reflexivity.
  - vm_compute. reflexivity.
  - vm_compute. reflexivity.
  - discriminate H.
  - split; [reflexivity|exact H].
  - discriminate H.
Defined.

(** The server has restarted: hello, subscription, one update published and
    held back while the client syncs. *)
Definition example_plan : SessionPlan := (hello_decision false (server_hello example_server) (example_client 5)).2.

Definition example_greeted : Client := (hello_decision false (server_hello example_server) (example_client 5)).1.

Definition example_world : World :=
  {| server := {| instance := 2; epoch := 7; data_epoch := 3; cur := 6; kept := 1 |};
     client := set_live (with_deferred 6 [6]) (complete_sync example_plan (updates_request example_plan example_greeted).1);
     phase := Replaying example_plan; received := Some 6; synced_to := 5; applied := [] |}.

