(* ===== verification/Guards.v ===== *)
(** * The guards of the handlers

    The handlers of Nodes.v and WorkStore.v are proved against the classes
    [NodeGate] and [PlanGate]: what they need of the user's plan and of the
    access of the session.  Here are the instances the server runs them
    with, [Session::requireWritableForAdd] of SessionAccess.v and
    [UserContext::reserveAddition] of PlanLimits.v, and what follows for the
    handlers. *)
From S2P Require Import Prelude WorkSession PlanLimits SessionAccess.
From S2P Require WorkStore Nodes.

#[local] Open Scope Z_scope.
#[local] Open Scope nextapp_scope.

Section guards.
Context (enable_plan : bool) (grace_window now : Z).
Context (state : TenantState) (mode : SessionAccessMode) (u : PlanUsage).

(** What a handler sees of a reservation. *)
Definition reserve (amount : Z) (r : PlanResource) : result unit :=
  (λ _, tt) <$> (reserveAddition enable_plan grace_window now amount r u).2.

Definition node_gate : Nodes.NodeGate := {|
  Nodes.requireWritableForAdd := requireWritableForAdd state mode;
  Nodes.reserveAddition n := reserve (Z.of_nat n) NODE
|}.

Definition work_gate : WorkStore.PlanGate := {|
  WorkStore.requireWritableForAdd := requireWritableForAdd state mode;
  WorkStore.reserveAddition n := reserve n WORK_SESSION
|}.

(** A reservation that is granted fits the plan. *)
Lemma reserve_fits amount r :
  reserve amount r = Ok tt → amount ≠ 0 → enable_plan = true →
  loaded u = true ∧
  (allowedWithGrace grace_window (counters u r) = 0 ∨
   used (counters u r) + reserved (counters u r) + amount ≤ allowedWithGrace grace_window (counters u r)).
Proof.
  unfold reserve, reserveAddition. intros Hr Ha He.
  rewrite (proj2 (Z.eqb_neq _ _) Ha), He in Hr. cbn [negb orb] in Hr.
  destruct (loaded u); cbn [negb] in Hr; [|done]. split; [done|].
  assert (Hc : ∀ (b : bool) x, counters (if b then set_refresh true (next_refresh_at u) u else u) x = counters u x)
    by (by intros []).
  rewrite !Hc in Hr. destruct (_ && _) eqn:Hlim in Hr; [done|].
  apply andb_false_iff in Hlim as [Hl|Hl]; [left|right].
  - apply negb_false_iff in Hl. by apply Z.eqb_eq.
  - by apply Z.ltb_ge in Hl.
Qed.

(** A session without write access creates no node and no work session. *)
Lemma read_only_creates_nothing e :
  requireWritableForAdd state mode = Throw e →
  (∀ `{Nodes.NodeIds} cuser m d, Nodes.m_parent m = EmptyString →
     @Nodes.CreateNode node_gate _ cuser m d = Throw e) ∧
  (∀ `{WorkStore.RowIds} settings t what activate d,
     @WorkStore.CreateWorkSession work_gate _ settings t what activate d = Throw e).
Proof.
  intros He. split.
  - intros Hids cuser m d Hp. unfold Nodes.CreateNode.
    rewrite (bool_decide_true (Nodes.m_parent m = EmptyString)) by exact Hp.
    cbv [gets mbind M_bind lift mret M_ret]. cbn [Nodes.requireWritableForAdd node_gate]. by rewrite He.
  - intros Hids settings t what activate d. unfold WorkStore.CreateWorkSession.
    cbv [mbind M_bind lift]. cbn [WorkStore.requireWritableForAdd work_gate]. by rewrite He.
Qed.

(** The nodes a template adds were within the plan's limit. *)
Lemma template_within_plan `{Nodes.NodeIds} cuser t d x d' :
  Nodes.wf (Nodes.nodes d) → enable_plan = true → Nodes.countTemplateNodes t ≠ 0%nat →
  @Nodes.CreateNodesFromTemplate node_gate _ cuser t d = Ok (x, d') →
  allowedWithGrace grace_window (counters u NODE) = 0 ∨
  used (counters u NODE) + reserved (counters u NODE) + Z.of_nat (Nodes.countTemplateNodes t)
    ≤ allowedWithGrace grace_window (counters u NODE).
Proof.
  intros Hwf He Hn Hc. apply (@Nodes.CreateNodesFromTemplate_wf node_gate) in Hc as (_ & _ & _ & Hr); [|done].
  apply reserve_fits in Hr; [tauto|lia|done].
Qed.
End guards.
