(* ===== verification/Sync.v ===== *)
(** * Incremental synchronisation of a table

    How a client gets the rows it has missed: the cursors of
    src/src/backend/lib/grpc/shared_grpc_server.h, the [export...Current]
    functions of Actions.cpp, Calendar.cpp, Work.cpp, Node.cpp and
    GreenDays.cpp (one query and one loop that sends batches), the triggers
    that stamp every changed row with the next number of a sequence
    (Server.cpp), and the client's ServerSynchedCahce.h with the upsert of
    its caches.

    The rows are those of one user.  A row carries what the queries look at
    and its other columns as one value.  The query reads a snapshot, as one
    [SELECT] does. *)
From S2P Require Import Prelude.
From stdpp Require Import sorting.

#[local] Open Scope Z_scope.

(** The synchronised tables. *)
Inductive Table := T_ACTION | T_TIME_BLOCK | T_WORK_SESSION | T_NODE | T_DAY.

#[global] Instance Table_eq_dec : EqDecision Table.
Proof. solve_decision. Defined.

(** ** Cursors *)

(** [pb::GetNewReq] *)
Record GetNewReq := { req_since : Z; req_fullsync : option bool }.

(** [IncrementalSyncCursor] *)
Record IncrementalSyncCursor := { use_updated_id : bool; full_sync : bool; since : Z }.

Definition getLegacySyncCursor (req : GetNewReq) : IncrementalSyncCursor :=
  {| use_updated_id := false; full_sync := default false (req_fullsync req); since := req_since req |}.

Definition getCurrentSyncCursor (req : GetNewReq) : IncrementalSyncCursor :=
  let cursor := getLegacySyncCursor req in
  {| use_updated_id := true; full_sync := full_sync cursor; since := since cursor |}.

Section sync.
Context {D : Type}.

(** [r_linked]: an action has a node, a time block its times, a work
    session an action; a node is reached from a root.  A deleted row is
    kept as a tombstone. *)
Record Row := { r_updated_id : Z; r_deleted : bool; r_linked : bool; r_data : D }.

Implicit Types (r : Row) (t : Table) (l tbl : gmap string Row).

(** ** The query *)

Definition fetch_all (c : IncrementalSyncCursor) : bool := since c =? 0.

Definition where_clause (c : IncrementalSyncCursor) r : bool :=
  fetch_all c || (since c <? r_updated_id r).

Definition tombstone_filter t (c : IncrementalSyncCursor) r : bool :=
  match t with
  | T_ACTION | T_TIME_BLOCK =>
      if full_sync c then negb (r_deleted r) else r_linked r || r_deleted r
  | T_WORK_SESSION =>
      if full_sync c then negb (r_deleted r) && r_linked r else r_linked r || r_deleted r
  | T_NODE => r_linked r && (negb (full_sync c) || negb (r_deleted r))
  | T_DAY => negb (fetch_all c) || (negb (full_sync c) || negb (r_deleted r))
  end.

Definition by_updated_id (a b : string * Row) : Prop := r_updated_id a.2 ≤ r_updated_id b.2.

#[local] Instance by_updated_id_dec a b : Decision (by_updated_id a b).
Proof. unfold by_updated_id. apply _. Defined.

#[local] Instance by_updated_id_trans : Transitive by_updated_id.
Proof. intros a b c. unfold by_updated_id. lia. Qed.

#[local] Instance by_updated_id_total : Total by_updated_id.
Proof. intros a b. unfold by_updated_id. lia. Qed.

(** [SELECT ... WHERE ... ORDER BY updated_id] *)
Definition selected t (c : IncrementalSyncCursor) tbl : list (string * Row) :=
  merge_sort by_updated_id
    (List.filter (λ kr : string * Row, where_clause c kr.2 && tombstone_filter t c kr.2) (map_to_list tbl)).

(** ** The loop that sends batches *)
(** What was sent, the batch under construction and the rows counted. *)
Record Export := { sent : list (list (string * Row)); batch : list (string * Row); total_rows : nat }.

Definition flush (e : Export) : Export :=
  {| sent := sent e ++ [batch e]; batch := []; total_rows := total_rows e |}.

Definition add_row (batch_size : nat) (e : Export) (row : string * Row) : Export :=
  let e := {| sent := sent e; batch := batch e ++ [row]; total_rows := S (total_rows e) |} in
  if Nat.leb batch_size (length (batch e)) then flush e else e.

(** [chunks] is what the calls of [readSome] return; [shouldReadMore] is
    false at the last one. *)
Fixpoint read_loop (batch_size : nat) (chunks : list (list (string * Row))) (e : Export) : Export :=
  match chunks with
  | [] => e
  | rows :: chunks =>
      if bool_decide (length rows = 0%nat) then e
      else let e := foldl (add_row batch_size) e rows in
           match chunks with [] => e | _ => read_loop batch_size chunks e end
  end.

Definition export_batches (batch_size : nat) (chunks : list (list (string * Row))) : list (list (string * Row)) * nat :=
  let e := flush (read_loop batch_size chunks {| sent := []; batch := []; total_rows := 0 |}) in
  (sent e, total_rows e).

(** The exports; [readSome] cuts the rows of the result into what its calls
    return. *)
Section exports.
Context (stream_batch_size : nat) (readSome : list (string * Row) → list (list (string * Row))).
Context (req : GetNewReq).

Definition exportActionsCurrent tbl : list (list (string * Row)) * nat :=
  let cursor := getCurrentSyncCursor req in
  let batch_size := min stream_batch_size 100 in
  export_batches batch_size (readSome (selected T_ACTION cursor tbl)).

Definition exportTimeBlocksCurrent tbl : list (list (string * Row)) * nat :=
  let cursor := getCurrentSyncCursor req in
  let batch_size := min stream_batch_size 100 in
  export_batches batch_size (readSome (selected T_TIME_BLOCK cursor tbl)).

Definition exportWorkCurrent tbl : list (list (string * Row)) * nat :=
  let cursor := getCurrentSyncCursor req in
  let batch_size := min stream_batch_size 100 in
  export_batches batch_size (readSome (selected T_WORK_SESSION cursor tbl)).

Definition exportNodesCurrent tbl : list (list (string * Row)) * nat :=
  let cursor := getCurrentSyncCursor req in
  let batch_size := stream_batch_size in
  export_batches batch_size (readSome (selected T_NODE cursor tbl)).

Definition exportDaysCurrent tbl : list (list (string * Row)) * nat :=
  let cursor := getCurrentSyncCursor req in
  let batch_size := stream_batch_size in
  export_batches batch_size (readSome (selected T_DAY cursor tbl)).

Definition exportCurrent t tbl : list (list (string * Row)) * nat :=
  match t with
  | T_ACTION => exportActionsCurrent tbl
  | T_TIME_BLOCK => exportTimeBlocksCurrent tbl
  | T_WORK_SESSION => exportWorkCurrent tbl
  | T_NODE => exportNodesCurrent tbl
  | T_DAY => exportDaysCurrent tbl
  end.
End exports.

(** ** The client *)

(** [INSERT ... ON CONFLICT(id) DO UPDATE ... WHERE EXCLUDED.updated_id >=
    COALESCE(updated_id, 0)], and [DELETE] for a tombstone. *)
Definition save_row (kr : string * Row) l : gmap string Row :=
  if r_deleted kr.2 then delete kr.1 l
  else match l !! kr.1 with
       | Some r' => if r_updated_id r' <=? r_updated_id kr.2 then <[kr.1 := kr.2]> l else l
       | None => <[kr.1 := kr.2]> l
       end.

Definition saveBatch (rows : list (string * Row)) l : gmap string Row :=
  foldl (λ l kr, save_row kr l) l rows.

(** [SELECT MAX(updated_id)] *)
Definition getLastUpdatedId l : Z := map_fold (λ _ r m, Z.max (r_updated_id r) m) 0 l.

(** The request of [synchFromServer]. *)
Definition sync_request (isFullSync : bool) l : GetNewReq :=
  {| req_since := getLastUpdatedId l; req_fullsync := if isFullSync then Some true else None |}.

(** [synchFromServer]: every batch is saved before the next is read. *)
Definition synchFromServer (isFullSync : bool) (server : GetNewReq → list (list (string * Row))) l : gmap string Row :=
  foldl (λ l b, saveBatch b l) l (server (sync_request isFullSync l)).

(** ** The rows a client should have *)
Definition visible tbl : gmap string Row := omap (λ r, if r_deleted r then None else Some r) tbl.

(** The rows of [l] agree with [r]. *)
Definition reflects l (k : string) r : Prop :=
  l !! k = if r_deleted r then None else Some r.

(** ** A server, one client and what happens between them

    Writers stamp the rows they change with the next number of
    [sync_updated_id_seq] when they change them and show them to others when
    they commit.  [excl]: the handlers hold the user's write access, so one
    writer is at work at a time. *)
Record Sys := {
  tbl : gmap string Row;
  seq : Z;
  open_trx : list (list (string * Row));
  local : gmap string Row;
  live : option (list (string * Row));   (* updates on their way, when subscribed *)
  valid : bool                           (* the state of the cache *)
}.

(** A row every query exports, unless it asks for no tombstones. *)
Definition exportable t r : bool :=
  match t with
  | T_NODE => r_linked r
  | T_DAY => true
  | _ => r_linked r || r_deleted r
  end.

Definition commit_rows (tr : list (string * Row)) l : gmap string Row :=
  foldl (λ l kr, <[kr.1 := kr.2]> l) l tr.

Inductive step (excl : bool) t : Sys → Sys → Prop :=
| s_begin s :
    (excl = true → open_trx s = []) →
    step excl t s {| tbl := tbl s; seq := seq s; open_trx := open_trx s ++ [[]]; local := local s;
                     live := live s; valid := valid s |}
| s_write s i tr k deleted linked d :
    open_trx s !! i = Some tr →
    exportable t {| r_updated_id := seq s + 1; r_deleted := deleted; r_linked := linked; r_data := d |} = true →
    step excl t s {| tbl := tbl s; seq := seq s + 1;
                     open_trx := <[i := tr ++ [(k, {| r_updated_id := seq s + 1; r_deleted := deleted;
                                                      r_linked := linked; r_data := d |})]]> (open_trx s);
                     local := local s; live := live s; valid := valid s |}
| s_commit s i tr :
    open_trx s !! i = Some tr →
    step excl t s {| tbl := commit_rows tr (tbl s); seq := seq s; open_trx := base.delete i (open_trx s);
                     local := local s; live := (λ q, q ++ tr) <$> live s; valid := valid s |}
| s_rollback s i tr :
    open_trx s !! i = Some tr →
    step excl t s {| tbl := tbl s; seq := seq s; open_trx := base.delete i (open_trx s);
                     local := local s; live := live s; valid := valid s |}
| s_connect s :
    live s = None →
    step excl t s {| tbl := tbl s; seq := seq s; open_trx := open_trx s; local := local s;
                     live := Some []; valid := valid s |}
(* A client that stops in the middle of its queue asks for the rest by
   number, see ClientSync.v. *)
| s_disconnect s :
    valid s = false ∨ live s = Some [] →
    step excl t s {| tbl := tbl s; seq := seq s; open_trx := open_trx s; local := local s;
                     live := None; valid := false |}
| s_deliver s k r q :
    valid s = true → live s = Some ((k, r) :: q) →
    step excl t s {| tbl := tbl s; seq := seq s; open_trx := open_trx s; local := save_row (k, r) (local s);
                     live := Some q; valid := true |}
| s_synch s q batches :
    live s = Some q →
    concat batches = selected t (getCurrentSyncCursor (sync_request false (local s))) (tbl s) →
    step excl t s {| tbl := tbl s; seq := seq s; open_trx := open_trx s;
                     local := synchFromServer false (λ _, batches) (local s); live := live s; valid := true |}
| s_full_synch s q batches :
    live s = Some q →
    concat batches = selected t (getCurrentSyncCursor (sync_request true ∅)) (tbl s) →
    step excl t s {| tbl := tbl s; seq := seq s; open_trx := open_trx s;
                     local := synchFromServer true (λ _, batches) ∅; live := live s; valid := true |}
(* A full sync runs without a transaction: what was saved stays. *)
| s_full_synch_cut s batches rest :
    concat (batches ++ rest) = selected t (getCurrentSyncCursor (sync_request true ∅)) (tbl s) →
    step excl t s {| tbl := tbl s; seq := seq s; open_trx := open_trx s;
                     local := synchFromServer true (λ _, batches) ∅; live := live s; valid := false |}.

Definition init : Sys :=
  {| tbl := ∅; seq := 0; open_trx := []; local := ∅; live := None; valid := false |}.

Definition reachable (excl : bool) t : Sys → Prop := rtc (step excl t) init.

(** ** Lemmas: the query *)

Lemma elem_of_selected t c tbl k r :
  (k, r) ∈ selected t c tbl ↔
  tbl !! k = Some r ∧ where_clause c r = true ∧ tombstone_filter t c r = true.
Proof.
  unfold selected. rewrite merge_sort_Permutation, elem_of_list_filter_bool, elem_of_map_to_list.
  cbn [snd]. rewrite andb_true_iff. tauto.
Qed.

Lemma selected_sorted t c tbl : StronglySorted by_updated_id (selected t c tbl).
Proof. apply StronglySorted_merge_sort; apply _. Qed.

Lemma selected_NoDup t c tbl : NoDup (selected t c tbl).*1.
Proof.
  unfold selected. rewrite merge_sort_Permutation. apply NoDup_fst_filter, NoDup_fst_map_to_list.
Qed.

(** ** Lemmas: the batches *)

Record export_ok (n : nat) (rows : list (string * Row)) (e : Export) : Prop := {
  eo_rows : concat (sent e) ++ batch e = rows;
  eo_total : total_rows e = length rows;
  eo_sent : Forall (λ b, length b = Nat.max 1 n) (sent e);
  eo_batch : (length (batch e) < Nat.max 1 n)%nat
}.

Lemma export_ok_row n rows e row :
  export_ok n rows e → export_ok n (rows ++ [row]) (add_row n e row).
Proof.
  intros [Hr Ht Hs Hb]. unfold add_row. cbn [batch sent total_rows].
  rewrite length_app. cbn [length]. destruct (Nat.leb_spec n (length (batch e) + 1)).
  - split; cbn [flush sent batch total_rows].
    + by rewrite concat_app, app_nil_r, <- Hr, <- app_assoc; cbn; rewrite app_nil_r.
    + rewrite length_app. cbn. lia.
    + apply Forall_app. split; [done|]. apply Forall_singleton. rewrite length_app. cbn. lia.
    + cbn. lia.
  - split; cbn [sent batch total_rows]; rewrite ?length_app; cbn; [by rewrite <- Hr, app_assoc|lia|done|lia].
Qed.

Lemma export_ok_rows n rows e more :
  export_ok n rows e → export_ok n (rows ++ more) (foldl (add_row n) e more).
Proof.
  revert rows e. induction more as [|row more IH]; intros rows e He; cbn; [by rewrite app_nil_r|].
  rewrite (cons_middle row), app_assoc. apply IH. by apply export_ok_row.
Qed.

Lemma export_ok_loop n chunks rows e :
  Forall (λ c, c ≠ []) chunks → export_ok n rows e →
  export_ok n (rows ++ concat chunks) (read_loop n chunks e).
Proof.
  revert rows e. induction chunks as [|c chunks IH]; intros rows e Hc He; cbn [read_loop concat];
    [by rewrite app_nil_r|].
  apply Forall_cons in Hc as [Hc Hcs]. rewrite bool_decide_false by (by destruct c).
  apply (export_ok_rows _ _ _ c) in He. destruct chunks as [|c' chunks]; [by rewrite app_nil_r|].
  rewrite app_assoc. by apply IH.
Qed.

(** The loop over a result that is read in several pieces, the last of which
    may be empty. *)
Lemma read_loop_tail n chunks e :
  Forall (λ c, c ≠ []) chunks → read_loop n (chunks ++ [[]]) e = read_loop n chunks e.
Proof.
  revert e. induction chunks as [|c chunks IH]; intros e Hc; [done|].
  apply Forall_cons in Hc as [Hc Hcs]. cbn [app read_loop].
  rewrite bool_decide_false by (by destruct c). destruct chunks as [|c' chunks]; [by cbn|].
  cbn [app]. rewrite <- IH by done. done.
Qed.

(** ** Lemmas: the client *)

Lemma save_row_ne kr l k : k ≠ kr.1 → save_row kr l !! k = l !! k.
Proof.
  intros Hk. unfold save_row. destruct (r_deleted kr.2); [by rewrite lookup_delete_ne|].
  destruct (l !! kr.1); [case_if|]; by rewrite ?lookup_insert_ne by done.
Qed.

Lemma save_row_at k r l :
  save_row (k, r) l !! k =
  if r_deleted r then None
  else match l !! k with
       | Some r' => if r_updated_id r' <=? r_updated_id r then Some r else Some r'
       | None => Some r
       end.
Proof.
  unfold save_row. cbn [fst snd]. destruct (r_deleted r); [by rewrite lookup_delete_eq|].
  destruct (l !! k) eqn:He; [case_if|]; by rewrite ?lookup_insert_eq, ?He.
Qed.

Lemma saveBatch_cons kr rows l : saveBatch (kr :: rows) l = saveBatch rows (save_row kr l).
Proof. done. Qed.

Lemma saveBatch_app rows rows' l : saveBatch (rows ++ rows') l = saveBatch rows' (saveBatch rows l).
Proof. apply foldl_app. Qed.

Lemma saveBatch_notin rows l k : k ∉ rows.*1 → saveBatch rows l !! k = l !! k.
Proof.
  revert l. induction rows as [|kr rows IH]; intros l Hk; [done|]. rewrite saveBatch_cons.
  apply not_elem_of_cons in Hk as [Hk Hks]. rewrite IH by done. by apply save_row_ne.
Qed.

Lemma saveBatch_in rows l k r :
  NoDup rows.*1 → (k, r) ∈ rows → saveBatch rows l !! k = save_row (k, r) l !! k.
Proof.
  revert l. induction rows as [|kr rows IH]; intros l Hn Hk; [by apply not_elem_of_nil in Hk|].
  rewrite saveBatch_cons. apply NoDup_cons in Hn as [Hx Hn]. apply elem_of_cons in Hk as [<-|Hk].
  - by rewrite saveBatch_notin.
  - rewrite IH by done. assert (k ≠ kr.1).
    { intros ->. apply Hx. by apply (list_elem_of_fmap_2' _ _ (kr.1, r)). }
    by rewrite !save_row_at, save_row_ne.
Qed.

Lemma save_row_eq k r l :
  (∀ r', l !! k = Some r' → r_updated_id r' ≤ r_updated_id r) → reflects (save_row (k, r) l) k r.
Proof.
  intros Hle. unfold reflects. rewrite save_row_at.
  destruct (r_deleted r); [done|]. destruct (l !! k) as [r'|]; [|done].
  by rewrite (proj2 (Z.leb_le _ _)) by eauto.
Qed.

(** What a saved row leaves behind is the old row or the saved one. *)
Lemma save_row_Some kr l k r :
  save_row kr l !! k = Some r → l !! k = Some r ∨ kr = (k, r) ∧ r_deleted r = false.
Proof.
  destruct (decide (k = kr.1)) as [->|Hk]; [|rewrite save_row_ne by done; by left].
  destruct kr as [k' r']. cbn [fst]. rewrite save_row_at.
  destruct (r_deleted r') eqn:Hd; [done|].
  destruct (l !! k') as [r2|] eqn:He; [case_if|]; intros [= <-]; auto.
Qed.

Lemma saveBatch_Some rows l k r :
  saveBatch rows l !! k = Some r → l !! k = Some r ∨ (k, r) ∈ rows ∧ r_deleted r = false.
Proof.
  revert l. induction rows as [|kr rows IH]; intros l; [by left|]. rewrite saveBatch_cons.
  intros [Hs|[Hi Hd]]%IH; [|right; split; [by right|done]].
  apply save_row_Some in Hs as [Hs|[-> Hd]]; [by left|]. right. split; [by left|done].
Qed.

Lemma getLastUpdatedId_le l k r : l !! k = Some r → r_updated_id r ≤ getLastUpdatedId l.
Proof.
  unfold getLastUpdatedId. revert k r.
  induction l as [|k r l Hl Hf IH] using map_first_key_ind; [by intros ??|].
  intros k' r'. rewrite map_fold_insert_L; [|intros; lia|done].
  intros [[-> ->]|[Hne Hk]]%lookup_insert_Some; [lia|]. apply IH in Hk. lia.
Qed.

Lemma getLastUpdatedId_in l :
  0 < getLastUpdatedId l → ∃ k r, l !! k = Some r ∧ r_updated_id r = getLastUpdatedId l.
Proof.
  unfold getLastUpdatedId. induction l as [|k r l Hl Hf IH] using map_first_key_ind.
  { cbn. rewrite map_fold_empty. lia. }
  rewrite map_fold_insert_L; [|intros; lia|done]. intros Hp.
  destruct (Z.max_spec (r_updated_id r) (map_fold (λ _ r m, Z.max (r_updated_id r) m) 0 l)) as [[Hlt ->]|[Hle ->]].
  - destruct IH as (k' & r' & Hk & Hr); [lia|]. exists k', r'. split; [|done].
    apply lookup_insert_Some. right. split; [|done]. intros <-. congruence.
  - exists k, r. by rewrite lookup_insert_eq.
Qed.

Lemma getLastUpdatedId_nonneg l : 0 ≤ getLastUpdatedId l.
Proof.
  unfold getLastUpdatedId.
  induction l as [|k r l Hl Hf IH] using map_first_key_ind; [by rewrite map_fold_empty|].
  rewrite map_fold_insert_L; [|intros; lia|done]. lia.
Qed.

(** ** The invariant of the system *)
Definition later (a b : string * Row) : Prop := r_updated_id a.2 < r_updated_id b.2.

(** An open transaction: numbered in order, after everything committed. *)
Record trx_ok t (s : Sys) (tr : list (string * Row)) : Prop := {
  to_sorted : StronglySorted later tr;
  to_range k r : (k, r) ∈ tr → 0 < r_updated_id r ≤ seq s ∧ exportable t r = true;
  to_after k r k' r' : (k, r) ∈ tr → tbl s !! k' = Some r' → r_updated_id r' < r_updated_id r
}.

Record inv t (s : Sys) : Prop := {
  i_seq k r : tbl s !! k = Some r → 0 < r_updated_id r ≤ seq s ∧ exportable t r = true;
  i_uniq k r k' r' : tbl s !! k = Some r → tbl s !! k' = Some r' → r_updated_id r = r_updated_id r' → k = k';
  i_seq0 : 0 ≤ seq s;
  i_open : (length (open_trx s) ≤ 1)%nat ∧ Forall (trx_ok t s) (open_trx s);
  i_local k r : local s !! k = Some r → ∃ r', tbl s !! k = Some r' ∧ r_updated_id r ≤ r_updated_id r';
  i_refl : valid s = false → ∀ k r, tbl s !! k = Some r →
    r_updated_id r ≤ getLastUpdatedId (local s) → reflects (local s) k r;
  i_valid : valid s = true → ∃ q, live s = Some q ∧
    ∀ k r, tbl s !! k = Some r → reflects (local s) k r ∨ (k, r) ∈ q;
  i_queue q q1 k r q2 : live s = Some q → q = q1 ++ (k, r) :: q2 →
    ∃ r', tbl s !! k = Some r' ∧ r_updated_id r ≤ r_updated_id r' ∧ (r = r' ∨ (k, r') ∈ q2)
}.

Lemma commit_rows_notin tr l k : k ∉ tr.*1 → commit_rows tr l !! k = l !! k.
Proof.
  revert l. induction tr as [|kr tr IH]; intros l Hk; [done|].
  apply not_elem_of_cons in Hk as [Hk Hks]. unfold commit_rows. cbn [foldl]. fold (commit_rows tr (<[kr.1 := kr.2]> l)).
  rewrite IH by done. by rewrite lookup_insert_ne.
Qed.

(** A key a transaction wrote holds what it wrote last. *)
Lemma commit_rows_in tr l k :
  k ∈ tr.*1 → ∃ r tr1 tr2, tr = tr1 ++ (k, r) :: tr2 ∧ (k ∉ tr2.*1) ∧ commit_rows tr l !! k = Some r.
Proof.
  induction tr as [|[k' r'] tr IH] using rev_ind; [by intros ?%not_elem_of_nil|].
  rewrite fmap_app, elem_of_app. intros Hk. unfold commit_rows. rewrite foldl_app. cbn [foldl fst snd].
  fold (commit_rows tr l). destruct (decide (k' = k)) as [->|Hne].
  - exists r', tr, []. rewrite lookup_insert_eq. split; [done|]. split; [apply not_elem_of_nil|done].
  - destruct Hk as [Hk|Hk%list_elem_of_singleton]; [|by subst].
    destruct (IH Hk) as (r & tr1 & tr2 & -> & Hn & Hl).
    exists r, tr1, (tr2 ++ [(k', r')]). rewrite <- app_assoc. split; [done|].
    rewrite lookup_insert_ne by done. split; [|done].
    rewrite fmap_app, not_elem_of_app. split; [done|]. cbn. by intros ?%list_elem_of_singleton.
Qed.

Lemma commit_rows_Some tr l k r :
  commit_rows tr l !! k = Some r → (k, r) ∈ tr ∨ ((k ∉ tr.*1) ∧ l !! k = Some r).
Proof.
  destruct (decide (k ∈ tr.*1)) as [Hk|Hk].
  - destruct (commit_rows_in tr l k Hk) as (r' & tr1 & tr2 & -> & _ & ->). intros [= ->]. left. set_solver.
  - rewrite commit_rows_notin by done. by right.
Qed.

(** What the client has is committed. *)
Lemma last_le_committed t s :
  inv t s → getLastUpdatedId (local s) = 0 ∨
  ∃ k r, tbl s !! k = Some r ∧ getLastUpdatedId (local s) ≤ r_updated_id r.
Proof.
  intros Hi. destruct (Z.eq_dec (getLastUpdatedId (local s)) 0) as [|Hne]; [by left|]. right.
  destruct (getLastUpdatedId_in (local s)) as (k & r & Hk & <-).
  { pose proof (getLastUpdatedId_nonneg (local s)). lia. }
  apply (i_local _ _ Hi) in Hk as (r' & Hk & Hle). by exists k, r'.
Qed.

Lemma later_same tr k r r' tr1 tr2 :
  StronglySorted later tr → tr = tr1 ++ (k, r) :: tr2 → (k, r') ∈ tr → k ∉ tr2.*1 →
  r_updated_id r' ≤ r_updated_id r.
Proof.
  intros Hs -> Hin Hn. apply elem_of_app in Hin as [Hin|Hin].
  - assert (later (k, r') (k, r)) as Hlt by (eapply StronglySorted_app_1_elem_of; [done|done|by left]).
    unfold later in Hlt. cbn in Hlt. lia.
  - apply elem_of_cons in Hin as [[= ->]|Hin]; [lia|].
    contradict Hn. by apply (list_elem_of_fmap_2' _ _ (k, r')).
Qed.

Lemma concat_saveBatch batches l : foldl (λ l b, saveBatch b l) l batches = saveBatch (concat batches) l.
Proof.
  revert l. induction batches as [|b batches IH]; intros l; [done|]. cbn [foldl concat].
  by rewrite IH, saveBatch_app.
Qed.

Lemma sync_fetch_all full l : fetch_all (getCurrentSyncCursor (sync_request full l)) = (getLastUpdatedId l =? 0).
Proof. done. Qed.

Lemma sync_full_sync (full : bool) l : full_sync (getCurrentSyncCursor (sync_request full l)) = full.
Proof. by destruct full. Qed.

(** A row changed after what the client has is exported. *)
Lemma exported_in t l tb k r :
  tb !! k = Some r → exportable t r = true →
  (getLastUpdatedId l = 0 ∨ getLastUpdatedId l < r_updated_id r) →
  (k, r) ∈ selected t (getCurrentSyncCursor (sync_request false l)) tb.
Proof.
  intros Hk He Hl. apply elem_of_selected. split; [done|]. split.
  - unfold where_clause. rewrite sync_fetch_all. apply orb_true_iff.
    destruct Hl as [->|Hl]; [by left|right]. by apply Z.ltb_lt.
  - unfold tombstone_filter, exportable in *. rewrite sync_full_sync. destruct t; cbn in *; try done.
    + by rewrite andb_true_r.
    + apply orb_true_r.
Qed.

Lemma full_exported_in t tb k r :
  tb !! k = Some r → exportable t r = true →
  (k, r) ∈ selected t (getCurrentSyncCursor (sync_request true ∅)) tb ↔ r_deleted r = false.
Proof.
  intros Hk He. rewrite elem_of_selected. unfold where_clause.
  rewrite sync_fetch_all. change (getLastUpdatedId ∅) with 0. cbn [Z.eqb orb].
  unfold tombstone_filter, exportable in *. rewrite sync_full_sync, sync_fetch_all.
  change (getLastUpdatedId ∅) with 0. cbn [Z.eqb negb orb].
  destruct t, (r_deleted r), (r_linked r); cbn in *; naive_solver.
Qed.

(** ** Every step keeps the invariant *)

Lemma inv_init t : inv t init.
Proof.
  split; cbn; try done. split; [lia|done].
Qed.

(** A step that only touches the open transactions. *)
Lemma inv_open t s o n :
  inv t s → (length o ≤ 1)%nat → seq s ≤ n →
  Forall (trx_ok t {| tbl := tbl s; seq := n; open_trx := o; local := local s; live := live s; valid := valid s |}) o →
  inv t {| tbl := tbl s; seq := n; open_trx := o; local := local s; live := live s; valid := valid s |}.
Proof.
  intros [H1 H2 H3 H4 H5 H6 H7 H8] Hl Hn Ho. split; cbn; try done; [|lia].
  intros k r Hk. apply H1 in Hk as [??]. split; [lia|done].
Qed.

Lemma trx_ok_mono t s o n tr :
  trx_ok t s tr → seq s ≤ n →
  trx_ok t {| tbl := tbl s; seq := n; open_trx := o; local := local s; live := live s; valid := valid s |} tr.
Proof.
  intros [H1 H2 H3] Hn. split; cbn; try done. intros k r Hk. apply H2 in Hk as [??]. split; [lia|done].
Qed.

Lemma one_open (o : list (list (string * Row))) i tr :
  (length o ≤ 1)%nat → o !! i = Some tr → i = 0%nat ∧ o = [tr].
Proof.
  intros Hl Hi. pose proof (lookup_lt_Some _ _ _ Hi). assert (i = 0%nat) as -> by lia.
  destruct o as [|x [|y o]]; [done| |cbn in Hl; lia]. by injection Hi as ->.
Qed.

Lemma inv_write t s i tr k deleted linked d :
  let r := {| r_updated_id := seq s + 1; r_deleted := deleted; r_linked := linked; r_data := d |} in
  inv t s → open_trx s !! i = Some tr → exportable t r = true →
  inv t {| tbl := tbl s; seq := seq s + 1; open_trx := <[i := tr ++ [(k, r)]]> (open_trx s);
           local := local s; live := live s; valid := valid s |}.
Proof.
  intros r Hi Ho He. destruct (i_open _ _ Hi) as [Hl Hf].
  destruct (one_open _ _ _ Hl Ho) as [-> Heq]. rewrite Heq in Hf |- *.
  apply Forall_singleton in Hf as [Hs Hr Ha]. pose proof (i_seq0 _ _ Hi).
  apply inv_open; [done|cbn; lia|lia|]. apply Forall_singleton. split; cbn.
  - apply StronglySorted_app_2; [|done|repeat constructor].
    intros [k1 r1] x2 H1 ->%list_elem_of_singleton. apply Hr in H1 as [??]. unfold later. cbn. lia.
  - intros k1 r1 [H1|[= -> ->]%list_elem_of_singleton]%elem_of_app; [apply Hr in H1 as [??]; split; [lia|done]|].
    split; [cbn; lia|done].
  - intros k1 r1 k2 r2 [H1|[= -> ->]%list_elem_of_singleton]%elem_of_app H2; [by apply (Ha k1 _ k2)|].
    apply (i_seq _ _ Hi) in H2 as [??]. cbn. lia.
Qed.

Lemma inv_commit t s i tr :
  inv t s → open_trx s !! i = Some tr →
  inv t {| tbl := commit_rows tr (tbl s); seq := seq s; open_trx := base.delete i (open_trx s);
           local := local s; live := (λ q, q ++ tr) <$> live s; valid := valid s |}.
Proof.
  intros Hi Ho. destruct (i_open _ _ Hi) as [Hl Hf].
  destruct (one_open _ _ _ Hl Ho) as [-> Heq]. rewrite Heq in Hf |- *.
  apply Forall_singleton in Hf as [Hs Hr Ha].
  assert (Hnew : ∀ k r r', (k, r) ∈ tr → tbl s !! k = Some r' → r_updated_id r' < r_updated_id r)
    by (intros k r r' H1 H2; by apply (Ha k _ k)).
  assert (Hlast : ∀ k r, (k, r) ∈ tr → ∃ r', commit_rows tr (tbl s) !! k = Some r' ∧ (k, r') ∈ tr ∧
                    r_updated_id r ≤ r_updated_id r').
  { intros k r Hk. destruct (commit_rows_in tr (tbl s) k) as (r' & tr1 & tr2 & Htr & Hn & Hc);
      [by apply (list_elem_of_fmap_2' _ _ (k, r))|].
    exists r'. split; [done|]. split; [rewrite Htr; set_solver|]. by apply (later_same tr k r' r tr1 tr2). }
  split; cbn [tbl seq open_trx local live valid].
  - intros k r [Hk|[_ Hk]]%commit_rows_Some; [by apply (Hr k)|by apply (i_seq _ _ Hi k)].
  - intros k r k' r' [Hk|[_ Hk]]%commit_rows_Some [Hk'|[_ Hk']]%commit_rows_Some Hid.
    + destruct (decide (k = k')) as [|Hne]; [done|].
      apply list_elem_of_split in Hk as (tr1 & tr2 & ->). apply elem_of_app in Hk' as [Hk'|Hk'].
      * assert (later (k', r') (k, r)) as Hlt by (eapply StronglySorted_app_1_elem_of; [done|done|by left]).
        unfold later in Hlt. cbn in Hlt. lia.
      * apply elem_of_cons in Hk' as [[= -> ->]|Hk']; [done|].
        apply StronglySorted_app_1_r in Hs. apply StronglySorted_inv in Hs as [_ Hs].
        rewrite Forall_forall in Hs. apply Hs in Hk'. unfold later in Hk'. cbn in Hk'. lia.
    + pose proof (Ha _ _ _ _ Hk Hk'). lia.
    + pose proof (Ha _ _ _ _ Hk' Hk). lia.
    + by apply (i_uniq _ _ Hi k r k' r').
  - apply (i_seq0 _ _ Hi).
  - cbn. split; [lia|done].
  - intros k r Hk. apply (i_local _ _ Hi) in Hk as (r' & Hk & Hle).
    destruct (decide (k ∈ tr.*1)) as [Hin|Hn]; [|exists r'; by rewrite commit_rows_notin].
    apply list_elem_of_fmap in Hin as ([k1 r1] & -> & Hin). cbn [fst] in *.
    destruct (Hlast _ _ Hin) as (r2 & Hc & Hin2 & _). exists r2. split; [done|].
    pose proof (Hnew _ _ _ Hin2 Hk). lia.
  - intros Hv k r [Hk|[_ Hk]]%commit_rows_Some Hle; [|by apply (i_refl _ _ Hi)].
    exfalso. destruct (Hr _ _ Hk) as [Hpos _].
    destruct (last_le_committed _ _ Hi) as [|(k' & r' & Hk' & Hle')]; [lia|]. pose proof (Ha _ _ _ _ Hk Hk'). lia.
  - intros Hv. destruct (i_valid _ _ Hi Hv) as (q & Hq & Hall). rewrite Hq. exists (q ++ tr). split; [done|].
    intros k r [Hk|[_ Hk]]%commit_rows_Some; [right; set_solver|].
    destruct (Hall _ _ Hk); [by left|right; set_solver].
  - intros q q1 k r q2 Hq Hsplit. destruct (live s) as [q0|] eqn:Hq0; [|done]. injection Hq as <-.
    assert (Hcase : (∃ q3, q0 = q1 ++ (k, r) :: q3 ∧ q2 = q3 ++ tr) ∨
                    (∃ tr1, tr = tr1 ++ (k, r) :: q2)).
    { apply app_eq_inv in Hsplit as [(x & -> & Hx)|(x & -> & ->)]; [|right; by exists x].
      destruct x as [|y x]; [right; by exists []|]. injection Hx as <- ->. left. by exists x. }
    destruct Hcase as [(q3 & Hq3 & ->)|(tr1 & Htr)].
    + destruct (i_queue _ _ Hi q0 q1 k r q3 Hq0 Hq3) as (r' & Hk & Hle & Hr').
      destruct (decide (k ∈ tr.*1)) as [Hin|Hn].
      * apply list_elem_of_fmap in Hin as ([k1 r1] & -> & Hin). cbn [fst] in *.
        destruct (Hlast _ _ Hin) as (r2 & Hc & Hin2 & _). exists r2. split; [done|].
        pose proof (Hnew _ _ _ Hin2 Hk). split; [lia|]. right. set_solver.
      * exists r'. rewrite commit_rows_notin by done. split; [done|]. split; [done|]. set_solver.
    + destruct (Hlast k r) as (r' & Hc & Hin' & Hle); [rewrite Htr; set_solver|].
      exists r'. split; [done|]. split; [done|].
      destruct (commit_rows_in (((k, r) :: q2)) (commit_rows tr1 (tbl s)) k) as (r2 & a & b & Hab & Hn & Hc2);
        [cbn; by left|].
      assert (commit_rows tr (tbl s) !! k = Some r2) as Hc3
        by (rewrite Htr; unfold commit_rows in *; by rewrite foldl_app).
      assert (r2 = r') as -> by congruence.
      destruct a as [|x a]; injection Hab; [intros _ ->; by left|]. intros Hq2 _. right. rewrite Hq2. set_solver.
Qed.

(** The parts of the invariant a step leaves alone. *)
Ltac keep_inv Hi :=
  first [exact (i_seq _ _ Hi) | exact (i_uniq _ _ Hi) | exact (i_seq0 _ _ Hi)
        | exact (i_local _ _ Hi) | exact (i_queue _ _ Hi)].

Lemma trx_ok_same t s s' o :
  tbl s' = tbl s → seq s' = seq s → Forall (trx_ok t s) o → Forall (trx_ok t s') o.
Proof.
  intros Ht Hq Hf. apply (Forall_impl _ _ _ Hf). intros tr [Ha Hb Hc]. split; [done|by rewrite Hq|].
  intros k r k' r'. rewrite Ht. apply Hc.
Qed.

(** A sync changes the client only. *)
Lemma inv_client t s l lv v :
  inv t s → lv = live s →
  (∀ k r, l !! k = Some r → ∃ r', tbl s !! k = Some r' ∧ r_updated_id r ≤ r_updated_id r') →
  (v = false → ∀ k r, tbl s !! k = Some r → r_updated_id r ≤ getLastUpdatedId l → reflects l k r) →
  (v = true → ∃ q, lv = Some q ∧ ∀ k r, tbl s !! k = Some r → reflects l k r ∨ (k, r) ∈ q) →
  inv t {| tbl := tbl s; seq := seq s; open_trx := open_trx s; local := l; live := lv; valid := v |}.
Proof.
  intros [H1 H2 H3 H4 H5 H6 H7 H8] -> Hl Hr Hv. split; cbn; try done.
  destruct H4 as [Hle Hf]. split; [done|]. by apply (trx_ok_same t s).
Qed.

Lemma saved_local t s rows l :
  inv t s →
  (∀ k r, l !! k = Some r → ∃ r', tbl s !! k = Some r' ∧ r_updated_id r ≤ r_updated_id r') →
  (∀ k r, (k, r) ∈ rows → tbl s !! k = Some r) →
  ∀ k r, saveBatch rows l !! k = Some r → ∃ r', tbl s !! k = Some r' ∧ r_updated_id r ≤ r_updated_id r'.
Proof.
  intros Hi Hl Hrows k r [Hk|[Hk _]]%saveBatch_Some; [by apply Hl|]. exists r. split; [by apply Hrows|lia].
Qed.

Lemma saved_reflects rows l k r :
  NoDup rows.*1 → (k, r) ∈ rows → (∀ r', l !! k = Some r' → r_updated_id r' ≤ r_updated_id r) →
  reflects (saveBatch rows l) k r.
Proof. intros Hn Hk Hl. unfold reflects. rewrite (saveBatch_in _ _ _ r) by done. by apply save_row_eq. Qed.

Lemma inv_synch t s q batches :
  inv t s → live s = Some q →
  concat batches = selected t (getCurrentSyncCursor (sync_request false (local s))) (tbl s) →
  inv t {| tbl := tbl s; seq := seq s; open_trx := open_trx s;
           local := synchFromServer false (λ _, batches) (local s); live := live s; valid := true |}.
Proof.
  intros Hi Hq Hb. unfold synchFromServer. rewrite concat_saveBatch, Hb.
  apply inv_client; [done|done| |done|intros _; exists q; split; [done|]].
  - apply (saved_local t); [done|apply (i_local _ _ Hi)|]. by intros k r (Hk & _)%elem_of_selected.
  - intros k r Hk.
    set (rows := selected t (getCurrentSyncCursor (sync_request false (local s))) (tbl s)).
    destruct (decide (k ∈ rows.*1)) as [Hin|Hn].
    + left. apply list_elem_of_fmap in Hin as ([k' r'] & -> & Hin). cbn in Hk |- *.
      pose proof (proj1 (elem_of_selected _ _ _ _ _) Hin) as [Hk' _]. assert (r' = r) as -> by congruence.
      apply saved_reflects; [apply selected_NoDup|done|].
      intros r2 Hr2. apply (i_local _ _ Hi) in Hr2 as (r3 & Hr3 & Hle). congruence.
    + unfold reflects. rewrite saveBatch_notin by done.
      assert (Hle : 0 < getLastUpdatedId (local s) ∧ r_updated_id r ≤ getLastUpdatedId (local s)).
      { pose proof (getLastUpdatedId_nonneg (local s)).
        destruct (Z.eq_dec (getLastUpdatedId (local s)) 0) as [H0|H0];
          [|destruct (Z.lt_ge_cases (getLastUpdatedId (local s)) (r_updated_id r)) as [Hlt|]; [|lia]];
          exfalso; apply Hn; apply (list_elem_of_fmap_2' _ _ (k, r)); try done;
          (apply exported_in; [done|by apply (i_seq _ _ Hi k)|auto]). }
      destruct (valid s) eqn:Hv.
      * destruct (i_valid _ _ Hi Hv) as (q' & Hq' & Hall). assert (q' = q) as -> by congruence. by apply Hall.
      * left. apply (i_refl _ _ Hi Hv); [done|apply Hle].
Qed.

Lemma inv_full_synch t s q batches :
  inv t s → live s = Some q →
  concat batches = selected t (getCurrentSyncCursor (sync_request true ∅)) (tbl s) →
  inv t {| tbl := tbl s; seq := seq s; open_trx := open_trx s;
           local := synchFromServer true (λ _, batches) ∅; live := live s; valid := true |}.
Proof.
  intros Hi Hq Hb. unfold synchFromServer. rewrite concat_saveBatch, Hb.
  apply inv_client; [done|done| |done|intros _; exists q; split; [done|]].
  - apply (saved_local t); [done|done|]. by intros k r (Hk & _)%elem_of_selected.
  - intros k r Hk. left. destruct (i_seq _ _ Hi _ _ Hk) as [_ He].
    pose proof (full_exported_in t _ k r Hk He) as Hiff. destruct (r_deleted r) eqn:Hd.
    + unfold reflects. rewrite Hd, saveBatch_notin; [apply lookup_empty|].
      intros ([k' r'] & -> & Hin)%list_elem_of_fmap. cbn in Hk, Hiff.
      pose proof (proj1 (elem_of_selected _ _ _ _ _) Hin) as [Hk' _]. assert (r' = r) as -> by congruence.
      by apply Hiff in Hin.
    + apply saved_reflects; [apply selected_NoDup|by apply Hiff|done].
Qed.

(** A full sync that was cut leaves the oldest rows: the ones up to the
    last number it has. *)
Lemma inv_full_cut t s batches rest :
  inv t s →
  concat (batches ++ rest) = selected t (getCurrentSyncCursor (sync_request true ∅)) (tbl s) →
  inv t {| tbl := tbl s; seq := seq s; open_trx := open_trx s;
           local := synchFromServer true (λ _, batches) ∅; live := live s; valid := false |}.
Proof.
  intros Hi Hb. unfold synchFromServer. rewrite concat_saveBatch. rewrite concat_app in Hb.
  set (pre := concat batches) in *. set (post := concat rest) in *.
  pose proof (selected_NoDup t (getCurrentSyncCursor (sync_request true ∅)) (tbl s)) as Hn.
  pose proof (selected_sorted t (getCurrentSyncCursor (sync_request true ∅)) (tbl s)) as Hs.
  assert (Hsel : ∀ k r, (k, r) ∈ pre ++ post → tbl s !! k = Some r)
    by (intros k r; rewrite Hb; by intros (Hk & _)%elem_of_selected).
  rewrite <- Hb in Hn, Hs.
  assert (Hnp : NoDup pre.*1) by (rewrite fmap_app in Hn; by apply NoDup_app in Hn as [? _]).
  apply inv_client; [done|done| | |done].
  - apply (saved_local t); [done|done|]. intros k r Hk. apply Hsel. set_solver.
  - intros _ k r Hk Hle. destruct (i_seq _ _ Hi _ _ Hk) as [Hpos He].
    pose proof (full_exported_in t _ k r Hk He) as Hiff. rewrite <- Hb in Hiff.
    destruct (getLastUpdatedId_in (saveBatch pre ∅)) as (k1 & r1 & Hk1 & Hr1); [lia|].
    apply saveBatch_Some in Hk1 as [Hk1|[Hk1 _]]; [by rewrite lookup_empty in Hk1|]. rewrite <- Hr1 in Hle.
    destruct (r_deleted r) eqn:Hd.
    + unfold reflects. rewrite Hd, saveBatch_notin; [apply lookup_empty|].
      intros ([k' r'] & -> & Hin)%list_elem_of_fmap. cbn in Hk, Hiff.
      assert (tbl s !! k' = Some r') by (apply Hsel; set_solver). assert (r' = r) as -> by congruence.
      assert (Hin' : (k', r) ∈ pre ++ post) by set_solver. by apply Hiff in Hin'.
    + apply saved_reflects; [done| |done].
      pose proof (proj2 Hiff eq_refl) as [Hin|Hin]%elem_of_app; [done|].
      assert (by_updated_id (k1, r1) (k, r)) as Hby by (eapply StronglySorted_app_1_elem_of; done).
      unfold by_updated_id in Hby. cbn in Hby.
      assert (tbl s !! k1 = Some r1) as Ht1 by (apply Hsel; set_solver).
      assert (k1 = k) as -> by (apply (i_uniq _ _ Hi k1 r1 k r); [done|done|lia]).
      by assert (r1 = r) as <- by congruence.
Qed.

Lemma inv_deliver t s k r q :
  inv t s → valid s = true → live s = Some ((k, r) :: q) →
  inv t {| tbl := tbl s; seq := seq s; open_trx := open_trx s; local := save_row (k, r) (local s);
           live := Some q; valid := true |}.
Proof.
  intros Hi Hv Hq.
  destruct (i_queue _ _ Hi _ [] k r q Hq eq_refl) as (r' & Hk & Hle & Hr').
  destruct (i_valid _ _ Hi Hv) as (q0 & Hq0 & Hall). assert (q0 = (k, r) :: q) as -> by congruence.
  assert (Hloc : ∀ r2, local s !! k = Some r2 → r_updated_id r2 ≤ r_updated_id r').
  { intros r2 Hr2. apply (i_local _ _ Hi) in Hr2 as (r3 & Hr3 & ?). congruence. }
  split; cbn; try keep_inv Hi; try done.
  - destruct (i_open _ _ Hi) as [Hl Hf]. split; [done|]. by apply (trx_ok_same t s).
  - intros k2 r2 [Hk2|[[= <- <-] _]]%save_row_Some; [by apply (i_local _ _ Hi)|by exists r'].
  - intros _. exists q. split; [done|]. intros k2 r2 Hk2.
    destruct (decide (k2 = k)) as [->|Hne].
    + assert (r2 = r') as -> by congruence. destruct Hr' as [->|Hin]; [left|by right].
      by apply save_row_eq.
    + pose proof (Hall _ _ Hk2) as [Hrf|[[= -> ->]|Hin]%elem_of_cons]; [left|done|by right].
      unfold reflects. by rewrite save_row_ne.
  - intros q2 q1 k2 r2 q3 [= <-] ->. by apply (i_queue _ _ Hi _ ((k, r) :: q1) _ _ q3 Hq).
Qed.

Lemma step_inv t s s' : inv t s → step true t s s' → inv t s'.
Proof.
  intros Hi Hs. destruct Hs.
  - assert (open_trx s = []) as Ho by auto. rewrite Ho. apply inv_open; [done|cbn; lia|lia|].
    apply Forall_singleton. split; [apply SSorted_nil| |]; intros; by match goal with H : _ ∈ [] |- _ => apply not_elem_of_nil in H end.
  - by apply inv_write.
  - by apply inv_commit.
  - destruct (i_open _ _ Hi) as [Hl Hf]. destruct (one_open _ _ _ Hl H) as [-> Heq]. rewrite Heq.
    apply inv_open; [done|cbn; lia|lia|done].
  - destruct (valid s) eqn:Hv; [by destruct (i_valid _ _ Hi Hv) as (? & ? & _); congruence|].
    split; cbn; try keep_inv Hi; try done.
    + destruct (i_open _ _ Hi) as [Hl Hf]. split; [done|]. by apply (trx_ok_same t s).
    + intros _. by apply (i_refl _ _ Hi).
    + intros q q1 k r q2 [= <-]. by destruct q1.
  - assert (Hrf : ∀ k r, tbl s !! k = Some r → r_updated_id r ≤ getLastUpdatedId (local s) →
                   reflects (local s) k r).
    { intros k r Hk Hle. destruct (valid s) eqn:Hv; [|by apply (i_refl _ _ Hi)].
      destruct H as [|H]; [done|]. destruct (i_valid _ _ Hi Hv) as (q & Hq & Hall).
      assert (q = []) as -> by congruence. pose proof (Hall _ _ Hk) as [|[]%not_elem_of_nil]; done. }
    split; cbn; try keep_inv Hi; try done.
    destruct (i_open _ _ Hi) as [Hl Hf]. split; [done|]. by apply (trx_ok_same t s).
  - by apply inv_deliver.
  - by apply (inv_synch _ _ q).
  - by apply (inv_full_synch _ _ q).
  - by apply (inv_full_cut _ _ _ rest).
Qed.

Lemma reachable_sys_inv t s : reachable true t s → inv t s.
Proof.
  intros Hr. apply (rtc_ind_r (R := step true t) (inv t) init); [apply inv_init| |done].
  intros x y _ Hs Hi. by apply (step_inv t x y).
Qed.

(** ** What the client ends up with *)

Lemma reflects_visible t s :
  inv t s → (∀ k r, tbl s !! k = Some r → reflects (local s) k r) → local s = visible (tbl s).
Proof.
  intros Hi Hall. apply map_eq. intros k. unfold visible. rewrite lookup_omap.
  destruct (tbl s !! k) as [r|] eqn:Hk; cbn; [by apply Hall|].
  destruct (local s !! k) as [r|] eqn:Hl; [|done].
  apply (i_local _ _ Hi) in Hl as (r' & Hk' & _). congruence.
Qed.

(** The client applies its queue to the end. *)
Lemma drain_queue t q s :
  valid s = true → live s = Some q →
  ∃ s', rtc (step true t) s s' ∧ valid s' = true ∧ live s' = Some [] ∧ tbl s' = tbl s.
Proof.
  revert s. induction q as [|[k r] q IH]; intros s Hv Hq.
  - exists s. by repeat split; [apply rtc_refl|..].
  - edestruct (IH {| tbl := tbl s; seq := seq s; open_trx := open_trx s; local := save_row (k, r) (local s);
                     live := Some q; valid := true |}) as (s' & Hr & Hv' & Hl' & Ht); [done|done|].
    exists s'. split; [|done]. eapply rtc_l; [|exact Hr]. by apply s_deliver.
Qed.



Lemma export_batches_spec n chunks (tail : list (list (string * Row))) :
  Forall (λ c, c ≠ []) chunks → tail = [] ∨ tail = [[]] →
  ∃ full last, export_batches n (chunks ++ tail) = (full ++ [last], length (concat chunks)) ∧
    concat (full ++ [last]) = concat chunks ∧
    Forall (λ b, length b = Nat.max 1 n) full ∧ (length last < Nat.max 1 n)%nat.
Proof.
  intros Hc Htail.
  set (e := read_loop n chunks {| sent := []; batch := []; total_rows := 0 |}).
  assert (He : export_ok n (concat chunks) e).
  { apply (export_ok_loop n chunks []); [done|]. split; cbn; try done. lia. }
  assert (Heq : export_batches n (chunks ++ tail) = (sent e ++ [batch e], total_rows e)).
  { unfold export_batches, e. destruct Htail as [->| ->]; [by rewrite app_nil_r|by rewrite read_loop_tail]. }
  exists (sent e), (batch e). rewrite Heq. destruct He as [Hr -> Hs Hb].
  split; [done|]. split; [|done]. by rewrite concat_app, <- Hr; cbn; rewrite app_nil_r.
Qed.

(** The loop of every export sends every row of its query once and in
    order, however the database hands the result out; no batch is empty but
    perhaps the last, none is larger than the configured size, and the count
    is the number of rows. *)
Theorem export_sends_selected t n readSome req tb chunks tail :
  let rows := selected t (getCurrentSyncCursor req) tb in
  readSome rows = chunks ++ tail → concat chunks = rows →
  Forall (λ c, c ≠ []) chunks → tail = [] ∨ tail = [[]] →
  ∃ full last, exportCurrent n readSome req t tb = (full ++ [last], length rows) ∧
    concat (full ++ [last]) = rows ∧
    Forall (λ b, b ≠ []) full ∧ Forall (λ b, (length b ≤ Nat.max 1 n)%nat) (full ++ [last]).
Proof.
  intros rows Hread Hrows Hc Htail.
  assert (∃ m, exportCurrent n readSome req t tb = export_batches m (chunks ++ tail) ∧ (m ≤ n)%nat) as (m & -> & Hm).
  { rewrite <- Hread. destruct t; eexists; (split; [reflexivity|lia]). }
  destruct (export_batches_spec m chunks tail Hc Htail) as (full & last & -> & Hcat & Hf & Hl).
  rewrite Hrows in Hcat |- *. exists full, last. split; [done|]. split; [done|]. split.
  - apply (Forall_impl _ _ _ Hf). intros b Hb ->. cbn in Hb. lia.
  - apply Forall_app. split; [apply (Forall_impl _ _ _ Hf); intros b Hb; cbn in *; lia|].
    apply Forall_singleton. lia.
Qed.

Lemma step_to excl t s s1 s2 z : step excl t s s1 → s1 = s2 → rtc (step excl t) s2 z → rtc (step excl t) s z.
Proof. intros Hs ->. by apply rtc_l. Qed.

(** Writers that are not kept apart lose a row: the one that changed its
    row first commits last, and a client that has synchronised in between
    and is offline at that moment never asks for it. *)
Theorem concurrent_writers_lose_a_row (d : D) :
  ∃ s k r, reachable false T_DAY s ∧ valid s = true ∧ live s = Some [] ∧
    tbl s !! k = Some r ∧ r_deleted r = false ∧ local s !! k = None ∧
    (k, r) ∉ selected T_DAY (getCurrentSyncCursor (sync_request false (local s))) (tbl s).
Proof.
  set (ra := {| r_updated_id := 1; r_deleted := false; r_linked := true; r_data := d |}).
  set (rb := {| r_updated_id := 2; r_deleted := false; r_linked := true; r_data := d |}).
  exists {| tbl := {["a"%string := ra; "b"%string := rb]}; seq := 2; open_trx := [];
            local := {["b"%string := rb]}; live := Some []; valid := true |}, "a"%string, ra.
  split; [|split; [done|]; split; [done|]; split; [done|]; split; [done|]; split; [done|]].
  - unfold reachable.
    set (st tb n o l q v := {| tbl := tb; seq := n; open_trx := o; local := l; live := q; valid := v |}).
    set (e0 := ∅ : gmap string Row). set (tab := {["a"%string := ra; "b"%string := rb]} : gmap string Row).
    set (wa := [("a"%string, ra)]). set (wb := [("b"%string, rb)]).
    set (tb := {["b"%string := rb]} : gmap string Row).
    apply (step_to false T_DAY _ _ (st e0 0 [[]] e0 None false) _ (s_begin false T_DAY init ltac:(discriminate))); [done|].
    apply (step_to false T_DAY _ _ (st e0 0 [[]; []] e0 None false) _ (s_begin false T_DAY (st e0 0 [[]] e0 None false) ltac:(discriminate))); [done|].
    apply (step_to false T_DAY _ _ (st e0 1 [wa; []] e0 None false) _
             (s_write false T_DAY (st e0 0 [[]; []] e0 None false) 0 [] "a"%string false true d eq_refl eq_refl)); [done|].
    apply (step_to false T_DAY _ _ (st e0 2 [wa; wb] e0 None false) _
             (s_write false T_DAY (st e0 1 [wa; []] e0 None false) 1 [] "b"%string false true d eq_refl eq_refl)); [done|].
    apply (step_to false T_DAY _ _ (st tb 2 [wa] e0 None false) _
             (s_commit false T_DAY (st e0 2 [wa; wb] e0 None false) 1 wb eq_refl)); [done|].
    apply (step_to false T_DAY _ _ (st tb 2 [wa] e0 (Some []) false) _
             (s_connect false T_DAY (st tb 2 [wa] e0 None false) eq_refl)); [done|].
    apply (step_to false T_DAY _ _ (st tb 2 [wa] tb (Some []) true) _
             (s_synch false T_DAY (st tb 2 [wa] e0 (Some []) false) [] [wb] eq_refl ltac:(vm_compute; reflexivity)));
      [by vm_compute|].
    apply (step_to false T_DAY _ _ (st tb 2 [wa] tb None false) _
             (s_disconnect false T_DAY (st tb 2 [wa] tb (Some []) true) (or_intror eq_refl))); [done|].
    apply (step_to false T_DAY _ _ (st tab 2 [] tb None false) _
             (s_commit false T_DAY (st tb 2 [wa] tb None false) 0 wa eq_refl)); [by vm_compute|].
    apply (step_to false T_DAY _ _ (st tab 2 [] tb (Some []) false) _
             (s_connect false T_DAY (st tab 2 [] tb None false) eq_refl)); [done|].
    apply (step_to false T_DAY _ _ (st tab 2 [] tb (Some []) true) _
             (s_synch false T_DAY (st tab 2 [] tb (Some []) false) [] [] eq_refl
                ltac:(vm_compute; reflexivity))); [by vm_compute|].
    apply rtc_refl.
  - intros (_ & Hw & _)%elem_of_selected. done.
Qed.
End sync.
Arguments Row D : clear implicits.

(** ** Witnesses: one row, changed twice, and a client that synchronises. *)
Definition demo_row (n : Z) (b : bool) : Row Z :=
  {| r_updated_id := n; r_deleted := b; r_linked := true; r_data := 7 |}.

Definition demo_state : Sys (D := Z) :=
  {| tbl := {["a"%string := demo_row 2 true; "b"%string := demo_row 1 false]}; seq := 2; open_trx := [];
     local := {["b"%string := demo_row 1 false]}; live := Some []; valid := true |}.

Lemma demo_reachable : reachable true T_ACTION demo_state.
Proof.
  unfold reachable. set (e0 := ∅ : gmap string (Row Z)).
  set (wa := [("b"%string, demo_row 1 false); ("a"%string, demo_row 2 true)]).
  set (tab := {["a"%string := demo_row 2 true; "b"%string := demo_row 1 false]} : gmap string (Row Z)).
  set (st tb n o l q v := {| tbl := tb; seq := n; open_trx := o; local := l; live := q; valid := v |} : Sys (D := Z)).
  apply (step_to true T_ACTION _ _ (st e0 0 [[]] e0 None false) _
           (s_begin true T_ACTION init (λ _, eq_refl))); [done|].
  apply (step_to true T_ACTION _ _ (st e0 1 [[("b"%string, demo_row 1 false)]] e0 None false) _
           (s_write true T_ACTION (st e0 0 [[]] e0 None false) 0 [] "b"%string false true 7 eq_refl eq_refl)); [done|].
  apply (step_to true T_ACTION _ _ (st e0 2 [wa] e0 None false) _
           (s_write true T_ACTION (st e0 1 [[("b"%string, demo_row 1 false)]] e0 None false) 0 _ "a"%string true true 7
              eq_refl eq_refl)); [done|].
  apply (step_to true T_ACTION _ _ (st tab 2 [] e0 None false) _
           (s_commit true T_ACTION (st e0 2 [wa] e0 None false) 0 wa eq_refl)); [by vm_compute|].
  apply (step_to true T_ACTION _ _ (st tab 2 [] e0 (Some []) false) _
           (s_connect true T_ACTION (st tab 2 [] e0 None false) eq_refl)); [done|].
  apply (step_to true T_ACTION _ _ demo_state _
           (s_synch true T_ACTION (st tab 2 [] e0 (Some []) false) [] [wa] eq_refl
              ltac:(vm_compute; reflexivity))); [by vm_compute|].
  apply rtc_refl.
Qed.



Lemma export_sends_selected_witness :
  let tb : gmap string (Row Z) := {["a"%string := demo_row 3 false; "b"%string := demo_row 2 true; "c"%string := demo_row 1 false]} in
  let row k n b := (k, demo_row n b) in
  ∃ full last,
    exportCurrent 2 (λ l, [l; []]) {| req_since := 0; req_fullsync := None |} T_WORK_SESSION tb = (full ++ [last], 3%nat) ∧
    concat (full ++ [last]) = [row "c"%string 1 false; row "b"%string 2 true; row "a"%string 3 false] ∧
    Forall (λ b, b ≠ []) full ∧ Forall (λ b, (length b ≤ 2)%nat) (full ++ [last]).
Proof.
  intros tb row.
  apply (export_sends_selected T_WORK_SESSION 2 (λ l, [l; []]) {| req_since := 0; req_fullsync := None |} tb
           [[row "c"%string 1 false; row "b"%string 2 true; row "a"%string 3 false]] [[]]);
    [vm_compute; reflexivity|vm_compute; reflexivity|by repeat constructor|by right].
Defined.
