(* ===== verification/TimeBlocks.v ===== *)
(** * The time blocks of a user's calendar

    The handlers of src/src/backend/lib/grpc/Calendar.cpp over the tables
    [time_block] and [time_block_actions].  The actions of a block are
    stored twice, in the association table and, serialized, in the row; the
    protocol asks for the two to agree.  A handler is a function in [M]: a
    throw rolls the transaction back and releases the reservation.  Every
    statement of the file filters on the user, so the tables are those of
    one user.  The stamps [updated] and [updated_id] of a row are in
    Sync.v; the widths of the columns and the range of DATETIME are not
    modelled, and reading a serialized list back gives what was written. *)
From S2P Require Import Prelude Calendar.
From S2P Require Recurrence PlanLimits SessionAccess.
From stdpp Require Import sorting.
From Stdlib Require OrdersEx.

#[local] Open Scope Z_scope.
#[local] Open Scope nextapp_scope.

(** ** Messages and rows *)

(** [pb::TimeSpan] and [pb::TimeBlock] *)
Record TimeSpan := { ts_start : Z; ts_end : Z }.

(** [pb::TimeBlock::Kind] and the values outside the enum. *)
Inductive Kind := RESERVATION | ACTIONS | BLOCK_DELETED | KIND_UNKNOWN.

#[export] Instance TimeSpan_eq_dec : EqDecision TimeSpan.
Proof. solve_decision. Defined.
#[export] Instance Kind_eq_dec : EqDecision Kind.
Proof. solve_decision. Defined.

Record TimeBlock := {
  tb_id : string;
  tb_span : option TimeSpan;
  tb_name : string;
  tb_kind : Kind;
  tb_category : string;
  tb_actions : list string;
  tb_version : Z
}.

(** A row of [time_block]; [br_actions] is the column [actions]. *)
Record BlockRow := {
  br_name : string;
  br_start : option Z;
  br_end : option Z;
  br_kind : Kind;
  br_category : option string;
  br_actions : option (list string);
  br_version : Z
}.

Inductive Operation := ADDED | UPDATED | OP_DELETED.

(** The update with the one [CalendarEvent] that
    [createCalendarEventUpdate] makes. *)
Record Update := {
  u_op : Operation;
  u_span : option TimeSpan;
  u_id : string;
  u_block : TimeBlock
}.

Definition createCalendarEventUpdate (tb : TimeBlock) (op : Operation) : Update :=
  {| u_op := op; u_span := tb_span tb; u_id := tb_id tb; u_block := tb |}.

(** The tables, what the user's plan has counted, and the updates queued
    for publishing. *)
Record Db := {
  blocks : gmap string BlockRow;
  time_block_actions : gset (string * string);
  known_actions : gset string;
  known_categories : gset string;
  usage : PlanLimits.PlanUsage;
  updates : list Update
}.

Definition set_blocks (f : gmap string BlockRow → gmap string BlockRow) (d : Db) : Db :=
  {| blocks := f (blocks d); time_block_actions := time_block_actions d;
     known_actions := known_actions d; known_categories := known_categories d;
     usage := usage d; updates := updates d |}.

Definition set_assocs (f : gset (string * string) → gset (string * string)) (d : Db) : Db :=
  {| blocks := blocks d; time_block_actions := f (time_block_actions d);
     known_actions := known_actions d; known_categories := known_categories d;
     usage := usage d; updates := updates d |}.

Definition set_usage (u : PlanLimits.PlanUsage) (d : Db) : Db :=
  {| blocks := blocks d; time_block_actions := time_block_actions d;
     known_actions := known_actions d; known_categories := known_categories d;
     usage := u; updates := updates d |}.

(** [rctx.publishLater] *)
Definition publishLater (u : Update) : M Db unit := modify (λ d,
  {| blocks := blocks d; time_block_actions := time_block_actions d;
     known_actions := known_actions d; known_categories := known_categories d;
     usage := usage d; updates := updates d ++ [u] |}).

(** The [DEFAULT UUID()] of the table. *)
Class BlockIds := {
  new_id : gset string → string;
  new_id_fresh X : new_id X ∉ X
}.

(** ** Reading a row: [ToTimeBlock::assign] *)
Definition assign (id : string) (row : BlockRow) : TimeBlock :=
  {| tb_id := id;
     tb_span := match br_start row, br_end row with
                | None, None => None
                | s, e => Some {| ts_start := default 0 s; ts_end := default 0 e |}
                end;
     tb_name := br_name row; tb_kind := br_kind row;
     tb_category := default EmptyString (br_category row);
     tb_actions := default [] (br_actions row);
     tb_version := br_version row |}.

(** [toAnsiTime(time, required)] *)
Definition toAnsiTime (time : Z) (required : bool) : result (option Z) :=
  if time =? 0 then (if required then Throw (server_err Error.CONSTRAINT_FAILED) else Ok None)
  else Ok (Some time).

(** The times of a message without a span are those of the default. *)
Definition timespan (tb : TimeBlock) : TimeSpan :=
  default {| ts_start := 0; ts_end := 0 |} (tb_span tb).

(** What the database makes of the columns: the name of a value outside the
    enum is empty, which the column refuses, and a category must exist. *)
Definition bind_row (required : bool) (categories : gset string) (tb : TimeBlock)
    (blob : option (list string)) (version : Z) : result BlockRow :=
  let! s := toAnsiTime (ts_start (timespan tb)) required in
  let! e := toAnsiTime (ts_end (timespan tb)) required in
  let category := toStringOrNull (tb_category tb) in
  let! _ := throw_if (bool_decide (tb_kind tb = KIND_UNKNOWN)) runtime_error in
  let! _ := throw_if (match category with
                      | Some c => negb (bool_decide (c ∈ categories))
                      | None => false
                      end) runtime_error in
  Ok {| br_name := tb_name tb; br_start := s; br_end := e; br_kind := tb_kind tb;
        br_category := category; br_actions := blob; br_version := version |}.

(** What [DeleteTimeblock] leaves of a row. *)
Definition deleted_row (row : BlockRow) : BlockRow :=
  {| br_name := EmptyString; br_start := None; br_end := None; br_kind := BLOCK_DELETED;
     br_category := None; br_actions := None; br_version := br_version row + 1 |}.

Definition set_row_actions (l : list string) (row : BlockRow) : BlockRow :=
  {| br_name := br_name row; br_start := br_start row; br_end := br_end row;
     br_kind := br_kind row; br_category := br_category row; br_actions := Some l;
     br_version := br_version row + 1 |}.

Section handlers.
Context `{CivilCalendar, BlockIds} (tz : Recurrence.TimeZone).
(** The configuration: [payment.enable_plan], [svr.plan_delete_grace_window],
    [svr.time_block_max_actions]; the clock; the tenant and the session. *)
Context (enable_plan : bool) (grace_window now : Z) (max_actions : Z).
Context (state : SessionAccess.TenantState) (mode : SessionAccess.SessionAccessMode).

(** ** Validation *)

(** [toYearMonthDay] of shared_grpc_server.cpp *)
Definition toYearMonthDay (when : Z) : ymd := ymd_of_days (Recurrence.to_local tz when / 86400).

Definition validate (tb : TimeBlock) : result unit :=
  match tb_span tb with
  | None => Throw (server_err Error.CONSTRAINT_FAILED)
  | Some s =>
      let! _ := throw_if (ts_end s <=? ts_start s) (server_err Error.CONSTRAINT_FAILED) in
      let! _ := throw_if (negb (bool_decide (toYearMonthDay (ts_start s) = toYearMonthDay (ts_end s))))
                         (server_err Error.CONSTRAINT_FAILED) in
      throw_if (ts_end s <=? ts_start s) (server_err Error.CONSTRAINT_FAILED)
  end.

Definition validateAction (action : string) : M Db unit :=
  let! known := gets (λ d, bool_decide (action ∈ known_actions d)) in
  lift (throw_if (negb known) (server_err Error.INVALID_ACTION)).

Definition validateTimeBlock (id : string) : M Db unit :=
  let! row := gets (λ d, blocks d !! id) in
  lift (throw_if (bool_decide (row = None)) (server_err Error.INVALID_ACTION)).

Definition check_size (tb : TimeBlock) : result unit :=
  throw_if (max_actions <? Z.of_nat (length (tb_actions tb))) (server_err Error.CONSTRAINT_FAILED).

(** The loop over [unique_actions.insert(action).second]. *)
Fixpoint check_unique (seen : gset string) (l : list string) : result unit :=
  match l with
  | [] => Ok tt
  | a :: l =>
      if bool_decide (a ∈ seen) then Throw (server_err Error.CONSTRAINT_FAILED)
      else check_unique ({[a]} ∪ seen) l
  end.

(** ** Statements *)

(** [INSERT INTO time_block_actions]: the pair is the primary key. *)
Definition insert_assoc (tb action : string) : M Db unit :=
  let! dup := gets (λ d, bool_decide ((tb, action) ∈ time_block_actions d)) in
  let! _ := lift (throw_if dup runtime_error) in
  modify (set_assocs (λ X, {[(tb, action)]} ∪ X)).

(** [INSERT INTO time_block (id, ...)] *)
Definition insert_block (id : string) (tb : TimeBlock) (blob : option (list string)) : M Db unit :=
  let! categories := gets known_categories in
  let! row := lift (bind_row true categories tb blob 1) in
  let! old := gets (λ d, blocks d !! id) in
  let! _ := lift (throw_if (bool_decide (old ≠ None)) runtime_error) in
  modify (set_blocks <[id := row]>).

(** [rctx.uctx->reserveAddition] and [reservation.commit()] *)
Definition reserveAddition (amount : Z) : M Db PlanLimits.Reservation := λ d,
  let '(u, _, r) := PlanLimits.reserveAddition enable_plan grace_window now amount
                      PlanLimits.TIME_BLOCK (usage d) in
  lift r (set_usage u d).

Definition commit (r : PlanLimits.Reservation) : M Db unit :=
  modify (λ d, set_usage (PlanLimits.commit r (usage d)).2 d).

Definition onDeleted : M Db unit :=
  modify (λ d, set_usage (PlanLimits.onDeleted enable_plan PlanLimits.TIME_BLOCK 1 (usage d)) d).

Definition fetchCommittedTimeBlock (id : string) : M Db TimeBlock :=
  let! row := gets (λ d, blocks d !! id) in
  match row with
  | None => lift (Throw (server_err Error.NOT_FOUND))
  | Some row => mret (assign id row)
  end.

Definition queueCommittedTimeBlockUpdate (id : string) (op : Operation) : M Db unit :=
  let! tb := fetchCommittedTimeBlock id in
  publishLater (createCalendarEventUpdate tb op).

(** ** The handlers *)
Definition CreateTimeblock (req : TimeBlock) : M Db unit :=
  let! _ := lift (SessionAccess.requireWritableForAdd state mode) in
  let! _ := lift (validate req) in
  let! _ := lift (check_size req) in
  let! _ := lift (check_unique ∅ (tb_actions req)) in
  let! _ := for_each validateAction (tb_actions req) in
  let action_blob := match tb_actions req with [] => None | l => Some l end in
  let! reservation := reserveAddition 1 in
  let! id := gets (λ d, new_id (dom (blocks d))) in
  let! _ := insert_block id req action_blob in
  let! tb := fetchCommittedTimeBlock id in
  let! _ := for_each (insert_assoc id) (tb_actions req) in
  let! _ := publishLater (createCalendarEventUpdate tb ADDED) in
  commit reservation.

(** [saveTimeBlocks]: the blocks of a restored backup. *)
Definition saveTimeBlocks (timeblocks : list TimeBlock) : M Db unit :=
  let! _ := lift (if bool_decide (timeblocks = []) then Ok tt
                  else SessionAccess.requireWritableForAdd state mode) in
  let! reservation := reserveAddition (Z.of_nat (length timeblocks)) in
  let! _ := for_each (λ tb, insert_block (tb_id tb) tb (Some (tb_actions tb))) timeblocks in
  commit reservation.

Definition UpdateTimeblock (req : TimeBlock) : M Db unit :=
  let id := tb_id req in
  let! _ := lift (validate req) in
  let! _ := lift (check_size req) in
  let! _ := validateTimeBlock id in
  let! _ := modify (set_assocs (filter (λ p, p.1 ≠ id))) in
  let! _ := for_each (λ action, (let! _ := validateAction action in insert_assoc id action))
                     (tb_actions req) in
  let! old := fetchCommittedTimeBlock id in
  let! categories := gets known_categories in
  let! row := lift (bind_row false categories req (Some (tb_actions req)) (tb_version old + 1)) in
  let! _ := modify (set_blocks <[id := row]>) in
  queueCommittedTimeBlockUpdate id UPDATED.

Definition DeleteTimeblock (id : string) : M Db unit :=
  let! _ := validateTimeBlock id in
  let! _ := modify (set_blocks (alter deleted_row id)) in
  let! _ := onDeleted in
  queueCommittedTimeBlockUpdate id OP_DELETED.

(** The rows [time_block JOIN time_block_actions] finds for an action; the
    query leaves their order open, here it is that of the map. *)
Definition blocks_with (action : string) (d : Db) : list (string * BlockRow) :=
  List.filter (λ p, bool_decide ((p.1, action) ∈ time_block_actions d)) (map_to_list (blocks d)).

(** One round of the loop of [deleteActionInTimeBlocks]. *)
Definition delete_in_block (uuid : string) (p : string * BlockRow) : M Db unit :=
  match br_actions p.2 with
  | None => mret tt
  | Some l =>
      if bool_decide (uuid ∈ l) then
        let! _ := modify (set_assocs (λ X, X ∖ {[(p.1, uuid)]})) in
        let! _ := modify (set_blocks (alter (set_row_actions (erase uuid l)) p.1)) in
        queueCommittedTimeBlockUpdate p.1 UPDATED
      else mret tt
  end.

Definition deleteActionInTimeBlocks (uuid : string) : M Db unit :=
  let! rows := gets (blocks_with uuid) in
  for_each (delete_in_block uuid) rows.

(** ** The calendar *)

(** [pb::CalendarEvent]: an action without an id or a time block. *)
Record Event := { e_id : string; e_span : TimeSpan; e_block : option TimeBlock }.

(** The comparison of [GetCalendarEvents], on [int64_t] differences of
    times a DATETIME column holds. *)
Definition compare (a b : Event) : bool :=
  let cmp := ts_start (e_span a) - ts_start (e_span b) in
  if negb (cmp =? 0) then cmp <? 0 else
  let cmp := ts_end (e_span a) - ts_end (e_span b) in
  if negb (cmp =? 0) then cmp <? 0 else
  String.ltb (e_id a) (e_id b).

(** The rows of the query for the blocks in a span. *)
Definition in_span (req : TimeSpan) (row : BlockRow) : bool :=
  match toAnsiTime (ts_start req) false, toAnsiTime (ts_end req) false, br_start row, br_end row with
  | Ok (Some s), Ok (Some e), Some rs, Some re =>
      (s <=? rs) && (re <=? e) && negb (bool_decide (br_kind row = BLOCK_DELETED))
  | _, _, _, _ => false
  end.

Definition block_event (p : string * BlockRow) : Event :=
  let tb := assign p.1 p.2 in
  {| e_id := tb_id tb; e_span := timespan tb; e_block := Some tb |}.

Definition block_events (req : TimeSpan) (d : Db) : list Event :=
  map block_event (List.filter (λ p, in_span req p.2) (map_to_list (blocks d))).

(** [a] need not come after [b]. *)
Definition not_after (a b : Event) : Prop := compare b a = false.

#[export] Instance not_after_dec : RelDecision not_after.
Proof. intros a b. unfold not_after. apply _. Defined.

Definition GetCalendarEvents (actions : list Event) (req : TimeSpan) (d : Db) : list Event :=
  merge_sort not_after (actions ++ block_events req d).

(** ** What the tables satisfy *)

Definition listed (row : BlockRow) : list string := default [] (br_actions row).

(** The two records of the actions of a block agree, and a block that is
    not deleted is one that [validate] accepts. *)
Definition block_ok (d : Db) (id : string) (row : BlockRow) : Prop :=
  br_kind row ≠ BLOCK_DELETED →
  NoDup (listed row) ∧ (∀ a, (id, a) ∈ time_block_actions d ↔ a ∈ listed row) ∧
  Z.of_nat (length (listed row)) ≤ max_actions ∧ validate (assign id row) = Ok tt.

(** The foreign keys of the association table. *)
Definition assocs_ok (d : Db) : Prop :=
  ∀ i a, (i, a) ∈ time_block_actions d → is_Some (blocks d !! i) ∧ a ∈ known_actions d.

Definition inv (d : Db) : Prop := map_Forall (block_ok d) (blocks d) ∧ assocs_ok d.

(** ** Runs of the loops *)

Definition add_assocs (id : string) (l : list string) : Db → Db :=
  set_assocs (λ X, list_to_set (pair id <$> l) ∪ X).

Lemma check_unique_Ok seen l u :
  check_unique seen l = Ok u ↔ NoDup l ∧ ∀ a, a ∈ l → a ∉ seen.
Proof.
  revert seen. induction l as [|a l IH]; intros seen; cbn [check_unique].
  - destruct u. split; [|done]. split; [constructor|set_solver].
  - case_bool_decide; [split; [done|set_solver]|].
    rewrite IH, NoDup_cons. set_solver.
Qed.

Lemma validateAction_Ok a d u d' :
  validateAction a d = Ok (u, d') ↔ d' = d ∧ a ∈ known_actions d.
Proof.
  unfold validateAction, gets, lift, throw_if. cbv [mbind M_bind].
  destruct u. case_bool_decide; cbn; naive_solver.
Qed.

Lemma validate_all_Ok l d u d' :
  for_each validateAction l d = Ok (u, d') ↔ d' = d ∧ ∀ a, a ∈ l → a ∈ known_actions d.
Proof.
  destruct u. induction l as [|a l IH]; cbn [for_each].
  - cbv [mret M_ret]. split; [intros [= ->]; set_solver|by intros [-> _]].
  - rewrite M_bind_Ok. setoid_rewrite validateAction_Ok. split.
    + intros ([] & d1 & [-> Ha] & [-> Hl]%IH). set_solver.
    + intros [-> Ha]. exists (), d. split; [set_solver|]. apply IH. set_solver.
Qed.

Lemma insert_assoc_Ok id a d u d' :
  insert_assoc id a d = Ok (u, d') ↔ ((id, a) ∉ time_block_actions d) ∧ d' = add_assocs id [a] d.
Proof.
  unfold insert_assoc, gets, lift, throw_if, modify. cbv [mbind M_bind]. destruct u.
  assert (set_assocs (λ X, {[(id, a)]} ∪ X) d = add_assocs id [a] d) as <-.
  { unfold add_assocs, set_assocs. cbn. f_equal. set_solver. }
  case_bool_decide; naive_solver.
Qed.

Lemma add_assocs_cons id a l d : add_assocs id l (add_assocs id [a] d) = add_assocs id (a :: l) d.
Proof. unfold add_assocs, set_assocs. cbn. f_equal. set_solver. Qed.

Lemma add_assocs_nil id d : add_assocs id [] d = d.
Proof. unfold add_assocs, set_assocs. destruct d. cbn. f_equal. set_solver. Qed.

(** A loop that inserts the pairs of a block, with or without checking
    the actions first. *)
Lemma insert_loop_Ok (check : bool) id l d u d' :
  for_each (λ a, (let! _ := (if check then validateAction a else mret tt) in insert_assoc id a)) l d
    = Ok (u, d') ↔
  NoDup l ∧ (∀ a, a ∈ l → (id, a) ∉ time_block_actions d) ∧
  (check = true → ∀ a, a ∈ l → a ∈ known_actions d) ∧ d' = add_assocs id l d.
Proof.
  destruct u. revert d. induction l as [|a l IH]; intros d; cbn [for_each].
  - rewrite add_assocs_nil. cbv [mret M_ret].
    split; [intros [= ->]|by intros (_ & _ & _ & ->)]. split_and!; [constructor|set_solver..].
  - rewrite M_bind_Ok. split.
    + intros ([] & d1 & (u & d0 & Hc & [Hn ->]%insert_assoc_Ok)%M_bind_Ok & (Hnd & Hf & Hk & ->)%IH).
      assert (d0 = d ∧ (check = true → a ∈ known_actions d)) as [-> Ha].
      { destruct check; [apply validateAction_Ok in Hc; naive_solver|]. by injection Hc. }
      rewrite add_assocs_cons. cbn in Hf, Hk. split_and!; [|set_solver|set_solver|done].
      constructor; [|done]. intros Hin. apply (Hf a Hin). set_solver.
    + intros (Hnd & Hf & Hk & ->). apply NoDup_cons in Hnd as [Hal Hnd].
      exists (), (add_assocs id [a] d). rewrite M_bind_Ok. split.
      * exists (), d. rewrite insert_assoc_Ok. split; [|split; [set_solver|done]].
        destruct check; [|done]. apply validateAction_Ok. set_solver.
      * apply IH. rewrite add_assocs_cons. split_and!; [done| |set_solver|done]. set_solver.
Qed.

Lemma insert_assocs_Ok id l d u d' :
  for_each (insert_assoc id) l d = Ok (u, d') ↔
  NoDup l ∧ (∀ a, a ∈ l → (id, a) ∉ time_block_actions d) ∧ d' = add_assocs id l d.
Proof.
  transitivity (for_each (λ a, (let! _ := mret tt in insert_assoc id a)) l d = Ok (u, d')); [done|].
  rewrite (insert_loop_Ok false). naive_solver.
Qed.

(** ** Creating a block *)

(** The block in the tables once [CreateTimeblock] has committed; [reserved]
    are the counters with the reservation. *)
Definition created (req : TimeBlock) (row : BlockRow) (r : PlanLimits.Reservation)
    (reserved : PlanLimits.PlanUsage) (d : Db) : Db :=
  let id := new_id (dom (blocks d)) in
  {| blocks := <[id := row]> (blocks d);
     time_block_actions := list_to_set (pair id <$> tb_actions req) ∪ time_block_actions d;
     known_actions := known_actions d; known_categories := known_categories d;
     usage := (PlanLimits.commit r reserved).2;
     updates := updates d ++ [createCalendarEventUpdate (assign id row) ADDED] |}.

Lemma check_size_Ok tb u : check_size tb = Ok u ↔ Z.of_nat (length (tb_actions tb)) ≤ max_actions.
Proof. unfold check_size. rewrite throw_if_Ok, Z.ltb_ge. done. Qed.

Lemma reserveAddition_Ok n d r d' :
  reserveAddition n d = Ok (r, d') ↔
  ∃ u spawn, PlanLimits.reserveAddition enable_plan grace_window now n PlanLimits.TIME_BLOCK (usage d)
             = (u, spawn, Ok r) ∧ d' = set_usage u d.
Proof.
  unfold reserveAddition. destruct (PlanLimits.reserveAddition _ _ _ _ _ _) as [[u b] [x|e]];
    cbn; naive_solver.
Qed.

Lemma insert_block_Ok id tb blob d u d' :
  insert_block id tb blob d = Ok (u, d') ↔
  ∃ row, bind_row true (known_categories d) tb blob 1 = Ok row ∧ blocks d !! id = None ∧
         d' = set_blocks <[id := row]> d.
Proof.
  unfold insert_block, gets, lift, throw_if, modify. cbv [mbind M_bind]. destruct u.
  destruct (bind_row _ _ _ _ _) as [row|]; [|naive_solver].
  case_bool_decide as Hn.
  - split; [done|]. intros (? & _ & ? & _). done.
  - naive_solver.
Qed.

Lemma fetch_Ok id d tb d' :
  fetchCommittedTimeBlock id d = Ok (tb, d') ↔ d' = d ∧ ∃ row, blocks d !! id = Some row ∧ tb = assign id row.
Proof.
  unfold fetchCommittedTimeBlock, gets, lift. cbv [mbind M_bind].
  destruct (blocks d !! id); cbv [mret M_ret]; naive_solver.
Qed.

(** [CreateTimeblock] succeeds exactly when the session may write, the
    span is valid, the actions are distinct, known and not too many, the
    plan has room and the columns can be stored; then the row, one
    association per action, the counted block and one update are there, and
    nothing else has changed. *)
Theorem CreateTimeblock_exact req d u d' :
  assocs_ok d →
  CreateTimeblock req d = Ok (u, d') ↔
  ∃ row r reserved spawn,
    SessionAccess.requireWritableForAdd state mode = Ok tt ∧ validate req = Ok tt ∧
    Z.of_nat (length (tb_actions req)) ≤ max_actions ∧ NoDup (tb_actions req) ∧
    (∀ a, a ∈ tb_actions req → a ∈ known_actions d) ∧
    PlanLimits.reserveAddition enable_plan grace_window now 1 PlanLimits.TIME_BLOCK (usage d)
      = (reserved, spawn, Ok r) ∧
    bind_row true (known_categories d) req
      (match tb_actions req with [] => None | l => Some l end) 1 = Ok row ∧
    d' = created req row r reserved d.
Proof.
  intros Hfk. set (id := new_id (dom (blocks d))).
  assert (Hnew : blocks d !! id = None) by (apply not_elem_of_dom, new_id_fresh).
  unfold CreateTimeblock. destruct u. split.
  - intros Hr. inv_ok. split_ands. subst.
    repeat match goal with x : unit |- _ => destruct x end.
    repeat match goal with
    | H : check_size _ = _ |- _ => apply check_size_Ok in H
    | H : check_unique _ _ = _ |- _ => apply check_unique_Ok in H as [? _]
    | H : for_each validateAction _ _ = _ |- _ => apply validate_all_Ok in H as [-> ?]
    | H : reserveAddition _ _ = _ |- _ => apply reserveAddition_Ok in H as (? & ? & ? & ->)
    | H : gets _ _ = _ |- _ => injection H as <- <-
    | H : insert_block _ _ _ _ = _ |- _ => apply insert_block_Ok in H as (? & ? & ? & ->)
    | H : fetchCommittedTimeBlock _ _ = _ |- _ => apply fetch_Ok in H as [-> (? & Hrow & ->)]
    | H : for_each (insert_assoc _) _ _ = _ |- _ => apply insert_assocs_Ok in H as (? & ? & ->)
    end.
    cbn in Hrow. rewrite lookup_insert_eq in Hrow. injection Hrow as <-.
    repeat match goal with
    | H : publishLater _ _ = _ |- _ => injection H as <-
    | H : commit _ _ = _ |- _ => injection H as <-
    end.
    do 4 eexists. split_and!; try done.
  - intros (row & r & reserved & spawn & Hw & Hv & Hs & Hnd & Hk & Hr & Hb & ->).
    rewrite !M_bind_Ok.
    exists (), d. split; [by rewrite lift_Ok|]. rewrite M_bind_Ok.
    exists (), d. split; [by rewrite lift_Ok|]. rewrite M_bind_Ok.
    exists (), d. rewrite lift_Ok, check_size_Ok. split; [done|]. rewrite M_bind_Ok.
    exists (), d. rewrite lift_Ok, check_unique_Ok. split; [split; [set_solver|done]|]. rewrite M_bind_Ok.
    exists (), d. rewrite validate_all_Ok. split; [done|]. rewrite M_bind_Ok.
    exists r, (set_usage reserved d). split; [apply reserveAddition_Ok; eauto|]. rewrite M_bind_Ok.
    exists id, (set_usage reserved d). split; [done|]. rewrite M_bind_Ok.
    eexists (), _. split; [apply insert_block_Ok; eauto|]. rewrite M_bind_Ok.
    eexists (assign id row), _. split; [apply fetch_Ok; split; [done|]; exists row;
      by cbn; rewrite lookup_insert_eq|]. rewrite M_bind_Ok.
    eexists (), _. split; [apply insert_assocs_Ok; split_and!; [done| |done]|done].
    cbn. intros a _ Hin. apply Hfk in Hin as [[? Hx] _]. congruence.
Qed.

(** ** The handlers keep the tables in order *)
Lemma toAnsiTime_default t required o : toAnsiTime t required = Ok o → default 0 o = t.
Proof.
  unfold toAnsiTime. destruct (Z.eqb_spec t 0) as [->|]; [|by intros [= <-]].
  destruct required; [done|by intros [= <-]].
Qed.

Lemma validate_Ok tb u :
  validate tb = Ok u ↔ ∃ s, tb_span tb = Some s ∧ ts_start s < ts_end s ∧
                            toYearMonthDay (ts_start s) = toYearMonthDay (ts_end s).
Proof.
  unfold validate. destruct u, (tb_span tb) as [s|]; [|naive_solver].
  split.
  - intros Hv. inv_ok. exists s. split_bools. split_and!; [done|by apply Z.leb_gt|done].
  - intros (s' & [= <-] & Hlt%Z.leb_gt & Hday). rewrite Hlt, Hday, bool_decide_true by done. done.
Qed.

(** What is stored of a valid message is read back as a valid message. *)
Lemma bind_row_spec required X tb blob v row id :
  bind_row required X tb blob v = Ok row → validate tb = Ok tt →
  br_actions row = blob ∧ br_kind row = tb_kind tb ∧
  tb_span (assign id row) = tb_span tb ∧ validate (assign id row) = Ok tt.
Proof.
  unfold bind_row. intros Hb (s & Hs & Hlt & Hday)%validate_Ok. unfold timespan in Hb.
  rewrite Hs in Hb. cbn in Hb. inv_ok. subst.
  repeat match goal with H : toAnsiTime _ _ = _ |- _ => apply toAnsiTime_default in H end.
  split_and!; [done..| |]; [|apply validate_Ok; exists s; split_and!; [|done..]];
    cbn; rewrite ?Hs; destruct s; cbn in *; repeat case_match; cbn in *; subst; f_equal; lia.
Qed.

(** Storing a row together with its pairs. *)
Lemma inv_store d d' id row :
  inv d → blocks d' = <[id := row]> (blocks d) → known_actions d' = known_actions d →
  (∀ i a, (i, a) ∈ time_block_actions d' ↔
          (i ≠ id ∧ (i, a) ∈ time_block_actions d) ∨ (i = id ∧ a ∈ listed row)) →
  NoDup (listed row) → Z.of_nat (length (listed row)) ≤ max_actions →
  (∀ a, a ∈ listed row → a ∈ known_actions d) → validate (assign id row) = Ok tt → inv d'.
Proof.
  intros [Hb Hfk] Hblk Hkn Hiff Hnd Hlen Hknown Hv. split.
  - intros i r Hi Hk. rewrite Hblk in Hi. apply lookup_insert_Some in Hi as [[<- <-]|[Hne Hi]].
    + split_and!; [done| |done..]. intros a. rewrite Hiff. naive_solver.
    + destruct (Hb i r Hi Hk) as (? & Hia & ? & ?).
      split_and!; [done| |done..]. intros a. rewrite Hiff, <- Hia. naive_solver.
  - intros i a [[Hn [Hi Ha]%Hfk]|[-> Ha]]%Hiff; rewrite Hblk, Hkn.
    + by rewrite lookup_insert_ne.
    + rewrite lookup_insert_eq. split; [done|auto].
Qed.

Lemma UpdateTimeblock_run req d u d' :
  UpdateTimeblock req d = Ok (u, d') →
  ∃ old row,
    validate req = Ok tt ∧ Z.of_nat (length (tb_actions req)) ≤ max_actions ∧
    blocks d !! tb_id req = Some old ∧ NoDup (tb_actions req) ∧
    (∀ a, a ∈ tb_actions req → a ∈ known_actions d) ∧
    bind_row false (known_categories d) req (Some (tb_actions req)) (br_version old + 1) = Ok row ∧
    d' = {| blocks := <[tb_id req := row]> (blocks d);
            time_block_actions := list_to_set (pair (tb_id req) <$> tb_actions req)
                                  ∪ filter (λ p, p.1 ≠ tb_id req) (time_block_actions d);
            known_actions := known_actions d; known_categories := known_categories d;
            usage := usage d;
            updates := updates d ++ [createCalendarEventUpdate (assign (tb_id req) row) UPDATED] |}.
Proof.
  unfold UpdateTimeblock, queueCommittedTimeBlockUpdate, validateTimeBlock. intros Hr. inv_ok. subst.
  repeat match goal with x : unit |- _ => destruct x end.
  repeat match goal with
  | H : check_size _ = _ |- _ => apply check_size_Ok in H
  | H : gets _ _ = _ |- _ => injection H as <- <-
  | H : modify _ _ = _ |- _ => injection H as <-
  | H : fetchCommittedTimeBlock _ _ = _ |- _ => apply fetch_Ok in H as [-> (? & ? & ->)]
  | H : for_each _ _ _ = _ |- _ => apply (insert_loop_Ok true) in H as (? & _ & ? & ->)
  | H : publishLater _ _ = _ |- _ => injection H as <-
  end.
  cbn in *.
  repeat match goal with
  | H : <[_ := _]> _ !! _ = Some _ |- _ => rewrite lookup_insert_eq in H; injection H as <-
  end. eauto 12.
Qed.

Lemma created_inv req row r reserved d :
  inv d → NoDup (tb_actions req) → Z.of_nat (length (tb_actions req)) ≤ max_actions →
  (∀ a, a ∈ tb_actions req → a ∈ known_actions d) → validate req = Ok tt →
  bind_row true (known_categories d) req
    (match tb_actions req with [] => None | l => Some l end) 1 = Ok row →
  inv (created req row r reserved d).
Proof.
  intros Hi Hnd Hlen Hk Hv Hb.
  pose proof (bind_row_spec _ _ _ _ _ _ (new_id (dom (blocks d))) Hb Hv) as (Ha & _ & _ & Hv').
  assert (Hl : listed row = tb_actions req) by (unfold listed; rewrite Ha; by destruct (tb_actions req)).
  eapply (inv_store d _ (new_id (dom (blocks d))) row); rewrite ?Hl; try done.
  intros i a. cbn. destruct Hi as [_ Hfk]. split.
  - intros [Hin|Hin]%elem_of_union.
    + right. set_solver.
    + left. split; [|done]. intros ->. apply Hfk in Hin as [Hin _].
      by apply elem_of_dom, new_id_fresh in Hin.
  - set_solver.
Qed.

Lemma UpdateTimeblock_inv req : keeps inv (UpdateTimeblock req).
Proof.
  intros d u d' Hi (old & row & Hv & Hlen & _ & Hnd & Hk & Hb & ->)%UpdateTimeblock_run.
  pose proof (bind_row_spec _ _ _ _ _ _ (tb_id req) Hb Hv) as (Ha & _ & _ & Hv').
  assert (Hl : listed row = tb_actions req) by (unfold listed; by rewrite Ha).
  eapply (inv_store d _ (tb_id req) row); rewrite ?Hl; try done.
  intros i a. cbn. set_solver.
Qed.

Lemma DeleteTimeblock_run id d u d' :
  DeleteTimeblock id d = Ok (u, d') →
  ∃ old, blocks d !! id = Some old ∧
    d' = {| blocks := <[id := deleted_row old]> (blocks d);
            time_block_actions := time_block_actions d;
            known_actions := known_actions d; known_categories := known_categories d;
            usage := PlanLimits.onDeleted enable_plan PlanLimits.TIME_BLOCK 1 (usage d);
            updates := updates d ++ [createCalendarEventUpdate (assign id (deleted_row old)) OP_DELETED] |}.
Proof.
  unfold DeleteTimeblock, queueCommittedTimeBlockUpdate, validateTimeBlock, onDeleted.
  intros Hr. inv_ok. subst.
  repeat match goal with x : unit |- _ => destruct x end.
  repeat match goal with
  | H : gets _ _ = _ |- _ => injection H as <- <-
  | H : modify _ _ = _ |- _ => injection H as <-
  | H : fetchCommittedTimeBlock _ _ = _ |- _ => apply fetch_Ok in H as [-> (? & Hx & ->)]
  | H : publishLater _ _ = _ |- _ => injection H as <-
  end.
  cbn in Hx. rewrite lookup_alter_eq in Hx. apply fmap_Some in Hx as (old & Hold & ->).
  exists old. split; [done|]. f_equal.
  apply map_eq. intros i. destruct (decide (i = id)) as [->|].
  - by rewrite lookup_alter_eq, lookup_insert_eq, Hold.
  - by rewrite lookup_alter_ne, lookup_insert_ne by done.
Qed.

Lemma DeleteTimeblock_inv id : keeps inv (DeleteTimeblock id).
Proof.
  intros d u d' [Hb Hfk] (old & Hold & ->)%DeleteTimeblock_run. split.
  - intros i r Hi Hk. cbn in Hi. apply lookup_insert_Some in Hi as [[<- <-]|[Hne Hi]]; [done|].
    by apply Hb.
  - intros i a [Hi Ha]%Hfk. split; [|done]. cbn. destruct (decide (i = id)) as [->|].
    + by rewrite lookup_insert_eq.
    + by rewrite lookup_insert_ne.
Qed.

(** ** Deleting an action *)

(** The tables after the action [uuid] has left the blocks [H]. *)
Definition without (uuid : string) (H : gset string) (d d' : Db) : Prop :=
  (∀ i, blocks d' !! i =
        (λ r, if decide (i ∈ H) then set_row_actions (erase uuid (listed r)) r else r)
          <$> blocks d !! i) ∧
  (∀ i a, (i, a) ∈ time_block_actions d' ↔ (i, a) ∈ time_block_actions d ∧ ¬ (a = uuid ∧ i ∈ H)) ∧
  known_actions d' = known_actions d ∧ known_categories d' = known_categories d ∧
  usage d' = usage d.

Definition lists (uuid : string) (p : string * BlockRow) : Prop := uuid ∈ listed p.2.

#[export] Instance lists_dec uuid p : Decision (lists uuid p).
Proof. unfold lists. apply _. Defined.

Lemma without_nothing uuid d : without uuid ∅ d d.
Proof.
  split_and!; [|set_solver|done..]. intros i. destruct (blocks d !! i); cbn; [|done].
  by rewrite decide_False by set_solver.
Qed.

Lemma without_trans uuid H1 H2 d d1 d2 :
  H1 ## H2 → without uuid H1 d d1 → without uuid H2 d1 d2 → without uuid (H1 ∪ H2) d d2.
Proof.
  intros Hdis (Hb1 & Ha1 & Hk1 & Hc1 & Hu1) (Hb2 & Ha2 & Hk2 & Hc2 & Hu2).
  split_and!; [|set_solver|congruence..].
  intros i. rewrite Hb2, Hb1. destruct (blocks d !! i); cbn; [|done]. f_equal.
  destruct (decide (i ∈ H1)), (decide (i ∈ H2)), (decide (i ∈ H1 ∪ H2)); set_solver.
Qed.

(** One round over a row that is still as it was read. *)
Lemma delete_round uuid p d :
  blocks d !! p.1 = Some p.2 →
  ∃ d' us, delete_in_block uuid p d = Ok (tt, d') ∧
    without uuid (if decide (lists uuid p) then {[p.1]} else ∅) d d' ∧
    updates d' = updates d ++ us ∧
    us = if decide (lists uuid p)
         then [createCalendarEventUpdate
                 (assign p.1 (set_row_actions (erase uuid (listed p.2)) p.2)) UPDATED]
         else [].
Proof.
  destruct p as [id row]. cbn [fst snd]. intros Hrow. unfold delete_in_block. cbn [fst snd].
  destruct (br_actions row) as [acts|] eqn:Ha.
  2: { exists d, []. rewrite !decide_False by (unfold lists, listed; cbn; rewrite Ha; set_solver).
       split_and!; [done|apply without_nothing|by rewrite app_nil_r|done]. }
  assert (Hlr : lists uuid (id, row) ↔ uuid ∈ acts) by (unfold lists, listed; cbn; by rewrite Ha).
  assert (listed row = acts) as -> by (unfold listed; by rewrite Ha).
  case_bool_decide as Hin.
  - rewrite !(decide_True (P := lists uuid _)) by tauto. unfold queueCommittedTimeBlockUpdate, fetchCommittedTimeBlock.
    cbv [mbind M_bind modify gets]. cbn. rewrite lookup_alter_eq, Hrow. cbn.
    eexists _, _. split; [done|]. split_and!; [|done..]. split_and!; cbn; [| |done..].
    + intros i. destruct (decide (i = id)) as [->|Hne].
      * rewrite lookup_alter_eq, Hrow. cbn. rewrite decide_True by set_solver.
        unfold listed. by rewrite Ha.
      * rewrite lookup_alter_ne by done. destruct (blocks d !! i); cbn; [|done].
        by rewrite decide_False by set_solver.
    + set_solver.
  - rewrite !decide_False by tauto. exists d, [].
    split_and!; [done|apply without_nothing|by rewrite app_nil_r|done].
Qed.

Lemma delete_loop uuid l d :
  NoDup l.*1 → (∀ p, p ∈ l → blocks d !! p.1 = Some p.2) →
  ∃ d' us, for_each (delete_in_block uuid) l d = Ok (tt, d') ∧
    without uuid (list_to_set (filter (lists uuid) l).*1) d d' ∧
    updates d' = updates d ++ us ∧
    us = (λ p, createCalendarEventUpdate
                 (assign p.1 (set_row_actions (erase uuid (listed p.2)) p.2)) UPDATED)
           <$> filter (lists uuid) l.
Proof.
  revert d. induction l as [|p l IH]; intros d Hnd Hp.
  { exists d, []. split_and!; [done|apply without_nothing|by rewrite app_nil_r|done]. }
  cbn [fmap list_fmap] in Hnd. apply NoDup_cons in Hnd as [Hid Hnd].
  destruct (delete_round uuid p d) as (d1 & us1 & Hr1 & Hw1 & Hu1 & Hus1); [apply Hp; left|].
  destruct (IH d1 Hnd) as (d2 & us2 & Hr2 & Hw2 & Hu2 & Hus2).
  { intros q Hq. destruct Hw1 as [-> _]. rewrite (Hp q) by (by right). cbn.
    rewrite decide_False; [done|]. case_decide; [|set_solver].
    intros Heq%elem_of_singleton. apply Hid. rewrite <- Heq. by apply list_elem_of_fmap_2. }
  exists d2, (us1 ++ us2). cbn [for_each]. rewrite M_bind_Ok. split; [by exists (), d1|].
  rewrite Hu2, Hu1, app_assoc. subst us1 us2. rewrite filter_cons.
  assert (Hdis : p.1 ∉ (list_to_set (filter (lists uuid) l).*1 : gset string)).
  { rewrite elem_of_list_to_set. intros (q & Hq & [_ Hql]%list_elem_of_filter)%list_elem_of_fmap.
    apply Hid. rewrite Hq. by apply list_elem_of_fmap_2. }
  case_decide; cbn [app fmap list_fmap]; (split; [|done]).
  - apply (without_trans uuid {[p.1]} _ d d1 d2); [set_solver|done..].
  - rewrite <- (union_empty_l_L (list_to_set _)).
    by apply (without_trans uuid ∅ _ d d1 d2); [set_solver|..].
Qed.

(** The blocks [deleteActionInTimeBlocks] changes. *)
Definition hit_blocks (uuid : string) (d : Db) : list (string * BlockRow) :=
  filter (lists uuid) (blocks_with uuid d).

Lemma blocks_with_rows uuid d p :
  p ∈ blocks_with uuid d ↔ blocks d !! p.1 = Some p.2 ∧ (p.1, uuid) ∈ time_block_actions d.
Proof.
  unfold blocks_with. rewrite list_elem_of_In, List.filter_In, <- list_elem_of_In.
  destruct p. rewrite elem_of_map_to_list, bool_decide_eq_true. done.
Qed.

Lemma list_filter_sublist {A} (f : A → bool) l : List.filter f l `sublist_of` l.
Proof.
  induction l as [|x l IH]; cbn; [constructor|]. destruct (f x); [by apply sublist_skip|by apply sublist_cons].
Qed.

Lemma deleteActionInTimeBlocks_run uuid d :
  ∃ d' us, deleteActionInTimeBlocks uuid d = Ok (tt, d') ∧
    without uuid (list_to_set (hit_blocks uuid d).*1) d d' ∧
    updates d' = updates d ++ us ∧
    us = (λ p, createCalendarEventUpdate
                 (assign p.1 (set_row_actions (erase uuid (listed p.2)) p.2)) UPDATED)
           <$> hit_blocks uuid d.
Proof.
  unfold deleteActionInTimeBlocks. cbv [gets mbind M_bind].
  apply delete_loop.
  - apply (sublist_NoDup _ (map_to_list (blocks d)).*1); [apply NoDup_fst_map_to_list|].
    apply fmap_sublist, list_filter_sublist.
  - intros p [Hp _]%blocks_with_rows. done.
Qed.

(** A block without the actions it had is still a block in order. *)
Lemma validate_set_actions id l row :
  validate (assign id (set_row_actions l row)) = validate (assign id row).
Proof. done. Qed.

Lemma listed_set l row : listed (set_row_actions l row) = l.
Proof. done. Qed.

Lemma hit_iff uuid d i row :
  inv d → blocks d !! i = Some row → br_kind row ≠ BLOCK_DELETED →
  (i ∈ (list_to_set (hit_blocks uuid d).*1 : gset string)) ↔ uuid ∈ listed row.
Proof.
  intros [Hb _] Hi Hk. destruct (Hb i row Hi Hk) as (_ & Hia & _).
  rewrite elem_of_list_to_set. split.
  - intros ([j r] & -> & [Hl [Hj _]%blocks_with_rows]%list_elem_of_filter)%list_elem_of_fmap.
    cbn in *. unfold lists in Hl. cbn in Hl. congruence.
  - intros Hu. apply list_elem_of_fmap. exists (i, row). split; [done|].
    apply list_elem_of_filter. split; [done|]. apply blocks_with_rows. cbn. by rewrite Hia.
Qed.

Lemma without_inv uuid d d' :
  inv d → without uuid (list_to_set (hit_blocks uuid d).*1) d d' → inv d'.
Proof.
  intros Hi (Hb & Ha & Hk & _ & _). pose proof Hi as [Hok Hfk]. split.
  - intros i r. rewrite Hb. intros (row & Hrow & ->)%fmap_Some Hkind.
    assert (Hlive : br_kind row ≠ BLOCK_DELETED) by (by case_decide).
    destruct (Hok i row Hrow Hlive) as (Hnd & Hia & Hlen & Hv).
    pose proof (hit_iff uuid d i row Hi Hrow Hlive) as Hhit.
    case_decide as Hin.
    + rewrite listed_set. split_and!.
      * by apply NoDup_erase.
      * intros a. rewrite Ha, Hia, elem_of_erase by done. naive_solver.
      * pose proof (sublist_length _ _ (erase_sublist uuid (listed row))). lia.
      * by rewrite validate_set_actions.
    + split_and!; [done| |done..]. intros a. rewrite Ha, Hia. naive_solver.
  - intros i a [Hin _]%Ha. apply Hfk in Hin as [[row Hrow] Hka]. rewrite Hb, Hrow, Hk. eauto.
Qed.

Lemma deleteActionInTimeBlocks_inv uuid : keeps inv (deleteActionInTimeBlocks uuid).
Proof.
  intros d u d' Hi Hr. destruct (deleteActionInTimeBlocks_run uuid d) as (d1 & us & Hr' & Hw & _).
  rewrite Hr in Hr'. injection Hr' as _ ->. by eapply without_inv.
Qed.

(** deleting an action takes it out of every block that is not deleted:
    both records of it are gone, no other block and no other action is
    touched, and every changed block is published with its new list. *)
Theorem deleteActionInTimeBlocks_exact uuid d :
  inv d →
  ∃ d' us, deleteActionInTimeBlocks uuid d = Ok (tt, d') ∧ updates d' = updates d ++ us ∧
    (∀ i row, blocks d !! i = Some row → br_kind row ≠ BLOCK_DELETED →
       if decide (uuid ∈ listed row)
       then blocks d' !! i = Some (set_row_actions (erase uuid (listed row)) row) ∧
            (uuid ∉ erase uuid (listed row)) ∧ ((i, uuid) ∉ time_block_actions d') ∧
            createCalendarEventUpdate (assign i (set_row_actions (erase uuid (listed row)) row)) UPDATED ∈ us
       else blocks d' !! i = Some row) ∧
    (∀ i a, a ≠ uuid → ((i, a) ∈ time_block_actions d') ↔ ((i, a) ∈ time_block_actions d)) ∧
    dom (blocks d') = dom (blocks d).
Proof.
  intros Hi. destruct (deleteActionInTimeBlocks_run uuid d) as (d' & us & Hr & Hw & Hu & Hus).
  exists d', us. split; [done|]. split; [done|]. destruct Hw as (Hb & Ha & _). split_and!.
  - intros i row Hrow Hlive. pose proof (hit_iff uuid d i row Hi Hrow Hlive) as Hhit.
    destruct Hi as [Hok _]. destruct (Hok i row Hrow Hlive) as (Hnd & Hia & _).
    rewrite Hb, Hrow. cbn. case_decide as Hin; [|by rewrite decide_False by tauto].
    rewrite decide_True by tauto. split_and!; [done| | |].
    + intros [_ []]%elem_of_erase; done.
    + rewrite Ha. tauto.
    + rewrite Hus. apply list_elem_of_fmap. exists (i, row). split; [done|].
      apply list_elem_of_filter. split; [done|]. apply blocks_with_rows. cbn. by rewrite Hia.
  - intros i a Hne. rewrite Ha. naive_solver.
  - apply set_eq. intros i. rewrite !elem_of_dom, Hb. by destruct (blocks d !! i).
Qed.

(** ** Histories *)

(** What may happen to the tables, restored backups apart. *)
Inductive Request :=
| Create (tb : TimeBlock)
| Update_block (tb : TimeBlock)
| Delete (id : string)
| Delete_action (uuid : string).

Definition handle (r : Request) : M Db unit :=
  match r with
  | Create tb => CreateTimeblock tb
  | Update_block tb => UpdateTimeblock tb
  | Delete id => DeleteTimeblock id
  | Delete_action uuid => deleteActionInTimeBlocks uuid
  end.

Lemma handle_inv r : keeps inv (handle r).
Proof.
  destruct r as [tb|tb|id|uuid]; cbn [handle].
  - intros d u d' Hi Hr. pose proof Hi as [_ Hfk].
    apply CreateTimeblock_exact in Hr as (row & r & reserved & spawn & _ & Hv & Hl & Hnd & Hk & _ & Hb & ->);
      [|done].
    by eapply created_inv.
  - apply UpdateTimeblock_inv.
  - apply DeleteTimeblock_inv.
  - apply deleteActionInTimeBlocks_inv.
Qed.

(** whatever requests are served, the list stored in a block that is
    not deleted is the list of its associations, without duplicates and
    within the limit, the block lies within one local day and ends after it
    starts, and the associations refer to blocks and actions that exist. *)
Theorem time_blocks_agree d rs :
  inv d → inv (foldl (λ d r, after (handle r) d) d rs).
Proof.
  revert d. induction rs as [|r rs IH]; intros d Hi; [done|].
  apply IH, keeps_after; [apply handle_inv|done].
Qed.

(** ** The order of the calendar *)
Definition key (e : Event) : Z * Z * string := (ts_start (e_span e), ts_end (e_span e), e_id e).

Lemma compare_spec a b :
  compare a b = true ↔
  ts_start (e_span a) < ts_start (e_span b) ∨
  (ts_start (e_span a) = ts_start (e_span b) ∧
   (ts_end (e_span a) < ts_end (e_span b) ∨
    (ts_end (e_span a) = ts_end (e_span b) ∧ String.ltb (e_id a) (e_id b) = true))).
Proof.
  unfold compare. cbn zeta.
  repeat match goal with |- context [?x =? 0] => destruct (Z.eqb_spec x 0) end; cbn [negb];
    rewrite ?Z.ltb_lt; intuition lia.
Qed.

Definition key_le (x y : Z * Z * string) : Prop :=
  x.1.1 < y.1.1 ∨ (x.1.1 = y.1.1 ∧
    (x.1.2 < y.1.2 ∨ (x.1.2 = y.1.2 ∧ String.ltb y.2 x.2 = false))).

Lemma not_after_key a b : not_after a b ↔ key_le (key a) (key b).
Proof.
  unfold not_after, key_le, key. cbn. rewrite <- not_true_iff_false, compare_spec.
  destruct (String.ltb _ _); intuition lia.
Qed.

Lemma string_compare_OT x y : String.compare x y = OrdersEx.String_as_OT.compare x y.
Proof.
  revert y. induction x as [|a x IH]; intros [|b y]; cbn; rewrite ?IH; done.
Qed.

Lemma ltb_false x y : String.ltb y x = false ↔ x = y ∨ OrdersEx.String_as_OT.lt x y.
Proof.
  unfold String.ltb. rewrite string_compare_OT.
  destruct (OrdersEx.String_as_OT.compare_spec y x) as [->|Hlt|Hlt]; [tauto| |tauto].
  split; [done|]. intros [->|Hgt]; exfalso; by eapply OrdersEx.String_as_OT.lt_strorder;
    [..|etransitivity].
Qed.

#[export] Instance key_le_trans : Transitive key_le.
Proof.
  intros [[s1 e1] i1] [[s2 e2] i2] [[s3 e3] i3]. unfold key_le; cbn. rewrite !ltb_false.
  intros H1 H2. pose proof (@transitivity _ OrdersEx.String_as_OT.lt _ i1 i2 i3).
  destruct H1 as [|[? [|[? [|]]]]], H2 as [|[? [|[? [|]]]]]; subst;
    first [left; lia | right; split; [lia|]; first [left; lia | right; split; [lia|]; auto]].
Qed.

#[export] Instance key_le_antisym : AntiSymm (=) key_le.
Proof.
  intros [[s1 e1] i1] [[s2 e2] i2]. unfold key_le; cbn. intros H1 H2.
  enough (String.ltb i2 i1 = false → String.ltb i1 i2 = false → i1 = i2).
  { assert (s1 = s2 ∧ e1 = e2 ∧ i1 = i2) as (-> & -> & ->) by (intuition lia). done. }
  unfold String.ltb. rewrite String.compare_antisym.
  destruct (String.compare i1 i2) eqn:Hc; cbn; try done. by intros; apply String.compare_eq_iff.
Qed.

#[export] Instance not_after_total : Total not_after.
Proof.
  intros a b. rewrite !not_after_key. unfold key_le.
  destruct (key a) as [[s1 e1] i1], (key b) as [[s2 e2] i2]; cbn.
  unfold String.ltb. rewrite (String.compare_antisym i2). destruct (String.compare i1 i2); cbn; lia.
Qed.

#[export] Instance not_after_trans : Transitive not_after.
Proof. intros a b c. rewrite !not_after_key. apply key_le_trans. Qed.

Lemma block_events_spec req d e :
  e ∈ block_events req d ↔
  ∃ id row, blocks d !! id = Some row ∧ in_span req row = true ∧ e = block_event (id, row).
Proof.
  unfold block_events. rewrite list_elem_of_In, in_map_iff. split.
  - intros ([id row] & <- & [Hin Hs]%List.filter_In).
    rewrite <- list_elem_of_In, elem_of_map_to_list in Hin. eauto.
  - intros (id & row & Hrow & Hs & ->). exists (id, row). split; [done|].
    apply List.filter_In. rewrite <- list_elem_of_In, elem_of_map_to_list. done.
Qed.

(** the comparison of [GetCalendarEvents] is an order, so that the sort
    is defined; its result has the actions and exactly the blocks of the
    span that are not deleted, in the order of start, end and id, and every
    other way to sort them gives the same sequence of these keys. *)
Theorem GetCalendarEvents_sorted actions req d :
  let l := GetCalendarEvents actions req d in
  StronglySorted not_after l ∧
  (∀ e, e ∈ l ↔ e ∈ actions ∨ ∃ id row, blocks d !! id = Some row ∧ in_span req row = true ∧
                                        e = block_event (id, row)) ∧
  (∀ l', l' ≡ₚ actions ++ block_events req d → Sorted not_after l' → key <$> l' = key <$> l).
Proof.
  cbn zeta. unfold GetCalendarEvents.
  pose proof (merge_sort_Permutation not_after (actions ++ block_events req d)) as Hp.
  pose proof (Sorted_merge_sort not_after (actions ++ block_events req d)) as Hs.
  split_and!.
  - by apply Sorted_StronglySorted; [apply _|].
  - intros e. rewrite Hp, elem_of_app, block_events_spec. done.
  - intros l' Hp' Hs'. apply (Sorted_unique key_le).
    + apply (Sorted_fmap key not_after); [|done]. intros x y. by rewrite not_after_key.
    + apply (Sorted_fmap key not_after); [|done]. intros x y. by rewrite not_after_key.
    + by rewrite Hp', Hp.
Qed.

(** ** Where the tables and the plan part *)

(** Deleting a block that is deleted already succeeds and is counted again. *)
Lemma delete_again_counts_again id d d1 :
  DeleteTimeblock id d = Ok (tt, d1) → enable_plan = true →
  ∃ d2, DeleteTimeblock id d1 = Ok (tt, d2) ∧
    PlanLimits.used (PlanLimits.counters (usage d2) PlanLimits.TIME_BLOCK) =
    Z.max 0 (Z.max 0 (PlanLimits.used (PlanLimits.counters (usage d) PlanLimits.TIME_BLOCK) - 1) - 1).
Proof.
  intros (old & Hold & ->)%DeleteTimeblock_run He.
  unfold DeleteTimeblock, queueCommittedTimeBlockUpdate, validateTimeBlock, fetchCommittedTimeBlock,
    onDeleted, modify, gets, lift, publishLater. cbv [mbind M_bind throw_if]. cbn [blocks].
  rewrite lookup_insert_eq, bool_decide_false by done. cbn [blocks set_blocks set_usage modify].
  rewrite lookup_alter_eq, lookup_insert_eq. cbn [fmap option_fmap option_map mret M_ret].
  eexists. split; [done|]. cbn. rewrite He. cbn.
  repeat case_match; try done; cbn in *; lia.
Qed.

(** Updating a deleted block makes it a block again without asking the
    plan. *)
Lemma update_revives req d u d' :
  UpdateTimeblock req d = Ok (u, d') → tb_kind req ≠ BLOCK_DELETED →
  usage d' = usage d ∧ ∃ row, blocks d' !! tb_id req = Some row ∧ br_kind row ≠ BLOCK_DELETED.
Proof.
  intros (old & row & Hv & _ & _ & _ & _ & Hb & ->)%UpdateTimeblock_run Hk. split; [done|].
  exists row. cbn. rewrite lookup_insert_eq. split; [done|].
  destruct (bind_row_spec _ _ _ _ _ _ (tb_id req) Hb Hv) as (_ & -> & _). done.
Qed.

Lemma save_loop_keeps tbs i row d u d' :
  for_each (λ tb, insert_block (tb_id tb) tb (Some (tb_actions tb))) tbs d = Ok (u, d') →
  blocks d !! i = Some row → blocks d' !! i = Some row.
Proof.
  intros Hr Hi. eapply (for_each_inv (λ d, blocks d !! i = Some row)); [|exact Hi|exact Hr].
  intros tb s s' _ Hs (r & _ & Hn & ->)%insert_block_Ok. cbn.
  rewrite lookup_insert_ne; congruence.
Qed.

Lemma save_loop_rows tbs d u d' tb :
  for_each (λ tb, insert_block (tb_id tb) tb (Some (tb_actions tb))) tbs d = Ok (u, d') → tb ∈ tbs →
  time_block_actions d' = time_block_actions d ∧ blocks d !! tb_id tb = None ∧
  ∃ row, blocks d' !! tb_id tb = Some row ∧ listed row = tb_actions tb.
Proof.
  revert d. induction tbs as [|x tbs IH]; intros d Hr Hin; [set_solver|].
  cbn [for_each] in Hr. apply M_bind_Ok in Hr as ([] & d1 & (row & Hb & Hn & ->)%insert_block_Ok & Hr).
  apply elem_of_cons in Hin as [->|Hin].
  - split_and!; [|done|].
    + refine (for_each_inv (λ s, time_block_actions s = time_block_actions d) _ _ _ _ _ _ _ Hr);
        [|done].
      intros y s s' _ Hs (r & _ & _ & ->)%insert_block_Ok. done.
    + exists row. split; [eapply save_loop_keeps; [exact Hr|]; cbn; by rewrite lookup_insert_eq|].
      unfold bind_row in Hb. inv_ok. by subst.
  - destruct (IH _ Hr Hin) as (Ha & Hnn & row' & Hrow & Hl). cbn in Ha, Hnn.
    split_and!; [done| |eauto]. destruct (decide (tb_id tb = tb_id x)) as [He|Hne].
    + by rewrite He, lookup_insert_eq in Hnn.
    + by rewrite lookup_insert_ne in Hnn.
Qed.

(** the blocks of a restored backup have no associations: when one of
    their actions is deleted later it stays in the list of the block. *)
Theorem restored_block_keeps_deleted_action tbs d u d1 tb uuid d2 :
  assocs_ok d → saveTimeBlocks tbs d = Ok (u, d1) → tb ∈ tbs → uuid ∈ tb_actions tb →
  deleteActionInTimeBlocks uuid d1 = Ok (tt, d2) →
  ∃ row, blocks d2 !! tb_id tb = Some row ∧ uuid ∈ listed row.
Proof.
  intros Hfk Hs Hin Hu Hd. unfold saveTimeBlocks in Hs.
  apply M_bind_Ok in Hs as (? & ? & [_ ->]%lift_Ok & Hs).
  apply M_bind_Ok in Hs as (r & ? & (us & sp & _ & ->)%reserveAddition_Ok & Hs).
  apply M_bind_Ok in Hs as ([] & d' & Hs & Hc). destruct u. injection Hc as <-.
  destruct (save_loop_rows _ _ _ _ tb Hs Hin) as (Ha & Hn & row & Hrow & Hl).
  destruct (deleteActionInTimeBlocks_run uuid (set_usage (PlanLimits.commit r (usage d')).2 d'))
    as (d2' & us' & Hr & (Hb & _) & _).
  rewrite Hd in Hr. injection Hr as <-. exists row. rewrite Hb. cbn. rewrite Hrow. cbn.
  rewrite decide_False; [split; [done|by rewrite Hl]|].
  rewrite elem_of_list_to_set. intros (p & Hp & [_ [_ Hpa]%blocks_with_rows]%list_elem_of_filter)%list_elem_of_fmap.
  rewrite <- Hp in Hpa. cbn in Hpa. rewrite Ha in Hpa. cbn in Hpa.
  apply Hfk in Hpa as [[? Hx] _]. cbn in Hn. congruence.
Qed.
End handlers.

(** ** Examples *)
#[export] Instance fresh_block_ids : BlockIds :=
  {| new_id X := fresh X; new_id_fresh X := is_fresh X |}.

#[program] Definition utc : Recurrence.TimeZone := {|
  Recurrence.to_local s := s; Recurrence.to_sys l := Ok l
|}.
Next Obligation. by intros l s [= ->]. Qed.

(** 2024-02-29 09:00 to 11:00 *)
Definition morning (l : list string) : TimeBlock :=
  {| tb_id := "i"; tb_span := Some {| ts_start := 1709197200; ts_end := 1709204400 |};
     tb_name := "morning"; tb_kind := ACTIONS; tb_category := ""; tb_actions := l; tb_version := 0 |}.

Definition empty_db : Db :=
  {| blocks := ∅; time_block_actions := ∅; known_actions := {["a"; "b"]}; known_categories := ∅;
     usage := PlanLimits.example_usage; updates := [] |}.

Definition morning_row (l : list string) : BlockRow :=
  {| br_name := "morning"; br_start := Some 1709197200; br_end := Some 1709204400;
     br_kind := ACTIONS; br_category := None; br_actions := Some l; br_version := 1 |}.

Definition one_block : Db :=
  {| blocks := {["i" := morning_row ["a"; "b"]]};
     time_block_actions := {[("i", "a"); ("i", "b")]}; known_actions := {["a"; "b"]};
     known_categories := ∅; usage := PlanLimits.example_usage; updates := [] |}.

Lemma empty_db_inv tz max : inv tz max empty_db.
Proof. split; [apply map_Forall_empty|]. intros i a. cbn. set_solver. Qed.

Lemma one_block_inv : inv utc 24 one_block.
Proof.
  split.
  - intros i r. cbn [one_block blocks]. intros [<- <-]%lookup_singleton_Some _. unfold listed. cbn.
    split_and!; [|set_solver|lia|vm_compute; reflexivity].
    repeat constructor; set_solver.
  - intros i a. cbn [one_block time_block_actions known_actions blocks].
    intros [[= -> ->]%elem_of_singleton|[= -> ->]%elem_of_singleton]%elem_of_union;
      (split; [by rewrite lookup_singleton_eq|set_solver]).
Qed.

Lemma CreateTimeblock_exact_witness :
  let create := CreateTimeblock utc true 5 0 24 SessionAccess.ACTIVE SessionAccess.FULL_ACCESS in
  is_ok (create (morning ["a"; "b"]) empty_db) = true ∧
  create (morning ["a"; "a"]) empty_db = Throw (server_err Error.CONSTRAINT_FAILED) ∧
  ¬ ∃ d', create (morning ["c"]) empty_db = Ok (tt, d').
Proof.
  cbn zeta. split; [vm_compute; reflexivity|]. split; [vm_compute; reflexivity|].
  assert (Hfk : assocs_ok empty_db) by (intros i a; cbn; set_solver).
  assert (Hc : "c" ∈ tb_actions (morning ["c"]) ∧ "c" ∉ known_actions empty_db) by (split; [left|cbn; set_solver]).
  intros [d' Hr].
  destruct (proj1 (CreateTimeblock_exact utc true 5 0 24 SessionAccess.ACTIVE SessionAccess.FULL_ACCESS
    (morning ["c"]) empty_db tt d' Hfk) Hr) as (_ & _ & _ & _ & _ & _ & _ & _ & Hk & _).
  exact (proj2 Hc (Hk _ (proj1 Hc))).
Defined.

Lemma deleteActionInTimeBlocks_exact_witness :
  ∃ d' us, deleteActionInTimeBlocks "a" one_block = Ok (tt, d') ∧
    blocks d' !! "i" = Some (set_row_actions ["b"] (morning_row ["a"; "b"])) ∧ length us = 1%nat ∧
    updates d' = us.
Proof.
  destruct (deleteActionInTimeBlocks_exact utc 24 "a" one_block one_block_inv)
    as (d' & us & Hr & Hu & Hb & _).
  specialize (Hb "i" (morning_row ["a"; "b"]) ltac:(apply lookup_singleton_eq) ltac:(done)).
  rewrite decide_True in Hb by (unfold listed; cbn; set_solver). destruct Hb as (Hb & _).
  exists d', us. split; [done|]. split; [exact Hb|]. split; [|done].
  assert (Hc : deleteActionInTimeBlocks "a" one_block = Ok (tt, after (deleteActionInTimeBlocks "a") one_block))
    by (vm_compute; reflexivity).
  rewrite Hr in Hc. injection Hc as Hc. cbn in Hu. rewrite <- Hu, Hc. vm_compute. reflexivity.
Defined.

Lemma time_blocks_agree_witness :
  let handle := handle utc true 5 0 24 SessionAccess.ACTIVE SessionAccess.FULL_ACCESS in
  let d := foldl (λ d r, after (handle r) d) one_block
             [Create (morning ["b"]); Delete_action "a"; Delete "i"; Update_block (morning ["b"])] in
  inv utc 24 d ∧ listed <$> blocks d !! "i" = Some ["b"] ∧ size (blocks d) = 2%nat.
Proof.
  cbn zeta. split; [apply time_blocks_agree, one_block_inv|]. split; vm_compute; reflexivity.
Defined.

Lemma restored_block_keeps_deleted_action_witness :
  ∃ d1 d2 row,
    saveTimeBlocks true 5 0 SessionAccess.ACTIVE SessionAccess.FULL_ACCESS [morning ["a"; "b"]] empty_db
      = Ok (tt, d1) ∧
    deleteActionInTimeBlocks "a" d1 = Ok (tt, d2) ∧
    blocks d2 !! "i" = Some row ∧ "a" ∈ listed row.
Proof.
  set (d1 := after (saveTimeBlocks true 5 0 SessionAccess.ACTIVE SessionAccess.FULL_ACCESS
                      [morning ["a"; "b"]]) empty_db).
  set (d2 := after (deleteActionInTimeBlocks "a") d1).
  assert (H1 : saveTimeBlocks true 5 0 SessionAccess.ACTIVE SessionAccess.FULL_ACCESS
                 [morning ["a"; "b"]] empty_db = Ok (tt, d1)) by (vm_compute; reflexivity).
  assert (H2 : deleteActionInTimeBlocks "a" d1 = Ok (tt, d2)) by (vm_compute; reflexivity).
  destruct (restored_block_keeps_deleted_action true 5 0 SessionAccess.ACTIVE SessionAccess.FULL_ACCESS
    [morning ["a"; "b"]] empty_db tt d1 (morning ["a"; "b"]) "a" d2) as (row & Hrow & Hin);
    [intros i a; cbn; set_solver|exact H1|left|left|exact H2|].
  exists d1, d2, row. done.
Defined.
