(* ===== verification/LocalTime.v ===== *)
(** * Dates, times and SQL text

    The conversions of src/src/backend/lib/grpc/shared_grpc_server.cpp and
    shared_grpc_server.h between the protocol, the database and the civil
    calendar: dates, instants with and without the time zone of the user,
    the periods of the work summaries, the millisecond stamps of the sync
    cursors, and the two helpers that compose SQL.

    A DATE is a [ymd], a DATETIME of seconds or an instant is the number of
    seconds since the epoch, a stamp with fractions one of microseconds;
    printing such a value and parsing it in the database is the identity.  A
    time zone changes its offset at whole seconds. *)
From S2P Require Import Prelude Text Calendar Recurrence.

#[local] Open Scope Z_scope.
#[local] Open Scope nextapp_scope.

(** ** Dates *)

(** [pb::Date]: the month counts from 0. *)
Record Date := { d_year : Z; d_month : Z; d_mday : Z }.

#[export] Instance Date_eq_dec : EqDecision Date.
Proof. solve_decision. Defined.

(** The message with no field set. *)
Definition empty_date : Date := {| d_year := 0; d_month := 0; d_mday := 0 |}.

Section dates.
Context `{CivilCalendar}.

(** [toDate] of a DATE or DATETIME; [valid()] is [ymd_ok]. *)
Definition toDate (from : ymd) : Date :=
  if ymd_ok from then {| d_year := year from; d_month := month from - 1; d_mday := day from |}
  else empty_date.

(** [toAnsiDate]; a year 0 is NULL. *)
Definition toAnsiDate (date : Date) : option ymd :=
  if d_year date =? 0 then None
  else Some (Ymd (d_year date) (d_month date + 1) (d_mday date)).

(** A date the calendar has, as the protocol writes it. *)
Definition date_ok (date : Date) : bool :=
  negb (d_year date =? 0) && ymd_ok (Ymd (d_year date) (d_month date + 1) (d_mday date)).

Lemma toDate_toAnsiDate date : date_ok date = true → toDate <$> toAnsiDate date = Some date.
Proof.
  unfold date_ok, toAnsiDate, toDate. intros [Hy%negb_true_iff Hok]%andb_true_iff.
  rewrite Hy. cbn. rewrite Hok. cbn. destruct date. do 2 f_equal. cbn. lia.
Qed.

Lemma toAnsiDate_toDate x : ymd_ok x = true → year x ≠ 0 → toAnsiDate (toDate x) = Some x.
Proof.
  intros Hok Hy. unfold toAnsiDate, toDate. rewrite Hok. cbn.
  destruct (Z.eqb_spec (year x) 0); [done|]. destruct x. do 2 f_equal. cbn. lia.
Qed.

(** ** Instants *)

(** [toTimeT(datetime)]: [None] is a value that is not [valid()]. *)
Definition toTimeT (from : option Z) : Z := default 0 from.

(** [toTimeT(datetime, tz)] *)
Definition toTimeT_zone (from : option Z) (tz : TimeZone) : result Z :=
  match from with Some l => to_sys tz l | None => Ok 0 end.

(** [toAnsiTime(time, tz, required)] *)
Definition toAnsiTime_zone (time : Z) (tz : TimeZone) (required : bool) : result (option Z) :=
  if time =? 0 then (if required then Throw (server_err Error.CONSTRAINT_FAILED) else Ok None)
  else Ok (Some (to_local tz time)).

(** [addDays] *)
Definition addDays (input n : Z) : Z := 86400 * (input / 86400 + n).

(** [toYearMonthDay] *)
Definition toYearMonthDay (when : Z) (tz : TimeZone) : ymd := ymd_of_days (to_local tz when / 86400).

(** [toDate(time_t, tz)]: the month as the calendar counts it. *)
Definition toDate_at (when : Z) (tz : TimeZone) : Date :=
  let x := toYearMonthDay when tz in
  if ymd_ok x then {| d_year := year x; d_month := month x; d_mday := day x |} else empty_date.

(** [toDate] of the same day counts months from 0: the two differ. *)
Lemma toDate_at_month when tz :
  d_month (toDate_at when tz) = d_month (toDate (toYearMonthDay when tz)) + 1.
Proof.
  unfold toDate_at, toDate.
  assert (ymd_ok (toYearMonthDay when tz) = true) as ->.
  { apply ymd_okE. unfold toYearMonthDay. apply ymd_of_days_valid. }
  cbn. lia.
Qed.

(** ** Periods of a work summary *)
Record TimePeriod := { p_start : Z; p_end : Z }.

(** [pb::WorkSummaryKind] and the values outside the enum. *)
Inductive WorkSummaryKind := WSK_DAY | WSK_WEEK | WSK_OTHER.

(** The local days from [start_day] up to [end_day]. *)
Definition day_span (tz : TimeZone) (start_day end_day : Z) : result TimePeriod :=
  let! s := to_sys tz (86400 * start_day) in
  let! e := to_sys tz (86400 * end_day) in
  Ok {| p_start := s; p_end := e |}.

(** [getLocalDate]: the local date of the midnight (UTC) before [when]. *)
Definition getLocalDate (when : Z) (tz : TimeZone) : ymd :=
  let start := 86400 * (when / 86400) in ymd_of_days (to_local tz start / 86400).

Definition getLocalDays (when : Z) (tz : TimeZone) : Z := days_of_ymd (getLocalDate when tz).

Definition toTimePeriodDay (when : Z) (tz : TimeZone) : result TimePeriod :=
  let start_day := getLocalDays when tz in day_span tz start_day (start_day + 1).

(** The first day of the week of a local day. *)
Definition week_start (sunday_first : bool) (l_day : Z) : Z :=
  l_day - (if sunday_first then weekday l_day else iso_encoding (weekday l_day) - 1).

Definition toTimePeriodWeek (when : Z) (tz : TimeZone) (sundayIsFirstWeekday : bool) : result TimePeriod :=
  let l_day := to_local tz when / 86400 in
  let start_day := week_start sundayIsFirstWeekday l_day in
  day_span tz start_day (start_day + 7).

Definition toTimePeriod (when : Z) (tz : TimeZone) (sundayIsFirstWeekday : bool)
    (kind : WorkSummaryKind) : result TimePeriod :=
  match kind with
  | WSK_DAY => toTimePeriodDay when tz
  | WSK_WEEK => toTimePeriodWeek when tz sundayIsFirstWeekday
  | WSK_OTHER => Throw runtime_error
  end.

Lemma day_span_Ok tz a b p :
  day_span tz a b = Ok p →
  to_local tz (p_start p) = 86400 * a ∧ to_local tz (p_end p) = 86400 * b.
Proof.
  intros (s & Hs & (e & He & [= <-])%bind_Ok)%bind_Ok. split; by apply to_sys_local.
Qed.

Lemma week_start_first sunday_first d :
  weekday (week_start sunday_first d) = (if sunday_first then 0 else 1) ∧
  week_start sunday_first d ≤ d < week_start sunday_first d + 7.
Proof.
  unfold week_start, weekday, iso_encoding. destruct sunday_first.
  - Z.to_euclidean_division_equations; lia.
  - destruct (Z.eqb_spec ((d + 4) mod 7) 0); Z.to_euclidean_division_equations; lia.
Qed.

(** the week of a work summary is the calendar week of the user: it runs
    from the local midnight of a Sunday or Monday, as the user has set, over
    seven local days, and the instant asked for lies in it. *)
Theorem toTimePeriodWeek_spec when tz sunday_first p :
  toTimePeriod when tz sunday_first WSK_WEEK = Ok p →
  ∃ d, to_local tz (p_start p) = 86400 * d ∧ to_local tz (p_end p) = 86400 * (d + 7) ∧
    weekday d = (if sunday_first then 0 else 1) ∧
    to_local tz (p_start p) ≤ to_local tz when < to_local tz (p_end p).
Proof.
  intros [Hs He]%day_span_Ok. set (l := to_local tz when) in *.
  exists (week_start sunday_first (l / 86400)).
  destruct (week_start_first sunday_first (l / 86400)) as [Hw Hr].
  rewrite Hs, He. split_and!; [done..| |]; Z.to_euclidean_division_equations; lia.
Qed.

(** the day of a work summary is the local date of the midnight UTC
    before the instant asked for.  In a zone that is [o] seconds ahead of
    UTC this is the user's day only while the UTC clock shows less than
    [24h - o]; in a zone behind UTC only while it shows less than [-o], so
    that for most of the day the summary is that of yesterday. *)
Theorem toTimePeriodDay_contains when tz sunday_first o p :
  - 86400 < o < 86400 → (∀ s, to_local tz s = s + o) →
  toTimePeriod when tz sunday_first WSK_DAY = Ok p →
  p_start p ≤ when < p_end p ↔
  when mod 86400 < (if 0 <=? o then 86400 - o else - o).
Proof.
  intros Ho Htz [Hs He]%day_span_Ok. rewrite !Htz in Hs, He.
  unfold getLocalDays, getLocalDate in Hs, He.
  rewrite (proj2 (ymd_of_days_valid _)), Htz in Hs, He.
  destruct (Z.leb_spec 0 o); Z.to_euclidean_division_equations; lia.
Qed.
End dates.

(** ** Stamps with milliseconds *)

(** The zone at a precision of [n] units to the second. *)
Definition to_sys_at (n : Z) (tz : TimeZone) (l : Z) : result Z :=
  let! s := to_sys tz (l / n) in Ok (n * s + l mod n).
Definition to_local_at (n : Z) (tz : TimeZone) (s : Z) : Z := n * to_local tz (s / n) + s mod n.

(** [toMsTimestamp]: the DATETIME in microseconds, read as local time. *)
Definition toMsTimestamp (from : option Z) (tz : TimeZone) : result Z :=
  match from with
  | Some us => to_sys_at 1000 tz (Z.quot us 1000)
  | None => Ok 0
  end.

(** [toMsDateTime]: the local DATETIME in microseconds. *)
Definition toMsDateTime (msSinceEpoch : Z) (tz : TimeZone) (roundUp : bool) : Z :=
  let tp := msSinceEpoch + (if roundUp then 1 else 0) in
  let local_tp := to_local_at 1000 tz tp in
  let local_seconds := local_tp / 1000 in
  1000000 * local_seconds + 1000 * (local_tp - 1000 * local_seconds).

Lemma to_sys_to_local n tz l s : 0 < n → to_sys_at n tz l = Ok s → to_local_at n tz s = l.
Proof.
  intros Hn (t & Ht & [= <-])%bind_Ok. unfold to_local_at.
  pose proof (Z.mod_pos_bound l n Hn) as Hr.
  replace ((n * t + l mod n) / n) with t by (apply (Z.div_unique _ _ _ (l mod n)); lia).
  replace ((n * t + l mod n) mod n) with (l mod n) by (apply (Z.mod_unique _ _ t); lia).
  rewrite (to_sys_local tz _ _ Ht). pose proof (Z.div_mod l n ltac:(lia)). lia.
Qed.

Lemma toMsDateTime_eq ms tz (up : bool) :
  toMsDateTime ms tz up = 1000 * to_local_at 1000 tz (ms + (if up then 1 else 0)).
Proof. unfold toMsDateTime. lia. Qed.

(** A stamp comes back without its microseconds. *)
Lemma stamp_roundtrip us tz ms :
  0 ≤ us → toMsTimestamp (Some us) tz = Ok ms → toMsDateTime ms tz false = 1000 * (us / 1000).
Proof.
  intros Hus Hms. rewrite toMsDateTime_eq, Z.add_0_r. cbn in Hms.
  apply to_sys_to_local in Hms; [|lia]. by rewrite Hms, Z.quot_div_nonneg by lia.
Qed.

(** The rows a legacy client gets in its next sync: [updated > ?] with the
    stamp it saw last. *)
Definition legacy_sends (seen_ms updated : Z) (tz : TimeZone) : bool :=
  toMsDateTime seen_ms tz true <? updated.

(** the cursor of a legacy client is rounded up to a full millisecond:
    in a zone with a fixed offset the client gets exactly the rows stamped
    after the millisecond that follows the one it saw.  A row stamped in the
    same millisecond, or at the start of the next, is not sent. *)
Theorem legacy_cursor_exact us tz o seen updated :
  0 ≤ us → (∀ s, to_local tz s = s + o) → toMsTimestamp (Some us) tz = Ok seen →
  legacy_sends seen updated tz = true ↔ 1000 * (us / 1000 + 1) < updated.
Proof.
  intros Hus Htz Hms. pose proof (stamp_roundtrip _ _ _ Hus Hms) as Hr.
  unfold legacy_sends. rewrite Z.ltb_lt, toMsDateTime_eq. rewrite toMsDateTime_eq in Hr.
  unfold to_local_at in *. rewrite Htz in *.
  enough (1000 * ((seen + 1) / 1000 + o) + (seen + 1) mod 1000 = us / 1000 + 1) by lia.
  rewrite Z.add_0_r in Hr. Z.to_euclidean_division_equations; lia.
Qed.

(** ** SQL text *)

(** [sep.join(l)] *)
Fixpoint join_with (sep : chars) (l : list chars) : chars :=
  match l with
  | [] => []
  | [w] => w
  | w :: l => w ++ sep ++ join_with sep l
  end.

(** [std::views::split(cols, ',')]: an empty range has no parts. *)
Fixpoint split_at (c : ascii) (word s : chars) : list chars :=
  match s with
  | [] => [word]
  | a :: s => if Ascii.eqb a c then word :: split_at c [] s else split_at c (word ++ [a]) s
  end.
Definition split_view (c : ascii) (s : chars) : list chars :=
  match s with [] => [] | _ => split_at c [] s end.

Definition comma : ascii := ","%char.
Definition space : ascii := " "%char.

(** [if (!w.empty() && w.front() == ' ') w = w.substr(1)] *)
Definition drop_space (w : chars) : chars :=
  match w with a :: w' => if Ascii.eqb a space then w' else w | [] => [] end.

(** The loop of [prefixNames]; [first] says that [col] is still 0. *)
Fixpoint prefix_words (first : bool) (prefix : chars) (words : list chars) : chars :=
  match words with
  | [] => []
  | w :: words => (if first then [] else [comma; space]) ++ prefix ++ drop_space w
                  ++ prefix_words false prefix words
  end.

Definition prefixNames (cols prefix : chars) : chars :=
  prefix_words true prefix (split_view comma cols).

(** A column name: no comma, no leading space. *)
Definition is_column (w : chars) : Prop := (comma ∉ w) ∧ drop_space w = w.

Lemma split_at_word c word s : c ∉ s → split_at c word s = [word ++ s].
Proof.
  revert word. induction s as [|a s IH]; intros word Hc; cbn; [by rewrite app_nil_r|].
  destruct (Ascii.eqb_spec a c) as [->|_]; [set_solver|].
  rewrite IH by set_solver. by rewrite <- app_assoc.
Qed.

Lemma split_at_sep c word s rest :
  c ∉ s → split_at c word (s ++ c :: rest) = (word ++ s) :: split_at c [] rest.
Proof.
  revert word. induction s as [|a s IH]; intros word Hc; cbn.
  - by rewrite Ascii.eqb_refl, app_nil_r.
  - destruct (Ascii.eqb_spec a c) as [->|_]; [set_solver|].
    rewrite IH by set_solver. by rewrite <- app_assoc.
Qed.

Lemma prefix_words_columns (blank u : chars) prefix first names :
  (blank = [] ∨ blank = [space]) → (u = [] ∨ u = [space]) → Forall is_column names → names ≠ [] →
  prefix_words first prefix (split_at comma u (join_with (comma :: blank) names)) =
  (if first then [] else [comma; space]) ++ join_with [comma; space] (app prefix <$> names).
Proof.
  intros Hb Hu Hn. assert (Hsplit : ∀ s, split_at comma [] (blank ++ s) = split_at comma blank s).
  { intros s. by destruct Hb as [->| ->]. }
  revert u Hu first. induction Hn as [|w names [Hcw Hw] Hn IH]; intros u Hu first Hne; [done|].
  assert (Hblank : drop_space (u ++ w) = w) by (by destruct Hu as [->| ->]).
  destruct names as [|w' names].
  - cbn [join_with fmap list_fmap]. rewrite split_at_word by done. cbn [prefix_words].
    by rewrite Hblank, app_nil_r.
  - change (join_with (comma :: blank) (w :: w' :: names))
      with (w ++ comma :: (blank ++ join_with (comma :: blank) (w' :: names))).
    rewrite split_at_sep, Hsplit by done. cbn [prefix_words].
    rewrite Hblank, IH by done. cbn [fmap list_fmap join_with].
    by rewrite <- !app_assoc.
Qed.

(** Every column of a list gets the prefix, whether the commas of the list
    are followed by a blank or not. *)
Lemma prefixNames_spec (blank : chars) prefix names :
  (blank = [] ∨ blank = [space]) → Forall is_column names → names ≠ [] →
  Forall (λ w, w ≠ []) names →
  prefixNames (join_with (comma :: blank) names) prefix =
  join_with [comma; space] (app prefix <$> names).
Proof.
  intros Hb Hn Hne Hnil. unfold prefixNames, split_view.
  destruct (join_with (comma :: blank) names) as [|a s] eqn:Hj.
  { destruct Hnil as [|w names Hw _]; [done|]. destruct names; cbn in Hj; [done|by destruct w]. }
  rewrite <- Hj. apply (prefix_words_columns blank [] prefix true); auto.
Qed.

(** [SqlFilter] *)
Record SqlFilter := { add_where : bool; where_ : chars }.

Definition new_filter (addWhere : bool) : SqlFilter := {| add_where := addWhere; where_ := [] |}.

Definition add (what : chars) (f : SqlFilter) : SqlFilter :=
  {| add_where := add_where f;
     where_ := (if add_where f && bool_decide (where_ f = []) then lit "WHERE "
                else where_ f ++ lit " AND ") ++ what |}.

(** The conditions in the order they were added. *)
Lemma filter_text addWhere w l :
  where_ (foldl (λ f x, add x f) (new_filter addWhere) (w :: l)) =
  (if addWhere then lit "WHERE " else lit " AND ") ++ join_with (lit " AND ") (w :: l).
Proof.
  assert (Hgen : ∀ l f, where_ f ≠ [] →
    where_ (foldl (λ f x, add x f) f l) = where_ f ++ concat (app (lit " AND ") <$> l)).
  { clear. intros l. induction l as [|x l IH]; intros f Hf; cbn [foldl fmap list_fmap concat]; [by rewrite app_nil_r|].
    rewrite IH.
    - unfold add. cbn [where_]. rewrite bool_decide_false by done. rewrite andb_false_r.
      by rewrite <- !app_assoc.
    - unfold add. cbn [where_]. rewrite bool_decide_false by done. rewrite andb_false_r.
      destruct (where_ f); done. }
  assert (Hj : ∀ l w, join_with (lit " AND ") (w :: l) = w ++ concat (app (lit " AND ") <$> l)).
  { clear. intros l. induction l as [|x l IH]; intros w; [cbn; by rewrite app_nil_r|].
    change (join_with (lit " AND ") (w :: x :: l)) with (w ++ lit " AND " ++ join_with (lit " AND ") (x :: l)).
    rewrite IH. cbn [fmap list_fmap concat]. by rewrite <- !app_assoc. }
  cbn [foldl]. rewrite Hgen, Hj.
  - unfold add, new_filter. cbn [where_ add_where]. rewrite bool_decide_true by done.
    destruct addWhere; cbn [andb]; by rewrite <- !app_assoc.
  - unfold add, new_filter. cbn. by destruct addWhere.
Qed.

(** ** Examples: a zone five hours behind UTC *)
#[program] Definition est : TimeZone := {|
  to_local s := s - 18000;
  to_sys l := Ok (l + 18000)
|}.
Next Obligation. intros l s [= <-]. lia. Qed.

(** 2024-02-29 12:00 UTC, a Thursday: the week starts on Sunday the 25th. *)
Lemma toTimePeriodWeek_spec_witness :
  ∃ d, to_local est 1708837200 = 86400 * d ∧ to_local est 1709442000 = 86400 * (d + 7) ∧
    weekday d = 0 ∧ to_local est 1708837200 ≤ to_local est 1709208000 < to_local est 1709442000.
Proof.
  exact (toTimePeriodWeek_spec 1709208000 est true {| p_start := 1708837200; p_end := 1709442000 |}
    ltac:(vm_compute; reflexivity)).
Defined.

(** The "day" of that instant is the 28th. *)
Lemma toTimePeriodDay_contains_witness :
  toTimePeriod 1709208000 est true WSK_DAY = Ok {| p_start := 1709096400; p_end := 1709182800 |} ∧
  ¬ (1709096400 ≤ 1709208000 < 1709182800) ∧
  ¬ (1709208000 mod 86400 < - - 18000).
Proof.
  assert (H : toTimePeriod 1709208000 est true WSK_DAY
              = Ok {| p_start := 1709096400; p_end := 1709182800 |}) by (vm_compute; reflexivity).
  split; [done|].
  pose proof (toTimePeriodDay_contains 1709208000 est true (-18000) _ ltac:(lia) ltac:(done) H) as He.
  cbn [p_start p_end] in He.
  split; [lia|]. intros Hm. apply He in Hm. lia.
Defined.

Lemma legacy_cursor_exact_witness :
  toMsTimestamp (Some 1500250) est = Ok 18001500 ∧
  legacy_sends 18001500 1500900 est = false ∧ legacy_sends 18001500 1501001 est = true.
Proof.
  assert (H : toMsTimestamp (Some 1500250) est = Ok 18001500) by (vm_compute; reflexivity).
  pose proof (λ u, legacy_cursor_exact 1500250 est (-18000) 18001500 u ltac:(lia) ltac:(done) H) as He.
  split; [done|]. split.
  - apply not_true_is_false. intros Hs. apply He in Hs. vm_compute in Hs. done.
  - apply He. vm_compute. done.
Defined.
