(* ===== verification/GreenDays.v ===== *)
(** * The colours and reports of days

    The handlers of src/src/backend/lib/grpc/GreenDays.cpp over the table
    [day] of one user and the system's [day_colors].  The handlers that
    write use a connection of their own, without a transaction: what a
    statement has stored stays when a later step throws, so that they return
    the tables next to their result.  [stamp] and [cursor] are what the
    triggers of the table put into [updated] and [updated_id].  The batches
    of the export are in Sync.v. *)
From S2P Require Import Prelude Calendar Recurrence LocalTime.
From stdpp Require Import sorting.

#[local] Open Scope Z_scope.
#[local] Open Scope nextapp_scope.

#[export] Instance ymd_countable : Countable ymd :=
  inj_countable' (λ x, (year x, month x, day x)) (λ p, Ymd p.1.1 p.1.2 p.2)
    (λ x, match x with Ymd _ _ _ => eq_refl end).

(** ** Rows and messages *)
Record DayRow := {
  r_color : option string;
  r_notes : option string;
  r_report : option string;
  r_deleted : bool;
  r_updated : Z;
  r_updated_id : Z
}.

(** [pb::Day] within [pb::CompleteDay] *)
Record CompleteDay := {
  cd_date : Date;
  cd_color : string;
  cd_has_notes : bool;
  cd_has_report : bool;
  cd_notes : option string;
  cd_report : option string;
  cd_deleted : bool;
  cd_updated : Z;
  cd_updated_id : Z
}.

Inductive Operation := ADDED | UPDATED.

Record Db := {
  days : gmap ymd DayRow;
  colors : gset string;
  updates : list (Operation * CompleteDay)
}.

Definition set_days (f : gmap ymd DayRow → gmap ymd DayRow) (d : Db) : Db :=
  {| days := f (days d); colors := colors d; updates := updates d |}.

Definition publishLater (op : Operation) (day : CompleteDay) (d : Db) : Db :=
  {| days := days d; colors := colors d; updates := updates d ++ [(op, day)] |}.

(** A handler without a transaction. *)
Definition Handler (A : Type) : Type := Db → result A * Db.

Section handlers.
Context `{CivilCalendar} (tz : TimeZone) (stamp cursor : Z).

(** *** Reading *)

(** The strings of a row: what is NULL stays unset. *)
Definition day_of (date : Date) (updated : Z) (row : DayRow) : CompleteDay :=
  {| cd_date := date; cd_color := default EmptyString (r_color row);
     cd_has_notes := bool_decide (is_Some (r_notes row));
     cd_has_report := bool_decide (is_Some (r_report row));
     cd_notes := r_notes row; cd_report := r_report row; cd_deleted := false;
     cd_updated := updated; cd_updated_id := r_updated_id row |}.

Definition fetchDay (date : Date) (d : Db) : result (option CompleteDay) :=
  match toAnsiDate date ≫= λ x, pair x <$> days d !! x with
  | Some (x, row) =>
      if r_deleted row then Ok None
      else let! updated := toMsTimestamp (Some (r_updated row)) tz in
           Ok (Some (day_of (toDate x) updated row))
  | None => Ok None
  end.

Definition GetDay (req : Date) (d : Db) : result CompleteDay :=
  let! day := fetchDay req d in
  match day with Some day => Ok day | None => Throw (server_err Error.NOT_FOUND) end.

(** [pb::Day] of a month *)
Record Day := { m_date : Date; m_color : string; m_has_notes : bool; m_has_report : bool }.

Definition month_day (p : ymd * DayRow) : Day :=
  {| m_date := toDate p.1; m_color := default EmptyString (r_color p.2);
     m_has_notes := bool_decide (is_Some (r_notes p.2));
     m_has_report := bool_decide (is_Some (r_report p.2)) |}.

(** [WHERE YEAR(date)=? AND MONTH(date)=? and deleted=0], [month] from 0. *)
Definition in_month (y m : Z) (p : ymd * DayRow) : bool :=
  (year p.1 =? y) && (month p.1 =? m + 1) && negb (r_deleted p.2).

(** [ORDER BY date] *)
Definition date_le (a b : ymd * DayRow) : Prop :=
  year a.1 < year b.1 ∨ (year a.1 = year b.1 ∧
    (month a.1 < month b.1 ∨ (month a.1 = month b.1 ∧ day a.1 ≤ day b.1))).

#[export] Instance date_le_dec : RelDecision date_le.
Proof. intros a b. unfold date_le. apply _. Defined.

Definition GetMonth (y m : Z) (d : Db) : list Day :=
  map month_day (List.filter (λ p, ymd_ok p.1)
    (merge_sort date_le (List.filter (in_month y m) (map_to_list (days d))))).

(** *** Writing *)

(** A DATE column takes a month or a day 0, too. *)
Definition storable (x : ymd) : bool :=
  (1 <=? year x) && (year x <=? 9999) &&
  (ymd_ok x || ((month x =? 0) && (0 <=? day x) && (day x <=? 31))
   || ((1 <=? month x) && (month x <=? 12) && (day x =? 0))).

(** The statements check the key, which is not NULL, and the colour. *)
Definition check_row (date : Date) (color : option string) (d : Db) : result ymd :=
  match toAnsiDate date with
  | None => Throw runtime_error
  | Some x =>
      let! _ := throw_if (negb (storable x)) runtime_error in
      let! _ := throw_if (match color with Some c => negb (bool_decide (c ∈ colors d)) | None => false end)
                         runtime_error in
      Ok x
  end.

Definition new_row (color notes report : option string) : DayRow :=
  {| r_color := color; r_notes := notes; r_report := report; r_deleted := false;
     r_updated := stamp; r_updated_id := cursor |}.

(** [INSERT ... ON DUPLICATE KEY UPDATE]; the rows affected are 1 or 2. *)
Definition upsert (x : ymd) (new : DayRow) (old : DayRow → DayRow) (d : Db) : Z * Db :=
  match days d !! x with
  | None => (1, set_days <[x := new]> d)
  | Some row => (2, set_days <[x := old row]> d)
  end.

(** What follows the statement in both handlers. *)
Definition publish_day (date : Date) (affected : Z) : Handler unit := λ d,
  match fetchDay date d with
  | Throw e => (Throw e, d)
  | Ok None => (Ok tt, d)
  | Ok (Some day) => (Ok tt, publishLater (if affected =? 1 then ADDED else UPDATED) day d)
  end.

(** [SetColorOnDay]: an empty colour is NULL. *)
Definition SetColorOnDay (date : Date) (color : string) : Handler unit := λ d,
  let color := toStringOrNull color in
  match check_row date color d with
  | Throw e => (Throw e, d)
  | Ok x =>
      let '(affected, d) := upsert x (new_row color None None)
                              (λ row, new_row color (r_notes row) (r_report row)) d in
      publish_day date affected d
  end.

Definition SetDay (date : Date) (color notes report : string) : Handler unit := λ d,
  let color := toStringOrNull color in
  let notes := toStringOrNull notes in
  let report := toStringOrNull report in
  match check_row date color d with
  | Throw e => (Throw e, d)
  | Ok x =>
      let row := new_row color notes report in
      let '(affected, d) := upsert x row (λ _, row) d in
      publish_day date affected d
  end.

(** [saveDays] within the transaction of an import. *)
Definition save_day (item : CompleteDay) : M Db unit := λ d,
  let color := toStringOrNull (cd_color item) in
  let! x := check_row (cd_date item) color d in
  let! _ := throw_if (bool_decide (is_Some (days d !! x))) runtime_error in
  let text o := toStringOrNull (default EmptyString o) in
  Ok (tt, set_days <[x := new_row color (text (cd_notes item)) (text (cd_report item))]> d).

Definition saveDays (items : list CompleteDay) : M Db unit := for_each save_day items.

(** *** The row of an export *)

(** What the loops of the exports add to a batch; the entry of a date that
    is not valid stays in the batch, without a date. *)
Definition exported_day (p : ymd * DayRow) : result CompleteDay :=
  let row := p.2 in
  let! updated := toMsTimestamp (Some (r_updated row)) tz in
  let texts := ymd_ok p.1 && negb (r_deleted row) in
  let shown (o : option string) := if texts then o else None in
  Ok {| cd_date := toDate p.1;
        cd_color := default EmptyString (shown (r_color row));
        cd_has_notes := bool_decide (is_Some (shown (r_notes row)));
        cd_has_report := bool_decide (is_Some (shown (r_report row)));
        cd_notes := shown (r_notes row); cd_report := shown (r_report row);
        cd_deleted := r_deleted row; cd_updated := updated; cd_updated_id := r_updated_id row |}.

(** ** What the table satisfies *)
Definition row_ok (d : Db) (x : ymd) (row : DayRow) : Prop :=
  storable x = true ∧ (∀ c, r_color row = Some c → c ∈ colors d) ∧
  r_notes row ≠ Some EmptyString ∧ r_report row ≠ Some EmptyString.

Definition days_inv (d : Db) : Prop := map_Forall (row_ok d) (days d).

Lemma toStringOrNull_nonempty s : toStringOrNull s ≠ Some EmptyString.
Proof. unfold toStringOrNull. case_bool_decide; congruence. Qed.

Lemma check_row_Ok date color d x :
  check_row date color d = Ok x ↔
  toAnsiDate date = Some x ∧ storable x = true ∧ (∀ c, color = Some c → c ∈ colors d).
Proof.
  unfold check_row. destruct (toAnsiDate date) as [y|]; [|split; [done|by intros [? _]]].
  assert (Hc : match color with Some c => negb (bool_decide (c ∈ colors d)) | None => false end = false
               ↔ ∀ c, color = Some c → c ∈ colors d).
  { destruct color as [c|]; [|by split]. rewrite negb_false_iff, bool_decide_eq_true.
    split; [by intros Hin ? [= <-]|auto]. }
  rewrite bind_Ok. setoid_rewrite bind_Ok. setoid_rewrite throw_if_Ok.
  setoid_rewrite Hc. setoid_rewrite negb_false_iff. split.
  - intros ([] & Hs & [] & Hcol & [= <-]). done.
  - intros ([= <-] & Hs & Hcol). by exists tt; split; [|exists tt].
Qed.

(** A statement stores one row, the rest stays. *)
Lemma upsert_eq x new old d :
  ∃ row, upsert x new old d = ((if bool_decide (is_Some (days d !! x)) then 2 else 1), set_days <[x := row]> d) ∧
    row = match days d !! x with Some r => old r | None => new end.
Proof. unfold upsert. destruct (days d !! x) as [r|]; eauto. Qed.

Lemma set_days_inv x row d : days_inv d → row_ok d x row → days_inv (set_days <[x := row]> d).
Proof.
  intros Hi Hr y r Hy. cbn in Hy. apply lookup_insert_Some in Hy as [[<- <-]|[_ Hy]]; [exact Hr|].
  exact (Hi y r Hy).
Qed.

Lemma publish_day_tables date n d :
  days (publish_day date n d).2 = days d ∧ colors (publish_day date n d).2 = colors d.
Proof. unfold publish_day. by destruct (fetchDay date d) as [[]|]. Qed.

Lemma inv_tables d d' : days d' = days d → colors d' = colors d → days_inv d → days_inv d'.
Proof. intros Hd Hc Hi. unfold days_inv, row_ok in *. by rewrite Hd, Hc. Qed.

Lemma SetColorOnDay_inv date color d : days_inv d → days_inv (SetColorOnDay date color d).2.
Proof.
  intros Hi. unfold SetColorOnDay. destruct (check_row _ _ _) as [x|] eqn:Hc; [|done].
  apply check_row_Ok in Hc as (_ & Hs & Hcol).
  destruct (upsert_eq x (new_row (toStringOrNull color) None None)
    (λ row, new_row (toStringOrNull color) (r_notes row) (r_report row)) d) as (row & -> & ->).
  destruct (publish_day_tables date (if bool_decide (is_Some (days d !! x)) then 2 else 1)
    (set_days <[x := match days d !! x with
       | Some row => new_row (toStringOrNull color) (r_notes row) (r_report row)
       | None => new_row (toStringOrNull color) None None end]> d)) as [Hd Hcs].
  apply (inv_tables _ _ Hd Hcs), set_days_inv; [done|].
  destruct (days d !! x) as [r|] eqn:Hx; [|by split_and!].
  destruct (Hi x r Hx) as (_ & _ & Hn & Hr). by split_and!.
Qed.

Lemma SetDay_inv date color notes report d : days_inv d → days_inv (SetDay date color notes report d).2.
Proof.
  intros Hi. unfold SetDay. destruct (check_row _ _ _) as [x|] eqn:Hc; [|done].
  apply check_row_Ok in Hc as (_ & Hs & Hcol).
  set (row := new_row _ _ _). destruct (upsert_eq x row (λ _, row) d) as (r & -> & Hr).
  assert (r = row) as -> by (rewrite Hr; by destruct (days d !! x)).
  destruct (publish_day_tables date (if bool_decide (is_Some (days d !! x)) then 2 else 1)
    (set_days <[x := row]> d)) as [Hd Hcs].
  apply (inv_tables _ _ Hd Hcs), set_days_inv; [done|].
  split_and!; [done|done|apply toStringOrNull_nonempty..].
Qed.

Lemma saveDays_keeps items : keeps days_inv (saveDays items).
Proof.
  apply keeps_for_each. intros item _ d [] d' Hi (x & Hx & (u & _ & [= <-])%bind_Ok)%bind_Ok.
  apply check_row_Ok in Hx as (_ & Hs & Hc). apply set_days_inv; [done|].
  split_and!; [done|done|apply toStringOrNull_nonempty..].
Qed.

(** ** What the handlers do *)

Lemma fetchDay_at date x row d :
  date_ok date = true → toAnsiDate date = Some x → days d !! x = Some row → r_deleted row = false →
  fetchDay date d = (let! t := toMsTimestamp (Some (r_updated row)) tz in Ok (Some (day_of date t row))).
Proof.
  intros Hok Hx Hr Hd. unfold fetchDay. rewrite Hx. cbn. rewrite Hr. cbn. rewrite Hd.
  pose proof (toDate_toAnsiDate date Hok) as Ht. rewrite Hx in Ht. injection Ht as ->. done.
Qed.

(** setting a day stores exactly the colour, the notes and the report of
    the request, an empty one as absent, leaves all other days alone, and
    publishes the day as it is now stored, as added when it was new. *)
Theorem SetDay_exact date x color notes report t d :
  date_ok date = true → check_row date (toStringOrNull color) d = Ok x →
  toMsTimestamp (Some stamp) tz = Ok t →
  let row := new_row (toStringOrNull color) (toStringOrNull notes) (toStringOrNull report) in
  ∃ d', SetDay date color notes report d = (Ok tt, d') ∧
    days d' = <[x := row]> (days d) ∧ colors d' = colors d ∧
    updates d' = updates d ++ [(if bool_decide (is_Some (days d !! x)) then UPDATED else ADDED,
                                day_of date t row)] ∧
    GetDay date d' = Ok (day_of date t row).
Proof.
  intros Hok Hc Ht row. pose proof (proj1 (check_row_Ok _ _ _ _) Hc) as (Hx & _ & _).
  unfold SetDay. rewrite Hc. fold row.
  destruct (upsert_eq x row (λ _, row) d) as (r & -> & Hr).
  assert (r = row) as -> by (rewrite Hr; by destruct (days d !! x)).
  assert (Hf : ∀ u, fetchDay date {| days := <[x := row]> (days d); colors := colors d; updates := u |}
                    = Ok (Some (day_of date t row))).
  { intros u. rewrite (fetchDay_at date x row) by (done || by apply lookup_insert_eq).
    cbn [r_updated row new_row]. by rewrite Ht. }
  unfold publish_day, set_days at 1. rewrite Hf. eexists. split; [done|]. split_and!; [done|done| |].
  - cbn. f_equal. by destruct (days d !! x).
  - unfold GetDay, publishLater. cbn. by rewrite Hf.
Qed.

(** The statement is not undone: when the stamp is a local time the zone of
    the user skips or has twice, the client gets an error, the day is stored
    and no device is told. *)
Lemma unreadable_stamp_hides_day date x color notes report e d :
  date_ok date = true → check_row date (toStringOrNull color) d = Ok x →
  toMsTimestamp (Some stamp) tz = Throw e →
  SetDay date color notes report d =
  (Throw e, set_days <[x := new_row (toStringOrNull color) (toStringOrNull notes) (toStringOrNull report)]> d).
Proof.
  intros Hok Hc Ht. pose proof (proj1 (check_row_Ok _ _ _ _) Hc) as (Hx & _ & _).
  unfold SetDay. rewrite Hc. set (row := new_row _ _ _).
  destruct (upsert_eq x row (λ _, row) d) as (r & -> & Hr).
  assert (r = row) as -> by (rewrite Hr; by destruct (days d !! x)).
  unfold publish_day. rewrite (fetchDay_at date x row) by (done || by apply lookup_insert_eq).
  cbn [r_updated row new_row]. by rewrite Ht.
Qed.

#[local] Instance date_le_total : Total date_le.
Proof. intros a b. unfold date_le. lia. Qed.
#[local] Instance date_le_trans : Transitive date_le.
Proof. intros a b c. unfold date_le. lia. Qed.

(** The rows a month shows. *)
Definition month_rows (y m : Z) (d : Db) : list (ymd * DayRow) :=
  List.filter (λ p, ymd_ok p.1)
    (merge_sort date_le (List.filter (in_month y m) (map_to_list (days d)))).

Lemma elem_of_month_rows y m d p :
  p ∈ month_rows y m d ↔
  days d !! p.1 = Some p.2 ∧ ymd_ok p.1 = true ∧ year p.1 = y ∧ month p.1 = m + 1 ∧ r_deleted p.2 = false.
Proof.
  unfold month_rows. rewrite elem_of_list_filter_bool, merge_sort_Permutation, elem_of_list_filter_bool.
  destruct p as [x row]. rewrite elem_of_map_to_list. unfold in_month. cbn.
  rewrite !andb_true_iff, !Z.eqb_eq, negb_true_iff. tauto.
Qed.

Lemma month_rows_NoDup y m d : NoDup (month_rows y m d).*1.
Proof.
  unfold month_rows. apply NoDup_fst_filter. rewrite merge_sort_Permutation.
  apply NoDup_fst_filter, NoDup_fst_map_to_list.
Qed.

Lemma month_rows_sorted y m d : StronglySorted date_le (month_rows y m d).
Proof. apply StronglySorted_filter, StronglySorted_merge_sort; apply _. Qed.

(** The dates of one month are told apart by their day. *)
Lemma month_rows_ascend y m d :
  StronglySorted (λ a b : ymd * DayRow, day a.1 < day b.1) (month_rows y m d).
Proof.
  apply (StronglySorted_strict date_le); [|apply month_rows_sorted|apply month_rows_NoDup].
  intros [xa ra] [xb rb] (_ & _ & Hya & Hma & _)%elem_of_month_rows (_ & _ & Hyb & Hmb & _)%elem_of_month_rows
    Hle Hne. cbn in *. unfold date_le in Hle. cbn in Hle. destruct xa, xb. cbn in *.
  enough (day ≠ day0) by lia. intros ->. congruence.
Qed.

Lemma GetMonth_rows y m d : GetMonth y m d = month_day <$> month_rows y m d.
Proof. done. Qed.

Lemma toDate_fields x :
  ymd_ok x = true → toDate x = {| d_year := year x; d_month := month x - 1; d_mday := day x |}.
Proof. intros Hok. unfold toDate. by rewrite Hok. Qed.

(** The month a client asks for has, in strictly ascending order,
    exactly the days of that month that are stored and not deleted, with
    their colour and with whether there are notes and a report. *)
Theorem GetMonth_exact y m d :
  y ≠ 0 →
  StronglySorted (λ a b, d_mday (m_date a) < d_mday (m_date b)) (GetMonth y m d) ∧
  ∀ shown, shown ∈ GetMonth y m d ↔
    ∃ x row, toAnsiDate (m_date shown) = Some x ∧ ymd_ok x = true ∧ year x = y ∧ month x = m + 1 ∧
      days d !! x = Some row ∧ r_deleted row = false ∧ shown = month_day (x, row).
Proof.
  intros Hy. rewrite GetMonth_rows. split.
  - apply (StronglySorted_fmap _ (λ a b : ymd * DayRow, d_mday (toDate a.1) < d_mday (toDate b.1))); [done|].
    eapply StronglySorted_impl; [|apply month_rows_ascend].
    intros [xa ra] [xb rb] (_ & Ha & _)%elem_of_month_rows (_ & Hb & _)%elem_of_month_rows Hlt. cbn in *.
    by rewrite !toDate_fields.
  - intros shown. rewrite list_elem_of_fmap. split.
    + intros ([x row] & -> & (Hx & Hok & Hyx & Hm & Hd)%elem_of_month_rows). cbn in *.
      exists x, row. split_and!; try done. apply toAnsiDate_toDate; [done|lia].
    + intros (x & row & _ & Hok & Hyx & Hm & Hx & Hd & ->). exists (x, row). split; [done|].
      by apply elem_of_month_rows.
Qed.
End handlers.

(** ** Examples *)
#[local] Existing Instance Gregorian.

Definition leap_day : Date := {| d_year := 2024; d_month := 1; d_mday := 29 |}.

Definition example_day : DayRow :=
  {| r_color := Some "green"; r_notes := None; r_report := Some "done"; r_deleted := false;
     r_updated := 0; r_updated_id := 7 |}.

Definition example_days : Db :=
  {| days := <[Ymd 2024 2 30 := example_day]> (<[Ymd 2024 2 3 := example_day]> (<[Ymd 2024 2 10 := example_day]> ∅));
     colors := {["green"; "red"]}; updates := [] |}.

Lemma SetDay_exact_witness :
  ∃ d', SetDay est 1000 8 leap_day "red" "" "ok" example_days = (Ok tt, d') ∧
    days d' !! Ymd 2024 2 29 = Some (new_row 1000 8 (Some "red") None (Some "ok")) ∧
    fst <$> updates d' = [ADDED].
Proof.
  destruct (@SetDay_exact Gregorian est 1000 8 leap_day (Ymd 2024 2 29) "red" "" "ok" 18000001 example_days
    ltac:(vm_compute; reflexivity) ltac:(vm_compute; reflexivity) ltac:(vm_compute; reflexivity))
    as (d' & H & Hd & _ & Hu & _).
  exists d'. split; [exact H|]. split; [rewrite Hd; vm_compute; reflexivity|].
  rewrite Hu. vm_compute. reflexivity.
Defined.

Lemma GetMonth_exact_witness :
  StronglySorted (λ a b, d_mday (m_date a) < d_mday (m_date b)) (GetMonth 2024 1 example_days) ∧
  d_mday ∘ m_date <$> GetMonth 2024 1 example_days = [3; 10].
Proof.
  split; [|vm_compute; reflexivity].
  apply (@GetMonth_exact Gregorian 2024 1 example_days). lia.
Defined.
