(* ===== verification/Actions.v ===== *)
(** * Actions as messages and as rows

    [ToAction] of src/src/backend/lib/grpc/Actions.cpp: how an action is
    bound to the columns of its row ([prepareBindingArgs]) and read back
    ([assign]), and that the two are inverse on the messages the handlers
    store.  The repetition rules of the same file are in Recurrence.v, its
    handlers in ActionStore.v.

    A value of an enum the protocol does not know has no name; the columns
    refuse the empty name where they are not bound as NULL.  A float is a
    rational or not finite.  The stamps of a row ([updated], [updated_id],
    [created_date]) and the widths of the text columns are not modelled. *)
From S2P Require Import Prelude Calendar Recurrence.
From Stdlib Require Import QArith Ascii.

#[local] Open Scope Z_scope.
#[local] Open Scope nextapp_scope.

(** ** Messages *)

(** [pb::ActionPriority] and [pb::ActionDifficulty] *)
Inductive ActionPriority :=
| PRI_CRITICAL | PRI_VERY_IMPORNANT | PRI_HIGHER | PRI_HIGH | PRI_NORMAL | PRI_MEDIUM
| PRI_LOW | PRI_INSIGNIFICANT | PRI_OTHER.

Inductive ActionDifficulty :=
| TRIVIAL | EASY | NORMAL | HARD | VERYHARD | INSPIRED | DIFFICULTY_OTHER.

#[export] Instance ActionPriority_eq_dec : EqDecision ActionPriority.
Proof. solve_decision. Defined.
#[export] Instance ActionDifficulty_eq_dec : EqDecision ActionDifficulty.
Proof. solve_decision. Defined.
#[export] Instance ActionStatus_eq_dec : EqDecision ActionStatus.
Proof. solve_decision. Defined.
#[export] Instance RepeatUnit_eq_dec : EqDecision RepeatUnit.
Proof. solve_decision. Defined.
#[export] Instance RepeatKind_eq_dec : EqDecision RepeatKind.
Proof. solve_decision. Defined.
#[export] Instance RepeatWhen_eq_dec : EqDecision RepeatWhen.
Proof. solve_decision. Defined.

(** [float] *)
Inductive float := fin (q : Q) | not_finite.

(** [pb::Priority::what] *)
Inductive Priority :=
| what_not_set
| urgencyImportance (urgency importance : float)
| priority (p : ActionPriority).

(** The fields of [pb::Action] the repetition only copies. *)
Record Rest := {
  node : string;
  has_due : bool;
  dynamicPriority : Priority;
  favorite : bool;
  name : string;
  descr : string;
  timeEstimate : Z;
  difficulty : ActionDifficulty;
  category : string;
  timeSpent : Z;
  tags : list string;
  version : Z
}.

Abbreviation Message := (Action Rest).

(** ** Rows of the table [action] *)
Record ActionRow := {
  r_node : option string;
  r_origin : option string;
  r_priority : option ActionPriority;
  dyn_urgency : option Z;
  dyn_importance : option Z;
  r_status : ActionStatus;
  r_favorite : bool;
  r_name : option string;
  due_kind : ActionDueKind;
  start_time : option Z;
  due_by_time : option Z;
  due_timezone : option string;
  completed_time : option Z;
  r_category : option string;
  r_descr : option string;
  time_estimate : option Z;
  r_difficulty : ActionDifficulty;
  repeat_kind : RepeatKind;
  repeat_unit : option RepeatUnit;
  repeat_when : option RepeatWhen;
  repeat_after : Z;
  time_spent : option Z;
  r_tags : option string;
  r_version : Z
}.

(** ** Binding a message *)

(** [toAnsiTime(time)]: 0 is NULL. *)
Definition time_or_null (t : option Z) : option Z :=
  match t with
  | Some t => if t =? 0 then None else Some t
  | None => None
  end.

(** [toAnsiTime(time, tz)]: local time. *)
Definition local_or_null (tz : TimeZone) (t : option Z) : option Z := to_local tz <$> time_or_null t.

(** [optional<int32_t> = float]: towards zero; other values are undefined
    in C++. *)
Definition to_int32 (f : float) : result Z :=
  match f with
  | not_finite => Throw undefined
  | fin q =>
      let z := Z.quot (Qnum q) (Z.pos (Qden q)) in
      if (- 2 ^ 31 <=? z) && (z <? 2 ^ 31) then Ok z else Throw undefined
  end.

(** The loop over [action.tags()]. *)
Definition join_tags (l : list string) : string :=
  foldl (λ acc t, String.append (if bool_decide (acc = EmptyString) then acc
                                 else String.append acc " ") t) EmptyString l.

(** Names of enum values the columns refuse. *)
Definition bind_priority (p : ActionPriority) : result ActionPriority :=
  match p with PRI_OTHER => Throw runtime_error | p => Ok p end.
Definition bind_difficulty (d : ActionDifficulty) : result ActionDifficulty :=
  match d with DIFFICULTY_OTHER => Throw runtime_error | d => Ok d end.
Definition bind_repeat_kind (k : RepeatKind) : result RepeatKind :=
  match k with KIND_OTHER => Throw runtime_error | k => Ok k end.

(** [repeat_unit ENUM('days', 'weeks', 'months', 'years')], never altered. *)
Definition bind_repeat_unit (u : RepeatUnit) : result (option RepeatUnit) :=
  match u with
  | UNIT_OTHER => Ok None
  | QUARTERS => Throw runtime_error
  | u => Ok (Some u)
  end.
Definition bind_repeat_when (w : RepeatWhen) : option RepeatWhen :=
  match w with WHEN_OTHER => None | w => Some w end.

(** The three columns of the priority. *)
Definition bind_dynamic_priority (p : Priority) : result (option ActionPriority * option Z * option Z) :=
  match p with
  | what_not_set => Ok (None, None, None)
  | urgencyImportance u i =>
      let! u := to_int32 u in
      let! i := to_int32 i in
      Ok (None, Some u, Some i)
  | priority p => let! p := bind_priority p in Ok (Some p, None, None)
  end.

(** [prepareBindingArgs], as the row the database stores; the node and the
    version are not among the bound columns. *)
Definition prepareBindingArgs (tz : TimeZone) (a : Message) (node_id : option string) (version : Z)
    : result ActionRow :=
  let r := rest a in
  let! p := bind_dynamic_priority (dynamicPriority r) in
  let! d := bind_difficulty (difficulty r) in
  let! rk := bind_repeat_kind (repeatKind a) in
  let! ru := bind_repeat_unit (repeatUnits a) in
  Ok {| r_node := node_id;
        r_origin := toStringOrNull (origin a);
        r_priority := p.1.1; dyn_urgency := p.1.2; dyn_importance := p.2;
        r_status := status a;
        r_favorite := favorite r;
        r_name := Some (name r);
        due_kind := kind (action_due a);
        start_time := time_or_null (start (action_due a));
        due_by_time := time_or_null (due (action_due a));
        due_timezone := toStringOrNull (timezone (action_due a));
        completed_time := local_or_null tz (completedTime a);
        r_category := toStringOrNull (category r);
        r_descr := Some (descr r);
        time_estimate := Some (timeEstimate r);
        r_difficulty := d;
        repeat_kind := rk; repeat_unit := ru; repeat_when := bind_repeat_when (repeatWhen a);
        repeat_after := repeatAfter a;
        time_spent := Some (timeSpent r);
        r_tags := toStringOrNull (join_tags (tags r));
        r_version := version |}.

(** ** Reading a row *)

(** [tags | std::views::split(' ')] *)
Fixpoint split_tags (s : string) : list string :=
  match s with
  | EmptyString => [EmptyString]
  | String c s =>
      if Ascii.eqb c " "%char then EmptyString :: split_tags s
      else match split_tags s with
           | h :: t => String c h :: t
           | [] => [String c EmptyString]
           end
  end.

Definition read_priority (row : ActionRow) : Priority :=
  match dyn_urgency row, dyn_importance row with
  | Some u, Some i => urgencyImportance (fin (inject_Z u)) (fin (inject_Z i))
  | _, _ => match r_priority row with Some p => priority p | None => what_not_set end
  end.

(** [toTimeT(datetime, tz)] throws for a local time the zone has twice. *)
Definition read_completed (tz : TimeZone) (row : ActionRow) : result (option Z) :=
  match completed_time row with
  | None => Ok None
  | Some l => let! t := to_sys tz l in Ok (Some t)
  end.

Definition read_due (row : ActionRow) : Due :=
  match due_by_time row with
  | None => {| start := None; due := None; kind := due_kind row; timezone := EmptyString |}
  | Some t => {| start := start_time row; due := Some t; kind := due_kind row;
                 timezone := default EmptyString (due_timezone row) |}
  end.

Definition assign (tz : TimeZone) (id : string) (row : ActionRow) : result Message :=
  let! completed := read_completed tz row in
  Ok {| id := id; origin := default EmptyString (r_origin row); status := r_status row;
        completedTime := completed; action_due := read_due row;
        repeatKind := repeat_kind row; repeatUnits := default DAYS (repeat_unit row);
        repeatWhen := default AT_DATE (repeat_when row); repeatAfter := repeat_after row;
        rest := {| node := default EmptyString (r_node row); has_due := true;
                   dynamicPriority := read_priority row; favorite := r_favorite row;
                   name := default EmptyString (r_name row); descr := default EmptyString (r_descr row);
                   timeEstimate := default 0 (time_estimate row); difficulty := r_difficulty row;
                   category := default EmptyString (r_category row);
                   timeSpent := default 0 (time_spent row);
                   tags := match r_tags row with None => [] | Some s => split_tags s end;
                   version := r_version row |} |}.

(** [sanitize(pb::Action&)] *)
Definition sanitize_action (a : Message) : Message :=
  if has_due (rest a) then
    {| id := id a; origin := origin a; status := status a; completedTime := completedTime a;
       action_due := sanitize (action_due a); repeatKind := repeatKind a;
       repeatUnits := repeatUnits a; repeatWhen := repeatWhen a; repeatAfter := repeatAfter a;
       rest := rest a |}
  else a.

(** ** Tags *)
Fixpoint no_space (s : string) : bool :=
  match s with
  | EmptyString => true
  | String c s => negb (Ascii.eqb c " "%char) && no_space s
  end.

(** A tag that survives: not empty and without a space. *)
Definition tag_ok (t : string) : Prop := t ≠ EmptyString ∧ no_space t = true.

Lemma string_app_nil_r s : String.append s EmptyString = s.
Proof. induction s as [|c s IH]; [done|]. change (String c (s +:+ "") = String c s). by f_equal. Qed.

Lemma split_no_space t : no_space t = true → split_tags t = [t].
Proof.
  induction t as [|c t IH]; [done|]. cbn [no_space String.append split_tags].
  intros [Hc%negb_true_iff Ht]%andb_true_iff. by rewrite Hc, IH.
Qed.

Lemma split_first t s : no_space t = true → split_tags (String.append t (String " "%char s)) = t :: split_tags s.
Proof.
  induction t as [|c t IH]; [done|]. cbn [no_space String.append split_tags].
  intros [Hc%negb_true_iff Ht]%andb_true_iff. 
  change (split_tags (String c (t +:+ String " " s)) = String c t :: split_tags s).
  cbn [split_tags]. by rewrite Hc, IH.
Qed.

Lemma join_acc acc l :
  acc ≠ EmptyString →
  foldl (λ acc t, String.append (if bool_decide (acc = EmptyString) then acc
                                 else String.append acc " ") t) acc l
  = String.append acc (foldr (λ t s, String " "%char (String.append t s)) EmptyString l).
Proof.
  revert acc. induction l as [|t l IH]; intros acc Ha; cbn [foldl foldr]; [by rewrite string_app_nil_r|].
  rewrite bool_decide_false by done. rewrite IH.
  - by rewrite !string_app_assoc.
  - destruct acc; done.
Qed.

Lemma split_joined l t :
  Forall tag_ok l → no_space t = true →
  split_tags (String.append t (foldr (λ t s, String " "%char (String.append t s)) EmptyString l)) = t :: l.
Proof.
  intros Hl. revert t. induction Hl as [|u l [_ Hu] _ IH]; intros t Hs; cbn [foldr].
  - rewrite string_app_nil_r. by apply split_no_space.
  - by rewrite split_first, IH.
Qed.

Lemma tags_roundtrip l : Forall tag_ok l → l ≠ [] → join_tags l ≠ EmptyString ∧ split_tags (join_tags l) = l.
Proof.
  intros Hl Hne. destruct l as [|t l]; [done|]. inversion_clear Hl as [|? ? [Ht Hs] Hl'].
  unfold join_tags. cbn [foldl]. rewrite bool_decide_true by done. change (EmptyString +:+ t) with t.
  rewrite join_acc by done. split; [destruct t; done|]. by apply split_joined.
Qed.

Lemma tags_column l :
  Forall tag_ok l →
  match toStringOrNull (join_tags l) with None => [] | Some s => split_tags s end = l.
Proof.
  intros Hl. destruct (decide (l = [])) as [->|Hne]; [done|].
  destruct (tags_roundtrip l Hl Hne) as [Hj Hs]. unfold toStringOrNull.
  by rewrite bool_decide_false.
Qed.

(** ** Round trip *)

(** A float the integer columns hold exactly. *)
Definition small_int (f : float) : Prop :=
  ∃ z, f = fin (inject_Z z) ∧ - 2 ^ 31 ≤ z < 2 ^ 31.

(** The messages that are stored without loss: the values are known to the
    protocol and to the columns, an absent time is not 0, start and time
    zone come with a due time, the time of completion is one the zone can
    tell, and tags are words. *)
Record storable (tz : TimeZone) (a : Message) : Prop := {
  st_due_flag : has_due (rest a) = true;
  st_start : start (action_due a) ≠ Some 0;
  st_due : due (action_due a) = None → start (action_due a) = None ∧ timezone (action_due a) = EmptyString;
  st_due0 : due (action_due a) ≠ Some 0;
  st_completed : match completedTime a with
                 | None => True
                 | Some t => t ≠ 0 ∧ to_sys tz (to_local tz t) = Ok t
                 end;
  st_priority : match dynamicPriority (rest a) with
                | what_not_set => True
                | urgencyImportance u i => small_int u ∧ small_int i
                | priority p => p ≠ PRI_OTHER
                end;
  st_difficulty : difficulty (rest a) ≠ DIFFICULTY_OTHER;
  st_kind : repeatKind a ≠ KIND_OTHER;
  st_units : repeatUnits a ≠ UNIT_OTHER ∧ repeatUnits a ≠ QUARTERS;
  st_when : repeatWhen a ≠ WHEN_OTHER;
  st_tags : Forall tag_ok (tags (rest a))
}.

Lemma to_int32_small f : small_int f → ∃ z, to_int32 f = Ok z ∧ f = fin (inject_Z z).
Proof.
  intros (z & -> & Hz). exists z. split; [|done]. cbn [to_int32 inject_Z Qnum Qden]. rewrite Z.quot_1_r.
  destruct (Z.leb_spec (- 2 ^ 31) z); [|lia]. by destruct (Z.ltb_spec z (2 ^ 31)); [|lia].
Qed.

(** The message as it is in the table: with the node and the version of
    its row. *)
Definition stored_as (a : Message) (node_id : string) (v : Z) : Message :=
  {| id := id a; origin := origin a; status := status a; completedTime := completedTime a;
     action_due := action_due a; repeatKind := repeatKind a; repeatUnits := repeatUnits a;
     repeatWhen := repeatWhen a; repeatAfter := repeatAfter a;
     rest := {| node := node_id; has_due := true; dynamicPriority := dynamicPriority (rest a);
                favorite := favorite (rest a); name := name (rest a); descr := descr (rest a);
                timeEstimate := timeEstimate (rest a); difficulty := difficulty (rest a);
                category := category (rest a); timeSpent := timeSpent (rest a);
                tags := tags (rest a); version := v |} |}.


(** Quarters are a unit of the protocol that the column does not have. *)
Lemma quarters_not_stored tz a node_id v row :
  prepareBindingArgs tz a node_id v = Ok row → repeatUnits a ≠ QUARTERS.
Proof. unfold prepareBindingArgs. intros Hr Hq. rewrite Hq in Hr. inv_ok. done. Qed.

(** ** Example: a weekly action with two tags *)
Definition weekly : Message :=
  {| id := "a"; origin := "o"; status := DONE; completedTime := Some example_time;
     action_due := {| start := Some 1709161200; due := Some 1709506740; kind := WEEK; timezone := "CET" |};
     repeatKind := COMPLETED; repeatUnits := WEEKS; repeatWhen := AT_DAYSPEC; repeatAfter := 2;
     rest := {| node := "n"; has_due := true; dynamicPriority := urgencyImportance (fin 3) (fin 7);
                favorite := true; name := "water the plants"; descr := ""; timeEstimate := 15;
                difficulty := EASY; category := "c"; timeSpent := 0; tags := ["home"; "green"];
                version := 0 |} |}.

