(* ===== verification/ActionStore.v ===== *)
(** * The actions of a user

    The handlers of src/src/backend/lib/grpc/Actions.cpp over the tables
    [action] and [action_category], composed with the time blocks
    (TimeBlocks.v) and the work sessions (WorkStore.v) that refer to actions
    and with the counters of the plan (PlanLimits.v).  The tables are those
    of one user; an UPDATE of an existing row always counts as a change,
    because the trigger of the table raises the version.  A throw rolls the
    transaction back.  The ids are valid uuids, and drawing one gives a new
    one ([BlockIds]). *)
From S2P Require Import Prelude Calendar Recurrence Actions WorkSession PlanLimits TimeBlocks.
From S2P Require SessionAccess WorkStore.
From Stdlib Require Import QArith.

#[local] Open Scope Z_scope.
#[local] Open Scope nextapp_scope.

(** ** The state *)

(** A row of [action_category]. *)
Record Category := {
  c_name : string;
  c_color : string;
  c_descr : option string;
  c_icon : option string;
  c_version : Z
}.

Inductive Op := OP_ADDED | OP_UPDATED | OP_MOVED | OP_DELETED.

(** What [publishLater] queues. *)
Inductive Update :=
| upd_action (op : Op) (a : Message)
| upd_calendar (u : TimeBlocks.Update)
| upd_work (op : WorkStore.Operation) (w : WorkSession)
| upd_category (op : Op) (id : string) (c : option Category).

Record Db := {
  rows : gmap string ActionRow;
  nodes : gset string;
  categories : gmap string Category;
  blocks : gmap string BlockRow;
  block_actions : gset (string * string);
  sessions : list WorkSession;
  usage : PlanUsage;
  updates : list Update
}.

Definition set_rows (f : gmap string ActionRow → gmap string ActionRow) (d : Db) : Db :=
  {| rows := f (rows d); nodes := nodes d; categories := categories d; blocks := blocks d;
     block_actions := block_actions d; sessions := sessions d; usage := usage d; updates := updates d |}.

Definition set_usage (f : PlanUsage → PlanUsage) (d : Db) : Db :=
  {| rows := rows d; nodes := nodes d; categories := categories d; blocks := blocks d;
     block_actions := block_actions d; sessions := sessions d; usage := f (usage d); updates := updates d |}.

Definition set_categories (f : gmap string Category → gmap string Category) (d : Db) : Db :=
  {| rows := rows d; nodes := nodes d; categories := f (categories d); blocks := blocks d;
     block_actions := block_actions d; sessions := sessions d; usage := usage d; updates := updates d |}.

Definition publishLater (u : Update) : M Db unit := modify (λ d,
  {| rows := rows d; nodes := nodes d; categories := categories d; blocks := blocks d;
     block_actions := block_actions d; sessions := sessions d; usage := usage d;
     updates := updates d ++ [u] |}).

(** *** The tables as the time blocks see them *)
Definition blocks_of (d : Db) : TimeBlocks.Db :=
  {| TimeBlocks.blocks := blocks d; TimeBlocks.time_block_actions := block_actions d;
     TimeBlocks.known_actions := dom (rows d); TimeBlocks.known_categories := dom (categories d);
     TimeBlocks.usage := usage d; TimeBlocks.updates := [] |}.

Definition with_blocks (t : TimeBlocks.Db) (d : Db) : Db :=
  {| rows := rows d; nodes := nodes d; categories := categories d;
     blocks := TimeBlocks.blocks t; block_actions := TimeBlocks.time_block_actions t;
     sessions := sessions d; usage := TimeBlocks.usage t;
     updates := updates d ++ map upd_calendar (TimeBlocks.updates t) |}.

Definition in_blocks {A} : M TimeBlocks.Db A → M Db A := zoom blocks_of with_blocks.

(** *** The tables as the work sessions see them *)
Definition work_action (row : ActionRow) : WorkStore.ActionRow :=
  {| WorkStore.a_name := default EmptyString (r_name row);
     WorkStore.a_active := bool_decide (r_status row = Recurrence.ACTIVE);
     WorkStore.a_time_spent := default 0 (time_spent row) |}.

(** Which actions a block has is not read by what the actions call. *)
Definition work_of (d : Db) : WorkStore.Db :=
  {| WorkStore.sessions := sessions d; WorkStore.actions := work_action <$> rows d;
     WorkStore.time_blocks := ∅; WorkStore.updates := [] |}.

Definition set_sessions (l : list WorkSession) (d : Db) : Db :=
  {| rows := rows d; nodes := nodes d; categories := categories d; blocks := blocks d;
     block_actions := block_actions d; sessions := l; usage := usage d; updates := updates d |}.

(** *** The columns statements set *)

(** What an action refers to. *)
Definition set_links (node origin category : option string) (row : ActionRow) : ActionRow :=
  {| r_node := node; r_origin := origin; r_priority := r_priority row;
     dyn_urgency := dyn_urgency row; dyn_importance := dyn_importance row;
     r_status := r_status row; r_favorite := r_favorite row; r_name := r_name row;
     due_kind := due_kind row; start_time := start_time row; due_by_time := due_by_time row;
     due_timezone := due_timezone row; completed_time := completed_time row;
     r_category := category; r_descr := r_descr row; time_estimate := time_estimate row;
     r_difficulty := r_difficulty row; repeat_kind := repeat_kind row;
     repeat_unit := repeat_unit row; repeat_when := repeat_when row;
     repeat_after := repeat_after row; time_spent := time_spent row; r_tags := r_tags row;
     r_version := r_version row |}.

(** Its state. *)
Definition set_state (s : ActionStatus) (completed : option Z) (favorite : bool) (spent : option Z) (row : ActionRow) : ActionRow :=
  {| r_node := r_node row; r_origin := r_origin row; r_priority := r_priority row;
     dyn_urgency := dyn_urgency row; dyn_importance := dyn_importance row; r_status := s;
     r_favorite := favorite; r_name := r_name row; due_kind := due_kind row;
     start_time := start_time row; due_by_time := due_by_time row;
     due_timezone := due_timezone row; completed_time := completed;
     r_category := r_category row; r_descr := r_descr row; time_estimate := time_estimate row;
     r_difficulty := r_difficulty row; repeat_kind := repeat_kind row;
     repeat_unit := repeat_unit row; repeat_when := repeat_when row;
     repeat_after := repeat_after row; time_spent := spent; r_tags := r_tags row;
     r_version := r_version row |}.

(** When and how urgent it is. *)
Definition set_plan (k : ActionDueKind) (start due : option Z) (tz : option string)
    (p : option ActionPriority * option Z * option Z) (d : ActionDifficulty) (estimate : option Z) (row : ActionRow) : ActionRow :=
  {| r_node := r_node row; r_origin := r_origin row; r_priority := p.1.1; dyn_urgency := p.1.2;
     dyn_importance := p.2; r_status := r_status row; r_favorite := r_favorite row;
     r_name := r_name row; due_kind := k; start_time := start; due_by_time := due;
     due_timezone := tz; completed_time := completed_time row; r_category := r_category row;
     r_descr := r_descr row; time_estimate := estimate; r_difficulty := d;
     repeat_kind := repeat_kind row; repeat_unit := repeat_unit row;
     repeat_when := repeat_when row; repeat_after := repeat_after row;
     time_spent := time_spent row; r_tags := r_tags row; r_version := r_version row |}.

(** The trigger of the table. *)
Definition bump  (row : ActionRow) : ActionRow :=
  {| r_node := r_node row; r_origin := r_origin row; r_priority := r_priority row;
     dyn_urgency := dyn_urgency row; dyn_importance := dyn_importance row;
     r_status := r_status row; r_favorite := r_favorite row; r_name := r_name row;
     due_kind := due_kind row; start_time := start_time row; due_by_time := due_by_time row;
     due_timezone := due_timezone row; completed_time := completed_time row;
     r_category := r_category row; r_descr := r_descr row; time_estimate := time_estimate row;
     r_difficulty := r_difficulty row; repeat_kind := repeat_kind row;
     repeat_unit := repeat_unit row; repeat_when := repeat_when row;
     repeat_after := repeat_after row; time_spent := time_spent row; r_tags := r_tags row;
     r_version := r_version row + 1 |}.

Definition row_time_spent (t : Z) (row : ActionRow) : ActionRow :=
  bump (set_state (r_status row) (completed_time row) (r_favorite row) (Some t) row).
Definition row_done (s : ActionStatus) (completed : option Z) (row : ActionRow) : ActionRow :=
  bump (set_state s completed (r_favorite row) (time_spent row) row).
Definition row_favorite (b : bool) (row : ActionRow) : ActionRow :=
  bump (set_state (r_status row) (completed_time row) b (time_spent row) row).
Definition row_origin (o : option string) (row : ActionRow) : ActionRow :=
  bump (set_links (r_node row) o (r_category row) row).
Definition row_node (n : string) (row : ActionRow) : ActionRow :=
  bump (set_links (Some n) (r_origin row) (r_category row) row).

(** The foreign key to [action_category] is ON DELETE SET NULL; it does not
    run the trigger. *)
Definition row_no_category (row : ActionRow) : ActionRow :=
  set_links (r_node row) (r_origin row) None row.

Section handlers.
Context `{CivilCalendar, BlockIds}.
(** The time zone of the user, the time zone database, the settings, the
    configuration, the clock, the tenant and the session. *)
Context (tz : TimeZone) (locate_zone : string → result TimeZone) (uctx : Recurrence.Settings)
  (autostart : WorkStore.Settings) (enable_plan : bool) (grace_window now : Z)
  (max_batch_updates : Z) (state : SessionAccess.TenantState) (mode : SessionAccess.SessionAccessMode).

(** ** Reading *)
Definition validateNode (id : string) : M Db unit :=
  let! ok := gets (λ d, bool_decide (id ∈ nodes d)) in
  lift (throw_if (negb ok) (server_err Error.INVALID_PARENT)).

Definition validateAction (id : string) : M Db unit :=
  let! row := gets (λ d, rows d !! id) in
  lift (throw_if (bool_decide (row = None)) (server_err Error.INVALID_ACTION)).

Definition getAction (id : string) : M Db Message :=
  let! row := gets (λ d, rows d !! id) in
  match row with
  | None => lift (Throw (server_err Error.NOT_FOUND))
  | Some row => lift (Actions.assign tz id row)
  end.

(** ** Statements *)

(** [UPDATE action SET ... WHERE id=?], the affected rows. *)
Definition update_row (id : string) (f : ActionRow → ActionRow) : M Db Z :=
  let! row := gets (λ d, rows d !! id) in
  match row with
  | None => mret 0
  | Some row => let! _ := modify (set_rows <[id := f row]>) in mret 1
  end.

(** The foreign keys of the table; a row may refer to itself. *)
Definition references_ok (id : string) (row : ActionRow) (d : Db) : bool :=
  match r_node row with Some n => bool_decide (n ∈ nodes d) | None => true end
  && match r_origin row with Some o => bool_decide (o = id ∨ is_Some (rows d !! o)) | None => true end
  && match r_category row with Some c => bool_decide (is_Some (categories d !! c)) | None => true end.

Definition check_references (id : string) (row : ActionRow) : M Db unit :=
  let! ok := gets (references_ok id row) in lift (throw_if (negb ok) runtime_error).

Definition insert_action (a : Message) : M Db unit :=
  let! row := lift (prepareBindingArgs tz a (Some (node (rest a))) 1) in
  let! old := gets (λ d, rows d !! id a) in
  let! _ := lift (throw_if (bool_decide (old ≠ None)) runtime_error) in
  let! _ := check_references (id a) row in
  modify (set_rows <[id a := row]>).

Definition reserveAddition (amount : Z) : M Db Reservation := λ d,
  let '(u, _, r) := PlanLimits.reserveAddition enable_plan grace_window now amount PlanLimits.ACTION
                      (usage d) in
  lift r (set_usage (λ _, u) d).

Definition commit (r : Reservation) : M Db unit := modify (set_usage (λ u, (PlanLimits.commit r u).2)).

Definition onDeleted (r : PlanResource) : M Db unit :=
  modify (set_usage (PlanLimits.onDeleted enable_plan r 1)).

(** *** Work sessions *)

(** An update of the work sessions, as it happens to the actions: the time
    spent is a statement on the action, which is then read and published. *)
Definition replay_work (u : WorkStore.Update) : M Db unit :=
  match u with
  | WorkStore.upd_work op w => publishLater (upd_work op w)
  | WorkStore.upd_action id t =>
      let! _ := update_row id (row_time_spent t) in
      let! a := getAction id in
      publishLater (upd_action OP_UPDATED a)
  end.

Definition in_work {A} (m : M WorkStore.Db A) : M Db A := λ d,
  match m (work_of d) with
  | Throw e => Throw e
  | Ok (a, w) =>
      (let! _ := for_each replay_work (WorkStore.updates w) in mret a)
        (set_sessions (WorkStore.sessions w) d)
  end.

Definition deleteWorkSession (id : string) : M Db unit :=
  let! _ := in_work (WorkStore.deleteWorkSession id) in
  onDeleted PlanLimits.WORK_SESSION.

(** ** Adding *)
Definition set_node (n : string) (a : Message) : Message := stored_as a n (version (rest a)).

Definition set_id (i : string) (a : Message) : Message :=
  {| id := i; origin := origin a; status := status a; completedTime := completedTime a;
     action_due := action_due a; repeatKind := repeatKind a; repeatUnits := repeatUnits a;
     repeatWhen := repeatWhen a; repeatAfter := repeatAfter a; rest := rest a |}.

Definition set_completed (t : option Z) (a : Message) : Message :=
  {| id := id a; origin := origin a; status := status a; completedTime := t;
     action_due := action_due a; repeatKind := repeatKind a; repeatUnits := repeatUnits a;
     repeatWhen := repeatWhen a; repeatAfter := repeatAfter a; rest := rest a |}.

Definition not_completed (a : Message) : bool := default 0 (completedTime a) =? 0.

Definition addAction (a : Message) : M Db Message :=
  let! _ := lift (throw_if (bool_decide (node (rest a) = EmptyString)) runtime_error) in
  let! _ := validateNode (node (rest a)) in
  let! new := gets (λ d, new_id (dom (rows d))) in
  let a := if bool_decide (id a = EmptyString) then set_id new a else a in
  let a := if bool_decide (status a = Recurrence.DONE) && not_completed a
           then set_completed (Some now) a else a in
  let! _ := lift (SessionAccess.requireWritableForAdd state mode) in
  let a := sanitize_action a in
  let! reservation := reserveAddition 1 in
  let! _ := insert_action a in
  let! a := getAction (id a) in
  let! _ := publishLater (upd_action OP_ADDED a) in
  let! _ := commit reservation in
  mret a.

Definition CreateAction (req : Message) : M Db Message := addAction req.

(** [saveActions]: the actions of a restored backup. *)
Definition saveActions (l : list Message) : M Db unit :=
  let! _ := lift (if bool_decide (l = []) then Ok tt else SessionAccess.requireWritableForAdd state mode) in
  let! reservation := reserveAddition (Z.of_nat (length l)) in
  let! _ := for_each insert_action l in
  commit reservation.

(** ** Deleting *)

(** [UPDATE action SET origin = (SELECT origin ... WHERE id=?) WHERE origin=?] *)
Definition relink (uuid : string) (m : gmap string ActionRow) : gmap string ActionRow :=
  let o := m !! uuid ≫= r_origin in
  (λ row, if bool_decide (r_origin row = Some uuid) then row_origin o row else row) <$> m.

(** What [deleteAction] leaves of a row; the tags, the urgency, the
    importance and the time spent stay. *)
Definition tombstone (row : ActionRow) : ActionRow :=
  {| r_node := None; r_origin := None; r_priority := Some PRI_NORMAL;
     dyn_urgency := dyn_urgency row; dyn_importance := dyn_importance row;
     r_status := Recurrence.DELETED; r_favorite := false; r_name := None; due_kind := UNSET;
     start_time := None; due_by_time := None; due_timezone := None; completed_time := None;
     r_category := None; r_descr := None; time_estimate := None; r_difficulty := NORMAL;
     repeat_kind := NEVER; repeat_unit := Some DAYS; repeat_when := Some AT_DATE; repeat_after := 0;
     time_spent := time_spent row; r_tags := r_tags row; r_version := r_version row + 1 |}.


Definition deleteAction (uuid : string) : M Db unit :=
  let! _ := in_blocks (deleteActionInTimeBlocks uuid) in
  let! wss := gets (λ d, List.filter (λ w, bool_decide (ws_action w = uuid)) (sessions d)) in
  let! _ := for_each (λ w, deleteWorkSession (ws_id w)) wss in
  let! _ := modify (set_rows (relink uuid)) in
  let! affected := update_row uuid tombstone in
  let! a := getAction uuid in
  let! _ := publishLater (upd_action OP_DELETED a) in
  if 0 <? affected then onDeleted PlanLimits.ACTION else mret tt.

Definition DeleteAction (uuid : string) : M Db unit := deleteAction uuid.

(** ** Done and not done *)
Inductive DoneChanged := NO_CHANGE | MARKED_DONE | MARKED_UNDONE.

(** The body of [handleActionDone] around the rules of Recurrence.v. *)
Definition handleActionDone (orig : Message) : M Db unit :=
  let! _ := in_work (WorkStore.endWorkSessionForAction autostart now (id orig)) in
  let! new := gets (λ d, new_id (dom (rows d))) in
  let! cloned := lift (Recurrence.handleActionDone locate_zone orig new uctx) in
  match cloned with
  | None => mret tt
  | Some a => let! _ := addAction a in mret tt
  end.

(** The actions [handleActionActive] deletes. *)
Definition untouched_children (uuid : string) (d : Db) : list string :=
  map fst (List.filter (λ p : string * ActionRow,
             bool_decide (r_origin p.2 = Some uuid) && (r_version p.2 =? 1)) (map_to_list (rows d))).

Definition handleActionActive (orig : Message) : M Db unit :=
  let! drows := gets (untouched_children (id orig)) in
  let! _ := lift (throw_if (1 <? Z.of_nat (length drows)) undefined) in
  for_each deleteAction drows.

Definition replyWithAction (uuid : string) (done : DoneChanged) (op : Op) : M Db Message :=
  let! a := getAction uuid in
  let! _ := publishLater (upd_action op a) in
  let! _ := match done with
            | MARKED_DONE => handleActionDone a
            | MARKED_UNDONE => handleActionActive a
            | NO_CHANGE => mret tt
            end in
  mret a.

(** What a reply says: the action, an error, or nothing. *)
Inductive Reply := reply_action (a : Message) | reply_error (e : Error.t) | reply_empty.

Definition reply_if_one (affected : Z) (uuid : string) (done : DoneChanged) (op : Op)
    (otherwise : Reply) : M Db Reply :=
  if affected =? 1 then let! a := replyWithAction uuid done op in mret (reply_action a)
  else mret otherwise.

Definition MarkActionAsDone (uuid : string) (done activeonly : bool) : M Db Reply :=
  let when := if done then local_or_null tz (Some now) else None in
  let s := if done then Recurrence.DONE else Recurrence.ACTIVE in
  let! row := gets (λ d, rows d !! uuid) in
  let skip := activeonly && match row with
                            | Some r => negb (bool_decide (r_status r = Recurrence.ACTIVE))
                            | None => true
                            end in
  let! affected := (if skip then mret 0 else update_row uuid (row_done s when)) in
  reply_if_one affected uuid (if done then MARKED_DONE else MARKED_UNDONE) OP_UPDATED
    (if activeonly then reply_empty else reply_error Error.GENERIC_ERROR).

Definition MarkActionAsFavorite (uuid : string) (favorite : bool) : M Db Reply :=
  let! affected := update_row uuid (row_favorite favorite) in
  reply_if_one affected uuid NO_CHANGE OP_UPDATED (reply_error Error.GENERIC_ERROR).

Definition MoveAction (action_uuid node_uuid : string) : M Db Reply :=
  let! _ := validateNode node_uuid in
  let! _ := validateAction action_uuid in
  let! row := gets (λ d, rows d !! action_uuid) in
  let stays := match row ≫= r_node with
               | Some n => bool_decide (n = node_uuid)
               | None => true   (* NULL != ? is not true *)
               end in
  let! affected := (if stays then mret 0 else update_row action_uuid (row_node node_uuid)) in
  reply_if_one affected action_uuid NO_CHANGE OP_MOVED (reply_error Error.GENERIC_ERROR).

(** ** Updating *)
Definition UpdateAction (req : Message) : M Db Reply :=
  let! _ := lift (throw_if (bool_decide (node (rest req) = EmptyString)) runtime_error) in
  let! existing := gets (λ d, rows d !! id req) in
  let! row := lift (match existing with Some r => Ok r | None => Throw (server_err Error.NOT_FOUND) end) in
  let! current_node := lift (match r_node row with Some n => Ok n | None => Throw runtime_error end) in
  let! _ := lift (throw_if (negb (bool_decide (current_node = node (rest req))))
                           (server_err Error.CONSTRAINT_FAILED)) in
  let! _ := validateNode (node (rest req)) in
  let is_done := bool_decide (status req = Recurrence.DONE) in
  let '(new_action, done) :=
    if is_done && not_completed req then (set_completed (Some now) req, MARKED_DONE)
    else if negb is_done && negb (not_completed req) then (set_completed None req, MARKED_UNDONE)
    else (req, NO_CHANGE) in
  let new_action := sanitize_action new_action in
  let! new_row := lift (prepareBindingArgs tz new_action (r_node row) (r_version row + 1)) in
  let! _ := check_references (id req) new_row in
  let! affected := update_row (id req) (λ _, new_row) in
  reply_if_one affected (id req) done OP_UPDATED (reply_error Error.GENERIC_ERROR).

(** [pb::UpdateActionsReq]: one field for each [optional]. *)
Record UpdateActionsReq := {
  q_actions : list string;
  q_due : option Due;
  q_priority : option ActionPriority;
  q_status : option ActionStatus;
  q_favorite : option bool;
  q_category : option string;
  q_difficulty : option ActionDifficulty;
  q_timeEstimate : option Z;
  q_dynamicPriority : option Priority
}.

(** The priority the request sets, if it sets one. *)
Definition priorityValue (req : UpdateActionsReq) : option Priority :=
  match q_dynamicPriority req, q_priority req with
  | Some p, _ => Some p
  | None, Some p => Some (priority p)
  | None, None => None
  end.

(** [isfinite] and the range 0 to 10. *)
Definition urgency_ok (f : float) : bool :=
  match f with not_finite => false | fin q => Qle_bool 0 q && Qle_bool q 10 end.

Definition check_priority (p : Priority) : result unit :=
  match p with
  | priority p => throw_if (bool_decide (p = PRI_OTHER)) (server_err Error.INVALID_ARGUMENT)
  | urgencyImportance u i => throw_if (negb (urgency_ok u && urgency_ok i)) (server_err Error.INVALID_ARGUMENT)
  | what_not_set => Throw (server_err Error.INVALID_ARGUMENT)
  end.

Definition unset {A} (o : option A) : bool := match o with None => true | Some _ => false end.

(** With nothing to set the statement is [UPDATE action SET  WHERE ...]. *)
Definition nothing_to_set (req : UpdateActionsReq) : bool :=
  unset (q_due req) && unset (priorityValue req) && unset (q_favorite req)
  && unset (q_category req) && unset (q_difficulty req) && unset (q_timeEstimate req).

(** The columns one round of the loop of [UpdateActions] sets. *)
Definition patch_row (req : UpdateActionsReq) (row : ActionRow) : result ActionRow :=
  let due := match q_due req with
             | Some d => let d := sanitize d in
                 (kind d, time_or_null (start d), time_or_null (Recurrence.due d), toStringOrNull (timezone d))
             | None => (due_kind row, start_time row, due_by_time row, due_timezone row)
             end in
  let! p := match priorityValue req with
            | Some (urgencyImportance u i) => bind_dynamic_priority (urgencyImportance u i)
            | Some p => bind_dynamic_priority p
            | None => Ok (r_priority row, dyn_urgency row, dyn_importance row)
            end in
  let! diff := match q_difficulty req with
               | Some x => bind_difficulty x
               | None => Ok (r_difficulty row)
               end in
  let row := set_plan due.1.1.1 due.1.1.2 due.1.2 due.2 p diff
               (match q_timeEstimate req with Some t => Some t | None => time_estimate row end) row in
  let row := set_state (r_status row) (completed_time row) (default (r_favorite row) (q_favorite req))
               (time_spent row) row in
  let row := set_links (r_node row) (r_origin row)
               (match q_category req with Some c => Some c | None => r_category row end) row in
  Ok (bump row).

Definition update_one (req : UpdateActionsReq) (uuid : string) : M Db unit :=
  let! _ := lift (throw_if (nothing_to_set req) runtime_error) in
  let! old := gets (λ d, rows d !! uuid) in
  let! _ := match old with
            | None => mret tt
            | Some row =>
                let! row := lift (patch_row req row) in
                let! _ := check_references uuid row in
                modify (set_rows <[uuid := row]>)
            end in
  let! a := getAction uuid in
  publishLater (upd_action OP_UPDATED a).

Definition UpdateActions (req : UpdateActionsReq) : M Db unit :=
  let! _ := lift (throw_if (max_batch_updates <? Z.of_nat (length (q_actions req)))
                           (server_err Error.INVALID_ARGUMENT)) in
  let! _ := lift (match priorityValue req with Some p => check_priority p | None => Ok tt end) in
  let! _ := lift (throw_if (negb (unset (q_status req))) (server_err Error.GENERIC_ERROR)) in
  for_each (update_one req) (q_actions req).

(** ** Categories *)
Definition addActionCategory (name : string) (descr : string) (color : string) (icon : string)
    : M Db (string * Category) :=
  let! id := gets (λ d, new_id (dom (categories d))) in
  let c := {| c_name := name; c_color := color; c_descr := toStringOrNull descr;
              c_icon := toStringOrNull icon; c_version := 1 |} in
  let! _ := modify (set_categories <[id := c]>) in
  mret (id, c).

Definition CreateActionCategory (name descr color icon : string) : M Db (string * Category) :=
  let! created := addActionCategory name descr color icon in
  let! _ := publishLater (upd_category OP_ADDED created.1 (Some created.2)) in
  mret created.

(** The reply and the update are the request, with the version it has. *)
Definition UpdateActionCategory (id : string) (req : Category) : M Db (option Error.t) :=
  let! old := gets (λ d, categories d !! id) in
  match old with
  | None => mret (Some Error.GENERIC_ERROR)
  | Some old =>
      let! _ := modify (set_categories <[id := {| c_name := c_name req; c_color := c_color req;
                  c_descr := c_descr req; c_icon := c_icon req; c_version := c_version old + 1 |}]>) in
      let! _ := publishLater (upd_category OP_UPDATED id (Some req)) in
      mret None
  end.

(** The foreign keys to the table: SET NULL in [action], CASCADE in
    [time_block] and from there in [time_block_actions]. *)
Definition drop_category (id : string) (d : Db) : Db :=
  let dropped := filter (λ p : string * BlockRow, br_category p.2 = Some id) (blocks d) in
  {| rows := (λ row, if bool_decide (r_category row = Some id) then row_no_category row else row) <$> rows d;
     nodes := nodes d; categories := delete id (categories d);
     blocks := filter (λ p : string * BlockRow, br_category p.2 ≠ Some id) (blocks d);
     block_actions := filter (λ p : string * string, p.1 ∉ dom dropped) (block_actions d);
     sessions := sessions d; usage := usage d; updates := updates d |}.

Definition DeleteActionCategory (id : string) : M Db (option Error.t) :=
  let! old := gets (λ d, categories d !! id) in
  match old with
  | None => mret (Some Error.NOT_FOUND)
  | Some _ =>
      let! _ := modify (drop_category id) in
      let! _ := publishLater (upd_category OP_DELETED id None) in
      mret None
  end.

(** ** What the tables satisfy *)

(** The foreign keys of a row. *)
Definition row_ok (d : Db) (row : ActionRow) : Prop :=
  (∀ n, r_node row = Some n → n ∈ nodes d) ∧
  (∀ o, r_origin row = Some o → o ∈ dom (rows d)) ∧
  (∀ c, r_category row = Some c → c ∈ dom (categories d)).

(** [max_actions] is [svr.time_block_max_actions]. *)
Context (max_actions : Z).

Definition store_inv (d : Db) : Prop :=
  map_Forall (λ _ row, row_ok d row) (rows d) ∧
  TimeBlocks.inv tz max_actions (blocks_of d) ∧ WorkStore.inv (work_of d).

Lemma row_ok_mono d d' row :
  nodes d' = nodes d → dom (rows d) ⊆ dom (rows d') → dom (categories d) ⊆ dom (categories d') →
  row_ok d row → row_ok d' row.
Proof. intros Hn Hr Hc (H1 & H2 & H3). split_and!; rewrite ?Hn; auto. Qed.

(** The invariants of the parts look at parts of the state only. *)
Lemma blocks_inv_mono d d' :
  blocks d' = blocks d → block_actions d' = block_actions d → dom (rows d) ⊆ dom (rows d') →
  TimeBlocks.inv tz max_actions (blocks_of d) → TimeBlocks.inv tz max_actions (blocks_of d').
Proof.
  intros Hb Ha Hr [H1 H2]. split.
  - intros i r. cbn. rewrite Hb. intros Hi. pose proof (H1 i r Hi) as Hok.
    unfold block_ok in *. cbn in *. by rewrite Ha.
  - intros i a. cbn. rewrite Ha, Hb. intros [? ?]%H2. eauto.
Qed.

Lemma work_inv_sessions d d' :
  sessions d' = sessions d → WorkStore.inv (work_of d) → WorkStore.inv (work_of d').
Proof.
  intros Hs. unfold WorkStore.inv, WorkStore.one_active, WorkStore.active. cbn. by rewrite Hs.
Qed.

(** A change of the rows that keeps their foreign keys. *)
Lemma set_rows_inv f d :
  store_inv d → dom (rows d) ⊆ dom (f (rows d)) →
  (∀ i row, f (rows d) !! i = Some row → row_ok (set_rows f d) row) → store_inv (set_rows f d).
Proof.
  intros (_ & Hb & Hw) Hdom Hrow. split_and!; [exact Hrow| |].
  - by apply (blocks_inv_mono d).
  - by apply (work_inv_sessions d).
Qed.

Lemma insert_action_inv i row d :
  store_inv d → row_ok (set_rows <[i := row]> d) row → store_inv (set_rows <[i := row]> d).
Proof.
  intros Hi Hrow. assert (Hdom : dom (rows d) ⊆ dom (<[i := row]> (rows d))) by (rewrite dom_insert; set_solver).
  apply set_rows_inv; [done..|]. intros j r [[<- <-]|[_ Hj]]%lookup_insert_Some; [done|].
  apply (row_ok_mono d); [done|done|done|]. destruct Hi as [Hr _]. by eapply Hr.
Qed.

Lemma publishLater_keeps u : keeps store_inv (publishLater u).
Proof.
  apply keeps_modify. intros d (Hr & Hb & Hw). split_and!.
  - intros i row Hi. exact (Hr i row Hi).
  - by apply (blocks_inv_mono d).
  - by apply (work_inv_sessions d).
Qed.

Lemma set_usage_inv f d : store_inv d → store_inv (set_usage f d).
Proof.
  intros (Hr & Hb & Hw). split_and!.
  - intros i row Hi. exact (Hr i row Hi).
  - by apply (blocks_inv_mono d).
  - by apply (work_inv_sessions d).
Qed.

Lemma commit_keeps r : keeps store_inv (commit r).
Proof. apply keeps_modify. intros d. apply set_usage_inv. Qed.

Lemma onDeleted_keeps r : keeps store_inv (onDeleted r).
Proof. apply keeps_modify. intros d. apply set_usage_inv. Qed.

Lemma reserveAddition_result n d r d' :
  reserveAddition n d = Ok (r, d') → ∃ u, d' = set_usage (λ _, u) d.
Proof.
  clear locate_zone.
  unfold reserveAddition. destruct (PlanLimits.reserveAddition _ _ _ _ _ _) as [[u b] [x|e]]; cbn; [|done].
  intros [= _ <-]. eauto.
Qed.

Lemma reserveAddition_keeps n : keeps store_inv (reserveAddition n).
Proof. intros d r d' Hi (u & ->)%reserveAddition_result. by apply set_usage_inv. Qed.

Lemma getAction_Ok i d a d' :
  getAction i d = Ok (a, d') ↔ d' = d ∧ ∃ row, rows d !! i = Some row ∧ Actions.assign tz i row = Ok a.
Proof.
  clear locate_zone.
  unfold getAction. cbv [gets mbind M_bind]. destruct (rows d !! i) as [row|]; [|naive_solver].
  rewrite lift_Ok. naive_solver.
Qed.

Lemma getAction_keeps i : keeps store_inv (getAction i).
Proof. by intros d a d' Hi [-> _]%getAction_Ok. Qed.

Lemma validateNode_Ok n d u d' : validateNode n d = Ok (u, d') ↔ d' = d ∧ n ∈ nodes d.
Proof.
  clear locate_zone.
  unfold validateNode, gets, lift, throw_if. cbv [mbind M_bind]. destruct u.
  case_bool_decide; cbn; naive_solver.
Qed.

Lemma update_row_Ok i f d n d' :
  update_row i f d = Ok (n, d') ↔
  (rows d !! i = None ∧ n = 0 ∧ d' = d) ∨
  (∃ row, rows d !! i = Some row ∧ n = 1 ∧ d' = set_rows <[i := f row]> d).
Proof.
  clear locate_zone.
  unfold update_row. cbv [gets mbind M_bind modify mret M_ret].
  destruct (rows d !! i) as [row|]; naive_solver.
Qed.

(** A statement that leaves the foreign keys as they are. *)
Definition same_links (f : ActionRow → ActionRow) : Prop :=
  ∀ row, r_node (f row) = r_node row ∧ r_origin (f row) = r_origin row ∧ r_category (f row) = r_category row.

Lemma row_ok_links d row row' :
  row_ok d row → r_node row' = r_node row → r_origin row' = r_origin row →
  r_category row' = r_category row → row_ok d row'.
Proof. intros (H1 & H2 & H3) Hn Ho Hc. split_and!; rewrite ?Hn, ?Ho, ?Hc; auto. Qed.

Lemma dom_insert_row i row d : dom (rows d) ⊆ dom (rows (set_rows <[i := row]> d)).
Proof. cbn. rewrite dom_insert. set_solver. Qed.

Lemma update_row_keeps i f : same_links f → keeps store_inv (update_row i f).
Proof.
  intros Hf d n d' Hi [(_ & _ & ->)|(row & Hrow & _ & ->)]%update_row_Ok; [done|].
  apply insert_action_inv; [done|]. destruct (Hf row) as (? & ? & ?).
  eapply row_ok_links; [|done..]. apply (row_ok_mono d); [done|apply dom_insert_row|done|].
  destruct Hi as [Hr _]. by eapply Hr.
Qed.

Lemma check_references_Ok i row d u d' :
  check_references i row d = Ok (u, d') → d' = d ∧ row_ok (set_rows <[i := row]> d) row.
Proof.
  clear locate_zone.
  unfold check_references, gets, lift, throw_if. cbv [mbind M_bind].
  destruct (references_ok i row d) eqn:Hr; [|done]. intros [= _ <-]. split; [done|].
  unfold references_ok in Hr. apply andb_true_iff in Hr as [[Hn Ho]%andb_true_iff Hc].
  split_and!.
  - intros n Hx. rewrite Hx in Hn. by apply bool_decide_eq_true in Hn.
  - intros o Hx. rewrite Hx in Ho. apply bool_decide_eq_true in Ho. cbn. rewrite dom_insert.
    destruct Ho as [->|Ho%elem_of_dom]; set_solver.
  - intros c Hx. rewrite Hx in Hc. apply bool_decide_eq_true in Hc. by apply elem_of_dom.
Qed.

Lemma work_inv_ext w1 w2 :
  WorkStore.sessions w2 = WorkStore.sessions w1 → WorkStore.inv w1 → WorkStore.inv w2.
Proof. intros Hs. unfold WorkStore.inv, WorkStore.one_active, WorkStore.active. by rewrite Hs. Qed.

Lemma set_sessions_inv l d :
  store_inv d → WorkStore.inv (work_of (set_sessions l d)) → store_inv (set_sessions l d).
Proof.
  intros (Hr & Hb & _) Hw. split_and!; [|by apply (blocks_inv_mono d)|done].
  intros i row Hi. exact (Hr i row Hi).
Qed.

Lemma row_time_spent_links t : same_links (row_time_spent t).
Proof. done. Qed.
Lemma row_done_links s t : same_links (row_done s t).
Proof. done. Qed.
Lemma row_favorite_links b : same_links (row_favorite b).
Proof. done. Qed.

#[local] Hint Resolve publishLater_keeps commit_keeps onDeleted_keeps reserveAddition_keeps
  getAction_keeps update_row_keeps row_time_spent_links row_done_links row_favorite_links : keeps.

Lemma replay_work_keeps u : keeps store_inv (replay_work u).
Proof. destruct u; cbn [replay_work]; auto 6 with keeps. Qed.

Lemma in_work_keeps {A} (m : M WorkStore.Db A) :
  keeps WorkStore.inv m → keeps store_inv (in_work m).
Proof.
  intros Hm d a d' Hi Hr. unfold in_work in Hr.
  destruct (m (work_of d)) as [[x w]|] eqn:Hw; [|done].
  refine (keeps_bind store_inv _ _ _ _ _ _ _ _ Hr).
  - apply keeps_for_each. intros u _. apply replay_work_keeps.
  - intros []. apply keeps_ret.
  - apply set_sessions_inv; [done|]. apply (work_inv_ext w); [done|].
    eapply Hm; [|exact Hw]. apply Hi.
Qed.

Lemma in_blocks_keeps uuid : keeps store_inv (in_blocks (deleteActionInTimeBlocks uuid)).
Proof.
  apply keeps_zoom. intros d u t (Hr & Hb & Hw) Ht. split_and!.
  - intros i row Hi. exact (Hr i row Hi).
  - pose proof (deleteActionInTimeBlocks_inv tz max_actions uuid _ _ _ Hb Ht) as [H1 H2].
    destruct (deleteActionInTimeBlocks_run uuid (blocks_of d)) as (t' & us & Ht' & Hwo & _).
    rewrite Ht in Ht'. injection Ht' as _ <-. destruct Hwo as (_ & _ & Hk & _).
    split; [exact H1|]. intros i a Hin. apply H2 in Hin. rewrite Hk in Hin. exact Hin.
  - by apply (work_inv_sessions d).
Qed.

Lemma deleteWorkSession_keeps i : keeps store_inv (deleteWorkSession i).
Proof.
  apply keeps_bind; [|auto with keeps]. apply in_work_keeps.
  intros d u d' Hi Hr. by eapply WorkStore.deleteWorkSession_inv.
Qed.

Lemma endWorkSession_keeps i :
  keeps store_inv (in_work (WorkStore.endWorkSessionForAction autostart now i)).
Proof.
  apply in_work_keeps. intros d u d' Hi Hr. by eapply WorkStore.endWorkSessionForAction_inv.
Qed.

Lemma validateNode_keeps n : keeps store_inv (validateNode n).
Proof. by intros d u d' Hi [-> _]%validateNode_Ok. Qed.

Lemma insert_action_keeps a : keeps store_inv (insert_action a).
Proof.
  intros d u d' Hi Hr. unfold insert_action in Hr.
  apply M_bind_Ok in Hr as (row & d1 & [_ ->]%lift_Ok & Hr).
  apply M_bind_Ok in Hr as (old & d1 & [= <- <-] & Hr).
  apply M_bind_Ok in Hr as (? & d1 & [_ ->]%lift_Ok & Hr).
  apply M_bind_Ok in Hr as (? & d1 & [-> Hok]%check_references_Ok & Hr).
  injection Hr as _ <-. by apply insert_action_inv.
Qed.

#[local] Hint Resolve replay_work_keeps in_blocks_keeps deleteWorkSession_keeps endWorkSession_keeps
  validateNode_keeps insert_action_keeps : keeps.

Lemma addAction_keeps a : keeps store_inv (addAction a).
Proof. unfold addAction. auto 30 with keeps. Qed.

Lemma saveActions_keeps l : keeps store_inv (saveActions l).
Proof. unfold saveActions. auto 10 with keeps. Qed.

(** Relinking keeps the foreign keys: what the deleted action came from. *)
Lemma relink_lookup uuid m i :
  relink uuid m !! i =
  (λ row, if bool_decide (r_origin row = Some uuid) then row_origin (m !! uuid ≫= r_origin) row else row)
    <$> m !! i.
Proof. unfold relink. by rewrite lookup_fmap. Qed.

Lemma relink_inv uuid d : store_inv d → store_inv (set_rows (relink uuid) d).
Proof.
  intros Hi. pose proof Hi as [Hr _].
  assert (Hdom : dom (relink uuid (rows d)) = dom (rows d)) by (unfold relink; by rewrite dom_fmap_L).
  apply set_rows_inv; [done|by rewrite Hdom|].
  intros i row. rewrite relink_lookup. intros (r & Hri & ->)%fmap_Some.
  pose proof (Hr i r Hri) as Hok.
  assert (Hok' : row_ok (set_rows (relink uuid) d) r)
    by (apply (row_ok_mono d); [done|cbn; by rewrite Hdom|done|done]).
  case_bool_decide as Ho; [|done]. destruct Hok' as (H1 & H2 & H3). split_and!; [done| |done].
  intros o. cbn. rewrite Hdom. intros (ru & Hru & Hro)%bind_Some. by eapply (Hr uuid ru).
Qed.

Lemma tombstone_keeps uuid : keeps store_inv (update_row uuid tombstone).
Proof.
  intros d n d' Hi [(_ & _ & ->)|(row & Hrow & _ & ->)]%update_row_Ok; [done|].
  by apply insert_action_inv.
Qed.

Lemma deleteAction_keeps uuid : keeps store_inv (deleteAction uuid).
Proof.
  unfold deleteAction.
  apply keeps_bind; [auto with keeps|intros _]. apply keeps_bind; [auto with keeps|intros wss].
  apply keeps_bind; [auto with keeps|intros _].
  apply keeps_bind; [apply keeps_modify, relink_inv|intros _].
  apply keeps_bind; [apply tombstone_keeps|intros n].
  apply keeps_bind; [auto with keeps|intros a]. apply keeps_bind; [auto with keeps|intros _].
  case_if; auto with keeps.
Qed.

#[local] Hint Resolve addAction_keeps deleteAction_keeps : keeps.

Lemma handleActionDone_keeps a : keeps store_inv (handleActionDone a).
Proof.
  unfold handleActionDone. repeat (apply keeps_bind; [auto with keeps|intros ?]).
  case_match; auto with keeps.
Qed.

Lemma handleActionActive_keeps a : keeps store_inv (handleActionActive a).
Proof. unfold handleActionActive. auto 8 with keeps. Qed.

#[local] Hint Resolve handleActionDone_keeps handleActionActive_keeps : keeps.

Lemma reply_if_one_keeps n uuid done op otherwise : keeps store_inv (reply_if_one n uuid done op otherwise).
Proof.
  unfold reply_if_one, replyWithAction. case_if; [|auto with keeps].
  apply keeps_bind; [|auto with keeps].
  apply keeps_bind; [auto with keeps|intros a]. apply keeps_bind; [auto with keeps|intros _].
  apply keeps_bind; [destruct done; auto with keeps|auto with keeps].
Qed.

#[local] Hint Resolve reply_if_one_keeps saveActions_keeps : keeps.

Lemma MarkActionAsDone_keeps uuid done activeonly : keeps store_inv (MarkActionAsDone uuid done activeonly).
Proof.
  unfold MarkActionAsDone. apply keeps_bind; [auto with keeps|intros row].
  apply keeps_bind; [case_if; auto with keeps|auto with keeps].
Qed.

Lemma MarkActionAsFavorite_keeps uuid b : keeps store_inv (MarkActionAsFavorite uuid b).
Proof. unfold MarkActionAsFavorite. auto with keeps. Qed.

Lemma MoveAction_keeps a n : keeps store_inv (MoveAction a n).
Proof.
  intros d r d' Hi Hr. unfold MoveAction in Hr.
  apply M_bind_Ok in Hr as (? & d1 & [-> Hn]%validateNode_Ok & Hr).
  apply M_bind_Ok in Hr as (? & d1 & Hv & Hr).
  assert (d1 = d) as ->.
  { unfold validateAction in Hv. by apply M_bind_Ok in Hv as (? & ? & [= _ <-] & [_ ->]%lift_Ok). }
  apply M_bind_Ok in Hr as (row & d1 & [= <- <-] & Hr).
  apply M_bind_Ok in Hr as (k & d1 & Hm & Hr).
  refine (reply_if_one_keeps _ _ _ _ _ _ _ _ _ Hr).
  match type of Hm with (if ?b then _ else _) _ = _ => destruct b end; [by injection Hm as _ <-|].
  apply update_row_Ok in Hm as [(_ & _ & ->)|(row & Hrow & _ & ->)]; [done|].
  apply insert_action_inv; [done|]. destruct Hi as [Hrs _]. pose proof (Hrs a row Hrow) as Hok.
  apply (row_ok_mono _ (set_rows <[a := row_node n row]> d)) in Hok; [|done|apply dom_insert_row|done].
  destruct Hok as (H1 & H2 & H3). split_and!; [|done..]. by intros ? [= <-].
Qed.

(** A row that replaces one and has its references checked. *)
Lemma replace_row_inv i row d u d1 :
  store_inv d → check_references i row d = Ok (u, d1) → d1 = d ∧ store_inv (set_rows <[i := row]> d).
Proof. intros Hi [-> Hok]%check_references_Ok. split; [done|]. by apply insert_action_inv. Qed.

Lemma UpdateAction_keeps req : keeps store_inv (UpdateAction req).
Proof.
  intros d r d' Hi Hr. unfold UpdateAction in Hr.
  apply M_bind_Ok in Hr as (? & d1 & [_ ->]%lift_Ok & Hr).
  apply M_bind_Ok in Hr as (? & d1 & [= <- <-] & Hr).
  apply M_bind_Ok in Hr as (row & d1 & [_ ->]%lift_Ok & Hr).
  apply M_bind_Ok in Hr as (? & d1 & [_ ->]%lift_Ok & Hr).
  apply M_bind_Ok in Hr as (? & d1 & [_ ->]%lift_Ok & Hr).
  apply M_bind_Ok in Hr as (? & d1 & [-> _]%validateNode_Ok & Hr).
  match type of Hr with (let '(_, _) := ?x in _) _ = _ => destruct x as [new done] end.
  apply M_bind_Ok in Hr as (new_row & d1 & [_ ->]%lift_Ok & Hr).
  apply M_bind_Ok in Hr as (? & d1 & Hc & Hr).
  apply (replace_row_inv _ _ _ _ _ Hi) in Hc as [-> Hi'].
  apply M_bind_Ok in Hr as (k & d1 & Hu & Hr).
  refine (reply_if_one_keeps _ _ _ _ _ _ _ _ _ Hr).
  by apply update_row_Ok in Hu as [(_ & _ & ->)|(? & _ & _ & ->)].
Qed.

Lemma update_one_keeps req uuid : keeps store_inv (update_one req uuid).
Proof.
  unfold update_one. apply keeps_bind; [auto with keeps|intros _].
  apply keeps_bind; [auto with keeps|intros old].
  apply keeps_bind; [|auto with keeps]. destruct old as [row|]; [|auto with keeps].
  intros d u d' Hi Hr. apply M_bind_Ok in Hr as (row' & d1 & [_ ->]%lift_Ok & Hr).
  apply M_bind_Ok in Hr as (? & d1 & Hc & Hr).
  apply (replace_row_inv _ _ _ _ _ Hi) in Hc as [-> Hi']. by injection Hr as _ <-.
Qed.

Lemma UpdateActions_keeps req : keeps store_inv (UpdateActions req).
Proof. pose proof update_one_keeps. unfold UpdateActions. auto 8 with keeps. Qed.

(** *** Categories *)
Lemma set_categories_inv f d :
  (∀ m, (dom m : gset string) ⊆ dom (f m)) → store_inv d → store_inv (set_categories f d).
Proof.
  intros Hf (Hr & Hb & Hw). split_and!; [|by apply (blocks_inv_mono d)|done].
  intros i row Hi. apply (row_ok_mono d); [done|done|apply Hf|]. exact (Hr i row Hi).
Qed.

Lemma dom_insert_cat i c (m : gmap string Category) :
  (dom m : gset string) ⊆ dom (<[i := c]> m).
Proof. rewrite dom_insert. set_solver. Qed.

Lemma CreateActionCategory_keeps n de c ic : keeps store_inv (CreateActionCategory n de c ic).
Proof.
  unfold CreateActionCategory, addActionCategory.
  apply keeps_bind; [|auto with keeps]. apply keeps_bind; [auto with keeps|intros i].
  apply keeps_bind; [|auto with keeps]. apply keeps_modify. intros d.
  apply set_categories_inv, dom_insert_cat.
Qed.

Lemma UpdateActionCategory_keeps i req : keeps store_inv (UpdateActionCategory i req).
Proof.
  unfold UpdateActionCategory. apply keeps_bind; [auto with keeps|intros [old|]]; [|auto with keeps].
  apply keeps_bind; [|auto with keeps]. apply keeps_modify. intros d.
  apply set_categories_inv, dom_insert_cat.
Qed.

Lemma drop_category_rows i d j row' :
  rows (drop_category i d) !! j = Some row' →
  ∃ row, rows d !! j = Some row ∧ r_node row' = r_node row ∧ r_origin row' = r_origin row ∧
         r_category row' = (if bool_decide (r_category row = Some i) then None else r_category row).
Proof.
  cbn. rewrite lookup_fmap. intros (row & Hrow & ->)%fmap_Some. exists row. split; [done|].
  by case_bool_decide.
Qed.

Lemma drop_category_blocks i d j b :
  blocks (drop_category i d) !! j = Some b ↔ blocks d !! j = Some b ∧ br_category b ≠ Some i.
Proof. cbn. by rewrite map_lookup_filter_Some. Qed.

Lemma drop_category_assocs i d j a :
  ((j, a) ∈ block_actions (drop_category i d)) ↔
  ((j, a) ∈ block_actions d) ∧ ∀ b, blocks d !! j = Some b → br_category b ≠ Some i.
Proof.
  cbn. rewrite elem_of_filter. cbn. rewrite not_elem_of_dom, map_lookup_filter_None.
  split.
  - intros [[Hn|Hb] Hin]; (split; [done|]); intros b Hj; [congruence|]. by eapply Hb.
  - intros [Hin Hb]. split; [|done]. destruct (blocks d !! j) eqn:Hj; [|by left].
    right. intros x Hx. by apply Hb.
Qed.

Lemma drop_category_inv i d : store_inv d → store_inv (drop_category i d).
Proof.
  intros (Hr & [Hb Ha] & Hw). split_and!; [| |by apply (work_inv_sessions d)].
  - intros j row' (row & Hrow & Hn & Ho & Hc)%drop_category_rows.
    destruct (Hr j row Hrow) as (H1 & H2 & H3). split_and!; rewrite ?Hn, ?Ho, ?Hc.
    + done.
    + intros o Hx. cbn. rewrite dom_fmap. by apply H2.
    + case_bool_decide as Hd; [done|]. intros c Hx. cbn. rewrite dom_delete. apply elem_of_difference.
      split; [by apply H3|]. rewrite elem_of_singleton. congruence.
  - split.
    + intros j b [Hj Hc]%drop_category_blocks Hk. destruct (Hb j b Hj Hk) as (? & Hia & ? & ?).
      split_and!; [done| |done..]. intros a. cbn [blocks_of TimeBlocks.time_block_actions].
      rewrite drop_category_assocs, <- Hia. cbn. split; [tauto|]. intros Hin. split; [done|].
      intros b' Hj'. congruence.
    + intros j a [Hin Hnc]%drop_category_assocs. apply Ha in Hin as [[b Hj] Hk]. split.
      * exists b. apply drop_category_blocks. split; [exact Hj|]. by apply Hnc.
      * cbn in *. by rewrite dom_fmap.
Qed.

Lemma DeleteActionCategory_keeps i : keeps store_inv (DeleteActionCategory i).
Proof.
  unfold DeleteActionCategory. apply keeps_bind; [auto with keeps|intros [old|]]; [|auto with keeps].
  apply keeps_bind; [|auto with keeps]. apply keeps_modify. intros d. apply drop_category_inv.
Qed.

(** *** Histories *)
Inductive Request :=
| Create (a : Message)
| Restore (l : list Message)
| Update_action (a : Message)
| Update_actions (req : UpdateActionsReq)
| Delete (uuid : string)
| Mark_done (uuid : string) (done activeonly : bool)
| Mark_favorite (uuid : string) (b : bool)
| Move (a n : string)
| Create_category (n de c ic : string)
| Update_category (i : string) (c : Category)
| Delete_category (i : string).

Definition handle (r : Request) : M Db unit :=
  match r with
  | Create a => let! _ := CreateAction a in mret tt
  | Restore l => saveActions l
  | Update_action a => let! _ := UpdateAction a in mret tt
  | Update_actions req => UpdateActions req
  | Delete uuid => DeleteAction uuid
  | Mark_done uuid done activeonly => let! _ := MarkActionAsDone uuid done activeonly in mret tt
  | Mark_favorite uuid b => let! _ := MarkActionAsFavorite uuid b in mret tt
  | Move a n => let! _ := MoveAction a n in mret tt
  | Create_category n de c ic => let! _ := CreateActionCategory n de c ic in mret tt
  | Update_category i c => let! _ := UpdateActionCategory i c in mret tt
  | Delete_category i => let! _ := DeleteActionCategory i in mret tt
  end.

(** C6: Whatever the handlers of actions and categories do, across the
    tables they share with the time blocks and the work sessions: every
    action refers to nodes, actions and categories that exist, the time
    blocks agree with their associations, and at most one work session is
    active. *)
Theorem action_store_consistent d rs :
  store_inv d → store_inv (foldl (λ d r, after (handle r) d) d rs).
Proof.
  revert d. induction rs as [|r rs IH]; intros d Hi; [done|]. apply IH, keeps_after; [|done].
  pose proof MarkActionAsDone_keeps. pose proof MarkActionAsFavorite_keeps. pose proof MoveAction_keeps.
  pose proof UpdateAction_keeps. pose proof UpdateActions_keeps. pose proof CreateActionCategory_keeps.
  pose proof UpdateActionCategory_keeps. pose proof DeleteActionCategory_keeps.
  destruct r; cbn [handle]; unfold CreateAction, DeleteAction; auto with keeps.
Qed.

(** ** What deleting an action does *)

(** Two states that differ in the work sessions, the counters and the
    updates only. *)
Definition same_tables (d d' : Db) : Prop :=
  rows d' = rows d ∧ nodes d' = nodes d ∧ categories d' = categories d ∧
  blocks d' = blocks d ∧ block_actions d' = block_actions d.

Lemma deleteWorkSession_in_work i d w :
  w ∈ sessions d → ws_id w = i →
  ∃ d', deleteWorkSession i d = Ok (tt, d') ∧ same_tables d d' ∧
    sessions d' = (λ r, if WorkStore.has_id i r then WorkStore.deleted_row r else r) <$> sessions d.
Proof.
  intros Hw Hi. destruct (WorkStore.deleteWorkSession_run i (work_of d) w Hw Hi) as (x & Hr).
  unfold deleteWorkSession, in_work. cbv [mbind M_bind]. rewrite Hr.
  eexists. split; [done|]. split; [done|reflexivity].
Qed.

(** The loop of [deleteAction] over the sessions of the action. *)
Lemma delete_sessions_run uuid l d :
  uuid ≠ EmptyString → (∀ w, w ∈ l → ∃ w', w' ∈ sessions d ∧ ws_id w' = ws_id w) →
  (∀ w, w ∈ sessions d → ws_action w = uuid → ws_id w ∈ ws_id <$> l) →
  ∃ d', for_each (λ w, deleteWorkSession (ws_id w)) l d = Ok (tt, d') ∧ same_tables d d' ∧
    ∀ w, w ∈ sessions d' → ws_action w ≠ uuid.
Proof.
  intros Hu. revert d. induction l as [|w l IH]; intros d Hl Ha.
  - exists d. split; [done|]. split; [done|]. intros w Hw He. apply (Ha w Hw) in He. by apply not_elem_of_nil in He.
  - destruct (Hl w) as (w' & Hw' & Hi'); [left|].
    destruct (deleteWorkSession_in_work _ d w' Hw' Hi') as (d1 & Hr & Ht & Hs).
    destruct (IH d1) as (d2 & Hr2 & Ht2 & Hn).
    + intros v Hv. destruct (Hl v) as (v' & Hv' & Hi); [by right|].
      rewrite Hs. eexists. split; [by apply list_elem_of_fmap_2|]. by case_if.
    + intros v. rewrite Hs. intros (r & -> & Hr')%list_elem_of_fmap. unfold WorkStore.has_id.
      case_bool_decide as Hid; cbn; [by intros <-|]. intros He. apply (Ha r Hr') in He. cbn in He.
      apply elem_of_cons in He as [?|?]; [congruence|done].
    + exists d2. cbn [for_each]. rewrite M_bind_Ok. split; [by exists (), d1|]. split; [|done].
      destruct Ht as (? & ? & ? & ? & ?), Ht2 as (? & ? & ? & ? & ?). split_and!; congruence.
Qed.

Lemma tombstone_assign uuid row : is_ok (Actions.assign tz uuid (tombstone row)) = true.
Proof. done. Qed.

(** Deleting an action always succeeds and takes with it what refers to
    it: its row is emptied, no work session and no time block names it any
    more, and the actions that came from it come from what it came from; no
    other action changes. *)
Theorem deleteAction_exact uuid d row :
  store_inv d → uuid ≠ EmptyString → rows d !! uuid = Some row → r_origin row ≠ Some uuid →
  ∃ d', deleteAction uuid d = Ok (tt, d') ∧
    rows d' = <[uuid := tombstone row]>
                ((λ r, if bool_decide (r_origin r = Some uuid) then row_origin (r_origin row) r else r)
                   <$> rows d) ∧
    (∀ i r, rows d' !! i = Some r → r_origin r ≠ Some uuid) ∧
    (∀ w, w ∈ sessions d' → ws_action w ≠ uuid) ∧
    (∀ i b, blocks d' !! i = Some b → br_kind b ≠ BLOCK_DELETED → uuid ∉ listed b) ∧
    (∃ a, last (updates d') = Some (upd_action OP_DELETED a) ∧ id a = uuid ∧ status a = Recurrence.DELETED).
Proof.
  intros Hi Hu Hrow Ho. pose proof Hi as (_ & Hb & _).
  destruct (deleteActionInTimeBlocks_exact tz max_actions uuid _ Hb) as (t & us & Ht & _ & Hlive & _ & Hdom).
  destruct (deleteActionInTimeBlocks_run uuid (blocks_of d)) as (t' & us' & Ht' & (Hwb & _) & _).
  rewrite Ht in Ht'. injection Ht' as <-.
  set (d1 := with_blocks t d).
  destruct (delete_sessions_run uuid (List.filter (λ w, bool_decide (ws_action w = uuid)) (sessions d)) d1)
    as (d2 & Hr2 & (Hrows & Hn & Hc & Hbl & Hba) & Hs); [done| | |].
  { intros w [Hw _]%list_elem_of_In%List.filter_In. exists w. split; [by apply list_elem_of_In|done]. }
  { intros w Hw He. apply list_elem_of_fmap_2, list_elem_of_In, List.filter_In.
    split; [by apply list_elem_of_In|]. by apply bool_decide_eq_true. }
  set (m := (λ r, if bool_decide (r_origin r = Some uuid) then row_origin (r_origin row) r else r) <$> rows d).
  assert (Hrel : relink uuid (rows d2) = m).
  { unfold relink. rewrite Hrows. cbn. by rewrite Hrow. }
  assert (Hm : m !! uuid = Some row).
  { unfold m. rewrite lookup_fmap, Hrow. cbn. by rewrite bool_decide_false. }
  assert (Hta : ∃ a, Actions.assign tz uuid (tombstone row) = Ok a ∧ id a = uuid ∧ status a = Recurrence.DELETED)
    by (by eexists).
  destruct Hta as (a & Ha & Hai & Has).
  set (d3 := set_rows <[uuid := tombstone row]> (set_rows (relink uuid) d2)).
  assert (Hrun : deleteAction uuid d =
    Ok (tt, set_usage (PlanLimits.onDeleted enable_plan PlanLimits.ACTION 1)
              (after (publishLater (upd_action OP_DELETED a)) d3))).
  { unfold deleteAction. rewrite M_bind_Ok. exists (), d1. split; [unfold in_blocks, zoom; by rewrite Ht|].
    rewrite M_bind_Ok. eexists _, d1. split; [done|]. rewrite M_bind_Ok. exists (), d2. split; [exact Hr2|].
    rewrite M_bind_Ok. eexists (), _. split; [done|]. rewrite M_bind_Ok. exists 1, d3. split.
    { apply update_row_Ok. right. exists row. split; [|done]. cbn. by rewrite Hrel. }
    rewrite M_bind_Ok. exists a, d3. split; [|by rewrite M_bind_Ok; eexists (), _].
    apply getAction_Ok. split; [done|]. exists (tombstone row). split; [|done]. cbn. by rewrite lookup_insert_eq. }
  eexists. split; [exact Hrun|]. cbn. rewrite Hrel. fold m. split_and!.
  - done.
  - intros i r [[<- <-]|[_ Hir]]%lookup_insert_Some; [done|].
    unfold m in Hir. rewrite lookup_fmap in Hir. apply fmap_Some in Hir as (r0 & _ & ->).
    case_bool_decide; [|done]. exact Ho.
  - exact Hs.
  - intros i b. rewrite Hbl. cbn. intros Hib Hk Hin.
    assert (Hd : i ∈ dom (TimeBlocks.blocks t)) by (by apply elem_of_dom_2 in Hib).
    rewrite Hdom in Hd. apply elem_of_dom in Hd as [b0 Hb0].
    destruct (decide (br_kind b0 = BLOCK_DELETED)) as [Hk0|Hk0].
    + rewrite Hwb in Hib. apply fmap_Some in Hib as (r & Hr & ->). cbn in Hr, Hb0.
      assert (r = b0) as -> by congruence. by case_decide.
    + specialize (Hlive i b0 Hb0 Hk0). case_decide.
      * destruct Hlive as (Hb' & Hnin & _). assert (b = set_row_actions (erase uuid (listed b0)) b0) as -> by congruence.
        by rewrite listed_set in Hin.
      * congruence.
  - exists a. split; [|done]. by rewrite last_snoc.
Qed.

(** ** Completing an action *)

(** Ending work sessions touches the rows of actions only in their time and
    version. *)
Definition same_actions (d d' : Db) : Prop :=
  dom (rows d') = dom (rows d) ∧ nodes d' = nodes d ∧ categories d' = categories d ∧
  ∀ i row, rows d !! i = Some row → ∃ row', rows d' !! i = Some row' ∧ r_origin row' = r_origin row ∧
    r_status row' = r_status row ∧ completed_time row' = completed_time row.

Lemma same_rows d d' :
  rows d' = rows d → nodes d' = nodes d → categories d' = categories d → same_actions d d'.
Proof. intros Hr Hn Hc. split_and!; [by rewrite Hr|done..|]. rewrite Hr. eauto. Qed.

Lemma same_actions_trans d1 d2 d3 : same_actions d1 d2 → same_actions d2 d3 → same_actions d1 d3.
Proof.
  intros (H1 & H2 & H3 & H4) (G1 & G2 & G3 & G4). split_and!; [congruence..|].
  intros i row Hi. destruct (H4 i row Hi) as (r2 & Hr2 & ? & ? & ?).
  destruct (G4 i r2 Hr2) as (r3 & Hr3 & ? & ? & ?). exists r3. split_and!; congruence.
Qed.

Lemma replay_same d0 u : keeps (same_actions d0) (replay_work u).
Proof.
  intros d x d' Hs Hr. apply (same_actions_trans _ _ _ Hs). destruct u as [op w|i t]; cbn [replay_work] in Hr.
  - injection Hr as _ <-. by apply same_rows.
  - apply M_bind_Ok in Hr as (n & d1 & Hu & Hr). apply M_bind_Ok in Hr as (a & d2 & [-> _]%getAction_Ok & Hr).
    injection Hr as _ <-.
    apply update_row_Ok in Hu as [(_ & _ & ->)|(row & Hrow & _ & ->)]; [by apply same_rows|].
    split_and!; [|done|done|].
    + cbn. rewrite dom_insert_L. apply elem_of_dom_2 in Hrow. set_solver.
    + intros j r Hj. cbn. destruct (decide (j = i)) as [->|].
      * rewrite lookup_insert_eq. eexists. split; [done|]. assert (r = row) as -> by congruence. done.
      * rewrite lookup_insert_ne by done. eauto.
Qed.

Lemma in_work_same {A} (m : M WorkStore.Db A) d a d' : in_work m d = Ok (a, d') → same_actions d d'.
Proof.
  unfold in_work. destruct (m (work_of d)) as [[x w]|]; [|done]. intros Hr.
  refine (keeps_bind (same_actions d) _ _ _ _ _ _ _ _ Hr).
  - apply keeps_for_each. intros u _. apply replay_same.
  - intros []. apply keeps_ret.
  - by apply same_rows.
Qed.

(** What [addAction] adds. *)
Lemma addAction_run a d b d' :
  addAction a d = Ok (b, d') → id a ≠ EmptyString → status a = Recurrence.ACTIVE →
  rows d !! id a = None ∧ node (rest a) ∈ nodes d ∧
  ∃ row, prepareBindingArgs tz (sanitize_action a) (Some (node (rest a))) 1 = Ok row ∧
         rows d' = <[id a := row]> (rows d) ∧ Actions.assign tz (id a) row = Ok b.
Proof.
  intros Hr Hid Hst. unfold addAction in Hr.
  apply M_bind_Ok in Hr as (? & d1 & [_ ->]%lift_Ok & Hr).
  apply M_bind_Ok in Hr as (? & d1 & [-> Hn]%validateNode_Ok & Hr).
  apply M_bind_Ok in Hr as (? & d1 & [= <- <-] & Hr).
  rewrite (bool_decide_false (id a = EmptyString)) in Hr by done.
  rewrite Hst, (bool_decide_false (Recurrence.ACTIVE = Recurrence.DONE)) in Hr by done. cbn [andb] in Hr.
  apply M_bind_Ok in Hr as (? & d1 & [_ ->]%lift_Ok & Hr).
  apply M_bind_Ok in Hr as (r & d1 & (u & ->)%reserveAddition_result & Hr).
  assert (Hsid : id (sanitize_action a) = id a ∧ rest (sanitize_action a) = rest a).
  { unfold sanitize_action. by destruct (has_due (rest a)). }
  destruct Hsid as [Hsid Hsr].
  apply M_bind_Ok in Hr as (? & d1 & Hins & Hr). unfold insert_action in Hins. rewrite Hsid, Hsr in Hins.
  apply M_bind_Ok in Hins as (row & d2 & [Hp ->]%lift_Ok & Hins).
  apply M_bind_Ok in Hins as (old & d2 & [= <- <-] & Hins).
  apply M_bind_Ok in Hins as (? & d2 & [Hold ->]%lift_Ok & Hins).
  apply M_bind_Ok in Hins as (? & d2 & [-> _]%check_references_Ok & Hins). injection Hins as _ <-.
  rewrite Hsid in Hr.
  apply M_bind_Ok in Hr as (b' & d2 & [-> (row' & Hrow & Ha)]%getAction_Ok & Hr).
  apply M_bind_Ok in Hr as (? & d2 & [= _ <-] & Hr).
  apply M_bind_Ok in Hr as (? & d2 & [= _ <-] & Hr). injection Hr as -> <-.
  cbn in Hrow. rewrite lookup_insert_eq in Hrow. injection Hrow as <-.
  split_and!; [|done|by exists row].
  apply throw_if_Ok, bool_decide_eq_false, dec_stable in Hold. exact Hold.
Qed.

(** The columns the bound row has from the message. *)
Lemma prepareBindingArgs_cols a n v row :
  prepareBindingArgs tz a n v = Ok row →
  r_origin row = toStringOrNull (origin a) ∧ r_status row = status a ∧ r_version row = v ∧
  r_node row = n ∧ completed_time row = local_or_null tz (completedTime a) ∧
  time_spent row = Some (timeSpent (rest a)).
Proof.
  clear locate_zone. unfold prepareBindingArgs. intros Hr. inv_ok. subst. done. Qed.

Lemma assign_fields i row a :
  Actions.assign tz i row = Ok a →
  id a = i ∧ repeatKind a = repeat_kind row ∧ timeSpent (rest a) = default 0 (time_spent row).
Proof.
  clear locate_zone. unfold Actions.assign. intros Hr. inv_ok. subst. done. Qed.

Lemma handleActionDone_None (a : Message) i :
  Recurrence.handleActionDone locate_zone a i uctx = Ok None → repeatKind a = NEVER.
Proof. unfold Recurrence.handleActionDone. intros Hr. destruct (repeatKind a); [done|..]; inv_ok; done. Qed.

Lemma handleActionDone_Some (a : Message) i c :
  Recurrence.handleActionDone locate_zone a i uctx = Ok (Some c) → repeatKind a ≠ NEVER.
Proof. unfold Recurrence.handleActionDone. intros Hr Hk. by rewrite Hk in Hr. Qed.

(** [MarkActionAsDone] completes the action, and if it repeats adds
    exactly one occurrence, which is active, comes from it, is at version 1
    and has the time spent on the completed one; nothing asks whether the
    action was done already, so that each further call (without
    [activeonly]) adds another occurrence. *)
Theorem MarkActionAsDone_adds_occurrence uuid d a d' :
  uuid ≠ EmptyString → (∀ X, new_id X ≠ EmptyString) →
  MarkActionAsDone uuid true false d = Ok (reply_action a, d') →
  ∃ row done_row, rows d !! uuid = Some row ∧ rows d' !! uuid = Some done_row ∧
    r_status done_row = Recurrence.DONE ∧ completed_time done_row = local_or_null tz (Some now) ∧
    if bool_decide (repeat_kind row = NEVER) then dom (rows d') = dom (rows d)
    else ∃ i child, (i ∉ dom (rows d)) ∧ rows d' !! i = Some child ∧
      dom (rows d') = {[i]} ∪ dom (rows d) ∧ r_origin child = Some uuid ∧
      r_status child = Recurrence.ACTIVE ∧ r_version child = 1 ∧ completed_time child = None ∧
      time_spent child = Some (default 0 (time_spent row)).
Proof.
  intros Hu Hnew Hr. unfold MarkActionAsDone in Hr. cbn [andb] in Hr.
  apply M_bind_Ok in Hr as (? & d1 & [= <- <-] & Hr).
  apply M_bind_Ok in Hr as (n & d1 & Hup & Hr). unfold reply_if_one in Hr.
  apply update_row_Ok in Hup as [(_ & -> & _)|(row & Hrow & -> & ->)]; [done|]. cbn [Z.eqb Pos.eqb] in Hr.
  apply M_bind_Ok in Hr as (b & d2 & Hr & [= -> <-]). unfold replyWithAction in Hr.
  set (done_row := row_done _ _ row) in Hr.
  apply M_bind_Ok in Hr as (? & d3 & [-> (r' & Hr' & Ha)]%getAction_Ok & Hr).
  cbn in Hr'. rewrite lookup_insert_eq in Hr'. injection Hr' as <-.
  apply M_bind_Ok in Hr as (? & d3 & [= _ <-] & Hr).
  apply M_bind_Ok in Hr as (? & d4 & Hd & [= -> ->]).
  set (d3 := {| rows := _ |}) in Hd. unfold handleActionDone in Hd.
  apply M_bind_Ok in Hd as (? & d5 & (Hdom & Hn & _ & Hsame)%in_work_same & Hd).
  apply M_bind_Ok in Hd as (new & ? & [= <- <-] & Hd).
  assert (Hdom3 : dom (rows d3) = dom (rows d)).
  { cbn. rewrite dom_insert_L. apply elem_of_dom_2 in Hrow. set_solver. }
  destruct (Hsame uuid done_row) as (r5 & Hr5 & Ho5 & Hs5 & Hc5); [cbn; by rewrite lookup_insert_eq|].
  set (i := new_id (dom (rows d5))) in Hd.
  assert (Hi : i ∉ dom (rows d5)) by apply new_id_fresh.
  exists row.
  destruct (assign_fields _ _ _ Ha) as (Hia & Hka & Hta).
  apply M_bind_Ok in Hd as (cloned & ? & [Hcl ->]%lift_Ok & Hd). destruct cloned as [c|].
  - apply M_bind_Ok in Hd as (c' & d6 & Hadd & Heq). injection Heq as Heq; subst d6.
    pose proof (handleActionDone_Some _ _ _ Hcl) as Hk. rewrite Hka in Hk.
    apply handleActionDone_inv in Hcl as (Hci & Hco & Hcs & Hcc & _ & Hcr & _).
    destruct (addAction_run c d5 c' d2) as (Hnone & _ & child & Hp & Hrows & _);
      [exact Hadd|rewrite Hci; apply Hnew|done|].
    destruct (prepareBindingArgs_cols _ _ _ _ Hp) as (Ho & Hs & Hv & _ & Hc & Ht).
    assert (Hsan : origin (sanitize_action c) = origin c ∧ status (sanitize_action c) = status c ∧
      completedTime (sanitize_action c) = completedTime c ∧ rest (sanitize_action c) = rest c)
      by (unfold sanitize_action; by destruct (has_due (rest c))).
    destruct Hsan as (Hs1 & Hs2 & Hs3 & Hs4).
    assert (Hne : i ≠ uuid) by (intros ->; by apply elem_of_dom_2, Hi in Hr5).
    exists r5. rewrite Hrows, Hci, lookup_insert_ne by done.
    rewrite (bool_decide_false (repeat_kind row = NEVER)) by done.
    split_and!; [done|done|by rewrite Hs5|by rewrite Hc5|]. exists i, child. split_and!.
    + by rewrite <- Hdom3, <- Hdom.
    + by rewrite lookup_insert_eq.
    + by rewrite dom_insert_L, Hdom, Hdom3.
    + rewrite Ho, Hs1, Hco, Hia. unfold toStringOrNull. by rewrite bool_decide_false.
    + by rewrite Hs, Hs2, Hcs.
    + done.
    + by rewrite Hc, Hs3, Hcc.
    + by rewrite Ht, Hs4, Hcr, Hta.
  - pose proof (handleActionDone_None _ _ Hcl) as Hk. rewrite Hka in Hk. injection Hd as _ Hd. rewrite <- Hd.
    exists r5. rewrite (bool_decide_true (repeat_kind row = NEVER)) by done.
    split_and!; [done|done|by rewrite Hs5|by rewrite Hc5|by rewrite Hdom, Hdom3].
Qed.

(** ** Updating many actions *)
Lemma update_one_run req i d u d' :
  update_one req i d = Ok (u, d') →
  ∃ row row' a, rows d !! i = Some row ∧ patch_row req row = Ok row' ∧
    rows d' = <[i := row']> (rows d) ∧ nodes d' = nodes d ∧ categories d' = categories d ∧
    blocks d' = blocks d ∧ block_actions d' = block_actions d ∧ sessions d' = sessions d ∧
    usage d' = usage d ∧ updates d' = updates d ++ [upd_action OP_UPDATED a] ∧
    Actions.assign tz i row' = Ok a.
Proof.
  clear locate_zone.
  intros Hr. unfold update_one in Hr.
  apply M_bind_Ok in Hr as (? & d1 & [_ ->]%lift_Ok & Hr).
  apply M_bind_Ok in Hr as (old & d1 & [= <- <-] & Hr).
  apply M_bind_Ok in Hr as (? & d1 & Hup & Hr).
  apply M_bind_Ok in Hr as (a & d2 & [-> (row' & Hrow' & Ha)]%getAction_Ok & Hr).
  injection Hr as _ <-.
  destruct (rows d !! i) as [row|] eqn:Hrow; [|injection Hup as _ <-; congruence].
  apply M_bind_Ok in Hup as (new & d3 & [Hp ->]%lift_Ok & Hup).
  apply M_bind_Ok in Hup as (? & d3 & [-> _]%check_references_Ok & Hup). injection Hup as _ <-.
  cbn in Hrow'. rewrite lookup_insert_eq in Hrow'. injection Hrow' as <-.
  exists row, new, a. done.
Qed.

(** [UpdateActions] is all or nothing: when it returns, the batch was
    within the limit, the priority was valid and no status was asked for;
    every action of the request existed and has exactly the columns of the
    request set, no other action and no other table has changed, and one
    update per action is published in the order of the request. *)
Theorem UpdateActions_exact req d u d' :
  UpdateActions req d = Ok (u, d') → NoDup (q_actions req) →
  Z.of_nat (length (q_actions req)) ≤ max_batch_updates ∧ q_status req = None ∧
  (∀ p, priorityValue req = Some p → check_priority p = Ok tt) ∧
  (∀ i, if decide (i ∈ q_actions req)
        then ∃ row row', rows d !! i = Some row ∧ patch_row req row = Ok row' ∧ rows d' !! i = Some row'
        else rows d' !! i = rows d !! i) ∧
  nodes d' = nodes d ∧ categories d' = categories d ∧ blocks d' = blocks d ∧
  block_actions d' = block_actions d ∧ sessions d' = sessions d ∧ usage d' = usage d ∧
  ∃ msgs, updates d' = updates d ++ map (upd_action OP_UPDATED) msgs ∧ map id msgs = q_actions req.
Proof.
  clear locate_zone.
  intros Hr Hnd. unfold UpdateActions in Hr.
  apply M_bind_Ok in Hr as (? & d1 & [Hlen ->]%lift_Ok & Hr).
  apply M_bind_Ok in Hr as ([] & d1 & [Hp ->]%lift_Ok & Hr).
  apply M_bind_Ok in Hr as (? & d1 & [Hst ->]%lift_Ok & Hr).
  apply throw_if_Ok, Z.ltb_ge in Hlen.
  split; [done|]. split; [by destruct (q_status req)|]. split; [intros p Hpv; by rewrite Hpv in Hp|].
  clear Hlen Hst Hp. revert d u d' Hr. generalize dependent (q_actions req).
  induction l as [|i l IH]; intros Hnd d u d' Hr.
  { injection Hr as _ <-. split_and!; try done. exists []. by rewrite app_nil_r. }
  apply NoDup_cons in Hnd as [Hni Hnd]. cbn [for_each] in Hr.
  apply M_bind_Ok in Hr as ([] & d1 & (row & row' & a & Hrow & Hpatch & Hrows & E1 & E2 & E3 & E4 & E5 & E6 & Hus & Ha)%update_one_run & Hr).
  destruct (IH Hnd _ _ _ Hr) as (Hl & F1 & F2 & F3 & F4 & F5 & F6 & msgs & Hmsgs & Hids).
  split_and!; try congruence.
  - intros j. specialize (Hl j). rewrite Hrows in Hl. destruct (decide (j = i)) as [->|Hne].
    + rewrite decide_True by (by left). rewrite decide_False, lookup_insert_eq in Hl by done. eauto.
    + rewrite lookup_insert_ne in Hl by done.
      destruct (decide (j ∈ l)); [rewrite decide_True by (by right)|rewrite decide_False by set_solver]; done.
  - exists (a :: msgs). rewrite Hmsgs, Hus, <- app_assoc. split; [done|]. cbn. rewrite Hids.
    by destruct (assign_fields _ _ _ Ha) as (-> & _).
Qed.

(** ** Where the handlers surprise *)

(** Marking a deleted action as not done brings it back: active, in no node
    and without a name. *)
Lemma undone_revives_deleted uuid d a d' old :
  rows d !! uuid = Some (tombstone old) →
  MarkActionAsDone uuid false false d = Ok (reply_action a, d') →
  status a = Recurrence.ACTIVE ∧ node (rest a) = EmptyString ∧ name (rest a) = EmptyString.
Proof.
  intros Hrow Hr. unfold MarkActionAsDone in Hr. cbn [andb] in Hr.
  apply M_bind_Ok in Hr as (? & d1 & [= <- <-] & Hr).
  apply M_bind_Ok in Hr as (n & d1 & Hup & Hr). unfold reply_if_one in Hr.
  apply update_row_Ok in Hup as [(Hn & _)|(row & Hrow' & -> & ->)]; [congruence|]. cbn [Z.eqb Pos.eqb] in Hr.
  apply M_bind_Ok in Hr as (b & d2 & Hr & [= -> <-]). unfold replyWithAction in Hr.
  apply M_bind_Ok in Hr as (b & d3 & [-> (r' & Hr' & Ha)]%getAction_Ok & Hr).
  apply M_bind_Ok in Hr as (? & d4 & _ & Hr).
  apply M_bind_Ok in Hr as (? & d5 & _ & Hr). injection Hr as -> _.
  cbn in Hr'. rewrite lookup_insert_eq in Hr'. injection Hr' as <-.
  assert (row = tombstone old) as -> by congruence. by injection Ha as <-.
Qed.

(** deleting a category deletes the time blocks of that category with
    their associations; all that is published is the category, and the plan
    still counts the blocks. *)
Theorem DeleteActionCategory_drops_blocks i d u d' :
  DeleteActionCategory i d = Ok (u, d') → is_Some (categories d !! i) →
  u = None ∧ categories d' = delete i (categories d) ∧
  (∀ j b, blocks d !! j = Some b → br_category b = Some i → blocks d' !! j = None) ∧
  (∀ j b, blocks d !! j = Some b → br_category b ≠ Some i → blocks d' !! j = Some b) ∧
  updates d' = updates d ++ [upd_category OP_DELETED i None] ∧ usage d' = usage d.
Proof.
  intros Hr [c Hc]. unfold DeleteActionCategory in Hr.
  apply M_bind_Ok in Hr as (? & d1 & [= <- <-] & Hr). rewrite Hc in Hr.
  apply M_bind_Ok in Hr as (? & d1 & [= _ <-] & Hr).
  apply M_bind_Ok in Hr as (? & d2 & [= _ <-] & Hr). injection Hr as <- <-.
  split_and!; try done.
  - intros j b Hj Hb. destruct (blocks (drop_category i d) !! j) as [b'|] eqn:E; [|exact E].
    apply drop_category_blocks in E as [E Hn]. congruence.
  - intros j b Hj Hb. by apply drop_category_blocks.
Qed.
End handlers.

(** ** Examples *)
#[local] Instance nonempty_ids : BlockIds.
Proof.
  refine {| new_id X := fresh ({[EmptyString]} ∪ X) |}.
  intros X. pose proof (is_fresh ({[EmptyString]} ∪ X)). set_solver.
Defined.

Lemma nonempty_ids_ok X : new_id X ≠ EmptyString.
Proof. cbn. pose proof (is_fresh ({[EmptyString]} ∪ X)). set_solver. Qed.

Definition get_row (r : result ActionRow) : ActionRow :=
  match r with Ok row => row | Throw _ => tombstone (
    {| r_node := None; r_origin := None; r_priority := None; dyn_urgency := None; dyn_importance := None;
       r_status := Recurrence.DELETED; r_favorite := false; r_name := None; due_kind := UNSET;
       start_time := None; due_by_time := None; due_timezone := None; completed_time := None;
       r_category := None; r_descr := None; time_estimate := None; r_difficulty := NORMAL;
       repeat_kind := NEVER; repeat_unit := None; repeat_when := None; repeat_after := 0;
       time_spent := None; r_tags := None; r_version := 1 |}) end.

(** Two weekly actions in a node, one from the other, and a block and a
    finished session of the first. *)
Definition weekly_row (o : option string) : ActionRow :=
  set_links (Some "n") o (Some "c")
    (row_done Recurrence.ACTIVE None (get_row (prepareBindingArgs cet weekly (Some "n") 1))).

Definition done_session : WorkSession :=
  {| ws_id := "w"; ws_action := "a"; ws_start := 0; ws_end := Some 60; ws_duration := 60; ws_paused := 0;
     ws_state := WorkSession.DONE; ws_version := 1; ws_touched := 0; ws_events := []; ws_name := "w";
     ws_notes := "" |}.

Definition category_block : BlockRow :=
  {| br_name := "morning"; br_start := Some 1709197200; br_end := Some 1709204400;
     br_kind := ACTIONS; br_category := Some "c"; br_actions := Some ["a"]; br_version := 1 |}.

Definition example_db : Db :=
  {| rows := {["a" := weekly_row None; "b" := weekly_row (Some "a")]};
     nodes := {["n"]};
     categories := {["c" := {| c_name := "c"; c_color := "blue"; c_descr := None; c_icon := None;
                               c_version := 1 |}]};
     blocks := {["i" := category_block]}; block_actions := {[("i", "a")]};
     sessions := [done_session]; usage := example_usage; updates := [] |}.

Lemma example_store_inv : store_inv cet 24 example_db.
Proof.
  split_and!.
  - apply map_Forall_insert_2; [|apply map_Forall_singleton];
      (split_and!; intros ? [= <-] || (intros ? [=]); cbn; set_solver).
  - split.
    + intros i r. cbn [blocks_of TimeBlocks.blocks example_db blocks]. intros [<- <-]%lookup_singleton_Some _.
      unfold listed. cbn. split_and!; [repeat constructor; set_solver|set_solver|lia|vm_compute; reflexivity].
    + intros i a. cbn [blocks_of TimeBlocks.time_block_actions example_db block_actions].
      intros [= -> ->]%elem_of_singleton. split; [by eexists|]. cbn. set_solver.
  - split.
    + intros i j (w & Hw & _ & Ha). cbn in Hw. apply list_elem_of_singleton in Hw as ->. done.
    + by constructor.
Qed.

Abbreviation example_handle :=
  (handle cet zones Recurrence.settings WorkStore.no_autostart true 5 example_time 100
     SessionAccess.ACTIVE SessionAccess.FULL_ACCESS).

Lemma action_store_consistent_witness :
  let d := foldl (λ d r, after (example_handle r) d) example_db
             [Mark_done "a" true false; Create weekly; Move "b" "n"; Delete "a"; Delete_category "c"] in
  store_inv cet 24 d ∧ size (rows d) = 3%nat ∧ blocks d = ∅ ∧
  length (filter (λ w, ws_state w = WorkSession.DELETED) (sessions d)) = 1%nat.
Proof.
  cbn zeta. split; [apply action_store_consistent, example_store_inv|].
  split; [vm_compute; reflexivity|]. split; vm_compute; reflexivity.
Defined.

Lemma deleteAction_exact_witness :
  ∃ d', deleteAction cet true "a" example_db = Ok (tt, d') ∧
    (r_origin <$> rows d' !! "b") = Some None ∧
    (∀ w, w ∈ sessions d' → ws_action w ≠ "a") ∧
    (∀ b, blocks d' !! "i" = Some b → "a" ∉ listed b).
Proof.
  destruct (deleteAction_exact cet true 24 "a" example_db (weekly_row None) example_store_inv)
    as (d' & Hr & Hrows & _ & Hs & Hb & _); [done|reflexivity|done|].
  exists d'. split; [exact Hr|]. split; [rewrite Hrows; vm_compute; reflexivity|]. split; [exact Hs|].
  intros b Hib. apply (Hb "i" b Hib). intros Hk.
  assert (Hc : (br_kind <$> blocks (after (deleteAction cet true "a") example_db) !! "i") = Some ACTIONS)
    by (vm_compute; reflexivity).
  unfold after in Hc. rewrite Hr, Hib in Hc. cbn in Hc. congruence.
Defined.

Lemma MarkActionAsDone_adds_occurrence_witness :
  ∃ a d' i child,
    MarkActionAsDone cet zones Recurrence.settings WorkStore.no_autostart true 5 example_time
      SessionAccess.ACTIVE SessionAccess.FULL_ACCESS "b" true false example_db = Ok (reply_action a, d') ∧
    rows d' !! i = Some child ∧ r_origin child = Some "b" ∧ size (rows d') = 3%nat ∧ r_version child = 1.
Proof.
  assert (Hok : ∃ a d', MarkActionAsDone cet zones Recurrence.settings WorkStore.no_autostart true 5 example_time
      SessionAccess.ACTIVE SessionAccess.FULL_ACCESS "b" true false example_db = Ok (reply_action a, d') ∧
      size (rows d') = 3%nat) by (eexists _, _; split; vm_compute; reflexivity).
  destruct Hok as (a & d' & Hr & Hsize).
  destruct (MarkActionAsDone_adds_occurrence cet zones Recurrence.settings WorkStore.no_autostart true 5
    example_time SessionAccess.ACTIVE SessionAccess.FULL_ACCESS "b" example_db a d')
    as (row & done_row & Hrow & _ & _ & _ & Hk); [done|exact nonempty_ids_ok|exact Hr|].
  assert (Hb : repeat_kind <$> rows example_db !! "b" = Some COMPLETED) by (vm_compute; reflexivity).
  rewrite Hrow in Hb. cbn [fmap option_fmap option_map] in Hb.
  assert (Hne : repeat_kind row ≠ NEVER) by congruence.
  rewrite bool_decide_false in Hk by exact Hne.
  destruct Hk as (i & child & _ & Hc & _ & Ho & _ & Hv & _).
  exists a, d', i, child. split; [exact Hr|]. split; [exact Hc|]. split; [exact Ho|]. split; [exact Hsize|exact Hv].
Defined.

Definition example_batch : UpdateActionsReq :=
  {| q_actions := ["a"; "b"]; q_due := None; q_priority := Some PRI_HIGH; q_status := None;
     q_favorite := Some false; q_category := None; q_difficulty := None; q_timeEstimate := Some 5;
     q_dynamicPriority := None |}.

Lemma UpdateActions_exact_witness :
  ∃ d' row', UpdateActions cet 100 example_batch example_db = Ok (tt, d') ∧
    rows d' !! "a" = Some row' ∧ r_priority row' = Some PRI_HIGH ∧ time_estimate row' = Some 5 ∧
    sessions d' = sessions example_db.
Proof.
  assert (Hok : is_ok (UpdateActions cet 100 example_batch example_db) = true) by (vm_compute; reflexivity).
  assert (Hnd : NoDup (q_actions example_batch)) by (repeat constructor; set_solver).
  destruct (UpdateActions cet 100 example_batch example_db) as [[[] d']|] eqn:Hr; [|done].
  destruct (UpdateActions_exact cet 100 example_batch example_db tt d' Hr Hnd)
    as (_ & _ & _ & Hrows & _ & _ & _ & _ & Hs & _).
  specialize (Hrows "a"). rewrite decide_True in Hrows by left.
  destruct Hrows as (row & row' & Hrow & Hp & Hrow').
  assert (Hc : match rows example_db !! "a" with
               | Some r => match patch_row example_batch r with
                           | Ok r' => r_priority r' = Some PRI_HIGH ∧ time_estimate r' = Some 5
                           | Throw _ => False
                           end
               | None => False
               end) by (vm_compute; split; reflexivity).
  rewrite Hrow, Hp in Hc. exists d', row'.
  split; [reflexivity|]. split; [exact Hrow'|]. split; [exact (proj1 Hc)|]. split; [exact (proj2 Hc)|exact Hs].
Defined.

Lemma DeleteActionCategory_drops_blocks_witness :
  ∃ d', DeleteActionCategory "c" example_db = Ok (None, d') ∧ blocks d' !! "i" = None ∧
        length (updates d') = 1%nat.
Proof.
  set (d' := after (DeleteActionCategory "c") example_db).
  assert (Hr : DeleteActionCategory "c" example_db = Ok (None, d')) by (vm_compute; reflexivity).
  destruct (DeleteActionCategory_drops_blocks "c" example_db None d' Hr ltac:(by eexists))
    as (_ & _ & Hb & _ & Hu & _).
  exists d'. split; [exact Hr|]. split; [exact (Hb "i" category_block eq_refl eq_refl)|].
  by rewrite Hu.
Defined.
