(* ===== verification/Import.v ===== *)
(** * Restoring a backup

    [ImportData] of src/src/backend/lib/grpc/Tenants.cpp: all data of the
    user are deleted and the messages of a stream are stored instead, every
    id replaced by a new one.  It composes the tables of nodes (Nodes.v), of
    actions, categories, time blocks and work sessions (ActionStore.v) and of
    days (GreenDays.v), and the counters of the plan.  Everything runs in one
    transaction.  The ids in the messages are uuids in their canonical form.
    The settings in memory, the session manager and the metrics are not
    modelled. *)
From S2P Require Import Prelude Calendar Recurrence LocalTime Actions WorkSession PlanLimits TimeBlocks.
From S2P Require SessionAccess WorkStore Nodes Guards GreenDays ActionStore.

#[local] Open Scope Z_scope.
#[local] Open Scope nextapp_scope.

(** ** Messages *)

(** Nodes, work sessions and time blocks name their user. *)
Record Owned (A : Type) := { o_user : string; o_item : A }.
Arguments o_user {A}.
Arguments o_item {A}.
Arguments Build_Owned {A}.

(** [pb::ActionCategory] *)
Record CategoryMsg := {
  cat_id : string; cat_name : string; cat_color : string; cat_descr : string; cat_icon : string
}.

(** [pb::ImportDataMsg]; [Cfg] are the settings of a user. *)
Inductive ImportDataMsg (Cfg : Type) :=
| request
| user (uuid : string)
| userGlobalSettings (s : Cfg)
| dayColorDefinitions
| days (l : list GreenDays.CompleteDay)
| nodes (l : list (Owned Nodes.NodeMsg))
| actionCategories (l : list CategoryMsg)
| actions (l : list Message)
| workSessions (l : list (Owned WorkSession))
| timeBlocks (l : list (Owned TimeBlock))
| completed (b : bool)
| what_not_set.
Arguments request {Cfg}.
Arguments user {Cfg}.
Arguments userGlobalSettings {Cfg}.
Arguments dayColorDefinitions {Cfg}.
Arguments days {Cfg}.
Arguments nodes {Cfg}.
Arguments actionCategories {Cfg}.
Arguments actions {Cfg}.
Arguments workSessions {Cfg}.
Arguments timeBlocks {Cfg}.
Arguments completed {Cfg}.
Arguments what_not_set {Cfg}.

(** ** The state *)
Record Db (Cfg : Type) := {
  tree : Nodes.Db;
  store : ActionStore.Db;        (* its set of nodes is read from [tree] *)
  day_table : GreenDays.Db;
  user_settings : option Cfg;
  request_state : gmap string Z
}.
Arguments tree {Cfg}.
Arguments store {Cfg}.
Arguments day_table {Cfg}.
Arguments user_settings {Cfg}.
Arguments request_state {Cfg}.
Arguments Build_Db {Cfg}.

(** The six tables of [Mapper]. *)
Inductive Kind := K_USER | K_CATEGORY | K_NODE | K_ACTION | K_WORK | K_BLOCK.

#[export] Instance Kind_eq_dec : EqDecision Kind.
Proof. solve_decision. Defined.

Definition mapping_t : Type := gmap string string.

Record Import (Cfg : Type) := {
  db : Db Cfg;
  mapper : Kind → mapping_t;
  issued : gset string;                    (* what [newUuid] must not return *)
  action_origin : list (string * string);
  node_parent : list (string * string);
  node_category : list (string * string)
}.
Arguments db {Cfg}.
Arguments mapper {Cfg}.
Arguments issued {Cfg}.
Arguments action_origin {Cfg}.
Arguments node_parent {Cfg}.
Arguments node_category {Cfg}.
Arguments Build_Import {Cfg}.

Section import.
Context {Cfg : Type} `{CivilCalendar, BlockIds}.
(** The user, the configuration, the clock, the session, the stamps the
    triggers give, and whether the client has cancelled the call. *)
Context (cuser : string) (tz : TimeZone) (enable_plan : bool) (grace_window now : Z)
  (state : SessionAccess.TenantState) (mode : SessionAccess.SessionAccessMode)
  (stamp cursor : Z) (cancelled : bool).

Abbreviation St := (Import Cfg).

Definition set_db (f : Db Cfg → Db Cfg) (s : St) : St :=
  {| db := f (db s); mapper := mapper s; issued := issued s; action_origin := action_origin s;
     node_parent := node_parent s; node_category := node_category s |}.

Definition set_links (o p c : list (string * string)) (s : St) : St :=
  {| db := db s; mapper := mapper s; issued := issued s; action_origin := o; node_parent := p;
     node_category := c |}.

(** *** The tables as the other components see them *)
Definition set_tree (t : Nodes.Db) : St → St := set_db (λ d,
  {| tree := t; store := store d; day_table := day_table d; user_settings := user_settings d;
     request_state := request_state d |}).

Definition in_tree {A} (m : M Nodes.Db A) : M St A := zoom (λ s, tree (db s)) set_tree m.

Definition in_days {A} (m : M GreenDays.Db A) : M St A := zoom (λ s, day_table (db s)) (λ t, set_db (λ d,
  {| tree := tree d; store := store d; day_table := t; user_settings := user_settings d;
     request_state := request_state d |})) m.

Definition own_nodes (t : Nodes.Db) : gset string :=
  dom (filter (λ kv, Nodes.n_user kv.2 = cuser) (Nodes.nodes t)).

Definition store_of (s : St) : ActionStore.Db :=
  let d := store (db s) in
  {| ActionStore.rows := ActionStore.rows d; ActionStore.nodes := own_nodes (tree (db s));
     ActionStore.categories := ActionStore.categories d; ActionStore.blocks := ActionStore.blocks d;
     ActionStore.block_actions := ActionStore.block_actions d;
     ActionStore.sessions := ActionStore.sessions d; ActionStore.usage := ActionStore.usage d;
     ActionStore.updates := ActionStore.updates d |}.

Definition set_store (t : ActionStore.Db) : St → St := set_db (λ d,
  {| tree := tree d; store := t; day_table := day_table d; user_settings := user_settings d;
     request_state := request_state d |}).

Definition in_store {A} (m : M ActionStore.Db A) : M St A := zoom store_of set_store m.

(** ** [Mapper] *)

(** [toString(newUuid())] *)
Definition newUuid : M St string := λ s,
  let x := new_id (issued s) in
  Ok (x, {| db := db s; mapper := mapper s; issued := {[x]} ∪ issued s; action_origin := action_origin s;
            node_parent := node_parent s; node_category := node_category s |}).

(** [addUser], [addActionCategory], [addNode], [addAction], [addWorkSession],
    [addTimeBlock] *)
Definition add_id (k : Kind) (id : string) : M St string :=
  let! newid := newUuid in
  let! _ := modify (λ s : St,
    {| db := db s; mapper := λ k', if decide (k' = k) then <[id := newid]> (mapper s k') else mapper s k';
       issued := issued s; action_origin := action_origin s; node_parent := node_parent s;
       node_category := node_category s |}) in
  mret newid.

(** [node(id, false)], [containsAction] *)
Definition find_id (k : Kind) (id : string) : M St (option string) := gets (λ s, mapper s k !! id).

(** [user], [actionCategory], [node], [action] *)
Definition mapped_id (k : Kind) (id : string) : M St string :=
  let! x := find_id k id in
  match x with
  | Some x => mret x
  | None => lift (Throw (server_err Error.NOT_FOUND))
  end.

(** ** Clearing *)
Definition clear_tables (d : Db Cfg) : Db Cfg :=
  let st := store d in
  let own := elements (own_nodes (tree d)) in
  {| tree := Nodes.set_nodes (Nodes.delete_cascade own) (tree d);
     store := {| ActionStore.rows := ∅; ActionStore.nodes := ∅; ActionStore.categories := ∅;
                 ActionStore.blocks := ∅; ActionStore.block_actions := ∅;
                 (* ON DELETE CASCADE of the action; one without an action stays *)
                 ActionStore.sessions := List.filter (λ w, bool_decide (ws_action w = EmptyString))
                                           (ActionStore.sessions st);
                 ActionStore.usage := onMassDelete enable_plan [TIME_BLOCK; ACTION; NODE; WORK_SESSION]
                                        (ActionStore.usage st);
                 ActionStore.updates := ActionStore.updates st |};
     day_table := GreenDays.set_days (λ _, ∅) (day_table d);
     user_settings := None; request_state := ∅ |}.

Definition clear_user_data : M St unit := modify (set_db clear_tables).

(** ** Linking what came before what it refers to *)

(** [try { co_await ... } catch (...) { throw server_err{GENERIC_ERROR} }] *)
Definition or_generic {A} (m : M St A) : M St A := λ s,
  match m s with Throw undefined => Throw undefined | Throw _ => Throw (server_err Error.GENERIC_ERROR) | r => r end.

(** [UPDATE node SET parent=? WHERE id=? AND user=?] *)
Definition update_node_parent (parent id : string) : M Nodes.Db unit :=
  let! t := gets Nodes.nodes in
  match t !! id with
  | Some r => if Nodes.owned_by cuser id r then
                let! _ := lift (throw_if (bool_decide (t !! parent = None)) runtime_error) in
                modify (Nodes.set_nodes <[id := Nodes.moved_row (Some parent) r]>)
              else mret tt
  | None => mret tt
  end.

Definition category_row (c : string) (r : Nodes.NodeRow) : Nodes.NodeRow :=
  {| Nodes.n_user := Nodes.n_user r; Nodes.n_name := Nodes.n_name r; Nodes.n_kind := Nodes.n_kind r;
     Nodes.n_descr := Nodes.n_descr r; Nodes.n_active := Nodes.n_active r;
     Nodes.n_inbox := Nodes.n_inbox r; Nodes.n_parent := Nodes.n_parent r;
     Nodes.n_version := Nodes.n_version r + 1; Nodes.n_exclude := Nodes.n_exclude r;
     Nodes.n_category := Some c |}.

(** [UPDATE node SET category=? WHERE id=? AND user=?]; [known]: the
    category exists. *)
Definition update_node_category (known : bool) (c id : string) : M Nodes.Db unit :=
  let! t := gets Nodes.nodes in
  match t !! id with
  | Some r => if Nodes.owned_by cuser id r then
                let! _ := lift (throw_if (negb known) runtime_error) in
                modify (Nodes.set_nodes <[id := category_row c r]>)
              else mret tt
  | None => mret tt
  end.

(** [UPDATE action SET origin=? WHERE id=? AND user=?] *)
Definition update_origin (origin id : string) : M ActionStore.Db unit :=
  let! row := gets (λ d, ActionStore.rows d !! id) in
  match row with
  | Some row =>
      let row := ActionStore.row_origin (Some origin) row in
      let! _ := ActionStore.check_references id row in
      modify (ActionStore.set_rows <[id := row]>)
  | None => mret tt
  end.

Definition is_nodes (m : option (ImportDataMsg Cfg)) : bool :=
  match m with Some (nodes _) => true | _ => false end.
Definition is_actions (m : option (ImportDataMsg Cfg)) : bool :=
  match m with Some (actions _) => true | _ => false end.

(** The parents: [np.first] is the new id of the node, [np.second] the id of
    its parent in the backup. *)
Definition link_parents : M St unit :=
  let! todo := gets node_parent in
  or_generic (for_each (λ np : string * string,
      let! p := mapped_id K_NODE np.2 in in_tree (update_node_parent p np.1)) todo);;
  modify (λ s, set_links (action_origin s) [] (node_category s) s).

(** [std::erase_if(action_origin, ...)] *)
Definition wash_origins : M St unit := modify (λ s : St,
  set_links (List.filter (λ ao, bool_decide (is_Some (mapper s K_ACTION !! ao.2))) (action_origin s))
    (node_parent s) (node_category s) s).

(** The origins: the tuple has the new id of the action first, so that it
    becomes the value of [origin], and the row is that of the origin. *)
Definition link_origins : M St unit :=
  let! todo := gets action_origin in
  or_generic (for_each (λ ao : string * string,
      let! o := mapped_id K_ACTION ao.2 in in_store (update_origin ao.1 o)) todo);;
  modify (λ s, set_links [] (node_parent s) (node_category s) s).

Definition link_categories : M St unit :=
  let! todo := gets node_category in
  or_generic (for_each (λ nc : string * string,
      let! c := mapped_id K_CATEGORY nc.2 in
      let! known := gets (λ s, bool_decide (is_Some (ActionStore.categories (store (db s)) !! c))) in
      in_tree (update_node_category known c nc.1)) todo);;
  modify (λ s, set_links (action_origin s) (node_parent s) [] s).

Definition post_updates (msg : option (ImportDataMsg Cfg)) : M St unit :=
  let! parents := gets node_parent in
  let! _ := (if bool_decide (parents ≠ []) && negb (is_nodes msg) then link_parents else mret tt) in
  let! _ := wash_origins in
  let! origins := gets action_origin in
  let! _ := (if bool_decide (origins ≠ []) && negb (is_actions msg) then link_origins else mret tt) in
  let! categories := gets node_category in
  if bool_decide (categories ≠ []) && bool_decide (msg = None) then link_categories else mret tt.

(** ** Storing *)

(** [saveNodes] with the guards of the session and of the plan; the
    reservation is committed. *)
Definition save_nodes (l : list Nodes.NodeMsg) : M St unit :=
  let! u := gets (λ s : St, ActionStore.usage (store (db s))) in
  let! _ := in_tree (@Nodes.saveNodes (Guards.node_gate enable_plan grace_window now state mode u) cuser l) in
  modify (λ s : St, set_store (ActionStore.set_usage (λ u,
    match PlanLimits.reserveAddition enable_plan grace_window now (Z.of_nat (length l)) NODE u with
    | (u', _, Ok r) => (PlanLimits.commit r u').2
    | _ => u
    end) (store (db s))) s).

(** [saveActionCategories] *)
Definition insert_category (c : CategoryMsg) : M ActionStore.Db unit :=
  let! old := gets (λ d, ActionStore.categories d !! cat_id c) in
  let! _ := lift (throw_if (bool_decide (old ≠ None)) runtime_error) in
  modify (ActionStore.set_categories <[cat_id c :=
    {| ActionStore.c_name := cat_name c; ActionStore.c_color := cat_color c;
       ActionStore.c_descr := toStringOrNull (cat_descr c); ActionStore.c_icon := toStringOrNull (cat_icon c);
       ActionStore.c_version := 1 |}]>).

Definition saveActionCategories (l : list CategoryMsg) : M ActionStore.Db unit := for_each insert_category l.

(** [saveWorkSessions] *)
Definition insert_session (w : WorkSession) : M ActionStore.Db unit :=
  let! known := gets (λ d, bool_decide ((ws_id w ∉ ws_id <$> ActionStore.sessions d) ∧
                                        is_Some (ActionStore.rows d !! ws_action w))) in
  let! _ := lift (throw_if (negb known) runtime_error) in
  modify (λ d, ActionStore.set_sessions (ActionStore.sessions d ++ [w]) d).

Definition saveWorkSessions (l : list WorkSession) : M ActionStore.Db unit :=
  let! _ := lift (if bool_decide (l = []) then Ok tt else SessionAccess.requireWritableForAdd state mode) in
  let! r := (λ d, let '(u, _, r) := PlanLimits.reserveAddition enable_plan grace_window now
                                      (Z.of_nat (length l)) WORK_SESSION (ActionStore.usage d) in
                  lift r (ActionStore.set_usage (λ _, u) d)) : M ActionStore.Db Reservation in
  let! _ := for_each insert_session l in
  modify (ActionStore.set_usage (λ u, (PlanLimits.commit r u).2)).

(** ** The messages *)

Definition relabel_node (id parent : string) (m : Nodes.NodeMsg) : Nodes.NodeMsg :=
  {| Nodes.m_uuid := id; Nodes.m_parent := parent; Nodes.m_active := Nodes.m_active m;
     Nodes.m_name := Nodes.m_name m; Nodes.m_kind := Nodes.m_kind m; Nodes.m_descr := Nodes.m_descr m;
     Nodes.m_exclude := Nodes.m_exclude m; Nodes.m_category := EmptyString;
     Nodes.m_inbox := Nodes.m_inbox m |}.

(** One round of the loop over the nodes of a message. *)
Definition import_node (item : Owned Nodes.NodeMsg) : M St Nodes.NodeMsg :=
  let m := o_item item in
  let! _ := mapped_id K_USER (o_user item) in
  let! id := add_id K_NODE (Nodes.m_uuid m) in
  let! _ := (if bool_decide (Nodes.m_category m = EmptyString) then mret tt
             else modify (λ s, set_links (action_origin s) (node_parent s)
                                 (node_category s ++ [(id, Nodes.m_category m)]) s)) in
  if bool_decide (Nodes.m_parent m = EmptyString) then mret (relabel_node id EmptyString m)
  else
    let! p := find_id K_NODE (Nodes.m_parent m) in
    match p with
    | Some p => mret (relabel_node id p m)
    | None =>
        let! _ := modify (λ s, set_links (action_origin s) (node_parent s ++ [(id, Nodes.m_parent m)])
                                 (node_category s) s) in
        mret (relabel_node id EmptyString m)
    end.

Definition relabel_action (i o n c : string) (a : Message) : Message :=
  {| id := i; origin := o; status := status a; completedTime := completedTime a;
     action_due := action_due a; repeatKind := repeatKind a; repeatUnits := repeatUnits a;
     repeatWhen := repeatWhen a; repeatAfter := repeatAfter a;
     rest := {| node := n; has_due := has_due (rest a); dynamicPriority := dynamicPriority (rest a);
                favorite := favorite (rest a); name := name (rest a); descr := descr (rest a);
                timeEstimate := timeEstimate (rest a); difficulty := difficulty (rest a);
                category := c; timeSpent := timeSpent (rest a); tags := tags (rest a);
                version := version (rest a) |} |}.

Definition import_action (a : Message) : M St Message :=
  let! i := add_id K_ACTION (id a) in
  let! n := mapped_id K_NODE (node (rest a)) in
  let! o := (if bool_decide (origin a = EmptyString) then mret EmptyString
             else
               let! o := find_id K_ACTION (origin a) in
               match o with
               | Some o => mret o
               | None =>
                   let! _ := modify (λ s, set_links (action_origin s ++ [(i, origin a)]) (node_parent s)
                                            (node_category s) s) in
                   mret EmptyString
               end) in
  let! c := (if bool_decide (category (rest a) = EmptyString) then mret EmptyString
             else mapped_id K_CATEGORY (category (rest a))) in
  mret (relabel_action i o n c a).

Definition import_category (c : CategoryMsg) : M St CategoryMsg :=
  let! id := add_id K_CATEGORY (cat_id c) in
  mret {| cat_id := id; cat_name := cat_name c; cat_color := cat_color c; cat_descr := cat_descr c;
          cat_icon := cat_icon c |}.

Definition import_session (item : Owned WorkSession) : M St WorkSession :=
  let w := o_item item in
  let! id := add_id K_WORK (ws_id w) in
  let! _ := mapped_id K_USER (o_user item) in
  let! a := mapped_id K_ACTION (ws_action w) in
  mret {| ws_id := id; ws_action := a; ws_start := ws_start w; ws_end := ws_end w;
          ws_duration := ws_duration w; ws_paused := ws_paused w; ws_state := ws_state w;
          ws_version := ws_version w; ws_touched := ws_touched w; ws_events := ws_events w;
          ws_name := ws_name w; ws_notes := ws_notes w |}.

(** The actions of a block that are not known are left out. *)
Definition import_block (item : Owned TimeBlock) : M St TimeBlock :=
  let tb := o_item item in
  let! id := add_id K_BLOCK (tb_id tb) in
  let! _ := mapped_id K_USER (o_user item) in
  let! c := (if bool_decide (tb_category tb = EmptyString) then mret EmptyString
             else mapped_id K_CATEGORY (tb_category tb)) in
  let! l := gets (λ s, omap (λ a, mapper s K_ACTION !! a) (tb_actions tb)) in
  mret {| tb_id := id; tb_span := tb_span tb; tb_name := tb_name tb; tb_kind := tb_kind tb;
          tb_category := c; tb_actions := l; tb_version := tb_version tb |}.

(** [saveUserGlobalSettings], the row. *)
Definition save_settings (c : Cfg) : M St unit := modify (set_db (λ d,
  {| tree := tree d; store := store d; day_table := day_table d; user_settings := Some c;
     request_state := request_state d |})).

(** The branches of the loop over the stream. *)
Definition import_message (m : ImportDataMsg Cfg) : M St unit :=
  match m with
  | user u => let! _ := add_id K_USER u in mret tt
  | userGlobalSettings c => save_settings c
  | dayColorDefinitions => mret tt
  | actionCategories l =>
      let! l := mapM import_category l in in_store (saveActionCategories l)
  | days l => in_days (GreenDays.saveDays stamp cursor l)
  | nodes l => let! l := mapM import_node l in save_nodes l
  | actions l =>
      let! l := mapM import_action l in
      in_store (ActionStore.saveActions tz enable_plan grace_window now state mode l)
  | workSessions l => let! l := mapM import_session l in in_store (saveWorkSessions l)
  | timeBlocks l =>
      let! l := mapM import_block l in
      in_store (ActionStore.in_blocks (saveTimeBlocks enable_plan grace_window now state mode l))
  | completed true => mret tt
  | completed false => lift (Throw (server_err Error.GENERIC_ERROR))
  | request | what_not_set => lift (Throw (server_err Error.GENERIC_ERROR))
  end.

(** [while(true)]: the loop ends with [completed]; the end of the stream
    clears the data again and throws. *)
Fixpoint import_loop (stream : list (ImportDataMsg Cfg)) : M St unit :=
  match stream with
  | [] => let! _ := clear_user_data in lift (Throw (server_err Error.GENERIC_ERROR))
  | m :: stream =>
      let! _ := post_updates (Some m) in
      let! _ := import_message m in
      match m with completed _ => mret tt | _ => import_loop stream end
  end.

(** The ids the database has. *)
Definition known_ids (d : Db Cfg) : gset string :=
  {[EmptyString]} ∪ dom (Nodes.nodes (tree d)) ∪ dom (ActionStore.rows (store d))
  ∪ dom (ActionStore.categories (store d)) ∪ dom (ActionStore.blocks (store d))
  ∪ list_to_set (ws_id <$> ActionStore.sessions (store d)).

Definition start (d : Db Cfg) : St :=
  {| db := d; mapper := λ _, ∅; issued := known_ids d; action_origin := []; node_parent := [];
     node_category := [] |}.

(** The epoch of the user's data goes up and the one update that is left
    tells the clients to load everything. *)
Definition finish : M St unit :=
  let! _ := in_tree (Nodes.publishNodeResync cuser) in
  let! _ := modify (λ s : St, set_store (let d := store (db s) in
    {| ActionStore.rows := ActionStore.rows d; ActionStore.nodes := ActionStore.nodes d;
       ActionStore.categories := ActionStore.categories d; ActionStore.blocks := ActionStore.blocks d;
       ActionStore.block_actions := ActionStore.block_actions d;
       ActionStore.sessions := ActionStore.sessions d; ActionStore.usage := ActionStore.usage d;
       ActionStore.updates := [] |}) s) in
  lift (throw_if cancelled (server_err Error.GENERIC_ERROR)).

Definition import_stream (stream : list (ImportDataMsg Cfg)) : M St unit :=
  let! _ := lift (SessionAccess.requireWritableForAdd state mode) in
  match stream with
  | [] => lift (Throw undefined)
  | request :: stream =>
      let! _ := clear_user_data in
      let! _ := import_loop stream in
      let! _ := post_updates None in
      finish
  | _ :: _ => lift (Throw (server_err Error.GENERIC_ERROR))
  end.

(** The handler on the tables. *)
Definition ImportData (stream : list (ImportDataMsg Cfg)) : M (Db Cfg) unit := λ d,
  match import_stream stream (start d) with
  | Ok (_, s) => Ok (tt, db s)
  | Throw e => Throw e
  end.
(** ** The tree of the backup *)

(** The nodes of the messages before the end. *)
Fixpoint sent_nodes (stream : list (ImportDataMsg Cfg)) : list Nodes.NodeMsg :=
  match stream with
  | nodes l :: stream => (o_item <$> l) ++ sent_nodes stream
  | completed _ :: _ | [] => []
  | _ :: stream => sent_nodes stream
  end.

(** The columns an import copies. *)
Definition same_node (m : Nodes.NodeMsg) (r : Nodes.NodeRow) : Prop :=
  Nodes.n_user r = cuser ∧ Nodes.n_name r = Nodes.m_name m ∧ Nodes.n_kind r = Nodes.m_kind m ∧
  Nodes.n_descr r = Nodes.m_descr m ∧ Nodes.n_active r = default false (Nodes.m_active m) ∧
  Nodes.n_exclude r = Nodes.m_exclude m.

(** A reference [ref] of the row [x]: linked by [L], or still to be linked. *)
Definition linked (L : mapping_t) (pending : list (string * string)) (x ref : string)
    (column : option string) : Prop :=
  if decide (ref = EmptyString) then column = None
  else (∃ y, L !! ref = Some y ∧ column = Some y) ∨ (column = None ∧ (x, ref) ∈ pending).

Lemma linked_mono L L' pend pend' x ref col :
  L ⊆ L' → (∀ p, p ∈ pend → p ∈ pend') → linked L pend x ref col → linked L' pend' x ref col.
Proof.
  intros HL Hp. unfold linked. destruct (decide _); [done|].
  intros [(y & Hy & ->)|[-> Hin]]; [left|right; auto]. exists y. split; [|done]. by eapply lookup_weaken.
Qed.

Definition injective (N : mapping_t) : Prop := ∀ u v x, N !! u = Some x → N !! v = Some x → u = v.

(** A link to be made belongs to a node that was stored. *)
Definition pending_ok (ref : Nodes.NodeMsg → string) (done : list Nodes.NodeMsg) (N : mapping_t)
    (pend : list (string * string)) : Prop :=
  ∀ x p, (x, p) ∈ pend → ∃ m, m ∈ done ∧ N !! Nodes.m_uuid m = Some x ∧ ref m = p ∧ p ≠ EmptyString.

(** The table [t] after the nodes [done]: [pp] and [pc] are the parents and
    categories still to be linked, [C] the categories that were. *)
Record restored (done : list Nodes.NodeMsg) (N C : mapping_t) (pp pc : list (string * string))
    (t : gmap string Nodes.NodeRow) : Prop := {
  rs_row m : m ∈ done → ∃ x r, N !! Nodes.m_uuid m = Some x ∧ t !! x = Some r ∧ same_node m r ∧
    linked N pp x (Nodes.m_parent m) (Nodes.n_parent r) ∧
    linked C pc x (Nodes.m_category m) (Nodes.n_category r);
  rs_only x r : t !! x = Some r → Nodes.n_user r = cuser → ∃ m, m ∈ done ∧ N !! Nodes.m_uuid m = Some x;
  rs_known u x : N !! u = Some x → ∃ m, m ∈ done ∧ Nodes.m_uuid m = u;
  rs_inj : injective N;
  rs_nodup : NoDup (Nodes.m_uuid <$> done);
  rs_pp : pending_ok Nodes.m_parent done N pp;
  rs_pc : pending_ok Nodes.m_category done N pc
}.

(** *** Making a link *)

(** The node a pending link belongs to is the only one with its row. *)
Lemma pending_unique done N C pp pc t ref pend x p m :
  restored done N C pp pc t → pending_ok ref done N pend → (x, p) ∈ pend →
  m ∈ done → N !! Nodes.m_uuid m = Some x → ref m = p ∧ p ≠ EmptyString.
Proof.
  intros Hr Hp Hin Hm Hx. destruct (Hp x p Hin) as (m0 & Hm0 & Hx0 & Href & Hne).
  assert (m = m0) as ->; [|done].
  apply (NoDup_fmap_inj Nodes.m_uuid done); [by eapply rs_nodup|done..|]. by eapply rs_inj.
Qed.

Lemma restored_lookup done N C pp pc t ref pend x p :
  restored done N C pp pc t → pending_ok ref done N pend → (x, p) ∈ pend →
  ∃ r, t !! x = Some r ∧ Nodes.n_user r = cuser.
Proof.
  intros Hr Hp Hin. destruct (Hp x p Hin) as (m & Hm & Hx & _).
  destruct (rs_row _ _ _ _ _ _ Hr m Hm) as (y & r & Hy & Ht & Hs & _).
  assert (y = x) as -> by congruence. exists r. split; [done|apply Hs].
Qed.

(** Setting one reference of a row and nothing else. *)
Lemma restored_link done N C pp pc pp' pc' t x r r' :
  restored done N C pp pc t → t !! x = Some r →
  (∀ p, p ∈ pp' → p ∈ pp) → (∀ p, p ∈ pc' → p ∈ pc) →
  (∀ y q, y ≠ x → (y, q) ∈ pp → (y, q) ∈ pp') → (∀ y q, y ≠ x → (y, q) ∈ pc → (y, q) ∈ pc') →
  Nodes.n_user r' = Nodes.n_user r →
  (∀ m, m ∈ done → N !! Nodes.m_uuid m = Some x → same_node m r →
     linked N pp x (Nodes.m_parent m) (Nodes.n_parent r) →
     linked C pc x (Nodes.m_category m) (Nodes.n_category r) →
     same_node m r' ∧ linked N pp' x (Nodes.m_parent m) (Nodes.n_parent r') ∧
     linked C pc' x (Nodes.m_category m) (Nodes.n_category r')) →
  restored done N C pp' pc' (<[x := r']> t).
Proof.
  intros Hr Hx Hpp Hpc Hpp' Hpc' Hu Hlink. pose proof Hr as [Hrow Honly Hk Hi Hnd Hp1 Hp2].
  split; [| |done|done|done|intros y q Hy; by apply Hp1, Hpp|intros y q Hy; by apply Hp2, Hpc].
  - intros m Hm. destruct (Hrow m Hm) as (y & s & Hy & Hs & Hsame & Hlp & Hlc).
    destruct (decide (y = x)) as [->|Hne].
    + assert (s = r) as -> by congruence. exists x, r'. rewrite lookup_insert_eq.
      destruct (Hlink m Hm Hy Hsame Hlp Hlc) as (? & ? & ?). done.
    + exists y, s. rewrite lookup_insert_ne by done. split_and!; [done..| |].
      * clear Hlc. unfold linked in *. destruct (decide _); [done|]. destruct Hlp as [?|[? ?]]; [by left|right; auto].
      * clear Hlp. unfold linked in *. destruct (decide _); [done|]. destruct Hlc as [?|[? ?]]; [by left|right; auto].
  - intros y s [[<- <-]|[_ Hy]]%lookup_insert_Some; [|by apply Honly].
    intros Hus. apply (Honly x r Hx). congruence.
Qed.

Lemma update_node_parent_run p x t u t' :
  update_node_parent p x t = Ok (u, t') →
  ∀ r, Nodes.nodes t !! x = Some r → Nodes.n_user r = cuser →
  Nodes.nodes t' = <[x := Nodes.moved_row (Some p) r]> (Nodes.nodes t).
Proof.
  unfold update_node_parent, Nodes.owned_by. intros Hr r Hx Hu.
  apply M_bind_Ok in Hr as (n & t1 & [= <- <-] & Hr). rewrite Hx in Hr.
  rewrite bool_decide_true in Hr by done.
  apply M_bind_Ok in Hr as (v & t2 & [_ ->]%lift_Ok & Hr). by injection Hr as _ <-.
Qed.

Lemma update_node_category_run known c x t u t' :
  update_node_category known c x t = Ok (u, t') →
  ∀ r, Nodes.nodes t !! x = Some r → Nodes.n_user r = cuser →
  known = true ∧ Nodes.nodes t' = <[x := category_row c r]> (Nodes.nodes t).
Proof.
  unfold update_node_category, Nodes.owned_by. intros Hr r Hx Hu.
  apply M_bind_Ok in Hr as (n & t1 & [= <- <-] & Hr). rewrite Hx in Hr.
  rewrite bool_decide_true in Hr by done.
  apply M_bind_Ok in Hr as (v & t2 & [Hk ->]%lift_Ok & Hr). injection Hr as _ <-.
  split; [|done]. apply throw_if_Ok in Hk. by apply negb_false_iff.
Qed.

Lemma restored_parent done N C x p pp pc t y r :
  restored done N C ((x, p) :: pp) pc t → N !! p = Some y → t !! x = Some r →
  restored done N C pp pc (<[x := Nodes.moved_row (Some y) r]> t).
Proof.
  intros Hr Hp Hx. apply (restored_link _ _ _ _ _ pp pc t x r _ Hr Hx); [set_solver|done|set_solver|done|done|].
  intros m Hm Hmx Hs Hlp Hlc. split_and!; [exact Hs| |exact Hlc].
  destruct (pending_unique _ _ _ _ _ _ _ _ x p m Hr (rs_pp _ _ _ _ _ _ Hr) ltac:(set_solver) Hm Hmx) as [<- Hne].
  unfold linked. rewrite decide_False by done. left. by exists y.
Qed.

Lemma restored_category done N C x c pp pc t y r :
  restored done N C pp ((x, c) :: pc) t → C !! c = Some y → t !! x = Some r →
  restored done N C pp pc (<[x := category_row y r]> t).
Proof.
  intros Hr Hc Hx. apply (restored_link _ _ _ _ _ pp pc t x r _ Hr Hx); [done|set_solver|done|set_solver|done|].
  intros m Hm Hmx Hs Hlp Hlc. split_and!; [exact Hs|exact Hlp|].
  destruct (pending_unique _ _ _ _ _ _ _ _ x c m Hr (rs_pc _ _ _ _ _ _ Hr) ltac:(set_solver) Hm Hmx) as [<- Hne].
  unfold linked. rewrite decide_False by done. left. by exists y.
Qed.
(** *** Runs *)
Lemma mapped_id_Ok k u (s : St) x s' :
  mapped_id k u s = Ok (x, s') ↔ s' = s ∧ mapper s k !! u = Some x.
Proof.
  unfold mapped_id, find_id, gets. cbv [mbind M_bind].
  destruct (mapper s k !! u) as [y|]; cbv [mret M_ret lift]; naive_solver.
Qed.

Lemma or_generic_Ok {A} (m : M St A) s r : or_generic m s = Ok r → m s = Ok r.
Proof. unfold or_generic. destruct (m s) as [|[]]; naive_solver. Qed.

Definition table (s : St) : gmap string Nodes.NodeRow := Nodes.nodes (tree (db s)).

Lemma set_tree_twice t t' (s : St) : set_tree t (set_tree t' s) = set_tree t s.
Proof. done. Qed.

(** The loops that link change the table of nodes only. *)
Lemma link_parents_loop done C pc todo (s : St) u s' :
  for_each (λ np : string * string,
    let! p := mapped_id K_NODE np.2 in in_tree (update_node_parent p np.1)) todo s = Ok (u, s') →
  restored done (mapper s K_NODE) C todo pc (table s) →
  (∃ t, s' = set_tree t s) ∧ restored done (mapper s K_NODE) C [] pc (table s').
Proof.
  revert s. induction todo as [|[x p] todo IH]; intros s; cbn [for_each].
  - intros [= _ <-] Hr. split; [|done]. exists (tree (db s)). by destruct s as [[]].
  - intros (v & s1 & H1 & Hloop)%M_bind_Ok Hr.
    apply M_bind_Ok in H1 as (y & s0 & [-> Hy]%mapped_id_Ok & (t & Ht & ->)%zoom_Ok).
    cbn [fst snd] in *.
    destruct (restored_lookup _ _ _ _ _ _ _ _ x p Hr (rs_pp _ _ _ _ _ _ Hr) ltac:(by left)) as (r & Hx & Hu).
    pose proof (update_node_parent_run _ _ _ _ _ Ht r Hx Hu) as Ht'.
    pose proof (restored_parent _ _ _ _ _ _ _ _ _ _ Hr Hy Hx) as Hr'.
    destruct (IH _ Hloop) as [(t2 & ->) Hend].
    { unfold table in *. cbn. by rewrite Ht'. }
    split; [by exists t2|done].
Qed.

Lemma link_categories_loop done C pp todo (s : St) u s' :
  C = mapper s K_CATEGORY →
  for_each (λ nc : string * string,
    let! c := mapped_id K_CATEGORY nc.2 in
    let! known := gets (λ s : St, bool_decide (is_Some (ActionStore.categories (store (db s)) !! c))) in
    in_tree (update_node_category known c nc.1)) todo s = Ok (u, s') →
  restored done (mapper s K_NODE) C pp todo (table s) →
  (∃ t, s' = set_tree t s) ∧ restored done (mapper s K_NODE) C pp [] (table s').
Proof.
  intros HC. revert s HC. induction todo as [|[x c] todo IH]; intros s HC; cbn [for_each].
  - intros [= _ <-] Hr. split; [|done]. exists (tree (db s)). by destruct s as [[]].
  - intros (v & s1 & H1 & Hloop)%M_bind_Ok Hr.
    apply M_bind_Ok in H1 as (y & s0 & [-> Hy]%mapped_id_Ok & H1).
    apply M_bind_Ok in H1 as (k & s2 & [= <- <-] & (t & Ht & ->)%zoom_Ok).
    cbn [fst snd] in *. rewrite <- HC in Hy.
    destruct (restored_lookup _ _ _ _ _ _ _ _ x c Hr (rs_pc _ _ _ _ _ _ Hr) ltac:(by left)) as (r & Hx & Hu).
    destruct (update_node_category_run _ _ _ _ _ _ Ht r Hx Hu) as [_ Ht'].
    pose proof (restored_category _ _ _ _ _ _ _ _ _ _ Hr Hy Hx) as Hr'.
    destruct (IH (set_tree t s) HC Hloop) as [(t2 & ->) Hend].
    { unfold table in *. cbn. by rewrite Ht'. }
    split; [by exists t2|done].
Qed.

(** *** The invariant of the loop *)

(** Ids that were drawn are not drawn again. *)
Definition ids_ok (s : St) : Prop :=
  EmptyString ∈ issued s ∧ ∀ u x, mapper s K_NODE !! u = Some x → x ∈ issued s ∧ x ≠ EmptyString.

Definition tree_inv (done : list Nodes.NodeMsg) (s : St) : Prop :=
  ids_ok s ∧ restored done (mapper s K_NODE) ∅ (node_parent s) (node_category s) (table s).

(** What does not concern the nodes keeps it. *)
Definition same_tree (s s' : St) : Prop :=
  mapper s' K_NODE = mapper s K_NODE ∧ issued s ⊆ issued s' ∧ node_parent s' = node_parent s ∧
  node_category s' = node_category s ∧ table s' = table s.

Lemma tree_inv_same done s s' : same_tree s s' → tree_inv done s → tree_inv done s'.
Proof.
  intros (Hm & Hi & Hp & Hc & Ht) [[He Hids] Hr]. split.
  - split; [set_solver|]. rewrite Hm. intros u x [??]%Hids. split; [set_solver|done].
  - by rewrite Hm, Hp, Hc, Ht.
Qed.

#[local] Instance same_tree_refl : Reflexive same_tree.
Proof. intros s. by split_and!. Qed.
#[local] Instance same_tree_trans : Transitive same_tree.
Proof.
  intros s1 s2 s3 (Ha1 & Ha2 & Ha3 & Ha4 & Ha5) (Hb1 & Hb2 & Hb3 & Hb4 & Hb5).
  split_and!; [congruence|set_solver|congruence..].
Qed.

(** A computation that leaves the nodes alone. *)
Definition frames {A} (m : M St A) : Prop := ∀ s a s', m s = Ok (a, s') → same_tree s s'.

Lemma frames_ret {A} (a : A) : frames (mret a).
Proof. by intros s a' s' [= _ <-]. Qed.
Lemma frames_lift {A} (r : result A) : frames (lift r).
Proof. by intros s a s' [_ ->]%lift_Ok. Qed.
Lemma frames_gets {A} (f : St → A) : frames (gets f).
Proof. by intros s a s' [= _ <-]. Qed.
Lemma frames_bind {A B} (m : M St A) (f : A → M St B) :
  frames m → (∀ a, frames (f a)) → frames (m ≫= f).
Proof. intros Hm Hf s b s' (a & s1 & H1%Hm & H2%Hf)%M_bind_Ok. by etrans. Qed.
Lemma frames_mapM {A B} (f : A → M St B) l : (∀ x, frames (f x)) → frames (mapM (M := M St) f l).
Proof.
  intros Hf. induction l as [|x l IH]; [intros s a s' [= _ <-]; done|].
  intros s a s' (y & s1 & ys & H1%Hf & H2%IH & _)%mapM_cons_Ok. by etrans.
Qed.
Lemma frames_for_each {A} (f : A → M St unit) l : (∀ x, frames (f x)) → frames (for_each f l).
Proof.
  intros Hf. induction l as [|x l IH]; [apply frames_ret|]. apply frames_bind; [apply Hf|]. by intros _.
Qed.
Lemma frames_or_generic {A} (m : M St A) : frames m → frames (or_generic m).
Proof. intros Hm s a s' Hs. exact (Hm s a s' (or_generic_Ok m s _ Hs)). Qed.
Lemma frames_in_store {A} (m : M ActionStore.Db A) : frames (in_store m).
Proof. intros s a s' (t & _ & ->)%zoom_Ok. by split_and!. Qed.
Lemma frames_in_days {A} (m : M GreenDays.Db A) : frames (in_days m).
Proof. intros s a s' (t & _ & ->)%zoom_Ok. by split_and!. Qed.
Lemma frames_mapped_id k u : frames (mapped_id k u).
Proof. by intros s a s' [-> _]%mapped_id_Ok. Qed.
Lemma frames_find_id k u : frames (find_id k u).
Proof. apply frames_gets. Qed.
Lemma frames_add_id k u : k ≠ K_NODE → frames (add_id k u).
Proof.
  intros Hk s a s' (x & s1 & [= <- <-] & (v & s2 & [= _ <-] & [= _ <-])%M_bind_Ok)%M_bind_Ok.
  split_and!; cbn; [|set_solver|done..]. by rewrite decide_False.
Qed.
Lemma frames_origins o : frames (modify (λ s : St, set_links (o s) (node_parent s) (node_category s) s)).
Proof. by intros s a s' [= _ <-]. Qed.

Create HintDb frames.
#[local] Hint Resolve frames_ret frames_lift frames_gets frames_bind frames_mapM frames_in_store
  frames_in_days frames_mapped_id frames_find_id frames_add_id frames_origins : frames.

Lemma import_action_frames a : frames (import_action a).
Proof.
  unfold import_action. apply frames_bind; [by apply frames_add_id|intros i].
  apply frames_bind; [auto with frames|intros n]. apply frames_bind.
  - case_bool_decide; [auto with frames|]. apply frames_bind; [auto with frames|intros [o|]]; [auto with frames|].
    apply frames_bind; [|auto with frames].
    apply (frames_origins (λ s, action_origin s ++ [(i, origin a)])).
  - intros o. apply frames_bind; [case_bool_decide; auto with frames|auto with frames].
Qed.

Lemma import_session_frames w : frames (import_session w).
Proof. unfold import_session. repeat (apply frames_bind; [auto with frames|intros ?]). auto with frames. Qed.

Lemma import_block_frames b : frames (import_block b).
Proof.
  unfold import_block. do 2 (apply frames_bind; [auto with frames|intros ?]).
  apply frames_bind; [case_bool_decide; auto with frames|auto with frames].
Qed.

Lemma import_category_frames c : frames (import_category c).
Proof. unfold import_category. auto with frames. Qed.

#[local] Hint Resolve import_action_frames import_session_frames import_block_frames import_category_frames : frames.

Lemma link_origins_frames : frames link_origins.
Proof.
  unfold link_origins. apply frames_bind; [auto with frames|intros todo].
  apply frames_bind; [|intros _; apply (frames_origins (λ _, []))].
  apply frames_or_generic, frames_for_each. auto with frames.
Qed.

Lemma import_message_frames m : (∀ l, m ≠ nodes l) → frames (import_message m).
Proof.
  intros Hm. destruct m as [|u|c| |l|l|l|l|l|l|[]|]; cbn [import_message]; auto with frames.
  - by intros s a s' [= _ <-].
  - by destruct (Hm l).
Qed.
(** *** The nodes of a message *)

(** The state after [add_id]. *)
Definition drawn (k : Kind) (u : string) (s : St) : St :=
  let x := new_id (issued s) in
  {| db := db s; mapper := λ k', if decide (k' = k) then <[u := x]> (mapper s k') else mapper s k';
     issued := {[x]} ∪ issued s; action_origin := action_origin s; node_parent := node_parent s;
     node_category := node_category s |}.

Lemma add_id_Ok k u (s : St) x s' : add_id k u s = Ok (x, s') → x = new_id (issued s) ∧ s' = drawn k u s.
Proof. intros [= <- <-]. done. Qed.

(** Links added for the nodes [items]. *)
Definition links_added (ref : Nodes.NodeMsg → string) (items : list Nodes.NodeMsg) (N : mapping_t)
    (old new : list (string * string)) : Prop :=
  ∃ l, new = old ++ l ∧ pending_ok ref items N l.

(** From [s] to [s'] the nodes [items] were given ids. *)
Record grown (s s' : St) (items : list Nodes.NodeMsg) : Prop := {
  g_db : db s' = db s;
  g_ids : ids_ok s';
  g_map : mapper s K_NODE ⊆ mapper s' K_NODE;
  g_new u x : mapper s' K_NODE !! u = Some x →
    mapper s K_NODE !! u = Some x ∨ ∃ m, m ∈ items ∧ Nodes.m_uuid m = u;
  g_inj : injective (mapper s K_NODE) → injective (mapper s' K_NODE);
  g_pp : links_added Nodes.m_parent items (mapper s' K_NODE) (node_parent s) (node_parent s');
  g_pc : links_added Nodes.m_category items (mapper s' K_NODE) (node_category s) (node_category s')
}.

(** What the message [m'] with the new ids has of [m]. *)
Definition relabelled (s : St) (m m' : Nodes.NodeMsg) : Prop :=
  ∃ x, mapper s K_NODE !! Nodes.m_uuid m = Some x ∧ Nodes.m_uuid m' = x ∧
    same_node m (Nodes.imported_row cuser m') ∧
    linked (mapper s K_NODE) (node_parent s) x (Nodes.m_parent m) (toStringOrNull (Nodes.m_parent m')) ∧
    linked ∅ (node_category s) x (Nodes.m_category m) (toStringOrNull (Nodes.m_category m')).

Lemma toStringOrNull_Some x : x ≠ EmptyString → toStringOrNull x = Some x.
Proof. intros Hx. unfold toStringOrNull. by rewrite bool_decide_false. Qed.

Lemma links_none ref items N l : links_added ref items N l l.
Proof. exists []. rewrite app_nil_r. split; [done|]. intros x p. set_solver. Qed.

Lemma links_one (ref : Nodes.NodeMsg → string) m (N : mapping_t) l x :
  N !! Nodes.m_uuid m = Some x → ref m ≠ EmptyString → links_added ref [m] N l (l ++ [(x, ref m)]).
Proof.
  intros Hx Hne. exists [(x, ref m)]. split; [done|]. intros y p Hin.
  apply list_elem_of_singleton in Hin. injection Hin as -> ->. exists m. set_solver.
Qed.

(** What drawing an id and adding links makes of the state. *)
Lemma grown_one (s s' : St) m pp pc :
  ids_ok s → mapper s K_NODE !! Nodes.m_uuid m = None →
  s' = set_links (action_origin s) pp pc (drawn K_NODE (Nodes.m_uuid m) s) →
  links_added Nodes.m_parent [m] (mapper s' K_NODE) (node_parent s) pp →
  links_added Nodes.m_category [m] (mapper s' K_NODE) (node_category s) pc →
  grown s s' [m].
Proof.
  intros [He Hids] Hn -> Hpp Hpc. pose proof (new_id_fresh (issued s)) as Hf.
  split; [done| | | | |exact Hpp|exact Hpc]; cbn; rewrite ?decide_True by done.
  - split; [set_solver|]. cbn.
    intros u x [[_ <-]|[_ Hx]]%lookup_insert_Some.
    + split; [set_solver|]. intros Heq. by rewrite Heq in Hf.
    + apply Hids in Hx as [??]. set_solver.
  - by apply insert_subseteq.
  - intros u x [[<- _]|[_ Hx]]%lookup_insert_Some; [right; exists m; set_solver|by left].
  - intros Hi u v x [[<- <-]|[Hu Hx]]%lookup_insert_Some [[<- Heq]|[Hv Hy]]%lookup_insert_Some.
    + done.
    + apply Hids in Hy as [??]. set_solver.
    + apply Hids in Hx as [??]. set_solver.
    + by eapply Hi.
Qed.

Lemma import_node_run i (s : St) m' s' :
  import_node i s = Ok (m', s') → ids_ok s → mapper s K_NODE !! Nodes.m_uuid (o_item i) = None →
  grown s s' [o_item i] ∧ relabelled s' (o_item i) m'.
Proof.
  set (m := o_item i). unfold import_node. fold m. intros Hr Hok Hn.
  pose proof Hok as [He Hids]. pose proof (new_id_fresh (issued s)) as Hf.
  apply M_bind_Ok in Hr as (us & s0 & [-> _]%mapped_id_Ok & Hr).
  apply M_bind_Ok in Hr as (x & s1 & [Hx ->]%add_id_Ok & Hr).
  set (s1 := drawn K_NODE (Nodes.m_uuid m) s) in *.
  assert (HN : mapper s1 K_NODE !! Nodes.m_uuid m = Some x).
  { cbn. rewrite decide_True by done. rewrite Hx. apply lookup_insert_eq. }
  apply M_bind_Ok in Hr as (v & s2 & Hc & Hr).
  assert (Hs2 : ∃ pc, s2 = set_links (action_origin s) (node_parent s) pc s1 ∧
    links_added Nodes.m_category [m] (mapper s1 K_NODE) (node_category s) pc ∧
    linked ∅ pc x (Nodes.m_category m) None).
  { clear Hr. unfold linked. case_bool_decide as Hcat.
    - injection Hc as _ <-. exists (node_category s). split; [by destruct s|].
      split; [apply links_none|]. by rewrite decide_True.
    - injection Hc as _ <-. eexists. split; [done|]. rewrite decide_False by done.
      split; [by apply links_one|]. right. set_solver. }
  clear Hc. destruct Hs2 as (pc & -> & Hpc & Hlc).
  assert (Hend : ∀ pp p, s' = set_links (action_origin s) pp pc s1 → m' = relabel_node x p m →
    links_added Nodes.m_parent [m] (mapper s1 K_NODE) (node_parent s) pp →
    linked (mapper s1 K_NODE) pp x (Nodes.m_parent m) (toStringOrNull p) →
    grown s s' [m] ∧ relabelled s' m m').
  { intros pp p -> -> Hpp Hlp. split; [by eapply grown_one|]. by exists x. }
  case_bool_decide as Hp.
  - injection Hr as <- <-. apply (Hend (node_parent s) EmptyString); [done|done|apply links_none|].
    unfold linked. by rewrite decide_True.
  - apply M_bind_Ok in Hr as (o & s3 & [= <- <-] & Hr).
    change (<[Nodes.m_uuid m := new_id (issued s)]> (mapper s K_NODE)) with (mapper s1 K_NODE) in Hr.
    unfold linked in Hend. destruct (mapper s1 K_NODE !! Nodes.m_parent m) as [p|] eqn:Hpar.
    + injection Hr as <- <-. apply (Hend (node_parent s) p); [done|done|apply links_none|].
      rewrite decide_False by done. left. exists p. split; [done|]. apply toStringOrNull_Some. intros ->.
      cbn in Hpar. rewrite decide_True in Hpar by done.
      apply lookup_insert_Some in Hpar as [[_ Heq]|[_ Hq]].
      * by rewrite Heq in Hf.
      * by apply Hids in Hq as [_ Hq].
    + injection Hr as <- <-. apply (Hend (node_parent s ++ [(x, Nodes.m_parent m)]) EmptyString); [done|done| |].
      * by apply links_one.
      * rewrite decide_False by done. right. set_solver.
Qed.

Lemma pending_mono ref items items' N N' l :
  (∀ m, m ∈ items → m ∈ items') → N ⊆ N' → pending_ok ref items N l → pending_ok ref items' N' l.
Proof.
  intros Hi HN Hp x p Hin. destruct (Hp x p Hin) as (m & Hm & Hx & ? & ?). exists m.
  split_and!; [auto|by eapply lookup_weaken|done|done].
Qed.

Lemma links_trans ref a b N N' l l1 l2 :
  N ⊆ N' → links_added ref a N l l1 → links_added ref b N' l1 l2 → links_added ref (a ++ b) N' l l2.
Proof.
  intros HN (k1 & -> & H1) (k2 & -> & H2). exists (k1 ++ k2). split; [by rewrite app_assoc|].
  intros x p [Hin|Hin]%elem_of_app.
  - revert x p Hin. eapply pending_mono; [|exact HN|exact H1]. set_solver.
  - revert x p Hin. eapply pending_mono; [|reflexivity|exact H2]. set_solver.
Qed.

Lemma grown_trans s1 s2 s3 a b : grown s1 s2 a → grown s2 s3 b → grown s1 s3 (a ++ b).
Proof.
  intros [Ha1 Ha2 Ha3 Ha4 Ha5 Ha6 Ha7] [Hb1 Hb2 Hb3 Hb4 Hb5 Hb6 Hb7]. split.
  - congruence.
  - done.
  - by etrans.
  - intros u x [[?|(m & ? & ?)]%Ha4|(m & ? & ?)]%Hb4; [by left|right; exists m; set_solver..].
  - auto.
  - by eapply links_trans.
  - by eapply links_trans.
Qed.

Lemma relabelled_mono s s' items m m' : grown s s' items → relabelled s m m' → relabelled s' m m'.
Proof.
  intros [_ _ HN _ _ (lp & Hlp & _) (lc & Hlc & _)] (x & Hx & Hm & Hs & Hp & Hc). exists x.
  rewrite Hlp, Hlc.
  split_and!; [by eapply lookup_weaken|done|done| |].
  - eapply linked_mono; [exact HN| |exact Hp]. set_solver.
  - eapply linked_mono; [done| |exact Hc]. set_solver.
Qed.

Lemma grown_refl s : ids_ok s → grown s s [].
Proof. intros Hok. split; [done|done|done|by left|done|apply links_none..]. Qed.

Lemma import_nodes_run items (s : St) l s' :
  mapM (M := M St) import_node items s = Ok (l, s') → ids_ok s →
  NoDup (Nodes.m_uuid <$> (o_item <$> items)) →
  (∀ m, m ∈ o_item <$> items → mapper s K_NODE !! Nodes.m_uuid m = None) →
  grown s s' (o_item <$> items) ∧ Forall2 (relabelled s') (o_item <$> items) l.
Proof.
  revert s l. induction items as [|i items IH]; intros s l; cbn [fmap list_fmap].
  - intros [= <- <-] Hok _ _. split; [by apply grown_refl|constructor].
  - intros (m' & s1 & l' & Hi & Hl & ->)%mapM_cons_Ok Hok [Hni Hnd]%NoDup_cons Hnew.
    apply import_node_run in Hi as [Hg Hrel]; [|done|apply Hnew; left].
    apply IH in Hl as [Hg' Hrel']; [|by eapply g_ids|done|].
    + split; [apply (grown_trans _ _ _ _ _ Hg Hg')|]. constructor; [by eapply relabelled_mono|done].
    + intros m Hm. destruct (mapper s1 K_NODE !! Nodes.m_uuid m) as [x|] eqn:Hx; [|done].
      apply (g_new _ _ _ Hg) in Hx as [Hx|(m0 & Hm0%list_elem_of_singleton & Hu)].
      * rewrite Hnew in Hx by (by right). done.
      * subst m0. contradict Hni. rewrite Hu. by apply list_elem_of_fmap_2.
Qed.
Lemma pending_app ref done items N N' l l' :
  N ⊆ N' → pending_ok ref done N l → links_added ref items N' l l' → pending_ok ref (done ++ items) N' l'.
Proof.
  intros HN Hp (k & -> & Hk) x p [Hin|Hin]%elem_of_app.
  - revert x p Hin. eapply pending_mono; [|exact HN|exact Hp]. set_solver.
  - revert x p Hin. eapply pending_mono; [|reflexivity|exact Hk]. set_solver.
Qed.

(** Storing the relabelled nodes [l] of [items]. *)
Lemma restored_more done items l (s s1 : St) t' :
  restored done (mapper s K_NODE) ∅ (node_parent s) (node_category s) (table s) →
  grown s s1 items → Forall2 (relabelled s1) items l → NoDup (Nodes.m_uuid <$> (done ++ items)) →
  (∀ m, m ∈ l → t' !! Nodes.m_uuid m = Some (Nodes.imported_row cuser m)) →
  (∀ x r, table s !! x = Some r → ∃ r', t' !! x = Some r' ∧ Nodes.same_but_inbox r r') →
  (∀ x r', t' !! x = Some r' → (∃ m, m ∈ l ∧ x = Nodes.m_uuid m) ∨
     ∃ r, table s !! x = Some r ∧ Nodes.same_but_inbox r r') →
  restored (done ++ items) (mapper s1 K_NODE) ∅ (node_parent s1) (node_category s1) t'.
Proof.
  intros Hr Hg Hrel Hnd Hin Hold Hnew. pose proof Hr as [Hrow Honly Hk Hi _ Hp1 Hp2].
  pose proof Hg as [_ _ HN Hnew' Hinj Hpp Hpc]. rewrite Forall2_lookup in Hrel.
  split; [| | |auto|done|by eapply pending_app|by eapply pending_app].
  - intros m [Hm|Hm]%elem_of_app.
    + destruct (Hrow m Hm) as (x & r & Hx & Ht & Hs & Hlp & Hlc).
      destruct (Hold x r Ht) as (r' & Ht' & Hu & Hn & Hkd & Hd & Ha & Hpa & He & Hc).
      exists x, r'. rewrite Hpa, Hc. destruct Hs as (? & ? & ? & ? & ? & ?).
      split_and!; [by eapply lookup_weaken|done| | |].
      * split_and!; congruence.
      * eapply linked_mono; [exact HN| |exact Hlp]. destruct Hpp as (k & -> & _). set_solver.
      * eapply linked_mono; [done| |exact Hlc]. destruct Hpc as (k & -> & _). set_solver.
    + apply list_elem_of_lookup in Hm as [j Hj]. specialize (Hrel j). rewrite Hj in Hrel.
      inversion Hrel as [? m' (x & Hx & Hm' & Hs & Hlp & Hlc) Heq Hl|]; subst.
      exists (Nodes.m_uuid m'), (Nodes.imported_row cuser m').
      split_and!; [done| |done..]. apply Hin. by eapply list_elem_of_lookup_2.
  - intros x r' Ht' Hu. destruct (Hnew x r' Ht') as [(m' & Hm' & ->)|(r & Ht & Hsame)].
    + apply list_elem_of_lookup in Hm' as [j Hj]. specialize (Hrel j). rewrite Hj in Hrel.
      inversion Hrel as [m ? (x & Hx & Hm' & _) Heq Hl|]; subst.
      exists m. split; [|done]. apply elem_of_app. right. by eapply list_elem_of_lookup_2.
    + destruct (Honly x r Ht) as (m & Hm & Hx); [destruct Hsame; congruence|].
      exists m. split; [set_solver|by eapply lookup_weaken].
  - intros u x [(m & Hm & <-)%Hk|(m & Hm & <-)]%Hnew'; exists m; set_solver.
Qed.

Lemma import_message_nodes done (l : list (Owned Nodes.NodeMsg)) (s : St) u s' :
  import_message (nodes l) s = Ok (u, s') → tree_inv done s →
  NoDup (Nodes.m_uuid <$> (done ++ (o_item <$> l))) → tree_inv (done ++ (o_item <$> l)) s'.
Proof.
  intros Hr [Hok Hres] Hnd. cbn [import_message] in Hr.
  apply M_bind_Ok in Hr as (l' & s1 & Hm & Hr).
  assert (Hnew : ∀ m, m ∈ o_item <$> l → mapper s K_NODE !! Nodes.m_uuid m = None).
  { intros m Hin. destruct (mapper s K_NODE !! Nodes.m_uuid m) as [x|] eqn:Hx; [|done].
    apply (rs_known _ _ _ _ _ _ Hres) in Hx as (m0 & Hm0 & Hu).
    rewrite fmap_app in Hnd. apply NoDup_app in Hnd as (_ & Hdis & _).
    destruct (Hdis (Nodes.m_uuid m0)); [by apply list_elem_of_fmap_2|]. rewrite Hu.
    by apply list_elem_of_fmap_2. }
  assert (Hnd' : NoDup (Nodes.m_uuid <$> (o_item <$> l))).
  { rewrite fmap_app in Hnd. by apply NoDup_app in Hnd as (_ & _ & ?). }
  destruct (import_nodes_run _ _ _ _ Hm Hok Hnd' Hnew) as [Hg Hrel].
  unfold save_nodes in Hr. apply M_bind_Ok in Hr as (us & s2 & [= <- <-] & Hr).
  apply M_bind_Ok in Hr as (v & s3 & (t & Ht & ->)%zoom_Ok & [= _ <-]).
  apply (tree_inv_same _ (set_tree t s1)); [by split_and!|].
  split; [exact (g_ids _ _ _ Hg)|].
  apply Nodes.saveNodes_rows in Ht as (Hin & Hold & Hnew').
  rewrite (g_db _ _ _ Hg) in Hold, Hnew'.
  by eapply (restored_more done _ l' s s1).
Qed.

Lemma post_updates_inv done msg (s : St) u s' :
  msg ≠ None → post_updates msg s = Ok (u, s') → tree_inv done s → tree_inv done s'.
Proof.
  intros Hmsg Hr Hi. unfold post_updates in Hr.
  apply M_bind_Ok in Hr as (pp & s0 & [= <- <-] & Hr).
  apply M_bind_Ok in Hr as (v & s1 & Hp & Hr).
  assert (Hi1 : tree_inv done s1).
  { destruct (_ && _); [|by injection Hp as _ <-]. unfold link_parents in Hp.
    apply M_bind_Ok in Hp as (todo & s2 & [= <- <-] & Hp).
    apply M_bind_Ok in Hp as (w & s2 & Hl%or_generic_Ok & [= _ <-]).
    destruct Hi as [Hok Hres].
    destruct (link_parents_loop _ _ _ _ _ _ _ Hl Hres) as [(t & ->) Hend]. by split. }
  revert Hi1. apply tree_inv_same. revert Hr.
  apply (frames_bind wash_origins); [apply (frames_origins (λ s, List.filter (λ ao, bool_decide
    (is_Some (mapper s K_ACTION !! ao.2))) (action_origin s)))|intros _].
  apply frames_bind; [auto with frames|intros o].
  apply frames_bind; [case_if; [apply link_origins_frames|auto with frames]|intros _].
  apply frames_bind; [auto with frames|intros c]. rewrite (bool_decide_false (msg = None)) by done.
  rewrite andb_false_r. auto with frames.
Qed.

Lemma import_loop_inv done stream (s : St) u s' :
  import_loop stream s = Ok (u, s') → tree_inv done s →
  NoDup (Nodes.m_uuid <$> (done ++ sent_nodes stream)) → tree_inv (done ++ sent_nodes stream) s'.
Proof.
  revert done s. induction stream as [|m stream IH]; intros done s; cbn [import_loop].
  - intros (v & s1 & _ & [? _]%lift_Ok)%M_bind_Ok. done.
  - intros (v & s1 & Hp & (w & s2 & Hm & Hr)%M_bind_Ok)%M_bind_Ok Hi Hnd.
    apply (post_updates_inv done) in Hp; [|done|done].
    assert (Hother : (∀ l, m ≠ nodes l) → tree_inv done s2).
    { intros Hne. eapply tree_inv_same; [|exact Hp]. by eapply import_message_frames. }
    destruct m; cbn [sent_nodes] in *; try (apply (IH done s2 Hr); [by apply Hother|done]).
    + rewrite app_assoc in Hnd |- *. apply (IH _ s2 Hr); [|done].
      eapply import_message_nodes; [exact Hm|done|]. rewrite fmap_app in Hnd. by apply NoDup_app in Hnd as (? & _ & _).
    + injection Hr as _ <-. rewrite app_nil_r. by apply Hother.
Qed.

(** *** The whole import *)
Lemma level_in_descendants p (t : gmap string Nodes.NodeRow) l x : x ∈ l → x ∈ Nodes.all_descendants p t l.
Proof. intros Hx. unfold Nodes.all_descendants. destruct l; [set_solver|]. cbn [Nodes.descendants]. set_solver. Qed.

Lemma start_inv (d : Db Cfg) : tree_inv [] (set_db clear_tables (start d)).
Proof.
  assert (Hn : ∀ x r, table (set_db clear_tables (start d)) !! x = Some r → Nodes.n_user r ≠ cuser).
  { intros x r Hx Hu. cbn in Hx. apply map_lookup_filter_Some in Hx as [Hx Hd]. apply Hd.
    apply level_in_descendants, elem_of_elements, elem_of_dom. exists r.
    by apply map_lookup_filter_Some. }
  split; [split|split]; cbn.
  - unfold known_ids. set_solver.
  - by intros u x.
  - set_solver.
  - intros x r Hx Hu. by destruct (Hn x r Hx).
  - by intros u x.
  - by intros u v x.
  - constructor.
  - intros x p. set_solver.
  - intros x p. set_solver.
Qed.

Lemma link_origins_mapper μ : keeps (λ s : St, mapper s = μ) link_origins.
Proof.
  unfold link_origins. apply keeps_bind; [auto with keeps|intros todo].
  apply keeps_bind; [|intros _; by apply keeps_modify].
  intros s u s' Hs Hr%or_generic_Ok. revert Hs Hr.
  apply (keeps_for_each (λ s : St, mapper s = μ)). intros ao _. apply keeps_bind.
  - by intros s0 o s1 Hs [-> _]%mapped_id_Ok.
  - intros o s0 v s1 Hs (t & _ & ->)%zoom_Ok. done.
Qed.

(** What is left at the end: every link is made. *)
Lemma post_updates_end done (s : St) u s' :
  post_updates None s = Ok (u, s') → tree_inv done s →
  restored done (mapper s K_NODE) (mapper s K_CATEGORY) [] [] (table s').
Proof.
  intros Hr [Hok Hres]. unfold post_updates in Hr.
  apply M_bind_Ok in Hr as (pp & s0 & [= <- <-] & Hr).
  apply M_bind_Ok in Hr as (v & s1 & Hp & Hr).
  assert (H1 : mapper s1 = mapper s ∧ node_category s1 = node_category s ∧
    restored done (mapper s K_NODE) ∅ [] (node_category s) (table s1)).
  { destruct (decide (node_parent s = [])) as [Hnil|Hne].
    - rewrite (bool_decide_false (node_parent s ≠ [])) in Hp by tauto. injection Hp as _ <-. by rewrite Hnil in Hres.
    - rewrite bool_decide_true in Hp by done. unfold link_parents in Hp.
      apply M_bind_Ok in Hp as (todo & s2 & [= <- <-] & Hp).
      apply M_bind_Ok in Hp as (w & s2 & Hl%or_generic_Ok & [= _ <-]).
      by destruct (link_parents_loop _ _ _ _ _ _ _ Hl Hres) as [(t & ->) Hend]. }
  clear Hp Hres. destruct H1 as (Hm1 & Hc1 & Hres).
  apply M_bind_Ok in Hr as (v1 & s2 & [= _ <-] & Hr).
  apply M_bind_Ok in Hr as (oo & s3 & [= <- <-] & Hr).
  apply M_bind_Ok in Hr as (v2 & s4 & Ho & Hr).
  set (s2 := set_links _ _ _ s1) in Ho.
  assert (H4 : mapper s4 = mapper s ∧ same_tree s2 s4).
  { clear Hr. match type of Ho with (if ?b then _ else _) _ = _ => destruct b end.
    - split; [by refine (link_origins_mapper (mapper s) s2 _ _ _ Ho)|by eapply link_origins_frames].
    - by injection Ho as _ <-. }
  clear Ho. destruct H4 as (Hm4 & HmN & _ & _ & Hc4 & Ht4). cbn in Hc4, Ht4.
  apply M_bind_Ok in Hr as (cc & s5 & [= <- <-] & Hr). rewrite Hc4, Hc1 in Hr.
  assert (Hres4 : restored done (mapper s4 K_NODE) (mapper s4 K_CATEGORY) [] (node_category s) (table s4)).
  { rewrite Hm4, Ht4. destruct Hres as [Hrow Ho Hk Hi Hnd Hp Hc]. split; [|done..].
    intros m Hm. destruct (Hrow m Hm) as (x & r & ? & ? & ? & ? & Hl). exists x, r.
    split_and!; [done..|]. eapply linked_mono; [apply map_empty_subseteq|done|exact Hl]. }
  rewrite <- Hm4. destruct (decide (node_category s = [])) as [Hnil|Hne].
  - rewrite (bool_decide_false (node_category s ≠ [])) in Hr by tauto. injection Hr as _ <-. by rewrite Hnil in Hres4.
  - rewrite bool_decide_true in Hr by done. cbn [andb] in Hr. unfold link_categories in Hr.
    rewrite (bool_decide_true (None = None)) in Hr by done.
    apply M_bind_Ok in Hr as (todo & s5 & [= <- <-] & Hr). rewrite Hc4, Hc1 in Hr.
    apply M_bind_Ok in Hr as (w & s5 & Hl%or_generic_Ok & [= _ <-]).
    by destruct (link_categories_loop _ _ _ _ _ _ _ eq_refl Hl Hres4) as [(t & ->) Hend].
Qed.

Lemma finish_table (s : St) u s' : finish s = Ok (u, s') → table s' = table s ∧ mapper s' = mapper s.
Proof.
  unfold finish. intros Hr. apply M_bind_Ok in Hr as (v & s1 & (t & Ht & ->)%zoom_Ok & Hr).
  apply M_bind_Ok in Hr as (w & s2 & [= _ <-] & [_ ->]%lift_Ok).
  split; [|done]. unfold table. cbn. revert Ht. unfold Nodes.publishNodeResync.
  intros (e & t1 & [= <- <-] & Ht)%M_bind_Ok.
  destruct (Nodes.epoch (tree (db s)) !! cuser); [|done]. by injection Ht as _ <-.
Qed.

(** Nothing is pending: the column is the image of the reference. *)
Lemma linked_all L x ref col :
  linked L [] x ref col → col = (if decide (ref = EmptyString) then None else L !! ref)
    ∧ (ref ≠ EmptyString → is_Some (L !! ref)).
Proof.
  unfold linked. destruct (decide (ref = EmptyString)); [done|].
  intros [(y & Hy & ->)|[_ Hin]]; [|set_solver]. rewrite Hy. split; [done|eauto].
Qed.

(** C19: a successful import restores the tree of the backup: there are an
    injective renaming of the nodes of the stream and one of its categories
    such that afterwards the user's nodes are exactly the renamed ones, each
    with the fields of its message and with the renamed parent and category,
    whatever the order of the nodes in the stream; nothing the user had
    before is left of the tree. *)
Theorem ImportData_restores_tree stream (d : Db Cfg) u d' :
  ImportData (request :: stream) d = Ok (u, d') →
  let items := sent_nodes stream in
  NoDup (Nodes.m_uuid <$> items) →
  ∃ N C : gmap string string,
    (∀ a b x, N !! a = Some x → N !! b = Some x → a = b) ∧
    (∀ m, m ∈ items → ∃ x r, N !! Nodes.m_uuid m = Some x ∧
      Nodes.nodes (tree d') !! x = Some r ∧ same_node m r ∧
      Nodes.n_parent r = (if decide (Nodes.m_parent m = EmptyString) then None else N !! Nodes.m_parent m) ∧
      (Nodes.m_parent m ≠ EmptyString → is_Some (N !! Nodes.m_parent m)) ∧
      Nodes.n_category r = (if decide (Nodes.m_category m = EmptyString) then None else C !! Nodes.m_category m) ∧
      (Nodes.m_category m ≠ EmptyString → is_Some (C !! Nodes.m_category m))) ∧
    (∀ x r, Nodes.nodes (tree d') !! x = Some r → Nodes.n_user r = cuser →
      ∃ m, m ∈ items ∧ N !! Nodes.m_uuid m = Some x).
Proof.
  intros Hr items Hnd. unfold ImportData in Hr.
  destruct (import_stream _ _) as [[v s]|] eqn:Hs; [|done]. injection Hr as _ <-.
  unfold import_stream in Hs.
  apply M_bind_Ok in Hs as (v1 & s1 & [_ ->]%lift_Ok & Hs).
  apply M_bind_Ok in Hs as (v2 & s2 & [= _ <-] & Hs).
  apply M_bind_Ok in Hs as (v3 & s3 & Hl & Hs).
  apply M_bind_Ok in Hs as (v4 & s4 & Hp & [Ht _]%finish_table).
  apply (import_loop_inv []) in Hl; [|apply start_inv|exact Hnd].
  apply (post_updates_end items) in Hp; [|exact Hl].
  exists (mapper s3 K_NODE), (mapper s3 K_CATEGORY). change (Nodes.nodes (tree (db s))) with (table s). rewrite Ht.
  destruct Hp as [Hrow Honly _ Hi _ _ _]. split; [exact Hi|]. split; [|exact Honly].
  intros m Hm. destruct (Hrow m Hm) as (x & r & Hx & Hr & Hsame & [Hp1 Hp2]%linked_all & [Hc1 Hc2]%linked_all).
  by exists x, r.
Qed.
(** ** The origins of the actions *)

(** an action that came before its origin is linked the wrong way
    round: the statement gives the origin the action as its origin and leaves
    the action without one; and an origin that is not known when the next
    message arrives is dropped. *)
Theorem late_origin_inverted_or_lost (m : ImportDataMsg Cfg) (s : St) x o u s' :
  node_parent s = [] → action_origin s = [(x, o)] → is_actions (Some m) = false →
  post_updates (Some m) s = Ok (u, s') →
  action_origin s' = [] ∧
  ActionStore.rows (store (db s')) =
    match mapper s K_ACTION !! o with
    | Some y => alter (ActionStore.row_origin (Some x)) y (ActionStore.rows (store (db s)))
    | None => ActionStore.rows (store (db s))
    end.
Proof.
  intros Hpp Ho Hm Hr. unfold post_updates in Hr.
  apply M_bind_Ok in Hr as (pp & s0 & [= <- <-] & Hr). rewrite Hpp in Hr.
  apply M_bind_Ok in Hr as (v & s1 & [= _ <-] & Hr).
  apply M_bind_Ok in Hr as (v1 & s2 & [= _ <-] & Hr).
  apply M_bind_Ok in Hr as (oo & s3 & [= <- <-] & Hr). rewrite Ho in Hr.
  apply M_bind_Ok in Hr as (v2 & s4 & Hl & Hr). rewrite Hm in Hl.
  apply M_bind_Ok in Hr as (cc & s5 & [= <- <-] & Hr).
  rewrite (bool_decide_false (Some m = None)), andb_false_r in Hr by done. injection Hr as _ <-.
  rewrite ?Ho in Hl. cbn [List.filter snd] in Hl.
  destruct (mapper s K_ACTION !! o) as [y|] eqn:Hy.
  - rewrite (bool_decide_true (is_Some (Some y))) in Hl by eauto. rewrite bool_decide_true in Hl by done. cbn [andb negb] in Hl.
    unfold link_origins in Hl. apply M_bind_Ok in Hl as (todo & s5 & [= <- <-] & Hl).
    apply M_bind_Ok in Hl as (w & s5 & Hl%or_generic_Ok & [= _ <-]).
    split; [done|]. cbn [action_origin set_links for_each] in Hl.
    apply M_bind_Ok in Hl as (w1 & s6 & Hl & [= _ <-]).
    apply M_bind_Ok in Hl as (y' & s7 & [-> Hy']%mapped_id_Ok & Hl). cbn [mapper set_links snd fst] in Hy', Hl.
    assert (y' = y) as -> by congruence.
    apply zoom_Ok in Hl as (t & Ht & ->). cbn. unfold update_origin in Ht.
    apply M_bind_Ok in Ht as (row & t1 & [= <- <-] & Ht). cbn in Ht.
    destruct (ActionStore.rows (store (db s)) !! y) as [row|] eqn:Hrow.
    + apply M_bind_Ok in Ht as (w2 & t2 & [-> _]%ActionStore.check_references_Ok & [= _ <-]). cbn.
      apply map_eq. intros j. destruct (decide (j = y)) as [->|Hne].
      * by rewrite lookup_insert_eq, lookup_alter_eq, Hrow.
      * by rewrite lookup_insert_ne, lookup_alter_ne.
    + injection Ht as _ <-. cbn. apply map_eq. intros j. destruct (decide (j = y)) as [->|Hne].
      * by rewrite lookup_alter_eq, Hrow.
      * by rewrite lookup_alter_ne.
  - rewrite (bool_decide_false (is_Some None)) in Hl by (by intros [? ?]).
    rewrite bool_decide_false in Hl by tauto.
    injection Hl as _ <-. by split.
Qed.
End import.

(** ** Examples *)
Definition own {A} (x : A) : Owned A := {| o_user := "u0"; o_item := x |}.

Definition backup_node (id parent category : string) : Nodes.NodeMsg :=
  {| Nodes.m_uuid := id; Nodes.m_parent := parent; Nodes.m_active := Some true; Nodes.m_name := id;
     Nodes.m_kind := 0; Nodes.m_descr := ""; Nodes.m_exclude := false; Nodes.m_category := category;
     Nodes.m_inbox := false |}.

Definition backup_action (i o : string) : Message := relabel_action i o "c" "" weekly.

(** A child before its parent, and an action before its origin. *)
Definition backup (l : list Message) : list (ImportDataMsg unit) :=
  [user "u0"; nodes [own (backup_node "c" "p" "k")]; nodes [own (backup_node "p" "" "")];
   actionCategories [{| cat_id := "k"; cat_name := "work"; cat_color := "red"; cat_descr := ""; cat_icon := "" |}];
   actions l; completed true].

Definition old_tables : Db unit :=
  {| tree := {| Nodes.nodes := {["old" := Nodes.imported_row "u" (backup_node "old" "" "")]};
                Nodes.epoch := {["u" := 7]}; Nodes.updates := [] |};
     store := {| ActionStore.rows := ∅; ActionStore.nodes := ∅; ActionStore.categories := ∅;
                 ActionStore.blocks := ∅; ActionStore.block_actions := ∅; ActionStore.sessions := [];
                 ActionStore.usage := example_usage; ActionStore.updates := [] |};
     day_table := {| GreenDays.days := ∅; GreenDays.colors := ∅; GreenDays.updates := [] |};
     user_settings := None; request_state := ∅ |}.

#[local] Existing Instance Gregorian.

Abbreviation example_import :=
  (ImportData "u" cet false 5 0 SessionAccess.ACTIVE SessionAccess.FULL_ACCESS 0 0 false).

Lemma ImportData_restores_tree_witness :
  let d' := after (example_import (request :: backup [])) old_tables in
  Nodes.epoch (tree d') !! "u" = Some 8 ∧ size (Nodes.nodes (tree d')) = 2%nat ∧
  ∃ N : gmap string string,
    (∀ a b x, N !! a = Some x → N !! b = Some x → a = b) ∧
    ∃ x r, N !! "c" = Some x ∧ Nodes.nodes (tree d') !! x = Some r ∧ Nodes.n_parent r = N !! "p".
Proof.
  assert (Hnd : NoDup (Nodes.m_uuid <$> sent_nodes (backup []))) by (cbn; repeat constructor; set_solver).
  cbn zeta. split; [vm_compute; reflexivity|]. split; [vm_compute; reflexivity|].
  destruct (run_after (example_import (request :: backup [])) old_tables) as [u Hr]; [vm_compute; reflexivity|].
  revert Hr. generalize (after (example_import (request :: backup [])) old_tables). intros d' Hr.
  destruct (@ImportData_restores_tree unit Gregorian fresh_block_ids "u" cet false 5 0 SessionAccess.ACTIVE
    SessionAccess.FULL_ACCESS 0 0 false (backup []) old_tables u d' Hr Hnd) as (N & C & Hi & Hrow & _).
  exists N. split; [exact Hi|].
  destruct (Hrow (backup_node "c" "p" "k")) as (x & r & Hx & Hr' & _ & Hp & _); [cbn; left|].
  exists x, r. split_and!; [exact Hx|exact Hr'|exact Hp].
Defined.

(** The action "a2" came from "a1" and was sent first; they are stored as
    "4" and "5": after the import "a1" comes from "a2". *)
Lemma import_inverts_origins :
  let d' := after (example_import (request :: backup [backup_action "a2" "a1"; backup_action "a1" ""])) old_tables in
  r_origin <$> ActionStore.rows (store d') !! "5" = Some (Some "4") ∧
  r_origin <$> ActionStore.rows (store d') !! "4" = Some None.
Proof. split; vm_compute; reflexivity. Qed.

(** Two nodes that are each other's parent are restored as such. *)
Lemma import_accepts_cycle :
  let d' := after (example_import [request; user "u0";
              nodes [own (backup_node "c" "p" ""); own (backup_node "p" "c" "")]; completed true]) old_tables in
  Nodes.n_parent <$> Nodes.nodes (tree d') !! "1" = Some (Some "2") ∧
  Nodes.n_parent <$> Nodes.nodes (tree d') !! "2" = Some (Some "1").
Proof. split; vm_compute; reflexivity. Qed.

(** The state before the last message of such an import. *)
Definition waiting : Import unit :=
  {| db := after (example_import (request :: backup [backup_action "a2" ""; backup_action "a1" ""])) old_tables;
     mapper := λ k, match k with K_ACTION => {["a2" := "4"; "a1" := "5"]} | _ => ∅ end;
     issued := ∅; action_origin := [("4", "a1")]; node_parent := []; node_category := [] |}.

Lemma late_origin_inverted_or_lost_witness :
  ∃ s', post_updates "u" (Some (completed true)) waiting = Ok (tt, s') ∧
    r_origin <$> ActionStore.rows (store (db s')) !! "5" = Some (Some "4") ∧
    r_origin <$> ActionStore.rows (store (db s')) !! "4" = Some None.
Proof.
  destruct (run_after (post_updates "u" (Some (completed true))) waiting) as [[] Hr]; [vm_compute; reflexivity|].
  exists (after (post_updates "u" (Some (completed true))) waiting). split; [exact Hr|].
  destruct (late_origin_inverted_or_lost "u" (completed true) waiting "4" "a1" tt _ eq_refl eq_refl eq_refl Hr)
    as [_ Hrows].
  rewrite Hrows. split; vm_compute; reflexivity.
Defined.
