(* ===== verification/SyncIssues.v ===== *)
(** * Repairing what the clients find broken

    [ReportSyncIssues] of src/src/backend/lib/grpc/Actions.cpp: a client
    that has a row whose reference it cannot resolve reports it, and the
    server removes the reference, or the row, when its own tables say the
    same.  It works on the tables of actions, sessions and time blocks of
    ActionStore.v and on the tree of Nodes.v.  There is no transaction: a
    throw keeps the repairs done before it ([Auto]).  The SQL engine's limit
    on the depth of a recursive query is not modelled.  The ids in the
    tables are uuids. *)
From S2P Require Import Prelude Calendar Recurrence Actions WorkSession PlanLimits.
From S2P Require TimeBlocks WorkStore Nodes ActionStore.
From stdpp Require Import pretty sorting.
From Stdlib Require OrdersEx.

#[local] Existing Instance TimeBlocks.Kind_eq_dec.
#[local] Open Scope Z_scope.
#[local] Open Scope nextapp_scope.

(** ** Messages

    The enums of a message are open; a value is its number. *)
Definition SYNC_OBJECT_TYPE_ACTION : Z := 1.
Definition SYNC_OBJECT_TYPE_NODE : Z := 2.
Definition SYNC_OBJECT_TYPE_WORK_SESSION : Z := 3.
Definition SYNC_OBJECT_TYPE_TIME_BLOCK : Z := 4.
Definition SYNC_FAULT_KIND_MISSING_REFERENCE : Z := 1.

(** [pb::SyncIssueKey], [pb::SyncIssue] *)
Record SyncIssueKey := {
  objecttype : Z;
  objectid : string;
  problem : Z;
  referencedtype : Z;
  referencedid : string
}.

Record SyncIssue := {
  issueid : string;
  key : option SyncIssueKey
}.

#[export] Instance SyncIssueKey_eq_dec : EqDecision SyncIssueKey.
Proof. solve_decision. Defined.

Definition newline : string := String (Ascii.ascii_of_nat 10) EmptyString.

(** One line of the canonical form. *)
Definition line (name value : string) : string := name +:+ "=" +:+ value +:+ newline.

Definition canonicalSyncIssueKeyBytes (k : SyncIssueKey) : string :=
  line "object_type" (pretty (objecttype k)) +:+
  line "object_id" (objectid k) +:+
  line "problem" (pretty (problem k)) +:+
  line "referenced_type" (pretty (referencedtype k)) +:+
  line "referenced_id" (referencedid k).

(** What the four kinds of issues have in common. *)
Definition is_issue (object referenced : Z) (i : SyncIssue) : bool :=
  match key i with
  | None => false
  | Some k =>
      bool_decide (objecttype k = object)
      && bool_decide (problem k = SYNC_FAULT_KIND_MISSING_REFERENCE)
      && bool_decide (referencedtype k = referenced)
      && negb (bool_decide (objectid k = EmptyString))
      && negb (bool_decide (referencedid k = EmptyString))
  end.

Definition isMissingActionOriginIssue : SyncIssue → bool :=
  is_issue SYNC_OBJECT_TYPE_ACTION SYNC_OBJECT_TYPE_ACTION.
Definition isMissingNodeParentIssue : SyncIssue → bool :=
  is_issue SYNC_OBJECT_TYPE_NODE SYNC_OBJECT_TYPE_NODE.
Definition isMissingWorkSessionActionIssue : SyncIssue → bool :=
  is_issue SYNC_OBJECT_TYPE_WORK_SESSION SYNC_OBJECT_TYPE_ACTION.
Definition isMissingTimeBlockActionIssue : SyncIssue → bool :=
  is_issue SYNC_OBJECT_TYPE_TIME_BLOCK SYNC_OBJECT_TYPE_ACTION.

(** ** The state *)

(** What is queued for the clients, with the issue it fixes. *)
Inductive Payload :=
| p_action (a : Message)
| p_node (id : string) (row : Nodes.NodeRow)      (* deleted *)
| p_work (w : WorkSession)
| p_calendar (u : TimeBlocks.Update).

Record Update := { fixesissueids : string; payload : Payload }.

(** What a device gets to see. *)
Inductive Event := ev_update (u : Update) | ev_full_resync (epoch : Z).

Record Db := {
  store : ActionStore.Db;
  tree : Nodes.Db;
  gone : gset string;          (* the nodes with [deleted=1] *)
  queued : list Update;        (* [rctx.updates] *)
  published : list Event
}.

Definition set_store (t : ActionStore.Db) (d : Db) : Db :=
  {| store := t; tree := tree d; gone := gone d; queued := queued d; published := published d |}.

Definition set_tree (f : gmap string Nodes.NodeRow → gmap string Nodes.NodeRow) (e : gmap string Z → gmap string Z)
    (g : gset string → gset string) (d : Db) : Db :=
  {| store := store d;
     tree := {| Nodes.nodes := f (Nodes.nodes (tree d)); Nodes.epoch := e (Nodes.epoch (tree d));
                Nodes.updates := Nodes.updates (tree d) |};
     gone := g (gone d); queued := queued d; published := published d |}.

Definition in_store {A} (m : M ActionStore.Db A) : M Db A := zoom store set_store m.

Definition publishLater (i : SyncIssue) (p : Payload) : M Db unit := modify (λ d,
  {| store := store d; tree := tree d; gone := gone d;
     queued := queued d ++ [{| fixesissueids := issueid i; payload := p |}];
     published := published d |}).

Definition publishFullResync (n : Z) : M Db unit := modify (λ d,
  {| store := store d; tree := tree d; gone := gone d; queued := queued d;
     published := published d ++ [ev_full_resync n] |}).

(** [UPDATE ... SET parent=NULL, name=?] and [... SET deleted=1, active=0];
    the trigger counts the version. *)
Definition rooted_row (name : string) (r : Nodes.NodeRow) : Nodes.NodeRow :=
  {| Nodes.n_user := Nodes.n_user r; Nodes.n_name := name; Nodes.n_kind := Nodes.n_kind r;
     Nodes.n_descr := Nodes.n_descr r; Nodes.n_active := Nodes.n_active r;
     Nodes.n_inbox := Nodes.n_inbox r; Nodes.n_parent := None;
     Nodes.n_version := Nodes.n_version r + 1; Nodes.n_exclude := Nodes.n_exclude r;
     Nodes.n_category := Nodes.n_category r |}.

Definition gone_row (r : Nodes.NodeRow) : Nodes.NodeRow :=
  {| Nodes.n_user := Nodes.n_user r; Nodes.n_name := Nodes.n_name r; Nodes.n_kind := Nodes.n_kind r;
     Nodes.n_descr := Nodes.n_descr r; Nodes.n_active := false;
     Nodes.n_inbox := Nodes.n_inbox r; Nodes.n_parent := Nodes.n_parent r;
     Nodes.n_version := Nodes.n_version r + 1; Nodes.n_exclude := Nodes.n_exclude r;
     Nodes.n_category := Nodes.n_category r |}.

(** [current_name.rfind("__", 0) == 0 ? current_name : "__" + current_name] *)
Definition repaired_name (name : string) : string :=
  if String.prefix "__" name then name else "__" +:+ name.

Definition string_le (a b : string) : Prop := String.leb a b = true.
#[export] Instance string_le_dec : RelDecision string_le.
Proof. intros a b. unfold string_le. apply _. Defined.

(** The levels of a subtree, the deepest first, each by id: what
    [ORDER BY subtree.depth DESC, n.id] returns. *)
Fixpoint by_depth (fuel : nat) (p : Nodes.NodeRow → bool) (t : gmap string Nodes.NodeRow)
    (level : list string) : list string :=
  match fuel, level with
  | O, _ | _, [] => []
  | S fuel, _ => by_depth fuel p t (Nodes.children_of p t level) ++ merge_sort string_le level
  end.

Section repairs.
Context (cuser : string) (tz : TimeZone) (enable_plan : bool) (sha256 : string → string).

Definition isValidSyncIssueId (i : SyncIssue) : bool :=
  match key i with
  | None => false
  | Some k =>
      negb (bool_decide (issueid i = EmptyString))
      && bool_decide (sha256 (canonicalSyncIssueKeyBytes k) = issueid i)
  end.

(** ** What the statements see *)
Definition action_row (id : string) (d : Db) : option ActionRow := ActionStore.rows (store d) !! id.

(** The referenced action does not exist or is deleted. *)
Definition lost_action (id : string) (d : Db) : bool :=
  match action_row id d with
  | Some row => bool_decide (r_status row = Recurrence.DELETED)
  | None => true
  end.

Definition node_row (id : string) (d : Db) : option Nodes.NodeRow :=
  match Nodes.nodes (tree d) !! id with
  | Some r => if Nodes.owned_by cuser id r then Some r else None
  | None => None
  end.

Definition lost_node (id : string) (d : Db) : bool :=
  match node_row id d with Some _ => bool_decide (id ∈ gone d) | None => true end.

Definition own_node (r : Nodes.NodeRow) : bool := Nodes.owned_by cuser EmptyString r.

(** The actions that are not deleted, in the nodes of the subtree. *)
Definition live_in (l : list string) (row : ActionRow) : bool :=
  negb (bool_decide (r_status row = Recurrence.DELETED))
  && match r_node row with Some n => bool_decide (n ∈ l) | None => false end.

Definition active_actions (id : string) (d : Db) : Z :=
  let subtree := Nodes.all_descendants own_node (Nodes.nodes (tree d)) [id] in
  Z.of_nat (length (List.filter (λ kv : string * ActionRow, live_in subtree kv.2)
    (map_to_list (ActionStore.rows (store d))))).

(** ** The repairs *)
Definition repairMissingActionOriginIssue (i : SyncIssue) (k : SyncIssueKey) : Auto Db unit :=
  let! row := stmt (gets (action_row (objectid k))) in
  match row with
  | None => mret tt
  | Some row =>
      if bool_decide (r_status row = Recurrence.DELETED)
         || negb (bool_decide (default EmptyString (r_origin row) = referencedid k)) then mret tt else
      let! lost := stmt (gets (lost_action (referencedid k))) in
      if negb lost then mret tt else
      let! _ := stmt (in_store (ActionStore.update_row (objectid k) (ActionStore.row_origin None))) in
      let! a := stmt (in_store (ActionStore.getAction tz (objectid k))) in
      stmt (publishLater i (p_action a))
  end.

(** [UPDATE user SET data_sync_epoch = data_sync_epoch + 1], and its value. *)
Definition count_epoch : M Db unit :=
  modify (set_tree Datatypes.id (alter (λ n, n + 1) cuser) Datatypes.id).

Definition next_epoch : M Db Z :=
  let! e := gets (λ d, (Nodes.epoch (tree d) : gmap string Z) !! cuser) in
  match e with None => lift (Throw (server_err Error.GENERIC_ERROR)) | Some n => mret n end.

(** One round of the loop over the nodes of the subtree. *)
Definition delete_node (i : SyncIssue) (id : string) : Auto Db unit :=
  let! row := stmt (gets (node_row id)) in
  let! dead := stmt (gets (λ d, bool_decide (id ∈ gone d))) in
  match row with
  | None => mret tt
  | Some row =>
      if (dead : bool) then mret tt else
      let! _ := stmt (modify (set_tree (alter gone_row id) Datatypes.id (λ X, {[id]} ∪ X))) in
      stmt (publishLater i (p_node id (gone_row row)))
  end.

Fixpoint delete_nodes (i : SyncIssue) (ids : list string) : Auto Db unit :=
  match ids with
  | [] => mret tt
  | x :: ids => let! _ := delete_node i x in delete_nodes i ids
  end.

(** The nodes of the subtree that are not deleted, children first. *)
Definition subtree_ids (id : string) (d : Db) : list string :=
  let t := Nodes.nodes (tree d) in
  List.filter (λ x, negb (bool_decide (x ∈ gone d))) (by_depth (S (size t)) own_node t [id]).

(** Whether a full resync was forced. *)
Definition repairMissingNodeParentIssue (i : SyncIssue) (k : SyncIssueKey) : Auto Db bool :=
  let! row := stmt (gets (node_row (objectid k))) in
  let! dead := stmt (gets (λ d, bool_decide (objectid k ∈ gone d))) in
  match row with
  | None => mret false
  | Some row =>
      if (dead : bool)
         || negb (bool_decide (default EmptyString (Nodes.n_parent row) = referencedid k)) then mret false else
      let! lost := stmt (gets (lost_node (referencedid k))) in
      if negb lost then mret false else
      let! active := stmt (gets (active_actions (objectid k))) in
      if 0 <? active then
        let! _ := stmt (modify (set_tree (alter (rooted_row (repaired_name (Nodes.n_name row))) (objectid k)) Datatypes.id Datatypes.id)) in
        let! _ := stmt count_epoch in
        let! epoch := stmt next_epoch in
        let! _ := stmt (publishFullResync epoch) in
        mret true
      else
        let! ids := stmt (gets (subtree_ids (objectid k))) in
        let! _ := delete_nodes i ids in
        mret false
  end.

(** [UPDATE work_session SET ... WHERE id=? AND action=?] *)
Definition clear_session (id action : string) : M ActionStore.Db Z :=
  let! l := gets ActionStore.sessions in
  let hit w := WorkStore.has_id id w && bool_decide (ws_action w = action) in
  let! _ := modify (ActionStore.set_sessions ((λ w, if hit w then WorkStore.deleted_row w else w) <$> l)) in
  mret (Z.of_nat (length (List.filter hit l))).

Definition session_row (id : string) (d : Db) : option WorkSession :=
  head (List.filter (WorkStore.has_id id) (ActionStore.sessions (store d))).

Definition repairMissingWorkSessionActionIssue (i : SyncIssue) (k : SyncIssueKey) : Auto Db unit :=
  let! row := stmt (gets (session_row (objectid k))) in
  match row with
  | None => mret tt
  | Some w =>
      if bool_decide (ws_state w = DELETED) || negb (bool_decide (ws_action w = referencedid k)) then mret tt else
      let! lost := stmt (gets (lost_action (referencedid k))) in
      if negb lost then mret tt else
      let! affected := stmt (in_store (clear_session (objectid k) (referencedid k))) in
      if affected =? 0 then mret tt else
      let! _ := stmt (in_store (ActionStore.onDeleted enable_plan WORK_SESSION)) in
      let! w := stmt (in_store (ActionStore.in_work tz (WorkStore.fetchWorkSession (objectid k)))) in
      stmt (publishLater i (p_work w))
  end.

(** [fetchTimeBlockForSyncIssue] *)
Definition block_of (id : string) (d : Db) : option TimeBlocks.TimeBlock :=
  TimeBlocks.assign id <$> ActionStore.blocks (store d) !! id.

Definition set_blocks (f : gmap string TimeBlocks.BlockRow → gmap string TimeBlocks.BlockRow)
    (g : gset (string * string) → gset (string * string)) (d : ActionStore.Db) : ActionStore.Db :=
  {| ActionStore.rows := ActionStore.rows d; ActionStore.nodes := ActionStore.nodes d;
     ActionStore.categories := ActionStore.categories d; ActionStore.blocks := f (ActionStore.blocks d);
     ActionStore.block_actions := g (ActionStore.block_actions d);
     ActionStore.sessions := ActionStore.sessions d; ActionStore.usage := ActionStore.usage d;
     ActionStore.updates := ActionStore.updates d |}.

(** [std::remove] and [erase] *)
Definition without (x : string) (l : list string) : list string :=
  List.filter (λ y, negb (bool_decide (y = x))) l.

Definition repairMissingTimeBlockActionIssue (i : SyncIssue) (k : SyncIssueKey) : Auto Db unit :=
  let! tb := stmt (gets (block_of (objectid k))) in
  match tb with
  | None => mret tt
  | Some tb =>
      if bool_decide (TimeBlocks.tb_kind tb = TimeBlocks.BLOCK_DELETED) then mret tt else
      if negb (bool_decide (referencedid k ∈ TimeBlocks.tb_actions tb)) then mret tt else
      let! lost := stmt (gets (lost_action (referencedid k))) in
      if negb lost then mret tt else
      let l := without (referencedid k) (TimeBlocks.tb_actions tb) in
      let! _ := stmt (in_store (modify (set_blocks (alter (TimeBlocks.set_row_actions l) (objectid k)) Datatypes.id))) in
      let! _ := stmt (in_store (modify (set_blocks Datatypes.id (λ X, X ∖ {[(objectid k, referencedid k)]})))) in
      let! tb := stmt (gets (block_of (objectid k))) in
      match tb with
      | None => mret tt
      | Some tb => stmt (publishLater i (p_calendar (TimeBlocks.createCalendarEventUpdate tb TimeBlocks.UPDATED)))
      end
  end.

(** ** The handler *)

(** One issue; whether the loop ends. *)
Definition repair (i : SyncIssue) : Auto Db bool :=
  match key i with
  | None => mret false
  | Some k =>
      if negb (isMissingActionOriginIssue i) then
        if isMissingNodeParentIssue i then repairMissingNodeParentIssue i k else
        if isMissingWorkSessionActionIssue i then
          let! _ := repairMissingWorkSessionActionIssue i k in mret false
        else if isMissingTimeBlockActionIssue i then
          let! _ := repairMissingTimeBlockActionIssue i k in mret false
        else mret false
      else let! _ := repairMissingActionOriginIssue i k in mret false
  end.

Fixpoint repair_all (seen : gset string) (issues : list SyncIssue) : Auto Db unit :=
  match issues with
  | [] => mret tt
  | i :: issues =>
      if negb (isValidSyncIssueId i) then repair_all seen issues else
      if bool_decide (issueid i ∈ seen) then repair_all seen issues else
      let! stop := repair i in
      if (stop : bool) then mret tt else repair_all ({[issueid i]} ∪ seen) issues
  end.

(** [unaryHandler]: what is queued is published when the handler returns. *)
Definition flush (d : Db) : Db :=
  {| store := store d; tree := tree d; gone := gone d; queued := [];
     published := published d ++ (ev_update <$> queued d) |}.

Definition drop_queue (d : Db) : Db :=
  {| store := store d; tree := tree d; gone := gone d; queued := []; published := published d |}.

Definition ReportSyncIssues (issues : list SyncIssue) : Auto Db unit := λ d,
  match repair_all ∅ issues d with
  | (Ok _, d') => (Ok tt, flush d')
  | (Throw e, d') => (Throw e, drop_queue d')
  end.

(** ** What each repair does *)

(** Everything but the store and the queue is as it was. *)
Definition same_tree (d d' : Db) : Prop :=
  tree d' = tree d ∧ gone d' = gone d ∧ published d' = published d.

(** What both an action and a session need of the reference. *)
Lemma origin_run i k d :
  let d' := (repairMissingActionOriginIssue i k d).2 in
  d' = d ∨ ∃ row, action_row (objectid k) d = Some row ∧ r_status row ≠ Recurrence.DELETED ∧
    default EmptyString (r_origin row) = referencedid k ∧ lost_action (referencedid k) d = true ∧
    store d' = ActionStore.set_rows <[objectid k := ActionStore.row_origin None row]> (store d) ∧
    same_tree d d'.
Proof.
  unfold repairMissingActionOriginIssue. cbv zeta. cbv [mbind Auto_bind stmt gets mret Auto_ret].
  destruct (action_row (objectid k) d) as [row|] eqn:Hr; [|by left].
  case_bool_decide as Hs; [by left|]. cbn [orb]. case_bool_decide as Ho; [|by left]. cbn [negb].
  destruct (lost_action (referencedid k) d) eqn:Hl; [|by left]. cbn [negb]. right. exists row.
  unfold in_store, zoom, ActionStore.update_row. cbv [mbind M_bind gets modify mret M_ret].
  unfold action_row in Hr. rewrite Hr. cbn [set_store store].
  destruct (ActionStore.getAction _ _ _) as [[a t]|e] eqn:Hg; cbn; [|done].
  by apply ActionStore.getAction_Ok in Hg as [-> _].
Qed.

Lemma fetch_in_work uuid s w s' :
  ActionStore.in_work tz (WorkStore.fetchWorkSession uuid) s = Ok (w, s') →
  s' = s ∧ ∃ row, row ∈ ActionStore.sessions s ∧ ws_id row = uuid ∧ w = WorkStore.assign row.
Proof.
  unfold ActionStore.in_work. destruct (WorkStore.fetchWorkSession _ _) as [[w1 t]|e] eqn:Hf; [|done].
  apply WorkStore.fetchWorkSession_inv in Hf as (-> & row & Hrow). cbn. cbv [mbind M_bind mret M_ret]. intros [= <- <-].
  split; [by destruct s|]. by exists row.
Qed.

(** The sessions after the UPDATE. *)
Definition cleared (k : SyncIssueKey) (l : list WorkSession) : list WorkSession :=
  (λ w, if WorkStore.has_id (objectid k) w && bool_decide (ws_action w = referencedid k)
        then WorkStore.deleted_row w else w) <$> l.

Lemma session_hit i k d w :
  session_row (objectid k) d = Some w → ws_state w ≠ DELETED → ws_action w = referencedid k →
  lost_action (referencedid k) d = true →
  let d' := (repairMissingWorkSessionActionIssue i k d).2 in
  store d' = ActionStore.set_usage (PlanLimits.onDeleted enable_plan WORK_SESSION 1)
      (ActionStore.set_sessions (cleared k (ActionStore.sessions (store d))) (store d)) ∧ same_tree d d'.
Proof.
  intros Hw Hs Ho Hl. unfold repairMissingWorkSessionActionIssue. cbv zeta.
  cbv [mbind Auto_bind stmt gets mret Auto_ret].
  rewrite Hw, bool_decide_false by done. cbn [orb]. rewrite bool_decide_true by done. cbn [negb].
  rewrite Hl. cbn [negb]. unfold in_store, zoom, clear_session. cbv [mbind M_bind gets modify mret M_ret].
  assert (Hhit : length (List.filter (λ w, WorkStore.has_id (objectid k) w && bool_decide (ws_action w = referencedid k))
                          (ActionStore.sessions (store d))) ≠ 0%nat).
  { intros H0%length_zero_iff_nil. unfold session_row in Hw. apply head_Some_elem_of in Hw.
    apply elem_of_list_filter_bool in Hw as [Hin Hid].
    assert (Hx : w ∈ ([] : list WorkSession)); [|by apply elem_of_nil in Hx].
    rewrite <- H0. apply elem_of_list_filter_bool. split; [done|].
    by rewrite Hid, (bool_decide_true (ws_action w = referencedid k)). }
  destruct (Z.eqb_spec (Z.of_nat (length (List.filter (λ w, WorkStore.has_id (objectid k) w && bool_decide (ws_action w = referencedid k))
                          (ActionStore.sessions (store d))))) 0) as [Hz|_]; [lia|].
  unfold ActionStore.onDeleted, modify. cbn [set_store store].
  destruct (ActionStore.in_work _ _ _) as [[w1 t]|e] eqn:Hg; cbn; [|done].
  by apply fetch_in_work in Hg as [-> _].
Qed.

Lemma session_run i k d :
  let d' := (repairMissingWorkSessionActionIssue i k d).2 in
  d' = d ∨ ∃ w, session_row (objectid k) d = Some w ∧ ws_state w ≠ DELETED ∧
    ws_action w = referencedid k ∧ lost_action (referencedid k) d = true ∧
    store d' = ActionStore.set_usage (PlanLimits.onDeleted enable_plan WORK_SESSION 1)
      (ActionStore.set_sessions (cleared k (ActionStore.sessions (store d))) (store d)) ∧
    same_tree d d'.
Proof.
  destruct (session_row (objectid k) d) as [w|] eqn:Hw;
    [destruct (decide (ws_state w = DELETED)) as [Hs|Hs];
       [|destruct (decide (ws_action w = referencedid k)) as [Ho|Ho];
          [destruct (lost_action (referencedid k) d) eqn:Hl|]]|].
  2: { right. exists w. do 4 (split; [done|]). by apply (session_hit i k d w). }
  all: left; unfold repairMissingWorkSessionActionIssue; cbv [mbind Auto_bind stmt gets mret Auto_ret]; rewrite Hw.
  - by rewrite bool_decide_true.
  - rewrite (bool_decide_false (ws_state w = DELETED)), (bool_decide_true (_ = referencedid k)) by done.
    cbn [orb negb]. by rewrite Hl.
  - by rewrite (bool_decide_false (ws_state w = DELETED)), (bool_decide_false (_ = referencedid k)).
  - done.
Qed.

Lemma block_run i k d :
  let d' := (repairMissingTimeBlockActionIssue i k d).2 in
  d' = d ∨ ∃ row, ActionStore.blocks (store d) !! objectid k = Some row ∧
    TimeBlocks.br_kind row ≠ TimeBlocks.BLOCK_DELETED ∧
    referencedid k ∈ TimeBlocks.listed row ∧ lost_action (referencedid k) d = true ∧
    store d' = set_blocks (alter (TimeBlocks.set_row_actions (without (referencedid k) (TimeBlocks.listed row))) (objectid k))
                 (λ X, X ∖ {[(objectid k, referencedid k)]}) (store d) ∧
    same_tree d d'.
Proof.
  unfold repairMissingTimeBlockActionIssue. cbv zeta. cbv [mbind Auto_bind stmt gets mret Auto_ret].
  unfold block_of. destruct (ActionStore.blocks (store d) !! objectid k) as [row|] eqn:Hb; [|by left].
  cbn [fmap option_fmap option_map TimeBlocks.assign TimeBlocks.tb_kind TimeBlocks.tb_actions].
  case_bool_decide as Hk; [by left|]. case_bool_decide as Ha; [|by left]. cbn [negb].
  destruct (lost_action (referencedid k) d) eqn:Hl; [|by left]. cbn [negb]. right. exists row.
  unfold in_store, zoom, modify. cbn [set_store store set_blocks].
  split_and!; try done; destruct (TimeBlocks.assign _ <$> _); done.
Qed.

Lemma elem_of_by_depth fuel p t l x : x ∈ by_depth fuel p t l ↔ x ∈ Nodes.descendants fuel p t l.
Proof.
  revert l. induction fuel as [|fuel IH]; intros l; [done|]. cbn. destruct l as [|y l]; [done|].
  rewrite !elem_of_app, IH, merge_sort_Permutation. tauto.
Qed.

Lemma elem_of_subtree_ids a x d :
  x ∈ subtree_ids a d ↔ x ∈ Nodes.all_descendants own_node (Nodes.nodes (tree d)) [a] ∧ x ∉ gone d.
Proof.
  unfold subtree_ids. rewrite elem_of_list_filter_bool, elem_of_by_depth, negb_true_iff, bool_decide_eq_false. done.
Qed.

(** What the loop over a subtree makes of the tree. *)
Definition deleted_in (d d' : Db) : Prop :=
  store d' = store d ∧ published d' = published d ∧ Nodes.epoch (tree d') = Nodes.epoch (tree d) ∧
  gone d ⊆ gone d' ∧
  ∀ x, Nodes.nodes (tree d') !! x =
    (if bool_decide (x ∈ gone d' ∧ x ∉ gone d) then gone_row else Datatypes.id) <$> Nodes.nodes (tree d) !! x.

Lemma node_row_gone d d' x : deleted_in d d' → is_Some (node_row x d') ↔ is_Some (node_row x d).
Proof.
  intros (_ & _ & _ & _ & Hn). unfold node_row. rewrite Hn. destruct (Nodes.nodes (tree d) !! x) as [r|]; [|done].
  cbn. unfold Nodes.owned_by. rewrite !is_Some_alt. destruct (bool_decide (x ∈ gone d' ∧ x ∉ gone d)); cbn; by case_bool_decide.
Qed.

Lemma delete_node_run i x d :
  ∃ d', delete_node i x d = (Ok tt, d') ∧ deleted_in d d' ∧
    ∀ y, y ∈ gone d' ↔ y ∈ gone d ∨ y = x ∧ is_Some (node_row x d).
Proof.
  unfold delete_node. cbv [mbind Auto_bind stmt gets mret Auto_ret].
  destruct (node_row x d) as [row|] eqn:Hr.
  - case_bool_decide as Hx.
    + exists d. split; [done|]. split; [|set_solver]. split_and!; try done.
      intros y. rewrite bool_decide_false by tauto. by rewrite option_fmap_id.
    + eexists. split; [reflexivity|]. cbn. split; [|set_solver]. split_and!; try done; [cbn; set_solver|].
      intros y. cbn. destruct (decide (y = x)) as [->|Hy].
      * rewrite bool_decide_true by (split; [set_solver|done]). by rewrite lookup_alter_eq.
      * rewrite bool_decide_false by set_solver. rewrite lookup_alter_ne by done. by rewrite option_fmap_id.
  - exists d. split; [done|]. split; [|split; [tauto|intros [?|[_ []%is_Some_None]]; done]].
    split_and!; try done. intros y. rewrite bool_decide_false by tauto. by rewrite option_fmap_id.
Qed.

Lemma deleted_in_trans d1 d2 d3 : deleted_in d1 d2 → deleted_in d2 d3 → deleted_in d1 d3.
Proof.
  intros (H1 & H2 & H3 & H4 & H5) (J1 & J2 & J3 & J4 & J5). split_and!; try congruence; [set_solver|].
  intros x. rewrite J5, H5, <- option_fmap_compose. f_equal.
  destruct (decide (x ∈ gone d1)); [by rewrite !bool_decide_false by set_solver|].
  destruct (decide (x ∈ gone d2)).
  - rewrite (bool_decide_false (x ∈ gone d3 ∧ _)) by tauto.
    rewrite (bool_decide_true (x ∈ gone d2 ∧ _)), (bool_decide_true (x ∈ gone d3 ∧ _)) by set_solver. done.
  - rewrite (bool_decide_false (x ∈ gone d2 ∧ _)) by tauto. unfold compose, Datatypes.id.
    destruct (decide (x ∈ gone d3)); [by rewrite !bool_decide_true|by rewrite !bool_decide_false by tauto].
Qed.

Lemma delete_nodes_run i l d :
  ∃ d', delete_nodes i l d = (Ok tt, d') ∧ deleted_in d d' ∧
    ∀ y, y ∈ gone d' ↔ y ∈ gone d ∨ y ∈ l ∧ is_Some (node_row y d).
Proof.
  revert d. induction l as [|x l IH]; intros d.
  - exists d. split; [done|]. split; [|set_solver]. split_and!; try done.
    intros y. rewrite bool_decide_false by tauto. by rewrite option_fmap_id.
  - destruct (delete_node_run i x d) as (d1 & H1 & Hd1 & Hg1). destruct (IH d1) as (d2 & H2 & Hd2 & Hg2).
    exists d2. cbn. cbv [mbind Auto_bind]. rewrite H1. split; [done|]. split; [by eapply deleted_in_trans|].
    intros y. rewrite Hg2, Hg1, elem_of_cons, (node_row_gone d d1) by done. naive_solver.
Qed.

(** The subtree of a node, in the tree of the user. *)
Definition subtree (a : string) (d : Db) : list string :=
  Nodes.all_descendants own_node (Nodes.nodes (tree d)) [a].

(** The node moved to the root and every device was told to load everything
    (or the user was not found). *)
Definition rerooted (k : SyncIssueKey) (row : Nodes.NodeRow) (d d' : Db) : Prop :=
  0 < active_actions (objectid k) d ∧ gone d' = gone d ∧
  Nodes.nodes (tree d') =
    alter (rooted_row (repaired_name (Nodes.n_name row))) (objectid k) (Nodes.nodes (tree d)).

(** The nodes of the subtree are deleted. *)
Definition pruned (k : SyncIssueKey) (d d' : Db) : Prop :=
  active_actions (objectid k) d = 0 ∧ deleted_in d d' ∧
  ∀ x, x ∈ gone d' ↔ x ∈ gone d ∨ x ∈ subtree (objectid k) d ∧ is_Some (node_row x d).

Lemma parent_run i k d :
  let d' := (repairMissingNodeParentIssue i k d).2 in
  d' = d ∨ ∃ row, node_row (objectid k) d = Some row ∧ objectid k ∉ gone d ∧
    default EmptyString (Nodes.n_parent row) = referencedid k ∧ lost_node (referencedid k) d = true ∧
    store d' = store d ∧ (rerooted k row d d' ∨ pruned k d d').
Proof.
  unfold repairMissingNodeParentIssue. cbv zeta. cbv [mbind Auto_bind stmt gets mret Auto_ret].
  destruct (node_row (objectid k) d) as [row|] eqn:Hr; [|by left].
  case_bool_decide as Hg; [by left|]. cbn [orb]. case_bool_decide as Hp; [|by left]. cbn [negb].
  destruct (lost_node (referencedid k) d) eqn:Hl; [|by left]. cbn [negb]. right. exists row.
  do 4 (split; [done|]). destruct (Z.ltb_spec 0 (active_actions (objectid k) d)) as [Ha|Ha].
  - unfold count_epoch, next_epoch. cbv [mbind M_bind gets modify mret M_ret lift].
    destruct (_ !! cuser); cbn; (split; [done|]; by left).
  - destruct (delete_nodes_run i (subtree_ids (objectid k) d) d) as (d' & -> & Hd & Hx). cbn [snd].
    split; [apply Hd|]. right. split_and!; [|done|].
    + unfold active_actions in *. lia.
    + intros x. rewrite Hx, elem_of_subtree_ids. unfold subtree. destruct (decide (x ∈ gone d)); tauto.
Qed.

(** ** Nothing is hidden

    No action that is not deleted lies in a deleted node. *)
Definition visible (d : Db) : Prop :=
  ∀ i row n, action_row i d = Some row → r_status row ≠ Recurrence.DELETED → r_node row = Some n → n ∉ gone d.

Lemma active_actions_zero a d i row n :
  active_actions a d = 0 → action_row i d = Some row → r_status row ≠ Recurrence.DELETED →
  r_node row = Some n → n ∉ subtree a d.
Proof.
  intros H0 Hr Hs Hn Hx. unfold active_actions in H0.
  assert (Hin : (i, row) ∈ List.filter (λ kv : string * ActionRow, live_in (subtree a d) kv.2)
                             (map_to_list (ActionStore.rows (store d)))).
  { apply elem_of_list_filter_bool. split; [by apply elem_of_map_to_list|]. unfold live_in. cbn.
    by rewrite Hn, bool_decide_false, bool_decide_true. }
  unfold subtree in Hin. destruct (List.filter _ _); [by apply elem_of_nil in Hin|]. cbn in H0. lia.
Qed.

Lemma repair_cases i d :
  let d' := (repair i d).2 in
  d' = d ∨ ∃ k, key i = Some k ∧ objectid k ≠ EmptyString ∧ referencedid k ≠ EmptyString ∧
    (d' = (repairMissingActionOriginIssue i k d).2 ∨ d' = (repairMissingNodeParentIssue i k d).2 ∨
     d' = (repairMissingWorkSessionActionIssue i k d).2 ∨ d' = (repairMissingTimeBlockActionIssue i k d).2).
Proof.
  unfold repair, isMissingActionOriginIssue, isMissingNodeParentIssue, isMissingWorkSessionActionIssue,
    isMissingTimeBlockActionIssue.
  destruct (key i) as [k|] eqn:Hk; [|by left].
  assert (Hi : ∀ a b, is_issue a b i = true → objectid k ≠ EmptyString ∧ referencedid k ≠ EmptyString).
  { intros a b. unfold is_issue. rewrite Hk. intros Hi. split_bools.
    repeat match goal with H : negb _ = true |- _ => apply negb_true_iff in H end. by split_bools. }
  assert (Hu : ∀ (m : Auto Db unit), ((let! _ := m in mret false) d : result bool * Db).2 = (m d).2).
  { intros m. cbv [mbind Auto_bind]. by destruct (m d) as [[[]|] ?]. }
  cbv zeta. destruct (is_issue _ _ i) eqn:H1; cbn [negb].
  { right. exists k. rewrite Hu. split; [done|]. destruct (Hi _ _ H1). auto. }
  destruct (is_issue SYNC_OBJECT_TYPE_NODE _ i) eqn:H2.
  { right. exists k. split; [done|]. destruct (Hi _ _ H2). auto 10. }
  destruct (is_issue SYNC_OBJECT_TYPE_WORK_SESSION _ i) eqn:H3.
  { right. exists k. rewrite Hu. split; [done|]. destruct (Hi _ _ H3). auto 10. }
  destruct (is_issue SYNC_OBJECT_TYPE_TIME_BLOCK _ i) eqn:H4; [|by left].
  right. exists k. rewrite Hu. split; [done|]. destruct (Hi _ _ H4). auto 10.
Qed.

Lemma repair_all_always R `{!PreOrder R} seen issues :
  (∀ i, always R (repair i)) → always R (repair_all seen issues).
Proof.
  intros Hi. revert seen. induction issues as [|i issues IH]; intros seen; cbn; [by apply always_ret|].
  destruct (negb _); [done|]. case_bool_decide; [done|]. apply always_bind; [done|done|].
  intros [|]; [by apply always_ret|done].
Qed.

Lemma ReportSyncIssues_always R `{!PreOrder R} issues :
  (∀ i, always R (repair i)) → (∀ d, R d (flush d)) → (∀ d, R d (drop_queue d)) →
  always R (ReportSyncIssues issues).
Proof.
  intros Hi Hf Hd d. pose proof (repair_all_always R ∅ issues Hi d) as Hr. unfold ReportSyncIssues.
  destruct (repair_all ∅ issues d) as [[u|e] d']; cbn in *; by etrans.
Qed.

Definition preserves (P : Db → Prop) (d d' : Db) : Prop := P d → P d'.
#[local] Instance preserves_preorder P : PreOrder (preserves P).
Proof. split; unfold preserves; [by intros d|by intros d1 d2 d3 H1 H2 H3; auto]. Qed.

Lemma visible_same d d' :
  (∀ i row', action_row i d' = Some row' →
     ∃ row, action_row i d = Some row ∧ r_status row' = r_status row ∧ r_node row' = r_node row) →
  (∀ i row n, action_row i d = Some row → r_status row ≠ Recurrence.DELETED → r_node row = Some n →
     n ∈ gone d' → n ∈ gone d) →
  preserves visible d d'.
Proof.
  intros Hr Hg Hv i row' n Hi Hs Hn Hx. destruct (Hr i row' Hi) as (row & Hrow & Es & En).
  rewrite Es in Hs. rewrite En in Hn. eapply (Hv i row n); [done..|]. by eapply Hg.
Qed.

Lemma repair_visible i : always (preserves visible) (repair i).
Proof.
  intros d. destruct (repair_cases i d) as [->|(k & _ & _ & _ & Hc)]; [by intros ?|].
  destruct Hc as [->|[->|[->| ->]]].
  - destruct (origin_run i k d) as [->|(row & Hr & _ & _ & _ & Hs & _ & Hg & _)]; [by intros ?|].
    apply visible_same; [|by rewrite Hg]. intros j row'. unfold action_row. rewrite Hs. cbn.
    intros [[<- <-]|[_ Hj]]%lookup_insert_Some; [by exists row|by exists row'].
  - destruct (parent_run i k d) as [->|(row & _ & _ & _ & _ & Hs & [(_ & Hg & _)|(Ha & _ & Hg)])]; [by intros ?| |].
    + apply visible_same; [unfold action_row; rewrite Hs; by eauto|by rewrite Hg].
    + apply visible_same; [unfold action_row; rewrite Hs; by eauto|].
      intros j r n Hj Hsj Hn [?|[Hx _]]%Hg; [done|]. by destruct (active_actions_zero _ _ _ _ _ Ha Hj Hsj Hn).
  - destruct (session_run i k d) as [->|(w & _ & _ & _ & _ & Hs & _ & Hg & _)]; [by intros ?|].
    apply visible_same; [unfold action_row; rewrite Hs; cbn; by eauto|by rewrite Hg].
  - destruct (block_run i k d) as [->|(w & _ & _ & _ & _ & Hs & _ & Hg & _)]; [by intros ?|].
    apply visible_same; [unfold action_row; rewrite Hs; cbn; by eauto|by rewrite Hg].
Qed.

(** No report, whatever it claims and in whatever order its issues come,
    deletes a node that an action which is not deleted lies in: a lost
    subtree with such an action is moved to the root instead. *)
Theorem ReportSyncIssues_hides_nothing issues d :
  visible d → visible (ReportSyncIssues issues d).2.
Proof.
  apply (ReportSyncIssues_always (preserves visible)); [apply repair_visible|by intros ? ?..].
Qed.

(** Repairing a work session is deleting it: the tables and the counters
    are those [deleteWorkSession] of Work.cpp leaves. *)
Theorem session_repair_deletes i k d w :
  session_row (objectid k) d = Some w → ws_state w ≠ DELETED → ws_action w = referencedid k →
  lost_action (referencedid k) d = true →
  (∀ v, v ∈ ActionStore.sessions (store d) → ws_id v = objectid k → v = w) →
  let s := store (repairMissingWorkSessionActionIssue i k d).2 in
  ∃ s', ActionStore.deleteWorkSession tz enable_plan (objectid k) (store d) = Ok (tt, s') ∧
    ActionStore.sessions s = ActionStore.sessions s' ∧ ActionStore.usage s = ActionStore.usage s' ∧
    ActionStore.same_tables (store d) s ∧ ActionStore.same_tables (store d) s'.
Proof.
  intros Hw Hs Ho Hl Hu s. destruct (session_hit i k d w Hw Hs Ho Hl) as [Hstore _]. fold s in Hstore.
  assert (Hin : w ∈ ActionStore.sessions (store d) ∧ ws_id w = objectid k).
  { apply head_Some_elem_of, elem_of_list_filter_bool in Hw as [? Hid]. by apply bool_decide_eq_true in Hid. }
  destruct Hin as [Hin Hid].
  destruct (WorkStore.deleteWorkSession_run (objectid k) (ActionStore.work_of (store d)) w Hin Hid) as (x & Hr).
  unfold ActionStore.deleteWorkSession, ActionStore.in_work. cbv [mbind M_bind]. rewrite Hr.
  eexists. split; [reflexivity|]. rewrite Hstore. split_and!; try done. cbn. unfold cleared.
  apply list_fmap_ext. intros j v Hv. apply list_elem_of_lookup_2 in Hv.
  unfold WorkStore.has_id. case_bool_decide as Hvi; [|done].
  rewrite (Hu v Hv Hvi). by rewrite (bool_decide_true (ws_action w = referencedid k)).
Qed.

(** ** Only broken references are repaired *)
Definition action_repaired (d : Db) (row row' : ActionRow) : Prop :=
  row' = row ∨ row' = ActionStore.row_origin None row ∧ r_status row ≠ Recurrence.DELETED ∧
    ∃ o, r_origin row = Some o ∧ lost_action o d = true.

Definition session_repaired (d : Db) (w w' : WorkSession) : Prop :=
  w' = w ∨ w' = WorkStore.deleted_row w ∧ ws_action w ≠ EmptyString ∧ lost_action (ws_action w) d = true.

(** A block keeps all but the lost actions, and all its other columns. *)
Definition block_repaired (d : Db) (row row' : TimeBlocks.BlockRow) : Prop :=
  TimeBlocks.br_name row' = TimeBlocks.br_name row ∧ TimeBlocks.br_start row' = TimeBlocks.br_start row ∧
  TimeBlocks.br_end row' = TimeBlocks.br_end row ∧ TimeBlocks.br_kind row' = TimeBlocks.br_kind row ∧
  TimeBlocks.br_category row' = TimeBlocks.br_category row ∧
  TimeBlocks.listed row' `sublist_of` TimeBlocks.listed row ∧
  ∀ a, a ∈ TimeBlocks.listed row → a ∉ TimeBlocks.listed row' → lost_action a d = true.

Definition node_repaired (row row' : Nodes.NodeRow) : Prop :=
  Nodes.n_user row' = Nodes.n_user row ∧ Nodes.n_kind row' = Nodes.n_kind row ∧
  Nodes.n_descr row' = Nodes.n_descr row ∧ Nodes.n_inbox row' = Nodes.n_inbox row ∧
  Nodes.n_exclude row' = Nodes.n_exclude row ∧ Nodes.n_category row' = Nodes.n_category row ∧
  (Nodes.n_parent row' = Nodes.n_parent row ∨ Nodes.n_parent row' = None).

Record repaired (d d' : Db) : Prop := {
  rep_actions i : option_Forall2 (action_repaired d) (action_row i d) (action_row i d');
  rep_sessions : Forall2 (session_repaired d) (ActionStore.sessions (store d)) (ActionStore.sessions (store d'));
  rep_blocks i : option_Forall2 (block_repaired d) (ActionStore.blocks (store d) !! i) (ActionStore.blocks (store d') !! i);
  rep_assocs p : p ∈ ActionStore.block_actions (store d') → p ∈ ActionStore.block_actions (store d);
  rep_lost_assocs p : p ∈ ActionStore.block_actions (store d) → p ∉ ActionStore.block_actions (store d') →
    lost_action p.2 d = true;
  rep_nodes i : option_Forall2 node_repaired (Nodes.nodes (tree d) !! i) (Nodes.nodes (tree d') !! i);
  rep_gone : gone d ⊆ gone d';
  rep_categories : ActionStore.categories (store d') = ActionStore.categories (store d)
}.

Lemma lost_action_repaired d d' o : repaired d d' → lost_action o d' = lost_action o d.
Proof.
  intros Hr. unfold lost_action. pose proof (rep_actions d d' Hr o) as Ho.
  destruct Ho as [row row' [->|(-> & _)]|]; done.
Qed.

#[local] Instance option_Forall2_refl' {A} (R : relation A) `{!Reflexive R} : Reflexive (option_Forall2 R).
Proof. intros [x|]; by constructor. Qed.

#[local] Instance action_repaired_refl d : Reflexive (action_repaired d).
Proof. by left. Qed.
#[local] Instance session_repaired_refl d : Reflexive (session_repaired d).
Proof. by left. Qed.
#[local] Instance block_repaired_refl d : Reflexive (block_repaired d).
Proof. by intros row; split_and!. Qed.
#[local] Instance node_repaired_refl : Reflexive node_repaired.
Proof. intros row. split_and!; auto. Qed.

(** The rows that the next repair sees are as broken as those of the first. *)
Lemma action_repaired_trans d d' r1 r2 r3 :
  (∀ o, lost_action o d' = lost_action o d) →
  action_repaired d r1 r2 → action_repaired d' r2 r3 → action_repaired d r1 r3.
Proof.
  intros Hl H1 [->|(-> & Hs & o & Ho & Hlo)]; [done|].
  destruct H1 as [->|(-> & _)]; [|done]. right. rewrite Hl in Hlo. eauto.
Qed.

Lemma session_repaired_trans d d' r1 r2 r3 :
  (∀ o, lost_action o d' = lost_action o d) →
  session_repaired d r1 r2 → session_repaired d' r2 r3 → session_repaired d r1 r3.
Proof.
  intros Hl H1 [->|(-> & Ha & Hlo)]; [done|]. destruct H1 as [->|(-> & _)]; [|done].
  right. rewrite Hl in Hlo. eauto.
Qed.

Lemma block_repaired_trans d d' r1 r2 r3 :
  (∀ o, lost_action o d' = lost_action o d) →
  block_repaired d r1 r2 → block_repaired d' r2 r3 → block_repaired d r1 r3.
Proof.
  intros Hl (H1 & H2 & H3 & H4 & H5 & H6 & H7) (J1 & J2 & J3 & J4 & J5 & J6 & J7).
  split_and!; try congruence; [by etrans|]. intros a Ha Hn.
  destruct (decide (a ∈ TimeBlocks.listed r2)); [|by apply H7]. rewrite <- Hl. by apply J7.
Qed.

Lemma option_Forall2_comp {A B C} (P : A → B → Prop) (Q : B → C → Prop) (R : A → C → Prop) x y z :
  (∀ a b c, P a b → Q b c → R a c) → option_Forall2 P x y → option_Forall2 Q y z → option_Forall2 R x z.
Proof. intros H [a b Hab|] Hyz; inversion Hyz; subst; constructor. by eapply H. Qed.

Lemma Forall2_comp {A B C} (P : A → B → Prop) (Q : B → C → Prop) (R : A → C → Prop) l1 l2 l3 :
  (∀ a b c, P a b → Q b c → R a c) → Forall2 P l1 l2 → Forall2 Q l2 l3 → Forall2 R l1 l3.
Proof. intros H Hl. revert l3. induction Hl; intros l3 Hl3; inversion Hl3; subst; constructor; eauto. Qed.

#[local] Instance repaired_preorder : PreOrder repaired.
Proof.
  split; [intros d; by split; try reflexivity|].
  intros d1 d2 d3 H1 H2. assert (Hl := λ o, lost_action_repaired d1 d2 o H1). split.
  - intros i. eapply option_Forall2_comp; [|apply H1|apply H2]. intros a b c. by apply action_repaired_trans.
  - eapply Forall2_comp; [|apply H1|apply H2]. intros a b c. by apply session_repaired_trans.
  - intros i. eapply option_Forall2_comp; [|apply H1|apply H2]. intros a b c. by apply block_repaired_trans.
  - intros p Hp. by apply H1, H2.
  - intros p Hp Hn. destruct (decide (p ∈ ActionStore.block_actions (store d2))); [|by apply H1].
    rewrite <- Hl. by apply (rep_lost_assocs _ _ H2).
  - intros i. eapply option_Forall2_comp; [|apply H1|apply H2].
    intros a b c (E1 & E2 & E3 & E4 & E5 & E6 & E7) (F1 & F2 & F3 & F4 & F5 & F6 & [F7|F7]);
      (split_and!; [congruence..|]); [by rewrite F7|by right].
  - etrans; [apply H1|apply H2].
  - rewrite (rep_categories _ _ H2). apply H1.
Qed.

Lemma option_Forall2_insert {A} (R : relation A) `{!Reflexive R} (m : gmap string A) i x y j :
  m !! i = Some x → R x y → option_Forall2 R (m !! j) (<[i := y]> m !! j).
Proof.
  intros Hi Hr. destruct (decide (i = j)) as [<-|]; [rewrite Hi, lookup_insert_eq; by constructor|].
  by rewrite lookup_insert_ne.
Qed.

(** A repair of the store alone. *)
Lemma repaired_store d d' :
  same_tree d d' →
  (∀ i, option_Forall2 (action_repaired d) (action_row i d) (action_row i d')) →
  Forall2 (session_repaired d) (ActionStore.sessions (store d)) (ActionStore.sessions (store d')) →
  (∀ i, option_Forall2 (block_repaired d) (ActionStore.blocks (store d) !! i) (ActionStore.blocks (store d') !! i)) →
  (∀ p, p ∈ ActionStore.block_actions (store d') → p ∈ ActionStore.block_actions (store d)) →
  (∀ p, p ∈ ActionStore.block_actions (store d) → p ∉ ActionStore.block_actions (store d') →
    lost_action p.2 d = true) →
  ActionStore.categories (store d') = ActionStore.categories (store d) → repaired d d'.
Proof. intros (Ht & Hg & _) ? ? ? ? ? ?. split; rewrite ?Ht, ?Hg; try done. Qed.

Lemma origin_repaired i k d :
  referencedid k ≠ EmptyString → repaired d (repairMissingActionOriginIssue i k d).2.
Proof.
  intros Hne. destruct (origin_run i k d) as [->|(row & Hr & Hd & Ho & Hl & Hs & Ht)]; [done|].
  apply repaired_store; [done|..]; unfold action_row; rewrite Hs; cbn; try done.
  intros j. eapply option_Forall2_insert; [apply _|exact Hr|]. right. split; [done|]. split; [done|].
  destruct (r_origin row) as [o|]; cbn in Ho; [|by subst]. exists o. by rewrite Ho.
Qed.

Lemma session_repair_repaired i k d :
  referencedid k ≠ EmptyString → repaired d (repairMissingWorkSessionActionIssue i k d).2.
Proof.
  intros Hne. destruct (session_run i k d) as [->|(w & Hr & Hd & Ho & Hl & Hs & Ht)]; [done|].
  apply repaired_store; [done|..]; unfold action_row; rewrite Hs; cbn; try done.
  unfold cleared. apply Forall2_fmap_r. apply Forall_Forall2_diag, Forall_true. intros x.
  unfold compose. case_if; [|by left]. split_bools. right. split_and!; congruence.
Qed.

Lemma elem_of_without x y l : y ∈ without x l ↔ y ∈ l ∧ y ≠ x.
Proof. unfold without. by rewrite elem_of_list_filter_bool, negb_true_iff, bool_decide_eq_false. Qed.

Lemma without_sublist x l : without x l `sublist_of` l.
Proof. unfold without. induction l as [|y l IH]; cbn; [done|]. case_bool_decide; by constructor. Qed.

Lemma block_repair_repaired i k d : repaired d (repairMissingTimeBlockActionIssue i k d).2.
Proof.
  destruct (block_run i k d) as [->|(row & Hr & Hd & Ho & Hl & Hs & Ht)]; [done|].
  apply repaired_store; [done|..]; unfold action_row; rewrite Hs; cbn; try done.
  - intros j. rewrite alter_alt, Hr. eapply option_Forall2_insert; [apply _|exact Hr|].
    split_and!; try done; cbn; [apply without_sublist|].
    intros x Hx Hn. destruct (decide (x = referencedid k)) as [->|]; [done|].
    destruct Hn. by apply elem_of_without.
  - set_solver.
  - intros p Hp Hn. destruct (decide (p = (objectid k, referencedid k))) as [->|Hne]; [done|].
    destruct Hn. by apply elem_of_difference; rewrite elem_of_singleton.
Qed.

Lemma node_repaired_gone r : node_repaired r (gone_row r).
Proof. split_and!; auto. Qed.
Lemma node_repaired_rooted name r : node_repaired r (rooted_row name r).
Proof. split_and!; auto. Qed.

Lemma parent_repaired i k d : repaired d (repairMissingNodeParentIssue i k d).2.
Proof.
  destruct (parent_run i k d) as [->|(row & Hr & _ & _ & _ & Hs & Hc)]; [done|].
  revert Hs Hc. generalize (repairMissingNodeParentIssue i k d).2. intros d' Hs Hc.
  split; unfold action_row; rewrite ?Hs; try reflexivity; try done.
  - intros x. destruct Hc as [(_ & _ & ->)|(_ & (_ & _ & _ & _ & Hn) & _)].
    + rewrite alter_alt. unfold node_row in Hr. destruct (Nodes.nodes (tree d) !! objectid k) as [r|] eqn:Hk; [|done].
      eapply option_Forall2_insert; [apply _|exact Hk|]. apply node_repaired_rooted.
    + rewrite Hn. destruct (Nodes.nodes (tree d) !! x) as [r|]; [|constructor].
      destruct (bool_decide _); constructor; [apply node_repaired_gone|done].
  - destruct Hc as [(_ & -> & _)|(_ & (_ & _ & _ & Hg & _) & _)]; done.
Qed.

Lemma repair_repaired i : always repaired (repair i).
Proof.
  intros d. destruct (repair_cases i d) as [->|(k & _ & _ & Hne & [->|[->|[->| ->]]])]; [done|..].
  - by apply origin_repaired.
  - apply parent_repaired.
  - by apply session_repair_repaired.
  - apply block_repair_repaired.
Qed.


(** ** The tables stay consistent *)
Context `{CivilCalendar} (max_actions : Z).

Definition consistent (d : Db) : Prop := ActionStore.store_inv tz max_actions (store d).

Lemma cleared_sessions_inv (p : WorkSession → bool) s :
  WorkStore.inv (ActionStore.work_of s) →
  WorkStore.inv (ActionStore.work_of
    (ActionStore.set_sessions ((λ w, if p w then WorkStore.deleted_row w else w) <$> ActionStore.sessions s) s)).
Proof.
  intros Hi. apply (WorkStore.inv_subset _ _ Hi).
  - cbn. apply Forall_fmap, Forall_forall. intros w Hw. unfold compose. destruct (p w); [done|].
    destruct Hi as [_ Hf]. rewrite Forall_forall in Hf. by apply Hf.
  - intros i (w & Hw & Hid & Ha). cbn in Hw. apply list_elem_of_fmap in Hw as (v & -> & Hv).
    destruct (p v); [done|]. by exists v.
Qed.

Lemma removed_action_inv i row a s :
  ActionStore.blocks s !! i = Some row → TimeBlocks.br_kind row ≠ TimeBlocks.BLOCK_DELETED →
  ActionStore.store_inv tz max_actions s →
  ActionStore.store_inv tz max_actions
    (set_blocks (alter (TimeBlocks.set_row_actions (without a (TimeBlocks.listed row))) i)
       (λ X, X ∖ {[(i, a)]}) s).
Proof.
  intros Hi Hk (Hr & [Hb Ha] & Hw). split_and!; [exact Hr| |exact Hw]. split.
  - intros j r. cbn. rewrite alter_alt, Hi. intros [[<- <-]|[Hne Hj]]%lookup_insert_Some Hkj.
    + destruct (Hb i row Hi Hk) as (Hnd & Hl & Hlen & Hval). cbn in Hl |- *. split_and!.
      * by eapply sublist_NoDup, without_sublist.
      * intros b. rewrite elem_of_difference, Hl, elem_of_without, elem_of_singleton. naive_solver.
      * pose proof (sublist_length _ _ (without_sublist a (TimeBlocks.listed row))). lia.
      * exact Hval.
    + destruct (Hb j r Hj Hkj) as (Hnd & Hl & Hlen & Hval). cbn in Hl |- *. split_and!; try done.
      intros b. rewrite elem_of_difference, Hl, elem_of_singleton. naive_solver.
  - intros j b. cbn. intros [Hj _]%elem_of_difference. apply Ha in Hj as [Hj ?]. split; [|done].
    cbn in Hj. rewrite alter_alt, Hi. destruct (decide (i = j)) as [<-|]; [rewrite lookup_insert_eq|rewrite lookup_insert_ne]; done.
Qed.

Lemma repair_consistent i : always (preserves consistent) (repair i).
Proof.
  intros d Hd. destruct (repair_cases i d) as [->|(k & _ & _ & _ & [->|[->|[->| ->]]])]; [done|..].
  - destruct (origin_run i k d) as [->|(row & Hr & _ & _ & _ & Hs & _)]; [done|].
    unfold consistent. rewrite Hs. apply ActionStore.insert_action_inv; [exact (λ _, Throw runtime_error)|done|].
    destruct Hd as [Hrows _]. destruct (Hrows _ _ Hr) as (H1 & _ & H3). by split_and!.
  - destruct (parent_run i k d) as [->|(row & _ & _ & _ & _ & Hs & _)]; [done|]. unfold consistent. by rewrite Hs.
  - destruct (session_run i k d) as [->|(w & _ & _ & _ & _ & Hs & _)]; [done|].
    unfold consistent. rewrite Hs. apply ActionStore.set_usage_inv, ActionStore.set_sessions_inv; [done|].
    apply cleared_sessions_inv, Hd.
  - destruct (block_run i k d) as [->|(row & Hr & Hk & _ & _ & Hs & _)]; [done|].
    unfold consistent. rewrite Hs. by apply removed_action_inv.
Qed.

(** C1: The repairs keep the tables consistent: every reference of a row
    has its target, the two records of the actions of a time block agree
    and at most one session is active, also when the handler throws. *)
Theorem ReportSyncIssues_consistent issues d :
  consistent d → consistent (ReportSyncIssues issues d).2.
Proof.
  apply (ReportSyncIssues_always (preserves consistent)); [apply repair_consistent|by intros ? ?..].
Qed.
End repairs.

(** ** The id of an issue *)
Fixpoint has_newline (s : string) : bool :=
  match s with
  | EmptyString => false
  | String c s => bool_decide (c = Ascii.ascii_of_nat 10) || has_newline s
  end.

Lemma pretty_N_go_no_newline x s : has_newline s = false → has_newline (pretty_N_go x s) = false.
Proof.
  revert s. induction (N.lt_wf_0 x) as [x _ IH]; intros s Hs.
  destruct (decide (x = 0%N)) as [->|Hx]; [by rewrite pretty_N_go_0|].
  rewrite pretty_N_go_step by lia. apply IH; [apply N.div_lt; lia|].
  cbn. rewrite Hs, orb_false_r. unfold pretty_N_char. by repeat case_match.
Qed.

Lemma pretty_N_no_newline (n : N) : has_newline (pretty n) = false.
Proof. unfold pretty, pretty_N. case_decide; [done|]. by apply pretty_N_go_no_newline. Qed.

Lemma pretty_no_newline (x : Z) : has_newline (pretty x) = false.
Proof. destruct x as [|p|p]; [done|exact (pretty_N_no_newline (N.pos p))..]. Qed.

Lemma app_cons_inj (v v' r r' : string) :
  has_newline v = false → has_newline v' = false →
  v +:+ newline +:+ r = v' +:+ newline +:+ r' → v = v' ∧ r = r'.
Proof.
  revert v'. induction v as [|c v IH]; intros [|c' v']; cbn; intros Hv Hv' He.
  - by injection He.
  - injection He as <- _. by rewrite bool_decide_true in Hv'.
  - injection He as -> _. by rewrite bool_decide_true in Hv.
  - injection He as -> He. apply orb_false_iff in Hv as [_ Hv], Hv' as [_ Hv'].
    destruct (IH v' Hv Hv' He) as [-> ->]. done.
Qed.

Lemma line_inj name v v' r r' :
  has_newline v = false → has_newline v' = false →
  line name v +:+ r = line name v' +:+ r' → v = v' ∧ r = r'.
Proof.
  intros Hv Hv'. unfold line. rewrite !string_app_assoc. intros He.
  apply (inj (String.append _)), (inj (String.append _)) in He. by apply app_cons_inj.
Qed.

Lemma last_line_inj name v v' : line name v = line name v' → v = v'.
Proof.
  unfold line. intros He%(inj (String.append _))%(inj (String.append _)). revert v' He.
  induction v as [|c v IH]; intros [|c' v']; cbn; intros He; [done|..].
  - injection He as _ He. by destruct v'.
  - injection He as _ He. by destruct v.
  - injection He as -> He. f_equal. by apply IH.
Qed.

(** C1: The bytes an issue's id is computed from determine its key, when the
    id of the object has no line break, as a uuid has none. *)
Theorem canonicalSyncIssueKeyBytes_inj k k' :
  has_newline (objectid k) = false → has_newline (objectid k') = false →
  canonicalSyncIssueKeyBytes k = canonicalSyncIssueKeyBytes k' → k = k'.
Proof.
  intros Ho Ho' He. unfold canonicalSyncIssueKeyBytes in He.
  apply line_inj in He as [H1%(inj pretty) He]; [|apply pretty_no_newline..].
  apply line_inj in He as [H2 He]; [|done..].
  apply line_inj in He as [H3%(inj pretty) He]; [|apply pretty_no_newline..].
  apply line_inj in He as [H4%(inj pretty) H5%last_line_inj]; [|apply pretty_no_newline..].
  destruct k, k'; cbn in *. congruence.
Qed.

(** Without that two issues can share an id. *)
Lemma canonical_collision :
  ∃ k k', k ≠ k' ∧ canonicalSyncIssueKeyBytes k = canonicalSyncIssueKeyBytes k'.
Proof.
  exists {| objecttype := 1; objectid := "a"; problem := 1; referencedtype := 1;
            referencedid := "b" +:+ newline +:+ "problem=1" +:+ newline +:+ "referenced_type=1" +:+
                            newline +:+ "referenced_id=c" |}.
  exists {| objecttype := 1;
            objectid := "a" +:+ newline +:+ "problem=1" +:+ newline +:+ "referenced_type=1" +:+
                        newline +:+ "referenced_id=b";
            problem := 1; referencedtype := 1; referencedid := "c" |}.
  split; [done|]. vm_compute. reflexivity.
Qed.

(** ** Examples *)
Definition example_node (parent : option string) : Nodes.NodeRow :=
  {| Nodes.n_user := "u"; Nodes.n_name := "work"; Nodes.n_kind := 1; Nodes.n_descr := ""; Nodes.n_active := true;
     Nodes.n_inbox := false; Nodes.n_parent := parent; Nodes.n_version := 1; Nodes.n_exclude := false;
     Nodes.n_category := None |}.

(** The action "a" and the node "p" are deleted; "b" came from "a" and lies
    in the node "n" below "p", as the empty nodes "m" and "k". *)
Definition broken_db : Db :=
  {| store := ActionStore.set_rows (alter ActionStore.tombstone "a") ActionStore.example_db;
     tree := {| Nodes.nodes := {["p" := example_node None; "n" := example_node (Some "p");
                                 "m" := example_node (Some "p"); "k" := example_node (Some "m")]};
                Nodes.epoch := {["u" := 7]}; Nodes.updates := [] |};
     gone := {["p"]}; queued := []; published := [] |}.

Definition issue (object : Z) (id : string) (referenced : Z) (ref : string) : SyncIssue :=
  let k := {| objecttype := object; objectid := id; problem := 1; referencedtype := referenced;
              referencedid := ref |} in
  {| issueid := canonicalSyncIssueKeyBytes k; key := Some k |}.

Abbreviation report := (ReportSyncIssues "u" Recurrence.cet true (λ s, s)).

Definition all_issues : list SyncIssue :=
  [issue 1 "b" 1 "a"; issue 3 "w" 1 "a"; issue 4 "i" 1 "a"; issue 2 "m" 2 "p"; issue 2 "n" 2 "p"].

Definition fixes (e : Event) : option string :=
  match e with ev_update u => Some (fixesissueids u) | ev_full_resync _ => None end.

(** The full resync is published before what the earlier repairs queued. *)
Example report_all :
  let '(r, d) := report all_issues broken_db in
  r = Ok tt ∧
  (r_origin <$> ActionStore.rows (store d) !! "b") = Some None ∧
  (ws_state <$> ActionStore.sessions (store d)) = [DELETED] ∧
  (TimeBlocks.listed <$> ActionStore.blocks (store d) !! "i") = Some [] ∧
  gone d = {["p"; "m"; "k"]} ∧
  (Nodes.n_name <$> Nodes.nodes (tree d) !! "n") = Some "__work" ∧
  (fixes <$> published d) =
    None :: (Some ∘ issueid <$> [issue 1 "b" 1 "a"; issue 3 "w" 1 "a"; issue 4 "i" 1 "a";
                                 issue 2 "m" 2 "p"; issue 2 "m" 2 "p"]).
Proof. vm_compute. repeat (split; [reflexivity|]). reflexivity. Qed.

Lemma broken_visible : visible broken_db.
Proof.
  intros i row n. unfold action_row. cbn [broken_db store ActionStore.set_rows ActionStore.rows].
  intros Hi Hs Hn. assert (Hrow : row = ActionStore.weekly_row (Some "a")).
  { cbn in Hi. rewrite lookup_alter in Hi. case_decide.
    - subst i. vm_compute in Hi. injection Hi as <-. done.
    - apply lookup_insert_Some in Hi as [[? _]|[_ [_ <-]%lookup_singleton_Some]]; done. }
  subst row. injection Hn as <-. vm_compute. by intros ?.
Qed.

Lemma broken_consistent : consistent Recurrence.cet 24 broken_db.
Proof.
  apply ActionStore.set_rows_inv; [apply ActionStore.example_store_inv|by rewrite dom_alter_L|].
  intros i row Hi. cbn in Hi. rewrite lookup_alter in Hi.
  pose proof (proj1 ActionStore.example_store_inv) as Hr. case_decide.
  - apply fmap_Some in Hi as (r & Hr' & ->). by split_and!.
  - specialize (Hr i row Hi). destruct Hr as (H1 & H2 & H3). split_and!; [done| |done].
    intros o Ho. cbn. rewrite dom_alter_L. by apply H2.
Qed.

Lemma ReportSyncIssues_hides_nothing_witness :
  let d := (report all_issues broken_db).2 in
  visible d ∧ gone d = {["p"; "m"; "k"]} ∧
  (Nodes.n_parent <$> Nodes.nodes (tree d) !! "n") = Some None.
Proof.
  split; [apply ReportSyncIssues_hides_nothing, broken_visible|]. split; vm_compute; reflexivity.
Defined.

Lemma ReportSyncIssues_consistent_witness :
  consistent Recurrence.cet 24 (report all_issues broken_db).2.
Proof. apply ReportSyncIssues_consistent, broken_consistent. Defined.

Lemma session_repair_deletes_witness :
  ∃ s', ActionStore.deleteWorkSession Recurrence.cet true "w" (store broken_db) = Ok (tt, s') ∧
    (ws_state <$> ActionStore.sessions s') = [DELETED].
Proof.
  destruct (session_repair_deletes Recurrence.cet true (issue 3 "w" 1 "a")
              {| objecttype := 3; objectid := "w"; problem := 1; referencedtype := 1; referencedid := "a" |}
              broken_db ActionStore.done_session) as (s' & Hr & Hs & _).
  - reflexivity.
  - done.
  - reflexivity.
  - reflexivity.
  - intros v Hv _. cbn in Hv. by apply list_elem_of_singleton in Hv.
  - exists s'. split; [exact Hr|]. rewrite <- Hs. vm_compute. reflexivity.
Defined.

Lemma canonicalSyncIssueKeyBytes_inj_witness :
  ∃ k, k = {| objecttype := 3; objectid := "w"; problem := 1; referencedtype := 1; referencedid := "a" |}.
Proof.
  exists {| objecttype := 3; objectid := "w"; problem := 1; referencedtype := 1; referencedid := "a" |}.
  apply canonicalSyncIssueKeyBytes_inj; reflexivity.
Defined.
