(* ===== verification/IssueReport.v ===== *)
(** * What the client finds broken

    The client validates its tables at the end of a sync and while it reads
    them, drops what refers to nothing and reports it to the server, whose
    answer is SyncIssues.v.  The first part is the queue of reports of
    src/src/NextAppUi/ServerComm.cpp as a transition system, the second the
    validation in ActionInfoCache.cpp, MainTreeModel.cpp, WorkCache.cpp and
    CalendarCache.cpp over the client's tables.  An rpc that fails by
    itself answers with an error; that the database of the client refuses a
    statement is not modelled. *)
From S2P Require Import Prelude SyncIssues.
From S2P Require Nodes.

#[local] Open Scope Z_scope.

(** ** The queue of reports *)

(** [sent] is the variable of the coroutine that waits for the reply:
    [sync_issue_report_in_flight_] is set while there is one. *)
Record Comm := {
  online : bool;                              (* [status_ == Status::ONLINE] *)
  scheduled : bool;                           (* a timer is set *)
  sent : option (list string);
  tracked : gmap string SyncIssue;
  pending : gmap string SyncIssue;
  reported : gset string
}.

Definition in_flight (c : Comm) : bool := match sent c with Some _ => true | None => false end.

Definition set_issues (t p : gmap string SyncIssue) (r : gset string) (c : Comm) : Comm :=
  {| online := online c; scheduled := scheduled c; sent := sent c; tracked := t; pending := p; reported := r |}.

Definition set_run (o s : bool) (f : option (list string)) (c : Comm) : Comm :=
  {| online := o; scheduled := s; sent := f; tracked := tracked c; pending := pending c; reported := reported c |}.

Definition scheduleSyncIssueReport (c : Comm) : Comm :=
  if scheduled c || in_flight c then c else
  if negb (online c) || bool_decide (pending c = ∅) then c else set_run (online c) true (sent c) c.

Definition recordSyncIssue (i : SyncIssue) (c : Comm) : Comm :=
  let issue_id := issueid i in
  if bool_decide (issue_id = EmptyString) then c else
  let c := set_issues (<[issue_id := i]> (tracked c)) (pending c) (reported c) c in
  if bool_decide (is_Some (pending c !! issue_id)) || bool_decide (issue_id ∈ reported c) then c else
  scheduleSyncIssueReport (set_issues (tracked c) (<[issue_id := i]> (pending c)) (reported c) c).

Definition clearTrackedSyncIssue (id : string) (c : Comm) : Comm :=
  set_issues (delete id (tracked c)) (delete id (pending c)) (reported c ∖ {[id]}) c.

(** The issues of an object. *)
Definition about (object_type : Z) (object_id : string) (kv : string * SyncIssue) : bool :=
  match key kv.2 with
  | Some k => bool_decide (objecttype k = object_type) && bool_decide (objectid k = object_id)
  | None => bool_decide (0 = object_type) && bool_decide (EmptyString = object_id)
  end.

Definition clearSyncIssuesForObject (object_type : Z) (object_id : string) (c : Comm) : Comm :=
  foldl (λ c id, clearTrackedSyncIssue id c) c
    (List.filter (about object_type object_id) (map_to_list (tracked c))).*1.

Definition clearSyncIssuesResolvedByUpdate (fixes : list string) (c : Comm) : Comm :=
  foldl (λ c id, clearTrackedSyncIssue id c) c fixes.

(** [reportPendingSyncIssues] up to the rpc: the request, if one is sent. *)
Definition start_report (c : Comm) : option (list SyncIssue) * Comm :=
  if in_flight c || negb (online c) || bool_decide (pending c = ∅) then (None, c) else
  let l := map_to_list (pending c) in
  (Some l.*2, set_run (online c) (scheduled c) (Some l.*1) c).

(** The callback of the timer. *)
Definition on_timer (c : Comm) : option (list SyncIssue) * Comm :=
  start_report (set_run (online c) false (sent c) c).

(** The rest of the coroutine; the flag is reset when it ends. *)
Definition on_reply (ok : bool) (c : Comm) : Comm :=
  match sent c with
  | None => c
  | Some ids =>
      let c := (if ok : bool then
        let c := foldl (λ c id, set_issues (tracked c) (delete id (pending c)) ({[id]} ∪ reported c) c) c ids in
        if bool_decide (pending c = ∅) then c else scheduleSyncIssueReport c
      else c) in
      set_run (online c) (scheduled c) None c
  end.

Definition onGrpcReady (c : Comm) : Comm :=
  scheduleSyncIssueReport (set_run true (scheduled c) (sent c) c).

(** What happens to the client. *)
Inductive CommEvent :=
| ev_record (i : SyncIssue)
| ev_saved (object_type : Z) (object_id : string)
| ev_fixed (ids : list string)
| ev_timer
| ev_reply (ok : bool)
| ev_ready
| ev_offline.

(** The request that is sent, and the next state. *)
Definition comm_step (e : CommEvent) (c : Comm) : option (list SyncIssue) * Comm :=
  match e with
  | ev_record i => (None, recordSyncIssue i c)
  | ev_saved t id => (None, clearSyncIssuesForObject t id c)
  | ev_fixed ids => (None, clearSyncIssuesResolvedByUpdate ids c)
  | ev_timer => if scheduled c then on_timer c else (None, c)
  | ev_reply ok => (None, on_reply ok c)
  | ev_ready => (None, onGrpcReady c)
  | ev_offline => (None, set_run false (scheduled c) (sent c) c)
  end.

Fixpoint comm_run (es : list CommEvent) (c : Comm) : list (list SyncIssue) * Comm :=
  match es with
  | [] => ([], c)
  | e :: es =>
      let '(r, c) := comm_step e c in
      let '(rs, c) := comm_run es c in
      (match r with Some l => l :: rs | None => rs end, c)
  end.

Definition initial : Comm :=
  {| online := false; scheduled := false; sent := None; tracked := ∅; pending := ∅; reported := ∅ |}.

(** *** What holds of the queue *)

(** Every issue is kept under its id. *)
Definition by_id (m : gmap string SyncIssue) : Prop :=
  map_Forall (λ id i, issueid i = id ∧ id ≠ EmptyString) m.

Record comm_inv (c : Comm) : Prop := {
  ci_tracked : by_id (tracked c);
  ci_pending : by_id (pending c);
  ci_dom : dom (pending c) ⊆ dom (tracked c);
  ci_reported : dom (pending c) ## reported c
}.

Lemma comm_inv_run o s f c : comm_inv c → comm_inv (set_run o s f c).
Proof. intros [H1 H2 H3 H4]. by split. Qed.

Lemma schedule_inv c : comm_inv c → comm_inv (scheduleSyncIssueReport c).
Proof. intros Hc. unfold scheduleSyncIssueReport. repeat case_if; try done. by apply comm_inv_run. Qed.

Lemma clear_inv id c : comm_inv c → comm_inv (clearTrackedSyncIssue id c).
Proof.
  intros [H1 H2 H3 H4]. split; cbn; [by apply map_Forall_delete..| |]; rewrite ?dom_delete; set_solver.
Qed.

Lemma record_inv i c : comm_inv c → comm_inv (recordSyncIssue i c).
Proof.
  intros [H1 H2 H3 H4]. unfold recordSyncIssue. case_bool_decide as Hi; [by split|].
  cbn [set_issues pending reported tracked].
  assert (Hk : by_id (<[issueid i := i]> (tracked c))) by by apply map_Forall_insert_2.
  destruct (bool_decide (is_Some _) || _) eqn:Hb.
  - split; cbn; [done|done|rewrite dom_insert; set_solver|done].
  - apply orb_false_iff in Hb as [Hp Hr]. apply bool_decide_eq_false in Hp, Hr.
    apply schedule_inv. split; cbn; [done|by apply map_Forall_insert_2|..]; rewrite !dom_insert; set_solver.
Qed.

(** What the reply does to the issues of the request. *)
Definition mark_reported (c : Comm) (ids : list string) : Comm :=
  foldl (λ c id, set_issues (tracked c) (delete id (pending c)) ({[id]} ∪ reported c) c) c ids.

Lemma mark_reported_inv ids c : comm_inv c → comm_inv (mark_reported c ids).
Proof.
  intros Hc. unfold mark_reported. revert Hc. apply (foldl_inv comm_inv). intros c' id [H1 H2 H3 H4].
  split; cbn; [done|by apply map_Forall_delete|..]; rewrite dom_delete; set_solver.
Qed.

Lemma mark_reported_run ids c :
  let c' := mark_reported c ids in
  tracked c' = tracked c ∧ scheduled c' = scheduled c ∧ sent c' = sent c ∧ online c' = online c ∧
  reported c' = list_to_set ids ∪ reported c.
Proof.
  cbv zeta. unfold mark_reported. revert c. induction ids as [|id ids IH]; intros c; cbn; [set_solver|].
  destruct (IH (set_issues (tracked c) (delete id (pending c)) ({[id]} ∪ reported c) c))
    as (H2 & H3 & H4 & H5 & H6).
  split_and!; try done. rewrite H6. cbn. set_solver.
Qed.

Lemma reply_inv ok c : comm_inv c → comm_inv (on_reply ok c).
Proof.
  intros Hc. unfold on_reply. destruct (sent c) as [ids|]; [|done]. apply comm_inv_run.
  destruct ok; [|done]. fold (mark_reported c ids). cbv zeta.
  pose proof (mark_reported_inv ids c Hc). case_if; [done|by apply schedule_inv].
Qed.

Lemma comm_step_inv e c : comm_inv c → comm_inv (comm_step e c).2.
Proof.
  intros Hc. destruct e; cbn.
  - by apply record_inv.
  - by apply (foldl_inv comm_inv); [intros; apply clear_inv|].
  - by apply (foldl_inv comm_inv); [intros; apply clear_inv|].
  - case_if; [|done]. unfold on_timer, start_report. case_if; by repeat apply comm_inv_run.
  - by apply reply_inv.
  - by apply schedule_inv, comm_inv_run.
  - by apply comm_inv_run.
Qed.

Lemma comm_run_inv es c : comm_inv c → comm_inv (comm_run es c).2.
Proof.
  revert c. induction es as [|e es IH]; intros c Hc; [done|]. cbn.
  pose proof (comm_step_inv e c Hc) as H1. destruct (comm_step e c) as [r c1]. cbn in H1.
  specialize (IH c1 H1). by destruct (comm_run es c1).
Qed.

Lemma initial_inv : comm_inv initial.
Proof. split; cbn; [apply map_Forall_empty..| |]; set_solver. Qed.

(** C1: A report is sent only while online and while no other is on its
    way, and the issues in it are those that wait: each is there once, is
    still tracked, and was not reported since it was last cleared. *)
Theorem report_sends_pending e c l c' :
  comm_inv c → comm_step e c = (Some l, c') →
  online c = true ∧ sent c = None ∧ l ≠ [] ∧ NoDup (issueid <$> l) ∧
  (∀ i, i ∈ l ↔ pending c !! issueid i = Some i) ∧
  ∀ i, i ∈ l → issueid i ∈ dom (tracked c) ∧ issueid i ∉ reported c.
Proof.
  intros Hc He. destruct e; cbn in He; try done. destruct (scheduled c); [|done].
  unfold on_timer, start_report in He. cbn [set_run online scheduled sent pending in_flight] in He.
  destruct (in_flight _ || _ || _) eqn:Hb; [done|].
  apply orb_false_iff in Hb as [Hb Hp]. apply orb_false_iff in Hb as [Hs Ho].
  apply negb_false_iff in Ho. apply bool_decide_eq_false in Hp. injection He as <- _.
  assert (Hl : ∀ i, i ∈ (map_to_list (pending c)).*2 ↔ pending c !! issueid i = Some i).
  { intros i. rewrite list_elem_of_fmap. split.
    - intros ([id j] & -> & Hj%elem_of_map_to_list). cbn. by destruct (ci_pending c Hc id j Hj) as [-> _].
    - intros Hi. exists (issueid i, i). by rewrite elem_of_map_to_list. }
  split_and!; try done.
  - unfold in_flight in Hs. cbn in Hs. by destruct (sent c).
  - intros Hnil. apply Hp. apply map_to_list_empty_iff. by destruct (map_to_list (pending c)).
  - replace (issueid <$> (map_to_list (pending c)).*2) with (map_to_list (pending c)).*1;
      [apply NoDup_fst_map_to_list|].
    rewrite <- list_fmap_compose. apply list_fmap_ext. intros n [id j] Hn. cbn.
    apply list_elem_of_lookup_2, elem_of_map_to_list in Hn. by destruct (ci_pending c Hc id j Hn) as [-> _].
  - intros i Hi%Hl. assert (Hd : issueid i ∈ dom (pending c)) by by apply elem_of_dom_2 in Hi.
    destruct Hc as [_ _ H3 H4]. set_solver.
Qed.

(** *** What the queue loses *)

(** Nothing will send what waits. *)
Definition idle (c : Comm) : Prop := scheduled c = false ∧ sent c = None.

(** The reply never schedules the next report: the flag is still set when
    it asks for one. *)
Lemma reply_is_idle ok c : scheduled c = false → idle (on_reply ok c).
Proof.
  intros Hs. unfold on_reply, idle. destruct (sent c) as [ids|] eqn:Hf; [|by rewrite Hs, Hf].
  destruct ok; cbn; [|done]. fold (mark_reported c ids).
  destruct (mark_reported_run ids c) as (_ & H1 & H2 & _). case_if; cbn; [by rewrite H1|].
  unfold scheduleSyncIssueReport, in_flight. rewrite H1, H2, Hf, Hs. cbn. by rewrite H1.
Qed.

(** And an idle queue stays so, whatever is saved, fixed or found again,
    until the connection is set up again or something new is found. *)
Definition wakes (c : Comm) (e : CommEvent) : bool :=
  match e with
  | ev_ready => true
  | ev_record i => negb (bool_decide (issueid i ∈ dom (pending c)))
  | _ => false
  end.

Lemma clear_idle id c : idle c → idle (clearTrackedSyncIssue id c).
Proof. done. Qed.

Lemma idle_step e c : idle c → wakes c e = false → idle (comm_step e c).2 ∧ (comm_step e c).1 = None.
Proof.
  intros Hi Hw. destruct e; cbn in Hw |- *; try done.
  - split; [|done]. apply negb_false_iff, bool_decide_eq_true, elem_of_dom in Hw.
    unfold recordSyncIssue. case_bool_decide as He; [done|]. cbn. by rewrite bool_decide_true.
  - split; [|done]. by apply (foldl_inv idle); [intros; apply clear_idle|].
  - split; [|done]. by apply (foldl_inv idle); [intros; apply clear_idle|].
  - destruct Hi as [Hs Hf]. by rewrite Hs.
  - destruct Hi as [Hs Hf]. split; [by apply reply_is_idle|done].
Qed.

(** C1: An update that fixes an issue and comes before the reply to the
    report of it silences the issue: the reply marks it as reported when it
    is no longer tracked, and finding it again reports nothing. *)
Theorem fixed_before_reply_is_silenced c ids i :
  sent c = Some ids → issueid i ∈ ids → issueid i ≠ EmptyString →
  let c' := on_reply true (clearSyncIssuesResolvedByUpdate [issueid i] c) in
  issueid i ∉ dom (tracked c') ∧ issueid i ∈ reported c' ∧
  pending (recordSyncIssue i c') = pending c' ∧ scheduled (recordSyncIssue i c') = scheduled c'.
Proof.
  intros Hs Hin Hne. cbv zeta. set (d := clearSyncIssuesResolvedByUpdate [issueid i] c).
  assert (Hd : sent d = Some ids) by done.
  assert (Hc : tracked (on_reply true d) = tracked d ∧ reported (on_reply true d) = list_to_set ids ∪ reported d).
  { unfold on_reply. rewrite Hd. fold (mark_reported d ids). cbv zeta.
    destruct (mark_reported_run ids d) as (H1 & _ & _ & _ & H2).
    unfold scheduleSyncIssueReport. repeat case_if; done. }
  destruct Hc as [Ht Hr]. assert (Hri : issueid i ∈ reported (on_reply true d)) by (rewrite Hr; set_solver).
  split_and!; [rewrite Ht; cbn; rewrite dom_delete; set_solver|done|..];
    unfold recordSyncIssue; rewrite bool_decide_false by done; cbn;
    by rewrite (bool_decide_true (_ ∈ _)), orb_true_r.
Qed.

Lemma mark_reported_pending ids c id :
  id ∉ ids → pending (mark_reported c ids) !! id = pending c !! id.
Proof.
  unfold mark_reported. revert c. induction ids as [|x ids IH]; intros c; [done|].
  intros [Hx Hids]%not_elem_of_cons. cbn. rewrite IH by done. cbn. by rewrite lookup_delete_ne.
Qed.

Lemma schedule_pending c : pending (scheduleSyncIssueReport c) = pending c.
Proof. unfold scheduleSyncIssueReport. by repeat case_if. Qed.

(** An issue that is found while a report is on its way is stranded: it
    waits when the reply has come, whatever the reply is, and no timer is
    set that would send it. *)
Theorem found_in_flight_is_stranded c ids i ok :
  sent c = Some ids → scheduled c = false → issueid i ≠ EmptyString → issueid i ∉ ids →
  issueid i ∉ dom (pending c) → issueid i ∉ reported c →
  let c' := on_reply ok (recordSyncIssue i c) in
  pending c' !! issueid i = Some i ∧ idle c'.
Proof.
  intros Hs Ht Hne Hids Hp Hr. cbv zeta. set (d := recordSyncIssue i c).
  assert (Hd : pending d !! issueid i = Some i ∧ sent d = Some ids ∧ scheduled d = false).
  { unfold d, recordSyncIssue. rewrite bool_decide_false by done. cbn.
    rewrite bool_decide_false by (by rewrite <- elem_of_dom). rewrite bool_decide_false by done. cbn.
    unfold scheduleSyncIssueReport, in_flight. cbn. rewrite Ht, Hs. cbn. by rewrite lookup_insert_eq. }
  destruct Hd as (H1 & H2 & H3). split; [|by apply reply_is_idle].
  unfold on_reply. rewrite H2. destruct ok; [|done]. fold (mark_reported d ids). cbv zeta.
  case_if; cbn; rewrite ?schedule_pending; by rewrite mark_reported_pending.
Qed.

(** ** What is reported *)
Section issues.
Context (sha256 : string → string).

(** [makeMissingActionOriginIssue] and the like. *)
Definition make_issue (object : Z) (object_id : string) (referenced : Z) (referenced_id : string) : SyncIssue :=
  let k := {| objecttype := object; objectid := object_id; problem := SYNC_FAULT_KIND_MISSING_REFERENCE;
              referencedtype := referenced; referencedid := referenced_id |} in
  {| issueid := sha256 (canonicalSyncIssueKeyBytes k); key := Some k |}.

Definition makeMissingActionOriginIssue (action origin : string) : SyncIssue :=
  make_issue SYNC_OBJECT_TYPE_ACTION action SYNC_OBJECT_TYPE_ACTION origin.
Definition makeMissingNodeParentIssue (node parent : string) : SyncIssue :=
  make_issue SYNC_OBJECT_TYPE_NODE node SYNC_OBJECT_TYPE_NODE parent.
Definition makeMissingWorkSessionActionIssue (session action : string) : SyncIssue :=
  make_issue SYNC_OBJECT_TYPE_WORK_SESSION session SYNC_OBJECT_TYPE_ACTION action.
Definition makeMissingTimeBlockActionIssue (block action : string) : SyncIssue :=
  make_issue SYNC_OBJECT_TYPE_TIME_BLOCK block SYNC_OBJECT_TYPE_ACTION action.

(** ** The validation of the tables *)

(** A row of [action] and of [work_session]. *)
Record ActionRow := { a_node : string; a_origin : string }.
Record SessionRow := { s_action : string; s_state : Z }.

Definition STATE_DONE : Z := 2.

(** The client's tables and what was recorded; NULL and the empty string are
    alike in every condition.  [t_blocks] is [time_block_actions]. *)
Record Tables := {
  t_nodes : gmap string Nodes.NodeRow;
  t_actions : gmap string ActionRow;
  t_sessions : gmap string SessionRow;
  t_blocks : gset (string * string);
  t_issues : list SyncIssue
}.

Definition record_issue (i : SyncIssue) (t : Tables) : Tables :=
  {| t_nodes := t_nodes t; t_actions := t_actions t; t_sessions := t_sessions t; t_blocks := t_blocks t;
     t_issues := t_issues t ++ [i] |}.

Definition set_actions (f : gmap string ActionRow → gmap string ActionRow) (t : Tables) : Tables :=
  {| t_nodes := t_nodes t; t_actions := f (t_actions t); t_sessions := t_sessions t; t_blocks := t_blocks t;
     t_issues := t_issues t |}.

Definition set_sessions (f : gmap string SessionRow → gmap string SessionRow) (t : Tables) : Tables :=
  {| t_nodes := t_nodes t; t_actions := t_actions t; t_sessions := f (t_sessions t); t_blocks := t_blocks t;
     t_issues := t_issues t |}.

Definition set_nodes (f : gmap string Nodes.NodeRow → gmap string Nodes.NodeRow) (t : Tables) : Tables :=
  {| t_nodes := f (t_nodes t); t_actions := t_actions t; t_sessions := t_sessions t; t_blocks := t_blocks t;
     t_issues := t_issues t |}.

(** [n_parent] is [Some] of a non-empty id. *)
Definition lost_parent (t : gmap string Nodes.NodeRow) (kv : string * Nodes.NodeRow) : bool :=
  match Nodes.n_parent kv.2 with
  | Some p => negb (bool_decide (p = EmptyString)) && bool_decide (t !! p = None)
  | None => false
  end.

Definition parent_of (r : Nodes.NodeRow) : string := default EmptyString (Nodes.n_parent r).

(** The recursive query that starts at a row of the table. *)
Definition subtree_of (t : gmap string Nodes.NodeRow) (u : string) : list string :=
  if bool_decide (is_Some (t !! u)) then Nodes.all_descendants (λ _, true) t [u] else [].

(** [DELETE FROM action], which cascades to the sessions and the time
    blocks. *)
Definition delete_actions (gone : string → ActionRow → bool) (t : Tables) : Tables :=
  let keep := filter (λ kv : string * ActionRow, gone kv.1 kv.2 = false) (t_actions t) in
  let lives a := bool_decide (is_Some (keep !! a) ∨ t_actions t !! a = None) in
  {| t_nodes := t_nodes t; t_actions := keep;
     t_sessions := filter (λ kv : string * SessionRow, lives (s_action kv.2) = true) (t_sessions t);
     t_blocks := filter (λ p : string * string, lives p.2 = true) (t_blocks t); t_issues := t_issues t |}.

(** One round of [validateStoredNodes]. *)
Definition drop_node (t : Tables) (kv : string * Nodes.NodeRow) : Tables :=
  let t := record_issue (makeMissingNodeParentIssue kv.1 (parent_of kv.2)) t in
  let t := delete_actions (λ _ a, bool_decide (a_node a ∈ subtree_of (t_nodes t) kv.1)) t in
  set_nodes (λ m, filter (λ x : string * Nodes.NodeRow, x.1 ∉ subtree_of (t_nodes t) kv.1) m) t.

Definition validateStoredNodes (t : Tables) : Tables :=
  foldl drop_node t (List.filter (lost_parent (t_nodes t)) (map_to_list (t_nodes t))).

Definition lost_origin (t : gmap string ActionRow) (kv : string * ActionRow) : bool :=
  negb (bool_decide (a_origin kv.2 = EmptyString)) && bool_decide (t !! a_origin kv.2 = None).

Definition clear_origin (t : Tables) (kv : string * ActionRow) : Tables :=
  let t := record_issue (makeMissingActionOriginIssue kv.1 (a_origin kv.2)) t in
  set_actions (alter (λ a, if bool_decide (a_origin a = a_origin kv.2)
                           then {| a_node := a_node a; a_origin := EmptyString |} else a) kv.1) t.

Definition validateStoredOrigins (t : Tables) : Tables :=
  foldl clear_origin t (List.filter (lost_origin (t_actions t)) (map_to_list (t_actions t))).

Definition lost_session (t : gmap string ActionRow) (kv : string * SessionRow) : bool :=
  (s_state kv.2 <? STATE_DONE) && bool_decide (t !! s_action kv.2 = None).

Definition drop_session (t : Tables) (kv : string * SessionRow) : Tables :=
  set_sessions (delete kv.1) (record_issue (makeMissingWorkSessionActionIssue kv.1 (s_action kv.2)) t).

Definition validateStoredWorkSessions (t : Tables) : Tables :=
  foldl drop_session t (List.filter (lost_session (t_actions t)) (map_to_list (t_sessions t))).

(** The loop of [recordMissingTimeBlockActionIssues]. *)
Fixpoint recordMissing (block : string) (existing seen : gset string) (l : list string) (t : Tables) : Tables :=
  match l with
  | [] => t
  | a :: l =>
      if bool_decide (a ∈ seen) then recordMissing block existing seen l t else
      let t := (if bool_decide (a ∈ existing) then t
                else record_issue (makeMissingTimeBlockActionIssue block a) t) in
      recordMissing block existing ({[a]} ∪ seen) l t
  end.

Definition recordMissingTimeBlockActionIssues (block : string) (actions : list string) (t : Tables) : Tables :=
  recordMissing block (dom (t_actions t)) ∅ actions t.

(** The end of a sync, in its order. *)
Definition validate_all (t : Tables) : Tables :=
  validateStoredWorkSessions (validateStoredOrigins (validateStoredNodes t)).

(** *** The recursive query ends *)
Lemma descendants_more fuel k p t l :
  (∀ x, x ∉ Nat.iter fuel (Nodes.children_of p t) l) →
  Nodes.descendants (fuel + k) p t l = Nodes.descendants fuel p t l.
Proof.
  revert l. induction fuel as [|fuel IH]; intros l Hx.
  - cbn in Hx. destruct l as [|x l]; [by destruct k|]. destruct (Hx x). by left.
  - cbn [Nat.add Nodes.descendants]. destruct l as [|x l]; [done|]. f_equal. apply IH.
    intros y. specialize (Hx y). by rewrite Nat.iter_succ_r in Hx.
Qed.

Lemma iter_below n p t l x :
  x ∈ Nat.iter n (Nodes.children_of p t) l → ∃ a, a ∈ l ∧ Nodes.below p t n a x.
Proof.
  revert x. induction n as [|n IH]; intros x; cbn.
  - intros Hx. exists x. split; [done|constructor].
  - intros (r & q & Hr & Hp & Hq & (a & Ha & Hb)%IH)%Nodes.elem_of_children_of.
    exists a. split; [done|]. by eapply Nodes.below_child.
Qed.

(** Below a row whose parent is missing the rows form a tree. *)
Lemma below_lost_rooted t u r k p x :
  t !! u = Some r → t !! p = None → Nodes.n_parent r = Some p → Nodes.below (λ _, true) t k u x →
  Nodes.rooted (<[u := rooted_row EmptyString r]> t) k x.
Proof.
  intros Hu Hp Hr. induction 1 as [a|k a x s q Hx _ Hq Hb IH].
  - apply (Nodes.rooted_root _ a (rooted_row EmptyString r)); [apply lookup_insert_eq|done].
  - specialize (IH Hu). destruct (decide (x = a)) as [->|Hne].
    + rewrite Hu in Hx. injection Hx as <-. rewrite Hr in Hq. injection Hq as <-.
      apply Nodes.rooted_some in IH as [y Hy]. destruct (decide (a = p)) as [->|]; [congruence|].
      rewrite lookup_insert_ne in Hy by done. congruence.
    + eapply Nodes.rooted_child; [by rewrite lookup_insert_ne|done|done].
Qed.

Lemma subtree_query_spec t u r p k :
  t !! u = Some r → Nodes.n_parent r = Some p → t !! p = None →
  Nodes.descendants (S (size t) + k) (λ _, true) t [u] = subtree_of t u ∧
  ∀ x, x ∈ subtree_of t u ↔ ∃ n, Nodes.below (λ _, true) t n u x.
Proof.
  intros Hu Hr Hp. unfold subtree_of. rewrite bool_decide_true by done.
  assert (Hbound : ∀ n x, Nodes.below (λ _, true) t n u x → (n < size t)%nat).
  { intros n x Hb. apply (below_lost_rooted t u r n p x Hu Hp Hr), Nodes.rooted_bound in Hb.
    rewrite map_size_insert_Some in Hb by done. done. }
  split.
  - apply descendants_more. intros x (a & ->%list_elem_of_singleton & Hb%Hbound)%iter_below. lia.
  - intros x. split.
    + intros (n & a & ->%list_elem_of_singleton & Hb)%Nodes.descendants_sound. by exists n.
    + intros [n Hb]. eapply Nodes.descendants_complete; [|by apply list_elem_of_singleton|exact Hb].
      apply Hbound in Hb. lia.
Qed.

(** The recursive query of [validateStoredNodes] ends on every table,
    also on one where other nodes form a cycle: from a node whose parent is
    missing no more levels can follow than there are rows. *)
Theorem subtree_query_ends t u r p k :
  t !! u = Some r → Nodes.n_parent r = Some p → t !! p = None →
  Nodes.descendants (S (size t) + k) (λ _, true) t [u] = subtree_of t u ∧
  ∀ x, x ∈ subtree_of t u ↔ ∃ n, Nodes.below (λ _, true) t n u x.
Proof. apply subtree_query_spec. Qed.

(** *** After the validation every reference has its target *)
Definition parents_ok (m : gmap string Nodes.NodeRow) : Prop :=
  ∀ x r p, m !! x = Some r → Nodes.n_parent r = Some p → p ≠ EmptyString → is_Some (m !! p).

Definition origins_ok (m : gmap string ActionRow) : Prop :=
  ∀ x a, m !! x = Some a → a_origin a ≠ EmptyString → is_Some (m !! a_origin a).

Definition sessions_ok (t : Tables) : Prop :=
  ∀ x s, t_sessions t !! x = Some s → s_state s < STATE_DONE → is_Some (t_actions t !! s_action s).

Lemma lost_parent_true t x r :
  lost_parent t (x, r) = true ↔ ∃ p, Nodes.n_parent r = Some p ∧ p ≠ EmptyString ∧ t !! p = None.
Proof.
  unfold lost_parent. cbn. destruct (Nodes.n_parent r) as [p|]; [|naive_solver].
  rewrite andb_true_iff, negb_true_iff, bool_decide_eq_false, bool_decide_eq_true. naive_solver.
Qed.

(** A subtree is closed under children. *)
Lemma subtree_closed t u r p x s q :
  t !! u = Some r → Nodes.n_parent r = Some p → t !! p = None →
  t !! x = Some s → Nodes.n_parent s = Some q → q ∈ subtree_of t u → x ∈ subtree_of t u.
Proof.
  intros Hu Hr Hp Hx Hs. destruct (subtree_query_spec t u r p 0 Hu Hr Hp) as [_ Hd]. rewrite !Hd.
  intros [n Hb]. exists (S n). by eapply Nodes.below_child.
Qed.

(** What a round does to the nodes and to the actions in them. *)
Lemma drop_node_run t u r :
  let t' := drop_node t (u, r) in
  t_nodes t' = filter (λ x, x.1 ∉ subtree_of (t_nodes t) u) (t_nodes t) ∧
  t_actions t' = filter (λ kv, bool_decide (a_node kv.2 ∈ subtree_of (t_nodes t) u) = false) (t_actions t).
Proof. done. Qed.

(** The tables only shrink, and an action stays with its node. *)
Definition shrinks (t t' : Tables) : Prop :=
  t_nodes t' ⊆ t_nodes t ∧ t_actions t' ⊆ t_actions t ∧
  (∀ i a, t_actions t' !! i = Some a → is_Some (t_nodes t !! a_node a) → is_Some (t_nodes t' !! a_node a)) ∧
  (∀ i s, t_sessions t' !! i = Some s → t_sessions t !! i = Some s ∧
     (is_Some (t_actions t !! s_action s) → is_Some (t_actions t' !! s_action s))).

Lemma shrinks_refl t : shrinks t t.
Proof. split_and!; auto. Qed.

Lemma shrinks_trans t1 t2 t3 : shrinks t1 t2 → shrinks t2 t3 → shrinks t1 t3.
Proof.
  intros (H1 & H2 & H3 & H4) (J1 & J2 & J3 & J4). split_and!; [by etrans..| |].
  - intros i a Ha Hn. apply (J3 i a Ha). apply (H3 i a); [|done]. by eapply lookup_weaken.
  - intros i s Hs. destruct (J4 i s Hs) as [Hs2 Ha2]. destruct (H4 i s Hs2) as [Hs1 Ha1]. auto.
Qed.

Lemma drop_node_shrinks t kv : shrinks t (drop_node t kv).
Proof.
  destruct kv as [u r]. split_and!; try (cbn; apply map_filter_subseteq).
  - intros i a Hi Hn. cbn in Hi |- *. apply map_lookup_filter_Some in Hi as [_ Ha].
    apply bool_decide_eq_false in Ha. destruct Hn as [n Hn]. exists n. by apply map_lookup_filter_Some.
  - intros i s Hi. cbn in Hi |- *. apply map_lookup_filter_Some in Hi as [Hs Ha]. split; [done|].
    cbn in Ha. apply bool_decide_eq_true in Ha as [Ha|Ha]; [done|]. intros [a Hb]. congruence.
Qed.

Lemma validateStoredNodes_loop l t :
  (∀ u r, (u, r) ∈ l → t_nodes t !! u = None ∨ t_nodes t !! u = Some r ∧ lost_parent (t_nodes t) (u, r) = true) →
  (∀ x r, t_nodes t !! x = Some r → lost_parent (t_nodes t) (x, r) = true → (x, r) ∈ l) →
  parents_ok (t_nodes (foldl drop_node t l)) ∧ shrinks t (foldl drop_node t l).
Proof.
  revert t. induction l as [|[u r] l IH]; intros t Hl Hlost; cbn [foldl].
  - split; [|apply shrinks_refl]. intros x s p Hx Hp Hne. destruct (t_nodes t !! p) eqn:Ht; [done|].
    destruct (not_elem_of_nil (x, s)). apply Hlost; [done|]. apply lost_parent_true. eauto.
  - destruct (drop_node_run t u r) as [Hn _]. destruct (IH (drop_node t (u, r))) as [Hok Hsh].
    + intros v s Hv. rewrite Hn. destruct (Hl v s) as [Hnone|[Hs Hls]]; [by right|..].
      * left. apply map_lookup_filter_None. by left.
      * destruct (decide (v ∈ subtree_of (t_nodes t) u)).
        -- left. apply map_lookup_filter_None. right. intros ? _. auto.
        -- right. split; [by apply map_lookup_filter_Some|]. apply lost_parent_true in Hls as (p & ? & ? & Hp).
           apply lost_parent_true. exists p. split_and!; try done. apply map_lookup_filter_None. by left.
    + intros x s. rewrite Hn. intros [Hx Hsub]%map_lookup_filter_Some (p & Hp & Hne & Hnone)%lost_parent_true.
      cbn in Hsub. apply map_lookup_filter_None in Hnone.
      assert (Hcase : t_nodes t !! p = None ∨ p ∈ subtree_of (t_nodes t) u).
      { destruct (t_nodes t !! p) as [y|] eqn:Hy; [|by left]. right. destruct Hnone as [?|Hnone]; [done|].
        specialize (Hnone y eq_refl). cbn in Hnone. by apply dec_stable. }
      destruct Hcase as [Hpn|Hin].
      * assert (Hin : (x, s) ∈ (u, r) :: l) by (apply Hlost; [done|apply lost_parent_true; eauto]).
        apply elem_of_cons in Hin as [[= -> ->]|?]; [|done]. destruct Hsub. unfold subtree_of.
        rewrite bool_decide_true by done. cbn. by left.
      * destruct Hsub. unfold subtree_of in Hin |- *. case_bool_decide as Hu; [|by apply elem_of_nil in Hin].
        destruct (Hl u r) as [Hnu|[Hur Hlr]]; [by left|by rewrite Hnu in Hu; destruct Hu|].
        apply lost_parent_true in Hlr as (q & Hq & _ & Hqn).
        pose proof (subtree_closed (t_nodes t) u r q x s p Hur Hq Hqn Hx Hp) as Hc.
        unfold subtree_of in Hc. rewrite bool_decide_true in Hc by done. by apply Hc.
    + split; [done|]. eapply shrinks_trans; [apply drop_node_shrinks|done].
Qed.

Lemma validateStoredNodes_run t :
  parents_ok (t_nodes (validateStoredNodes t)) ∧ shrinks t (validateStoredNodes t).
Proof.
  apply validateStoredNodes_loop.
  - intros u r [Hin Hl]%elem_of_list_filter_bool. right. split; [by apply elem_of_map_to_list|done].
  - intros x r Hx Hl. apply elem_of_list_filter_bool. split; [by apply elem_of_map_to_list|done].
Qed.

(** Clearing origins changes nothing else. *)
Definition only_origins (t t' : Tables) : Prop :=
  t_nodes t' = t_nodes t ∧ t_sessions t' = t_sessions t ∧ dom (t_actions t') = dom (t_actions t) ∧
  ∀ x a', t_actions t' !! x = Some a' → ∃ a, t_actions t !! x = Some a ∧ a_node a' = a_node a.

Lemma clear_origin_only t kv : only_origins t (clear_origin t kv).
Proof.
  split_and!; try done; [cbn; apply dom_alter_L|]. intros x a'. cbn. rewrite lookup_alter. case_decide; [subst x|].
  - intros (a & Ha & ->)%fmap_Some. exists a. split; [done|]. by case_bool_decide.
  - intros Ha. by exists a'.
Qed.

Lemma lost_origin_true (t : gmap string ActionRow) x a :
  lost_origin t (x, a) = true ↔ a_origin a ≠ EmptyString ∧ a_origin a ∉ dom t.
Proof.
  unfold lost_origin. cbn. by rewrite andb_true_iff, negb_true_iff, bool_decide_eq_false, bool_decide_eq_true, not_elem_of_dom.
Qed.

Lemma validateStoredOrigins_loop l t :
  NoDup l.*1 → (∀ kv, kv ∈ l → t_actions t !! kv.1 = Some kv.2) →
  (∀ x a, t_actions t !! x = Some a → lost_origin (t_actions t) (x, a) = true → (x, a) ∈ l) →
  origins_ok (t_actions (foldl clear_origin t l)) ∧ only_origins t (foldl clear_origin t l).
Proof.
  revert t. induction l as [|[u r] l IH]; intros t Hnd Hl Hlost; cbn [foldl].
  - split; [|split_and!; eauto]. intros x a Hx Hne. apply elem_of_dom, dec_stable. intros Hn.
    destruct (not_elem_of_nil (x, a)). apply Hlost; [done|]. by apply lost_origin_true.
  - cbn in Hnd. apply NoDup_cons in Hnd as [Hu Hnd].
    assert (Hkey : ∀ kv, kv ∈ l → kv.1 ≠ u) by (intros kv Hkv Hk; destruct Hu; rewrite <- Hk; by apply list_elem_of_fmap_2).
    pose proof (clear_origin_only t (u, r)) as (Hn & Hs & Hdom & Hrow).
    assert (Hur : t_actions t !! u = Some r) by by apply (Hl (u, r)), list_elem_of_here.
    destruct (IH (clear_origin t (u, r)) Hnd) as [Hok (Jn & Js & Jdom & Jrow)].
    + intros kv Hkv. cbn. rewrite lookup_alter_ne by (symmetry; by apply Hkey). apply Hl. by right.
    + intros x a. rewrite lost_origin_true, Hdom. cbn. rewrite lookup_alter. case_decide as Hux.
      * subst x. rewrite Hur. cbn. rewrite bool_decide_true by done. by intros [= <-] [? _].
      * intros Hx Hlo. assert (Hin : (x, a) ∈ (u, r) :: l) by (apply Hlost; [done|by apply lost_origin_true]).
        apply elem_of_cons in Hin as [[= -> ->]|?]; done.
    + split; [done|]. split_and!; [congruence..|]. intros x a' (a1 & (a & Ha & E1)%Hrow & E2)%Jrow.
      exists a. split; [done|congruence].
Qed.

Lemma validateStoredOrigins_run t :
  origins_ok (t_actions (validateStoredOrigins t)) ∧ only_origins t (validateStoredOrigins t).
Proof.
  apply validateStoredOrigins_loop.
  - apply NoDup_fst_filter, NoDup_fst_map_to_list.
  - intros [x a] [Hin _]%elem_of_list_filter_bool. by apply elem_of_map_to_list.
  - intros x a Hx Hl. apply elem_of_list_filter_bool. split; [by apply elem_of_map_to_list|done].
Qed.

Lemma drop_sessions_run l t :
  t_nodes (foldl drop_session t l) = t_nodes t ∧ t_actions (foldl drop_session t l) = t_actions t ∧
  ∀ x s, t_sessions (foldl drop_session t l) !! x = Some s ↔ t_sessions t !! x = Some s ∧ x ∉ l.*1.
Proof.
  revert t. induction l as [|[u r] l IH]; intros t; cbn [foldl].
  - split_and!; [done..|]. intros x s. split; [split; [done|apply not_elem_of_nil]|by intros [? _]].
  - destruct (IH (drop_session t (u, r))) as (H1 & H2 & H3). rewrite H1, H2. split_and!; [done..|].
    intros x s. rewrite H3. cbn. rewrite lookup_delete_Some, not_elem_of_cons. naive_solver.
Qed.

(** At the end of the sync of nodes, actions and sessions every
    reference of the client's tables has its target: the parent of a node,
    the origin of an action and the action of a session that is not done;
    no action is left in a node that was dropped, and no row was added. *)
Theorem validate_all_resolves t :
  let t' := validate_all t in
  parents_ok (t_nodes t') ∧ origins_ok (t_actions t') ∧ sessions_ok t' ∧
  t_nodes t' ⊆ t_nodes t ∧ dom (t_actions t') ⊆ dom (t_actions t) ∧ t_sessions t' ⊆ t_sessions t ∧
  ∀ x a, t_actions t' !! x = Some a → is_Some (t_nodes t !! a_node a) → is_Some (t_nodes t' !! a_node a).
Proof.
  cbv zeta. unfold validate_all.
  destruct (validateStoredNodes_run t) as (Hp & Hn1 & Ha1 & Hkeep & Hs1).
  set (t1 := validateStoredNodes t) in *.
  destruct (validateStoredOrigins_run t1) as (Ho & Hn2 & Hs2 & Hd2 & Hrow).
  set (t2 := validateStoredOrigins t1) in *.
  destruct (drop_sessions_run (List.filter (lost_session (t_actions t2)) (map_to_list (t_sessions t2))) t2)
    as (Hn3 & Ha3 & Hs3).
  fold (validateStoredWorkSessions t2) in Hn3, Ha3, Hs3. unfold sessions_ok. rewrite Hn3, Ha3.
  split_and!; [by rewrite Hn2|done| |by rewrite Hn2|rewrite Hd2; by apply subseteq_dom| |].
  - intros x s [Hx Hnot]%Hs3 Hst. apply elem_of_dom, dec_stable. intros Hd%not_elem_of_dom.
    apply Hnot, list_elem_of_fmap. exists (x, s). split; [done|]. apply elem_of_list_filter_bool.
    split; [by apply elem_of_map_to_list|]. unfold lost_session. cbn.
    by rewrite (proj2 (Z.ltb_lt _ _) Hst), bool_decide_true.
  - apply map_subseteq_spec. intros x s [Hx _]%Hs3. rewrite Hs2 in Hx. by apply Hs1 in Hx as [? _].
  - intros x a' (a & Ha & ->)%Hrow Hnode. rewrite Hn2. by eapply Hkeep.
Qed.

(** *** The server takes what the client reports *)
Context (sha256_nonempty : ∀ s, sha256 s ≠ EmptyString).

(** The server's two conditions on an issue. *)
Definition accepted (i : SyncIssue) : bool :=
  isValidSyncIssueId sha256 i
  && (isMissingActionOriginIssue i || isMissingNodeParentIssue i
      || isMissingWorkSessionActionIssue i || isMissingTimeBlockActionIssue i).

Lemma make_issue_accepted object id referenced ref :
  id ≠ EmptyString → ref ≠ EmptyString →
  isValidSyncIssueId sha256 (make_issue object id referenced ref) = true ∧
  is_issue object referenced (make_issue object id referenced ref) = true.
Proof.
  intros Hi Hr. unfold isValidSyncIssueId, is_issue, make_issue. cbn.
  rewrite (bool_decide_false (sha256 _ = EmptyString)) by apply sha256_nonempty.
  rewrite (bool_decide_false (id = EmptyString)), (bool_decide_false (ref = EmptyString)) by done.
  by rewrite !bool_decide_true.
Qed.

Lemma foldl_inv_in {A B} (P : A → Prop) (f : A → B → A) l a :
  (∀ a b, b ∈ l → P a → P (f a b)) → P a → P (foldl f a l).
Proof.
  revert a. induction l as [|b l IH]; intros a Hf Ha; [done|]. apply IH; [|apply Hf; [by left|done]].
  intros a' b' Hb. apply Hf. by right.
Qed.

Definition all_accepted (t : Tables) : Prop := Forall (λ i, accepted i = true) (t_issues t).

Lemma record_accepted i t : accepted i = true → all_accepted t → all_accepted (record_issue i t).
Proof. intros Hi Ht. apply Forall_app. split; [done|]. by constructor. Qed.

Lemma make_any_accepted id ref :
  id ≠ EmptyString → ref ≠ EmptyString →
  accepted (makeMissingActionOriginIssue id ref) = true ∧ accepted (makeMissingNodeParentIssue id ref) = true ∧
  accepted (makeMissingWorkSessionActionIssue id ref) = true ∧ accepted (makeMissingTimeBlockActionIssue id ref) = true.
Proof.
  intros Hi Hr. unfold accepted.
  destruct (make_issue_accepted SYNC_OBJECT_TYPE_ACTION id SYNC_OBJECT_TYPE_ACTION ref Hi Hr) as [H1 H2].
  destruct (make_issue_accepted SYNC_OBJECT_TYPE_NODE id SYNC_OBJECT_TYPE_NODE ref Hi Hr) as [H3 H4].
  destruct (make_issue_accepted SYNC_OBJECT_TYPE_WORK_SESSION id SYNC_OBJECT_TYPE_ACTION ref Hi Hr) as [H5 H6].
  destruct (make_issue_accepted SYNC_OBJECT_TYPE_TIME_BLOCK id SYNC_OBJECT_TYPE_ACTION ref Hi Hr) as [H7 H8].
  unfold makeMissingActionOriginIssue, makeMissingNodeParentIssue, makeMissingWorkSessionActionIssue,
    makeMissingTimeBlockActionIssue, isMissingActionOriginIssue, isMissingNodeParentIssue,
    isMissingWorkSessionActionIssue, isMissingTimeBlockActionIssue.
  rewrite H1, H2, H3, H4, H5, H6, H7, H8. split_and!; rewrite ?orb_true_r; done.
Qed.

(** Everything the validation reports is accepted by the server: the id
    is the one the server computes, and the issue is of one of the four
    kinds it repairs. *)
Theorem validate_all_reports_accepted t :
  all_accepted t →
  (∀ x, x ∈ dom (t_nodes t) ∪ dom (t_actions t) ∪ dom (t_sessions t) → x ≠ EmptyString) →
  (∀ x s, t_sessions t !! x = Some s → s_action s ≠ EmptyString) →
  all_accepted (validate_all t).
Proof.
  intros Ht Hkeys Hact. unfold validate_all.
  destruct (validateStoredNodes_run t) as (_ & Hn1 & Ha1 & _ & Hs1).
  assert (H1 : all_accepted (validateStoredNodes t)).
  { apply (foldl_inv_in all_accepted); [|done]. intros t' [u r] [Hin (p & Hp & Hne & _)%lost_parent_true]%elem_of_list_filter_bool Hacc.
    apply elem_of_map_to_list, elem_of_dom_2 in Hin. apply record_accepted; [|done].
    assert (Hu : u ≠ EmptyString) by by apply Hkeys; do 2 apply elem_of_union_l.
    destruct (make_any_accepted u p Hu Hne) as (_ & Hm & _). unfold parent_of. cbn [fst snd]. by rewrite Hp. }
  set (t1 := validateStoredNodes t) in *.
  destruct (validateStoredOrigins_run t1) as (_ & _ & Hs2 & Hd2 & _).
  assert (H2 : all_accepted (validateStoredOrigins t1)).
  { apply (foldl_inv_in all_accepted); [|done]. intros t' [u a] [Hin [Hne _]%lost_origin_true]%elem_of_list_filter_bool Hacc.
    apply elem_of_map_to_list, elem_of_dom_2 in Hin. apply (record_accepted _ t'); [|done].
    assert (Hu : u ≠ EmptyString).
    { apply Hkeys, elem_of_union_l, elem_of_union_r. by apply (subseteq_dom _ _ Ha1). }
    by destruct (make_any_accepted u (a_origin a) Hu Hne) as (Hm & _). }
  set (t2 := validateStoredOrigins t1) in *.
  apply (foldl_inv_in all_accepted); [|done]. intros t' [u s] [Hin _]%elem_of_list_filter_bool Hacc.
  apply elem_of_map_to_list in Hin. rewrite Hs2 in Hin. apply Hs1 in Hin as [Hin _].
  apply (record_accepted _ t'); [|done].
  assert (Hu : u ≠ EmptyString) by (apply Hkeys, elem_of_union_r; by apply elem_of_dom_2 in Hin).
  by destruct (make_any_accepted u (s_action s) Hu (Hact u s Hin)) as (_ & _ & Hm & _).
Qed.

(** The time blocks report each action that is missing once. *)
Lemma recordMissing_issues block existing seen l t :
  ∃ missing, t_issues (recordMissing block existing seen l t) =
      t_issues t ++ (makeMissingTimeBlockActionIssue block <$> missing) ∧
    NoDup missing ∧ ∀ a, a ∈ missing ↔ a ∈ l ∧ a ∉ existing ∧ a ∉ seen.
Proof.
  revert seen t. induction l as [|a l IH]; intros seen t; cbn [recordMissing].
  - exists []. rewrite app_nil_r. split_and!; [done|constructor|set_solver].
  - case_bool_decide as Hs.
    + destruct (IH seen t) as (m & H1 & H2 & H3). exists m. split_and!; [done..|set_solver].
    + destruct (IH ({[a]} ∪ seen) (if bool_decide (a ∈ existing) then t
                                    else record_issue (makeMissingTimeBlockActionIssue block a) t))
        as (m & H1 & H2 & H3).
      case_bool_decide as He; rewrite H1.
      * exists m. split_and!; [done..|set_solver].
      * exists (a :: m). cbn. rewrite <- app_assoc. split_and!; [done|constructor; [set_solver|done]|].
        intros b. rewrite elem_of_cons, H3. destruct (decide (b = a)); set_solver.
Qed.
End issues.

(** ** Examples *)
Definition sha (s : string) : string := String (Ascii.ascii_of_nat 35) s.

Definition issue_a : SyncIssue := makeMissingWorkSessionActionIssue sha "w" "a".
Definition issue_b : SyncIssue := makeMissingActionOriginIssue sha "b" "a".

(** Online, with one issue that waits for the timer. *)
Definition waiting : Comm := (comm_run [ev_ready; ev_record issue_a] initial).2.
(** The report is on its way. *)
Definition reporting : Comm := (comm_run [ev_timer] waiting).2.

Lemma report_sends_pending_witness :
  ∃ l c', comm_step ev_timer waiting = (Some l, c') ∧ NoDup (issueid <$> l) ∧ l = [issue_a].
Proof.
  exists [issue_a], reporting.
  assert (Hs : comm_step ev_timer waiting = (Some [issue_a], reporting)) by (vm_compute; reflexivity).
  split; [exact Hs|]. split; [|done].
  by apply (report_sends_pending ev_timer waiting [issue_a] reporting
             (comm_run_inv [ev_ready; ev_record issue_a] initial initial_inv) Hs).
Defined.

Lemma fixed_before_reply_is_silenced_witness :
  let c := on_reply true (clearSyncIssuesResolvedByUpdate [issueid issue_a] reporting) in
  issueid issue_a ∈ reported c ∧ pending (recordSyncIssue issue_a c) = ∅.
Proof.
  destruct (fixed_before_reply_is_silenced reporting [issueid issue_a] issue_a) as (_ & H1 & H2 & _).
  - vm_compute. reflexivity.
  - by left.
  - done.
  - split; [exact H1|]. rewrite H2. vm_compute. reflexivity.
Defined.

Lemma found_in_flight_is_stranded_witness :
  let c := on_reply true (recordSyncIssue issue_b reporting) in
  idle c ∧ online c = true ∧ dom (pending c) = {[issueid issue_b]}.
Proof.
  destruct (found_in_flight_is_stranded reporting [issueid issue_a] issue_b true) as [_ H2].
  - vm_compute. reflexivity.
  - vm_compute. reflexivity.
  - done.
  - vm_compute. by intros [?|?%elem_of_nil]%elem_of_cons.
  - apply not_elem_of_dom. vm_compute. reflexivity.
  - vm_compute. by intros ?.
  - split; [exact H2|]. split; vm_compute; reflexivity.
Defined.

(** "u" refers to nothing, "x" and "y" to each other. *)
Definition cyclic : gmap string Nodes.NodeRow :=
  {["u" := example_node (Some "gone"); "v" := example_node (Some "u");
    "x" := example_node (Some "y"); "y" := example_node (Some "x")]}.

Lemma subtree_query_ends_witness :
  Nodes.descendants 100 (λ _, true) cyclic ["u"] = ["u"; "v"].
Proof.
  destruct (subtree_query_ends cyclic "u" (example_node (Some "gone")) "gone" 95) as [H1 _];
    [vm_compute; reflexivity|reflexivity|vm_compute; reflexivity|].
  change (Nodes.descendants (S (size cyclic) + 95) (λ _, true) cyclic ["u"] = ["u"; "v"]).
  rewrite H1. vm_compute. reflexivity.
Defined.

Definition example_tables : Tables :=
  {| t_nodes := cyclic;
     t_actions := {["a" := {| a_node := "v"; a_origin := "" |};
                    "b" := {| a_node := "x"; a_origin := "a" |}]};
     t_sessions := {["w" := {| s_action := "c"; s_state := 0 |}]};
     t_blocks := {[("t", "a")]}; t_issues := [] |}.

(** The action goes with its node, so its child loses the origin. *)
Lemma validate_all_reports_accepted_witness :
  all_accepted sha (validate_all sha example_tables) ∧
  length (t_issues (validate_all sha example_tables)) = 3%nat ∧
  t_blocks (validate_all sha example_tables) = ∅.
Proof.
  split; [|split; vm_compute; reflexivity]. apply validate_all_reports_accepted.
  - done.
  - constructor.
  - intros x Hx ->. rewrite !elem_of_union, !elem_of_dom in Hx.
    by destruct Hx as [[[? H]|[? H]]|[? H]]; vm_compute in H.
  - cbn. intros x s [<- <-]%lookup_singleton_Some. done.
Defined.
