(* ===== verification/Plans.v ===== *)
(** * Plans and payments

    [Plans] of backend/lib/grpc/Plans.cpp and backend/include/nextapp/Plans.h:
    the plans and entitlements of the tenants, kept in step with the payment
    service.  The tables are the tenants, the plans, the entitlements (one
    row for a tenant and a product, with the version of the payment service),
    the ids of the events seen and the configuration; the rest is the memory
    of the server.  What the payment service answers is an argument.

    Handlers run in [Auto]: a statement is committed when it is done.
    [transaction] undoes what was written to the tables of the tenants when
    its body throws or returns without commit; the plans are synced on a
    connection of their own and stay. *)
From S2P Require Import Prelude Text.
From stdpp Require Import sorting pretty.
Local Open Scope Z_scope.
Local Open Scope nextapp_scope.

(** ** Data *)
Abbreviation Uuid := string.

(** [tenant.state] *)
Inductive TenantState := pending_activation | active | suspended | read_only.
(** [tenant.registration_state] *)
Inductive Registration := local_only | pending_reg | registered.

#[global] Instance TenantState_eq_dec : EqDecision TenantState.
Proof. solve_decision. Defined.
#[global] Instance Registration_eq_dec : EqDecision Registration.
Proof. solve_decision. Defined.

(** What the table [tenant] says of the plan and the registration. *)
Record Tenant := {
  plan : option string;
  plan_updated : Z;
  plan_expires : option Z;
  plan_seats : Z;
  grace_period_expires : option Z;
  account_expires : option Z;
  state : TenantState;
  registration_state : Registration;
  registration_attempts : Z;
  last_registration_attempt : option Z;
  next_registration_retry : option Z;
  system_tenant : bool
}.

(** The states of an entitlement the server tells apart. *)
Inductive EntitlementState := ENTITLEMENT_STATE_ACTIVE | ENTITLEMENT_STATE_EXPIRED | ENTITLEMENT_STATE (n : Z).

#[global] Instance EntitlementState_eq_dec : EqDecision EntitlementState.
Proof. solve_decision. Defined.

(** [payments::v1::Entitlement]; a string that is not set is empty. *)
Record Entitlement := {
  e_tenant_id : string;
  e_product_id : string;
  e_plan_id : string;
  e_seats : option Z;
  e_state : EntitlementState;
  e_valid_until : option Z;
  e_source : Z;
  e_source_ref : string;
  e_version : Z;
  e_updated_at : option Z
}.

(** A row of the table [entitlement]. *)
Record EntitlementRow := {
  r_plan_id : option string;
  r_seats : option Z;
  r_state : EntitlementState;
  r_valid_until : option Z;
  r_source : Z;
  r_source_ref : option string;
  r_version : Z;
  r_updated_at : option Z
}.

(** [payments::v1::EntitlementChangeEvent] *)
Record EntitlementChangeEvent := {
  event_id : string;
  subject_id : string;
  entitlement : Entitlement
}.

(** A row of the table [plan]. *)
Record DbPlan := {
  name : string;
  is_active : bool;
  max_users : Z;
  max_devices : Z;
  max_nodes : Z;
  nodes_monthly_growth : Z;
  max_actions : Z;
  actions_monthly_growth : Z;
  max_worksessions : Z;
  work_sessions_monthly_growth : Z;
  max_time_blocks : Z;
  time_blocks_monthly_growth : Z;
  mobile_only : bool
}.

#[global] Instance DbPlan_eq_dec : EqDecision DbPlan.
Proof. solve_decision. Defined.

(** [payments::v1::Plan] and [payments::v1::GetPlansResponse] *)
Record RemotePlan := { plan_id : string; version : Z; values : gmap string string }.
Record GetPlansResponse := {
  remote_plans : list RemotePlan;
  r_trial_days : option Z;
  r_default_for_signup : string;
  r_default_for_free : string
}.

(** [Plans::ActivePlans]; the properties of a plan are its row. *)
Record ActivePlans := {
  active_plans : gmap string DbPlan;
  trial_days : Z;
  default_for_signup : string;
  default_for_free : string
}.

(** What is asked of the session manager. *)
Inductive Effect := refreshTenantPlansAndPublish (id : Uuid) | loadPlans.

Record State := {
  tenants : gmap Uuid Tenant;
  entitlements : gmap (Uuid * string) EntitlementRow;
  events : gset Uuid;
  plans : gmap string DbPlan;
  config : gmap string string;
  in_flight : gset Uuid;                (* tenant_registrations_in_flight_ *)
  in_backoff : gset Uuid;               (* tenant_registrations_in_backoff_ *)
  is_syncing : bool;
  is_loading : bool;
  synced_plan_versions : gmap string Z;
  snapshot : option ActivePlans;        (* active_plans_ *)
  effects : list Effect
}.

Definition set_tenants f (s : State) : State :=
  {| tenants := f (tenants s); entitlements := entitlements s; events := events s; plans := plans s;
     config := config s; in_flight := in_flight s; in_backoff := in_backoff s; is_syncing := is_syncing s;
     is_loading := is_loading s; synced_plan_versions := synced_plan_versions s;
     snapshot := snapshot s; effects := effects s |}.
Definition set_entitlements f (s : State) : State :=
  {| tenants := tenants s; entitlements := f (entitlements s); events := events s; plans := plans s;
     config := config s; in_flight := in_flight s; in_backoff := in_backoff s; is_syncing := is_syncing s;
     is_loading := is_loading s; synced_plan_versions := synced_plan_versions s;
     snapshot := snapshot s; effects := effects s |}.
Definition set_events f (s : State) : State :=
  {| tenants := tenants s; entitlements := entitlements s; events := f (events s); plans := plans s;
     config := config s; in_flight := in_flight s; in_backoff := in_backoff s; is_syncing := is_syncing s;
     is_loading := is_loading s; synced_plan_versions := synced_plan_versions s;
     snapshot := snapshot s; effects := effects s |}.
Definition set_plans f g (s : State) : State :=
  {| tenants := tenants s; entitlements := entitlements s; events := events s; plans := f (plans s);
     config := g (config s); in_flight := in_flight s; in_backoff := in_backoff s; is_syncing := is_syncing s;
     is_loading := is_loading s; synced_plan_versions := synced_plan_versions s;
     snapshot := snapshot s; effects := effects s |}.
Definition set_registering f g (s : State) : State :=
  {| tenants := tenants s; entitlements := entitlements s; events := events s; plans := plans s;
     config := config s; in_flight := f (in_flight s); in_backoff := g (in_backoff s); is_syncing := is_syncing s;
     is_loading := is_loading s; synced_plan_versions := synced_plan_versions s;
     snapshot := snapshot s; effects := effects s |}.
Definition set_busy sync load (s : State) : State :=
  {| tenants := tenants s; entitlements := entitlements s; events := events s; plans := plans s;
     config := config s; in_flight := in_flight s; in_backoff := in_backoff s; is_syncing := sync;
     is_loading := load; synced_plan_versions := synced_plan_versions s;
     snapshot := snapshot s; effects := effects s |}.
Definition set_memory v a e (s : State) : State :=
  {| tenants := tenants s; entitlements := entitlements s; events := events s; plans := plans s;
     config := config s; in_flight := in_flight s; in_backoff := in_backoff s; is_syncing := is_syncing s;
     is_loading := is_loading s; synced_plan_versions := v (synced_plan_versions s);
     snapshot := a (snapshot s); effects := e (effects s) |}.

(** What the program is given: its configuration, the database's conversion
    of time stamps and its check of a plan's numbers, the parser of uuids,
    and the isolation of the transactions: under [repeatable_read] a query
    sees the plans as they were when the transaction began. *)
Class Env := {
  product_id : string;
  grace_period_days : Z;
  has_grpc : bool;
  repeatable_read : bool;
  from_unixtime : Z → option Z;
  not_null : option Z → result Z;
  storable : DbPlan → bool;
  toUuid : string → result Uuid;
  id_leb : Uuid → Uuid → bool
}.

Section plans.
Context `{Env}.

(** ** Statements *)
Definition query {A} (f : State → A) : Auto State A := stmt (gets f).
Definition update (f : State → State) : Auto State unit := stmt (modify f).
Definition throw {A} (e : exn) : Auto State A := stmt (lift (Throw e)).
Definition from {A} (r : result A) : Auto State A := stmt (lift r).

(** [ScopedExit] *)
Definition finally {A} (m : Auto State A) (f : State → State) : Auto State A := λ s,
  let '(r, s') := m s in (r, f s').

(** [try { m } catch (const std::exception&) {}] *)
Definition caught (m : Auto State unit) : Auto State unit := λ s,
  let '(_, s') := m s in (Ok tt, s').

(** [back s s'] is what a roll back to [s] leaves of [s']; the body returns
    whether it commits. *)
Definition transaction {A} (back : State → State → State) (m : Auto State (bool * A)) : Auto State A := λ s,
  match m s with
  | (Ok (true, a), s') => (Ok a, s')
  | (Ok (false, a), s') => (Ok a, back s s')
  | (Throw e, s') => (Throw e, back s s')
  end.

Definition tenants_back (s s' : State) : State :=
  set_tenants (λ _, tenants s) (set_entitlements (λ _, entitlements s) (set_events (λ _, events s) s')).
Definition plans_back (s s' : State) : State := set_plans (λ _, plans s) (λ _, config s) s'.

Definition nullif {A} `{EqDecision A} (a b : A) : option A := if decide (a = b) then None else Some a.

(** [FROM_UNIXTIME(NULLIF(?, 0))] *)
Definition unixtime_or_null (t : Z) : option Z := nullif t 0 ≫= from_unixtime.

(** ** Numbers and booleans of a plan *)

(** The number at the front of a string, after white space and a sign: the
    sign, the digits' value and how many characters were read. *)
Definition whitespace : chars := ascii_of_nat <$> [32; 9; 10; 11; 12; 13]%nat.

Definition leading (set s : chars) : nat := length s - length (drop_set set s).

Definition strto (s : chars) : option (bool * Z * nat) :=
  let spaces := leading whitespace s in
  let s := drop spaces s in
  let '(neg, sign) := match s with
    | a :: _ => if Ascii.eqb a "-" then (true, 1) else if Ascii.eqb a "+" then (false, 1) else (false, 0)
    | [] => (false, 0)
    end%nat in
  let s := drop sign s in
  let n := leading (lit "0123456789") s in
  if decide (n = 0%nat) then None else Some (neg, decimal 0 (take n s), (spaces + sign + n)%nat).

Definition stoll (s : chars) : result (Z * nat) :=
  match strto s with
  | None => Throw runtime_error
  | Some (neg, m, pos) =>
      let v := if (neg : bool) then - m else m in
      if (- 2 ^ 63 <=? v) && (v <? 2 ^ 63) then Ok (v, pos) else Throw runtime_error
  end.

Definition stoul (s : chars) : result (Z * nat) :=
  match strto s with
  | None => Throw runtime_error
  | Some (neg, m, pos) =>
      if m <? 2 ^ 64 then Ok (if (neg : bool) then u64 (- m) else m, pos) else Throw runtime_error
  end.

Definition getIntValue (p : RemotePlan) (key : string) (defaultValue : option Z) : result Z :=
  let fallback := match defaultValue with Some d => Ok d | None => Throw runtime_error end in
  match values p !! key with
  | None => fallback
  | Some v =>
      if bool_decide (v = "-") && bool_decide (is_Some defaultValue) then fallback else
      match stoll (lit v) with
      | Ok (n, pos) => if decide (pos = String.length v) then Ok n else fallback
      | Throw _ => fallback
      end
  end.

Definition toLower (s : chars) : chars :=
  (λ a, let c := char_code a in
        if (65 <=? c) && (c <=? 90) then ascii_of_N (Z.to_N (c + 32)) else a) <$> s.

Definition getBoolValue (p : RemotePlan) (key : string) (defaultValue : option bool) : result bool :=
  match values p !! key with
  | None => match defaultValue with Some d => Ok d | None => Throw runtime_error end
  | Some v =>
      let v := toLower (lit v) in
      if bool_decide (v ∈ lit <$> ["1"; "true"; "yes"; "on"]%string) then Ok true else
      if bool_decide (v ∈ lit <$> ["0"; "false"; "no"; "off"]%string) then Ok false else
      Throw runtime_error
  end.

Definition toDbPlan (p : RemotePlan) : result DbPlan :=
  if decide (plan_id p = EmptyString) then Throw runtime_error else
  let! is_active := getBoolValue p "active" (Some true) in
  let! max_users := getIntValue p "max_users" (Some 1) in
  let! max_devices := getIntValue p "max_devices" (Some 0) in
  let! max_nodes := getIntValue p "max_nodes" (Some 0) in
  let! nodes_monthly_growth := getIntValue p "nodes_monthly_growth" (Some 0) in
  let! max_actions := getIntValue p "max_actions" (Some 0) in
  let! actions_monthly_growth := getIntValue p "actions_monthly_growth" (Some 0) in
  let! max_worksessions := getIntValue p "max_worksessions" None in
  let! work_sessions_monthly_growth := getIntValue p "work_sessions_monthly_growth" (Some 0) in
  let! max_time_blocks := getIntValue p "max_time_blocks" (Some 0) in
  let! time_blocks_monthly_growth := getIntValue p "time_blocks_monthly_growth" (Some 0) in
  let! mobile_only := getBoolValue p "mobile_only" (Some false) in
  Ok {| name := plan_id p; is_active := is_active; max_users := max_users; max_devices := max_devices;
        max_nodes := max_nodes; nodes_monthly_growth := nodes_monthly_growth; max_actions := max_actions;
        actions_monthly_growth := actions_monthly_growth; max_worksessions := max_worksessions;
        work_sessions_monthly_growth := work_sessions_monthly_growth; max_time_blocks := max_time_blocks;
        time_blocks_monthly_growth := time_blocks_monthly_growth; mobile_only := mobile_only |}.

(** ** Entitlements *)

(** What the handlers read of a tenant: NULL is the empty plan, or 0. *)
Record View := {
  v_plan : string;
  v_expires : Z;
  v_seats : Z;
  v_grace : Z;
  v_account : Z;
  v_state : TenantState
}.

#[local] Instance View_eq_dec : EqDecision View.
Proof. solve_decision. Defined.

Definition view (t : Tenant) : View :=
  {| v_plan := default EmptyString (plan t); v_expires := default 0 (plan_expires t); v_seats := plan_seats t;
     v_grace := default 0 (grace_period_expires t); v_account := default 0 (account_expires t);
     v_state := state t |}.

(** The columns the statements [UPDATE tenant] of the plan write. *)
Definition set_plan (p : string) (updated : Z) (expires : option Z) (grace : option Z) (st : TenantState)
    (t : Tenant) : Tenant :=
  {| plan := nullif p EmptyString; plan_updated := updated; plan_expires := expires; plan_seats := 1;
     grace_period_expires := grace; account_expires := None; state := st;
     registration_state := registration_state t; registration_attempts := registration_attempts t;
     last_registration_attempt := last_registration_attempt t;
     next_registration_retry := next_registration_retry t; system_tenant := system_tenant t |}.

(** The columns the registration writes. *)
Definition set_registration (st : Registration) (attempts : Z) (last next : option Z) (t : Tenant) : Tenant :=
  {| plan := plan t; plan_updated := plan_updated t; plan_expires := plan_expires t; plan_seats := plan_seats t;
     grace_period_expires := grace_period_expires t; account_expires := account_expires t; state := state t;
     registration_state := st; registration_attempts := attempts; last_registration_attempt := last;
     next_registration_retry := next; system_tenant := system_tenant t |}.

Definition downgradeTenantToFreePlan (visible : gmap string DbPlan) (now : Z) (id : Uuid) : Auto State unit :=
  let has_free_plan := match visible !! "free"%string with Some p => is_active p | None => false end in
  let! row := query (λ s, tenants s !! id) in
  match row with
  | None => mret tt
  | Some t =>
      let target_plan := if has_free_plan then "free"%string else EmptyString in
      let target_state := if has_free_plan then active else suspended in
      if decide (view t = {| v_plan := target_plan; v_expires := 0; v_seats := 1; v_grace := 0;
                             v_account := 0; v_state := target_state |})
      then mret tt
      else update (set_tenants (alter (set_plan target_plan now None None target_state) id))
  end.

Definition entitlement_row (e : Entitlement) : EntitlementRow :=
  {| r_plan_id := nullif (e_plan_id e) EmptyString; r_seats := nullif (default (-1) (e_seats e)) (-1);
     r_state := e_state e; r_valid_until := unixtime_or_null (default 0 (e_valid_until e));
     r_source := e_source e; r_source_ref := nullif (e_source_ref e) EmptyString; r_version := e_version e;
     r_updated_at := unixtime_or_null (default 0 (e_updated_at e)) |}.

(** [INSERT INTO entitlement ... ON DUPLICATE KEY UPDATE]; the foreign key
    asks for the tenant. *)
Definition save_entitlement (id : Uuid) (e : Entitlement) : Auto State unit :=
  let! row := query (λ s, tenants s !! id) in
  match row with
  | None => throw runtime_error
  | Some _ => update (set_entitlements <[(id, e_product_id e) := entitlement_row e]>)
  end.

(** The rest of [updatePlanFromEntitlement] after the row is saved. *)
Definition apply_to_tenant (visible : gmap string DbPlan) (now : Z) (id : Uuid) (e : Entitlement) :
    Auto State unit :=
  let valid_until := default 0 (e_valid_until e) in
  let target_plan_updated := default now (e_updated_at e) in
  let write grace :=
    let! updated := from (not_null (from_unixtime target_plan_updated)) in
    update (set_tenants (alter (set_plan (e_plan_id e) updated (unixtime_or_null valid_until) grace active) id)) in
  let target grace := {| v_plan := e_plan_id e; v_expires := u64 valid_until; v_seats := 1; v_grace := grace;
                         v_account := 0; v_state := active |} in
  let! row := query (λ s, tenants s !! id) in
  match row with
  | None => mret tt
  | Some t =>
      if bool_decide (e_state e = ENTITLEMENT_STATE_EXPIRED) && (0 <? grace_period_days) then
        let grace := now + grace_period_days * 24 * 60 * 60 in
        if decide (view t = target (u64 grace)) then mret tt else write (from_unixtime grace)
      else if decide (e_state e = ENTITLEMENT_STATE_ACTIVE) then
        if decide (view t = target 0) then mret tt else write None
      else downgradeTenantToFreePlan visible now id
  end.

(** ** The plans of the payment service *)

Definition loadActivePlans : Auto State unit :=
  let! busy := query is_loading in
  if (busy : bool) then mret tt else
  let! _ := update (λ s, set_busy (is_syncing s) true s) in
  finally
    (let! rows := query (λ s, filter (λ kp, is_active kp.2) (plans s)) in
     let! cfg := query config in
     let! days := from (match cfg !! "trial_days"%string with
       | None => Ok 0
       | Some v => let! (n, pos) := stoul (lit v) in
                   if decide (pos = String.length v) then Ok (u32 n) else Throw runtime_error
       end) in
     update (set_memory id (λ _, Some
       {| active_plans := rows; trial_days := days;
          default_for_signup := default EmptyString (cfg !! "default_for_signup"%string);
          default_for_free := default EmptyString (cfg !! "default_for_free"%string) |}) id))
    (λ s, set_busy (is_syncing s) false s).

(** One plan of the answer: [existing] are the rows read at the start; the
    result says whether the table changed. *)
Definition sync_plan (existing : gmap string DbPlan) (p : RemotePlan) (acc : bool * gmap string Z) :
    Auto State (bool * gmap string Z) :=
  if decide (plan_id p = EmptyString) then throw runtime_error else
  let! synced := query (λ s, synced_plan_versions s !! plan_id p) in
  if decide (synced = Some (version p)) then mret acc else
  let! row := from (toDbPlan p) in
  let write :=
    if storable row then update (set_plans <[name row := row]> id) else throw runtime_error in
  let processed := <[plan_id p := version p]> acc.2 in
  match existing !! name row with
  | None =>
      let! there := query (λ s, plans s !! name row) in
      match there with
      | Some _ => throw runtime_error               (* the key exists *)
      | None => let! _ := write in mret (true, processed)
      end
  | Some old => if decide (old = row) then mret (acc.1, processed)
                else let! _ := write in mret (true, processed)
  end.

Fixpoint sync_plans (existing : gmap string DbPlan) (ps : list RemotePlan) (acc : bool * gmap string Z) :
    Auto State (bool * gmap string Z) :=
  match ps with
  | [] => mret acc
  | p :: ps => sync_plan existing p acc ≫= sync_plans existing ps
  end.

Definition upsert_config (key value : string) : Auto State bool :=
  if decide (value = EmptyString) then mret false else
  let! old := query (λ s, config s !! key) in
  if decide (old = Some value) then mret false else
  let! _ := update (set_plans id <[key := value]>) in mret true.

Definition to_string (z : Z) : string := pretty z.

(** The transaction of [syncPlans]: whether it commits; whether a plan
    changed, the versions now known, and whether the configuration changed. *)
Definition sync_body (response : GetPlansResponse) : Auto State (bool * (bool * gmap string Z * bool)) :=
  let! existing := query plans in
  let! (changed, processed) := sync_plans existing (remote_plans response) (false, ∅) in
  let! c1 := upsert_config "trial_days"
               (match r_trial_days response with Some d => to_string d | None => "0"%string end) in
  let! c2 := upsert_config "default_for_signup" (r_default_for_signup response) in
  let! c3 := upsert_config "default_for_free" (r_default_for_free response) in
  mret (true, (changed, processed, c1 || c2 || c3)).

(** What follows the commit: the snapshot and the plans of the session
    manager are read again. *)
Definition sync_reload (changed config_updates : bool) : Auto State unit :=
  let! loaded := query (λ s, bool_decide (is_Some (snapshot s))) in
  let! _ := (if changed || config_updates || negb loaded then loadActivePlans else mret tt) in
  if changed then update (set_memory id id (λ l, l ++ [loadPlans])) else mret tt.

Definition syncPlans (reply : result GetPlansResponse) : Auto State unit :=
  let! busy := query is_syncing in
  if (busy : bool) then mret tt else
  let! _ := update (λ s, set_busy true (is_loading s) s) in
  finally
    (let! response := from reply in
     let! (changed, processed, config_updates) := transaction plans_back (sync_body response) in
     let! _ := update (set_memory (λ v, processed ∪ v) id id) in
     sync_reload changed config_updates)
    (λ s, set_busy false (is_loading s) s).

(** [getPlanForSignup]: the plan and whether it is a trial. *)
Definition getPlanForSignup (s : State) : result (string * bool) :=
  match snapshot s with
  | None => Throw runtime_error
  | Some p =>
      if decide (default_for_signup p = EmptyString) then
        if decide (default_for_free p = EmptyString) then Throw runtime_error
        else Ok (default_for_free p, false)
      else Ok (default_for_signup p, true)
  end.

(** The plans a query of a transaction sees; [at_begin] are those at its
    begin. *)
Definition visible (at_begin : gmap string DbPlan) (s : State) : gmap string DbPlan :=
  if repeatable_read then at_begin else plans s.

(** An unknown plan makes the server sync the plans first. *)
Definition require_plan (at_begin : gmap string DbPlan) (reply : result GetPlansResponse) (p : string) :
    Auto State unit :=
  if decide (p = EmptyString) then mret tt else
  let! known := query (λ s, visible at_begin s !! p) in
  match known with
  | Some _ => mret tt
  | None =>
      let! _ := syncPlans reply in
      let! _ := loadActivePlans in
      let! known := query (λ s, visible at_begin s !! p) in
      match known with Some _ => mret tt | None => throw runtime_error end
  end.

Definition updatePlanFromEntitlement (at_begin : gmap string DbPlan) (now : Z) (reply : result GetPlansResponse)
    (id : Uuid) (e : Entitlement) : Auto State bool :=
  let! current := query (λ s, entitlements s !! (id, e_product_id e)) in
  if default false ((λ r, e_version e <? r_version r) <$> current) then mret false else
  let! _ := require_plan at_begin reply (e_plan_id e) in
  let! _ := save_entitlement id e in
  let! now_visible := query (visible at_begin) in
  let! _ := apply_to_tenant now_visible now id e in
  mret true.

(** ** Registration of the tenants *)

(** What the outside world contributes to a call: the time before and after
    the rpc, what [EnsureTenantInitialized] or [GetEntitlement] answers and
    what [GetPlans] answers, should it be needed. *)
Record Outside := {
  now_before : Z;
  now_after : Z;
  rpc : result Entitlement;
  plans_rpc : result GetPlansResponse
}.

Definition kMaxTenantRegistrationAttempts : Z := 3.
Definition kRegistrationRetryBaseSeconds : Z := 5 * 60.

Inductive Begun := Skip (answer : bool) | Call (attempt : Z).

Definition endTenantRegistration (id : Uuid) (s : State) : State :=
  set_registering (λ f, f ∖ {[id]}) (λ b, b) s.

(** [ensureTenantRegistered] up to the rpc. *)
Definition registration_begin (now : Z) (id : Uuid) : Auto State Begun :=
  let! busy := query (λ s, bool_decide (id ∈ in_flight s)) in
  if (busy : bool) then mret (Skip false) else
  let! _ := update (set_registering ({[id]} ∪.) (.∖ {[id]})) in
  let skip b := let! _ := update (endTenantRegistration id) in mret (Skip b) in
  let! row := query (λ s, tenants s !! id) in
  match row with
  | None => skip false
  | Some t =>
      if decide (registration_state t ≠ pending_reg) then skip true else
      if kMaxTenantRegistrationAttempts <=? registration_attempts t then skip false else
      let! _ := update (set_tenants (alter (λ t,
        set_registration (registration_state t) (u32 (registration_attempts t + 1)) (Some now)
          (next_registration_retry t) t) id)) in
      mret (Call (registration_attempts t + 1))
  end.

(** [UPDATE tenant SET next_registration_retry = ... WHERE id = ? AND
    registration_state = 'pending_reg'] *)
Definition set_retry (next : option Z) (id : Uuid) : Auto State unit :=
  update (set_tenants (alter (λ t,
    if decide (registration_state t = pending_reg)
    then set_registration pending_reg (registration_attempts t) (last_registration_attempt t) next t
    else t) id)).

Definition refreshPlans (id : Uuid) : Auto State unit :=
  if has_grpc then update (set_memory (λ v, v) (λ a, a) (λ l, l ++ [refreshTenantPlansAndPublish id])) else mret tt.

(** What follows the answer of the rpc. *)
Definition registration_end (o : Outside) (id : Uuid) (attempt : Z) : Auto State bool :=
  finally
    match rpc o with
    | Throw _ =>
        let! _ := (if kMaxTenantRegistrationAttempts <=? attempt then set_retry None id
                   else
                     let retry_after := u32 (Z.shiftl kRegistrationRetryBaseSeconds (attempt - 1)) in
                     let! _ := set_retry (Some (now_after o + retry_after)) id in
                     update (set_registering (λ f, f) ({[id]} ∪.))) in
        mret false
    | Ok e =>
        let! _ := transaction tenants_back
          (let! at_begin := query plans in
           let! _ := (if decide (e_product_id e = EmptyString) then mret true
                      else updatePlanFromEntitlement at_begin (now_after o) (plans_rpc o) id e) in
           let! _ := update (set_tenants (alter (λ t,
             set_registration registered (registration_attempts t) (last_registration_attempt t) None t) id)) in
           mret (true, tt)) in
        let! _ := refreshPlans id in
        mret true
    end
    (endTenantRegistration id).

Definition ensureTenantRegistered (o : Outside) (id : Uuid) : Auto State bool :=
  let! b := registration_begin (now_before o) id in
  match b with Skip answer => mret answer | Call attempt => registration_end o id attempt end.

(** [queueTenantRegistration] up to [ensureTenantRegistered]. *)
Definition mark_pending (now : Z) (id : Uuid) : Auto State unit :=
  update (set_tenants (alter (λ t,
    set_registration (if decide (registration_state t = local_only) then local_only else pending_reg)
      (registration_attempts t) (last_registration_attempt t) (Some now) t) id)).

Definition queueTenantRegistration (o : Outside) (id : Uuid) : Auto State unit :=
  let! _ := mark_pending (now_before o) id in
  let! _ := ensureTenantRegistered o id in
  mret tt.

(** The tenants the sweep takes up, in its order. *)
Definition due_retry (now : Z) (t : Tenant) : bool :=
  bool_decide (registration_state t = pending_reg)
  && (registration_attempts t <? kMaxTenantRegistrationAttempts)
  && match next_registration_retry t with None => true | Some r => r <=? now end.

Definition before_in_sweep (a b : Uuid * Tenant) : Prop :=
  let ra := default 0 (next_registration_retry a.2) in
  let rb := default 0 (next_registration_retry b.2) in
  ra < rb ∨ ra = rb ∧ id_leb a.1 b.1 = true.

#[local] Instance before_in_sweep_dec a b : Decision (before_in_sweep a b).
Proof. unfold before_in_sweep. apply _. Defined.

Definition pending_tenants (now : Z) (s : State) : list Uuid :=
  (merge_sort before_in_sweep (filter (λ it, due_retry now it.2) (map_to_list (tenants s)))).*1.

Fixpoint register_each (outside : Uuid → Outside) (ids : list Uuid) : Auto State unit :=
  match ids with
  | [] => mret tt
  | id :: ids => let! _ := ensureTenantRegistered (outside id) id in register_each outside ids
  end.

Definition processPendingTenantRegistrations (now : Z) (outside : Uuid → Outside) : Auto State unit :=
  query (pending_tenants now) ≫= register_each outside.

Definition trackPendingTenantRegistrationBackoffs (now : Z) : Auto State unit :=
  update (λ s, set_registering (λ f, f) (λ b,
    dom (filter (λ it, bool_decide (registration_state it.2 = pending_reg)
                       && (registration_attempts it.2 <? kMaxTenantRegistrationAttempts)
                       && match next_registration_retry it.2 with None => false | Some r => now <? r end)
                (tenants s)) ∪ b) s).

(** [reconcileLocalOnlyTenants]: a tenant of the system is local and has the
    plan [pro]. *)
Definition reconciled (t : Tenant) : bool :=
  bool_decide (registration_state t = local_only) && bool_decide (plan t = Some "pro"%string)
  && bool_decide (plan_expires t = None) && bool_decide (grace_period_expires t = None)
  && bool_decide (account_expires t = None).

Definition reconcile (now : Z) (t : Tenant) : Tenant :=
  if system_tenant t && negb (reconciled t)
  then set_registration local_only (registration_attempts t) (last_registration_attempt t) None
         (set_plan "pro" now None None (state t) t)
  else t.

Definition reconcileLocalOnlyTenants (now : Z) : Auto State unit :=
  update (set_tenants (fmap (reconcile now))).

Definition refreshTenantEntitlement (at_begin : gmap string DbPlan) (o : Outside) (id : Uuid) : Auto State bool :=
  let! row := query (λ s, tenants s !! id) in
  match registration_state <$> row with
  | None | Some local_only => mret false
  | _ =>
      let! e := from (rpc o) in
      if decide (e_product_id e = EmptyString) then mret false else
      let! same := (if decide (e_tenant_id e = EmptyString) then mret true
                    else let! id' := from (toUuid (e_tenant_id e)) in mret (bool_decide (id' = id))) in
      if (same : bool) then updatePlanFromEntitlement at_begin (now_after o) (plans_rpc o) id e else mret false
  end.

(** [refreshTenantSubscription] of a registered tenant. *)
Definition refresh_registered (o : Outside) (id : Uuid) : Auto State unit :=
  let! _ := transaction tenants_back
    (let! at_begin := query plans in
     let! _ := refreshTenantEntitlement at_begin o id in
     mret (true, tt)) in
  refreshPlans id.

Definition refreshTenantSubscription (o : Outside) (id : Uuid) : Auto State unit :=
  let! row := query (λ s, tenants s !! id) in
  match registration_state <$> row with
  | None | Some local_only => mret tt
  | Some pending_reg => let! _ := ensureTenantRegistered o id in mret tt
  | Some registered => refresh_registered o id
  end.

(** ** The stream of entitlement changes *)

Definition now_registered (id : Uuid) : Auto State unit :=
  update (set_tenants (alter (λ t,
    set_registration (if decide (registration_state t = local_only) then local_only else registered)
      (registration_attempts t) (last_registration_attempt t) None t) id)).

(** The tenant of an event. *)
Definition event_tenant (subject : Uuid) (e : Entitlement) : result Uuid :=
  if decide (e_tenant_id e = EmptyString) then Ok subject else
  let! entitlement_tenant_id := toUuid (e_tenant_id e) in
  Ok (if decide (entitlement_tenant_id = subject) then entitlement_tenant_id else subject).

(** The transaction of [applyEntitlementChange]: whether it commits. *)
Definition event_body (now : Z) (reply : result GetPlansResponse) (event tenant : Uuid) (e : Entitlement) :
    Auto State (bool * bool) :=
  let! at_begin := query plans in
  let! row := query (λ s, tenants s !! tenant) in
  match row with
  | None => mret (false, false)
  | Some t =>
      if decide (registration_state t = local_only) then mret (false, false) else
      let! seen := query (λ s, bool_decide (event ∈ events s)) in
      if (seen : bool) then mret (false, false) else
      let! _ := update (set_events ({[event]} ∪.)) in
      let! updated := updatePlanFromEntitlement at_begin now reply tenant e in
      if (updated : bool) then let! _ := now_registered tenant in mret (true, true)
      else mret (false, false)
  end.

Definition applyEntitlementChange (now : Z) (reply : result GetPlansResponse) (ev : EntitlementChangeEvent) :
    Auto State unit :=
  if decide (event_id ev = EmptyString) then mret tt else
  if decide (subject_id ev = EmptyString) then mret tt else
  let! event := from (toUuid (event_id ev)) in
  let! subject := from (toUuid (subject_id ev)) in
  let! tenant := from (event_tenant subject (entitlement ev)) in
  if decide (e_product_id (entitlement ev) = EmptyString) then mret tt else
  let! committed := transaction tenants_back (event_body now reply event tenant (entitlement ev)) in
  if (committed : bool)
  then update (set_memory (λ v, v) (λ a, a) (λ l, l ++ [refreshTenantPlansAndPublish tenant]))
  else mret tt.

(** What [readFor] gives and what a message holds. *)
Inductive Notification := heartbeat | change (now : Z) (reply : result GetPlansResponse) (ev : EntitlementChangeEvent)
                        | no_payload.
Inductive ReadOutcome := timeout | done | failed | message (n : Notification).

(** The inner loop of [runEntitlementSubscriptionLoop], until the reads end:
    whether the stream was stale and whether a message came. *)
Fixpoint consume (reads : list ReadOutcome) (healthy : bool) : Auto State (bool * bool) :=
  match reads with
  | [] | done :: _ | failed :: _ => mret (false, healthy)
  | timeout :: _ => mret (true, healthy)
  | message (change now reply ev) :: reads =>
      let! _ := caught (applyEntitlementChange now reply ev) in consume reads true
  | message _ :: reads => consume reads true
  end.

(** The outer loop: each round has a stream, which connects or not, and its
    reads; the result is the seconds waited after each round. *)
Definition next_wait (wasConnected healthy : bool) (backoff : Z) : Z :=
  if wasConnected || healthy then 1 else backoff.

Fixpoint subscription_rounds (rounds : list (bool * list ReadOutcome)) (backoff : Z) : Auto State (list Z) :=
  match rounds with
  | [] => mret []
  | (wasConnected, reads) :: rounds =>
      let! (stale, healthy) := consume reads false in
      let wait := next_wait wasConnected healthy backoff in
      let! waits := subscription_rounds rounds (Z.min (wait * 2) 30) in
      mret (wait :: waits)
  end.

Definition runEntitlementSubscriptionLoop (rounds : list (bool * list ReadOutcome)) : Auto State (list Z) :=
  subscription_rounds rounds 1.

(** [onServerReady] up to the loops it starts. *)
Definition onServerReady (now : Z) (outside : Uuid → Outside) : Auto State unit :=
  let! _ := reconcileLocalOnlyTenants now in
  let! _ := trackPendingTenantRegistrationBackoffs now in
  processPendingTenantRegistrations now outside.

(** [RepairMissingTenantPlans] of Tenants.cpp: the tenants without a plan
    get one and register anew; the ids are those a registration is queued
    for.  [session_plan] says of the plans of the session manager whether
    they are active. *)
Definition repaired (now : Z) (p : string) (t : Tenant) : Tenant :=
  if system_tenant t || bool_decide (is_Some (plan t)) then t else
  set_registration pending_reg 0 None (Some now) (set_plan p now None None (state t) t).

Definition missing_plan (s : State) : list Uuid :=
  (filter (λ it, system_tenant it.2 = false ∧ plan it.2 = None) (map_to_list (tenants s))).*1.

Definition RepairMissingTenantPlans (enable_plan : bool) (session_plan : string → option bool)
    (now : Z) (p : string) : Auto State (list Uuid) :=
  if negb enable_plan then throw (server_err Error.INVALID_REQUEST) else
  if decide (p = EmptyString) then throw (server_err Error.INVALID_REQUEST) else
  if negb (default false (session_plan p)) then throw (server_err Error.NOT_FOUND) else
  let! ids := query missing_plan in
  if decide (ids = []) then mret [] else
  let! _ := update (set_tenants (fmap (repaired now p))) in
  let! _ := update (set_memory (λ v, v) (λ a, a) (λ l, l ++ (refreshTenantPlansAndPublish <$> ids))) in
  mret ids.

End plans.
