(* ===== verification/PlansCorrect.v ===== *)
(** * The plans of the tenants stay right

    The theorems about Plans.v: the rpcs of a registration are bounded, the
    newest entitlement of a tenant wins, the table of plans is in step with
    the payment service, and two places where the handlers do something else
    than they mean to. *)
From S2P Require Import Prelude Text Plans.
Local Open Scope Z_scope.
Local Open Scope nextapp_scope.

Section plans.
Context `{Env}.

(** ** What every operation leaves alone *)



Lemma always_throw {A} (R : State → State → Prop) `{!PreOrder R} (e : exn) : always R (throw (A := A) e).
Proof. intros s. cbn. reflexivity. Qed.

Lemma always_from {A} (R : State → State → Prop) `{!PreOrder R} (r : result A) : always R (from r).
Proof. intros s. unfold from, stmt, lift. destruct r; cbn; reflexivity. Qed.

Lemma always_update (R : State → State → Prop) f : (∀ s, R s (f s)) → always R (update f).
Proof. intros Hf s. apply Hf. Qed.

Lemma always_query {A B} (R : State → State → Prop) (f : State → A) (k : A → Auto State B) :
  (∀ s, R s (k (f s) s).2) → always R (query f ≫= k).
Proof. apply always_gets. Qed.

Lemma always_k {A B} (R : State → State → Prop) (f : State → A) (k : A → Auto State B) :
  (∀ a, always R (k a)) → always R (query f ≫= k).
Proof. intros Hk. apply always_query. intros s. apply Hk. Qed.

Lemma always_finally {A} (R : State → State → Prop) `{!PreOrder R} (m : Auto State A) f :
  always R m → (∀ s, R s (f s)) → always R (finally m f).
Proof.
  intros Hm Hf s. specialize (Hm s). unfold finally. destruct (m s) as [r s']. cbn in *.
  by transitivity s'.
Qed.

Lemma always_caught (R : State → State → Prop) m : always R m → always R (caught m).
Proof. intros Hm s. specialize (Hm s). unfold caught. by destruct (m s). Qed.

Lemma always_transaction {A} (R : State → State → Prop) back (m : Auto State (bool * A)) :
  always R m → (∀ s s', R s s' → R s (back s s')) → always R (transaction back m).
Proof.
  intros Hm Hb s. specialize (Hm s). unfold transaction.
  destruct (m s) as [[[[] a]|e] s']; cbn in *; auto.
Qed.

(** [quiet]: the attempts of the tenants and the registrations under way are
    as before. *)
Definition attempts (s : State) : gmap Uuid Z := registration_attempts <$> tenants s.

Definition quiet (s s' : State) : Prop := attempts s' = attempts s ∧ in_flight s' = in_flight s.

#[local] Instance quiet_preorder : PreOrder quiet.
Proof. split; [by intros s|]. intros s1 s2 s3 [A1 F1] [A2 F2]. split; congruence. Qed.

Lemma attempts_alter f id s :
  (∀ t, registration_attempts (f t) = registration_attempts t) → quiet s (set_tenants (alter f id) s).
Proof.
  intros Hf. split; [|done]. unfold attempts. cbn. apply map_eq. intros i. rewrite !lookup_fmap.
  rewrite lookup_alter. case_decide; [subst|done]. destruct (tenants s !! i); cbn; [by rewrite Hf|done].
Qed.

Lemma attempts_fmap f s :
  (∀ t, registration_attempts (f t) = registration_attempts t) → quiet s (set_tenants (fmap f) s).
Proof.
  intros Hf. split; [|done]. unfold attempts. cbn. rewrite <- map_fmap_compose. apply map_fmap_ext.
  intros i t _. apply Hf.
Qed.

Ltac quiet_update :=
  apply always_update; intros; first
    [ done | by split | apply attempts_alter | apply attempts_fmap ]; intros; repeat case_decide; reflexivity.

Ltac frame := repeat match goal with
  | |- always _ (mret _) => apply (always_ret _)
  | |- always _ (throw _) => apply (always_throw _)
  | |- always _ (from _) => apply (always_from _)
  | |- always _ (update _) => quiet_update
  | |- always _ (query _ ≫= _) => apply always_k; intros
  | |- always _ (_ ≫= _) => apply (always_bind _); [|intros]
  | |- always _ (finally _ _) => apply (always_finally _); [|by split]
  | |- always _ (transaction _ _) => apply always_transaction; [|by intros ?? []]
  | |- always _ (caught _) => apply always_caught
  | |- always _ (let '(_, _) := ?x in _) => destruct x
  | |- always _ (match ?x with _ => _ end) => destruct x
  | |- always _ (if ?x then _ else _) => destruct x
  | |- always _ _ => solve [auto with quiet]
  end.

Create HintDb quiet discriminated.

Lemma loadActivePlans_quiet : always quiet loadActivePlans.
Proof. unfold loadActivePlans. frame. Qed.
#[local] Hint Resolve loadActivePlans_quiet : quiet.

Lemma sync_plan_quiet existing p acc : always quiet (sync_plan existing p acc).
Proof. unfold sync_plan. frame. Qed.
#[local] Hint Resolve sync_plan_quiet : quiet.

Lemma sync_plans_quiet existing ps acc : always quiet (sync_plans existing ps acc).
Proof. revert acc. induction ps as [|p ps IH]; intros acc; cbn; frame. Qed.
#[local] Hint Resolve sync_plans_quiet : quiet.

Lemma upsert_config_quiet k v : always quiet (upsert_config k v).
Proof. unfold upsert_config. frame. Qed.
#[local] Hint Resolve upsert_config_quiet : quiet.

Lemma syncPlans_quiet reply : always quiet (syncPlans reply).
Proof.
  unfold syncPlans, sync_body, sync_reload. frame.
Qed.
#[local] Hint Resolve syncPlans_quiet : quiet.

Lemma require_plan_quiet at_begin reply p : always quiet (require_plan at_begin reply p).
Proof. unfold require_plan. frame. Qed.
#[local] Hint Resolve require_plan_quiet : quiet.

Lemma downgrade_quiet vis now id : always quiet (downgradeTenantToFreePlan vis now id).
Proof. unfold downgradeTenantToFreePlan. frame. Qed.
#[local] Hint Resolve downgrade_quiet : quiet.

Lemma apply_to_tenant_quiet vis now id e : always quiet (apply_to_tenant vis now id e).
Proof. unfold apply_to_tenant. frame. Qed.
#[local] Hint Resolve apply_to_tenant_quiet : quiet.

Lemma save_entitlement_quiet id e : always quiet (save_entitlement id e).
Proof. unfold save_entitlement. frame. Qed.
#[local] Hint Resolve save_entitlement_quiet : quiet.

Lemma updatePlanFromEntitlement_quiet at_begin now reply id e :
  always quiet (updatePlanFromEntitlement at_begin now reply id e).
Proof.
  unfold updatePlanFromEntitlement. frame.
Qed.
#[local] Hint Resolve updatePlanFromEntitlement_quiet : quiet.

Lemma refreshPlans_quiet id : always quiet (refreshPlans id).
Proof. unfold refreshPlans. frame. Qed.
#[local] Hint Resolve refreshPlans_quiet : quiet.

Lemma refreshTenantEntitlement_quiet at_begin o id : always quiet (refreshTenantEntitlement at_begin o id).
Proof. unfold refreshTenantEntitlement. frame. Qed.
#[local] Hint Resolve refreshTenantEntitlement_quiet : quiet.

Lemma now_registered_quiet id : always quiet (now_registered id).
Proof. unfold now_registered. frame. Qed.
#[local] Hint Resolve now_registered_quiet : quiet.

Lemma applyEntitlementChange_quiet now reply ev : always quiet (applyEntitlementChange now reply ev).
Proof.
  unfold applyEntitlementChange, event_body. frame.
Qed.
#[local] Hint Resolve applyEntitlementChange_quiet : quiet.

Lemma mark_pending_quiet now id : always quiet (mark_pending now id).
Proof. unfold mark_pending. frame. Qed.
#[local] Hint Resolve mark_pending_quiet : quiet.

Lemma refresh_registered_quiet o id : always quiet (refresh_registered o id).
Proof. unfold refresh_registered. frame. Qed.
#[local] Hint Resolve refresh_registered_quiet : quiet.

(** ** Registrations as a system

    The calls of [ensureTenantRegistered] that wait for their rpc, with the
    number of the attempt, next to the state; [calls] lists the rpcs made. *)
Record System := { sys : State; open_calls : list (Uuid * Z); calls : list Uuid }.

Definition set_sys (s : State) (w : System) : System :=
  {| sys := s; open_calls := open_calls w; calls := calls w |}.

(** What the server starts with: its tables. *)
Definition restarted (s : State) : State :=
  {| tenants := tenants s; entitlements := entitlements s; events := events s; plans := plans s;
     config := config s; in_flight := ∅; in_backoff := ∅; is_syncing := false; is_loading := false;
     synced_plan_versions := ∅; snapshot := None; effects := [] |}.

Inductive Op :=
| op_begin (now : Z) (id : Uuid)
| op_end (o : Outside) (id : Uuid)
| op_queue (now : Z) (id : Uuid)
| op_event (now : Z) (reply : result GetPlansResponse) (ev : EntitlementChangeEvent)
| op_refresh (o : Outside) (id : Uuid)
| op_sync (reply : result GetPlansResponse)
| op_load
| op_track (now : Z)
| op_reconcile (now : Z)
| op_restart.

Definition op_step (op : Op) (w : System) : System :=
  match op with
  | op_begin now id =>
      match registration_begin now id (sys w) with
      | (Ok (Call a), s) => {| sys := s; open_calls := (id, a) :: open_calls w; calls := id :: calls w |}
      | (_, s) => set_sys s w
      end
  | op_end o id =>
      match filter (λ c, c.1 = id) (open_calls w) with
      | [] => w
      | (_, a) :: _ =>
          {| sys := (registration_end o id a (sys w)).2;
             open_calls := filter (λ c, c.1 ≠ id) (open_calls w); calls := calls w |}
      end
  | op_queue now id => set_sys (mark_pending now id (sys w)).2 w
  | op_event now reply ev => set_sys (applyEntitlementChange now reply ev (sys w)).2 w
  | op_refresh o id => set_sys (refresh_registered o id (sys w)).2 w
  | op_sync reply => set_sys (syncPlans reply (sys w)).2 w
  | op_load => set_sys (loadActivePlans (sys w)).2 w
  | op_track now => set_sys (trackPendingTenantRegistrationBackoffs now (sys w)).2 w
  | op_reconcile now => set_sys (reconcileLocalOnlyTenants now (sys w)).2 w
  | op_restart => {| sys := restarted (sys w); open_calls := []; calls := calls w |}
  end.

Definition op_run (ops : list Op) (w : System) : System := foldl (λ w op, op_step op w) w ops.

Lemma in_flight_back id (s : State) : id ∉ in_flight s → ({[id]} ∪ in_flight s) ∖ {[id]} = in_flight s.
Proof. set_solver. Qed.

Lemma registration_begin_spec now id s :
  match registration_begin now id s with
  | (Ok (Call a), s') => id ∉ in_flight s ∧ in_flight s' = {[id]} ∪ in_flight s ∧
      ∃ n, attempts s !! id = Some n ∧ n < 3 ∧ attempts s' = <[id := u32 (n + 1)]> (attempts s)
  | (Ok (Skip _), s') => quiet s s'
  | (Throw _, _) => False
  end.
Proof.
  unfold registration_begin. cbv [mbind Auto_bind query stmt gets update modify mret Auto_ret].
  case_bool_decide as Hin; [by split|].
  cbn [tenants set_registering].
  destruct (tenants s !! id) as [t|] eqn:Ht; [|split; [done|by apply in_flight_back]].
  destruct (decide _) as [Hp|Hp]; [split; [done|by apply in_flight_back]|].
  destruct (Z.leb_spec kMaxTenantRegistrationAttempts (registration_attempts t)) as [Hk|Hk];
    [split; [done|by apply in_flight_back]|].
  split; [done|]. split; [done|]. exists (registration_attempts t).
  split; [unfold attempts; by rewrite lookup_fmap, Ht|]. split; [done|].
  unfold attempts. cbn. apply map_eq. intros i. rewrite !lookup_fmap, lookup_alter, lookup_insert, lookup_fmap.
  case_decide; [subst; by rewrite Ht|done].
Qed.

Lemma registration_end_spec o id a s :
  let s' := (registration_end o id a s).2 in
  attempts s' = attempts s ∧ in_flight s' = in_flight s ∖ {[id]}.
Proof.
  unfold registration_end, finally. set (body := match rpc o with Ok _ => _ | Throw _ => _ end).
  assert (Hq : always quiet body) by (subst body; unfold set_retry; frame).
  specialize (Hq s) as [Ha Hf]. destruct (body s) as [r s']. cbn in *. by rewrite <- Hf.
Qed.

(** How many rpcs were made for a tenant. *)
Definition calls_of (id : Uuid) (w : System) : Z := Z.of_nat (length (filter (λ i, i = id) (calls w))).

Record calls_inv (s0 : State) (w : System) : Prop := {
  ci_flight : in_flight (sys w) = list_to_set (open_calls w).*1;
  ci_nodup : NoDup (open_calls w).*1;
  ci_count id n0 : attempts s0 !! id = Some n0 → attempts (sys w) !! id = Some (n0 + calls_of id w);
  ci_range id n : attempts (sys w) !! id = Some n → 0 ≤ n ≤ kMaxTenantRegistrationAttempts
}.

Lemma calls_inv_quiet s0 s w : quiet (sys w) s → calls_inv s0 w → calls_inv s0 (set_sys s w).
Proof. intros [Ha Hf] [F N C R]. split; cbn; rewrite ?Hf, ?Ha; auto. Qed.

Lemma calls_inv_begin s0 now id w : calls_inv s0 w → calls_inv s0 (op_step (op_begin now id) w).
Proof.
  intros I. cbn. pose proof (registration_begin_spec now id (sys w)) as Hb.
  destruct (registration_begin now id (sys w)) as [[[b|a]|e] s']; [by apply calls_inv_quiet| |done].
  destruct Hb as (Hin & Hf & n & Hn & Hlt & Ha), I as [F N C R].
  destruct (R _ _ Hn) as [Hn0 _]. rewrite (wrap_small 32) in Ha by lia.
  rewrite F, elem_of_list_to_set in Hin.
  split; cbn.
  - by rewrite Hf, F.
  - by constructor.
  - intros i n0 H0. apply C in H0. rewrite Ha, lookup_insert. unfold calls_of in *. cbn [calls]. rewrite filter_cons.
    case_decide; [subst|by rewrite H0]. rewrite Hn in H0. injection H0 as ->. f_equal. cbn [length]. lia.
  - intros i m. rewrite Ha, lookup_insert. case_decide; [|apply R].
    intros [= <-]. unfold kMaxTenantRegistrationAttempts. lia.
Qed.

Lemma fst_filter {B} id (l : list (Uuid * B)) :
  (filter (λ c, c.1 ≠ id) l).*1 = filter (λ i, i ≠ id) l.*1.
Proof.
  induction l as [|c l IH]; [done|]. rewrite fmap_cons, !filter_cons.
  repeat case_decide; try done. by rewrite fmap_cons, IH.
Qed.

Lemma calls_inv_end s0 o id w : calls_inv s0 w → calls_inv s0 (op_step (op_end o id) w).
Proof.
  intros I. cbn. destruct (filter (λ c, c.1 = id) (open_calls w)) as [|[i a] l]; [done|].
  destruct I as [F N C R], (registration_end_spec o id a (sys w)) as [Ha Hf].
  set (s' := (registration_end o id a (sys w)).2) in *.
  rewrite F in Hf. split; cbn [sys open_calls calls].
  - rewrite Hf, fst_filter. apply set_eq. intros j. rewrite elem_of_difference, !elem_of_list_to_set,
      list_elem_of_filter, elem_of_singleton. tauto.
  - rewrite fst_filter. by apply NoDup_filter.
  - intros j n Hj. rewrite Ha. by apply C.
  - intros j n. rewrite Ha. apply R.
Qed.

Lemma op_step_inv s0 op w : calls_inv s0 w → calls_inv s0 (op_step op w).
Proof.
  intros I. destruct op as [| | | | | | | | |];
    [by apply calls_inv_begin|by apply calls_inv_end|..]; cbn; try (apply calls_inv_quiet; [|done]).
  - apply mark_pending_quiet.
  - apply applyEntitlementChange_quiet.
  - apply refresh_registered_quiet.
  - apply syncPlans_quiet.
  - apply loadActivePlans_quiet.
  - by split.
  - unfold reconcileLocalOnlyTenants. by apply attempts_fmap; intros t; unfold reconcile; destruct (_ && _).
  - destruct I as [F N C R]. split; cbn; [done|constructor|apply C|apply R].
Qed.

(** A registration with the payment service is tried at most three
    times: whatever the server does (events, refreshes, sweeps that overlap,
    restarts), the rpcs made for a tenant and the attempts it started with
    add up to its [registration_attempts], which never exceeds three, and no
    two calls for a tenant are open at once. *)
Theorem registration_calls_bounded (ops : list Op) (s0 : State) (id : Uuid) (n0 : Z) :
  in_flight s0 = ∅ → map_Forall (λ _ n, 0 ≤ n ≤ 3) (attempts s0) → attempts s0 !! id = Some n0 →
  let w := op_run ops {| sys := s0; open_calls := []; calls := [] |} in
  attempts (sys w) !! id = Some (n0 + calls_of id w) ∧ n0 + calls_of id w ≤ 3 ∧
  NoDup (open_calls w).*1.
Proof.
  intros Hf Hr Hn w.
  assert (I : calls_inv s0 w).
  { unfold w, op_run. apply (foldl_inv (calls_inv s0)); [intros; by apply op_step_inv|].
    split; cbn; [done|constructor| |apply Hr]. intros i n Hi. rewrite Hi. f_equal. unfold calls_of. cbn. lia. }
  destruct I as [F N C R]. pose proof (C _ _ Hn) as Hc. split; [done|]. split; [apply (R _ _ Hc)|done].
Qed.

(** ** What an entitlement does to its tenant *)

(** The plan a tenant gets from an entitlement. *)
Definition downgraded_view (vis : gmap string DbPlan) : View :=
  let free := match vis !! "free"%string with Some p => is_active p | None => false end in
  {| v_plan := if free then "free"%string else EmptyString; v_expires := 0; v_seats := 1; v_grace := 0;
     v_account := 0; v_state := if free then active else suspended |}.

Definition grace_end (now : Z) : Z := now + grace_period_days * 24 * 60 * 60.

Definition target_view (vis : gmap string DbPlan) (now : Z) (e : Entitlement) : View :=
  let granted grace := {| v_plan := e_plan_id e; v_expires := default 0 (e_valid_until e); v_seats := 1;
                          v_grace := grace; v_account := 0; v_state := active |} in
  match e_state e with
  | ENTITLEMENT_STATE_ACTIVE => granted 0
  | ENTITLEMENT_STATE_EXPIRED => if 0 <? grace_period_days then granted (grace_end now) else downgraded_view vis
  | ENTITLEMENT_STATE _ => downgraded_view vis
  end.

(** The database can hold the times of an entitlement that arrives at
    [now]. *)
Definition holds_time (v : Z) : Prop := 0 < v < 2 ^ 64 ∧ from_unixtime v = Some v.

Record dated (now : Z) (e : Entitlement) : Prop := {
  dated_until : default 0 (e_valid_until e) = 0 ∨ holds_time (default 0 (e_valid_until e));
  dated_grace : holds_time (grace_end now);
  dated_update : is_ok (not_null (from_unixtime (default now (e_updated_at e)))) = true
}.

Lemma alter_Some {A} (f : A → A) (m : gmap Uuid A) i x : m !! i = Some x → alter f i m = <[i := f x]> m.
Proof.
  intros Hx. apply map_eq. intros j. rewrite lookup_alter, lookup_insert. case_decide; [subst|done].
  by rewrite Hx.
Qed.

Lemma same_tenant id t s : tenants s !! id = Some t → s = set_tenants <[id := t]> s.
Proof. intros Ht. destruct s. unfold set_tenants. cbn in *. by rewrite insert_id. Qed.

Lemma set_tenants_alter f id t s :
  tenants s !! id = Some t → set_tenants (alter f id) s = set_tenants <[id := f t]> s.
Proof. intros Ht. unfold set_tenants. cbn. by rewrite (alter_Some _ _ _ t). Qed.

Lemma view_set_plan p updated expires grace st t :
  view (set_plan p updated expires grace st t) =
  {| v_plan := p; v_expires := default 0 expires; v_seats := 1; v_grace := default 0 grace; v_account := 0;
     v_state := st |}.
Proof. unfold view, set_plan, nullif. by destruct (decide (p = EmptyString)) as [->|]. Qed.

Lemma unixtime_or_null_default v : v = 0 ∨ holds_time v → default 0 (unixtime_or_null v) = v.
Proof.
  unfold unixtime_or_null, nullif. intros [->|[Hv Hd]]; [done|]. destruct (decide (v = 0)); [lia|]. cbn. by rewrite Hd.
Qed.

(** An operation that sets the plan of the tenant [id]. *)
Definition sets_view (id : Uuid) (v : View) (m : Auto State unit) : Prop :=
  ∀ s t, tenants s !! id = Some t →
    ∃ t', m s = (Ok tt, set_tenants <[id := t']> s) ∧ view t' = v ∧
          registration_state t' = registration_state t.

Lemma downgrade_sets vis now id : sets_view id (downgraded_view vis) (downgradeTenantToFreePlan vis now id).
Proof.
  intros s t Ht. unfold downgradeTenantToFreePlan, query, update.
  cbv [mbind Auto_bind stmt gets modify mret Auto_ret]. rewrite Ht.
  destruct (decide _) as [E|E].
  - exists t. split; [f_equal; by apply same_tenant|done].
  - rewrite (set_tenants_alter _ _ t) by done. eexists. split; [done|]. by rewrite view_set_plan.
Qed.

Lemma apply_to_tenant_sets vis now id e :
  dated now e → sets_view id (target_view vis now e) (apply_to_tenant vis now id e).
Proof.
  intros [Hu Hg Hd] s t Ht. unfold apply_to_tenant, query, update.
  cbv [mbind Auto_bind stmt gets modify mret Auto_ret]. rewrite Ht.
  assert (Hu64 : u64 (default 0 (e_valid_until e)) = default 0 (e_valid_until e)).
  { apply wrap_small. destruct Hu as [->|[? _]]; lia. }
  assert (Hg64 : u64 (grace_end now) = grace_end now) by (destruct Hg as [? _]; apply wrap_small; lia).
  unfold grace_end in Hg64. rewrite Hu64, Hg64.
  destruct (not_null _) as [updated|] eqn:Hnn; [|done].
  assert (Hw : ∀ grace, 
    view (set_plan (e_plan_id e) updated (unixtime_or_null (default 0 (e_valid_until e))) grace active t) =
    {| v_plan := e_plan_id e; v_expires := default 0 (e_valid_until e); v_seats := 1; v_grace := default 0 grace;
       v_account := 0; v_state := active |}).
  { intros grace. by rewrite view_set_plan, unixtime_or_null_default. }
  unfold target_view. destruct (e_state e) eqn:Hst.
  - rewrite bool_decide_eq_false_2 by done. cbn [andb].
    destruct (decide (_ = _)) as [_|]; [|done].
    destruct (decide _) as [E|E]; [exists t; split; [f_equal; by apply same_tenant|done]|].
    unfold from, stmt, lift. rewrite (set_tenants_alter _ _ t) by done. eexists. by split.
  - rewrite bool_decide_eq_true_2 by done. cbn [andb].
    destruct (0 <? grace_period_days).
    + destruct (decide _) as [E|E]; [exists t; split; [f_equal; by apply same_tenant|done]|].
      unfold from, stmt, lift. rewrite (set_tenants_alter _ _ t) by done. eexists. split; [done|].
      destruct Hg as [_ Hg]. unfold grace_end in *. by rewrite Hw, Hg.
    + destruct (decide (_ = _)) as [|_]; [done|]. by apply downgrade_sets.
  - rewrite bool_decide_eq_false_2 by done. cbn [andb].
    destruct (decide (_ = _)) as [|_]; [done|]. by apply downgrade_sets.
Qed.

(** What is known of the entitlement [e] of [id]: not that it is older. *)
Definition stale (id : Uuid) (e : Entitlement) (s : State) : bool :=
  default false ((λ r, e_version e <? r_version r) <$> entitlements s !! (id, e_product_id e)).

Definition plan_known (e : Entitlement) (m : gmap string DbPlan) : Prop :=
  e_plan_id e = EmptyString ∨ is_Some (m !! e_plan_id e).

Lemma visible_plans (m : gmap string DbPlan) s : m = plans s → visible m s = plans s.
Proof. unfold visible. by intros ->; destruct repeatable_read. Qed.

Lemma updatePlan_stale m now reply id e s :
  stale id e s = true → updatePlanFromEntitlement m now reply id e s = (Ok false, s).
Proof.
  intros Hs. unfold updatePlanFromEntitlement, query. cbv [mbind Auto_bind stmt gets].
  unfold stale in Hs. by rewrite Hs.
Qed.

Lemma updatePlan_fresh m now reply id e s t :
  m = plans s → tenants s !! id = Some t → dated now e → plan_known e (plans s) → stale id e s = false →
  ∃ t', updatePlanFromEntitlement m now reply id e s =
          (Ok true, set_tenants <[id := t']> (set_entitlements <[(id, e_product_id e) := entitlement_row e]> s)) ∧
        view t' = target_view (plans s) now e ∧ registration_state t' = registration_state t.
Proof.
  intros Hm Ht Hd Hk Hs. unfold updatePlanFromEntitlement, query. cbv [mbind Auto_bind stmt gets].
  unfold stale in Hs. rewrite Hs.
  assert (Hp : require_plan m reply (e_plan_id e) s = (Ok tt, s)).
  { unfold require_plan, query. cbv [mbind Auto_bind stmt gets]. destruct (decide _) as [|Hne]; [done|].
    rewrite visible_plans by done. destruct Hk as [|[p Hp]]; [done|]. by rewrite Hp. }
  rewrite Hp. unfold save_entitlement, query, update. cbv [mbind Auto_bind stmt gets modify]. rewrite Ht.
  rewrite visible_plans by done.
  destruct (apply_to_tenant_sets (plans s) now id e Hd
              (set_entitlements <[(id, e_product_id e) := entitlement_row e]> s) t) as (t' & Hr & Hv & Hg);
    [done|].
  exists t'. cbn [plans set_entitlements]. rewrite Hr. by split.
Qed.

(** ** Events *)

(** An event that arrives at [d_now]; [d_reply] is what the payment service
    would answer to a sync. *)
Record Delivery := { d_now : Z; d_reply : result GetPlansResponse; d_event : EntitlementChangeEvent }.

Definition d_entitlement (d : Delivery) : Entitlement := entitlement (d_event d).
Definition d_version (d : Delivery) : Z := e_version (d_entitlement d).
Definition d_read (d : Delivery) : ReadOutcome := message (change (d_now d) (d_reply d) (d_event d)).

(** The uuid in a message, if it has one. *)
Definition uuid_in (s : string) : option Uuid :=
  if decide (s = EmptyString) then None else match toUuid s with Ok id => Some id | Throw _ => None end.

(** A well formed event about the product [p] of the tenant [id]. *)
Record event_for (id : Uuid) (p : string) (known : gmap string DbPlan) (d : Delivery) : Prop := {
  ef_event : is_Some (uuid_in (event_id (d_event d)));
  ef_subject : uuid_in (subject_id (d_event d)) = Some id;
  ef_tenant : e_tenant_id (d_entitlement d) = EmptyString ∨ is_Some (uuid_in (e_tenant_id (d_entitlement d)));
  ef_product : e_product_id (d_entitlement d) = p;
  ef_product_set : p ≠ EmptyString;
  ef_plan : plan_known (d_entitlement d) known;
  ef_dated : dated (d_now d) (d_entitlement d)
}.

Lemma uuid_in_Some s id : uuid_in s = Some id → s ≠ EmptyString ∧ toUuid s = Ok id.
Proof. unfold uuid_in. destruct (decide _); [done|]. destruct (toUuid s); naive_solver. Qed.

Definition d_uuid (d : Delivery) : option Uuid := uuid_in (event_id (d_event d)).

(** What the plan of a tenant depends on: the row of its entitlement and the
    view of the tenant. *)
Definition standing (id : Uuid) (p : string) (s : State) : option EntitlementRow * option View :=
  (entitlements s !! (id, p), view <$> tenants s !! id).

(** The effect of an event on it. *)
Definition receive (known : gmap string DbPlan) (o : option EntitlementRow * option View) (d : Delivery) :
    option EntitlementRow * option View :=
  if default false ((λ r, d_version d <? r_version r) <$> o.1) then o
  else (Some (entitlement_row (d_entitlement d)), Some (target_view known (d_now d) (d_entitlement d))).

(** The tenant takes part in the payments. *)
Definition enrolled (id : Uuid) (s : State) : Prop :=
  ∃ t, tenants s !! id = Some t ∧ registration_state t ≠ local_only.

Lemma event_tenant_subject id e :
  e_tenant_id e = EmptyString ∨ is_Some (uuid_in (e_tenant_id e)) → event_tenant id e = Ok id.
Proof.
  unfold event_tenant, uuid_in. destruct (decide _) as [|]; [done|]. intros [|[i Hi]]; [done|].
  destruct (toUuid _); [|done]. cbn. by case_decide; subst.
Qed.

Lemma event_body_spec now reply ev id e s t :
  tenants s !! id = Some t → registration_state t ≠ local_only → ev ∉ events s →
  dated now e → plan_known e (plans s) →
  if stale id e s
  then event_body now reply ev id e s = (Ok (false, false), set_events ({[ev]} ∪.) s)
  else ∃ t', event_body now reply ev id e s =
               (Ok (true, true), set_tenants <[id := t']>
                 (set_entitlements <[(id, e_product_id e) := entitlement_row e]> (set_events ({[ev]} ∪.) s))) ∧
             view t' = target_view (plans s) now e ∧ registration_state t' ≠ local_only.
Proof.
  intros Ht Hreg Hev Hd Hk. unfold event_body, query, update. cbv [mbind Auto_bind stmt gets modify].
  rewrite Ht. destruct (decide _) as [|_]; [done|]. rewrite bool_decide_eq_false_2 by done.
  set (s1 := set_events _ s). destruct (stale id e s) eqn:Hs; [by rewrite updatePlan_stale|].
  destruct (updatePlan_fresh (plans s) now reply id e s1 t) as (t' & Hr & Hv & Hg); [done..|].
  rewrite Hr. unfold now_registered, update, stmt, modify. rewrite <- Hg in Hreg.
  exists (set_registration (if decide (registration_state t' = local_only) then local_only else registered)
    (registration_attempts t') (last_registration_attempt t') None t').
  rewrite (set_tenants_alter _ _ t') by (cbn; by rewrite lookup_insert_eq).
  split; [|split; [exact Hv|]].
  - cbv [mret Auto_ret]. f_equal. unfold set_tenants. cbn. by rewrite insert_insert_eq.
  - cbn. destruct (decide _); done.
Qed.

Lemma applyEntitlementChange_receives id p d s ev :
  enrolled id s → event_for id p (plans s) d → uuid_in (event_id (d_event d)) = Some ev → ev ∉ events s →
  ∃ s', applyEntitlementChange (d_now d) (d_reply d) (d_event d) s = (Ok tt, s') ∧
    standing id p s' = receive (plans s) (standing id p s) d ∧
    enrolled id s' ∧ plans s' = plans s ∧ events s' ⊆ {[ev]} ∪ events s.
Proof.
  intros (t & Ht & Hreg) [_ (Hs1 & Hs2)%uuid_in_Some Htn Hp Hp' Hk Hd] (He1 & He2)%uuid_in_Some Hev.
  unfold applyEntitlementChange, from. cbv [mbind Auto_bind stmt lift].
  destruct (decide _) as [|_]; [done|]. destruct (decide _) as [|_]; [done|]. rewrite He2, Hs2.
  fold (d_entitlement d). rewrite (event_tenant_subject id) by done.
  rewrite Hp. destruct (decide _) as [|_]; [done|].
  pose proof (event_body_spec (d_now d) (d_reply d) ev id (d_entitlement d) s t Ht Hreg Hev Hd Hk) as Hb.
  unfold transaction, receive. unfold stale in Hb. rewrite Hp in Hb. cbn [fst standing]. fold (d_version d) in Hb.
  destruct (default false _).
  - rewrite Hb. eexists. split; [done|]. destruct s; cbn in *. repeat split; [by exists t|set_solver].
  - destruct Hb as (t' & -> & Hv & Hg). eexists. split; [done|]. unfold standing. cbn.
    rewrite !lookup_insert_eq. cbn. rewrite Hv. repeat split; [|done]. exists t'. cbn. by rewrite lookup_insert_eq.
Qed.

(** The events of a stream apply [receive] one after the other. *)
Lemma consume_receives id p l s healthy :
  enrolled id s → Forall (event_for id p (plans s)) l →
  NoDup (d_uuid <$> l) →
  (∀ d ev, d ∈ l → d_uuid d = Some ev → ev ∉ events s) →
  standing id p (consume (d_read <$> l) healthy s).2 = foldl (receive (plans s)) (standing id p s) l.
Proof.
  revert s healthy. induction l as [|d l IH]; intros s healthy He Hl Hn Hf; [done|].
  apply Forall_cons in Hl as [Hd Hl]. rewrite fmap_cons in Hn. apply NoDup_cons in Hn as [Hnd Hn].
  destruct (ef_event _ _ _ _ Hd) as [ev Hev].
  destruct (applyEntitlementChange_receives id p d s ev He Hd Hev) as (s' & Hr & Hst & He' & Hp & Hes).
  { by apply (Hf d); [left|]. }
  cbn [fmap list_fmap d_read consume foldl]. cbv [mbind Auto_bind caught]. rewrite Hr.
  rewrite <- Hp, IH; [by rewrite Hp, Hst|done|by rewrite Hp|done|].
  intros d' ev' Hd' Hev' Hin. apply Hes in Hin. apply elem_of_union in Hin as [Hin|Hin].
  - apply elem_of_singleton in Hin as ->. apply Hnd. unfold d_uuid at 1. rewrite Hev, <- Hev'. by apply (list_elem_of_fmap_2 d_uuid).
  - by eapply Hf; [right| |].
Qed.

(** The version known after a list of events. *)
Lemma receive_bound known v l o :
  (∀ r, o.1 = Some r → r_version r ≤ v) → (∀ d, d ∈ l → d_version d ≤ v) →
  ∀ r, (foldl (receive known) o l).1 = Some r → r_version r ≤ v.
Proof.
  revert o. induction l as [|d l IH]; intros o Ho Hl; [done|]. cbn. apply IH; [|intros; by apply Hl; right].
  unfold receive. destruct (default false _); [done|]. intros r [= <-]. apply Hl. by left.
Qed.

Lemma receive_older known l row v o :
  o = (Some row, v) → (∀ d, d ∈ l → d_version d < r_version row) → foldl (receive known) o l = o.
Proof.
  intros -> Hl. induction l as [|d l IH]; [done|]. cbn.
  unfold receive at 2. cbn. rewrite (proj2 (Z.ltb_lt _ _)) by (apply Hl; by left).
  apply IH. intros; by apply Hl; right.
Qed.


(** An event that was applied before changes nothing. *)
Lemma repeated_event_ignored now reply (ev : EntitlementChangeEvent) (s : State) event subject :
  uuid_in (event_id ev) = Some event → uuid_in (subject_id ev) = Some subject → event ∈ events s →
  (applyEntitlementChange now reply ev s).2 = s.
Proof.
  intros (He1 & He2)%uuid_in_Some (Hs1 & Hs2)%uuid_in_Some Hin.
  unfold applyEntitlementChange, from. cbv [mbind Auto_bind stmt lift].
  destruct (decide _) as [|_]; [done|]. destruct (decide _) as [|_]; [done|]. rewrite He2, Hs2.
  destruct (event_tenant _ _) as [id|]; [|done]. destruct (decide _) as [|_]; [done|].
  unfold transaction, event_body, query, update. cbv [mbind Auto_bind stmt gets modify].
  destruct (tenants s !! id) as [t|]; [|by destruct s]. destruct (decide _); [by destruct s|].
  rewrite bool_decide_eq_true_2 by done. by destruct s.
Qed.

(** ** The plans stay in step with the payment service *)

Lemma toDbPlan_name p row : toDbPlan p = Ok row → name row = plan_id p ∧ plan_id p ≠ EmptyString.
Proof.
  unfold toDbPlan. destruct (decide _) as [|Hne]; [done|].
  repeat (intros (? & _ & Hr)%bind_Ok; revert Hr). by intros [= <-].
Qed.

(** What the payment service offers; the number of a plan's version says
    what is in it: [content id v]. *)
Variable content : string → Z → result DbPlan.

Definition in_step (s : State) : Prop :=
  map_Forall (λ p v, ∃ row, content p v = Ok row ∧ plans s !! p = Some row) (synced_plan_versions s).

Definition has_plan (s : State) (p : RemotePlan) : Prop :=
  ∃ row, toDbPlan p = Ok row ∧ plans s !! plan_id p = Some row.

(** The loop over the plans of the answer, [done] being those behind it. *)
Record sync_inv (s0 : State) (done : list RemotePlan) (acc : bool * gmap string Z) (s : State) : Prop := {
  si_synced : synced_plan_versions s = synced_plan_versions s0;
  si_busy : is_syncing s = is_syncing s0;
  si_done p : p ∈ done → has_plan s p;
  si_rest i : i ∉ plan_id <$> done → plans s !! i = plans s0 !! i;
  si_processed i v : acc.2 !! i = Some v → ∃ p, p ∈ done ∧ plan_id p = i ∧ version p = v;
  si_skipped i : acc.2 !! i = None → plans s !! i = plans s0 !! i
}.

Lemma has_plan_other s p row id :
  plan_id p ≠ id → has_plan s p → has_plan (set_plans <[id := row]> (λ c, c) s) p.
Proof. intros Hne (r & H1 & H2). exists r. split; [done|]. cbn. by rewrite lookup_insert_ne. Qed.

Lemma sync_inv_write s0 done acc s p row b :
  toDbPlan p = Ok row → plan_id p ∉ plan_id <$> done → sync_inv s0 done acc s →
  sync_inv s0 (done ++ [p]) (b, <[plan_id p := version p]> acc.2) (set_plans <[name row := row]> (λ c, c) s).
Proof.
  intros Hrow Hp [S B D R P K]. destruct (toDbPlan_name _ _ Hrow) as [Hn _]. rewrite Hn. split; cbn; [done|done|..].
  - intros q [Hq| ->%list_elem_of_singleton]%elem_of_app.
    + apply has_plan_other; [|by apply D]. intros E. apply Hp. rewrite <- E. by apply list_elem_of_fmap_2.
    + exists row. cbn. by rewrite lookup_insert_eq.
  - intros i Hi. rewrite fmap_app, not_elem_of_app in Hi. destruct Hi as [Hi Hi'].
    rewrite lookup_insert_ne; [by apply R|]. intros <-. apply Hi'. by left.
  - intros i v. rewrite lookup_insert. case_decide as E.
    + intros [= <-]. exists p. split; [apply elem_of_app; right; by left|done].
    + intros (q & ? & ?)%P. exists q. split; [apply elem_of_app; by left|done].
  - intros i. rewrite !lookup_insert. case_decide; [done|]. apply K.
Qed.

Lemma sync_inv_same s0 done acc s p row b m :
  toDbPlan p = Ok row → plans s !! plan_id p = Some row → plan_id p ∉ plan_id <$> done →
  m = acc.2 ∨ m = <[plan_id p := version p]> acc.2 →
  sync_inv s0 done acc s → sync_inv s0 (done ++ [p]) (b, m) s.
Proof.
  intros Hrow Hp Hnd Hm [S B D R P K]. split; cbn; [done|done|..].
  - intros q [Hq| ->%list_elem_of_singleton]%elem_of_app; [by apply D|by exists row].
  - intros i Hi. apply R. rewrite fmap_app, not_elem_of_app in Hi. tauto.
  - intros i v Hi. destruct Hm as [->| ->].
    + apply P in Hi as (q & ? & ?). exists q. split; [apply elem_of_app; by left|done].
    + rewrite lookup_insert in Hi. case_decide.
      * injection Hi as <-. exists p. split; [apply elem_of_app; right; by left|done].
      * apply P in Hi as (q & ? & ?). exists q. split; [apply elem_of_app; by left|done].
  - intros i Hi. destruct Hm as [->| ->]; [by apply K|]. rewrite lookup_insert in Hi. case_decide; [done|by apply K].
Qed.

Definition follows (p : RemotePlan) : Prop := toDbPlan p = content (plan_id p) (version p).

Lemma sync_plan_inv s0 done acc s p acc' s' :
  in_step s0 → follows p → plan_id p ∉ plan_id <$> done → sync_inv s0 done acc s →
  sync_plan (plans s0) p acc s = (Ok acc', s') → sync_inv s0 (done ++ [p]) acc' s'.
Proof.
  intros Hs0 Hf Hp I. unfold sync_plan, query, throw, from, update.
  cbv [mbind Auto_bind stmt gets lift modify mret Auto_ret].
  destruct (decide _) as [|_]; [done|]. destruct (decide _) as [Hv|_].
  - intros [= <- <-]. rewrite (si_synced _ _ _ _ I) in Hv. destruct (Hs0 _ _ Hv) as (row & Hc & Hrow).
    destruct acc as [b m]. apply (sync_inv_same _ _ (b, m) _ _ row); auto.
    + by rewrite Hf.
    + by rewrite (si_rest _ _ _ _ I).
  - destruct (toDbPlan p) as [row|] eqn:Hrow; [|done]. destruct (toDbPlan_name _ _ Hrow) as [Hn _].
    destruct (plans s0 !! name row) as [old|] eqn:Hold.
    + destruct (decide _) as [->|_].
      * intros [= <- <-]. apply (sync_inv_same _ _ acc _ _ row); auto.
        rewrite (si_rest _ _ _ _ I) by done. by rewrite <- Hn.
      * destruct (storable row); [|done]. intros [= <- <-]. by apply sync_inv_write.
    + destruct (plans s !! name row); [done|].
      destruct (storable row); [|done]. intros [= <- <-]. by apply sync_inv_write.
Qed.

Lemma sync_plans_inv s0 ps done acc s acc' s' :
  in_step s0 → Forall follows ps → NoDup (plan_id <$> done ++ ps) → sync_inv s0 done acc s →
  sync_plans (plans s0) ps acc s = (Ok acc', s') → sync_inv s0 (done ++ ps) acc' s'.
Proof.
  intros Hs0. revert done acc s. induction ps as [|p ps IH]; intros done acc s Hf Hn I.
  - intros [= <- <-]. by rewrite app_nil_r.
  - apply Forall_cons in Hf as [Hp Hf]. cbn [sync_plans]. cbv [mbind Auto_bind].
    destruct (sync_plan _ p acc s) as [[acc1|] s1] eqn:H1; [|done]. intros Hr.
    assert (Hp' : plan_id p ∉ plan_id <$> done).
    { rewrite fmap_app, fmap_cons in Hn. apply NoDup_app in Hn as (_ & Hn & _). intros Hin. apply (Hn _ Hin). by left. }
    rewrite (cons_middle p) in Hn |- *. rewrite app_assoc in Hn |- *.
    eapply IH; [done|done| |exact Hr]. by eapply sync_plan_inv.
Qed.

(** What a part of the sync leaves of the plans and their versions. *)
Definition same_plans (s s' : State) : Prop :=
  plans s' = plans s ∧ synced_plan_versions s' = synced_plan_versions s ∧ is_syncing s' = is_syncing s.

Lemma upsert_config_plans k v s : same_plans s (upsert_config k v s).2.
Proof.
  unfold upsert_config, query, update. cbv [mbind Auto_bind stmt gets modify mret Auto_ret].
  destruct (decide _); [done|]. by destruct (decide _).
Qed.

Lemma loadActivePlans_plans s : same_plans s (loadActivePlans s).2.
Proof.
  unfold loadActivePlans, query, update, finally, from. cbv [mbind Auto_bind stmt gets modify lift mret Auto_ret].
  destruct (is_loading s); [done|]. by destruct (match _ with None => _ | Some v => _ end).
Qed.

Lemma sync_reload_plans c1 c2 s : same_plans s (sync_reload c1 c2 s).2.
Proof.
  unfold sync_reload, query, update. cbv [mbind Auto_bind stmt gets modify mret Auto_ret].
  destruct (c1 || c2 || _); [|by destruct c1].
  pose proof (loadActivePlans_plans s) as Hl. destruct (loadActivePlans s) as [[[]|] s']; [|done].
  by destruct c1.
Qed.

(** The versions change after the commit only. *)
Definition same_versions (s s' : State) : Prop := synced_plan_versions s' = synced_plan_versions s.

#[local] Instance same_versions_preorder : PreOrder same_versions.
Proof. split; [by intros s|]. intros s1 s2 s3 H1 H2. unfold same_versions in *. congruence. Qed.

Lemma sync_plans_versions existing ps acc : always same_versions (sync_plans existing ps acc).
Proof. revert acc. induction ps as [|p ps IH]; intros acc; cbn; unfold sync_plan; frame. Qed.

Lemma sync_body_versions response : always same_versions (sync_body response).
Proof.
  pose proof (sync_plans_versions). unfold sync_body, upsert_config. frame.
Qed.

Lemma upsert_config_Ok k v s : ∃ b, upsert_config k v s = (Ok b, (upsert_config k v s).2).
Proof.
  unfold upsert_config, query, update. cbv [mbind Auto_bind stmt gets modify mret Auto_ret].
  destruct (decide _); [by eexists|]. by destruct (decide _); eexists.
Qed.

Lemma sync_inv_start s : sync_inv s [] (false, ∅) s.
Proof.
  split; try done. intros p Hp. by apply elem_of_nil in Hp.
Qed.

Lemma sync_inv_plans s0 done acc s s' : same_plans s s' → sync_inv s0 done acc s → sync_inv s0 done acc s'.
Proof. intros (Hp & Hv & Hb) [S B D R P K]. by split; unfold has_plan; rewrite ?Hp, ?Hv, ?Hb. Qed.

Lemma sync_body_inv response s acc s' :
  in_step s → Forall follows (remote_plans response) → NoDup (plan_id <$> remote_plans response) →
  sync_body response s = (Ok acc, s') →
  ∃ changed processed c, acc = (true, (changed, processed, c)) ∧ is_syncing s' = is_syncing s ∧
    sync_inv s (remote_plans response) (changed, processed) s'.
Proof.
  intros Hs Hf Hn. unfold sync_body, query. cbv [mbind Auto_bind stmt gets].
  destruct (sync_plans _ _ _ s) as [[[ch pr]|] s1] eqn:H1; [|done].
  apply (sync_plans_inv s _ [] (false, ∅)) in H1; [|done..|by apply sync_inv_start].
  do 3 match goal with |- context [upsert_config ?k ?v ?t] =>
    destruct (upsert_config_Ok k v t) as [? ->];
    apply (sync_inv_plans _ _ _ _ _ (upsert_config_plans k v t)) in H1;
    generalize dependent (upsert_config k v t).2; intros ? H1
  end.
  intros [= <- <-]. eexists _, _, _. split; [done|]. split; [apply H1|done].
Qed.

(** The plans after the commit, with the versions now known. *)
Lemma sync_inv_in_step s0 ps acc s m :
  in_step s0 → Forall follows ps → sync_inv s0 ps acc s → m = acc.2 ∪ synced_plan_versions s →
  map_Forall (λ p v, ∃ row, content p v = Ok row ∧ plans s !! p = Some row) m.
Proof.
  intros Hs0 Hf [S B D R P K] -> p v Hv.
  apply lookup_union_Some_raw in Hv as [Hv|[Hn Hv]].
  - apply P in Hv as (q & Hq & <- & <-). destruct (D q Hq) as (row & Hr & Hp).
    exists row. split; [|done]. rewrite Forall_forall in Hf. by rewrite <- (Hf q Hq).
  - rewrite S in Hv. destruct (Hs0 _ _ Hv) as (row & Hc & Hp). exists row. by rewrite K.
Qed.

(** The plans of the database stay in step with the payment service: a
    sync leaves every plan of the answer in the table as the answer has it
    (a plan whose version was seen before is skipped, and its row is that of
    the version), leaves the other plans alone, and never does half of it:
    when it fails the table is as before, or the answer was stored and only
    the reload of the snapshot failed. *)
Theorem syncPlans_in_step (response : GetPlansResponse) (s : State) :
  is_syncing s = false → in_step s →
  Forall follows (remote_plans response) → NoDup (plan_id <$> remote_plans response) →
  let '(r, s') := syncPlans (Ok response) s in
  in_step s' ∧ is_syncing s' = false ∧
  (plans s' = plans s ∧ is_ok r = false ∨
   Forall (has_plan s') (remote_plans response) ∧
   ∀ i, i ∉ plan_id <$> remote_plans response → plans s' !! i = plans s !! i).
Proof.
  intros Hb Hs Hf Hn. unfold syncPlans, query. cbv [mbind Auto_bind stmt gets]. rewrite Hb.
  unfold update at 1. cbv [stmt modify]. set (s1 := set_busy true _ s).
  assert (Hs1 : in_step s1) by done.
  unfold finally, from, stmt, lift, transaction.
  pose proof (sync_body_versions response s1) as Hv1.
  destruct (sync_body response s1) as [[acc|] s2] eqn:Hbody; cbn in Hv1;
    [|split; [unfold in_step; cbn; by rewrite Hv1|split; [done|by left]]].
  apply sync_body_inv in Hbody as (ch & pr & c & -> & _ & I); [|done..].
  unfold update, stmt, modify.
  pose proof (sync_inv_in_step s1 _ _ s2 _ Hs1 Hf I eq_refl) as Hmap. destruct I as [S B D R P K].
  set (s3 := set_memory _ _ _ s2). destruct (sync_reload_plans ch c s3) as (Hp & Hv & _).
  destruct (sync_reload ch c s3) as [r s4]. cbn [snd] in *. split; [|split; [done|right; split]].
  - unfold in_step. cbn. rewrite Hp, Hv. exact Hmap.
  - unfold has_plan. cbn. rewrite Hp. by apply Forall_forall.
  - cbn. rewrite Hp. exact R.
Qed.

(** ** Where the handlers do something else than they mean to *)

(** A transaction that reads the plans as they were when it began does
    not see a plan that was synced for its sake: an event that names a plan
    the server has not stored yet is lost, whatever the payment service
    answers; neither the tenant nor its entitlement changes, and the event
    is not marked as seen. *)
Theorem unknown_plan_event_lost id p (s : State) now reply (ev : EntitlementChangeEvent) event :
  repeatable_read = true → enrolled id s →
  uuid_in (event_id ev) = Some event → event ∉ events s → uuid_in (subject_id ev) = Some id →
  e_tenant_id (entitlement ev) = EmptyString → e_product_id (entitlement ev) = p → p ≠ EmptyString →
  stale id (entitlement ev) s = false →
  e_plan_id (entitlement ev) ≠ EmptyString → plans s !! e_plan_id (entitlement ev) = None →
  let '(r, s') := applyEntitlementChange now reply ev s in
  is_ok r = false ∧ standing id p s' = standing id p s ∧ events s' = events s.
Proof.
  intros Hrr (t & Ht & Hreg) (He1 & He2)%uuid_in_Some Hev (Hs1 & Hs2)%uuid_in_Some Htn Hp Hp' Hst Hpl Hun.
  unfold applyEntitlementChange, from. cbv [mbind Auto_bind stmt lift].
  destruct (decide _) as [|_]; [done|]. destruct (decide _) as [|_]; [done|]. rewrite He2, Hs2.
  rewrite (event_tenant_subject id) by by left. rewrite Hp. destruct (decide _) as [|_]; [done|].
  unfold transaction, event_body, query, update. cbv [mbind Auto_bind stmt gets modify]. rewrite Ht.
  destruct (decide _) as [|_]; [done|]. rewrite bool_decide_eq_false_2 by done.
  unfold updatePlanFromEntitlement, query. cbv [mbind Auto_bind stmt gets].
  unfold stale in Hst. cbn [entitlements set_events]. rewrite Hst.
  set (s1 := set_events _ s).
  assert (Hv : ∀ s', visible (plans s) s' !! e_plan_id (entitlement ev) = None)
    by (intros s'; unfold visible; by rewrite Hrr).
  assert (Hr : ∃ e s2, require_plan (plans s) reply (e_plan_id (entitlement ev)) s1 = (Throw e, s2)).
  { unfold require_plan, query. cbv [mbind Auto_bind stmt gets].
    destruct (decide _) as [|_]; [done|]. rewrite Hv.
    destruct (syncPlans reply s1) as [[[]|] s2]; [|by eauto].
    destruct (loadActivePlans s2) as [[[]|] s3]; [|by eauto]. rewrite Hv. by eexists _, _. }
  destruct Hr as (e & s2 & ->). done.
Qed.

(** A refresh restarts the grace period: for a registered tenant whose
    entitlement has expired, [GetSubscription] with [forceRefresh] fetches
    the same entitlement again and sets the end of the grace period anew,
    counted from the time of the request, as often as it is asked. *)
Theorem refresh_restarts_grace id (s : State) (t : Tenant) (o : Outside) e :
  tenants s !! id = Some t → registration_state t = registered →
  rpc o = Ok e → e_state e = ENTITLEMENT_STATE_EXPIRED → 0 < grace_period_days →
  e_product_id e ≠ EmptyString → e_tenant_id e = EmptyString →
  (r_version <$> entitlements s !! (id, e_product_id e)) = Some (e_version e) →
  plan_known e (plans s) → dated (now_after o) e →
  let s' := (refreshTenantSubscription o id s).2 in
  v_grace ∘ view <$> tenants s' !! id = Some (now_after o + grace_period_days * 24 * 60 * 60) ∧
  (r_version <$> entitlements s' !! (id, e_product_id e)) = Some (e_version e).
Proof.
  intros Ht Hreg Ho He Hg Hp Htn Hv Hk Hd s'.
  assert (Hs : stale id e s = false).
  { unfold stale. destruct (entitlements s !! _) as [r|]; [|done]. cbn in *. injection Hv as ->. apply Z.ltb_irrefl. }
  destruct (updatePlan_fresh (plans s) (now_after o) (plans_rpc o) id e s t eq_refl Ht Hd Hk Hs)
    as (t' & Hr & Hview & _).
  assert (Hrun : ∃ x, (refreshTenantSubscription o id s).2 = set_memory (λ v, v) (λ a, a) x
     (set_tenants <[id := t']> (set_entitlements <[(id, e_product_id e) := entitlement_row e]> s))).
  { unfold refreshTenantSubscription, query. cbv [mbind Auto_bind stmt gets]. rewrite Ht.
    cbn [fmap option_fmap option_map]. rewrite Hreg.
    unfold refresh_registered, transaction, query. cbv [mbind Auto_bind stmt gets].
    unfold refreshTenantEntitlement, query, from. cbv [mbind Auto_bind stmt gets lift mret Auto_ret]. rewrite Ht.
    cbn [fmap option_fmap option_map]. rewrite Hreg, Ho.
    destruct (decide _) as [|_]; [done|]. destruct (decide _) as [_|]; [|done]. rewrite Hr.
    unfold refreshPlans, update, stmt, modify. destruct has_grpc; [by eexists|].
    exists (λ l, l). by destruct s. }
  destruct Hrun as [x Hrun]. unfold s'. rewrite Hrun. cbn. rewrite !lookup_insert_eq. cbn. split; [|done].
  f_equal. change (v_grace (view t') = grace_end (now_after o)). rewrite Hview. unfold target_view. rewrite He.
  by rewrite (proj2 (Z.ltb_lt _ _)).
Qed.

End plans.

(** ** Concrete runs *)
Module Example_plans.

#[local] Instance env : Env :=
  {| product_id := "app"; grace_period_days := 10; has_grpc := true; repeatable_read := true;
     from_unixtime := λ t, Some t;
     not_null := λ t, match t with Some v => Ok v | None => Throw runtime_error end;
     storable := λ _, true; toUuid := Ok; id_leb := String.leb |}.

Definition pro : DbPlan :=
  {| name := "pro"; is_active := true; max_users := 1; max_devices := 0; max_nodes := 0;
     nodes_monthly_growth := 0; max_actions := 0; actions_monthly_growth := 0; max_worksessions := 10;
     work_sessions_monthly_growth := 0; max_time_blocks := 0; time_blocks_monthly_growth := 0;
     mobile_only := false |}.

Definition tenant (reg : Registration) : Tenant :=
  {| plan := Some "pro"%string; plan_updated := 5; plan_expires := None; plan_seats := 1;
     grace_period_expires := None; account_expires := None; state := active; registration_state := reg;
     registration_attempts := 0; last_registration_attempt := None; next_registration_retry := None;
     system_tenant := false |}.

Definition start (reg : Registration) (ent : gmap (Uuid * string) EntitlementRow) : State :=
  {| tenants := {["t" := tenant reg]}; entitlements := ent; events := ∅; plans := {["pro" := pro]}; config := ∅;
     in_flight := ∅; in_backoff := ∅; is_syncing := false; is_loading := false; synced_plan_versions := ∅;
     snapshot := None; effects := [] |}.

Definition entitled (st : EntitlementState) (p : string) (v : Z) : Entitlement :=
  {| e_tenant_id := ""; e_product_id := "app"; e_plan_id := p; e_seats := None; e_state := st;
     e_valid_until := Some 2000; e_source := 0; e_source_ref := ""; e_version := v; e_updated_at := None |}.

Definition deliver (eid : string) (now : Z) (e : Entitlement) : Delivery :=
  {| d_now := now; d_reply := Throw runtime_error;
     d_event := {| event_id := eid; subject_id := "t"; entitlement := e |} |}.

Lemma env_dated now e : 0 < now < 1000000 → e_valid_until e = Some 2000 → e_updated_at e = None → dated now e.
Proof.
  intros Hn Hv Hu. split; rewrite ?Hv, ?Hu; cbn; [right|..|done]; (split; [|done]);
    unfold grace_end; cbn [grace_period_days env]; lia.
Qed.

(** The newer event overtakes the older one. *)
Definition news : list Delivery :=
  [deliver "e2" 1001 (entitled ENTITLEMENT_STATE_EXPIRED "pro" 8);
   deliver "e1" 1002 (entitled ENTITLEMENT_STATE_ACTIVE "pro" 7)].


Lemma registration_calls_bounded_witness :
  let ops := [op_begin 1 "t"; op_begin 2 "t"; op_restart; op_begin 3 "t"; op_restart; op_begin 4 "t";
              op_restart; op_begin 5 "t"]%string in
  let w := op_run ops {| sys := start pending_reg ∅; open_calls := []; calls := [] |} in
  attempts (sys w) !! "t"%string = Some (0 + calls_of "t" w) ∧ 0 + calls_of "t" w ≤ 3 ∧
  NoDup (open_calls w).*1.
Proof.
  apply (registration_calls_bounded _ (start pending_reg ∅) "t" 0); [done| |done].
  intros i n. unfold attempts. cbn. rewrite lookup_fmap, fmap_Some.
  intros (t & [_ <-]%lookup_singleton_Some & ->). cbn. lia.
Defined.

(** The first three begins call the payment service, the others do not. *)
Example three_calls :
  calls (op_run [op_begin 1 "t"; op_begin 2 "t"; op_restart; op_begin 3 "t"; op_restart; op_begin 4 "t";
                 op_restart; op_begin 5 "t"]%string
           {| sys := start pending_reg ∅; open_calls := []; calls := [] |}) = ["t"; "t"; "t"]%string.
Proof. vm_compute. reflexivity. Qed.

Definition offered : RemotePlan :=
  {| plan_id := "team"; version := 3; values := {["max_worksessions" := "50"; "max_users" := "-"]} |}%string.
Definition answer : GetPlansResponse :=
  {| remote_plans := [offered]; r_trial_days := Some 30; r_default_for_signup := "team"; r_default_for_free := "" |}.

Lemma syncPlans_in_step_witness :
  let '(r, s') := syncPlans (Ok answer) (start pending_reg ∅) in
  in_step (λ _ _, toDbPlan offered) s' ∧ is_syncing s' = false ∧
  (plans s' = plans (start pending_reg ∅) ∧ is_ok r = false ∨
   Forall (has_plan s') (remote_plans answer) ∧
   ∀ i, i ∉ plan_id <$> remote_plans answer → plans s' !! i = plans (start pending_reg ∅) !! i).
Proof.
  apply (syncPlans_in_step (λ _ _, toDbPlan offered) answer (start pending_reg ∅)).
  - done.
  - intros i v. cbn. by rewrite lookup_empty.
  - by repeat constructor.
  - repeat constructor. apply not_elem_of_nil.
Defined.

(** The parsed limits, the snapshot and the plan for new tenants. *)
Example sync_stores :
  let s' := (syncPlans (Ok answer) (start pending_reg ∅)).2 in
  max_worksessions <$> plans s' !! "team"%string = Some 50 ∧
  max_users <$> plans s' !! "team"%string = Some 1 ∧
  trial_days <$> snapshot s' = Some 30 ∧ getPlanForSignup s' = Ok ("team"%string, true).
Proof. vm_compute. auto. Qed.

Lemma unknown_plan_event_lost_witness :
  let ev := d_event (deliver "e1" 0 (entitled ENTITLEMENT_STATE_ACTIVE "team" 1)) in
  let '(r, s') := applyEntitlementChange 1000 (Ok answer) ev (start registered ∅) in
  is_ok r = false ∧ standing "t" "app" s' = standing "t" "app" (start registered ∅) ∧
  events s' = events (start registered ∅).
Proof.
  apply (unknown_plan_event_lost "t" "app" (start registered ∅) 1000 (Ok answer) _ "e1"); try done.
  by exists (tenant registered).
Defined.

Definition expired_row : gmap (Uuid * string) EntitlementRow :=
  {[("t", "app")%string := entitlement_row (entitled ENTITLEMENT_STATE_EXPIRED "pro" 8)]}.

Definition late : Outside :=
  {| now_before := 5000; now_after := 5000; rpc := Ok (entitled ENTITLEMENT_STATE_EXPIRED "pro" 8);
     plans_rpc := Throw runtime_error |}.

Lemma refresh_restarts_grace_witness :
  let s' := (refreshTenantSubscription late "t" (start registered expired_row)).2 in
  v_grace ∘ view <$> tenants s' !! "t"%string = Some (5000 + grace_period_days * 24 * 60 * 60) ∧
  (r_version <$> entitlements s' !! ("t", "app")%string) = Some 8.
Proof.
  apply (refresh_restarts_grace "t" (start registered expired_row) (tenant registered) late
           (entitled ENTITLEMENT_STATE_EXPIRED "pro" 8)); try done.
  - right. by eexists.
  - apply env_dated; [cbn; lia|done..].
Defined.

End Example_plans.
