(* ===== verification/Dispatch.v ===== *)
(** * The dispatch of requests

    [unaryHandler] and [mutatingUnaryHandler] of
    backend/include/nextapp/GrpcServer.h with [RequestCtx], [publishUpdates]
    and [publishUpdatesAfterFailure]: the coroutine that takes a request of a
    user through the session, the check of the administrator, the check for
    a replay and the user's write access to its handler, publishes what the
    handler queued, and replies.  The coroutines of a user run interleaved,
    one statement of the database or one update at a time.

    The database, the updates and the replies are parameters; what the
    session manager, the replay check and the connection pool answer is part
    of a request (Sessions.v, Replay.v).  The write access is that of
    WriteAccess.v. *)
From S2P Require Import Prelude WriteAccess.
Local Open Scope Z_scope.

Section dispatch.
Context {Db Upd Reply : Type}.

(** ** Handlers

    A handler is what is left of its coroutine: it returns or throws, with
    the updates queued by [publishLater] (the flag is [send_on_fail]), or
    runs a statement and goes on. *)
Inductive Handler :=
| Ret (r : result Reply) (updates : list (Upd * bool))
| Stmt (f : Db → Db * Handler).

(** A handler run alone. *)
Fixpoint exec (h : Handler) (d : Db) : result Reply * list (Upd * bool) * Db :=
  match h with
  | Ret r us => (r, us, d)
  | Stmt f => exec (f d).2 (f d).1
  end.

(** ** Replies *)
Inductive Outcome :=
| Replied (r : Reply)
| Failed (e : Error.t)         (* a [pb::Status] with an error *)
| Cancelled.                   (* [Status::CANCELLED] *)

#[local] Instance Outcome_eq_dec `{EqDecision Reply} : EqDecision Outcome.
Proof. solve_decision. Defined.

(** What is known of a request before its handler runs: [replies_status]
    says that the reply is a [pb::Status]. *)
Record Request := {
  replies_status : bool;
  restrictedToAdmin : bool;
  requireWriteAccess : bool;
  session : result bool;                (* [getSession]: is it an admin? *)
  is_replay : result bool;
  connection : result unit;
  handler : Handler
}.

(** The [catch] clauses. *)
Definition caught (q : Request) (e : exn) : Outcome :=
  if replies_status q then
    match e with server_err c => Failed c | _ => Failed Error.GENERIC_ERROR end
  else Cancelled.

(** The part before the write access: the reply, if it ends here. *)
Definition let_in (q : Request) : option Outcome :=
  match session q with
  | Throw e => Some (caught q e)
  | Ok is_admin =>
      if restrictedToAdmin q && negb is_admin then
        Some (if replies_status q then Failed Error.PERMISSION_DENIED else Cancelled)
      else if replies_status q then
        match is_replay q with
        | Throw e => Some (caught q e)
        | Ok true => Some (Failed Error.REPLAY_DETECTED)
        | Ok false => None
        end
      else None
  end.

(** The connection and the handler, once the request has its access. *)
Definition body (q : Request) : Handler :=
  match connection q with Ok _ => handler q | Throw e => Ret (Throw e) [] end.

(** [publishUpdates] sends them all, [publishUpdatesAfterFailure] those that
    are to be sent on failure. *)
Definition to_publish (r : result Reply) (us : list (Upd * bool)) : list Upd :=
  match r with Ok _ => us.*1 | Throw _ => (filter (λ u, u.2 = true) us).*1 end.

Definition outcome (q : Request) (r : result Reply) : Outcome :=
  match r with Ok a => Replied a | Throw e => caught q e end.

(** ** Streams

    [writeStreamHandler] and [readStreamHandler] run alone: the error that is
    sent at the end, if any, the updates published and the tables.  A stream
    to the client is not checked for a replay and takes no write access; when
    its handler throws something else than a [server_err], nothing is
    published. *)
Definition error_of (e : exn) : Error.t := match e with server_err c => c | _ => Error.GENERIC_ERROR end.

Definition writeStreamHandler (q : Request) (d : Db) : option Error.t * list Upd * Db :=
  match session q with
  | Throw e => (Some (error_of e), [], d)
  | Ok is_admin =>
      if restrictedToAdmin q && negb is_admin then (Some Error.PERMISSION_DENIED, [], d) else
      let '(r, us, d) := exec (body q) d in
      match r with
      | Ok _ => (None, to_publish r us, d)
      | Throw (server_err c) => (Some c, to_publish r us, d)
      | Throw _ => (Some Error.GENERIC_ERROR, [], d)
      end
  end.

Definition readStreamHandler (q : Request) (d : Db) : option Error.t * list Upd * Db :=
  match session q with
  | Throw e => (Some (error_of e), [], d)
  | Ok _ =>
      let '(r, us, d) := exec (body q) d in
      (match r with Ok _ => None | Throw e => Some (error_of e) end, to_publish r us, d)
  end.

(** ** The coroutines of a user *)
Inductive Phase :=
| started
| waiting                                    (* in [acquireWriteAccess] *)
| running (h : Handler)
| publishing (o : Outcome) (rest : list Upd)
| finished (o : Outcome).

Record Server := {
  db : Db;
  log : list Upd;                            (* what the user's log was given *)
  access : WriteAccess nat;
  phases : gmap nat Phase
}.

Definition set_phase (i : nat) (p : Phase) (s : Server) : Server :=
  {| db := db s; log := log s; access := access s; phases := <[i := p]> (phases s) |}.
Definition set_access (w : WriteAccess nat) (s : Server) : Server :=
  {| db := db s; log := log s; access := w; phases := phases s |}.

(** Request [i] does one step. *)
Definition step (i : nat) (q : Request) (s : Server) : Server :=
  match phases s !! i with
  | None | Some (finished _) => s
  | Some started =>
      match let_in q with
      | Some o => set_phase i (finished o) s
      | None =>
          if requireWriteAccess q then
            let w := acquireWriteAccess (access s) i in
            if decide (holder w = Some i) then set_phase i (running (body q)) (set_access w s)
            else set_phase i waiting (set_access w s)
          else set_phase i (running (body q)) s
      end
  | Some waiting =>
      if decide (handed (access s) = Some i) then
        match resume (access s) with
        | Some w => set_phase i (running (body q)) (set_access w s)
        | None => s
        end
      else s
  | Some (running (Stmt f)) =>
      {| db := (f (db s)).1; log := log s; access := access s;
         phases := <[i := running (f (db s)).2]> (phases s) |}
  | Some (running (Ret r us)) => set_phase i (publishing (outcome q r) (to_publish r us)) s
  | Some (publishing o (u :: rest)) =>
      {| db := db s; log := log s ++ [u]; access := access s;
         phases := <[i := publishing o rest]> (phases s) |}
  | Some (publishing o []) =>
      let s := set_phase i (finished o) s in
      if requireWriteAccess q then set_access (releaseWriteAccess (access s)) s else s
  end.

(** The requests of the user, and the order in which they take steps. *)
Context (requests : gmap nat Request).

Definition step_of (s : Server) (i : nat) : Server :=
  match requests !! i with Some q => step i q s | None => s end.

Definition run (schedule : list nat) (s : Server) : Server := foldl step_of s schedule.

Definition start (d : Db) : Server :=
  {| db := d; log := []; access := initial; phases := (λ _, started) <$> requests |}.

(** ** One request after the other *)

(** A request that has its access, run to its end. *)
Definition serve (q : Request) (dl : Db * list Upd) : Db * list Upd :=
  let '(r, us, d) := exec (body q) dl.1 in (d, dl.2 ++ to_publish r us).

Definition served (q : Request) (d : Db) : Outcome := outcome q (exec (body q) d).1.1.

Fixpoint serve_all (order : list nat) (dl : Db * list Upd) : Db * list Upd :=
  match order with
  | [] => dl
  | i :: order => serve_all order (match requests !! i with Some q => serve q dl | None => dl end)
  end.

Lemma serve_all_app o1 o2 dl : serve_all (o1 ++ o2) dl = serve_all o2 (serve_all o1 dl).
Proof. revert dl. induction o1 as [|i o1 IH]; intros dl; [done|apply IH]. Qed.

(** A handler that reads only. *)
Inductive reads_only : Handler → Prop :=
| ro_ret r : reads_only (Ret r [])
| ro_stmt f : (∀ d, (f d).1 = d ∧ reads_only (f d).2) → reads_only (Stmt f).

(** Every handler that writes asks for the write access. *)
Definition disciplined : Prop :=
  map_Forall (λ _ q, requireWriteAccess q = true ∨ reads_only (handler q)) requests.

Lemma reads_only_body q : reads_only (handler q) → reads_only (body q).
Proof. unfold body. destruct (connection q); [done|constructor]. Qed.

(** ** The invariant

    The requests that have had the write access are served one after the
    other, up to the one that has it. *)
Section invariant.
Context (d0 : Db).

Abbreviation upto l := (serve_all l (d0, [])).

Definition phase_ok (w : WriteAccess nat) (i : nat) (q : Request) (p : Phase) : Prop :=
  match p with
  | started => i ∉ requested w
  | waiting => requireWriteAccess q = true ∧ let_in q = None ∧
               i ∈ option_list (handed w) ++ write_access_waiters w
  | running h => if requireWriteAccess q then let_in q = None ∧ holder w = Some i
                 else i ∉ requested w ∧ reads_only h
  | publishing o rest => if requireWriteAccess q then let_in q = None ∧ holder w = Some i
                         else i ∉ requested w ∧ rest = []
  | finished o =>
      i ∉ requested w ∧ (requireWriteAccess q = true → let_in q ≠ None) ∨
      requireWriteAccess q = true ∧ let_in q = None ∧ holder w ≠ Some i ∧
        ∃ l1 l2, granted w = l1 ++ i :: l2 ∧ o = served q (upto l1).1
  end.

(** Where the request with the access is, [dl] being what it found. *)
Definition midway (q : Request) (dl : Db * list Upd) (s : Server) (p : option Phase) : Prop :=
  match p with
  | Some (running h) => log s = dl.2 ∧ exec h (db s) = exec (body q) dl.1
  | Some (publishing o rest) => serve q dl = (db s, log s ++ rest) ∧ o = served q dl.1
  | _ => False
  end.

Definition data_ok (s : Server) : Prop :=
  match holder (access s) with
  | None => (db s, log s) = upto (granted (access s))
  | Some i => ∃ done q, granted (access s) = done ++ [i] ∧ requests !! i = Some q ∧
                        midway q (upto done) s (phases s !! i)
  end.

Record serial (s : Server) : Prop := {
  se_access : wa_ok (access s);
  se_once : NoDup (requested (access s));
  se_known i : i ∈ requested (access s) → is_Some (requests !! i);
  se_phases i q : requests !! i = Some q → ∃ p, phases s !! i = Some p ∧ phase_ok (access s) i q p;
  se_data : data_ok s
}.

Lemma granted_requested (w : WriteAccess nat) i : wa_ok w → i ∈ granted w → i ∈ requested w.
Proof. intros [_ ->] Hi. apply elem_of_app. by left. Qed.

Lemma queued_requested (w : WriteAccess nat) i :
  wa_ok w → i ∈ option_list (handed w) ++ write_access_waiters w → i ∈ requested w.
Proof. intros [_ ->] Hi. apply elem_of_app. by right. Qed.

(** What one request does to the write access leaves the others. *)
Lemma phase_ok_acquire w i j q p :
  wa_ok w → i ≠ j → phase_ok w i q p → phase_ok (acquireWriteAccess w j) i q p.
Proof.
  intros [Ho _] Hij. unfold one_owner in Ho.
  assert (Hr : ∀ l : list nat, i ∉ l → i ∉ l ++ [j]) by (intros l; rewrite elem_of_app, list_elem_of_singleton; tauto).
  destruct w as [ip ws ha ho rq gr]. unfold acquireWriteAccess. cbn in *.
  destruct ip; cbn.
  - destruct p as [| |h|o rest|o]; cbn; auto.
    + rewrite !elem_of_app. tauto.
    + destruct (requireWriteAccess q); [done|]. intros [? ?]. auto.
    + destruct (requireWriteAccess q); [done|]. intros [? ?]. auto.
    + intros [[? ?]|?]; [left; auto|by right].
  - assert (ho = None ∧ ha = None) as [-> ->] by (destruct ho, ha; by auto).
    destruct p as [| |h|o rest|o]; cbn; auto.
    + destruct (requireWriteAccess q); [by intros []|]. intros [? ?]. auto.
    + destruct (requireWriteAccess q); [by intros []|]. intros [? ?]. auto.
    + intros [[? ?]|(? & ? & ? & l1 & l2 & -> & ?)]; [left; auto|right].
      split_and!; [done|done|congruence|]. exists l1, (l2 ++ [j]). by rewrite <- app_assoc.
Qed.

Lemma phase_ok_resume w w' i j q p :
  wa_ok w → i ≠ j → handed w = Some j → resume w = Some w' → phase_ok w i q p → phase_ok w' i q p.
Proof.
  intros [Ho _] Hij Hj. unfold one_owner in Ho. unfold resume. rewrite Hj. intros [= <-].
  destruct w as [ip ws ha ho rq gr]. cbn in *. subst ha. destruct ho; [done|].
  destruct p as [| |h|o rest|o]; cbn; auto.
  - intros (? & ? & Hin). split_and!; [done..|]. by apply elem_of_cons in Hin as [|].
  - destruct (requireWriteAccess q); [by intros []|done].
  - destruct (requireWriteAccess q); [by intros []|done].
  - intros [?|(? & ? & ? & l1 & l2 & -> & ?)]; [by left|right].
    split_and!; [done|done|congruence|]. exists l1, (l2 ++ [j]). by rewrite <- app_assoc.
Qed.

Lemma phase_ok_release w i j q p :
  wa_ok w → i ≠ j → holder w = Some j → phase_ok w i q p → phase_ok (releaseWriteAccess w) i q p.
Proof.
  intros [Ho _] Hij Hj. unfold one_owner in Ho. unfold releaseWriteAccess.
  destruct w as [ip ws ha ho rq gr]. cbn in *. subst ho. destruct ha; [done|].
  assert (Hw' : ∀ A B : Prop, (if requireWriteAccess q then A ∧ Some j = Some i else B) →
                              if requireWriteAccess q then A ∧ None = Some i else B).
  { intros A B. destruct (requireWriteAccess q); [by intros [_ [= ->]]|done]. }
  destruct ws as [|n ws]; cbn; destruct p as [| |h|o rest|o]; cbn; try apply Hw'; auto.
  - intros [?|(? & ? & ? & ?)]; [by left|right; by split_and!].
  - intros [?|(? & ? & ? & ?)]; [by left|right; by split_and!].
Qed.

(** Request [i] moves to phase [p] and the write access to [w]. *)
Lemma serial_move s i q p w d l :
  serial s → requests !! i = Some q → wa_ok w → NoDup (requested w) →
  requested w ⊆ requested (access s) ++ [i] → phase_ok w i q p →
  (∀ j r pj, j ≠ i → requests !! j = Some r → phase_ok (access s) j r pj → phase_ok w j r pj) →
  data_ok {| db := d; log := l; access := w; phases := <[i := p]> (phases s) |} →
  serial {| db := d; log := l; access := w; phases := <[i := p]> (phases s) |}.
Proof.
  intros Hs Hi Hw Hn Hsub Hp Hothers Hd. split; [done..| | |done].
  { intros j Hj. apply Hsub, elem_of_app in Hj as [Hj| ->%list_elem_of_singleton]; [|by eexists].
    by apply (se_known _ Hs). }
  intros j r Hj. cbn.
  destruct (decide (j = i)) as [->|Hne].
  - rewrite lookup_insert_eq. exists p. by simplify_eq.
  - rewrite lookup_insert_ne by done. destruct (se_phases _ Hs j r Hj) as (pj & Hpj & Hok). eauto.
Qed.

(** The access stays. *)
Lemma serial_stay s i q p d l :
  serial s → requests !! i = Some q → phase_ok (access s) i q p →
  data_ok {| db := d; log := l; access := access s; phases := <[i := p]> (phases s) |} →
  serial {| db := d; log := l; access := access s; phases := <[i := p]> (phases s) |}.
Proof. intros Hs Hi Hp Hd. eapply serial_move; eauto; destruct Hs; try done; set_solver. Qed.

(** A request without the access does not matter to the data. *)
Lemma data_ok_other s i p :
  holder (access s) ≠ Some i → data_ok s →
  data_ok {| db := db s; log := log s; access := access s; phases := <[i := p]> (phases s) |}.
Proof.
  intros Hh. unfold data_ok. cbn. destruct (holder (access s)) as [j|]; [|done].
  rewrite lookup_insert_ne by congruence. done.
Qed.

Lemma not_requested_not_holder s i :
  serial s → i ∉ requested (access s) → holder (access s) ≠ Some i.
Proof.
  intros [Hw _ _ _ Hd] Hi Hh. apply Hi, granted_requested; [done|].
  unfold data_ok in Hd. rewrite Hh in Hd. destruct Hd as (done & q & -> & _). apply elem_of_app. right. by left.
Qed.


Lemma acquire_cases (w : WriteAccess nat) i :
  acquireWriteAccess w i = mk_WriteAccess true (write_access_waiters w) (handed w) (Some i)
    (requested w ++ [i]) (granted w ++ [i]) ∧ write_access_in_progress w = false ∨
  acquireWriteAccess w i = mk_WriteAccess true (write_access_waiters w ++ [i]) (handed w) (holder w)
    (requested w ++ [i]) (granted w) ∧ write_access_in_progress w = true.
Proof. unfold acquireWriteAccess. destruct (write_access_in_progress w); auto. Qed.

(** A request that has just got the access stands at its beginning. *)
Lemma data_ok_begin s i q w :
  requests !! i = Some q → (db s, log s) = upto (granted (access s)) →
  holder w = Some i → granted w = granted (access s) ++ [i] →
  data_ok {| db := db s; log := log s; access := w; phases := <[i := running (body q)]> (phases s) |}.
Proof.
  intros Hi Hd Hh Hg. unfold data_ok. cbn. rewrite Hh. exists (granted (access s)), q.
  split; [done|]. split; [done|]. rewrite lookup_insert_eq. rewrite <- Hd. done.
Qed.

Lemma serial_acquire s i q :
  serial s → requests !! i = Some q → i ∉ requested (access s) → let_in q = None →
  requireWriteAccess q = true →
  let w := acquireWriteAccess (access s) i in
  serial (if decide (holder w = Some i) then set_phase i (running (body q)) (set_access w s)
          else set_phase i waiting (set_access w s)).
Proof.
  intros Hs Hi Hnr Ha Hm w. pose proof (se_access _ Hs) as Hw.
  assert (Hw' : wa_ok w) by (eapply wa_ok_step; [done|constructor]).
  assert (Hn : NoDup (requested w)).
  { assert (requested w = requested (access s) ++ [i]) as ->.
    { unfold w. destruct (acquire_cases (access s) i) as [[-> _]|[-> _]]; done. }
    apply NoDup_app. split; [apply (se_once _ Hs)|]. split; [|by apply NoDup_singleton].
    by intros j Hj ->%list_elem_of_singleton. }
  assert (Hoth : ∀ j r pj, j ≠ i → requests !! j = Some r → phase_ok (access s) j r pj → phase_ok w j r pj)
    by (intros j r pj Hne _ Hok; by apply (phase_ok_acquire (access s) j i)).
  assert (Hh : holder (access s) ≠ Some i) by by apply not_requested_not_holder.
  destruct (decide _) as [E|E]; 
    (apply (serial_move s i q _ w (db s) (log s)); [exact Hs|exact Hi|exact Hw'|exact Hn| | |exact Hoth|]).
  - unfold w. by destruct (acquire_cases (access s) i) as [[-> _]|[-> _]].
  - cbn. by rewrite Hm.
  - assert (holder (access s) = None ∧ granted w = granted (access s) ++ [i]) as [Hno Hg].
    { unfold w in *. destruct (acquire_cases (access s) i) as [[He Hip]|[He _]]; rewrite He in *; cbn in *; [|done].
      split; [|done]. destruct Hw as [Ho _]. unfold one_owner in Ho. rewrite Hip in Ho.
      by destruct (holder (access s)), (handed (access s)). }
    apply data_ok_begin; [done| |done|done].
    pose proof (se_data _ Hs) as Hd. unfold data_ok in Hd. by rewrite Hno in Hd.
  - unfold w. by destruct (acquire_cases (access s) i) as [[-> _]|[-> _]].
  - split_and!; [done..|]. unfold w in *. destruct (acquire_cases (access s) i) as [[He _]|[He _]]; rewrite He in *; [done|].
    cbn. rewrite !elem_of_app. right. right. by left.
  - pose proof (data_ok_other s i waiting Hh (se_data _ Hs)) as Hd. unfold data_ok in *. cbn in *.
    unfold w in *. destruct (acquire_cases (access s) i) as [[He _]|[He _]]; rewrite He in *; [done|exact Hd].
Qed.

Lemma serial_resume s i q w :
  serial s → requests !! i = Some q → requireWriteAccess q = true → let_in q = None →
  handed (access s) = Some i → resume (access s) = Some w →
  serial (set_phase i (running (body q)) (set_access w s)).
Proof.
  intros Hs Hi Hm Ha Hh Hr. pose proof (se_access _ Hs) as Hw.
  assert (Hw' : wa_ok w) by (eapply wa_ok_step; [done|by constructor]).
  assert (Hno : holder (access s) = None).
  { destruct Hw as [Ho _]. unfold one_owner in Ho. rewrite Hh in Ho. by destruct (holder (access s)). }
  assert (holder w = Some i ∧ granted w = granted (access s) ++ [i] ∧ requested w = requested (access s)) as (H1 & H2 & H3).
  { unfold resume in Hr. rewrite Hh in Hr. by injection Hr as <-. }
  apply (serial_move s i q _ w (db s) (log s)); [exact Hs|exact Hi|exact Hw'| | | | |].
  - rewrite H3. apply (se_once _ Hs).
  - rewrite H3. set_solver.
  - cbn. by rewrite Hm.
  - intros j r pj Hne _ Hok. by apply (phase_ok_resume (access s) w j i).
  - apply data_ok_begin; [done| |done|done].
    pose proof (se_data _ Hs) as Hd. unfold data_ok in Hd. by rewrite Hno in Hd.
Qed.

(** What holds of the holder in the middle of its work. *)
Lemma midway_holder s i q p :
  serial s → requests !! i = Some q → holder (access s) = Some i → phases s !! i = Some p →
  ∃ done, granted (access s) = done ++ [i] ∧ midway q (upto done) s (Some p).
Proof.
  intros Hs Hi Hh Hp. pose proof (se_data _ Hs) as Hd. unfold data_ok in Hd. rewrite Hh in Hd.
  destruct Hd as (done & q' & Hg & Hi' & Hm). simplify_eq. rewrite Hp in Hm. eauto.
Qed.

Lemma data_ok_midway s i q done p d l :
  requests !! i = Some q → holder (access s) = Some i → granted (access s) = done ++ [i] →
  midway q (upto done) {| db := d; log := l; access := access s; phases := phases s |} (Some p) →
  data_ok {| db := d; log := l; access := access s; phases := <[i := p]> (phases s) |}.
Proof.
  intros Hi Hh Hg Hm. unfold data_ok. cbn. rewrite Hh. exists done, q. split; [done|]. split; [done|].
  by rewrite lookup_insert_eq.
Qed.

Lemma serial_finish s i q o :
  serial s → requests !! i = Some q → phases s !! i = Some (publishing o []) →
  serial (let s' := set_phase i (finished o) s in
          if requireWriteAccess q then set_access (releaseWriteAccess (access s')) s' else s').
Proof.
  intros Hs Hi Hp. pose proof (se_access _ Hs) as Hw. cbn.
  destruct (se_phases _ Hs i q Hi) as (p & Hp' & Hok). simplify_eq. cbn in Hok.
  destruct (requireWriteAccess q) eqn:Hm.
  - destruct Hok as [Ha Hh]. destruct (midway_holder _ _ _ _ Hs Hi Hh Hp) as (done & Hg & Hsv & Ho).
    assert (Hgr : granted (releaseWriteAccess (access s)) = granted (access s) ∧
                  holder (releaseWriteAccess (access s)) = None ∧
                  requested (releaseWriteAccess (access s)) = requested (access s))
      by (unfold releaseWriteAccess; by destruct (write_access_waiters _)).
    destruct Hgr as (Hgr & Hhr & Hrq).
    apply (serial_move s i q _ (releaseWriteAccess (access s)) (db s) (log s)); [exact Hs|exact Hi| | | | | |].
    + eapply wa_ok_step; [done|by econstructor].
    + rewrite Hrq. apply (se_once _ Hs).
    + rewrite Hrq. set_solver.
    + cbn. right. split_and!; [done|done|congruence|]. exists done, []. by rewrite Hgr.
    + intros j r pj Hne _ Hok. by apply (phase_ok_release (access s) j i).
    + unfold data_ok. cbn. rewrite Hhr, Hgr, Hg, serve_all_app. cbn. rewrite Hi, Hsv. by rewrite app_nil_r.
  - destruct Hok as [Hnr _]. apply (serial_stay s i q); [done|done| |].
    + cbn. left. by rewrite Hm.
    + apply data_ok_other; [by apply not_requested_not_holder|apply Hs].
Qed.


(** An element stands in one place of a list without repetitions. *)
Lemma NoDup_split_unique (i : nat) l l1 l2 k1 k2 :
  NoDup l → l = k1 ++ i :: k2 → l = l1 ++ i :: l2 → k1 = l1.
Proof.
  intros Hn -> He. revert l1 He. induction k1 as [|x k1 IH]; intros [|y l1] He; cbn in *; simplify_eq; [done|..].
  - exfalso. apply NoDup_cons in Hn as [Hn _]. apply Hn. apply elem_of_app. right. by left.
  - exfalso. apply NoDup_cons in Hn as [Hn _]. apply Hn. apply elem_of_app. right. by left.
  - f_equal. apply NoDup_cons in Hn as [_ Hn]. by apply IH.
Qed.

Lemma serial_stmt s i q f :
  serial s → requests !! i = Some q → phases s !! i = Some (running (Stmt f)) →
  serial {| db := (f (db s)).1; log := log s; access := access s;
            phases := <[i := running (f (db s)).2]> (phases s) |}.
Proof.
  intros Hs Hi Hp. destruct (se_phases _ Hs i q Hi) as (p & Hp' & Hok). simplify_eq. cbn in Hok.
  destruct (requireWriteAccess q) eqn:Hm.
  - destruct Hok as [Ha Hh]. destruct (midway_holder _ _ _ _ Hs Hi Hh Hp) as (done & Hg & Hl & He).
    apply (serial_stay s i q); [done|done|by cbn; rewrite Hm|]. by apply (data_ok_midway s i q done).
  - destruct Hok as [Hnr Hro]. inversion_clear Hro as [|f' Hf]. destruct (Hf (db s)) as [Hd Hr]. rewrite Hd.
    apply (serial_stay s i q); [done|done|by cbn; rewrite Hm|].
    apply data_ok_other; [by apply not_requested_not_holder|apply Hs].
Qed.

Lemma serial_ret s i q r us :
  serial s → requests !! i = Some q → phases s !! i = Some (running (Ret r us)) →
  serial (set_phase i (publishing (outcome q r) (to_publish r us)) s).
Proof.
  intros Hs Hi Hp. destruct (se_phases _ Hs i q Hi) as (p & Hp' & Hok). simplify_eq. cbn in Hok.
  destruct (requireWriteAccess q) eqn:Hm.
  - destruct Hok as [Ha Hh]. destruct (midway_holder _ _ _ _ Hs Hi Hh Hp) as (done & Hg & Hl & He).
    apply (serial_stay s i q); [done|done|by cbn; rewrite Hm|]. apply (data_ok_midway s i q done); [done..|].
    cbn in He |- *. unfold serve, served. rewrite <- He. cbn. by rewrite Hl.
  - destruct Hok as [Hnr Hro]. inversion_clear Hro.
    apply (serial_stay s i q); [done|done|cbn; rewrite Hm|].
    + split; [done|]. by destruct r.
    + apply data_ok_other; [by apply not_requested_not_holder|apply Hs].
Qed.

Lemma serial_publish s i q o u rest :
  serial s → requests !! i = Some q → phases s !! i = Some (publishing o (u :: rest)) →
  serial {| db := db s; log := log s ++ [u]; access := access s;
            phases := <[i := publishing o rest]> (phases s) |}.
Proof.
  intros Hs Hi Hp. destruct (se_phases _ Hs i q Hi) as (p & Hp' & Hok). simplify_eq. cbn in Hok.
  destruct (requireWriteAccess q) eqn:Hm; [|by destruct Hok].
  destruct Hok as [Ha Hh]. destruct (midway_holder _ _ _ _ Hs Hi Hh Hp) as (done & Hg & Hsv & Ho).
  apply (serial_stay s i q); [done|done|by cbn; rewrite Hm|]. apply (data_ok_midway s i q done); [done..|].
  cbn. by rewrite <- app_assoc.
Qed.

Lemma step_serial s i q : disciplined → requests !! i = Some q → serial s → serial (step i q s).
Proof.
  intros Hdis Hi Hs. unfold step. destruct (se_phases _ Hs i q Hi) as (p & Hp & Hok). rewrite Hp.
  destruct p as [| |[r us|f]|o [|u rest]|o]; cbn in Hok.
  - destruct (let_in q) as [o|] eqn:Ha.
    + apply (serial_stay s i q); [done|done|cbn; rewrite Ha; auto|].
      apply data_ok_other; [by apply not_requested_not_holder|apply Hs].
    + destruct (requireWriteAccess q) eqn:Hm; [by apply serial_acquire|].
      destruct (Hdis i q Hi) as [|Hro]; [congruence|].
      apply (serial_stay s i q); [done|done|cbn; rewrite Hm; auto using reads_only_body|].
      apply data_ok_other; [by apply not_requested_not_holder|apply Hs].
  - destruct Hok as (Hm & Ha & _). destruct (decide _) as [Hh|]; [|done].
    destruct (resume (access s)) as [w|] eqn:Hr; [|done]. by apply (serial_resume s i q w).
  - by apply (serial_ret s i q r us).
  - by apply (serial_stmt s i q f).
  - by apply (serial_finish s i q o).
  - by apply (serial_publish s i q o u rest).
  - done.
Qed.

Lemma step_of_serial s i : disciplined → serial s → serial (step_of s i).
Proof.
  intros Hd Hs. unfold step_of. destruct (requests !! i) as [q|] eqn:Hi; [|done]. by apply step_serial.
Qed.

Lemma start_serial : serial (start d0).
Proof.
  split; cbn; [done|constructor|by intros ? ?%elem_of_nil| |done].
  intros i q Hi. exists started. cbn. rewrite lookup_fmap, Hi. split; [done|]. apply not_elem_of_nil.
Qed.

Lemma run_serial schedule s : disciplined → serial s → serial (run schedule s).
Proof. intros Hd. apply (foldl_inv serial). intros t i. by apply step_of_serial. Qed.



(** *** Every request is answered *)
Definition is_finished (p : Phase) : bool := match p with finished _ => true | _ => false end.

Lemma Handler_induction (P : Handler → Prop) :
  (∀ r us, P (Ret r us)) → (∀ f, (∀ d, P (f d).2) → P (Stmt f)) → ∀ h, P h.
Proof. intros H1 H2. fix IH 1. intros [r us|f]; [apply H1|apply H2; intros d; apply IH]. Qed.

(** [i], left alone, ends; nothing happens to the others' phases. *)
Definition can_end (i : nat) (s : Server) : Prop :=
  ∃ n o, phases (run (replicate n i) s) !! i = Some (finished o) ∧
         ∀ j, j ≠ i → phases (run (replicate n i) s) !! j = phases s !! j.

Lemma can_end_step i q s :
  requests !! i = Some q → can_end i (step i q s) →
  (∀ j, j ≠ i → phases (step i q s) !! j = phases s !! j) → can_end i s.
Proof.
  intros Hi (n & o & Hn & Ho) Hj. exists (S n), o. cbn. unfold step_of. rewrite Hi. split; [done|].
  intros j Hne. unfold run in Ho. rewrite Ho by done. by apply Hj.
Qed.

(** A step changes the phase of its request only. *)
Lemma step_others i q s j : j ≠ i → phases (step i q s) !! j = phases s !! j.
Proof.
  intros Hne. unfold step, set_phase, set_access. destruct (phases s !! i) as [p|]; [|done].
  destruct p as [| |[r us|f]|o [|u rest]|o]; cbn.
  - destruct (let_in q); [by apply lookup_insert_ne|].
    destruct (requireWriteAccess q); [case_decide|]; by apply lookup_insert_ne.
  - case_decide; [|done]. destruct (resume _); [by apply lookup_insert_ne|done].
  - by apply lookup_insert_ne.
  - by apply lookup_insert_ne.
  - destruct (requireWriteAccess q); by apply lookup_insert_ne.
  - by apply lookup_insert_ne.
  - done.
Qed.

Lemma publishing_ends i q o rest s :
  requests !! i = Some q → phases s !! i = Some (publishing o rest) → can_end i s.
Proof.
  intros Hi. revert s. induction rest as [|u rest IH]; intros s Hp;
    (eapply can_end_step; [done| |by intros; apply step_others]).
  - exists 0%nat, o. split; [|done]. cbn. unfold step. rewrite Hp. destruct (requireWriteAccess q); cbn; by rewrite lookup_insert_eq.
  - apply IH. unfold step. rewrite Hp. cbn. by rewrite lookup_insert_eq.
Qed.

Lemma running_ends i q h s :
  requests !! i = Some q → phases s !! i = Some (running h) → can_end i s.
Proof.
  intros Hi. revert s. induction h as [r us|f IH] using Handler_induction; intros s Hp;
    (eapply can_end_step; [done| |by intros; apply step_others]).
  - eapply publishing_ends; [done|]. unfold step. rewrite Hp. cbn. by rewrite lookup_insert_eq.
  - apply (IH (db s)). unfold step. rewrite Hp. cbn. by rewrite lookup_insert_eq.
Qed.

(** Who can go on. *)
Lemma one_can_end s i p :
  disciplined → serial s → phases s !! i = Some p → is_Some (requests !! i) → is_finished p = false →
  ∃ j pj, phases s !! j = Some pj ∧ is_finished pj = false ∧ can_end j s.
Proof.
  intros Hdis Hs Hp [q Hi] Hf. pose proof (se_access _ Hs) as [Ho Hq]. pose proof (se_once _ Hs) as Hn.
  unfold one_owner in Ho. destruct (holder (access s)) as [j|] eqn:Hh.
  - pose proof (se_data _ Hs) as Hd. unfold data_ok in Hd. rewrite Hh in Hd.
    destruct Hd as (done & r & _ & Hj & Hm). destruct (phases s !! j) as [pj|] eqn:Hpj; [|done].
    exists j, pj. split; [done|]. destruct pj as [| |h|o rest|o]; try done; (split; [done|]).
    + by eapply running_ends.
    + by eapply publishing_ends.
  - destruct (handed (access s)) as [j|] eqn:Hha.
    + assert (Hjq : j ∈ requested (access s)) by (rewrite Hq; cbn; apply elem_of_app; right; by left).
      destruct (se_known _ Hs j Hjq) as [r Hj]. destruct (se_phases _ Hs j r Hj) as (pj & Hpj & Hok).
      assert (pj = waiting) as ->.
      { destruct pj as [| |h|o rest|o]; cbn in Hok; rewrite ?Hh in Hok; [done|done|..].
        - destruct (requireWriteAccess r); by destruct Hok.
        - destruct (requireWriteAccess r); by destruct Hok.
        - destruct Hok as [[? _]|(_ & _ & _ & l1 & l2 & Hg & _)]; [done|]. exfalso.
          rewrite Hq, Hg in Hn. cbn in Hn. apply NoDup_app in Hn as (_ & Hn & _).
          apply (Hn j); [apply elem_of_app; right; by left|by left]. }
      exists j, waiting. split; [done|]. split; [done|]. eapply can_end_step; [done| |by intros; apply step_others].
      eapply (running_ends _ _ (body r)); [done|]. unfold step. rewrite Hpj, Hha, decide_True by done.
      unfold resume. rewrite Hha. cbn. by rewrite lookup_insert_eq.
    + destruct Ho as [Hip Hws]. exists i, p. split; [done|]. split; [done|].
      destruct (se_phases _ Hs i q Hi) as (p' & Hp' & Hok). simplify_eq.
      destruct p as [| |h|o rest|o]; [|..|done].
      * eapply can_end_step; [done| |by intros; apply step_others]. unfold step. rewrite Hp.
        destruct (let_in q) as [o|] eqn:Ha.
        { exists 0%nat, o. split; [|done]. cbn. by rewrite lookup_insert_eq. }
        eapply (running_ends _ _ (body q)); [done|].
        destruct (requireWriteAccess q); [|cbn; by rewrite lookup_insert_eq].
        unfold acquireWriteAccess. rewrite Hip. cbn. rewrite decide_True by done. cbn. by rewrite lookup_insert_eq.
      * cbn in Hok. rewrite Hha, Hws in Hok. destruct Hok as (_ & _ & ?%elem_of_nil). done.
      * by eapply running_ends.
      * by eapply publishing_ends.
Qed.


Definition unfinished (s : Server) : gmap nat Phase := filter (λ ip, is_finished ip.2 = false) (phases s).

Lemma unfinished_end i s s' o p :
  phases s !! i = Some p → is_finished p = false → phases s' !! i = Some (finished o) →
  (∀ j, j ≠ i → phases s' !! j = phases s !! j) → (size (unfinished s') < size (unfinished s))%nat.
Proof.
  intros Hp Hf Hi Hj. assert (unfinished s' = delete i (unfinished s)) as ->.
  { apply map_eq. intros j. unfold unfinished. destruct (decide (j = i)) as [->|Hne].
    - rewrite lookup_delete_eq. apply map_lookup_filter_None. right. intros p' Hp' ?. by simplify_eq.
    - rewrite lookup_delete_ne by done. rewrite !map_lookup_filter, Hj by done. done. }
  rewrite map_size_delete. assert (unfinished s !! i = Some p) as -> by (by apply map_lookup_filter_Some).
  assert (size (unfinished s) ≠ 0)%nat; [|lia]. intros H0%map_size_empty_inv.
  assert (unfinished s !! i = Some p) as H1 by (by apply map_lookup_filter_Some). by rewrite H0, lookup_empty in H1.
Qed.

Lemma step_dom i s : dom (phases (step_of s i)) = dom (phases s).
Proof.
  unfold step_of. destruct (requests !! i) as [q|]; [|done]. unfold step.
  destruct (phases s !! i) as [p|] eqn:Hp; [|done].
  assert (Hd : ∀ p', dom (<[i := p']> (phases s)) = dom (phases s)).
  { intros p'. rewrite dom_insert_L. assert (i ∈ dom (phases s)) by (by apply elem_of_dom_2 in Hp). set_solver. }
  destruct p as [| |[r us|f]|o [|u rest]|o]; cbn; try apply Hd; try done.
  - destruct (let_in q); [apply Hd|]. destruct (requireWriteAccess q); [case_decide|]; apply Hd.
  - case_decide; [|done]. destruct (resume _); [apply Hd|done].
  - destruct (requireWriteAccess q); apply Hd.
Qed.

Lemma run_dom l s : dom (phases (run l s)) = dom (phases s).
Proof. revert s. induction l as [|i l IH]; intros s; [done|]. cbn. unfold run in IH. by rewrite IH, step_dom. Qed.

(** No request of a user waits for ever: from every state their
    coroutines can reach, in whatever order they have run, there is a way on
    that answers all of them; nobody holds the write access or waits for it
    in vain. *)
Theorem requests_all_answered (schedule : list nat) :
  disciplined →
  ∃ more, map_Forall (λ _ p, ∃ o, p = finished o) (phases (run (schedule ++ more) (start d0))).
Proof.
  intros Hdis. unfold run. setoid_rewrite foldl_app. fold (run schedule (start d0)).
  assert (Hs : serial (run schedule (start d0))) by (apply run_serial; [done|apply start_serial]).
  assert (Hdom : dom (phases (run schedule (start d0))) = dom requests)
    by (rewrite run_dom; cbn; apply dom_fmap_L).
  revert Hs Hdom. generalize (run schedule (start d0)). intros s.
  remember (size (unfinished s)) as n eqn:Hn. revert s Hn. induction n as [n IH] using lt_wf_ind. intros s Hn Hs Hdom.
  destruct (decide (unfinished s = ∅)) as [He|He].
  - exists []. cbn. intros i p Hp. destruct p as [| | | |o]; [..|by exists o]; exfalso;
      (assert (unfinished s !! i = None) as H0 by (by rewrite He, lookup_empty));
      unfold unfinished in H0; rewrite map_lookup_filter_None in H0; destruct H0 as [H0|H0]; try congruence;
      exact (H0 _ Hp eq_refl).
  - apply map_choose in He as (i & p & [Hp Hf]%map_lookup_filter_Some).
    assert (Hi : is_Some (requests !! i)) by (apply elem_of_dom; rewrite <- Hdom; by apply elem_of_dom_2 in Hp).
    destruct (one_can_end s i p Hdis Hs Hp Hi Hf) as (j & pj & Hpj & Hfj & m & o & Hm & Ho).
    set (s1 := run (replicate m j) s) in *.
    destruct (IH (size (unfinished s1))) with (s := s1) as [more Hmore]; [|done| | |].
    + rewrite Hn. by apply (unfinished_end j s s1 o pj).
    + by apply run_serial.
    + unfold s1. by rewrite run_dom.
    + exists (replicate m j ++ more). by rewrite foldl_app.
Qed.

End invariant.

End dispatch.

Arguments Handler : clear implicits.
Arguments Request : clear implicits.
Arguments Server : clear implicits.

(** ** Concrete runs *)
Module Example_dispatch.

(** A request that adds [n] to a number in two statements and publishes what
    it read; one that fails after its statement. *)
Definition add (n : Z) : Handler Z Z unit :=
  Stmt (λ d, (d + n, Stmt (λ d', (d', Ret (Ok tt) [(d', false)])))).
Definition fails : Handler Z Z unit :=
  Stmt (λ d, (d, Ret (Throw (server_err Error.NOT_FOUND)) [(0, false)])).

Definition request (write : bool) (h : Handler Z Z unit) : Request Z Z unit :=
  {| replies_status := true; restrictedToAdmin := false; requireWriteAccess := write; session := Ok false;
     is_replay := Ok false; connection := Ok tt; handler := h |}.

Definition requests : gmap nat (Request Z Z unit) :=
  {[1%nat := request true (add 1); 2%nat := request true (add 10); 3%nat := request true fails]}.

(** Request 2 asks first, 1 and 3 wait for it. *)
Definition schedule : list nat := [2; 1; 2; 3; 1; 2; 1; 2; 2; 2; 1; 3; 1; 1; 1; 1; 1; 3; 3; 3; 3]%nat.

Example interleaved :
  let s := run requests schedule (start requests 5) in
  db s = 16 ∧ log s = [15; 16] ∧
  phases s !! 3%nat = Some (finished (Failed Error.NOT_FOUND)).
Proof. vm_compute. auto. Qed.

Lemma requests_disciplined : disciplined requests.
Proof.
  apply map_Forall_insert_2; [by left|]. apply map_Forall_insert_2; [by left|].
  apply map_Forall_singleton. by left.
Qed.

Lemma all_answered :
  map_Forall (λ _ p, ∃ o, p = finished o) (phases (run requests schedule (start requests 5))).
Proof.
  assert (phases (run requests schedule (start requests 5)) =
    {[1%nat := finished (Replied tt); 2%nat := finished (Replied tt);
      3%nat := finished (Failed Error.NOT_FOUND)]}) as -> by (vm_compute; reflexivity).
  apply map_Forall_insert_2; [by eexists|]. apply map_Forall_insert_2; [by eexists|].
  apply map_Forall_singleton. by eexists.
Qed.


Lemma requests_all_answered_witness :
  ∃ more, map_Forall (λ _ p, ∃ o, p = finished o) (phases (run requests ([2; 1] ++ more)%nat (start requests 5))).
Proof. apply (requests_all_answered requests 5 [2; 1]%nat requests_disciplined). Defined.

(** [SetColorOnDay] and [SetDay] of GreenDays.cpp run under [unaryHandler]:
    the colour of a day is stored, read again and published without the
    write access.  The update of the older colour can be published last. *)
Definition SetColorOnDay (color : Z) : Request Z Z unit :=
  request false (Stmt (λ _, (color, Stmt (λ d, (d, Ret (Ok tt) [(d, false)]))))).

Definition writers : gmap nat (Request Z Z unit) := {[1%nat := SetColorOnDay 7; 2%nat := SetColorOnDay 8]}.

(** The day has the second colour, the last update the first. *)
Example colour_overtaken :
  let s := run writers [1; 1; 1; 1; 2; 2; 2; 2; 2; 2; 1; 1]%nat (start writers 0) in
  phases s = {[1%nat := finished (Replied tt); 2%nat := finished (Replied tt)]} ∧ db s = 8 ∧ log s = [8; 7].
Proof. vm_compute. auto. Qed.

End Example_dispatch.
