(* ===== verification/Accounts.v ===== *)
(** * Tenants, users, devices and one-time passwords

    The account handlers of backend/lib/grpc/Tenants.cpp ([CreateTenant],
    [SetTenantState], [CreateDevice], [GetOtpForNewDevice], [GetOtpForUser],
    [DeleteAccount], [SetUserGlobalSettings]) and of
    backend/lib/grpc/GrpcServer.cpp ([UpdateDevice], [DeleteDevice],
    [GetLastReadNotification], [SetLastReadNotification]) over the tables
    they share.  Handlers run in [Auto]; [transaction] undoes the tables when
    its body throws.  The hash, the signing of certificates, the check of a
    uuid's syntax and the new uuids are given. *)
From S2P Require Import Prelude Text.
Local Open Scope Z_scope.
Local Open Scope nextapp_scope.

(** ** Data *)

(** [pb::Tenant::State], [pb::Tenant::Kind] and [pb::User::Kind] *)
Inductive TState := PENDING_ACTIVATION | ACTIVE | SUSPENDED | READ_ONLY.
Inductive TKind := T_SUPER | T_REGULAR | T_GUEST.
Inductive UKind := U_SUPER | U_REGULAR.

#[global] Instance TState_eq_dec : EqDecision TState.
Proof. solve_decision. Defined.
#[global] Instance TKind_eq_dec : EqDecision TKind.
Proof. solve_decision. Defined.
#[global] Instance UKind_eq_dec : EqDecision UKind.
Proof. solve_decision. Defined.

(** [State_Name], and its inverse [State_Parse] on the names of the
    protocol. *)
Definition State_Name (s : TState) : string :=
  match s with
  | PENDING_ACTIVATION => "PENDING_ACTIVATION" | ACTIVE => "ACTIVE"
  | SUSPENDED => "SUSPENDED" | READ_ONLY => "READ_ONLY"
  end.

Definition State_Parse (name : string) : option TState :=
  List.find (λ s, bool_decide (State_Name s = name)) [PENDING_ACTIVATION; ACTIVE; SUSPENDED; READ_ONLY].

Definition shift_case (lo hi d : Z) (s : string) : string :=
  String.string_of_list_ascii ((λ a, let c := char_code a in
    if (lo <=? c) && (c <=? hi) then ascii_of_N (Z.to_N (c + d)) else a) <$> String.list_ascii_of_string s).
Definition toLower : string → string := shift_case 65 90 32.
Definition toUpper : string → string := shift_case 97 122 (-32).

(** The rows; a state is stored by its name in lower case. *)
Record TenantRow := { t_name : string; t_kind : TKind; t_state : string; t_plan : option string }.
Record UserRow := { u_tenant : string; u_name : string; u_email : string; u_kind : UKind; u_active : bool }.
Record DeviceRow := { d_user : string; d_name : string; d_enabled : bool; d_cert_hash : string }.
Record OtpRow := { o_user : string; o_hash : string; o_email : string; o_new_device : bool; o_created : Z }.

(** What a handler publishes or asks for outside the tables. *)
Inductive Effect :=
| deviceUpdated (id : string) (d : DeviceRow)
| deviceDeleted (id : string) (d : DeviceRow)
| settingsAdded (settings : string) (version : Z)
| settingsUpdated (settings : string) (version : Z)
| lastRead (id : Z)
| accountDeleted
| tenantStateChanged (id : string) (s : TState)
| notifyUser (user : string)
| notifyTenant (tenant : string)
| registrationQueued (tenant : string).

Record Db := {
  tenants : gmap string TenantRow;
  users : gmap string UserRow;
  devices : gmap string DeviceRow;
  otps : gmap string OtpRow;
  settings : gmap string (string * Z);           (* user_settings: the blob and its version *)
  last_read : gmap string (gset Z);              (* notification_last_read; its key is the user and the id *)
  cached_read : gmap string Z;                   (* UserContext::last_read_notification_id_ *)
  invalid : gset string;                         (* users whose context was invalidated *)
  counter : nat;                                 (* how many uuids were made *)
  effects : list Effect
}.

Definition set_tables (t : gmap string TenantRow) (u : gmap string UserRow) (d : gmap string DeviceRow)
    (o : gmap string OtpRow) (s : Db) : Db :=
  {| tenants := t; users := u; devices := d; otps := o; settings := settings s; last_read := last_read s;
     cached_read := cached_read s; invalid := invalid s; counter := counter s; effects := effects s |}.
Definition set_tenants f (s : Db) : Db := set_tables (f (tenants s)) (users s) (devices s) (otps s) s.
Definition set_users f (s : Db) : Db := set_tables (tenants s) (f (users s)) (devices s) (otps s) s.
Definition set_devices f (s : Db) : Db := set_tables (tenants s) (users s) (f (devices s)) (otps s) s.
Definition set_otps f (s : Db) : Db := set_tables (tenants s) (users s) (devices s) (f (otps s)) s.
Definition set_rest g l c i n e (s : Db) : Db :=
  {| tenants := tenants s; users := users s; devices := devices s; otps := otps s; settings := g (settings s);
     last_read := l (last_read s); cached_read := c (cached_read s); invalid := i (invalid s);
     counter := n (counter s); effects := e (effects s) |}.
Definition emit (e : list Effect) : Db → Db := set_rest id id id id id (λ l, l ++ e).

(** What the program is given: SHA-256, the signer of the server's authority
    (the certificate's hash), the syntax of uuids, the new uuids, and which
    row the database returns first where no order is asked for. *)
Class Env := {
  sha256 : string → string;
  signCert : string → string → result string;
  is_uuid : string → bool;
  newUuid : nat → string;
  first_row : gset Z → Z
}.

Section accounts.
Context `{Env}.

Definition query {A} (f : Db → A) : Auto Db A := stmt (gets f).
Definition update (f : Db → Db) : Auto Db unit := stmt (modify f).
Definition throw {A} (e : exn) : Auto Db A := stmt (lift (Throw e)).
Definition err {A} (e : Error.t) : Auto Db A := throw (server_err e).

Definition tables_back (s s' : Db) : Db :=
  set_tables (tenants s) (users s) (devices s) (otps s)
    (set_rest (λ _, settings s) (λ _, last_read s) id id id id s').

Definition transaction {A} (m : Auto Db A) : Auto Db A := λ s,
  match m s with
  | (Ok a, s') => (Ok a, s')
  | (Throw e, s') => (Throw e, tables_back s s')
  end.

Definition newUuidStr : Auto Db string :=
  let! n := query counter in
  let! _ := update (set_rest id id id id S id) in
  mret (newUuid n).

(** A given uuid, or a new one. *)
Definition uuid_or_new (u : string) : Auto Db string :=
  if decide (u = EmptyString) then newUuidStr else mret u.

Definition validatedUuid (u : string) : Auto Db unit := if is_uuid u then mret tt else throw runtime_error.

(** *** [isValidEmail] of common/util.cpp *)
Definition letter_or_digit (a : ascii) : bool :=
  let c := char_code a in
  (48 <=? c) && (c <=? 57) || (65 <=? c) && (c <=? 90) || (97 <=? c) && (c <=? 122).
Definition local_char (a : ascii) : bool :=
  letter_or_digit a || one_of (lit ".!#$%&'*+/=?^_`{|}~-") a.
Definition label_char (a : ascii) : bool := letter_or_digit a || Ascii.eqb a "-".

Fixpoint split_on (c : ascii) (s : chars) : list chars :=
  match s with
  | [] => [[]]
  | a :: s =>
      if Ascii.eqb a c then [] :: split_on c s
      else match split_on c s with l :: ls => (a :: l) :: ls | [] => [[a]] end
  end.

Definition isValidEmail (s : string) : bool :=
  match split_on "@" (lit s) with
  | [name; domain] =>
      let labels := split_on "." domain in
      negb (bool_decide (name = [])) && forallb local_char name
      && (1 <? Z.of_nat (length labels))
      && forallb (λ l, negb (bool_decide (l = [])) && forallb label_char l) labels
  | _ => false
  end.

(** ** Deleting *)

(** The rows that go with their user ([ON DELETE CASCADE]). *)
Definition drop_users (gone : gset string) (s : Db) : Db :=
  set_tables (tenants s) (filter (λ iu, iu.1 ∉ gone) (users s)) (filter (λ id, d_user id.2 ∉ gone) (devices s))
    (filter (λ io, o_user io.2 ∉ gone) (otps s))
    (set_rest (filter (λ iv, iv.1 ∉ gone)) (filter (λ il, il.1 ∉ gone)) id id id id s).

Definition users_of (tenant : string) (s : Db) : gset string :=
  dom (filter (λ iu, u_tenant iu.2 = tenant) (users s)).

Definition delete_tenant (id : string) (s : Db) : Db :=
  set_tenants (base.delete id) (drop_users (users_of id s) s).

(** ** [CreateTenant] *)
Record NewUser := { n_uuid : string; n_name : string; n_email : string; n_kind : option UKind; n_active : option bool }.
Record CreateTenantReq := {
  has_tenant : bool;
  c_uuid : string;
  c_name : string;
  c_kind : option TKind;
  c_state : TState;
  c_users : list NewUser
}.

(** The checks before the handler; a later user's error replaces an earlier
    one. *)
Definition check_users (us : list NewUser) : option Error.t :=
  foldl (λ e u, if decide (n_email u = EmptyString) then Some Error.MISSING_USER_EMAIL
                else if decide (n_name u = EmptyString) then Some Error.MISSING_USER_NAME else e) None us.

Definition check_tenant (req : CreateTenantReq) : option Error.t :=
  if negb (has_tenant req) || bool_decide (c_name req = EmptyString) then Some Error.MISSING_TENANT_NAME
  else check_users (c_users req).

(** The tenant that has the name, if it waits for its activation, goes. *)
Definition remove_named (name : string) : Auto Db unit :=
  let! found := query (λ s, head (map_to_list (filter (λ it, t_name it.2 = name) (tenants s)))) in
  match found with
  | None => mret tt
  | Some (tid, t) =>
      let state := default SUSPENDED (State_Parse (t_state t)) in
      if decide (state = PENDING_ACTIVATION) then update (delete_tenant tid) else mret tt
  end.

(** The tenants that have the user's email. *)
Definition remove_email (email : string) (removed : gset string) : Auto Db (gset string) :=
  let! found := query (λ s, head (map_to_list (filter (λ iu, u_email iu.2 = email) (users s)))) in
  match found with
  | None => mret removed
  | Some (_, u) =>
      let! t := query (λ s, tenants s !! u_tenant u) in
      match t with
      | None => mret removed                       (* no row in the join *)
      | Some t =>
          let state := default SUSPENDED (State_Parse (toUpper (t_state t))) in
          if decide (state = PENDING_ACTIVATION) then
            if decide (u_tenant u ∈ removed) then mret removed else
            let! _ := update (delete_tenant (u_tenant u)) in
            mret ({[u_tenant u]} ∪ removed)
          else err Error.ALREADY_EXIST
      end
  end.

Fixpoint remove_emails (us : list NewUser) (removed : gset string) : Auto Db (gset string) :=
  match us with
  | [] => mret removed
  | u :: us => remove_email (n_email u) removed ≫= remove_emails us
  end.

(** [INSERT INTO tenant]; the name is unique. *)
Definition insert_tenant (id : string) (t : TenantRow) : Auto Db unit :=
  let! free := query (λ s, bool_decide (tenants s !! id = None)
                           && bool_decide (map_Forall (λ _ r, t_name r ≠ t_name t) (tenants s))) in
  if (free : bool) then update (set_tenants <[id := t]>) else throw runtime_error.

(** [INSERT INTO user]; the email is unique, the tenant must exist. *)
Definition insert_user (id : string) (u : UserRow) : Auto Db unit :=
  let! free := query (λ s, bool_decide (users s !! id = None)
                           && bool_decide (map_Forall (λ _ r, u_email r ≠ u_email u) (users s))
                           && bool_decide (is_Some (tenants s !! u_tenant u))) in
  if (free : bool) then update (set_users <[id := u]>) else throw runtime_error.

Definition create_user (tid : string) (tenant_kind : TKind) (u : NewUser) : Auto Db unit :=
  let! uid := uuid_or_new (n_uuid u) in
  let! kind := match n_kind u with
    | None => mret U_REGULAR
    | Some U_SUPER => if decide (tenant_kind = T_SUPER) then err Error.PERMISSION_DENIED else mret U_SUPER
    | Some k => mret k
    end in
  insert_user uid {| u_tenant := tid; u_name := n_name u; u_email := n_email u; u_kind := kind;
                     u_active := default true (n_active u) |}.

Fixpoint create_users (tid : string) (tenant_kind : TKind) (us : list NewUser) : Auto Db unit :=
  match us with
  | [] => mret tt
  | u :: us => let! _ := create_user tid tenant_kind u in create_users tid tenant_kind us
  end.

(** [signup_plan]: with payments enabled, what the plans say of new
    tenants. *)
Definition CreateTenant (signup_plan : option (result string)) (req : CreateTenantReq) : Auto Db string :=
  match check_tenant req with
  | Some e => err e
  | None =>
      let! tid := uuid_or_new (c_uuid req) in
      let! _ := remove_named (c_name req) in
      let! _ := remove_emails (c_users req) ∅ in
      let kind := default T_GUEST (c_kind req) in
      let! _ := transaction
        (let! plan := match signup_plan with
           | None => mret None
           | Some (Ok p) => mret (Some p)
           | Some (Throw e) => throw e
           end in
         let! _ := insert_tenant tid {| t_name := c_name req; t_kind := kind;
                     t_state := toLower (State_Name (c_state req)); t_plan := plan |} in
         create_users tid kind (c_users req)) in
      let! _ := (if bool_decide (is_Some signup_plan) then update (emit [registrationQueued tid]) else mret tt) in
      mret tid
  end.

(** ** [SetTenantState] *)
Inductive Selector := by_uuid (id : string) | by_email (email : string) | no_selector.

#[local] Instance Selector_eq_dec : EqDecision Selector.
Proof. solve_decision. Defined.

Definition select_tenant (w : Selector) (s : Db) : option (string * TenantRow) :=
  match w with
  | by_uuid id => pair id <$> tenants s !! id
  | by_email email =>
      match head (map_to_list (filter (λ iu, u_email iu.2 = email) (users s))) with
      | Some (_, u) => pair (u_tenant u) <$> tenants s !! u_tenant u
      | None => None
      end
  | no_selector => None
  end.

(** [has_sessions]: what [applyTenantStateAndPublish] answers. *)
Definition SetTenantState (has_sessions : bool) (w : Selector) (st : TState) : Auto Db TState :=
  if decide (st = PENDING_ACTIVATION) then err Error.INVALID_REQUEST else
  if decide (w = no_selector) then err Error.INVALID_REQUEST else
  let! found := query (select_tenant w) in
  match found with
  | None => err Error.NOT_FOUND
  | Some (id, t) =>
      match State_Parse (toUpper (t_state t)) with
      | None => throw runtime_error
      | Some current =>
          if decide (current = st) then mret current else
          let! _ := update (set_tenants (alter (λ t,
            {| t_name := t_name t; t_kind := t_kind t; t_state := toLower (State_Name st); t_plan := t_plan t |}) id)) in
          let! _ := update (emit [tenantStateChanged id st]) in
          let! _ := (if decide (st = SUSPENDED ∧ has_sessions = true) then update (emit [notifyTenant id])
                     else mret tt) in
          mret st
      end
  end.

(** ** One-time passwords *)
Definition otp_ttl_minutes : Z := 15.

Definition getOtpHash (user uuid otp : string) : string := sha256 (user ++ "/" ++ uuid ++ "/" ++ otp).

(** [issueOtpForNewDevice]: [otp] is the random password. *)
Definition issueOtpForNewDevice (now : Z) (otp : string) (user email : string) (notify : bool) : Auto Db string :=
  let! _ := transaction
    (let! _ := update (set_otps (filter (λ io, ¬ (o_user io.2 = user ∧ o_new_device io.2 = true)))) in
     let! id := newUuidStr in
     let! ok := query (λ s, bool_decide (otps s !! id = None) && bool_decide (is_Some (users s !! user))) in
     if (ok : bool) then
       update (set_otps <[id := {| o_user := user; o_hash := getOtpHash user id otp; o_email := email;
                                   o_new_device := true; o_created := now |}]>)
     else throw runtime_error) in
  let! _ := (if notify then update (emit [notifyUser user]) else mret tt) in
  mret otp.

Definition GetOtpForNewDevice (now : Z) (otp : string) (cuser : string) : Auto Db string :=
  let! u := query (λ s, users s !! cuser) in
  match u with
  | None => err Error.MISSING_USER_EMAIL
  | Some u => issueOtpForNewDevice now otp cuser (u_email u) false
  end.

(** The administrator's [GetOtpForUser]. *)
Inductive WhichUser := user_id (id : string) | user_email (email : string) | user_not_set.

Definition GetOtpForUser (now : Z) (otp : string) (w : WhichUser) : Auto Db string :=
  let! found := match w with
    | user_id id => let! _ := validatedUuid id in query (λ s, pair id <$> users s !! id)
    | user_email email =>
        if isValidEmail email
        then query (λ s, head (map_to_list (filter (λ iu, u_email iu.2 = email) (users s))))
        else err Error.CONSTRAINT_FAILED
    | user_not_set => err Error.INVALID_ARGUMENT
    end in
  match found with
  | None => err Error.MISSING_USER_ID
  | Some (id, u) => issueOtpForNewDevice now otp id (u_email u) true
  end.

(** ** [CreateDevice] *)
Inductive DeviceAuth := auth_user (id : string) | auth_otp (email otp : string) | no_auth.

Record CreateDeviceReq := { v_uuid : string; v_csr : string; v_name : string; v_auth : DeviceAuth }.

(** The rows of an email that are not too old. *)
Definition live_otps (now : Z) (email : string) (s : Db) : list (string * OtpRow) :=
  map_to_list (filter (λ io, o_email io.2 = email ∧ o_new_device io.2 = true
                             ∧ now - otp_ttl_minutes * 60 ≤ o_created io.2) (otps s)).

(** The owner of the new device. *)
Definition device_owner (now : Z) (a : DeviceAuth) : Auto Db string :=
  match a with
  | auth_user id => mret id
  | auth_otp email otp =>
      if negb (isValidEmail email) then err Error.CONSTRAINT_FAILED else
      let! row := query (λ s, head (live_otps now email s)) in
      match row with
      | None => err Error.AUTH_FAILED
      | Some (id, o) =>
          if decide (getOtpHash (o_user o) id otp = o_hash o) then
            let! _ := update (set_otps (base.delete id)) in
            mret (o_user o)
          else err Error.AUTH_FAILED
      end
  | no_auth => err Error.MISSING_AUTH
  end.

(** What is done about a device that exists: the query looks for a user with
    the uuid of the device. *)
Definition recreate_device (cuser device : string) : Auto Db unit :=
  let! old := query (λ s, devices s !! device) in
  match old with
  | None => mret tt
  | Some d =>
      if decide (d_user d ≠ cuser) then err Error.ALREADY_EXIST else
      let! row := query (λ s, users s !! device ≫= λ u, tenants s !! u_tenant u) in
      match row with
      | None => mret tt
      | Some t =>
          if decide (t_state t = toLower (State_Name PENDING_ACTIVATION))
          then update (set_devices (base.delete device))
          else err Error.ALREADY_EXIST
      end
  end.

(** [INSERT INTO device] *)
Definition insert_device (id : string) (d : DeviceRow) : Auto Db unit :=
  let! ok := query (λ s, bool_decide (devices s !! id = None) && bool_decide (is_Some (users s !! d_user d))) in
  if (ok : bool) then update (set_devices <[id := d]>) else throw runtime_error.

(** [is_admin], [writable] ([requireWritableForAdd]) and [room] (the
    reservation, taken when the caller adds the device to itself) are what
    the session and the plan of the caller say. *)
Definition CreateDevice (is_admin : bool) (writable room : result unit) (now : Z) (cuser : string)
    (req : CreateDeviceReq) : Auto Db (string * string) :=
  if negb is_admin then err Error.PERMISSION_DENIED else
  let! _ := stmt (lift writable) in
  if decide (v_csr req = EmptyString) then err Error.MISSING_CSR else
  let! device := (if decide (v_uuid req = EmptyString) then newUuidStr
                  else let! _ := validatedUuid (v_uuid req) in mret (v_uuid req)) in
  let! user := device_owner now (v_auth req) in
  if decide (user = EmptyString) then err Error.MISSING_USER_ID else
  let! _ := validatedUuid user in
  let! _ := recreate_device cuser device in
  let! cert_hash := match signCert (v_csr req) device with
    | Ok h => mret h
    | Throw _ => err Error.INVALID_CSR
    end in
  let! _ := (if decide (user = cuser) then stmt (lift room) else mret tt) in
  let! _ := insert_device device {| d_user := user; d_name := v_name req; d_enabled := true;
                                    d_cert_hash := cert_hash |} in
  mret (device, cert_hash).

(** ** Devices of a user *)
Definition own_device (cuser id : string) (s : Db) : option DeviceRow :=
  match devices s !! id with
  | Some d => if decide (d_user d = cuser) then Some d else None
  | None => None
  end.

Definition UpdateDevice (cuser id : string) (new_name : option string) (new_enabled : option bool) : Auto Db unit :=
  let! old := query (own_device cuser id) in
  match old with
  | None => err Error.NOT_FOUND
  | Some _ =>
      let! _ := match new_name with
        | Some n => update (set_devices (alter (λ d,
            {| d_user := d_user d; d_name := n; d_enabled := d_enabled d; d_cert_hash := d_cert_hash d |}) id))
        | None => mret tt
        end in
      let! _ := match new_enabled with
        | Some e => update (set_devices (alter (λ d,
            {| d_user := d_user d; d_name := d_name d; d_enabled := e; d_cert_hash := d_cert_hash d |}) id))
        | None => mret tt
        end in
      let! row := query (own_device cuser id) in
      match row with
      | Some d => update (emit [deviceUpdated id d])
      | None => mret tt
      end
  end.

(** [current]: the device of the session. *)
Definition DeleteDevice (cuser current id : string) : Auto Db unit :=
  let! _ := validatedUuid id in
  if decide (id = current) then err Error.INVALID_ACTION else
  let! row := query (own_device cuser id) in
  match row with
  | None => err Error.NOT_FOUND
  | Some d =>
      let! _ := update (set_devices (base.delete id)) in
      update (emit [deviceDeleted id d])
  end.

(** ** [DeleteAccount] *)
Definition DeleteAccount (cuser tenant : string) : Auto Db unit :=
  let! n := query (λ s, size (users_of tenant s)) in
  let! _ := (if decide (n = 1%nat) then
               let! t := query (λ s, tenants s !! tenant) in
               match t with
               | Some _ => update (delete_tenant tenant)
               | None => err Error.GENERIC_ERROR
               end
             else
               let! u := query (λ s, users s !! cuser) in
               match u with
               | Some _ => update (drop_users {[cuser]})
               | None => err Error.GENERIC_ERROR
               end) in
  update (λ s, emit [accountDeleted] (set_rest id id id ({[cuser]} ∪.) id id s)).

(** ** Settings and the last notification read *)

(** The limits of the request that are checked. *)
Record SettingsReq := { g_minimum : Z; g_maximum : Z; g_limit : Z; g_version : Z; g_blob : string }.

Definition or_default (n d : Z) : Z := if decide (n = 0) then d else n.

Definition check_settings (r : SettingsReq) : bool :=
  let minimum := g_minimum r in
  let maximum := g_maximum r in
  negb ((minimum <? 0) || (1440 <? minimum) || (maximum <? 0) || (1440 <? maximum)
        || (or_default maximum 240 <? or_default minimum 30))
  && negb (negb (g_limit r =? 0) && ((g_limit r <? 5) || (100 <? g_limit r))).

(** [saveUserGlobalSettings]; the trigger counts the version up.  It answers
    that rows were affected. *)
Definition saveUserGlobalSettings (cuser blob : string) : Auto Db bool :=
  let! old := query (λ s, settings s !! cuser) in
  let! u := query (λ s, users s !! cuser) in
  match u with
  | None => throw runtime_error
  | Some _ =>
      let! _ := update (set_rest <[cuser := (blob, match old with Some (_, v) => v + 1 | None => 1 end)]>
                          id id id id id) in
      mret true
  end.

Definition SetUserGlobalSettings (cuser : string) (r : SettingsReq) : Auto Db unit :=
  if negb (check_settings r) then err Error.INVALID_ARGUMENT else
  let! old := query (λ s, settings s !! cuser) in
  if default false ((λ bv, g_version r <? bv.2) <$> old) then err Error.CONFLICT else
  let! added := saveUserGlobalSettings cuser (g_blob r) in
  let! row := query (λ s, settings s !! cuser) in
  match row with
  | None => err Error.NOT_FOUND
  | Some (blob, version) =>
      update (emit [if (added : bool) then settingsAdded blob version else settingsUpdated blob version])
  end.

(** [UserContext::getLastReadNotification] and [setLastReadNotification]:
    the cached id, which only grows. *)
Definition cached (cuser : string) (s : Db) : option Z :=
  match cached_read s !! cuser with Some n => if 0 <? n then Some n else None | None => None end.

Definition setLastReadNotification (cuser : string) (n : Z) (s : Db) : Db :=
  if 2 ^ 31 <=? n then s else
  set_rest id id (λ c, if default (-1) (c !! cuser) <? n then <[cuser := n]> c else c) id id id s.

Definition GetLastReadNotification (cuser : string) : Auto Db Z :=
  let! c := query (cached cuser) in
  match c with
  | Some n => mret n
  | None =>
      let! n := query (λ s, from_option first_row 0 (last_read s !! cuser)) in
      let! _ := update (setLastReadNotification cuser n) in
      mret n
  end.

(** [known]: whether the notification is in its table (the foreign key).  The
    key of the row is the user with the id, so another id is another row. *)
Definition SetLastReadNotification (known : bool) (cuser : string) (n : Z) : Auto Db unit :=
  if negb known then throw runtime_error else
  let! _ := update (set_rest id (λ l, <[cuser := {[n]} ∪ default ∅ (l !! cuser)]> l) id id id id) in
  update (emit [lastRead n]).

(** ** The tables stay consistent *)
Record accounts_ok (s : Db) : Prop := {
  ao_names i j t u : tenants s !! i = Some t → tenants s !! j = Some u → t_name t = t_name u → i = j;
  ao_emails i j u v : users s !! i = Some u → users s !! j = Some v → u_email u = u_email v → i = j;
  ao_states i t : tenants s !! i = Some t → ∃ st, t_state t = toLower (State_Name st);
  ao_tenant i u : users s !! i = Some u → is_Some (tenants s !! u_tenant u);
  ao_device i d : devices s !! i = Some d → is_Some (users s !! d_user d);
  ao_otp i o : otps s !! i = Some o → ∃ u, users s !! o_user o = Some u ∧ o_email o = u_email u;
  ao_one_otp i j o p : otps s !! i = Some o → otps s !! j = Some p → o_user o = o_user p →
                       o_new_device o = true → o_new_device p = true → i = j;
  ao_settings i v : settings s !! i = Some v → is_Some (users s !! i)
}.

Definition holds {A} (m : Auto Db A) : Prop := ∀ s, accounts_ok s → accounts_ok (m s).2.

Lemma holds_ret {A} (a : A) : holds (mret a).
Proof. by intros s. Qed.

Lemma holds_bind {A B} (m : Auto Db A) (k : A → Auto Db B) : holds m → (∀ a, holds (k a)) → holds (m ≫= k).
Proof.
  intros Hm Hk s Hs. specialize (Hm s Hs). cbv [mbind Auto_bind].
  destruct (m s) as [[a|] s']; [by apply Hk|done].
Qed.

Lemma holds_query {A} (f : Db → A) : holds (query f).
Proof. by intros s. Qed.

Lemma holds_throw {A} (e : exn) : holds (throw (A := A) e).
Proof. by intros s. Qed.

Lemma holds_lift {A} (r : result A) : holds (stmt (lift r)).
Proof. intros s Hs. unfold stmt, lift. by destruct r. Qed.

Lemma holds_update f : (∀ s, accounts_ok s → accounts_ok (f s)) → holds (update f).
Proof. intros Hf s. apply Hf. Qed.

(** The memory and the effects do not matter. *)
Lemma accounts_ok_rest l c i n e s : accounts_ok s → accounts_ok (set_rest id l c i n e s).
Proof. by intros []; split. Qed.

Lemma tables_back_ok s s' : accounts_ok s → accounts_ok (tables_back s s').
Proof. by intros []; split. Qed.

Lemma holds_transaction {A} (m : Auto Db A) : holds m → holds (transaction m).
Proof.
  intros Hm s Hs. specialize (Hm s Hs). unfold transaction. destruct (m s) as [[a|] s']; [done|].
  by apply tables_back_ok.
Qed.

(** A step that looks before it writes. *)
Lemma holds_look {A B} (f : Db → A) (k : A → Auto Db B) :
  (∀ s, accounts_ok s → accounts_ok (k (f s) s).2) → holds (query f ≫= k).
Proof. intros Hk s. apply Hk. Qed.

Ltac hold := repeat match goal with
  | |- holds (mret _) => apply holds_ret
  | |- holds (throw _) => apply holds_throw
  | |- holds (err _) => apply holds_throw
  | |- holds (query _) => apply holds_query
  | |- holds (stmt (lift _)) => apply holds_lift
  | |- holds (transaction _) => apply holds_transaction
  | |- holds (_ ≫= _) => apply holds_bind; [|intros]
  | |- holds (match ?x with _ => _ end) => destruct x
  | |- holds (let '(_, _) := ?x in _) => destruct x
  | |- holds (if ?x then _ else _) => destruct x
  | |- holds (update (emit _)) => apply holds_update; intros; by apply accounts_ok_rest
  | |- holds (update (set_rest id _ _ _ _ _)) => apply holds_update; intros; by apply accounts_ok_rest
  | |- holds _ => solve [auto with holds]
  end.

Create HintDb holds discriminated.

Lemma newUuidStr_holds : holds newUuidStr.
Proof. unfold newUuidStr. hold. Qed.
#[local] Hint Resolve newUuidStr_holds : holds.

Lemma uuid_or_new_holds u : holds (uuid_or_new u).
Proof. unfold uuid_or_new. hold. Qed.
#[local] Hint Resolve uuid_or_new_holds : holds.

Lemma validatedUuid_holds u : holds (validatedUuid u).
Proof. unfold validatedUuid. hold. Qed.
#[local] Hint Resolve validatedUuid_holds : holds.

Lemma drop_users_ok gone s : accounts_ok s → accounts_ok (drop_users gone s).
Proof.
  intros [N E S T D O U G]. split; cbn.
  - exact N.
  - intros i j u v [Hu _]%map_lookup_filter_Some [Hv _]%map_lookup_filter_Some. by eapply E.
  - exact S.
  - intros i u [Hu _]%map_lookup_filter_Some. by eapply T.
  - intros i d [Hd Hg]%map_lookup_filter_Some. destruct (D _ _ Hd) as [u Hu]. exists u.
    by apply map_lookup_filter_Some.
  - intros i o [Ho Hg]%map_lookup_filter_Some. destruct (O _ _ Ho) as (u & Hu & He). exists u.
    split; [by apply map_lookup_filter_Some|done].
  - intros i j o p [Ho _]%map_lookup_filter_Some [Hp _]%map_lookup_filter_Some. by eapply U.
  - intros i v [Hv Hg]%map_lookup_filter_Some. destruct (G _ _ Hv) as [u Hu]. exists u.
    by apply map_lookup_filter_Some.
Qed.

Lemma users_of_spec i t s : i ∈ users_of t s ↔ ∃ u, users s !! i = Some u ∧ u_tenant u = t.
Proof.
  unfold users_of. rewrite elem_of_dom. split.
  - intros [u [Hu Ht]%map_lookup_filter_Some]. eauto.
  - intros (u & Hu & Ht). exists u. by apply map_lookup_filter_Some.
Qed.

Lemma delete_tenant_ok t s : accounts_ok s → accounts_ok (delete_tenant t s).
Proof.
  intros Hs. pose proof (drop_users_ok (users_of t s) s Hs) as Hd.
  unfold delete_tenant. destruct Hd as [N E S T D O U G]. split; cbn in *.
  - intros i j x y [_ Hx]%lookup_delete_Some [_ Hy]%lookup_delete_Some. by eapply N.
  - exact E.
  - intros i x [_ Hx]%lookup_delete_Some. by eapply S.
  - intros i u Hu. pose proof Hu as [Hu' Hg]%map_lookup_filter_Some. cbn in Hg.
    rewrite lookup_delete_ne; [by eapply T|]. intros ->. apply Hg, users_of_spec. eauto.
  - exact D.
  - exact O.
  - exact U.
  - exact G.
Qed.

Lemma remove_named_holds n : holds (remove_named n).
Proof. unfold remove_named. hold. apply holds_update. intros. by apply delete_tenant_ok. Qed.

Lemma remove_email_holds e r : holds (remove_email e r).
Proof. unfold remove_email. hold. apply holds_update. intros. by apply delete_tenant_ok. Qed.
#[local] Hint Resolve remove_named_holds remove_email_holds : holds.

Lemma remove_emails_holds us r : holds (remove_emails us r).
Proof. revert r. induction us as [|u us IH]; intros r; cbn [remove_emails]; hold. Qed.
#[local] Hint Resolve remove_emails_holds : holds.

(** A new row. *)
Lemma insert_tenant_holds id t :
  (∃ st, t_state t = toLower (State_Name st)) → holds (insert_tenant id t).
Proof.
  intros St. apply holds_look. intros s Hs. cbv beta. destruct (_ && _) eqn:Hfree; [|exact Hs].
  apply andb_prop in Hfree as [Hid%bool_decide_eq_true Hname%bool_decide_eq_true].
  destruct Hs as [N E S T D O U G]. split; cbn; [|exact E| | |exact D|exact O|exact U|exact G].
  - intros i j x y [[<- <-]|[? Hx]]%lookup_insert_Some [[<- <-]|[? Hy]]%lookup_insert_Some Heq; [done|..].
    + by destruct (Hname _ _ Hy).
    + by destruct (Hname _ _ Hx).
    + by eapply N.
  - intros i x [[<- <-]|[? Hx]]%lookup_insert_Some; [done|by eapply S].
  - intros i u Hu. rewrite lookup_insert_is_Some. destruct (decide (id = u_tenant u)); [by left|].
    right. split; [done|by eapply T].
Qed.

Lemma insert_user_holds id u : holds (insert_user id u).
Proof.
  apply holds_look. intros s Hs. cbv beta. destruct (_ && _) eqn:Hfree; [|exact Hs].
  apply andb_prop in Hfree as [[Hid%bool_decide_eq_true Hmail%bool_decide_eq_true]%andb_prop Ht%bool_decide_eq_true].
  destruct Hs as [N E S T D O U G]. split; cbn; [exact N| |exact S| | | |exact U|].
  - intros i j x y [[<- <-]|[? Hx]]%lookup_insert_Some [[<- <-]|[? Hy]]%lookup_insert_Some Heq; [done|..].
    + by destruct (Hmail _ _ Hy).
    + by destruct (Hmail _ _ Hx).
    + by eapply E.
  - intros i x [[<- <-]|[? Hx]]%lookup_insert_Some; [done|by eapply T].
  - intros i d Hd. destruct (D _ _ Hd) as [x Hx]. exists x. by rewrite lookup_insert_ne by congruence.
  - intros i o Ho. destruct (O _ _ Ho) as (x & Hx & He). exists x. by rewrite lookup_insert_ne by congruence.
  - intros i v Hv. destruct (G _ _ Hv) as [x Hx]. exists x. by rewrite lookup_insert_ne by congruence.
Qed.
#[local] Hint Resolve insert_user_holds : holds.

Lemma create_user_holds tid k u : holds (create_user tid k u).
Proof. unfold create_user. hold. Qed.
#[local] Hint Resolve create_user_holds : holds.

Lemma create_users_holds tid k us : holds (create_users tid k us).
Proof. induction us as [|u us IH]; cbn [create_users]; hold. Qed.
#[local] Hint Resolve create_users_holds : holds.

Lemma CreateTenant_holds plan req : holds (CreateTenant plan req).
Proof. unfold CreateTenant. hold. all: apply insert_tenant_holds; eauto. Qed.

(** A change of a row that keeps what others refer to. *)
Lemma alter_inv {A} (f : A → A) (m : gmap string A) i j y :
  alter f i m !! j = Some y → ∃ x, m !! j = Some x ∧ (y = f x ∨ y = x).
Proof. intros [(-> & x & Hx & ->)|[_ Hy]]%lookup_alter_Some; eauto. Qed.

Lemma alter_is_Some {A} (f : A → A) (m : gmap string A) i j :
  is_Some (m !! j) → is_Some (alter f i m !! j).
Proof.
  intros [x Hx]. destruct (decide (i = j)) as [->|Hne].
  - rewrite lookup_alter_eq, Hx. by eexists.
  - rewrite lookup_alter_ne by done. by eexists.
Qed.

Lemma alter_tenant_ok f id s :
  (∀ t, t_name (f t) = t_name t) → (∀ t, ∃ st, t_state (f t) = toLower (State_Name st)) →
  accounts_ok s → accounts_ok (set_tenants (alter f id) s).
Proof.
  intros Hn Hf [N E S T D O U G]. split; cbn; [|exact E| | |exact D|exact O|exact U|exact G].
  - intros i j x y (x' & Hx & [->| ->])%alter_inv (y' & Hy & [->| ->])%alter_inv; rewrite ?Hn; by eapply N.
  - intros i x (x' & Hx & [->| ->])%alter_inv; [apply Hf|by eapply S].
  - intros i u Hu. by apply alter_is_Some, (T i).
Qed.

Lemma alter_device_ok f id s :
  (∀ d, d_user (f d) = d_user d) → accounts_ok s → accounts_ok (set_devices (alter f id) s).
Proof.
  intros Hf [N E S T D O U G]. split; cbn; [exact N|exact E|exact S|exact T| |exact O|exact U|exact G].
  intros i d (d' & Hd & [->| ->])%alter_inv; rewrite ?Hf; by eapply D.
Qed.

Lemma delete_device_ok id s : accounts_ok s → accounts_ok (set_devices (base.delete id) s).
Proof.
  intros [N E S T D O U G]. split; cbn; [exact N|exact E|exact S|exact T| |exact O|exact U|exact G].
  intros i d [_ Hd]%lookup_delete_Some. by eapply D.
Qed.

Lemma SetTenantState_holds h w st : holds (SetTenantState h w st).
Proof.
  unfold SetTenantState. hold. apply holds_update. intros x Hx. apply alter_tenant_ok; [done|by eauto|done].
Qed.

(** One-time passwords. *)
Lemma filter_otps_ok P `{∀ io, Decision (P io)} s : accounts_ok s → accounts_ok (set_otps (filter P) s).
Proof.
  intros [N E S T D O U G]. split; cbn; [exact N|exact E|exact S|exact T|exact D| | |exact G].
  - intros i o [Ho _]%map_lookup_filter_Some. by eapply O.
  - intros i j o p [Ho _]%map_lookup_filter_Some [Hp _]%map_lookup_filter_Some. by eapply U.
Qed.

Lemma delete_otp_ok id s : accounts_ok s → accounts_ok (set_otps (base.delete id) s).
Proof.
  intros [N E S T D O U G]. split; cbn; [exact N|exact E|exact S|exact T|exact D| | |exact G].
  - intros i o [_ Ho]%lookup_delete_Some. by eapply O.
  - intros i j o p [_ Ho]%lookup_delete_Some [_ Hp]%lookup_delete_Some. by eapply U.
Qed.

(** The new password goes in where the user has no other. *)
Lemma insert_otp_ok id o s :
  (∃ u, users s !! o_user o = Some u ∧ o_email o = u_email u) →
  (∀ i p, otps s !! i = Some p → ¬ (o_user p = o_user o ∧ o_new_device p = true)) →
  accounts_ok s → accounts_ok (set_otps <[id := o]> s).
Proof.
  intros Hu Hnone [N E S T D O U G]. split; cbn; [exact N|exact E|exact S|exact T|exact D| | |exact G].
  - intros i p [[<- <-]|[? Hp]]%lookup_insert_Some; [done|by eapply O].
  - intros i j p q [[<- <-]|[? Hp]]%lookup_insert_Some [[<- <-]|[? Hq]]%lookup_insert_Some Heq Np Nq; [done|..].
    + by destruct (Hnone _ _ Hq).
    + by destruct (Hnone _ _ Hp).
    + by eapply U.
Qed.

(** [email] is the user's own in both callers. *)
Lemma issueOtp_ok now otp user email notify s u :
  users s !! user = Some u → u_email u = email →
  accounts_ok s → accounts_ok (issueOtpForNewDevice now otp user email notify s).2.
Proof.
  intros Hu Hm Hs. unfold issueOtpForNewDevice, transaction.
  cbv [mbind Auto_bind mret Auto_ret update query stmt gets modify newUuidStr throw lift].
  cbv beta iota zeta.
  destruct (_ && _); cbn -[set_otps set_rest tables_back emit];
    [|by apply tables_back_ok].
  assert (accounts_ok (set_otps <[newUuid (counter s) := {| o_user := user;
      o_hash := getOtpHash user (newUuid (counter s)) otp; o_email := email; o_new_device := true; o_created := now |}]>
      (set_rest id id id id S id (set_otps (filter (λ io, ¬ (o_user io.2 = user ∧ o_new_device io.2 = true))) s))))
    as Hok; [|destruct notify; [by apply accounts_ok_rest|done]].
  apply insert_otp_ok; [by exists u| |by apply accounts_ok_rest, filter_otps_ok].
  by intros i p [_ Hp]%map_lookup_filter_Some.
Qed.

(** What follows a look, knowing what was seen. *)
Lemma GetOtpForNewDevice_holds now otp cuser : holds (GetOtpForNewDevice now otp cuser).
Proof.
  apply holds_look. intros s Hs. cbv beta. destruct (users s !! cuser) as [u|] eqn:Hu; [|done].
  by eapply issueOtp_ok.
Qed.

Lemma head_filter_Some {A} (P : string * A → Prop) `{∀ x, Decision (P x)} (m : gmap string A) i x :
  head (map_to_list (filter P m)) = Some (i, x) → m !! i = Some x ∧ P (i, x).
Proof.
  intros Hh%head_Some_elem_of%elem_of_map_to_list. by apply map_lookup_filter_Some in Hh.
Qed.

Lemma GetOtpForUser_holds now otp w : holds (GetOtpForUser now otp w).
Proof.
  intros s Hs. unfold GetOtpForUser.
  cbv [mbind Auto_bind mret Auto_ret query stmt gets err throw lift validatedUuid].
  destruct w as [id|email|]; [destruct (is_uuid id)|destruct (isValidEmail email)|]; cbv beta iota zeta; try done.
  - destruct (users s !! id) as [u|] eqn:Hu; cbn; [|done]. by eapply issueOtp_ok.
  - destruct (head _) as [[id u]|] eqn:Hh; [|done]. apply head_filter_Some in Hh as [Hu _].
    by eapply issueOtp_ok.
Qed.

(** Devices. *)
Lemma device_owner_holds now a : holds (device_owner now a).
Proof. unfold device_owner. hold. apply holds_update. intros. by apply delete_otp_ok. Qed.

Lemma recreate_device_holds cuser id : holds (recreate_device cuser id).
Proof. unfold recreate_device. hold. apply holds_update. intros. by apply delete_device_ok. Qed.

Lemma insert_device_holds id d : holds (insert_device id d).
Proof.
  apply holds_look. intros s Hs. cbv beta. destruct (_ && _) eqn:Hok; [|exact Hs].
  apply andb_prop in Hok as [_ Hu%bool_decide_eq_true].
  destruct Hs as [N E S T D O U G]. split; cbn; [exact N|exact E|exact S|exact T| |exact O|exact U|exact G].
  intros i x [[<- <-]|[? Hx]]%lookup_insert_Some; [done|by eapply D].
Qed.
#[local] Hint Resolve device_owner_holds recreate_device_holds insert_device_holds : holds.

Lemma CreateDevice_holds a w r now cuser req : holds (CreateDevice a w r now cuser req).
Proof. unfold CreateDevice. hold. Qed.

Lemma UpdateDevice_holds cuser id n e : holds (UpdateDevice cuser id n e).
Proof. unfold UpdateDevice. hold; apply holds_update; intros; by apply alter_device_ok. Qed.

Lemma DeleteDevice_holds cuser cur id : holds (DeleteDevice cuser cur id).
Proof. unfold DeleteDevice. hold. apply holds_update. intros. by apply delete_device_ok. Qed.

(** The rest. *)
Lemma DeleteAccount_holds cuser tenant : holds (DeleteAccount cuser tenant).
Proof.
  unfold DeleteAccount. hold; apply holds_update; intros.
  - by apply delete_tenant_ok.
  - by apply drop_users_ok.
  - by do 2 apply accounts_ok_rest.
Qed.

Lemma saveUserGlobalSettings_holds cuser blob : holds (saveUserGlobalSettings cuser blob).
Proof.
  apply holds_bind; [apply holds_query|]. intros old. apply holds_look. intros s Hs. cbv beta.
  destruct (users s !! cuser) as [u|] eqn:Hu; [|done].
  cbv [mbind Auto_bind mret Auto_ret update stmt modify snd].
  destruct Hs as [N E S T D O U G]. split; cbn; [exact N|exact E|exact S|exact T|exact D|exact O|exact U|].
  intros i v [[<- <-]|[? Hv]]%lookup_insert_Some; [by eexists|by eapply G].
Qed.
#[local] Hint Resolve saveUserGlobalSettings_holds : holds.

Lemma SetUserGlobalSettings_holds cuser r : holds (SetUserGlobalSettings cuser r).
Proof. unfold SetUserGlobalSettings. hold. Qed.

Lemma setLastRead_ok cuser n s : accounts_ok s → accounts_ok (setLastReadNotification cuser n s).
Proof. intros Hs. unfold setLastReadNotification. destruct (_ <=? _); [done|by apply accounts_ok_rest]. Qed.

Lemma GetLastReadNotification_holds cuser : holds (GetLastReadNotification cuser).
Proof. unfold GetLastReadNotification. hold. apply holds_update. intros. by apply setLastRead_ok. Qed.

Lemma SetLastReadNotification_holds k cuser n : holds (SetLastReadNotification k cuser n).
Proof. unfold SetLastReadNotification. hold. Qed.

#[local] Hint Resolve CreateTenant_holds SetTenantState_holds GetOtpForNewDevice_holds GetOtpForUser_holds
  CreateDevice_holds UpdateDevice_holds DeleteDevice_holds DeleteAccount_holds SetUserGlobalSettings_holds
  GetLastReadNotification_holds SetLastReadNotification_holds : holds.

(** The calls, as one type. *)
Inductive Call :=
| createTenant (plan : option (result string)) (req : CreateTenantReq)
| setTenantState (has_sessions : bool) (w : Selector) (st : TState)
| getOtpForNewDevice (now : Z) (otp cuser : string)
| getOtpForUser (now : Z) (otp : string) (w : WhichUser)
| createDevice (is_admin : bool) (writable room : result unit) (now : Z) (cuser : string) (req : CreateDeviceReq)
| updateDevice (cuser id : string) (name : option string) (enabled : option bool)
| deleteDevice (cuser current id : string)
| deleteAccount (cuser tenant : string)
| setUserGlobalSettings (cuser : string) (r : SettingsReq)
| getLastReadNotification (cuser : string)
| setLastRead (known : bool) (cuser : string) (n : Z).

Definition call (c : Call) : Db → Db := λ s,
  match c with
  | createTenant p r => (CreateTenant p r s).2
  | setTenantState h w st => (SetTenantState h w st s).2
  | getOtpForNewDevice now o c => (GetOtpForNewDevice now o c s).2
  | getOtpForUser now o w => (GetOtpForUser now o w s).2
  | createDevice a w r now c q => (CreateDevice a w r now c q s).2
  | updateDevice c i n e => (UpdateDevice c i n e s).2
  | deleteDevice c cur i => (DeleteDevice c cur i s).2
  | deleteAccount c t => (DeleteAccount c t s).2
  | setUserGlobalSettings c r => (SetUserGlobalSettings c r s).2
  | getLastReadNotification c => (GetLastReadNotification c s).2
  | setLastRead k c n => (SetLastReadNotification k c n s).2
  end.

Definition calls (cs : list Call) (s : Db) : Db := foldl (flip call) s cs.

Definition empty_db : Db :=
  {| tenants := ∅; users := ∅; devices := ∅; otps := ∅; settings := ∅; last_read := ∅; cached_read := ∅;
     invalid := ∅; counter := O; effects := [] |}.

Lemma empty_ok : accounts_ok empty_db.
Proof. split; cbn; intros *; by rewrite ?lookup_empty. Qed.

Lemma call_ok c s : accounts_ok s → accounts_ok (call c s).
Proof.
  intros Hs. destruct c; cbn [call];
    match goal with |- accounts_ok (?m s).2 => assert (holds m) as Hm by auto with holds; by apply Hm end.
Qed.


(** ** One-time passwords *)

(** Reading a run that returned. *)
Lemma run_bind_Ok {A B} (m : Auto Db A) (k : A → Auto Db B) s b s' :
  (m ≫= k) s = (Ok b, s') → ∃ a s1, m s = (Ok a, s1) ∧ k a s1 = (Ok b, s').
Proof. cbv [mbind Auto_bind]. destruct (m s) as [[a|e] s1]; [eauto|done]. Qed.

Lemma ret_Ok {A} (a b : A) (s s' : Db) : mret (M := Auto Db) a s = (Ok b, s') → b = a ∧ s' = s.
Proof. cbv [mret Auto_ret]. by intros [= -> ->]. Qed.

Lemma query_Ok {A} (f : Db → A) s b s' : query f s = (Ok b, s') → b = f s ∧ s' = s.
Proof. cbv [query stmt gets]. by intros [= -> ->]. Qed.

Lemma update_Ok f s b s' : update f s = (Ok b, s') → s' = f s.
Proof. cbv [update stmt modify]. by intros [= _ <-]. Qed.

Lemma throw_Ok {A} e s (b : A) s' : throw e s = (Ok b, s') → False.
Proof. done. Qed.

Lemma run_lift_Ok {A} (r : result A) (s : Db) b s' : stmt (lift r) s = (Ok b, s') → r = Ok b ∧ s' = s.
Proof. cbv [stmt lift]. destruct r; [by intros [= -> ->]|done]. Qed.

Lemma transaction_Ok {A} (m : Auto Db A) s b s' : transaction m s = (Ok b, s') → m s = (Ok b, s').
Proof. unfold transaction. by destruct (m s) as [[a|e] s1]. Qed.

(** Takes a returning run apart, one statement at a time. *)
Ltac ran := repeat match goal with
  | H : (_ ≫= _) _ = (Ok _, _) |- _ =>
      let x := fresh "x" in let t := fresh "t" in let Hx := fresh "Hx" in
      apply run_bind_Ok in H as (x & t & Hx & H); cbv beta in H
  | H : mret _ _ = (Ok _, _) |- _ => apply ret_Ok in H as [? ?]; try subst
  | H : query _ _ = (Ok _, _) |- _ => apply query_Ok in H as [? ?]; try subst
  | H : update _ _ = (Ok _, _) |- _ => apply update_Ok in H; try subst
  | H : throw _ _ = (Ok _, _) |- _ => destruct (throw_Ok _ _ _ _ H)
  | H : err _ _ = (Ok _, _) |- _ => destruct (throw_Ok _ _ _ _ H)
  | H : stmt (lift _) _ = (Ok _, _) |- _ => apply run_lift_Ok in H as [? ?]; try subst
  | H : transaction _ _ = (Ok _, _) |- _ => apply transaction_Ok in H
  end.

Lemma live_otps_spec now email s id o :
  (id, o) ∈ live_otps now email s ↔
    otps s !! id = Some o ∧ o_email o = email ∧ o_new_device o = true ∧ now - otp_ttl_minutes * 60 ≤ o_created o.
Proof. unfold live_otps. rewrite elem_of_map_to_list, map_lookup_filter_Some. done. Qed.

(** The password that is accepted, and what is left of it. *)
Lemma device_owner_otp now email otp s user s' :
  device_owner now (auth_otp email otp) s = (Ok user, s') →
  ∃ id o, otps s !! id = Some o ∧ o_user o = user ∧ o_email o = email ∧ o_new_device o = true ∧
    now - otp_ttl_minutes * 60 ≤ o_created o ∧ getOtpHash user id otp = o_hash o ∧
    s' = set_otps (base.delete id) s.
Proof.
  unfold device_owner. intros Hr. destruct (negb _); ran. destruct (head _) as [[id o]|] eqn:Hh; ran.
  apply head_Some_elem_of, live_otps_spec in Hh as (Ho & He & Hn & Ht).
  destruct (decide _) as [Hhash|]; ran. exists id, o. auto 10.
Qed.

(** No handler but the two that issue passwords writes one. *)
Lemma recreate_device_otps cuser device s u s' :
  recreate_device cuser device s = (Ok u, s') →
  otps s' = otps s ∧ users s' = users s ∧
  (∀ d, devices s !! device = Some d → d_user d = cuser) ∧
  (∀ i, i ≠ device → devices s' !! i = devices s !! i).
Proof.
  unfold recreate_device. intros Hr. ran.
  destruct (devices s !! device) as [d|] eqn:Hd; ran; [|done].
  destruct (decide (d_user d ≠ cuser)); ran.
  assert (∀ d0, Some d = Some d0 → d_user d0 = cuser) as Hc
    by (intros d0 [= <-]; by destruct (decide (d_user d = cuser))).
  match goal with H : (match ?x with _ => _ end) _ = _ |- _ => destruct x; ran; [|done] end.
  match goal with H : (if ?x then _ else _) _ = _ |- _ => destruct x; ran end.
  split_and!; [done..|]. intros i Hi. cbn. by rewrite lookup_delete_ne.
Qed.

(** The uuid of the device, and what choosing it leaves. *)
Lemma device_uuid_frame (v : string) s d s' :
  (if decide (v = EmptyString) then newUuidStr else let! _ := validatedUuid v in mret v) s = (Ok d, s') →
  otps s' = otps s ∧ users s' = users s ∧ devices s' = devices s ∧ (v ≠ EmptyString → d = v).
Proof.
  unfold newUuidStr, validatedUuid. intros Hr.
  destruct (decide _); [|destruct (is_uuid v)]; ran; done.
Qed.

(** A created device, step by step. *)
Lemma CreateDevice_run a w room now cuser req s r s' :
  CreateDevice a w room now cuser req s = (Ok r, s') →
  ∃ user t0 t1 t2, otps t0 = otps s ∧ users t0 = users s ∧ devices t0 = devices s ∧
    device_owner now (v_auth req) t0 = (Ok user, t1) ∧
    recreate_device cuser r.1 t1 = (Ok tt, t2) ∧ (v_uuid req ≠ EmptyString → r.1 = v_uuid req) ∧
    devices t2 !! r.1 = None ∧ otps t2 = otps t1 ∧ users t2 = users t1 ∧
    (∀ d, devices t1 !! r.1 = Some d → d_user d = cuser) ∧
    (∀ i, i ≠ r.1 → devices t2 !! i = devices t1 !! i) ∧
    signCert (v_csr req) r.1 = Ok r.2 ∧
    s' = set_devices <[r.1 := {| d_user := user; d_name := v_name req; d_enabled := true;
                                 d_cert_hash := r.2 |}]> t2.
Proof.
  unfold CreateDevice. intros Hr.
  destruct a; cbn [negb] in Hr; ran. destruct (decide (v_csr req = _)) in Hr; ran.
  apply device_uuid_frame in Hx as (? & ? & ? & ?).
  destruct (decide (x1 = _)) in Hr; ran.
  match goal with H : validatedUuid _ _ = _ |- _ => unfold validatedUuid in H; destruct (is_uuid x1); ran end.
  destruct x3. pose proof Hx1 as (? & ? & ? & ?)%recreate_device_otps.
  destruct (signCert _ _) eqn:Hsign in Hx2; ran.
  assert (t4 = t2) as -> by (destruct (decide _) in Hx3; by ran).
  unfold insert_device in Hx4. ran. destruct (_ && _) eqn:Hfree in Hx4; ran.
  apply andb_prop in Hfree as [Hfree%bool_decide_eq_true _]. by exists x1, t, t0, t2.
Qed.

(** Without a password in force the email opens nothing. *)
Lemma CreateDevice_no_otp a w room now cuser req email otp s r s' :
  v_auth req = auth_otp email otp → live_otps now email s = [] →
  CreateDevice a w room now cuser req s ≠ (Ok r, s').
Proof.
  intros Hv Hnone (user & t0 & t1 & t2 & Ho & _ & _ & Hown & _)%CreateDevice_run.
  rewrite Hv in Hown. apply device_owner_otp in Hown as (id & o & Hid & _ & He & Hn & Ht & _).
  assert ((id, o) ∈ live_otps now email s) as Hin; [|rewrite Hnone in Hin; set_solver].
  apply live_otps_spec. by rewrite <-Ho.
Qed.

(** C17: A one-time password lets in the device it was made for, once.  When
    [CreateDevice] succeeds on an email and a password, the password was
    issued to the user who has that email, at most fifteen minutes before, and
    what is stored is its hash; the device is created enabled, with the
    certificate that was signed for it, as that user's own; no other device
    changes, and a device that was there under the uuid belonged to the
    caller.  Afterwards, until a password is issued again, every
    [CreateDevice] with that email fails, whatever password it brings and
    whoever calls. *)
Theorem otp_authenticates_once a w room now cuser req email otp s r s' :
  accounts_ok s → v_auth req = auth_otp email otp →
  CreateDevice a w room now cuser req s = (Ok r, s') →
  ∃ id o u, otps s !! id = Some o ∧ users s !! o_user o = Some u ∧ u_email u = email ∧
    now - otp_ttl_minutes * 60 ≤ o_created o ∧ getOtpHash (o_user o) id otp = o_hash o ∧
    devices s' !! r.1 = Some {| d_user := o_user o; d_name := v_name req; d_enabled := true; d_cert_hash := r.2 |} ∧
    signCert (v_csr req) r.1 = Ok r.2 ∧
    (∀ d, devices s !! r.1 = Some d → d_user d = cuser) ∧
    (∀ i, i ≠ r.1 → devices s' !! i = devices s !! i) ∧
    (∀ a' w' room' now' cuser' req' otp' r' s2, v_auth req' = auth_otp email otp' →
      CreateDevice a' w' room' now' cuser' req' s' ≠ (Ok r', s2)).
Proof.
  intros Hok Hv (user & t0 & t1 & t2 & Ho & Hu & Hd & Hown & _ & _ & _ & Ho2 & _ & Hold & Hother & Hsign & ->)%CreateDevice_run.
  rewrite Hv in Hown. apply device_owner_otp in Hown as (id & o & Hid & <- & He & Hn & Ht & Hhash & ->).
  rewrite Ho in Hid. destruct (ao_otp _ Hok _ _ Hid) as (u & Hu' & Hm). rewrite He in Hm.
  cbn in Ho2, Hold, Hother. rewrite Hd in Hold, Hother. rewrite Ho in Ho2.
  exists id, o, u. split_and!; try done.
  - cbn. by rewrite lookup_insert_eq.
  - intros i Hi. cbn. rewrite lookup_insert_ne by done. by apply Hother.
  - intros a' w' room' now' cuser' req' otp' r' s2 Hv'. eapply CreateDevice_no_otp; [done|].
    apply elem_of_nil_inv. intros [j p]. rewrite live_otps_spec. cbn. rewrite Ho2.
    intros ([Hne Hp]%lookup_delete_Some & Hep & Hnp & _). apply Hne.
    destruct (ao_otp _ Hok _ _ Hp) as (v & Hv2 & Hvm).
    assert (o_user o = o_user p) as Heq by (eapply (ao_emails _ Hok); [done..|congruence]).
    by eapply (ao_one_otp _ Hok).
Qed.

(** A device that is there is never created again, pending or not: the query
    about its owner looks for a user with the uuid of the device. *)
Lemma existing_device_refused a w room now cuser req s d r s' :
  v_uuid req ≠ EmptyString → devices s !! v_uuid req = Some d → users s !! v_uuid req = None →
  CreateDevice a w room now cuser req s ≠ (Ok r, s').
Proof.
  intros Hne Hd Hu (user & t0 & t1 & t2 & _ & Eu & Ed & Hown & Hre & Hid & Hnew & _)%CreateDevice_run.
  rewrite (Hid Hne) in *.
  assert (users t1 = users t0 ∧ devices t1 = devices t0) as [Eu1 Ed1].
  { unfold device_owner in Hown. destruct (v_auth req); ran; [done|].
    destruct (negb _); ran. destruct (head _) as [[i o]|]; ran. destruct (decide _); ran. done. }
  unfold recreate_device in Hre. ran. rewrite Ed1, Ed, Hd in Hre.
  destruct (decide (d_user d ≠ cuser)); ran. rewrite Eu1, Eu, Hu in Hre. cbn in Hre. ran. by rewrite Ed1, Ed, Hd in Hnew.
Qed.

(** A password is spent by the attempt, not by the success: an unreadable
    signing request burns it. *)
Lemma failed_attempt_burns_otp w room now cuser device csr nm email otp id o s :
  accounts_ok s → is_uuid device = true → device ≠ EmptyString → csr ≠ EmptyString →
  isValidEmail email = true → w = Ok tt →
  otps s !! id = Some o → o_email o = email → o_new_device o = true →
  now - otp_ttl_minutes * 60 ≤ o_created o → getOtpHash (o_user o) id otp = o_hash o →
  is_uuid (o_user o) = true → o_user o ≠ EmptyString → devices s !! device = None →
  (∀ h, signCert csr device ≠ Ok h) →
  CreateDevice true w room now cuser
    {| v_uuid := device; v_csr := csr; v_name := nm; v_auth := auth_otp email otp |} s
  = (Throw (server_err Error.INVALID_CSR), set_otps (base.delete id) s).
Proof.
  intros Hok Hdev Hne Hcsr Hem -> Hid He Hn Ht Hhash Hus Hus0 Hnone Hsig.
  assert (live_otps now email s = [(id, o)]) as Hlive.
  { unfold live_otps.
    assert (filter (λ io : string * OtpRow, o_email io.2 = email ∧ o_new_device io.2 = true
              ∧ now - otp_ttl_minutes * 60 ≤ o_created io.2) (otps s) = {[id := o]}) as ->; [|apply map_to_list_singleton].
    apply map_eq. intros i. apply option_eq. intros p. rewrite map_lookup_filter_Some, lookup_singleton_Some.
    split; [|by intros [<- <-]]. cbn. intros (Hp & Hep & Hnp & _).
    destruct (ao_otp _ Hok _ _ Hid) as (u & Hu & Hm). destruct (ao_otp _ Hok _ _ Hp) as (v & Hv & Hvm).
    assert (o_user o = o_user p) by (eapply (ao_emails _ Hok); [done..|congruence]).
    assert (id = i) as <- by (by eapply (ao_one_otp _ Hok)). split; congruence. }
  unfold CreateDevice, device_owner, validatedUuid, recreate_device, query.
  cbn [negb v_auth v_csr v_uuid].
  rewrite !(decide_False (P := _ = EmptyString)) by done. rewrite Hdev, Hem.
  cbv [mbind Auto_bind mret Auto_ret stmt gets lift update modify negb]. cbv beta iota zeta.
  rewrite Hlive. cbn [head]. rewrite decide_True by done. cbv beta iota zeta.
  rewrite decide_False by done. rewrite Hus. cbn [devices set_otps set_tables]. rewrite Hnone.
  destruct (signCert csr device) as [h|e]; [by destruct (Hsig h)|done].
Qed.


(** ** New tenants *)

Lemma state_roundtrip st : State_Parse (toUpper (toLower (State_Name st))) = Some st.
Proof. by destruct st. Qed.

(** The lower-case name in the table is not one [State_Parse] knows. *)
Lemma state_not_parsed st : State_Parse (toLower (State_Name st)) = None.
Proof. by destruct st. Qed.

(** Meant to remove a tenant with the same name that waits for its
    activation, [remove_named] never removes anything. *)
Lemma remove_named_nothing name s : accounts_ok s → remove_named name s = (Ok tt, s).
Proof.
  intros Hs. unfold remove_named.
  cbv [mbind Auto_bind mret Auto_ret query stmt gets update modify]. cbv beta iota zeta.
  destruct (head _) as [[i t]|] eqn:Hh; [|done]. apply head_filter_Some in Hh as [Ht _].
  destruct (ao_states _ Hs _ _ Ht) as [st ->]. by rewrite state_not_parsed.
Qed.

Definition pending (t : TenantRow) : Prop := t_state t = toLower (State_Name PENDING_ACTIVATION).

(** From [s] to [s'] only tenants that waited for their activation went, and
    their users with them. *)
Record only_pending_gone (s s' : Db) : Prop := {
  og_tenants : tenants s' ⊆ tenants s;
  og_users : users s' ⊆ users s;
  og_gone i t : tenants s !! i = Some t → tenants s' !! i = Some t ∨ pending t;
  og_gone_users i u : users s !! i = Some u →
    users s' !! i = Some u ∨ ∃ t, tenants s !! u_tenant u = Some t ∧ pending t
}.

#[local] Instance only_pending_gone_refl : Reflexive only_pending_gone.
Proof. split; eauto. Qed.

#[local] Instance only_pending_gone_trans : Transitive only_pending_gone.
Proof.
  intros s1 s2 s3 [A B C D] [A' B' C' D']. split; [by etrans|by etrans|..].
  - intros i t Ht. destruct (C _ _ Ht) as [H2|]; [by apply C'|by right].
  - intros i u Hu. destruct (D _ _ Hu) as [H2|]; [|by right].
    destruct (D' _ _ H2) as [|(t & Ht & Hp)]; [by left|right]. exists t. split; [|done].
    by eapply lookup_weaken.
Qed.

Lemma delete_tenant_gone id t s :
  tenants s !! id = Some t → pending t → only_pending_gone s (delete_tenant id s).
Proof.
  intros Ht Hp. split; cbn.
  - apply delete_subseteq.
  - apply map_filter_subseteq.
  - intros i x Hx. destruct (decide (id = i)) as [<-|]; [right; by simplify_eq|left].
    by rewrite lookup_delete_ne.
  - intros i u Hu. destruct (decide (u_tenant u = id)) as [<-|Hne]; [by right; exists t|left].
    apply map_lookup_filter_Some. split; [done|]. cbn. rewrite users_of_spec. intros (v & Hv & Hv2).
    by simplify_eq.
Qed.

Lemma remove_email_gone e r s r' s' :
  accounts_ok s → remove_email e r s = (Ok r', s') → only_pending_gone s s'.
Proof.
  intros Hs Hr. unfold remove_email in Hr. ran.
  destruct (head _) as [[i u]|] in Hr; ran; [|done].
  destruct (tenants s !! u_tenant u) as [t|] eqn:Ht in Hr; ran; [|done].
  destruct (ao_states _ Hs _ _ Ht) as [st Hst]. rewrite Hst, state_roundtrip in Hr. unfold id in Hr; cbn [from_option] in Hr.
  destruct (decide (st = _)) as [->|] in Hr; ran.
  destruct (decide (_ ∈ _)) in Hr; ran; [done|]. by eapply delete_tenant_gone.
Qed.

Lemma remove_emails_gone us r s r' s' :
  accounts_ok s → remove_emails us r s = (Ok r', s') → accounts_ok s' ∧ only_pending_gone s s'.
Proof.
  revert r s. induction us as [|u us IH]; intros r s Hs Hr; cbn [remove_emails] in Hr; ran; [done|].
  pose proof (remove_email_holds (n_email u) r _ Hs) as Hok. rewrite Hx in Hok.
  destruct (IH _ _ Hok Hr) as [? ?]. split; [done|]. etrans; [|done]. by eapply remove_email_gone.
Qed.

(** The user of the tenant that a new user becomes. *)
Definition user_row (tid : string) (u : NewUser) : UserRow :=
  {| u_tenant := tid; u_name := n_name u; u_email := n_email u; u_kind := default U_REGULAR (n_kind u);
     u_active := default true (n_active u) |}.

Lemma uuid_or_new_tables v s id s' :
  uuid_or_new v s = (Ok id, s') → users s' = users s ∧ tenants s' = tenants s.
Proof. unfold uuid_or_new, newUuidStr. intros Hr. destruct (decide _) in Hr; by ran. Qed.

Lemma create_user_run tid k u s x s' :
  create_user tid k u s = (Ok x, s') →
  tenants s' = tenants s ∧ ¬ (n_kind u = Some U_SUPER ∧ k = T_SUPER) ∧
  ∃ uid, users s !! uid = None ∧ users s' = <[uid := user_row tid u]> (users s).
Proof.
  unfold create_user, insert_user. intros Hr. ran.
  apply uuid_or_new_tables in Hx as [Hu Ht].
  match goal with H : (if ?b then _ else _) _ = _ |- _ => destruct b eqn:Hfree; ran end.
  apply andb_prop in Hfree as [[Hnew%bool_decide_eq_true _]%andb_prop _].
  assert (t0 = t ∧ x1 = default U_REGULAR (n_kind u) ∧ ¬ (n_kind u = Some U_SUPER ∧ k = T_SUPER)) as (-> & -> & Hk).
  { destruct (n_kind u) as [[]|]; [destruct (decide (k = T_SUPER))|..]; ran; naive_solver. }
  split_and!; [done|done|]. exists x0. rewrite <-Hu. done.
Qed.

Lemma create_users_run tid k us s x s' :
  create_users tid k us s = (Ok x, s') →
  tenants s' = tenants s ∧ users s ⊆ users s' ∧
  (∀ u, u ∈ us → n_kind u = Some U_SUPER → k ≠ T_SUPER) ∧
  (∀ u, u ∈ us → ∃ uid, users s' !! uid = Some (user_row tid u)) ∧
  (∀ i v, users s' !! i = Some v → users s !! i = Some v ∨ ∃ u, u ∈ us ∧ v = user_row tid u).
Proof.
  revert s. induction us as [|u us IH]; intros s Hr; cbn [create_users] in Hr; ran.
  { split_and!; [done|done|set_solver|set_solver|by left]. }
  apply create_user_run in Hx as (Ht & Hk & uid & Hnew & Hu).
  destruct (IH _ Hr) as (Ht' & Hsub & Hk' & Hall & Hcome). rewrite Hu in Hsub, Hcome.
  split_and!; [congruence|..].
  - etrans; [by apply insert_subseteq|done].
  - intros v [->|Hv]%elem_of_cons; [by intros ? ->; apply Hk|by apply Hk'].
  - intros v [->|Hv]%elem_of_cons; [|by apply Hall]. exists uid. eapply lookup_weaken; [|done].
    apply lookup_insert_eq.
  - intros i v [[[_ <-]|[_ Hv]]%lookup_insert_Some|(w & Hw & ->)]%Hcome.
    + right. exists u. by split; [left|].
    + by left.
    + right. exists w. by split; [right|].
Qed.

Definition plan_of (signup_plan : option (result string)) : option string :=
  match signup_plan with Some (Ok p) => Some p | _ => None end.

(** What a successful [CreateTenant] does: the tenant has the name, the
    state and the plan that were asked for (a guest unless a kind was given)
    and every user that was asked for exists in it, a regular and active one
    where nothing was said; nobody else is added; the tenants that went, with
    their users, were all waiting for their activation; and a [SUPER] user was
    accepted only outside a [SUPER] tenant. *)
Theorem CreateTenant_creates plan req s tid s' :
  accounts_ok s → CreateTenant plan req s = (Ok tid, s') →
  tenants s' !! tid = Some {| t_name := c_name req; t_kind := default T_GUEST (c_kind req);
                              t_state := toLower (State_Name (c_state req)); t_plan := plan_of plan |} ∧
  (∀ u, u ∈ c_users req → ∃ uid, users s' !! uid = Some (user_row tid u)) ∧
  (∀ i v, users s' !! i = Some v → users s !! i = Some v ∨ ∃ u, u ∈ c_users req ∧ v = user_row tid u) ∧
  (∀ i t, tenants s' !! i = Some t → i = tid ∨ tenants s !! i = Some t) ∧
  (∀ i t, tenants s !! i = Some t → tenants s' !! i = Some t ∨ pending t) ∧
  (∀ i u, users s !! i = Some u → users s' !! i = Some u ∨ ∃ t, tenants s !! u_tenant u = Some t ∧ pending t) ∧
  (∀ u, u ∈ c_users req → n_kind u = Some U_SUPER → c_kind req ≠ Some T_SUPER).
Proof.
  intros Hs Hr. unfold CreateTenant in Hr. destruct (check_tenant req); ran.
  pose proof (uuid_or_new_holds (c_uuid req) s Hs) as Hs1. rewrite Hx in Hs1. cbn in Hs1.
  apply uuid_or_new_tables in Hx as [Eu Et].
  rewrite remove_named_nothing in Hx0 by done. simplify_eq.
  apply remove_emails_gone in Hx1 as [_ [Gt Gu Gg Ggu]]; [|done]. rewrite ?Eu, ?Et in *.
  assert (t4 = t1 ∧ x4 = plan_of plan) as [-> ->] by (destruct plan as [[]|]; by ran).
  assert (tenants t3 = tenants t2 ∧ users t3 = users t2) as [-> ->] by (destruct (bool_decide _) in Hx3; by ran).
  unfold insert_tenant in Hx5. ran. destruct (_ && _) eqn:Hfree in Hx5; ran.
  apply andb_prop in Hfree as [Hnew%bool_decide_eq_true _].
  apply create_users_run in Hx2 as (-> & Hsub & Hk & Hall & Hcome). cbn in Hsub, Hcome |- *.
  split_and!; [apply lookup_insert_eq|done|..].
  - intros i v [Hv|]%Hcome; [left; by eapply lookup_weaken|by right].
  - intros i t [[<- _]|[_ Ht]]%lookup_insert_Some; [by left|right; by eapply lookup_weaken].
  - intros i t [Ht|]%Gg; [left|by right]. rewrite lookup_insert_ne; [done|]. by intros ->; simplify_eq.
  - intros i u [Hu|]%Ggu; [left; by eapply lookup_weaken|by right].
  - intros u Hu Hsup Hc. apply (Hk _ Hu Hsup). by rewrite Hc.
Qed.

(** ** Settings and the last notification read *)

(** What the user set is not what the user is then told: the cached id is not
    written by [SetLastReadNotification], and wins over the table. *)
Lemma last_read_stale cuser m n s :
  cached_read s !! cuser = Some m → 0 < m →
  (GetLastReadNotification cuser (SetLastReadNotification true cuser n s).2).1 = Ok m.
Proof.
  intros Hc Hm. unfold SetLastReadNotification, GetLastReadNotification, cached.
  cbv [mbind Auto_bind mret Auto_ret query stmt gets update modify negb]. cbn.
  rewrite Hc, (proj2 (Z.ltb_lt _ _) Hm). done.
Qed.

(** The rows add up: every id that was ever set is kept, and the first of them
    is what is read back. *)
Lemma last_read_accumulates cuser n m s :
  let s' := (SetLastReadNotification true cuser m (SetLastReadNotification true cuser n s).2).2 in
  ∃ ids, last_read s' !! cuser = Some ids ∧ n ∈ ids ∧ m ∈ ids.
Proof.
  unfold SetLastReadNotification. cbv [mbind Auto_bind mret Auto_ret query stmt gets update modify negb]. cbn.
  rewrite !lookup_insert_eq. cbn. eexists. split; [done|]. set_solver.
Qed.

(** Every change of the settings is published as an addition. *)
Lemma settings_always_added cuser r s x s' :
  SetUserGlobalSettings cuser r s = (Ok x, s') →
  ∃ v, settings s' !! cuser = Some (g_blob r, v) ∧ effects s' = effects s ++ [settingsAdded (g_blob r) v] ∧
    match settings s !! cuser with Some (_, old) => v = old + 1 ∧ old ≤ g_version r | None => v = 1 end.
Proof.
  unfold SetUserGlobalSettings, saveUserGlobalSettings. intros Hr.
  destruct (negb _) in Hr; ran. destruct (default _ _) eqn:Hconf in Hr; ran.
  destruct (users s !! cuser) as [u|]; ran.
  destruct (settings _ !! cuser) as [[b v]|] eqn:Hrow in Hr; ran.
  cbn in Hrow |- *. rewrite lookup_insert_eq in Hrow |- *. injection Hrow as <- <-.
  eexists. split_and!; [done|done|]. destruct (settings s !! cuser) as [[b v]|]; [|done].
  cbn in Hconf. apply Z.ltb_ge in Hconf. lia.
Qed.

End accounts.

(** ** A concrete run: a tenant is made, a password issued and used *)
Module Example_accounts.

#[export] Instance env : Env :=
  {| sha256 := λ s, ("h:" ++ s)%string;
     signCert := λ csr dev, if bool_decide (csr = "csr"%string) then Ok ("c:" ++ dev)%string else Throw runtime_error;
     is_uuid := λ s, bool_decide (s ≠ EmptyString);
     newUuid := λ n, String (ascii_of_nat (97 + n)) "id";
     first_row := λ ids, foldr Z.min (2 ^ 31) (elements ids) |}.

(** The addresses of the unit test of [isValidEmail]. *)
Example emails :
  isValidEmail <$> ["acceptance_user@example.test"; "acceptance-user@example.test";
                    "user.name+tag@example.co.uk"; "plainaddress"; "user@@example.test"; "user@example"]%string
  = [true; true; true; false; false; false].
Proof. by vm_compute. Qed.

Definition ann : NewUser :=
  {| n_uuid := EmptyString; n_name := "Ann"; n_email := "ann@x.org"; n_kind := Some U_SUPER; n_active := None |}.

Definition acme (k : TKind) (st : TState) : CreateTenantReq :=
  {| has_tenant := true; c_uuid := EmptyString; c_name := "Acme"; c_kind := Some k; c_state := st; c_users := [ann] |}.

(** The rule about super users: refused where it should be allowed, allowed
    where it should be refused. *)
Example super_refused_in_super :
  (CreateTenant None (acme T_SUPER ACTIVE) empty_db).1 = Throw (server_err Error.PERMISSION_DENIED).
Proof. by vm_compute. Qed.

Definition db1 : Db := (CreateTenant None (acme T_REGULAR ACTIVE) empty_db).2.

Example super_allowed_in_regular :
  (CreateTenant None (acme T_REGULAR ACTIVE) empty_db).1 = Ok "aid"%string ∧
  (u_kind <$> users db1 !! "bid"%string) = Some U_SUPER.
Proof. by vm_compute. Qed.

(** A pending tenant keeps its name: the new tenant fails on the index. *)
Example pending_keeps_its_name :
  let s := (CreateTenant None (acme T_REGULAR PENDING_ACTIVATION) empty_db).2 in
  let req := {| has_tenant := true; c_uuid := EmptyString; c_name := "Acme"; c_kind := None; c_state := ACTIVE;
                c_users := [] |} in
  (CreateTenant None req s).1 = Throw runtime_error.
Proof. by vm_compute. Qed.

(** With the email in use the pending tenant does go. *)
Example pending_gives_up_its_email :
  let s := (CreateTenant None (acme T_REGULAR PENDING_ACTIVATION) empty_db).2 in
  (CreateTenant None (acme T_GUEST ACTIVE) s).1 = Ok "cid"%string.
Proof. by vm_compute. Qed.

Definition db2 : Db := (GetOtpForNewDevice 1000 "12345678" "bid" db1).2.

Definition phone (otp : string) : CreateDeviceReq :=
  {| v_uuid := "phone"; v_csr := "csr"; v_name := "Phone"; v_auth := auth_otp "ann@x.org" otp |}.

(** Too late, wrong, right, and again. *)
Example otp_runs :
  let go := λ now otp s, CreateDevice true (Ok tt) (Ok tt) now "admin" (phone otp) s in
  (go 1901 "12345678" db2)%string.1 = Throw (server_err Error.AUTH_FAILED) ∧
  (go 1100 "87654321" db2)%string.1 = Throw (server_err Error.AUTH_FAILED) ∧
  (go 1900 "12345678" db2)%string.1 = Ok ("phone", "c:phone")%string ∧
  (go 1900 "12345678" (go 1900 "12345678" db2).2)%string.1 = Throw (server_err Error.AUTH_FAILED).
Proof. by vm_compute. Qed.

(** In the order of the index, the oldest id that was read is what is told. *)
Example oldest_is_last_read :
  let s := (SetLastReadNotification true "bid" 9 (SetLastReadNotification true "bid" 5 db1).2).2 in
  (GetLastReadNotification "bid" s).1 = Ok 5.
Proof. by vm_compute. Qed.

Lemma ran_Ok {A} (m : Auto Db A) s a : (m s).1 = Ok a → m s = (Ok a, (m s).2).
Proof. destruct (m s). by intros [= ->]. Qed.

Lemma db2_ok : accounts_ok db2.
Proof.
  exact (call_ok (getOtpForNewDevice 1000 "12345678" "bid") _
    (call_ok (createTenant None (acme T_REGULAR ACTIVE)) _ empty_ok)).
Qed.

End Example_accounts.

Import Example_accounts.

Lemma CreateTenant_creates_witness :
  accounts_ok empty_db ∧ (∃ uid, users db1 !! uid = Some (user_row "aid" ann)).
Proof.
  split; [apply empty_ok|].
  assert (CreateTenant None (acme T_REGULAR ACTIVE) empty_db = (Ok "aid"%string, db1)) as Hr
    by (apply ran_Ok; vm_compute; reflexivity).
  refine (proj1 (proj2 (CreateTenant_creates _ _ _ _ _ empty_ok Hr)) ann _). by left.
Defined.

Lemma otp_authenticates_once_witness :
  accounts_ok db2 ∧ ∃ id o u, otps db2 !! id = Some o ∧ users db2 !! o_user o = Some u ∧ u_email u = "ann@x.org"%string.
Proof.
  split; [apply db2_ok|].
  assert (CreateDevice true (Ok tt) (Ok tt) 1100 "admin" (phone "12345678") db2 =
          (Ok ("phone", "c:phone")%string, (CreateDevice true (Ok tt) (Ok tt) 1100 "admin" (phone "12345678") db2).2))
    as Hr by (apply ran_Ok; vm_compute; reflexivity).
  destruct (otp_authenticates_once _ _ _ _ _ (phone "12345678") "ann@x.org" "12345678" _ _ _ db2_ok eq_refl Hr)
    as (id & o & u & Ho & Hu & Hm & _).
  exists id, o, u. auto.
Defined.
