(* ===== verification/DbStore.v ===== *)
(** * The local database of the client

    NextAppUi/DbStore.cpp: the exclusive transactions of the coroutines of the
    main thread over the queue of the worker thread
    ([waitForTransactionAccess], [beginExclusiveTransaction],
    [commitExclusiveTransaction], [rollbackExclusiveTransaction],
    [runQueryInWorker], [clear]), the swap of the database file
    ([replaceWithDatabaseFile]) and the upgrade of the schema
    ([createDbObject], [updateSchema]).

    The content of the database and what statements do are given, as are the
    outcomes SQLite and the file system have; an open SQL transaction is the
    statements that were executed in it.  A check and what it lets be queued
    are one step, as on the main thread. *)
From S2P Require Import Prelude.
From stdpp Require Import relations.
Local Open Scope nextapp_scope.

(** ** Exclusive transactions *)
Section transactions.
Context {D : Type}.

(** A statement: the new content, or [None] when it fails. *)
Definition Stmt : Type := D → option D.
Definition apply (q : Stmt) (d : D) : D := default d (q d).

(** What is queued for the worker thread; [who] is the token a statement was
    submitted with.  [REPLACE] is the swap of the file or [clear], which take
    no notice of tokens. *)
Inductive Job :=
| BEGIN (t : nat)
| COMMIT (t : nat)
| ROLLBACK (t : nat)
| QUERY (who : option nat) (q : Stmt)
| REPLACE (d : D).

(** What the worker answers to the coroutine that waits. *)
Inductive Answer :=
| begun (t : nat) (ok : bool)
| ended (t : nat) (ok : bool).

Record Store := {
  active_transaction_token : option nat;
  next_transaction_token : nat;
  granted : gset nat;                          (* the tokens that were returned *)
  jobs : list Job;
  answers : list Answer;
  disk : D;
  open : option (list (option nat * Stmt))     (* the open SQL transaction *)
}.

Definition set_token (t : option nat) (s : Store) : Store :=
  {| active_transaction_token := t; next_transaction_token := next_transaction_token s; granted := granted s;
     jobs := jobs s; answers := answers s; disk := disk s; open := open s |}.
Definition enqueue (j : Job) (s : Store) : Store :=
  {| active_transaction_token := active_transaction_token s; next_transaction_token := next_transaction_token s;
     granted := granted s; jobs := jobs s ++ [j]; answers := answers s; disk := disk s; open := open s |}.
Definition set_db (d : D) (o : option (list (option nat * Stmt))) (s : Store) : Store :=
  {| active_transaction_token := active_transaction_token s; next_transaction_token := next_transaction_token s;
     granted := granted s; jobs := jobs s; answers := answers s; disk := d; open := o |}.
Definition set_jobs (l : list Job) (a : list Answer) (s : Store) : Store :=
  {| active_transaction_token := active_transaction_token s; next_transaction_token := next_transaction_token s;
     granted := granted s; jobs := l; answers := a; disk := disk s; open := open s |}.

(** The calls; [None]: the caller waits, or is refused. *)
Definition waitForTransactionAccess (who : option nat) (s : Store) : bool :=
  match active_transaction_token s with
  | None => true
  | Some t => bool_decide (who = Some t)
  end.

Definition runQuery (who : option nat) (q : Stmt) (s : Store) : option Store :=
  if waitForTransactionAccess who s then Some (enqueue (QUERY who q) s) else None.

Definition beginExclusiveTransaction (s : Store) : option Store :=
  match active_transaction_token s with
  | Some _ => None
  | None =>
      let t := next_transaction_token s in
      Some (enqueue (BEGIN t)
        {| active_transaction_token := Some t; next_transaction_token := S t; granted := granted s;
           jobs := jobs s; answers := answers s; disk := disk s; open := open s |})
  end.

Definition endExclusiveTransaction (j : nat → Job) (t : nat) (s : Store) : option Store :=
  if decide (active_transaction_token s = Some t) then Some (enqueue (j t) s) else None.
Definition commitExclusiveTransaction : nat → Store → option Store := endExclusiveTransaction COMMIT.
Definition rollbackExclusiveTransaction : nat → Store → option Store := endExclusiveTransaction ROLLBACK.

(** How SQLite fares: done, or failed, and then whether the transaction is
    still open. *)
Inductive Outcome := succeeded | failed (still_open : bool).

(** What reaches the disk in one go. *)
Inductive Event :=
| executed (who : option nat) (q : Stmt)               (* outside a transaction *)
| committed (t : nat) (l : list (option nat * Stmt))   (* the end of [t]'s *)
| replaced (d : D).

Definition run_unit (l : list (option nat * Stmt)) (d : D) : D := foldl (λ d wq, apply wq.2 d) d l.

Definition happen (d : D) (e : Event) : D :=
  match e with executed _ q => apply q d | committed _ l => run_unit l d | replaced d => d end.

(** One job of the worker: the database, the answer, the events. *)
Definition close_transaction (o : Outcome) (commit : option nat) (s : Store) : Store * bool * list Event :=
  match open s with
  | None => (s, false, [])
  | Some l =>
      match o with
      | succeeded =>
          match commit with
          | Some t => (set_db (run_unit l (disk s)) None s, true, [committed t l])
          | None => (set_db (disk s) None s, true, [])
          end
      | failed still => (set_db (disk s) (if still then Some l else None) s, false, [])
      end
  end.

Definition exec (o : Outcome) (j : Job) (s : Store) : Store * option Answer * list Event :=
  match j with
  | BEGIN t =>
      match open s, o with
      | None, succeeded => (set_db (disk s) (Some []) s, Some (begun t true), [])
      | _, _ => (s, Some (begun t false), [])
      end
  | COMMIT t => let '(s, ok, es) := close_transaction o (Some t) s in (s, Some (ended t ok), es)
  | ROLLBACK t => let '(s, ok, es) := close_transaction o None s in (s, Some (ended t ok), es)
  | QUERY who q =>
      match o with
      | failed _ => (s, None, [])
      | succeeded =>
          match open s with
          | Some l => (set_db (disk s) (Some (l ++ [(who, q)])) s, None, [])
          | None => (set_db (apply q (disk s)) None s, None, [executed who q])
          end
      end
  | REPLACE d => (set_db d None s, None, [replaced d])
  end.

Definition work (o : Outcome) (s : Store) : option (Store * list Event) :=
  match jobs s with
  | [] => None
  | j :: js =>
      let '(s', a, es) := exec o j s in
      Some (set_jobs js (answers s ++ option_list a) s', es)
  end.

(** The coroutine goes on with its answer. *)
Definition release (t : nat) (s : Store) : Store :=
  if decide (active_transaction_token s = Some t) then set_token None s else s.

Definition receive (a : Answer) (s : Store) : Store :=
  match a with
  | begun t true =>
      {| active_transaction_token := active_transaction_token s; next_transaction_token := next_transaction_token s;
         granted := {[t]} ∪ granted s; jobs := jobs s; answers := answers s; disk := disk s; open := open s |}
  | begun t false => release t s
  | ended t _ => release t s
  end.

(** A step of the store; a token is known to those it was returned to. *)
Inductive step (outcomes : Outcome → Prop) : Store → list Event → Store → Prop :=
| step_query who q s s' :
    (∀ t, who = Some t → t ∈ granted s) → runQuery who q s = Some s' → step outcomes s [] s'
| step_begin s s' : beginExclusiveTransaction s = Some s' → step outcomes s [] s'
| step_commit t s s' : t ∈ granted s → commitExclusiveTransaction t s = Some s' → step outcomes s [] s'
| step_rollback t s s' : t ∈ granted s → rollbackExclusiveTransaction t s = Some s' → step outcomes s [] s'
| step_replace d s : step outcomes s [] (enqueue (REPLACE d) s)
| step_work o s s' es : outcomes o → work o s = Some (s', es) → step outcomes s es s'
| step_receive a l1 l2 s :
    answers s = l1 ++ a :: l2 → step outcomes s [] (receive a (set_jobs (jobs s) (l1 ++ l2) s)).

Inductive steps (outcomes : Outcome → Prop) : Store → list Event → Store → Prop :=
| steps_none s : steps outcomes s [] s
| steps_more s es s' es' s'' :
    step outcomes s es s' → steps outcomes s' es' s'' → steps outcomes s (es ++ es') s''.

Definition fresh (d : D) : Store :=
  {| active_transaction_token := None; next_transaction_token := 1; granted := ∅; jobs := []; answers := [];
     disk := d; open := None |}.

(** An end of a transaction that fails does not leave it open. *)
Definition closing (o : Outcome) : Prop := o ≠ failed true.

(** A run, step by step, for concrete examples. *)
Inductive Move :=
| m_query (who : option nat) (q : Stmt) | m_begin | m_commit (t : nat) | m_rollback (t : nat) | m_replace (d : D)
| m_work (o : Outcome) | m_receive (n : nat).

Definition move (m : Move) (s : Store) : option (Store * list Event) :=
  match m with
  | m_query who q =>
      if match who with Some t => bool_decide (t ∈ granted s) | None => true end
      then (λ s, (s, [])) <$> runQuery who q s else None
  | m_begin => (λ s, (s, [])) <$> beginExclusiveTransaction s
  | m_commit t => if decide (t ∈ granted s) then (λ s, (s, [])) <$> commitExclusiveTransaction t s else None
  | m_rollback t => if decide (t ∈ granted s) then (λ s, (s, [])) <$> rollbackExclusiveTransaction t s else None
  | m_replace d => Some (enqueue (REPLACE d) s, [])
  | m_work o => work o s
  | m_receive n =>
      match answers s !! n with
      | Some a => Some (receive a (set_jobs (jobs s) (take n (answers s) ++ drop (S n) (answers s)) s), [])
      | None => None
      end
  end.

Fixpoint play (ms : list Move) (s : Store) : option (Store * list Event) :=
  match ms with
  | [] => Some (s, [])
  | m :: ms =>
      match move m s with
      | Some (s, es) => (λ r : Store * list Event, (r.1, es ++ r.2)) <$> play ms s
      | None => None
      end
  end.

Lemma move_step outcomes m s s' es :
  (∀ o, m = m_work o → outcomes o) → move m s = Some (s', es) → step outcomes s es s'.
Proof.
  intros Ho Hm. destruct m as [who q| |t|t|d|o|n]; cbn -[work] in Hm.
  - destruct who as [t|]; [case_bool_decide as Ht; [|done]|];
      (destruct (runQuery _ q s) eqn:E; [|done]; injection Hm as <- <-; eapply step_query; [|done]);
      [by intros ? [= <-]|done].
  - destruct (beginExclusiveTransaction s) eqn:E; [|done]. injection Hm as <- <-. by apply step_begin.
  - destruct (decide _); [|done]. destruct (commitExclusiveTransaction t s) eqn:E; [|done]. injection Hm as <- <-.
    by eapply step_commit.
  - destruct (decide _); [|done]. destruct (rollbackExclusiveTransaction t s) eqn:E; [|done]. injection Hm as <- <-.
    by eapply step_rollback.
  - injection Hm as <- <-. apply step_replace.
  - eapply step_work; [by apply Ho|done].
  - destruct (answers s !! n) as [a|] eqn:Ha; [|done]. injection Hm as <- <-. apply step_receive.
    by rewrite take_drop_middle.
Qed.

Lemma play_steps outcomes ms s s' es :
  Forall (λ m, ∀ o, m = m_work o → outcomes o) ms → play ms s = Some (s', es) → steps outcomes s es s'.
Proof.
  intros Hms. revert s es. induction Hms as [|m ms Hm _ IH]; intros s es Hp; cbn in Hp.
  { injection Hp as <- <-. constructor. }
  destruct (move m s) as [[s1 es1]|] eqn:Em; [|done]. destruct (play ms s1) as [[s2 es2]|] eqn:Ep; [|done].
  injection Hp as <- <-. econstructor; [by eapply move_step|by apply IH].
Qed.

(** *** Who may be in the open transaction when a job is done *)
Fixpoint in_turn (owner : option nat) (js : list Job) : Prop :=
  match js with
  | [] => True
  | QUERY who _ :: js => (owner = None ∨ who = owner) ∧ in_turn owner js
  | BEGIN t :: js => owner = None ∧ in_turn (Some t) js
  | COMMIT t :: js | ROLLBACK t :: js => (owner = None ∨ owner = Some t) ∧ in_turn None js
  | REPLACE _ :: js => in_turn None js
  end.

(** ... and when all are done. *)
Fixpoint last_owner (owner : option nat) (js : list Job) : option nat :=
  match js with
  | [] => owner
  | QUERY _ _ :: js => last_owner owner js
  | BEGIN t :: js => last_owner (Some t) js
  | COMMIT _ :: js | ROLLBACK _ :: js | REPLACE _ :: js => last_owner None js
  end.

Definition begins (js : list Job) : list nat := omap (λ j, match j with BEGIN t => Some t | _ => None end) js.

Definition owned (s : Store) (o : option nat) : Prop :=
  match open s with
  | None => o = None
  | Some l => ∃ t, o = Some t ∧ Forall (λ wq, wq.1 = Some t) l
  end.

(** The answers that give the token back. *)
Definition gives_back (a : Answer) : option nat :=
  match a with begun t true => None | begun t false => Some t | ended t _ => Some t end.

Definition token_of (a : Answer) : nat := match a with begun t _ => t | ended t _ => t end.

Record store_ok (s : Store) : Prop := {
  so_owner : ∃ o, owned s o ∧ in_turn o (jobs s) ∧
                  (last_owner o (jobs s) = None ∨ last_owner o (jobs s) = active_transaction_token s) ∧
                  (∀ a t, a ∈ answers s → gives_back a = Some t → active_transaction_token s = Some t →
                    last_owner o (jobs s) = None);
  so_begins : begins (jobs s) = [] ∨ ∃ t, begins (jobs s) = [t] ∧ active_transaction_token s = Some t;
  so_given a t : a ∈ answers s → token_of a = t → active_transaction_token s = Some t → begins (jobs s) = [];
  so_pending t : t ∈ begins (jobs s) → t ∉ granted s;
  so_ends t : COMMIT t ∈ jobs s ∨ ROLLBACK t ∈ jobs s → t ∈ granted s;
  so_fresh t : active_transaction_token s = Some t ∨ t ∈ granted s ∨ (∃ a, a ∈ answers s ∧ token_of a = t) →
               t < next_transaction_token s;
  so_holder t : active_transaction_token s = Some t →
                t ∈ begins (jobs s) ∨ (∃ ok, begun t ok ∈ answers s) ∨ t ∈ granted s
}.

(** *** The queue *)
Lemma in_turn_none o js : in_turn o js → in_turn None js.
Proof. revert o. induction js as [|[] js IH]; intros o; cbn; naive_solver. Qed.

Lemma in_turn_app o js ks : in_turn o (js ++ ks) ↔ in_turn o js ∧ in_turn (last_owner o js) ks.
Proof. revert o. induction js as [|[] js IH]; intros o; cbn; rewrite ?IH; naive_solver. Qed.

Lemma last_owner_app o js ks : last_owner o (js ++ ks) = last_owner (last_owner o js) ks.
Proof. revert o. induction js as [|[] js IH]; intros o; cbn; by rewrite ?IH. Qed.

Lemma begins_app js ks : begins (js ++ ks) = begins js ++ begins ks.
Proof. apply omap_app. Qed.

Lemma last_owner_no_begin js : begins js = [] → last_owner None js = None.
Proof. induction js as [|[] js IH]; cbn; naive_solver. Qed.

(** What a unit is: the statements of a transaction are its holder's. *)
Definition unit_ok (e : Event) : Prop :=
  match e with committed t l => Forall (λ wq, wq.1 = Some t) l | _ => True end.

Lemma fresh_ok d : store_ok (fresh d).
Proof.
  split; cbn; set_solver.
Qed.

(** A job goes to the end of the queue. *)
Lemma enqueue_ok j s :
  store_ok s → begins [j] = [] →
  (∀ o, last_owner o (jobs s) = None ∨ last_owner o (jobs s) = active_transaction_token s →
     in_turn (last_owner o (jobs s)) [j]) →
  (∀ t, j = COMMIT t ∨ j = ROLLBACK t → t ∈ granted s) →
  store_ok (enqueue j s).
Proof.
  intros [(o & Ho & Hin & Hlast & Hback) Hb Hg Hp He Hf Hh] Hj Hturn Hend.
  assert (Hl : last_owner (last_owner o (jobs s)) [j] = last_owner o (jobs s)
               ∨ last_owner (last_owner o (jobs s)) [j] = None) by (destruct j; cbn in *; auto; done).
  split; cbn -[begins last_owner in_turn]; rewrite ?begins_app, ?Hj, ?app_nil_r; try done.
  - exists o. rewrite in_turn_app, last_owner_app. split_and!; [done|done|by apply Hturn| |].
    + destruct Hl as [->| ->]; [done|by left].
    + intros a t Ha Hga Hat. destruct Hl as [->| ->]; [by eapply Hback|done].
  - intros t. rewrite !elem_of_app, !list_elem_of_singleton. intros [[|Hc]|[|Hc]]; [apply He; by left|..|apply He; by right|];
      apply Hend; [by left|by right].
Qed.

Lemma query_ok who q s s' : store_ok s → runQuery who q s = Some s' → store_ok s'.
Proof.
  unfold runQuery, waitForTransactionAccess. intros Hs Hr.
  destruct (match active_transaction_token s with Some t => _ | None => _ end) eqn:Hacc; [|done]. injection Hr as <-.
  apply enqueue_ok; [done|done| |by intros t [|]].
  intros o Ho. cbn. split; [|done]. destruct (active_transaction_token s) as [t|]; [|by left; destruct Ho].
  apply bool_decide_eq_true in Hacc as ->. destruct Ho as [->| ->]; auto.
Qed.

Lemma end_ok (j : nat → Job) t s s' :
  (j = COMMIT ∨ j = ROLLBACK) → store_ok s → t ∈ granted s → endExclusiveTransaction j t s = Some s' → store_ok s'.
Proof.
  unfold endExclusiveTransaction. intros Hj Hs Ht Hr. destruct (decide _) as [Hact|]; [|done]. injection Hr as <-.
  apply enqueue_ok; [done|by destruct Hj as [->| ->]| |].
  - intros o Ho. rewrite Hact in Ho. destruct Hj as [->| ->]; cbn; (split; [naive_solver|done]).
  - intros t'. destruct Hj as [->| ->]; by intros [[= ->]|[= ->]].
Qed.

Lemma replace_ok d s : store_ok s → store_ok (enqueue (REPLACE d) s).
Proof. intros Hs. apply enqueue_ok; [done|done|done|by intros t [|]]. Qed.

Lemma begin_ok s s' : store_ok s → beginExclusiveTransaction s = Some s' → store_ok s'.
Proof.
  unfold beginExclusiveTransaction. intros [(o & Ho & Hin & Hlast & Hback) Hb Hg Hp He Hf Hh] Hr.
  destruct (active_transaction_token s) as [|] eqn:Hact; [done|]. injection Hr as <-.
  assert (last_owner o (jobs s) = None) as Hnone by naive_solver.
  assert (begins (jobs s) = []) as Hnob by naive_solver.
  split; cbn -[begins last_owner in_turn]; rewrite ?begins_app, ?Hnob.
  - exists o. rewrite in_turn_app, last_owner_app, Hnone. split_and!; [done|done|done|by right|].
    intros a t Ha Hga [= <-]. exfalso.
    assert (next_transaction_token s < next_transaction_token s); [|lia].
    apply Hf. right. right. exists a. split; [done|]. by destruct a as [? []|]; cbn in *; simplify_eq.
  - right. by eexists.
  - intros a t Ha <- [= Heq]. assert (token_of a < next_transaction_token s); [|lia]. apply Hf. eauto.
  - intros t ->%list_elem_of_singleton Hgr. assert (next_transaction_token s < next_transaction_token s); [|lia].
    apply Hf. auto.
  - intros t. rewrite !elem_of_app, !list_elem_of_singleton. intros [[|]|[|]]; [apply He; by left|done|apply He; by right|done].
  - intros t [[= <-]|Ht]; [lia|]. assert (t < next_transaction_token s); [|lia]. apply Hf. naive_solver.
  - intros t [= <-]. left. by left.
Qed.

Lemma receive_ok a l1 l2 s :
  store_ok s → answers s = l1 ++ a :: l2 → store_ok (receive a (set_jobs (jobs s) (l1 ++ l2) s)).
Proof.
  intros [(o & Ho & Hin & Hlast & Hback) Hb Hg Hp He Hf Hh] Hans.
  assert (Hsub : ∀ b, b ∈ l1 ++ l2 → b ∈ answers s) by (rewrite Hans; set_solver).
  assert (Ha : a ∈ answers s) by (rewrite Hans; set_solver).
  assert (Hor : ∀ b, b ∈ answers s → b = a ∨ b ∈ l1 ++ l2) by (rewrite Hans; set_solver).
  assert (Hrel : gives_back a = Some (token_of a) →
    store_ok (release (token_of a) (set_jobs (jobs s) (l1 ++ l2) s))).
  { intros Hga. unfold release. cbn. destruct (decide _) as [Hact|Hact].
    - assert (begins (jobs s) = []) as Hnob by by eapply Hg.
      assert (last_owner o (jobs s) = None) as Hnone by by eapply Hback.
      split; cbn -[begins last_owner in_turn]; rewrite ?Hnob.
      + exists o. split_and!; auto.
      + by left.
      + done.
      + set_solver.
      + done.
      + intros t [|[|(b & Hbin & Htb)]]; [done|by auto|]. apply Hf. right. right. exists b. auto.
      + done.
    - split; cbn -[begins last_owner in_turn]; try done.
      + exists o. split_and!; auto. intros b t Hbin. apply Hback. by apply Hsub.
      + intros b t Hbin. apply Hg. by apply Hsub.
      + intros t [|[|(b & Hbin & Htb)]]; apply Hf; [auto|auto|right; right; exists b; auto].
      + intros t Ht. destruct (Hh t Ht) as [|[[ok Hok]|]]; [by left| |by right; right].
        right. left. exists ok. destruct (Hor _ Hok) as [<-|]; [|done]. by cbn in *. }
  destruct a as [t []|t ok]; cbn in Hrel |- *; [|by apply Hrel..].
  assert (t ∉ begins (jobs s)) as Hnb.
  { intros Hin'. destruct Hb as [Hb|(t' & Hb & Hact)]; rewrite Hb in Hin'; [set_solver|].
    apply list_elem_of_singleton in Hin' as ->. by rewrite (Hg _ t' Ha eq_refl Hact) in Hb. }
  split; cbn -[begins last_owner in_turn]; try done.
  - exists o. split_and!; auto. intros b t' Hbin. apply Hback. auto.
  - intros b t' Hbin. apply Hg. auto.
  - intros t' Ht'. pose proof (Hp t' Ht'). set_solver.
  - intros t' Ht'. pose proof (He t' Ht'). set_solver.
  - intros t' [Ht'|[Ht'|(b & Hbin & Htb)]]; apply Hf; [by left| |right; right; exists b; auto].
    apply elem_of_union in Ht' as [->%elem_of_singleton|]; [|by auto]. right. right. by exists (begun t true).
  - intros t' Ht'. destruct (Hh t' Ht') as [|[[ok Hok]|]]; [by left| |set_solver].
    destruct (Hor _ Hok) as [[= -> ->]|]; [set_solver|]. right. left. by exists ok.
Qed.


Lemma no_more js t : begins js ≠ t :: begins js.
Proof. intros Ht%(f_equal length). cbn in Ht. lia. Qed.

(** What a job leaves is in order when the owner it leaves is. *)
Lemma done_ok j js s s' a o :
  store_ok s → jobs s = j :: js →
  active_transaction_token s' = active_transaction_token s → next_transaction_token s' = next_transaction_token s →
  granted s' = granted s →
  owned s' o → in_turn o js →
  last_owner o js = None ∨ last_owner o js = active_transaction_token s →
  (∀ b t, b ∈ answers s ++ option_list a → gives_back b = Some t → active_transaction_token s = Some t →
     last_owner o js = None) →
  (∀ b, a = Some b → (active_transaction_token s = Some (token_of b) → begins js = []) ∧
                     (begins (j :: js) = [token_of b] ∨ token_of b ∈ granted s)) →
  (∀ t, begins (j :: js) = t :: begins js → ∃ ok, a = Some (begun t ok)) →
  store_ok (set_jobs js (answers s ++ option_list a) s').
Proof.
  intros [_ Hb Hg Hp He Hf Hh] Hjobs Ea En Eg Ho Hin Hlast Hback Hans Hbeg.
  rewrite Hjobs in *.
  assert (Hbj : begins (j :: js) = begins js ∨ ∃ t, begins (j :: js) = t :: begins js) by (destruct j; cbn; eauto).
  assert (Hsub : ∀ t, t ∈ begins js → t ∈ begins (j :: js)) by (intros t Ht; destruct Hbj as [->|[? ->]]; set_solver).
  assert (Htok : ∀ b, b ∈ answers s ++ option_list a → b ∈ answers s ∨ a = Some b)
    by (intros b; rewrite elem_of_app; destruct a; cbn; set_solver).
  split; cbn -[begins last_owner in_turn]; rewrite ?Ea, ?En, ?Eg; try done.
  - by exists o.
  - destruct Hbj as [<-|[t Ht]]; [done|]. left. destruct Hb as [Hb|(t' & Hb & _)]; rewrite Ht in Hb; by simplify_eq.
  - intros b t [Hbin|Hbin]%Htok Htb Hact.
    + specialize (Hg b t Hbin Htb Hact). destruct Hbj as [<-|[? Hx]]; [done|by rewrite Hx in Hg].
    + apply (Hans b Hbin). by rewrite Htb.
  - intros t Ht. by apply Hp, Hsub.
  - intros t Ht. apply He. rewrite !elem_of_cons. naive_solver.
  - intros t [|[|(b & [Hbin|Hbin]%Htok & Htb)]]; [by apply Hf; auto..|by apply Hf; eauto|].
    destruct (Hans b Hbin) as [_ [Hone|Hgr]]; apply Hf; subst t; [|by auto].
    left. destruct Hb as [Hb|(t' & Hb & Hact)]; rewrite Hone in Hb; by simplify_eq.
  - intros t Ht. destruct (Hh t Ht) as [Hin'|[[ok Hok]|]]; [|right; left; exists ok; set_solver|by right; right].
    destruct Hbj as [<-|[t' Ht']]; [by left|]. rewrite Ht' in Hin'.
    apply elem_of_cons in Hin' as [->|]; [|by left].
    destruct (Hbeg t' Ht') as [ok ->]. right. left. exists ok. set_solver.
Qed.

Lemma owned_none s : owned s None → open s = None.
Proof. unfold owned. destruct (open s); [|done]. intros (t & ? & _). done. Qed.

(** The end of a transaction, committed or not. *)
Lemma close_ok o t c s js (s' : Store) ok es j :
  (j = COMMIT t ∨ j = ROLLBACK t) → closing o →
  store_ok s → jobs s = j :: js → close_transaction o c s = (s', ok, es) →
  store_ok (set_jobs js (answers s ++ [ended t ok]) s') ∧ (c = None ∨ c = Some t → Forall unit_ok es) ∧
  disk s' = foldl happen (disk s) es.
Proof.
  intros Hj Hc Hs Hjobs Hclose.
  pose proof Hs as [(ow & Ho & Hin & Hlast & Hback) Hb Hg Hp He Hf Hh]. rewrite Hjobs in *.
  assert (Hgr : t ∈ granted s) by (apply He; destruct Hj as [->| ->]; [left|right]; by left).
  assert (Hin' : (ow = None ∨ ow = Some t) ∧ in_turn None js) by (by destruct Hj as [->| ->]).
  assert (Hlast' : last_owner None js = None ∨ last_owner None js = active_transaction_token s)
    by (by destruct Hj as [->| ->]).
  assert (Hbj : begins (j :: js) = begins js) by (by destruct Hj as [->| ->]).
  assert (Hnob : active_transaction_token s = Some t → begins js = []).
  { intros Hact. rewrite Hbj in Hb, Hp. destruct Hb as [|(t' & Hb & Hact')]; [done|].
    rewrite Hact in Hact'. injection Hact' as <-. destruct (Hp t); [|done]. rewrite Hb. by left. }
  assert (Hfacts : open s' = None ∧ active_transaction_token s' = active_transaction_token s ∧
            next_transaction_token s' = next_transaction_token s ∧ granted s' = granted s ∧
            (c = None ∨ c = Some t → Forall unit_ok es) ∧ disk s' = foldl happen (disk s) es).
  { unfold close_transaction in Hclose. unfold owned in Ho.
    destruct (open s) as [l|] eqn:Hop; [|by injection Hclose as <- <- <-].
    destruct Ho as (t' & -> & Hl). destruct Hin' as [[|[= ->]] _]; [done|].
    destruct o as [|[]]; [|by destruct Hc|by injection Hclose as <- <- <-].
    destruct c as [c|]; injection Hclose as <- <- <-; cbn; split_and!; try done.
    intros [|[= ->]]; [done|]. by repeat constructor. }
  destruct Hfacts as (Hop & Ea & En & Eg & Hu & Hd). split; [|done].
  apply (done_ok j js s s' (Some (ended t ok)) None); try done.
  - unfold owned. by rewrite Hop.
  - by destruct Hin'.
  - intros b t' [Hbin|Hbin%list_elem_of_singleton]%elem_of_app Hgb Hact.
    + specialize (Hback b t' Hbin Hgb Hact). by destruct Hj as [->| ->].
    + subst b. injection Hgb as <-. by apply last_owner_no_begin, Hnob.
  - intros b [= <-]. cbn [token_of]. split; [done|by right].
  - intros t' Ht'. rewrite Hbj in Ht'. by destruct (no_more js t').
Qed.

Lemma work_ok o s s' es :
  closing o → store_ok s → work o s = Some (s', es) →
  store_ok s' ∧ Forall unit_ok es ∧ disk s' = foldl happen (disk s) es.
Proof.
  intros Hc Hs Hw. unfold work in Hw. destruct (jobs s) as [|j js] eqn:Hjobs; [done|].
  pose proof Hs as [(ow & Ho & Hin & Hlast & Hback) Hb Hg Hp He Hf Hh]. rewrite Hjobs in *.
  destruct j as [t|t|t|who q|d]; cbn [exec] in Hw.
  - destruct Hin as [-> Hin]. pose proof (owned_none _ Ho) as Hop. rewrite Hop in Hw.
    assert (begins js = [] ∧ active_transaction_token s = Some t) as [Hnob Hact]
      by (cbn in Hb; destruct Hb as [|(t' & Hb & ?)]; [done|by simplify_eq]).
    destruct o as [|b]; injection Hw as <- <-; (split; [|by split; [constructor|]]).
    + apply (done_ok (BEGIN t) js s _ (Some (begun t true)) (Some t)); try done.
      * cbn. by exists t.
      * intros b t' [Hbin|Hbin%list_elem_of_singleton]%elem_of_app Hgb Hact'; [|by subst b].
        exfalso. assert (token_of b = t') by (destruct b as [? []|]; cbn in *; congruence).
        by specialize (Hg b t' Hbin ltac:(done) Hact').
      * intros b [= <-]. split; [done|]. left. exact (f_equal (cons t) Hnob).
      * intros t' [= <-]. by eexists.
    + apply (done_ok (BEGIN t) js s _ (Some (begun t false)) None); try done.
      * by apply in_turn_none in Hin.
      * left. by apply last_owner_no_begin.
      * intros *. intros _ _ _. by apply last_owner_no_begin.
      * intros b' [= <-]. split; [done|]. left. exact (f_equal (cons t) Hnob).
      * intros t' [= <-]. by eexists.
  - destruct (close_transaction o (Some t) s) as [[s1 ok] es1] eqn:Hcl. injection Hw as <- <-.
    destruct (close_ok o t (Some t) s js s1 ok es1 (COMMIT t)) as (? & Hu & ?); auto.
  - destruct (close_transaction o None s) as [[s1 ok] es1] eqn:Hcl. injection Hw as <- <-.
    destruct (close_ok o t None s js s1 ok es1 (ROLLBACK t)) as (? & Hu & ?); auto.
  - destruct Hin as [Hwho Hin]. cbn in Hlast, Hback.
    assert (Hsame : ∀ s1, active_transaction_token s1 = active_transaction_token s →
              next_transaction_token s1 = next_transaction_token s → granted s1 = granted s → owned s1 ow →
              store_ok (set_jobs js (answers s ++ option_list None) s1)).
    { intros s1 E1 E2 E3 Ho1. apply (done_ok (QUERY who q) js s s1 None ow); try done.
      - intros b t. rewrite app_nil_r. apply Hback.
      - intros t Ht. by destruct (no_more js t). }
    destruct o as [|b]; [|injection Hw as <- <-; split; [by apply Hsame|by split; [constructor|]]].
    unfold owned in Ho. destruct (open s) as [l|] eqn:Hop; injection Hw as <- <-.
    + split; [apply Hsame; try done|by split; [constructor|]].
      destruct Ho as (t & -> & Hl). exists t. split; [done|]. apply Forall_app. split; [done|].
      constructor; [|constructor]. cbn. by destruct Hwho.
    + split; [by apply Hsame|by repeat constructor].
  - injection Hw as <- <-. split; [|by repeat constructor].
    apply (done_ok (REPLACE d) js s _ None None); try done.
    + intros b t. rewrite app_nil_r. intros Hbin Hgb Hact. by apply (Hback b t).
    + intros t Ht. by destruct (no_more js t).
Qed.


Lemma store_step_ok s es s' :
  step closing s es s' → store_ok s → store_ok s' ∧ Forall unit_ok es ∧ disk s' = foldl happen (disk s) es.
Proof.
  intros Hstep Hs. destruct Hstep as [who q s s' _ Hq|s s' Hb|t s s' Ht Hc|t s s' Ht Hr|d s|o s s' es Ho Hw|a l1 l2 s Ha].
  - split; [by eapply query_ok|]. unfold runQuery in Hq. destruct (waitForTransactionAccess _ _); by simplify_eq.
  - split; [by apply (begin_ok s)|]. unfold beginExclusiveTransaction in Hb.
    destruct (active_transaction_token s); by simplify_eq.
  - split; [by apply (end_ok COMMIT t s s'); auto|]. unfold commitExclusiveTransaction, endExclusiveTransaction in Hc.
    destruct (decide _); by simplify_eq.
  - split; [by apply (end_ok ROLLBACK t s s'); auto|]. unfold rollbackExclusiveTransaction, endExclusiveTransaction in Hr.
    destruct (decide _); by simplify_eq.
  - split; [by apply replace_ok|done].
  - by eapply work_ok.
  - split; [by apply receive_ok|]. split; [constructor|].
    destruct a as [t []|t ok]; cbn; unfold release; [done|by destruct (decide _)..].
Qed.

Lemma steps_ok s es s' :
  steps closing s es s' → store_ok s → store_ok s' ∧ Forall unit_ok es ∧ disk s' = foldl happen (disk s) es.
Proof.
  intros Hsteps. induction Hsteps as [s|s es s1 es' s2 Hstep _ IH]; intros Hs; [by split_and!; [|constructor|]|].
  destruct (store_step_ok _ _ _ Hstep Hs) as (Hs1 & Hu & Hd). destruct (IH Hs1) as (Hs2 & Hu' & Hd').
  split; [done|]. rewrite foldl_app, <-Hd. split; [|done]. by apply Forall_app.
Qed.


(** *** Nobody waits for ever for a holder that goes on *)
Lemma steps_app s es s' es' s'' :
  steps closing s es s' → steps closing s' es' s'' → steps closing s (es ++ es') s''.
Proof.
  intros H. induction H as [|s es1 s1 es2 s2 Hst _ IH]; intros H2; [done|]. rewrite <-app_assoc.
  econstructor; [done|]. by apply IH.
Qed.

Lemma drain_jobs n s :
  length (jobs s) = n → ∃ es s', steps closing s es s' ∧ jobs s' = [].
Proof.
  revert s. induction n as [|n IH]; intros s Hn.
  { exists [], s. split; [constructor|]. by apply nil_length_inv. }
  destruct (jobs s) as [|j js] eqn:Hj; [done|].
  destruct (exec succeeded j s) as [[s1 a] es1] eqn:He.
  assert (step closing s es1 (set_jobs js (answers s ++ option_list a) s1)) as Hst.
  { apply (step_work _ succeeded); [done|]. unfold work. by rewrite Hj, He. }
  destruct (IH (set_jobs js (answers s ++ option_list a) s1)) as (es & s' & Hs & Hnil); [cbn in *; lia|].
  exists (es1 ++ es), s'. split; [|done]. by econstructor.
Qed.

Lemma receive_frame a s : jobs (receive a s) = jobs s ∧ answers (receive a s) = answers s.
Proof. destruct a as [t []|t ok]; cbn; unfold release; [done|by destruct (decide _)..]. Qed.

Lemma drain_answers n s :
  jobs s = [] → length (answers s) = n → ∃ s', steps closing s [] s' ∧ jobs s' = [] ∧ answers s' = [].
Proof.
  revert s. induction n as [|n IH]; intros s Hj Hn.
  { exists s. split; [constructor|]. split; [done|]. by apply nil_length_inv. }
  destruct (answers s) as [|a l] eqn:Ha; [done|].
  destruct (IH (receive a (set_jobs (jobs s) ([] ++ l) s))) as (s' & Hs & Hnil).
  - by rewrite (proj1 (receive_frame _ _)).
  - rewrite (proj2 (receive_frame _ _)). cbn in *. lia.
  - exists s'. split; [|done]. change (@nil Event) with ([] ++ @nil Event). econstructor; [|done].
    by apply step_receive.
Qed.


(** *** An end that fails and leaves the transaction open *)

(** The token is given back all the same. *)
Record leaked (s : Store) : Prop := {
  le_open : is_Some (open s);
  le_jobs t : COMMIT t ∉ jobs s ∧ ROLLBACK t ∉ jobs s;
  le_active t : active_transaction_token s = Some t → t ∉ granted s ∧ begun t true ∉ answers s;
  le_fresh t : t ∈ granted s ∨ begun t true ∈ answers s → t < next_transaction_token s
}.

Lemma leaked_step s es s' :
  step (λ _, True) s es s' → leaked s → (∀ d, replaced d ∉ es) → leaked s' ∧ es = [] ∧ disk s' = disk s.
Proof.
  intros Hstep [Ho Hj Ha Hf] Hes.
  destruct Hstep as [who q s s' _ Hq|s s' Hb|t s s' Ht Hc|t s s' Ht Hr|d s|o s s' es _ Hw|a l1 l2 s Hans].
  - unfold runQuery in Hq. destruct (waitForTransactionAccess _ _); [|done]. injection Hq as <-.
    split; [|done]. split; cbn; [done|intros t; specialize (Hj t); set_solver|done|done].
  - unfold beginExclusiveTransaction in Hb. destruct (active_transaction_token s); [done|]. injection Hb as <-.
    split; [|done]. split; cbn; [done|intros t; specialize (Hj t); set_solver|..].
    + intros t [= <-]. split; intros Hin; (assert (next_transaction_token s < next_transaction_token s); [apply Hf; auto|lia]).
    + intros t Hin. specialize (Hf t Hin). lia.
  - unfold commitExclusiveTransaction, endExclusiveTransaction in Hc. destruct (decide _) as [Hact|]; [|done].
    by destruct (Ha t Hact).
  - unfold rollbackExclusiveTransaction, endExclusiveTransaction in Hr. destruct (decide _) as [Hact|]; [|done].
    by destruct (Ha t Hact).
  - split; [|done]. split; cbn; [done|intros t; specialize (Hj t); set_solver|done|done].
  - unfold work in Hw. destruct Ho as [l Ho]. destruct (jobs s) as [|j js] eqn:Hjobs; [done|].
    assert (Hjs : ∀ t, COMMIT t ∉ js ∧ ROLLBACK t ∉ js) by (intros t; specialize (Hj t); set_solver).
    destruct j as [t|t|t|who q|d]; cbn in Hw.
    + rewrite Ho in Hw. injection Hw as <- <-. split; [|done]. split; cbn; [done|done|..].
      * intros t' Ht'. specialize (Ha t' Ht'). set_solver.
      * intros t' Ht'. apply Hf. set_solver.
    + destruct (Hj t) as [Hnot _]. set_solver.
    + destruct (Hj t) as [_ Hnot]. set_solver.
    + rewrite Ho in Hw. destruct o; injection Hw as <- <-; (split; [|done]); split; cbn; rewrite ?app_nil_r; try done.
    + injection Hw as _ <-. destruct (Hes d). by left.
  - assert (Hsub : ∀ b, b ∈ l1 ++ l2 → b ∈ answers s) by (rewrite Hans; set_solver).
    assert (Hin : a ∈ answers s) by (rewrite Hans; set_solver).
    split; [|split; [done|]].
    2: { destruct a as [t []|t ok]; cbn; unfold release; [done|by destruct (decide _)..]. }
    assert (Hrel : ∀ t, leaked (release t (set_jobs (jobs s) (l1 ++ l2) s))).
    { intros t. unfold release. destruct (decide _) as [Hact|Hact]; split; cbn; try done;
        [intros t' []; apply Hf; auto|intros t' Ht'; destruct (Ha t' Ht'); split; auto|intros t' []; apply Hf; auto]. }
    destruct a as [t []|t ok]; cbn; [|apply Hrel..]. split; cbn; [done|done|..].
    + intros t' Ht'. destruct (Ha t' Ht') as [Hg Hb]. split; [|by auto].
      intros [->%elem_of_singleton|]%elem_of_union; auto.
    + intros t' [[->%elem_of_singleton|]%elem_of_union|]; apply Hf; auto.
Qed.

(** When the end of a transaction fails and SQLite leaves it open, the
    token is given back and nobody ends it any more.  From then on, whatever
    is called and however SQLite fares, no change reaches the disk, until the
    file is replaced or closed: the statements join the open transaction, and
    every begin is refused. *)
Theorem failed_end_freezes s es s' :
  steps (λ _, True) s es s' → leaked s → (∀ d, replaced d ∉ es) → es = [] ∧ disk s' = disk s ∧ leaked s'.
Proof.
  intros Hsteps. induction Hsteps as [s|s es s1 es' s2 Hstep _ IH]; intros Hs Hes; [done|].
  destruct (leaked_step _ _ _ Hstep Hs) as (Hs1 & -> & Hd); [set_solver|].
  destruct (IH Hs1) as (-> & Hd' & Hs2); [set_solver|]. rewrite Hd', Hd. done.
Qed.

End transactions.

(** ** The files and the schema *)

(** What SQLite makes of a file: a new one, the version it says it has, the
    effect of a statement and of the one that sets the version; and the
    statements of the versions, in order. *)
Class Schema (C : Type) := {
  new_file : C;
  getDbVersion : C → nat;
  sql : string → C → option C;
  update_version : C → option C;
  versions : list (list string)
}.

Definition latest_version : nat := 3.

Section files.
Context `{Schema C}.
(** Whether the operating system lets the n-th call through; the data
    directory's path. *)
Context (permitted : nat → bool) (db_path : string).

Definition backup_path : string := db_path ++ ".swap-backup".

(** [seen]: the files after each change, the newest first. *)
Record Disk := {
  files : gmap string C;
  clear_pending : bool;
  ready : bool;
  calls : nat;
  seen : list (gmap string C)
}.

Definition set_files (f : gmap string C) (s : Disk) : Disk :=
  {| files := f; clear_pending := clear_pending s; ready := ready s; calls := calls s; seen := f :: seen s |}.
Definition set_ready (b : bool) (s : Disk) : Disk :=
  {| files := files s; clear_pending := clear_pending s; ready := b; calls := calls s; seen := seen s |}.
Definition set_clear_pending (b : bool) (s : Disk) : Disk :=
  {| files := files s; clear_pending := b; ready := ready s; calls := calls s; seen := seen s |}.
Definition ask (s : Disk) : bool * Disk :=
  (permitted (calls s),
   {| files := files s; clear_pending := clear_pending s; ready := ready s; calls := S (calls s); seen := seen s |}).

(** [QFile]: nothing is overwritten by a rename. *)
Definition remove (p : string) (s : Disk) : bool * Disk :=
  let '(ok, s) := ask s in
  if ok && bool_decide (is_Some (files s !! p)) then (true, set_files (delete p (files s)) s) else (false, s).

Definition rename (a b : string) (s : Disk) : bool * Disk :=
  let '(ok, s) := ask s in
  match files s !! a, files s !! b with
  | Some c, None => if ok then (true, set_files (<[b := c]> (delete a (files s))) s) else (false, s)
  | _, _ => (false, s)
  end.

(** The statements one after the other; what was done before a failure stays. *)
Fixpoint run_sql (qs : list string) (c : C) : bool * C :=
  match qs with
  | [] => (true, c)
  | q :: qs => match sql q c with Some c => run_sql qs c | None => (false, c) end
  end.

Definition updateSchema (version : nat) (c : C) : bool * C :=
  if decide (version = latest_version) then (true, c) else
  match run_sql (concat (drop version versions)) c with
  | (false, c) => (false, c)
  | (true, c) => match update_version c with Some c => (true, c) | None => (false, c) end
  end.

Inductive Opened := opened | not_opened | schema_failed.

(** One pass through [createDbObject]. *)
Definition open_and_upgrade (s : Disk) : Opened * Disk :=
  let s := if clear_pending s
           then set_clear_pending false (if bool_decide (is_Some (files s !! db_path)) then (remove db_path s).2 else s)
           else s in
  let '(ok, s) := ask s in
  if ok then
    let c := default new_file (files s !! db_path) in
    let '(done, c) := updateSchema (getDbVersion c) c in
    (if done then opened else schema_failed, set_files (<[db_path := c]> (files s)) s)
  else (not_opened, s).

(** The second pass starts from a clean file; when it fails too, an exception
    is thrown ([schema_failed]). *)
Definition createDbObject (s : Disk) : Opened * Disk :=
  match open_and_upgrade s with
  | (schema_failed, s) => open_and_upgrade (set_clear_pending true s)
  | r => r
  end.

(** The answer, or [None] when [createDbObject] throws. *)
Definition reopen (answer : bool) (s : Disk) : option bool * Disk :=
  match createDbObject s with
  | (schema_failed, s) => (None, s)
  | (_, s) => (Some answer, set_ready true s)
  end.

Definition replaceWithDatabaseFile (source : string) (s : Disk) : option bool * Disk :=
  if decide (source = EmptyString ∨ source = db_path) then (Some false, s) else
  match files s !! source with
  | None => (Some false, s)
  | Some _ =>
      let s := set_ready false (remove backup_path s).2 in
      let '(moved, s) := (if bool_decide (is_Some (files s !! db_path)) then rename db_path backup_path s else (true, s)) in
      if negb (moved : bool) then reopen false s else
      let '(placed, s) := rename source db_path s in
      if (placed : bool) then reopen true (remove backup_path s).2
      else if bool_decide (is_Some (files s !! backup_path)) then
        let '(back, s) := rename backup_path db_path s in
        if (back : bool) then reopen false s else (Some false, s)
      else reopen false s
  end.


(** ** What the swap of the file keeps *)
Lemma backup_is_not_live : backup_path ≠ db_path.
Proof.
  unfold backup_path. intros Heq%(f_equal String.length). revert Heq. clear.
  induction db_path as [|a p IH]; cbn; [done|]. intros [= Heq]. by apply IH.
Qed.

Lemma current_untouched c : getDbVersion c = latest_version → updateSchema (getDbVersion c) c = (true, c).
Proof. intros Hc. unfold updateSchema. by rewrite decide_True. Qed.

Lemma reopen_current b c s :
  clear_pending s = false → files s !! db_path = Some c → getDbVersion c = latest_version →
  ∃ s', reopen b s = (Some b, s') ∧ files s' = files s ∧ ready s' = true ∧
        (seen s' = seen s ∨ seen s' = files s :: seen s).
Proof.
  intros Hp Hc Hv. unfold reopen, createDbObject, open_and_upgrade. rewrite Hp. unfold ask.
  destruct (permitted (calls s)); cbn -[updateSchema].
  - rewrite Hc. cbn [default from_option]. unfold id. rewrite current_untouched by done. cbn -[updateSchema].
    rewrite insert_id by done. eexists. split; [done|]. cbn. auto.
  - eexists. split; [done|]. cbn. auto.
Qed.

(** Where the data are: the old ones in their place or set aside, or the new
    ones in place. *)
Definition safe (old new : C) (f : gmap string C) : Prop :=
  f !! db_path = Some old ∨ f !! backup_path = Some old ∨ f !! db_path = Some new.

(** What became of the files between two states. *)
Definition along (P : gmap string C → Prop) (s s' : Disk) : Prop := ∃ l, seen s' = l ++ seen s ∧ Forall P l.

Lemma along_refl P s s' : seen s' = seen s → along P s s'.
Proof. intros E. exists []. by rewrite E. Qed.

Lemma along_one P s s' f : seen s' = f :: seen s → P f → along P s s'.
Proof. intros E Hf. exists [f]. rewrite E. by repeat constructor. Qed.

Lemma along_trans P s1 s2 s3 : along P s1 s2 → along P s2 s3 → along P s1 s3.
Proof.
  intros (l1 & E1 & H1) (l2 & E2 & H2). exists (l2 ++ l1). split; [by rewrite E2, E1, app_assoc|].
  by apply Forall_app.
Qed.

Lemma remove_spec p s b s' :
  remove p s = (b, s') →
  clear_pending s' = clear_pending s ∧ ready s' = ready s ∧
  (files s' = files s ∧ seen s' = seen s ∨ files s' = delete p (files s) ∧ seen s' = files s' :: seen s).
Proof.
  unfold remove, ask. intros Hr. cbn in Hr. destruct (_ && _); injection Hr as <- <-; cbn; auto.
Qed.

Lemma rename_spec a b s (ok : bool) s' :
  rename a b s = (ok, s') →
  clear_pending s' = clear_pending s ∧ ready s' = ready s ∧
  if ok then ∃ c, files s !! a = Some c ∧ files s !! b = None ∧ files s' = <[b := c]> (delete a (files s)) ∧
                  seen s' = files s' :: seen s
  else files s' = files s ∧ seen s' = seen s.
Proof.
  unfold rename, ask. intros Hr. cbn in Hr. destruct (files s !! a) as [c|], (files s !! b); cbn in Hr;
    [injection Hr as <- <-; cbn; auto| |injection Hr as <- <-; cbn; auto..].
  destruct (permitted (calls s)); injection Hr as <- <-; cbn; [|auto]. split_and!; [done|done|]. by exists c.
Qed.

Lemma reopen_along P b c s r s' :
  clear_pending s = false → files s !! db_path = Some c → getDbVersion c = latest_version → P (files s) →
  reopen b s = (r, s') → r = Some b ∧ files s' = files s ∧ ready s' = true ∧ along P s s'.
Proof.
  intros Hp Hc Hv HP Hr. destruct (reopen_current b c s Hp Hc Hv) as (s1 & E & Ef & Erd & Es).
  rewrite E in Hr. injection Hr as <- <-. split_and!; [done..|].
  destruct Es as [Es|Es]; [by apply along_refl|by eapply along_one].
Qed.


(** ** The schema *)

(** Opening the database ends with the current schema or says that it
    failed: whatever version the file has, what the statements do and which
    calls are refused, after [opened] the file has the latest version, after
    two attempts at most; no other file changes. *)
Theorem opened_is_current s s' :
  (∀ c c', update_version c = Some c' → getDbVersion c' = latest_version) →
  createDbObject s = (opened, s') →
  (∃ c, files s' !! db_path = Some c ∧ getDbVersion c = latest_version) ∧
  (∀ p, p ≠ db_path → files s' !! p = files s !! p).
Proof.
  intros Hupd.
  assert (Hcur : ∀ c c', updateSchema (getDbVersion c) c = (true, c') → getDbVersion c' = latest_version).
  { intros c c'. unfold updateSchema. destruct (decide _); [by intros [= <-]|].
    destruct (run_sql _ _) as [[] c1]; [|done]. destruct (update_version c1) as [c2|] eqn:E; [|done].
    intros [= <-]. by eapply Hupd. }
  assert (Hone : ∀ s r s', open_and_upgrade s = (r, s') →
            (r = opened → ∃ c, files s' !! db_path = Some c ∧ getDbVersion c = latest_version) ∧
            (∀ p, p ≠ db_path → files s' !! p = files s !! p)).
  { clear s s'. intros s r s' Hr. unfold open_and_upgrade in Hr.
    set (s1 := if clear_pending s then _ else s) in Hr.
    assert (∀ p, p ≠ db_path → files s1 !! p = files s !! p) as Hs1.
    { intros p Hp. unfold s1. destruct (clear_pending s); [|done]. cbn -[remove]. destruct (bool_decide _); [|done].
      destruct (remove db_path s) as [b s2] eqn:E. apply remove_spec in E as (_ & _ & [[E _]|[E _]]); cbn; rewrite E; [done|].
      by rewrite lookup_delete_ne. }
    clearbody s1. unfold ask in Hr. destruct (permitted (calls s1)); [|by injection Hr as <- <-]. cbn -[updateSchema] in Hr.
    destruct (updateSchema _ _) as [done c'] eqn:Eup in Hr. injection Hr as <- <-. cbn. split.
    - destruct done; [|done]. intros _. exists c'. split; [apply lookup_insert_eq|]. by eapply Hcur.
    - intros p Hp. rewrite lookup_insert_ne by done. by apply Hs1. }
  unfold createDbObject. destruct (open_and_upgrade s) as [r s1] eqn:E1. apply Hone in E1 as [H1 F1].
  destruct r; [intros [= <-]; auto|done|]. intros E2. apply Hone in E2 as [H2 F2].
  split; [auto|]. intros p Hp. rewrite F2 by done. by apply F1.
Qed.

(** A file of a later version is given the number of this one, without any
    statement. *)
Lemma newer_schema_relabelled v c :
  length versions = latest_version → latest_version < v →
  updateSchema v c = match update_version c with Some c => (true, c) | None => (false, c) end.
Proof.
  intros Hlen Hv. unfold updateSchema. rewrite decide_False by lia. rewrite drop_ge by lia. done.
Qed.

End files.

(** ** Concrete runs *)
Module Example_store.

Definition add (n : nat) : Stmt (D := list nat) := λ l, Some (l ++ [n]).
Definition refuse : Stmt (D := list nat) := λ _, None.

(** A transaction with two statements; a statement of another coroutine was
    queued before it, one after its end. *)
Definition two_writers : list (Move (D := list nat)) :=
  [m_query None (add 1); m_begin; m_work succeeded; m_work succeeded; m_receive 0; m_query (Some 1) (add 2);
   m_query (Some 1) refuse; m_query (Some 1) (add 3); m_work succeeded; m_work succeeded; m_commit 1;
   m_work succeeded; m_work succeeded; m_receive 0; m_query None (add 4); m_work succeeded].

Example two_writers_disk : (λ r, disk r.1) <$> play two_writers (fresh []) = Some [1; 2; 3; 4].
Proof. by vm_compute. Qed.

(** While the transaction is active, another coroutine is not let in. *)
Example outsider_waits :
  (λ r, waitForTransactionAccess None r.1) <$> play (take 5 two_writers) (fresh []) = Some false.
Proof. by vm_compute. Qed.

(** Undone: nothing of it is left. *)
Example undone :
  (λ r, disk r.1) <$> play (take 10 two_writers ++ [m_rollback 1; m_work succeeded; m_work succeeded]) (fresh [])
  = Some [1].
Proof. by vm_compute. Qed.

(** The commit fails and the transaction stays open: what follows is lost. *)
Definition commit_fails : list (Move (D := list nat)) :=
  [m_begin; m_work succeeded; m_receive 0; m_query (Some 1) (add 2); m_work succeeded; m_commit 1; m_work (failed true);
   m_receive 0].
Definition after_failure : list (Move (D := list nat)) :=
  [m_query None (add 7); m_work succeeded; m_begin; m_work succeeded; m_receive 0; m_query None (add 8); m_work succeeded].

Definition stuck : Store (D := list nat) := default (fresh []) (fst <$> play commit_fails (fresh [])).

Lemma stuck_leaked : leaked stuck.
Proof.
  assert (stuck = {| active_transaction_token := None; next_transaction_token := 2; granted := {[1]} ∪ ∅; jobs := [];
                     answers := []; disk := []; open := Some [(Some 1, add 2)] |}) as -> by (vm_compute; reflexivity).
  split; cbn; [by eexists|set_solver|done|]. intros t. set_solver by lia.
Qed.

(** The files. *)
#[export] Instance schema : Schema (nat * string) :=
  {| new_file := (0, EmptyString); getDbVersion := fst;
     sql := λ q c, if bool_decide (c.2 = "broken"%string) then None else Some c;
     update_version := λ c, Some (3, c.2); versions := [["v1"]; ["v2"]; ["v3"]]%string |}.

Lemma schema_law (c c' : nat * string) : update_version c = Some c' → getDbVersion c' = latest_version.
Proof. cbn. by intros [= <-]. Qed.

Definition start : Disk (C := nat * string) :=
  {| files := {["db"%string := (3, "old"%string)]} ∪ {["staged"%string := (3, "new"%string)]}; clear_pending := false;
     ready := true; calls := 0; seen := [] |}.

Definition swap (permitted : nat → bool) := replaceWithDatabaseFile permitted "db" "staged" start.

Example swapped : (swap (λ _, true)).1 = Some true ∧ files (swap (λ _, true)).2 !! "db"%string = Some (3, "new"%string).
Proof. by vm_compute. Qed.

(** The second rename and the way back are refused. *)
Example way_back_refused :
  let r := swap (λ n, (n <? 2)%nat) in
  r.1 = Some false ∧ files r.2 !! "db"%string = None ∧ files r.2 !! "db.swap-backup"%string = Some (3, "old"%string).
Proof. by vm_compute. Qed.

(** At the next start the client makes an empty database, and at the next swap
    the data that were set aside are removed. *)
Example set_aside_is_forgotten :
  let s1 := (createDbObject (λ _, true) "db" (swap (λ n, (n <? 2)%nat)).2).2 in
  let s2 := (replaceWithDatabaseFile (λ _, true) "db" "staged" s1).2 in
  files s1 !! "db"%string = Some (3, EmptyString) ∧ files s2 !! "db.swap-backup"%string = None.
Proof. by vm_compute. Qed.

(** A file whose upgrade fails is deleted. *)
Example broken_upgrade_starts_anew :
  let s := {| files := {["db"%string := (1, "broken"%string)]}; clear_pending := false; ready := true; calls := 0; seen := [] |} in
  let r := createDbObject (C := nat * string) (λ _, true) "db" s in
  r.1 = opened ∧ files r.2 !! "db"%string = Some (3, EmptyString).
Proof. by vm_compute. Qed.

End Example_store.

Import Example_store.



Lemma failed_end_freezes_witness :
  ∃ s' es, steps (λ _, True) stuck es s' ∧ disk s' = [].
Proof.
  destruct (play after_failure stuck) as [[s' es]|] eqn:E; [|vm_compute in E; discriminate].
  assert (steps (λ _, True) stuck es s') as Hs.
  { apply (play_steps _ after_failure); [|exact E]. by apply Forall_true. }
  exists s', es. split; [exact Hs|].
  assert (es = []) as Hes by (vm_compute in E; by injection E as _ <-).
  assert (∀ d, replaced d ∉ es) as Hno
    by (intros d Hd; rewrite Hes in Hd; by apply elem_of_nil in Hd).
  transitivity (disk stuck); [|vm_compute; reflexivity].
  exact (proj1 (proj2 (failed_end_freezes stuck es s' Hs stuck_leaked Hno))).
Defined.


Lemma opened_is_current_witness :
  ∃ s' c, createDbObject (C := nat * string) (λ _, true) "db" start = (opened, s') ∧
    files s' !! "db"%string = Some c ∧ getDbVersion c = latest_version.
Proof.
  destruct (createDbObject (C := nat * string) (λ _, true) "db" start) as [r s'] eqn:E.
  assert (r = opened) as -> by (vm_compute in E; by injection E as <- _).
  destruct (opened_is_current (λ _, true) "db" start s' schema_law E) as [(c & Hc & Hv) _].
  by exists s', c.
Defined.
