(* ===== verification/DbDigest.v ===== *)
(** * The digest of the client's database

    The encoders of NextAppUi/DbStore.cpp that feed the rows of the nine
    synchronised tables to a hash ([putVarUint] to [hashNotificationTable],
    [hashTable], [getDbDataHash], [getDbDataInfo]).  The question is what two
    databases with the same digest have in common: the bytes are read back
    without doubt, so they agree on every column that is put, up to the
    normalisations the encoders make ([exact]).  A text is its UTF-8 bytes;
    rows are those the query returns, in its order; a row's message may fail
    to deserialise; the hash itself is given. *)
From S2P Require Import Prelude Text.
Local Open Scope nextapp_scope.

Abbreviation bytes := (list N).

(** ** The primitives *)
Definition u64 (v : Z) : N := Z.to_N (v mod 2 ^ 64).

Definition putByte (v : N) : bytes := [v].

(** [fuel]: one more than the bits of the value. *)
Fixpoint var_uint (fuel : nat) (v : N) : bytes :=
  match fuel with
  | O => []
  | S fuel =>
      if (128 <=? v)%N then N.lor (N.land v 127) 128 :: var_uint fuel (N.shiftr v 7) else [v]
  end.
Definition putVarUint (v : N) : bytes := var_uint (S (N.to_nat (N.size v))) v.

Definition putU64 (v : N) : bytes := (λ i, N.land (N.shiftr v (8 * i)) 255) <$> [0; 1; 2; 3; 4; 5; 6; 7]%N.
Definition putI64 (v : Z) : bytes := putU64 (u64 v).

Definition putNull : bytes := putByte 0.
Definition putBool (v : bool) : bytes := putByte 1 ++ putByte (if v then 1 else 0).

Definition toUtf8 (s : string) : bytes := N_of_ascii <$> String.list_ascii_of_string s.
Definition putString (s : string) : bytes :=
  putByte 2 ++ putVarUint (N.of_nat (length (toUtf8 s))) ++ toUtf8 s.
Definition putSigned (v : Z) : bytes := putByte 3 ++ putI64 v.
Definition putUnsigned (v : Z) : bytes := putByte 4 ++ putU64 (u64 v).

(** A date, or [None] for one that is not valid; a time in milliseconds. *)
Definition QDate : Type := option (Z * Z * Z).
Definition QDateTime : Type := option Z.
Definition toSecsSinceEpoch (ms : Z) : Z := (ms / 1000)%Z.

Definition putDate (d : QDate) : bytes :=
  match d with
  | None => putNull
  | Some (y, m, d) => putByte 5 ++ putSigned y ++ putSigned m ++ putSigned d
  end.

Definition putDateTimeSeconds (t : QDateTime) : bytes :=
  match t with
  | None => putNull
  | Some ms => putByte 6 ++ putSigned (toSecsSinceEpoch ms)
  end.

Definition putOptionalString (s : string) : bytes :=
  if decide (s = EmptyString) then putNull else putString s.

Definition putStringList (l : list string) : bytes :=
  putByte 7 ++ putVarUint (N.of_nat (length l)) ++ (l ≫= putString).

(** [putNull] for a NULL or a field that is not there. *)
Definition putNullable {A} (put : A → bytes) (v : option A) : bytes :=
  match v with None => putNull | Some v => put v end.

(** A column of text that is NULL reads as the empty string. *)
Definition toString (v : option string) : string := default EmptyString v.
Definition toLongLong (v : option Z) : Z := default 0%Z v.

(** ** The rows *)
Record Node := {
  n_uuid : string; n_parent : string; n_active : bool; n_name : string; n_kind : Z; n_descr : string;
  n_version : Z; n_deleted : bool; n_updated : Z; n_exclude : bool; n_category : string; n_updatedId : Z
}.

Definition encode_node (n : Node) : bytes :=
  putString (n_uuid n) ++ putOptionalString (n_parent n) ++ putBool (n_active n) ++ putString (n_name n)
  ++ putSigned (n_kind n) ++ putOptionalString (n_descr n) ++ putSigned (n_version n) ++ putBool (n_deleted n)
  ++ putSigned (n_updated n) ++ putBool (n_exclude n) ++ putOptionalString (n_category n)
  ++ putUnsigned (n_updatedId n).

Record ActionCategory := {
  c_id : string; c_name : string; c_descr : string; c_color : string; c_version : Z; c_icon : string;
  c_deleted : bool; c_updated : Z
}.

Definition encode_category (c : ActionCategory) : bytes :=
  putString (c_id c) ++ putString (c_name c) ++ putOptionalString (c_descr c) ++ putOptionalString (c_color c)
  ++ putSigned (c_version c) ++ putOptionalString (c_icon c) ++ putBool (c_deleted c) ++ putSigned (c_updated c).

(** The columns of the query; the ones that are read without a test for NULL
    are what [toLongLong], [toBool] or [toString] give. *)
Record Action := {
  a_id : string; a_node : string; a_origin : option string; a_priority : option Z;
  a_importance : option Z; a_urgency : option Z; a_status : Z; a_favorite : bool; a_name : string;
  a_descr : option string; a_created : QDate; a_due_kind : Z; a_start : QDateTime; a_due_by : QDateTime;
  a_due_timezone : option string; a_completed : QDateTime; a_estimate : option Z; a_difficulty : option Z;
  a_repeat_kind : option Z; a_repeat_unit : option Z; a_repeat_when : option Z; a_repeat_after : option Z;
  a_kind : Z; a_version : Z; a_category : option string; a_time_spent : option Z; a_updated : Z; a_updated_id : Z
}.

(** Both numbers or none. *)
Definition dyn (a : Action) : option (Z * Z) :=
  match a_importance a, a_urgency a with Some i, Some u => Some (i, u) | _, _ => None end.

Definition encode_action (a : Action) : bytes :=
  putString (a_id a) ++ putString (a_node a) ++ putOptionalString (toString (a_origin a))
  ++ putNullable putSigned (a_priority a)
  ++ putNullable (λ iu, putSigned iu.1 ++ putSigned iu.2) (dyn a)
  ++ putSigned (a_status a) ++ putBool (a_favorite a) ++ putString (a_name a)
  ++ putBool (bool_decide (is_Some (a_descr a))) ++ putNullable putString (a_descr a)
  ++ putDate (a_created a) ++ putSigned (a_due_kind a) ++ putDateTimeSeconds (a_start a)
  ++ putDateTimeSeconds (a_due_by a) ++ putOptionalString (toString (a_due_timezone a))
  ++ putDateTimeSeconds (a_completed a) ++ putNullable putUnsigned (a_estimate a)
  ++ putNullable putSigned (a_difficulty a) ++ putNullable putSigned (a_repeat_kind a)
  ++ putNullable putSigned (a_repeat_unit a) ++ putNullable putSigned (a_repeat_when a)
  ++ putNullable putSigned (a_repeat_after a) ++ putSigned (a_kind a) ++ putSigned (a_version a)
  ++ putOptionalString (toString (a_category a)) ++ putNullable putSigned (a_time_spent a)
  ++ putSigned (a_updated a) ++ putUnsigned (a_updated_id a).

Record Day := {
  d_date : QDate; d_color : option string; d_notes : option string; d_report : option string; d_updated : Z;
  d_updated_id : Z
}.

Definition encode_day (d : Day) : bytes :=
  putDate (d_date d) ++ putOptionalString (toString (d_color d)) ++ putOptionalString (toString (d_notes d))
  ++ putOptionalString (toString (d_report d)) ++ putSigned (d_updated d) ++ putUnsigned (d_updated_id d).

Record DayColor := {
  l_id : string; l_score : Z; l_color : string; l_name : string; l_updated : Z; l_updated_id : Z
}.

Definition encode_day_color (c : DayColor) : bytes :=
  putString (l_id c) ++ putSigned (l_score c) ++ putString (l_color c) ++ putString (l_name c)
  ++ putSigned (l_updated c) ++ putUnsigned (l_updated_id c).

Record Tag := { g_action : string; g_name : string }.
Definition encode_tag (t : Tag) : bytes := putString (g_action t) ++ putString (g_name t).

(** [pb::WorkSession::State] and the number it is put as. *)
Inductive WorkState := WS_ACTIVE | WS_PAUSED | WS_DONE | WS_DELETED.
Definition work_state (s : WorkState) : Z :=
  match s with WS_ACTIVE => 0 | WS_PAUSED => 1 | WS_DONE => 2 | WS_DELETED => 3 end.

Record WorkEvent := {
  e_kind : Z; e_time : Z; e_start : option Z; e_end : option Z; e_duration : option Z; e_paused : option Z;
  e_name : option string; e_notes : option string
}.

Definition encode_event (e : WorkEvent) : bytes :=
  putSigned (e_kind e) ++ putUnsigned (e_time e) ++ putNullable putUnsigned (e_start e)
  ++ putNullable putUnsigned (e_end e) ++ putNullable putUnsigned (e_duration e)
  ++ putNullable putUnsigned (e_paused e) ++ putNullable putString (e_name e) ++ putNullable putString (e_notes e).

Record WorkSession := {
  w_id : string; w_action : string; w_start : Z; w_end : option Z; w_duration : Z; w_paused : Z;
  w_state : WorkState; w_version : Z; w_touched : Z; w_name : string; w_notes : string; w_updated : Z;
  w_updatedId : Z; w_events : list WorkEvent
}.

Definition has_live_local_counters (w : WorkSession) : bool :=
  match w_state w with WS_ACTIVE | WS_PAUSED => true | _ => false end.

Definition encode_work_session (w : WorkSession) : bytes :=
  putString (w_id w) ++ putString (w_action w) ++ putUnsigned (w_start w) ++ putNullable putUnsigned (w_end w)
  ++ (if has_live_local_counters w then putNull ++ putNull else putUnsigned (w_duration w) ++ putUnsigned (w_paused w))
  ++ putSigned (work_state (w_state w)) ++ putSigned (w_version w) ++ putUnsigned (w_touched w)
  ++ putString (w_name w) ++ putString (w_notes w) ++ putUnsigned (w_updated w) ++ putUnsigned (w_updatedId w)
  ++ putVarUint (N.of_nat (length (w_events w))) ++ (w_events w ≫= encode_event).

Record TimeBlock := {
  b_id : string; b_start : Z; b_end : Z; b_name : string; b_kind : Z; b_category : string; b_actions : list string;
  b_version : Z; b_updated : Z; b_updatedId : Z
}.

(** [QString]'s order is given. *)
Class QStringOrder := { qstring_le : string → string → bool }.

Fixpoint sorted_insert `{QStringOrder} (x : string) (l : list string) : list string :=
  match l with
  | [] => [x]
  | y :: l => if qstring_le x y then x :: y :: l else y :: sorted_insert x l
  end.
Definition sort_strings `{QStringOrder} : list string → list string := foldr sorted_insert [].

Definition encode_time_block `{QStringOrder} (b : TimeBlock) : bytes :=
  putString (b_id b) ++ putUnsigned (b_start b) ++ putUnsigned (b_end b) ++ putString (b_name b)
  ++ putSigned (b_kind b) ++ putOptionalString (b_category b) ++ putStringList (sort_strings (b_actions b))
  ++ putSigned (b_version b) ++ putUnsigned (b_updated b) ++ putUnsigned (b_updatedId b).

Record Notification := {
  f_id : Z; f_created : Z; f_valid_to : option Z; f_subject : string; f_message : string; f_sender_type : Z;
  f_sender_id : string; f_to_user : option string; f_to_tenant : option string; f_uuid : string; f_kind : Z;
  f_data : string; f_updated : Z; f_updatedId : Z
}.

Definition encode_notification (n : Notification) : bytes :=
  putUnsigned (f_id n) ++ putUnsigned (f_created n) ++ putNullable putUnsigned (f_valid_to n)
  ++ putString (f_subject n) ++ putString (f_message n) ++ putSigned (f_sender_type n)
  ++ putOptionalString (f_sender_id n) ++ putNullable putString (f_to_user n)
  ++ putNullable putString (f_to_tenant n) ++ putString (f_uuid n) ++ putSigned (f_kind n)
  ++ putOptionalString (f_data n) ++ putUnsigned (f_updated n) ++ putUnsigned (f_updatedId n).

(** ** The tables *)

(** What [hashRows] adds to the hash; a row of a message may not be readable. *)
Definition hashRows {A} (table : string) (encode_row : A → bytes) (rows : list (option A)) : option bytes :=
  (λ rs, putString table ++ (rs ≫= λ r, putByte 126 ++ encode_row r)) <$> mapM id rows.

Record Database := {
  t_node : list (option Node); t_category : list (option ActionCategory); t_action : list Action;
  t_day : list Day; t_day_colors : list DayColor; t_tag : list Tag; t_work : list (option WorkSession);
  t_block : list (option TimeBlock); t_notification : list (option Notification)
}.

Inductive Kind :=
| KNode | KActionCategory | KAction | KDay | KDayColor | KTag | KWorkSession | KTimeBlock | KNotification.

Definition kTableDigestSpecs : list (string * Kind) :=
  [("Nodes", KNode); ("Action Categories", KActionCategory); ("Actions", KAction); ("Days", KDay);
   ("Day Colors", KDayColor); ("Tags", KTag); ("Work Sessions", KWorkSession); ("Time Blocks", KTimeBlock);
   ("Notifications", KNotification)]%string.

Section digest.
Context `{QStringOrder} (sha1 : bytes → string).

Definition hashTable (db : Database) (k : Kind) : option bytes :=
  match k with
  | KNode => hashRows "node" encode_node (t_node db)
  | KActionCategory => hashRows "action_category" encode_category (t_category db)
  | KAction => hashRows "action" encode_action (Some <$> t_action db)
  | KDay => hashRows "day" encode_day (Some <$> t_day db)
  | KDayColor => hashRows "day_colors" encode_day_color (Some <$> t_day_colors db)
  | KTag => hashRows "tag" encode_tag (Some <$> t_tag db)
  | KWorkSession => hashRows "work_session" encode_work_session (t_work db)
  | KTimeBlock => hashRows "time_block" encode_time_block (t_block db)
  | KNotification => hashRows "notification" encode_notification (t_notification db)
  end.

Definition digest_bytes (db : Database) : option bytes :=
  mjoin <$> mapM (hashTable db ∘ snd) kTableDigestSpecs.

Definition getDbDataHash (db : Database) : option string := sha1 <$> digest_bytes db.

Definition get_count (db : Database) (k : Kind) : nat :=
  match k with
  | KNode => length (t_node db) | KActionCategory => length (t_category db) | KAction => length (t_action db)
  | KDay => length (t_day db) | KDayColor => length (t_day_colors db) | KTag => length (t_tag db)
  | KWorkSession => length (t_work db) | KTimeBlock => length (t_block db)
  | KNotification => length (t_notification db)
  end.

(** The tables of [getDbDataInfo]: name, count and hash. *)
Definition getDbDataInfo (db : Database) : option (list (string * nat * string)) :=
  mapM (λ sk : string * Kind,
    let count := get_count db sk.2 in
    if decide (count = O) then Some (sk.1, count, "empty"%string)
    else (λ b, (sk.1, count, sha1 b)) <$> hashTable db sk.2) kTableDigestSpecs.

End digest.

(** ** Reading the bytes back

    [exact put see]: what [put] writes is found again at the front of any
    bytes, and [see] is all that it says of its argument. *)
Record exact {A C} (put : A → bytes) (see : A → C) : Prop := {
  exact_reads a b s t : put a ++ s = put b ++ t → see a = see b ∧ s = t;
  exact_says a b : see a = see b → put a = put b
}.

(** The first byte of what may stand for a value is not that of [putNull]. *)
Definition tagged {A} (put : A → bytes) : Prop := ∀ a, ∃ k l, put a = k :: l ∧ k ≠ 0%N.

Section combine.
Context {A B C D : Type}.

Lemma exact_app (f : A → bytes) (g : A → bytes) (c : A → C) (d : A → D) :
  exact f c → exact g d → exact (λ a, f a ++ g a) (λ a, (c a, d a)).
Proof.
  intros [Rf Sf] [Rg Sg]. split.
  - intros a b s t. rewrite <-!(assoc_L (++)). intros [-> [-> ->]%Rg]%Rf. done.
  - by intros a b [= ->%Sf ->%Sg].
Qed.

Lemma exact_comp (p : A → B) (f : B → bytes) (c : B → C) : exact f c → exact (λ a, f (p a)) (λ a, c (p a)).
Proof. intros [Rf Sf]. split; intros *; [apply Rf|apply Sf]. Qed.

Lemma exact_const (l : bytes) : exact (λ _ : A, l) (λ _, ()).
Proof. split; [|done]. by intros _ _ s t ->%(inj (app l)). Qed.

Lemma exact_see (f : A → bytes) (c : A → C) (d : A → D) :
  exact f c → (∀ a b, c a = c b ↔ d a = d b) → exact f d.
Proof.
  intros [Rf Sf] Hcd. split.
  - intros a b s t [?%Hcd ?]%Rf. done.
  - intros a b ?%Hcd. by apply Sf.
Qed.

End combine.

Section exact.
Context {A B C : Type}.

Lemma exact_prefix (l : bytes) (f : A → bytes) (c : A → C) : exact f c → exact (λ a, l ++ f a) c.
Proof.
  intros Hf. apply (exact_see _ (λ a, ((), c a))); [by apply exact_app; [apply exact_const|]|].
  intros a b. split; [by intros [= ->]|by intros ->].
Qed.

Lemma exact_nullable (f : A → bytes) (c : A → C) :
  tagged f → exact f c → exact (putNullable f) (fmap c).
Proof.
  intros Htag [Rf Sf]. split.
  - intros [a|] [b|] s t; cbn.
    + by intros [-> ->]%Rf.
    + destruct (Htag a) as (k & l & -> & ?). by intros [= ->].
    + destruct (Htag b) as (k & l & -> & ?). by intros [= <-].
    + by intros [= ->].
  - intros [a|] [b|]; cbn; try done. by intros [= ->%Sf].
Qed.

(** A list after its length. *)
Lemma exact_list (f : A → bytes) (c : A → C) (l k : list A) s t :
  exact f c → length l = length k → (l ≫= f) ++ s = (k ≫= f) ++ t → c <$> l = c <$> k ∧ s = t.
Proof.
  intros Hf. revert k. induction l as [|a l IH]; intros [|b k]; try done; cbn [length].
  intros [= Hlen]. rewrite !bind_cons, <-!(assoc_L (++)).
  intros [Hc [Hl ->]%IH]%(exact_reads _ _ Hf); [|done]. split; [|done]. cbn. congruence.
Qed.

Lemma exact_list_says (f : A → bytes) (c : A → C) (l k : list A) :
  exact f c → c <$> l = c <$> k → l ≫= f = k ≫= f.
Proof.
  intros Hf. revert k. induction l as [|a l IH]; intros [|b k]; try done; cbn.
  intros [= Hc Hl]. rewrite (exact_says _ _ Hf _ _ Hc). f_equal. by apply IH.
Qed.

End exact.

Lemma tagged_byte {A} (k : N) (f : A → bytes) : k ≠ 0%N → tagged (λ a, putByte k ++ f a).
Proof. intros Hk a. by exists k, (f a). Qed.

(** *** The primitives *)
(** A byte with the eighth bit set says that more follow. *)
Lemma low7 v : (N.lor (N.land v 127) 128 = v mod 128 + 128)%N.
Proof.
  change 127%N with (N.ones 7). rewrite N.land_ones. change (2 ^ 7)%N with 128%N.
  pose proof (N.mod_lt v 128 ltac:(done)) as Hlt. generalize dependent (v mod 128)%N. intros u Hu.
  rewrite <-N.lxor_lor; [rewrite <-N.add_nocarry_lxor; [done|]|];
    (apply N.bits_inj; intros k; rewrite N.land_spec, N.bits_0; change 128%N with (2 ^ 7)%N;
     rewrite N.pow2_bits_eqb; destruct (N.eqb_spec 7 k) as [<-|]; [|by rewrite andb_false_r];
     rewrite andb_true_r; destruct (decide (u = 0)%N) as [->|]; [done|];
     apply N.bits_above_log2, N.log2_lt_pow2; [lia|exact Hu]).
Qed.

Lemma var_uint_S n v :
  var_uint (S n) v =
  if (128 <=? v)%N then N.lor (N.land v 127) 128 :: var_uint n (N.shiftr v 7) else [v].
Proof. done. Qed.

Lemma cons_eq_inv {A} (x y : A) l k : x :: l = y :: k → x = y ∧ l = k.
Proof. by intros [= -> ->]. Qed.

Lemma var_uint_reads n m v w s t :
  (v < 2 ^ (7 * N.of_nat (S n)))%N → (w < 2 ^ (7 * N.of_nat (S m)))%N →
  var_uint (S n) v ++ s = var_uint (S m) w ++ t → v = w ∧ s = t.
Proof.
  assert (∀ n v, (128 <= v)%N → (v < 2 ^ (7 * N.of_nat (S n)))%N →
    ∃ n', n = S n' ∧ (N.shiftr v 7 < 2 ^ (7 * N.of_nat (S n')))%N) as Hmore.
  { intros k u Hu Hk. destruct k as [|k]; [by apply N.lt_nge in Hk|]. exists k. split; [done|].
    rewrite N.shiftr_div_pow2. apply N.Div0.div_lt_upper_bound. rewrite <-N.pow_add_r.
    replace (7 + 7 * N.of_nat (S k))%N with (7 * N.of_nat (S (S k)))%N by lia. done. }
  revert m v w. induction n as [|n IH]; intros m v w Hv Hw;
    (rewrite (var_uint_S _ v), (var_uint_S _ w);
     destruct (N.leb_spec 128 v) as [Lv|Lv]; destruct (N.leb_spec 128 w) as [Lw|Lw];
     rewrite ?(low7 v), ?(low7 w); cbn [app]; intros [Hb Heq]%cons_eq_inv;
     pose proof (N.mod_lt v 128 ltac:(done)) as Hvm; pose proof (N.mod_lt w 128 ltac:(done)) as Hwm;
     try done; try (exfalso; clear -Hb Lv Lw; generalize dependent (v mod 128)%N;
                    generalize dependent (w mod 128)%N; intros; lia));
    destruct (Hmore _ _ Lv Hv) as (n' & Hn & Hv'); [done|injection Hn as <-];
    destruct (Hmore _ _ Lw Hw) as (m' & -> & Hw').
  apply IH in Heq as [Hshift ->]; [|done..]. split; [|done].
  rewrite !N.shiftr_div_pow2 in Hshift. change (2 ^ 7)%N with 128%N in Hshift.
  rewrite (N.div_mod v 128), (N.div_mod w 128), Hshift by done. f_equal. by apply (N.add_cancel_r _ _ 128).
Qed.

Lemma exact_varuint : exact putVarUint id.
Proof.
  split; [|by intros a b Hab; cbn in Hab; subst]. intros v w s t. apply var_uint_reads.
  all: eapply N.lt_le_trans; [apply N.size_gt|apply N.pow_le_mono_r; [done|]].
  all: rewrite Nat2N.inj_succ, N2Nat.id; unfold id; lia.
Qed.

Lemma bytes_bit v i k : (k < 8)%N → N.testbit (N.land (N.shiftr v (8 * i)) 255) k = N.testbit v (8 * i + k).
Proof.
  intros Hk. rewrite N.land_spec, N.shiftr_spec by lia. change 255%N with (N.ones 8).
  rewrite N.ones_spec_low, andb_true_r by done. f_equal. lia.
Qed.

Lemma putU64_reads v w s t :
  (v < 2 ^ 64)%N → (w < 2 ^ 64)%N → putU64 v ++ s = putU64 w ++ t → v = w ∧ s = t.
Proof.
  intros Hv Hw [Hput ->]%app_inj_1; [|by unfold putU64; rewrite !length_fmap].
  split; [|done]. apply N.bits_inj. intros k. destruct (decide (k < 64)%N) as [Hk|Hk].
  - assert (k / 8 ∈ [0; 1; 2; 3; 4; 5; 6; 7])%N as Hin.
    { assert (k / 8 < 8)%N as Hi by (apply N.Div0.div_lt_upper_bound; lia).
      generalize dependent (k / 8)%N. intros i Hi. rewrite !elem_of_cons. lia. }
    rewrite (N.div_mod k 8) by done. pose proof (N.mod_lt k 8 ltac:(done)).
    rewrite <-!bytes_bit by done. f_equal.
    unfold putU64 in Hput. generalize dependent (k / 8)%N. intros i Hin.
    apply (list_elem_of_lookup_1) in Hin as [n Hn].
    assert (putU64 v !! n = putU64 w !! n) as Heq by (unfold putU64; by rewrite Hput).
    unfold putU64 in Heq. rewrite !list_lookup_fmap, Hn in Heq. by injection Heq.
  - assert (∀ u, (u < 2 ^ 64)%N → N.testbit u k = false) as Hout; [|by rewrite !Hout].
    intros u Hu. destruct (decide (u = 0)%N) as [->|]; [apply N.bits_0|].
    apply N.bits_above_log2. apply N.log2_lt_pow2 in Hu; lia.
Qed.

Lemma u64_bound v : (u64 v < 2 ^ 64)%N.
Proof. unfold u64. pose proof (Z.mod_pos_bound v (2 ^ 64)). lia. Qed.

Lemma exact_u64 : exact (λ v, putU64 (u64 v)) u64.
Proof.
  split; [|by intros a b ->]. intros a b s t. apply putU64_reads; apply u64_bound.
Qed.

Lemma putU64_says v w : u64 v = u64 w ↔ (v mod 2 ^ 64 = w mod 2 ^ 64)%Z.
Proof.
  unfold u64. pose proof (Z.mod_pos_bound v (2 ^ 64)). pose proof (Z.mod_pos_bound w (2 ^ 64)). lia.
Qed.

(** What is left of an integer in eight bytes. *)
Definition wrap64 (v : Z) : Z := (v mod 2 ^ 64)%Z.

Lemma exact_bytes64 : exact (λ v, putU64 (u64 v)) wrap64.
Proof. eapply exact_see; [apply exact_u64|]. apply putU64_says. Qed.

Lemma exact_bool : exact putBool id.
Proof.
  apply exact_prefix. split; [|by intros a b Hab; cbn in Hab; subst].
  intros [] [] s t; cbn; naive_solver.
Qed.

Lemma exact_signed : exact putSigned wrap64.
Proof. apply exact_prefix, exact_bytes64. Qed.

Lemma exact_unsigned : exact putUnsigned wrap64.
Proof. apply exact_prefix, exact_bytes64. Qed.

Lemma toUtf8_inj s t : toUtf8 s = toUtf8 t → s = t.
Proof.
  unfold toUtf8. intros Heq. rewrite <-(String.string_of_list_ascii_of_string s), <-(String.string_of_list_ascii_of_string t).
  f_equal. refine (list_fmap_eq_inj _ _ _ _ Heq).
  intros a b Hab. by rewrite <-(ascii_N_embedding a), Hab, ascii_N_embedding.
Qed.

Lemma exact_string : exact putString id.
Proof.
  apply exact_prefix. split; [|by intros a b Hab; cbn in Hab; subst].
  intros a b s t. rewrite <-!(assoc_L (++)). intros [Hlen Heq]%(exact_reads _ _ exact_varuint).
  apply app_inj_1 in Heq as [Heq ->]; [|by apply Nat2N.inj]. split; [by apply toUtf8_inj|done].
Qed.

Lemma tagged_string : tagged putString.
Proof. by apply tagged_byte. Qed.
Lemma tagged_signed : tagged putSigned.
Proof. by apply tagged_byte. Qed.
Lemma tagged_unsigned : tagged putUnsigned.
Proof. by apply tagged_byte. Qed.

(** The empty string and NULL are put alike. *)
Lemma exact_optional_string : exact putOptionalString id.
Proof.
  split; [|by intros a b Hab; cbn in Hab; subst]. intros a b s t. unfold putOptionalString.
  destruct (decide (a = _)) as [->|Ha], (decide (b = _)) as [->|Hb].
  - by intros [= ->].
  - destruct (tagged_string b) as (k & l & -> & ?). by intros [= <-].
  - destruct (tagged_string a) as (k & l & -> & ?). by intros [= ->].
  - apply (exact_reads _ _ exact_string).
Qed.

Definition norm_date (d : QDate) : QDate := (λ ymd, (wrap64 ymd.1.1, wrap64 ymd.1.2, wrap64 ymd.2)) <$> d.
(** The seconds remain. *)
Definition norm_time (t : QDateTime) : QDateTime := (λ ms, 1000 * wrap64 (toSecsSinceEpoch ms))%Z <$> t.

Lemma exact_date : exact putDate norm_date.
Proof.
  set (put := λ ymd : Z * Z * Z, putByte 5 ++ putSigned ymd.1.1 ++ putSigned ymd.1.2 ++ putSigned ymd.2).
  assert (exact put (λ ymd, (wrap64 ymd.1.1, wrap64 ymd.1.2, wrap64 ymd.2))) as Hput.
  { apply exact_prefix. eapply exact_see.
    - eapply exact_app; [exact (exact_comp (λ ymd : Z * Z * Z, ymd.1.1) _ _ exact_signed)|].
      eapply exact_app; [exact (exact_comp (λ ymd : Z * Z * Z, ymd.1.2) _ _ exact_signed)|].
      exact (exact_comp (λ ymd : Z * Z * Z, ymd.2) _ _ exact_signed).
    - cbn. intros a b. split; [by intros [= -> -> ->]|by intros [= -> -> ->]]. }
  assert (∀ d, putDate d = putNullable put d) as Heq by (by intros [[[? ?] ?]|]).
  pose proof (exact_nullable put _ (tagged_byte 5 _ ltac:(done)) Hput) as [R S].
  split; intros *; rewrite !Heq; [apply R|apply S].
Qed.

Lemma exact_datetime : exact putDateTimeSeconds norm_time.
Proof.
  set (put := λ ms : Z, putByte 6 ++ putSigned (toSecsSinceEpoch ms)).
  assert (exact put (λ ms, 1000 * wrap64 (toSecsSinceEpoch ms))%Z) as Hput.
  { apply exact_prefix. eapply exact_see; [exact (exact_comp toSecsSinceEpoch _ _ exact_signed)|].
    intros a b. cbn. lia. }
  assert (∀ d, putDateTimeSeconds d = putNullable put d) as Heq by (by intros [?|]).
  pose proof (exact_nullable put _ (tagged_byte 6 _ ltac:(done)) Hput) as [R S].
  split; intros *; rewrite !Heq; [apply R|apply S].
Qed.

(** A list with its length in front. *)
Lemma exact_counted {A C} (f : A → bytes) (c : A → C) :
  exact f c → exact (λ l, putVarUint (N.of_nat (length l)) ++ (l ≫= f)) (fmap c).
Proof.
  intros Hf. split.
  - intros l k s t. rewrite <-!(assoc_L (++)). intros [Hlen Heq]%(exact_reads _ _ exact_varuint).
    eapply exact_list; [done|by apply Nat2N.inj|done].
  - intros l k Heq. rewrite (exact_list_says f c l k) by done.
    f_equal. f_equal. f_equal. by rewrite <-(length_fmap c l), Heq, length_fmap.
Qed.

Lemma exact_string_list : exact putStringList id.
Proof.
  apply exact_prefix. apply (exact_see _ (fmap id)); [apply exact_counted, exact_string|].
  intros a b. by rewrite !list_fmap_id.
Qed.

(** *** The rows *)

(** Takes the encoder of a row apart. *)
Ltac leaf lem :=
  match type of lem with
  | exact ?f ?c => match goal with |- exact (λ n, f (@?p n)) _ => exact (exact_comp p f c lem) end
  end.

Ltac leaves := first
  [ leaf exact_string | leaf exact_optional_string | leaf exact_signed | leaf exact_unsigned | leaf exact_bool
  | leaf exact_date | leaf exact_datetime | leaf exact_string_list
  | leaf (exact_nullable putSigned _ tagged_signed exact_signed)
  | leaf (exact_nullable putUnsigned _ tagged_unsigned exact_unsigned)
  | leaf (exact_nullable putString _ tagged_string exact_string) ].

Ltac exact_row :=
  eapply exact_see;
  [ repeat first [leaves | eapply exact_app] | ].

Ltac same_fields := intros [] []; cbv -[wrap64 norm_date norm_time fmap option_fmap list_fmap sort_strings];
  split; intros [=]; [f_equal; congruence|subst; repeat apply (f_equal2 pair); congruence].

Definition norm_node (n : Node) : Node :=
  {| n_uuid := n_uuid n; n_parent := n_parent n; n_active := n_active n; n_name := n_name n;
     n_kind := wrap64 (n_kind n); n_descr := n_descr n; n_version := wrap64 (n_version n);
     n_deleted := n_deleted n; n_updated := wrap64 (n_updated n); n_exclude := n_exclude n;
     n_category := n_category n; n_updatedId := wrap64 (n_updatedId n) |}.

Lemma exact_node : exact encode_node norm_node.
Proof. unfold encode_node. exact_row. same_fields. Qed.

Definition norm_category (c : ActionCategory) : ActionCategory :=
  {| c_id := c_id c; c_name := c_name c; c_descr := c_descr c; c_color := c_color c; c_version := wrap64 (c_version c);
     c_icon := c_icon c; c_deleted := c_deleted c; c_updated := wrap64 (c_updated c) |}.

Lemma exact_category : exact encode_category norm_category.
Proof. unfold encode_category. exact_row. same_fields. Qed.

(** NULL and the empty text are one where a text is optional, and of the
    importance and the urgency there are both or none. *)
Definition norm_action (a : Action) : Action :=
  {| a_id := a_id a; a_node := a_node a; a_origin := Some (toString (a_origin a));
     a_priority := wrap64 <$> a_priority a; a_importance := wrap64 ∘ fst <$> dyn a;
     a_urgency := wrap64 ∘ snd <$> dyn a; a_status := wrap64 (a_status a); a_favorite := a_favorite a;
     a_name := a_name a; a_descr := a_descr a; a_created := norm_date (a_created a);
     a_due_kind := wrap64 (a_due_kind a); a_start := norm_time (a_start a); a_due_by := norm_time (a_due_by a);
     a_due_timezone := Some (toString (a_due_timezone a)); a_completed := norm_time (a_completed a);
     a_estimate := wrap64 <$> a_estimate a; a_difficulty := wrap64 <$> a_difficulty a;
     a_repeat_kind := wrap64 <$> a_repeat_kind a; a_repeat_unit := wrap64 <$> a_repeat_unit a;
     a_repeat_when := wrap64 <$> a_repeat_when a; a_repeat_after := wrap64 <$> a_repeat_after a;
     a_kind := wrap64 (a_kind a); a_version := wrap64 (a_version a); a_category := Some (toString (a_category a));
     a_time_spent := wrap64 <$> a_time_spent a; a_updated := wrap64 (a_updated a);
     a_updated_id := wrap64 (a_updated_id a) |}.

Definition norm_day (d : Day) : Day :=
  {| d_date := norm_date (d_date d); d_color := Some (toString (d_color d)); d_notes := Some (toString (d_notes d));
     d_report := Some (toString (d_report d)); d_updated := wrap64 (d_updated d);
     d_updated_id := wrap64 (d_updated_id d) |}.

Lemma exact_toString : exact (λ o, putOptionalString (toString o)) toString.
Proof. apply (exact_comp toString _ _ exact_optional_string). Qed.

Lemma exact_day : exact encode_day norm_day.
Proof.
  unfold encode_day. eapply exact_see; [repeat first [leaf exact_toString | leaves | eapply exact_app]|].
  same_fields.
Qed.

Definition put_dyn (iu : Z * Z) : bytes := putSigned iu.1 ++ putSigned iu.2.

Lemma exact_dyn :
  exact (λ a, putNullable put_dyn (dyn a)) (λ a, (wrap64 ∘ fst <$> dyn a, wrap64 ∘ snd <$> dyn a)).
Proof.
  assert (exact put_dyn (λ iu, (wrap64 iu.1, wrap64 iu.2))) as Hput.
  { unfold put_dyn. eapply exact_app; [exact (exact_comp fst _ _ exact_signed)|exact (exact_comp snd _ _ exact_signed)]. }
  assert (tagged put_dyn) as Htag by (intros a; by exists 3%N, (putI64 a.1 ++ putSigned a.2)).
  eapply exact_see; [exact (exact_comp dyn _ _ (exact_nullable _ _ Htag Hput))|].
  intros a b. cbv beta. destruct (dyn a) as [[i u]|], (dyn b) as [[j v]|]; cbn; split; intros [=]; congruence.
Qed.

Lemma option_fmap_id_eq {A} (x y : option A) : id <$> x = id <$> y ↔ x = y.
Proof. by rewrite !option_fmap_id. Qed.

Lemma exact_nullable_string : exact (putNullable putString) id.
Proof.
  eapply exact_see; [apply (exact_nullable _ _ tagged_string exact_string)|]. apply option_fmap_id_eq.
Qed.

Lemma exact_action : exact encode_action norm_action.
Proof.
  unfold encode_action. change (λ iu : Z * Z, putSigned iu.1 ++ putSigned iu.2) with put_dyn.
  eapply exact_see; [repeat first [exact exact_dyn | leaf exact_toString | leaf exact_nullable_string | leaves | eapply exact_app]|].
  intros [] []. unfold norm_action, id. cbn -[dyn fmap].
  split; intros [=]; [f_equal; congruence|subst; repeat apply (f_equal2 pair); congruence].
Qed.

Definition norm_day_color (c : DayColor) : DayColor :=
  {| l_id := l_id c; l_score := wrap64 (l_score c); l_color := l_color c; l_name := l_name c;
     l_updated := wrap64 (l_updated c); l_updated_id := wrap64 (l_updated_id c) |}.

Lemma exact_day_color : exact encode_day_color norm_day_color.
Proof. unfold encode_day_color. exact_row. same_fields. Qed.

Lemma exact_tag : exact encode_tag id.
Proof. unfold encode_tag. exact_row. same_fields. Qed.

Definition norm_event (e : WorkEvent) : WorkEvent :=
  {| e_kind := wrap64 (e_kind e); e_time := wrap64 (e_time e); e_start := wrap64 <$> e_start e;
     e_end := wrap64 <$> e_end e; e_duration := wrap64 <$> e_duration e; e_paused := wrap64 <$> e_paused e;
     e_name := e_name e; e_notes := e_notes e |}.

Lemma exact_event : exact encode_event norm_event.
Proof.
  unfold encode_event. eapply exact_see; [repeat first [leaf exact_nullable_string | leaves | eapply exact_app]|].
  same_fields.
Qed.

(** The counters of a session that is not over are the client's own. *)
Definition put_counters (w : WorkSession) : bytes :=
  if has_live_local_counters w then putNull ++ putNull else putUnsigned (w_duration w) ++ putUnsigned (w_paused w).

Definition counters (w : WorkSession) : option (Z * Z) :=
  if has_live_local_counters w then None else Some (wrap64 (w_duration w), wrap64 (w_paused w)).

Lemma exact_counters : exact put_counters counters.
Proof.
  assert (exact (λ w, putUnsigned (w_duration w) ++ putUnsigned (w_paused w))
                (λ w, (wrap64 (w_duration w), wrap64 (w_paused w)))) as [R S].
  { eapply exact_app; [exact (exact_comp w_duration _ _ exact_unsigned)|exact (exact_comp w_paused _ _ exact_unsigned)]. }
  unfold put_counters, counters. split.
  - intros a b s t. destruct (has_live_local_counters a), (has_live_local_counters b); [by intros [= ->]|done|done|].
    by intros [-> ->]%R.
  - intros a b. destruct (has_live_local_counters a), (has_live_local_counters b); [done|done|done|].
    intros [= Hd Hp]. apply S. by rewrite Hd, Hp.
Qed.

Lemma exact_state : exact (λ s, putSigned (work_state s)) id.
Proof.
  eapply exact_see; [exact (exact_comp work_state _ _ exact_signed)|]. cbv beta.
  intros [] []; vm_compute; split; congruence.
Qed.

Definition norm_work (w : WorkSession) : WorkSession :=
  {| w_id := w_id w; w_action := w_action w; w_start := wrap64 (w_start w); w_end := wrap64 <$> w_end w;
     w_duration := default 0%Z (fst <$> counters w); w_paused := default 0%Z (snd <$> counters w); w_state := w_state w;
     w_version := wrap64 (w_version w); w_touched := wrap64 (w_touched w); w_name := w_name w; w_notes := w_notes w;
     w_updated := wrap64 (w_updated w); w_updatedId := wrap64 (w_updatedId w); w_events := norm_event <$> w_events w |}.

Lemma exact_work : exact encode_work_session norm_work.
Proof.
  unfold encode_work_session.
  eapply exact_see;
    [repeat first [exact exact_counters | exact (exact_comp w_events _ _ (exact_counted _ _ exact_event))
                   | exact (exact_comp w_state _ _ exact_state) | leaves | eapply exact_app]|].
  intros [] []. unfold norm_work, counters, has_live_local_counters, id; cbn.
  split; intros [=]; destruct w_state0, w_state1; try done; simplify_eq; cbn in *; congruence.
Qed.

Definition norm_block `{QStringOrder} (b : TimeBlock) : TimeBlock :=
  {| b_id := b_id b; b_start := wrap64 (b_start b); b_end := wrap64 (b_end b); b_name := b_name b;
     b_kind := wrap64 (b_kind b); b_category := b_category b; b_actions := sort_strings (b_actions b);
     b_version := wrap64 (b_version b); b_updated := wrap64 (b_updated b); b_updatedId := wrap64 (b_updatedId b) |}.

Lemma exact_block `{QStringOrder} : exact encode_time_block norm_block.
Proof.
  unfold encode_time_block.
  eapply exact_see;
    [repeat first [exact (exact_comp (λ b, sort_strings (b_actions b)) _ _ exact_string_list) | leaves | eapply exact_app]|].
  same_fields.
Qed.

Definition norm_notification (n : Notification) : Notification :=
  {| f_id := wrap64 (f_id n); f_created := wrap64 (f_created n); f_valid_to := wrap64 <$> f_valid_to n;
     f_subject := f_subject n; f_message := f_message n; f_sender_type := wrap64 (f_sender_type n);
     f_sender_id := f_sender_id n; f_to_user := f_to_user n; f_to_tenant := f_to_tenant n; f_uuid := f_uuid n;
     f_kind := wrap64 (f_kind n); f_data := f_data n; f_updated := wrap64 (f_updated n);
     f_updatedId := wrap64 (f_updatedId n) |}.

Lemma exact_notification : exact encode_notification norm_notification.
Proof.
  unfold encode_notification.
  eapply exact_see; [repeat first [leaf exact_nullable_string | leaves | eapply exact_app]|]. same_fields.
Qed.

(** *** The tables *)

(** No row follows. *)
Definition no_row (s : bytes) : Prop := head s ≠ Some 126%N.

Definition row_bytes {A} (enc : A → bytes) (r : A) : bytes := putByte 126 ++ enc r.

Lemma rows_read {A C} (enc : A → bytes) (see : A → C) l k s t :
  exact enc see → no_row s → no_row t →
  (l ≫= row_bytes enc) ++ s = (k ≫= row_bytes enc) ++ t → see <$> l = see <$> k ∧ s = t.
Proof.
  intros He Hs Ht. revert k. induction l as [|a l IH]; intros [|b k].
  - done.
  - cbn. intros ->. by destruct Hs.
  - cbn. intros <-. by destruct Ht.
  - rewrite !bind_cons, <-!(assoc_L (++)). unfold row_bytes at 1 3. cbn [app putByte].
    intros [_ [Hab [Hlk ->]%IH]%(exact_reads _ _ He)]%cons_eq_inv. split; [|done]. cbn. congruence.
Qed.

Lemma readable_rows {A} (l : list (option A)) rs : mapM id l = Some rs ↔ l = Some <$> rs.
Proof.
  rewrite mapM_Some. split.
  - intros H. induction H as [|o r l rs Ho _ IH]; [done|]. cbn. cbn in Ho. congruence.
  - intros ->. induction rs as [|r rs IH]; by constructor.
Qed.

Lemma hashRows_inv {A} table (enc : A → bytes) l b :
  hashRows table enc l = Some b ↔
    ∃ rs, l = Some <$> rs ∧ b = putString table ++ (rs ≫= row_bytes enc).
Proof.
  unfold hashRows. rewrite fmap_Some. by setoid_rewrite readable_rows.
Qed.

(** What a table of messages is, up to what the encoder leaves out. *)
Definition seen {A} (norm : A → A) (rows : list (option A)) : list (option A) := fmap (M := option) norm <$> rows.

Lemma seen_rows {A} (norm : A → A) rs qs : seen norm (Some <$> rs) = seen norm (Some <$> qs) ↔ norm <$> rs = norm <$> qs.
Proof.
  unfold seen. rewrite <-!list_fmap_compose. change (fmap norm ∘ Some) with (Some ∘ norm).
  rewrite !(list_fmap_compose norm Some). split; [|by intros ->]. apply list_fmap_eq_inj. by intros ?? [= ->].
Qed.

Lemma hashRows_exact {A} table (enc : A → bytes) (norm : A → A) l k b c s t :
  exact enc norm → hashRows table enc l = Some b → hashRows table enc k = Some c →
  no_row s → no_row t → (b ++ s = c ++ t ↔ seen norm l = seen norm k ∧ s = t).
Proof.
  intros He (rs & -> & ->)%hashRows_inv (qs & -> & ->)%hashRows_inv Hs Ht.
  rewrite seen_rows, <-!(assoc_L (++)). split.
  - intros [Heq ->]%app_inv_head%(rows_read _ norm); done.
  - intros [Heq ->]. do 2 f_equal. apply (exact_list_says _ norm); [|done]. by apply exact_prefix.
Qed.

Lemma hashRows_starts {A} table (enc : A → bytes) l b : hashRows table enc l = Some b → no_row b.
Proof. by intros (rs & -> & ->)%hashRows_inv. Qed.

Section database.
Context `{QStringOrder}.

(** The tables agree on all that is put. *)
Definition same_table (k : Kind) (d e : Database) : Prop :=
  match k with
  | KNode => seen norm_node (t_node d) = seen norm_node (t_node e)
  | KActionCategory => seen norm_category (t_category d) = seen norm_category (t_category e)
  | KAction => norm_action <$> t_action d = norm_action <$> t_action e
  | KDay => norm_day <$> t_day d = norm_day <$> t_day e
  | KDayColor => norm_day_color <$> t_day_colors d = norm_day_color <$> t_day_colors e
  | KTag => t_tag d = t_tag e
  | KWorkSession => seen norm_work (t_work d) = seen norm_work (t_work e)
  | KTimeBlock => seen norm_block (t_block d) = seen norm_block (t_block e)
  | KNotification => seen norm_notification (t_notification d) = seen norm_notification (t_notification e)
  end.

Lemma hashTable_exact d e k b c s t :
  hashTable d k = Some b → hashTable e k = Some c → no_row s → no_row t →
  (b ++ s = c ++ t ↔ same_table k d e ∧ s = t).
Proof.
  intros Hb Hc Hs Ht. destruct k; cbn in *.
  - by apply (hashRows_exact _ _ _ _ _ _ _ _ _ exact_node Hb Hc).
  - by apply (hashRows_exact _ _ _ _ _ _ _ _ _ exact_category Hb Hc).
  - rewrite (hashRows_exact _ _ _ _ _ _ _ _ _ exact_action Hb Hc) by done. by rewrite seen_rows.
  - rewrite (hashRows_exact _ _ _ _ _ _ _ _ _ exact_day Hb Hc) by done. by rewrite seen_rows.
  - rewrite (hashRows_exact _ _ _ _ _ _ _ _ _ exact_day_color Hb Hc) by done. by rewrite seen_rows.
  - rewrite (hashRows_exact _ _ _ _ _ _ _ _ _ exact_tag Hb Hc) by done. by rewrite seen_rows, !list_fmap_id.
  - by apply (hashRows_exact _ _ _ _ _ _ _ _ _ exact_work Hb Hc).
  - by apply (hashRows_exact _ _ _ _ _ _ _ _ _ exact_block Hb Hc).
  - by apply (hashRows_exact _ _ _ _ _ _ _ _ _ exact_notification Hb Hc).
Qed.

Lemma hashTable_starts d k b : hashTable d k = Some b → no_row b.
Proof. destruct k; apply hashRows_starts. Qed.

Lemma tables_start d ks bs :
  Forall2 (λ k b, hashTable d k = Some b) ks bs → no_row (mjoin bs).
Proof.
  intros Hm. destruct Hm as [|k b ks bs Hb Hm]; [done|].
  cbn. pose proof (hashTable_starts _ _ _ Hb) as Hn. destruct b as [|x b]; [|done].
  destruct k; cbn in Hb; by apply hashRows_inv in Hb as (? & ? & ?).
Qed.

Lemma tables_exact d e ks (bs cs : list bytes) :
  Forall2 (λ k b, hashTable d k = Some b) ks bs → Forall2 (λ k c, hashTable e k = Some c) ks cs →
  (mjoin bs = mjoin cs ↔ ∀ k, k ∈ ks → same_table k d e).
Proof.
  intros Hbs. revert cs. induction Hbs as [|k b ks bs Hb Hbs IH]; intros cs Hcs; inversion Hcs as [|? c ? cs' Hc Hcs'];
    subst; [set_solver|].
  cbn. rewrite (hashTable_exact d e k) by (done || by eapply tables_start).
  rewrite (IH cs') by done. setoid_rewrite elem_of_cons. naive_solver.
Qed.

Definition all_kinds : list Kind := snd <$> kTableDigestSpecs.

Lemma all_kinds_all k : k ∈ all_kinds.
Proof. unfold all_kinds. destruct k; cbn; set_solver. Qed.

Lemma digest_bytes_tables d b :
  digest_bytes d = Some b ↔ ∃ bs, Forall2 (λ k b, hashTable d k = Some b) all_kinds bs ∧ b = mjoin bs.
Proof.
  unfold digest_bytes, all_kinds. rewrite fmap_Some. setoid_rewrite mapM_Some. by setoid_rewrite Forall2_fmap_l.
Qed.

(** Every message of the database can be read. *)
Definition readable (d : Database) : Prop :=
  Forall is_Some (t_node d) ∧ Forall is_Some (t_category d) ∧ Forall is_Some (t_work d) ∧
  Forall is_Some (t_block d) ∧ Forall is_Some (t_notification d).

Lemma hashRows_total {A} table (enc : A → bytes) l : is_Some (hashRows table enc l) ↔ Forall is_Some l.
Proof. unfold hashRows. rewrite fmap_is_Some. apply mapM_is_Some. Qed.

Lemma digest_total d : is_Some (digest_bytes d) ↔ readable d.
Proof.
  unfold digest_bytes. rewrite fmap_is_Some, mapM_is_Some. unfold kTableDigestSpecs.
  rewrite !Forall_cons, Forall_nil. unfold compose. cbn [snd hashTable]. rewrite !hashRows_total.
  unfold readable. rewrite !Forall_fmap. split; [naive_solver|].
  intros (? & ? & ? & ? & ?). split_and!; try done; apply Forall_true; intros; by eexists.
Qed.

(** C29: The digest of two databases, in the bytes that are hashed, is the same
    exactly when every one of the nine tables agrees on all that its encoder
    puts: row for row and column for column, integers in their 64 bits, dates
    to the day, times to the second, an absent optional text as the empty
    one, importance and urgency only when both are there, the counters of a
    work session only when it is over, the actions of a time block in any
    order the sort brings together.  No two different contents are run
    together by the encoding, across columns, rows or tables. *)
Theorem digest_exact d e b c :
  digest_bytes d = Some b → digest_bytes e = Some c → (b = c ↔ ∀ k, same_table k d e).
Proof.
  intros (bs & Hbs & ->)%digest_bytes_tables (cs & Hcs & ->)%digest_bytes_tables.
  rewrite (tables_exact d e) by done. split; [|naive_solver].
  intros Hall k. apply Hall, all_kinds_all.
Qed.

(** Databases that agree have one hash, whatever the hash function. *)
Lemma same_tables_same_hash sha1 d e :
  readable d → readable e → (∀ k, same_table k d e) → getDbDataHash sha1 d = getDbDataHash sha1 e.
Proof.
  intros [b Hb]%digest_total [c Hc]%digest_total Hall. unfold getDbDataHash. rewrite Hb, Hc. cbn. do 2 f_equal.
  apply digest_bytes_tables in Hb as (bs & Hbs & ->). apply digest_bytes_tables in Hc as (cs & Hcs & ->).
  by apply (tables_exact d e all_kinds).
Qed.

(** What agrees once put in 64 bits agrees. *)
Lemma wrap64_signed v w :
  (- 2 ^ 63 ≤ v < 2 ^ 63)%Z → (- 2 ^ 63 ≤ w < 2 ^ 63)%Z → wrap64 v = wrap64 w → v = w.
Proof.
  unfold wrap64. intros Hv Hw Heq.
  pose proof (Z.div_mod v (2 ^ 64) ltac:(done)). pose proof (Z.div_mod w (2 ^ 64) ltac:(done)).
  pose proof (Z.mod_pos_bound v (2 ^ 64) ltac:(done)). pose proof (Z.mod_pos_bound w (2 ^ 64) ltac:(done)). lia.
Qed.

Lemma wrap64_unsigned v w : (0 ≤ v < 2 ^ 64)%Z → (0 ≤ w < 2 ^ 64)%Z → wrap64 v = wrap64 w → v = w.
Proof. unfold wrap64. intros Hv Hw. by rewrite !Z.mod_small. Qed.

(** The same actions, in some order. *)
Lemma sorted_insert_perm x l : sorted_insert x l ≡ₚ x :: l.
Proof.
  induction l as [|y l IH]; [done|]. cbn. destruct (qstring_le x y); [done|]. rewrite IH. apply Permutation_swap.
Qed.

Lemma sort_strings_perm l : sort_strings l ≡ₚ l.
Proof. induction l as [|x l IH]; [done|]. cbn. by rewrite sorted_insert_perm, IH. Qed.

Lemma same_actions l k : sort_strings l = sort_strings k → l ≡ₚ k.
Proof. intros Heq. by rewrite <-(sort_strings_perm l), Heq, sort_strings_perm. Qed.

End database.

(** ** Concrete databases *)
Module Example_digest.

#[export] Instance order : QStringOrder := {| qstring_le := String.leb |}.

Example var_uint_300 : putVarUint 300 = [172; 2]%N.
Proof. by vm_compute. Qed.

Example bytes_of_minus_one : putSigned (-1) = [3; 255; 255; 255; 255; 255; 255; 255; 255]%N.
Proof. by vm_compute. Qed.

Definition work (paused : Z) (st : WorkState) : WorkSession :=
  {| w_id := "w"; w_action := "a"; w_start := 100; w_end := None; w_duration := 60; w_paused := paused; w_state := st;
     w_version := 1; w_touched := 160; w_name := "Work"; w_notes := EmptyString; w_updated := 160000; w_updatedId := 7;
     w_events := [] |}.

Definition block (actions : list string) : TimeBlock :=
  {| b_id := "b"; b_start := 0; b_end := 60; b_name := "Focus"; b_kind := 1; b_category := EmptyString;
     b_actions := actions; b_version := 1; b_updated := 5; b_updatedId := 6 |}.

Definition action (importance urgency : option Z) (zone : option string) : Action :=
  {| a_id := "a"; a_node := "n"; a_origin := None; a_priority := None; a_importance := importance;
     a_urgency := urgency; a_status := 0; a_favorite := true; a_name := "Act"; a_descr := None;
     a_created := Some (2024, 2, 29)%Z; a_due_kind := 0; a_start := None; a_due_by := Some 1700000000123%Z;
     a_due_timezone := zone; a_completed := None; a_estimate := None; a_difficulty := None; a_repeat_kind := None;
     a_repeat_unit := None; a_repeat_when := None; a_repeat_after := None; a_kind := 0; a_version := 3;
     a_category := None; a_time_spent := Some 60%Z; a_updated := 9; a_updated_id := 10 |}.

Definition database (w : WorkSession) (b : TimeBlock) (a : Action) : Database :=
  {| t_node := []; t_category := []; t_action := [a]; t_day := []; t_day_colors := []; t_tag := [];
     t_work := [Some w]; t_block := [Some b]; t_notification := [] |}.

Definition db1 : Database := database (work 5 WS_ACTIVE) (block ["x"; "y"]) (action (Some 3%Z) None None).

(** Another pause of the running session, the actions in another order, an
    importance without an urgency, and an empty time zone: one digest. *)
Definition db2 : Database := database (work 9 WS_ACTIVE) (block ["y"; "x"]) (action (Some 8%Z) None (Some ""%string)).

(** A session that is over is put with its pause. *)
Definition db3 : Database := database (work 5 WS_DONE) (block ["x"; "y"]) (action (Some 3%Z) None None).
Definition db4 : Database := database (work 9 WS_DONE) (block ["x"; "y"]) (action (Some 3%Z) None None).

Example digests : digest_bytes db1 = digest_bytes db2 ∧ digest_bytes db3 ≠ digest_bytes db4.
Proof. split; [by vm_compute|]. vm_compute. congruence. Qed.

(** A message that cannot be read leaves the client without a digest. *)
Example unreadable :
  digest_bytes {| t_node := [None]; t_category := []; t_action := []; t_day := []; t_day_colors := []; t_tag := [];
                  t_work := []; t_block := []; t_notification := [] |} = None.
Proof. by vm_compute. Qed.

End Example_digest.

Import Example_digest.

Lemma digest_exact_witness : digest_bytes db1 = digest_bytes db2 ∧ same_table KWorkSession db1 db2.
Proof.
  assert (∃ b, digest_bytes db1 = Some b) as [b Hb] by (vm_compute; by eexists).
  assert (digest_bytes db1 = digest_bytes db2) as Heq by (vm_compute; reflexivity).
  split; [exact Heq|]. rewrite Hb in Heq.
  exact (proj1 (digest_exact db1 db2 b b Hb (eq_sym Heq)) eq_refl KWorkSession).
Defined.
