(* ===== verification/WorkCache.v ===== *)
(** * The work sessions the client keeps

    [WorkCache] of src/src/NextAppUi/WorkCache.cpp: the local table of work
    sessions, the objects shared between the map of sessions, the list of
    running ones and the models of the user interface, the clock that keeps
    the running ones up to date ([updateOutcome], the client's twin of the
    server's in WorkSession.v), and the pages a list of sessions asks for
    ([WorkModel::doFetchSome] of WorkModel.cpp).

    A shared pointer is a number and the objects are in a heap, so a change
    of an object shows wherever it is shared.  [QUuid] is the text of the
    id.  A statement of SQLite may fail: whether it does is an argument.
    The message in the column [data] is a blob with [serialize] and
    [deserialize] of the protobuf library. *)
From stdpp Require Import sorting.
From S2P Require Import Prelude WorkSession.

#[local] Open Scope Z_scope.
#[local] Open Scope nextapp_scope.

(** ** The clock of a session *)

Definition set_touched (v : Z) (w : WorkSession) : WorkSession :=
  {| ws_id := ws_id w; ws_action := ws_action w; ws_start := ws_start w; ws_end := ws_end w;
     ws_duration := ws_duration w; ws_paused := ws_paused w; ws_state := ws_state w;
     ws_version := ws_version w; ws_touched := v; ws_events := ws_events w;
     ws_name := ws_name w; ws_notes := ws_notes w |}.

(** One round of the loop of [WorkCache::updateOutcome]; the lambda
    [end_pause] reads as the server's. *)
Definition client_step (l : WorkSession * Z) (e : WorkEvent) : result (WorkSession * Z) :=
  let '(w, pause_from) := l in
  match ev_kind e with
  | START => Ok (set_state ACTIVE (set_start (ev_time e) w), pause_from)
  | STOP =>
      let '(w, pause_from) := end_pause e (w, pause_from) in
      let w := match ev_end e with
               | Some t => set_end (Some t) w
               | None => set_end (Some (ev_time e)) w
               end in
      Ok (set_state DONE w, pause_from)
  | PAUSE =>
      let pause_from := if pause_from =? 0 then to_long (ev_time e) else pause_from in
      Ok (set_state PAUSED w, pause_from)
  | RESUME =>
      let '(w, pause_from) := end_pause e (w, pause_from) in
      Ok (set_state ACTIVE w, pause_from)
  | TOUCH => Ok (set_touched (ev_time e) w, pause_from)
  | CORRECTION =>
      let w := match ev_start e with Some t => set_start t w | None => w end in
      let! w := match ev_end e with
                | Some t =>
                    if bool_decide (ws_state w = DONE) then Ok (set_end (Some t) w)
                    else Throw runtime_error
                | None => Ok w
                end in
      let w := match ev_duration e with Some d => set_duration d w | None => w end in
      let '(w, pause_from) :=
        match ev_paused e with
        | Some p => (set_paused p w,
                     if pause_from =? 0 then pause_from else to_long (ev_time e))
        | None => (w, pause_from)
        end in
      Ok (set_texts (default (ws_name w) (ev_name e)) (default (ws_notes w) (ev_notes e)) w,
          pause_from)
  end.

Fixpoint client_loop (l : WorkSession * Z) (es : list WorkEvent) : result (WorkSession * Z) :=
  match es with
  | [] => Ok l
  | e :: es => let! l := client_step l e in client_loop l es
  end.

(** After the loop: a pause that is still open counts up to now. *)
Definition client_finish (now : Z) (l : WorkSession * Z) : WorkSession :=
  let w := if l.2 =? 0 then l.1 else (end_pause (createWorkEvent (u64 now) START) l).1 in
  if ws_start w =? 0 then set_paused 0 (set_duration 0 (set_end None w))
  else match ws_end w with
  | Some e =>
      if e <=? ws_start w then set_duration 0 w
      else let duration := u64 (e - ws_start w) in
           set_duration (Z.max 0 (to_long (duration - ws_paused w))) w
  | None =>
      if u64 now <=? ws_start w then set_duration 0 w
      else set_duration (Z.min (Z.max 0 (to_long (u64 (now - ws_start w) - ws_paused w)))
                           (3600 * 24 * 7)) w
  end.

(** [WorkCache::Outcome]: which of the displayed minutes changed. *)
Record Outcome := { out_duration : bool; out_paused : bool }.

Definition updateOutcome (now : Z) (work : WorkSession) : result (WorkSession * Outcome) :=
  if bool_decide (ws_events work = []) then Ok (work, {| out_duration := false; out_paused := false |}) else
  let orig_duration := ws_duration work / 60 in
  let orig_paused := ws_paused work / 60 in
  let orig_state := ws_state work in
  let w := set_start 0 (set_duration 0 (set_paused 0 work)) in
  let w := if bool_decide (ws_state w = DONE) then w else set_end None w in
  let! l := client_loop (w, 0) (ws_events w) in
  let w := client_finish now l in
  let w := if bool_decide (orig_state = DONE) then set_state orig_state w else w in
  Ok (w, {| out_duration := negb (orig_duration =? ws_duration w / 60);
            out_paused := negb (orig_paused =? ws_paused w / 60) |}).

(** ** The cache *)

(** [nextapp::pb::WorkSession] with the two stamps of its row. *)
Record Work := { w_session : WorkSession; w_updated : Z; w_updatedId : Z }.

Definition with_session (s : WorkSession) (w : Work) : Work :=
  {| w_session := s; w_updated := w_updated w; w_updatedId := w_updatedId w |}.

Definition w_id (w : Work) : string := ws_id (w_session w).
Definition w_state (w : Work) : WorkState := ws_state (w_session w).

(** The number of a state on the wire and in the table. *)
Definition state_code (s : WorkState) : Z :=
  match s with ACTIVE => 0 | PAUSED => 1 | DONE => 2 | DELETED => 3 end.

(** [state == ACTIVE || state == PAUSED] *)
Definition running (s : WorkState) : bool :=
  match s with ACTIVE | PAUSED => true | DONE | DELETED => false end.

Inductive Operation := ADDED | UPDATED | MOVED | OP_DELETED.

#[export] Instance Operation_eq_dec : EqDecision Operation.
Proof. solve_decision. Defined.

(** What an update carries, as far as this cache looks. *)
Inductive What := UpWork (w : Work) | UpAction (action_id : string) | UpOther.

(** The signals of the cache and its calls of [ServerComm]. *)
Inductive Out :=
| WorkSessionAdded (id : string)
| WorkSessionChanged (id : string)
| WorkSessionActionMoved (id : string)
| WorkSessionDeleted (id : string)
| activeChanged
| activeDurationChanged (changes : list (string * Outcome))
| requestIncrementalRepair
| recordSyncIssue (work_session_id action_id : string)
| clearSyncIssuesForObject (id : string).

Section cache.
Context {Blob : Type} (serialize : Work → Blob) (deserialize : Blob → option Work).

(** A row of the table [work_session] of DbStore.cpp. *)
Record WRow := {
  wr_action : string;
  wr_state : Z;
  wr_start : option Z;
  wr_end : option Z;
  wr_duration : Z;
  wr_paused : Z;
  wr_data : Blob;
  wr_updated : Z;
  wr_updated_id : Z
}.

(** [items_] and [active_] hold pointers into [heap]; [actions] are the
    ids of the local table of actions, which the table refers to. *)
Record Cache := {
  items : gmap string nat;
  active : list nat;
  heap : gmap nat Work;
  table : gmap string WRow;
  actions : gset string;
  out : list Out
}.

#[local] Abbreviation with_fields c i a h t o :=
  {| items := i; active := a; heap := h; table := t; actions := actions c; out := o |}.

Definition set_items (f : gmap string nat → gmap string nat) (c : Cache) : Cache :=
  with_fields c (f (items c)) (active c) (heap c) (table c) (out c).
Definition set_active (l : list nat) (c : Cache) : Cache :=
  with_fields c (items c) l (heap c) (table c) (out c).
Definition set_obj (l : nat) (w : Work) (c : Cache) : Cache :=
  with_fields c (items c) (active c) (<[l := w]> (heap c)) (table c) (out c).
Definition set_table (f : gmap string WRow → gmap string WRow) (c : Cache) : Cache :=
  with_fields c (items c) (active c) (heap c) (f (table c)) (out c).
Definition emit (o : list Out) (c : Cache) : Cache :=
  with_fields c (items c) (active c) (heap c) (table c) (out c ++ o).

(** *** The table *)

(** [getParams] *)
Definition getParams (w : Work) : WRow :=
  let s := w_session w in
  {| wr_action := ws_action s;
     wr_state := state_code (ws_state s);
     wr_start := if 0 <? ws_start s then Some (ws_start s) else None;
     wr_end := match ws_end s with Some e => if 0 <? e then Some e else None | None => None end;
     wr_duration := ws_duration s;
     wr_paused := ws_paused s;
     wr_data := serialize w;
     wr_updated := w_updated w;
     wr_updated_id := w_updatedId w |}.

(** [insert_query]: an older version does not replace a newer one.  The row
    must refer to an action that is there. *)
Definition insert_query (ok : bool) (w : Work) (c : Cache) : bool * Cache :=
  if ok && bool_decide (ws_action (w_session w) ∈ actions c) then
    (true, set_table (λ t,
       match t !! w_id w with
       | Some r => if wr_updated_id r <=? w_updatedId w then <[w_id w := getParams w]> t else t
       | None => <[w_id w := getParams w]> t
       end) c)
  else (false, c).

(** [remove]: false also when there was no such row. *)
Definition remove (ok : bool) (id : string) (c : Cache) : bool * Cache :=
  if ok then (bool_decide (is_Some (table c !! id)), set_table (delete id) c) else (false, c).

Definition save (ok : bool) (w : Work) (c : Cache) : bool * Cache :=
  let '(saved, c) := if bool_decide (w_state w = DELETED) then remove ok (w_id w) c
                     else insert_query ok w c in
  (saved, if saved then emit [clearSyncIssuesForObject (w_id w)] c else c).

(** [saveBatch]: [queryBatchImpl] of DbStore.h goes on after a row that
    fails. *)
Fixpoint queryBatch (ok : nat → bool) (works : list Work) (c : Cache) : bool * Cache :=
  match works with
  | [] => (true, c)
  | w :: works =>
      let '(b, c) := if bool_decide (w_state w = DELETED)
                     then (ok 0%nat, if ok 0%nat then set_table (delete (w_id w)) c else c)
                     else insert_query (ok 0%nat) w c in
      let '(b', c) := queryBatch (λ n, ok (S n)) works c in
      (b && b', c)
  end.

Definition saveBatch (ok : nat → bool) (works : list Work) (c : Cache) : bool * Cache :=
  let '(b, c) := queryBatch ok works c in
  (b, if b then emit (map (λ w, clearSyncIssuesForObject (w_id w)) works) c else c).

(** [validateStoredWorkSessions]: the rows the statement of the join finds,
    in the order [rows] of the answer. *)
Definition unresolved (c : Cache) (r : WRow) : bool :=
  (wr_state r <? state_code DONE) && bool_decide (wr_action r ∉ actions c).

Fixpoint delete_unresolved (ok : nat → bool) (rows : list (string * WRow)) (c : Cache) : bool * Cache :=
  match rows with
  | [] => (true, c)
  | (id, r) :: rows =>
      let c := emit [recordSyncIssue id (wr_action r)] c in
      if ok 0%nat then delete_unresolved (λ n, ok (S n)) rows (set_table (delete id) c)
      else (false, c)
  end.

Definition validateStoredWorkSessions (ok : nat → bool) (c : Cache) : bool * Cache :=
  if ok 0%nat then
    delete_unresolved (λ n, ok (S n)) (map_to_list (filter (λ kr, unresolved c kr.2) (table c))) c
  else (false, c).

(** *** The objects *)

(** [sortActive]: on the state, then on [touched], newest first.  The order
    of equal sessions is left open by [std::ranges::sort]; here the sort is
    stable. *)
Definition sort_key (h : gmap nat Work) (l : nat) : Z * Z :=
  match h !! l with
  | Some w => (state_code (w_state w), ws_touched (w_session w))
  | None => (0, 0)
  end.

Definition sorts_before (x y : Z * Z) : bool :=
  if negb (x.1 =? y.1) then x.1 <? y.1
  else if negb (x.2 =? y.2) then y.2 <? x.2
  else false.

(** Not out of order. *)
Definition in_order (h : gmap nat Work) (a b : nat) : Prop :=
  sorts_before (sort_key h b) (sort_key h a) = false.

#[export] Instance in_order_dec h : RelDecision (in_order h).
Proof. intros a b. unfold in_order. apply _. Defined.

Definition sortActive (c : Cache) : Cache := set_active (merge_sort (in_order (heap c)) (active c)) c.

Definition has_id (c : Cache) (id : string) (l : nat) : Prop :=
  w_id <$> heap c !! l = Some id.

#[export] Instance has_id_dec c id l : Decision (has_id c id l).
Proof. unfold has_id. apply _. Defined.

(** [removeFromActive]: the first with the id is erased. *)
Definition removeFromActive (id : string) (c : Cache) : bool * Cache :=
  match list_find (has_id c id) (active c) with
  | Some (i, _) => (true, set_active (delete i (active c)) c)
  | None => (false, c)
  end.

(** [make_shared] and [items_.emplace] for an id that is not there. *)
Definition emplace (w : Work) (c : Cache) : nat * Cache :=
  let l := fresh (dom (heap c)) in
  (l, set_items <[w_id w := l]> (set_obj l w c)).

(** *** Updates from the server *)

(** A session that no longer runs leaves the list: was it removed, and is it
    (still) there? *)
Definition trim_active (work : Work) (c : Cache) : bool * bool * Cache :=
  match list_find (has_id c (w_id work)) (active c) with
  | Some (i, _) =>
      if negb (running (w_state work)) then (true, false, set_active (delete i (active c)) c)
      else (false, true, c)
  | None => (false, false, c)
  end.

(** The object of the session: overwritten in place, or a new one. *)
Definition store_object (work : Work) (c : Cache) : nat * Cache :=
  match items c !! w_id work with
  | Some l => (l, set_obj l work c)
  | None => emplace work c
  end.

(** A session that runs enters the list. *)
Definition list_running (wsp : nat) (exist_in_active active_changed : bool) (c : Cache) : bool * Cache :=
  let is_running := match heap c !! wsp with Some w => running (w_state w) | None => false end in
  if is_running && negb exist_in_active then (true, set_active (active c ++ [wsp]) c)
  else (active_changed, c).

(** The branch of a session that was deleted ... *)
Definition process_deleted (ok : bool) (id : string) (c : Cache) : result bool * Cache :=
  let '(removed, c) := remove ok id c in
  if negb removed then (Ok false, emit [requestIncrementalRepair] c)
  else (Ok true, set_items (delete id) (emit [WorkSessionDeleted id] c)).

(** ... and of any other. *)
Definition process_stored (ok : bool) (op : Operation) (persisted work : Work)
    (active_changed exist_in_active : bool) (c : Cache) : result bool * Cache :=
  let id := w_id persisted in
  let '(wsp, c) := store_object work c in
  let '(saved, c) := save ok persisted c in
  if negb saved then (Ok false, emit [requestIncrementalRepair] c) else
  let '(active_changed, c) := list_running wsp exist_in_active active_changed c in
  let c := if active_changed || exist_in_active then sortActive c else c in
  let c := emit [if bool_decide (op = ADDED) then WorkSessionAdded id else WorkSessionChanged id] c in
  (Ok true, if active_changed || exist_in_active then emit [activeChanged] c else c).

Definition process_work (ok : bool) (now : Z) (op : Operation) (persisted : Work) (c : Cache) : result bool * Cache :=
  match updateOutcome now (w_session persisted) with
  | Throw e => (Throw e, c)
  | Ok (s, _) =>
      let work := with_session s persisted in
      let '(active_changed, exist_in_active, c) := trim_active work c in
      if bool_decide (w_state work = DELETED) then process_deleted ok (w_id persisted) c
      else process_stored ok op persisted work active_changed exist_in_active c
  end.

(** The loop over [items_] for an action that was deleted or moved, in the
    order of the ids. *)
Fixpoint action_loop (op : Operation) (ids : list (string * nat)) (c : Cache) : bool * list string * Cache :=
  match ids with
  | [] => (false, [], c)
  | (id, l) :: ids =>
      let '(found, c) := match heap c !! l with
                         | Some w => removeFromActive (w_id w) c
                         | None => (false, c)
                         end in
      let c := if bool_decide (op = OP_DELETED) then set_items (delete id) c else c in
      let '(active_changed, affected, c) := action_loop op ids c in
      (found || active_changed, id :: affected, c)
  end.

Definition of_action (c : Cache) (action_id : string) (kl : string * nat) : Prop :=
  (ws_action ∘ w_session) <$> heap c !! kl.2 = Some action_id.

#[export] Instance of_action_dec c a kl : Decision (of_action c a kl).
Proof. unfold of_action. apply _. Defined.

Definition process_action (op : Operation) (action_id : string) (c : Cache) : result bool * Cache :=
  if bool_decide (op = OP_DELETED) || bool_decide (op = MOVED) then
    let '(active_changed, affected_sessions, c) :=
      action_loop op (map_to_list (filter (of_action c action_id) (items c))) c in
    let c := if active_changed then emit [activeChanged] (sortActive c) else c in
    (Ok true, emit (map (if bool_decide (op = OP_DELETED) then WorkSessionDeleted
                         else WorkSessionActionMoved) affected_sessions) c)
  else (Ok true, c).

(** [pocessUpdate] *)
Definition pocessUpdate (ok : bool) (now : Z) (op : Operation) (what : What) (c : Cache) : result bool * Cache :=
  match what with
  | UpWork w => process_work ok now op w c
  | UpAction action_id => process_action op action_id c
  | UpOther => (Ok true, c)
  end.

(** *** Loading, the timer, queries *)

Definition clear (c : Cache) : Cache := set_active [] (set_items (λ _, ∅) c).

Fixpoint load_rows (now : Z) (rows : list (string * WRow)) (c : Cache) : result bool * Cache :=
  match rows with
  | [] => (Ok true, c)
  | (_, r) :: rows =>
      match deserialize (wr_data r) with
      | None => load_rows now rows c
      | Some work =>
          let '(it, c) := match items c !! w_id work with Some l => (l, c) | None => emplace work c end in
          match heap c !! it with
          | None => (Throw undefined, c)
          | Some w =>
              match updateOutcome now (w_session w) with
              | Throw e => (Throw e, c)
              | Ok (s, _) =>
                  let c := set_obj it (with_session s w) c in
                  load_rows now rows (set_active (active c ++ [it]) c)
              end
          end
      end
  end.

Definition loadFromCache (ok : bool) (ok_validate : nat → bool) (now : Z) (c : Cache) : result bool * Cache :=
  let '(valid, c) := validateStoredWorkSessions ok_validate c in
  if negb valid then (Ok false, c)
  else if negb ok then (Ok false, c)
  else match load_rows now (map_to_list (filter (λ kr, wr_state kr.2 <? state_code DONE) (table c))) c with
  | (Ok _, c) => (Ok true, emit [activeChanged] (sortActive c))
  | (Throw e, c) => (Throw e, c)
  end.

(** [updateSessionsDurations] *)
Fixpoint tick_loop (now : Z) (ls : list nat) (c : Cache) : result (list (string * Outcome)) * Cache :=
  match ls with
  | [] => (Ok [], c)
  | l :: ls =>
      match heap c !! l with
      | None => (Throw undefined, c)
      | Some w =>
          match updateOutcome now (w_session w) with
          | Throw e => (Throw e, c)
          | Ok (s, o) =>
              match tick_loop now ls (set_obj l (with_session s w) c) with
              | (Ok changes, c) =>
                  (Ok (if out_duration o || out_paused o then (w_id w, o) :: changes else changes), c)
              | (Throw e, c) => (Throw e, c)
              end
          end
      end
  end.

Definition updateSessionsDurations (now : Z) (c : Cache) : result unit * Cache :=
  match tick_loop now (active c) c with
  | (Throw e, c) => (Throw e, c)
  | (Ok changes, c) => (Ok tt, if bool_decide (changes = []) then c else emit [activeDurationChanged changes] c)
  end.

(** [WorkSessionsModel::fetch] of WorkSessionsModel.cpp: what the view of
    the current sessions shows. *)
Definition fetch (c : Cache) : list nat :=
  let shown l := match heap c !! l with
                 | Some w => state_code (w_state w) <? state_code DONE
                 | None => false
                 end in
  let sessions := filter (λ l, shown l = true) (active c) in
  merge_sort (in_order (heap c)) sessions.

(** [getWorkSessions]: [answer] are the rows that match the request, in its
    order. *)
Fixpoint take_rows (rows : list (string * WRow)) (c : Cache) : list nat * Cache :=
  match rows with
  | [] => ([], c)
  | (uuid, r) :: rows =>
      match items c !! uuid with
      | Some l => let '(ls, c) := take_rows rows c in (l :: ls, c)
      | None =>
          match deserialize (wr_data r) with
          | None => take_rows rows c
          | Some w =>
              let l := fresh (dom (heap c)) in
              let '(ls, c) := take_rows rows (set_items <[uuid := l]> (set_obj l w c)) in
              (l :: ls, c)
          end
      end
  end.

Definition getWorkSessions (ok : bool) (page : option (Z * option Z)) (answer : list (string * WRow)) (c : Cache) :
    list nat * Cache :=
  match page with
  | None => ([], c)
  | Some (pageSize, offset) =>
      if pageSize <=? 0 then ([], c) else
      let limit := Z.min (u32 pageSize) 100 in
      if negb ok then ([], c)
      else take_rows (take (Z.to_nat limit) (drop (Z.to_nat (default 0 offset)) answer)) c
  end.

(** *** The pages of a list of sessions

    [WorkModel::Pagination] and [doFetchSome] of WorkModel.cpp; [sessions]
    are the rows of the model before it sorts them. *)
Record WorkModel := { sessions : list nat; page_size : Z; more : bool }.

Definition pageSize (m : WorkModel) : Z := Z.max (page_size m) 20.

Definition doFetchSome (setting : Z) (firstPage : bool) (answer : list (string * WRow)) (m : WorkModel) (c : Cache) :
    WorkModel * Cache :=
  let m := if firstPage then {| sessions := []; page_size := setting; more := false |} else m in
  let '(res, c) := getWorkSessions true (Some (pageSize m, Some (Z.of_nat (length (sessions m))))) answer c in
  ({| sessions := sessions m ++ res; page_size := page_size m;
      more := negb (Z.of_nat (length res) <? pageSize m) |}, c).

(** [fetchMore], which the view calls while [canFetchMore]. *)
Definition fetchMore (answer : list (string * WRow)) (m : WorkModel) (c : Cache) : WorkModel * Cache :=
  if more m then doFetchSome (page_size m) false answer m c else (m, c).

Fixpoint scroll (n : nat) (answer : list (string * WRow)) (m : WorkModel) (c : Cache) : WorkModel * Cache :=
  match n with
  | O => (m, c)
  | S n => let '(m, c) := fetchMore answer m c in scroll n answer m c
  end.
End cache.

(** ** The client's clock and the server's

    The client runs the server's loop and, besides, takes the time of the
    last touch from the log. *)
Definition last_touch (t : Z) (es : list WorkEvent) : Z :=
  foldl (λ t e, if bool_decide (ev_kind e = TOUCH) then ev_time e else t) t es.

Lemma client_step_server t w pf e :
  client_step (set_touched t w, pf) e =
    match outcome_step (w, pf) e with
    | Ok (w', pf') => Ok (set_touched (last_touch t [e]) w', pf')
    | Throw _ => Throw runtime_error
    end.
Proof.
  unfold client_step, outcome_step, end_pause, last_touch. cbn [foldl].
  destruct (ev_kind e); cbn [bool_decide decide EventKind_eq_dec EventKind_rec EventKind_rect].
  - done.
  - cbn [ws_paused set_touched]. by destruct (0 <? pf), (ev_end e).
  - done.
  - cbn [ws_paused set_touched]. by destruct (0 <? pf).
  - done.
  - destruct (ev_start e), (ev_end e); cbn [ws_state set_touched set_start];
      try case_bool_decide; cbn [mbind result_bind]; try done;
      by destruct (ev_duration e), (ev_paused e).
Qed.

Lemma client_loop_server es t w pf :
  client_loop (set_touched t w, pf) es =
    match outcome_loop (w, pf) es with
    | Ok (w', pf') => Ok (set_touched (last_touch t es) w', pf')
    | Throw _ => Throw runtime_error
    end.
Proof.
  revert t w pf. induction es as [|e es IH]; intros t w pf; [done|].
  cbn [client_loop outcome_loop]. rewrite client_step_server.
  destruct (outcome_step (w, pf) e) as [[w' pf']|]; cbn [mbind result_bind]; [|done].
  by rewrite IH.
Qed.

Lemma set_touched_same w : set_touched (ws_touched w) w = w.
Proof. by destruct w. Qed.

Lemma last_touch_again t es : last_touch (last_touch t es) es = last_touch t es.
Proof.
  assert (Hc : ∀ es, (∀ t, last_touch t es = t) ∨ ∃ c, ∀ t, last_touch t es = c).
  { clear. intros es. unfold last_touch. induction es as [|e es IH] using rev_ind; [by left|].
    setoid_rewrite foldl_app. cbn [foldl]. case_bool_decide; [|done].
    right. by exists (ev_time e). }
  destruct (Hc es) as [->|[c Hc']]; [done|]. by rewrite !Hc'.
Qed.

(** What the loop starts from. *)
Definition reset (w : WorkSession) : WorkSession :=
  let w := set_start 0 (set_duration 0 (set_paused 0 w)) in
  if bool_decide (ws_state w = DONE) then w else set_end None w.

(** The end of [updateOutcome], for a session and what its loop left. *)
Definition outcome_of (now : Z) (w : WorkSession) (l : WorkSession * Z) : WorkSession * Outcome :=
  let w' := client_finish now (set_touched (last_touch (ws_touched w) (ws_events w)) l.1, l.2) in
  let w' := if bool_decide (ws_state w = DONE) then set_state DONE w' else w' in
  (w', {| out_duration := negb (ws_duration w / 60 =? ws_duration w' / 60);
          out_paused := negb (ws_paused w / 60 =? ws_paused w' / 60) |}).

Lemma reset_fields w :
  ws_events (reset w) = ws_events w ∧ ws_touched (reset w) = ws_touched w ∧
  ws_state (reset w) = ws_state w ∧ ws_start (reset w) = 0 ∧
  ws_duration (reset w) = 0 ∧ ws_paused (reset w) = 0.
Proof. unfold reset. by case_bool_decide. Qed.

Lemma client_updateOutcomeE now w :
  ws_events w ≠ [] →
  updateOutcome now w =
    match outcome_loop (reset w, 0) (ws_events w) with
    | Ok l => Ok (outcome_of now w l)
    | Throw _ => Throw runtime_error
    end.
Proof.
  intros Hne. destruct (reset_fields w) as (He & Ht & _).
  transitivity (let! l := client_loop (reset w, 0) (ws_events (reset w)) in
    let w' := client_finish now l in
    let w' := if bool_decide (ws_state w = DONE) then set_state (ws_state w) w' else w' in
    Ok (w', {| out_duration := negb (ws_duration w / 60 =? ws_duration w' / 60);
               out_paused := negb (ws_paused w / 60 =? ws_paused w' / 60) |})).
  { unfold updateOutcome. by rewrite (bool_decide_false _ Hne). }
  pose proof (client_loop_server (ws_events (reset w)) (ws_touched (reset w)) (reset w) 0) as Hl.
  rewrite set_touched_same in Hl. rewrite Hl, He, Ht.
  destruct (outcome_loop (reset w, 0) (ws_events w)) as [[w' pf']|]; cbn [mbind result_bind]; [|done].
  unfold outcome_of. cbn [fst snd].
  destruct (decide (ws_state w = DONE)) as [Hd|Hd]; [by rewrite Hd|].
  by rewrite bool_decide_false.
Qed.

(** The pause that is still open at the end of a log. *)
Definition pause_step (pause_from : Z) (e : WorkEvent) : Z :=
  match ev_kind e with
  | PAUSE => if pause_from =? 0 then to_long (ev_time e) else pause_from
  | STOP | RESUME => if 0 <? pause_from then 0 else pause_from
  | CORRECTION =>
      if bool_decide (is_Some (ev_paused e)) && negb (pause_from =? 0) then to_long (ev_time e)
      else pause_from
  | START | TOUCH => pause_from
  end.

Definition open_pause (es : list WorkEvent) : Z := foldl pause_step 0 es.

Lemma loop_pause es w pf l : outcome_loop (w, pf) es = Ok l → l.2 = foldl pause_step pf es.
Proof.
  revert w pf. induction es as [|e es IH]; intros w pf; cbn [outcome_loop foldl].
  - by intros [= <-].
  - intros ([w' pf'] & Hs & Hl)%bind_Ok. apply IH in Hl. rewrite Hl. f_equal. clear IH Hl.
    unfold outcome_step, end_pause, pause_step in *. destruct (ev_kind e); repeat case_match;
      simplify_eq/=; inv_ok; repeat case_match; simplify_eq/=; done.
Qed.

(** The session stays the same but for what the clock computes. *)
Record kept (a x : WorkSession) : Prop := {
  kept_id : ws_id x = ws_id a;
  kept_action : ws_action x = ws_action a;
  kept_version : ws_version x = ws_version a;
  kept_events : ws_events x = ws_events a;
  kept_touched : ws_touched x = ws_touched a
}.

Lemma outcome_step_kept w pf e l : outcome_step (w, pf) e = Ok l → kept w l.1.
Proof.
  unfold outcome_step, end_pause. intros H. destruct (ev_kind e); repeat case_match;
    simplify_eq/=; inv_ok; repeat case_match; simplify_eq/=; done.
Qed.

Lemma outcome_loop_kept es w pf l : outcome_loop (w, pf) es = Ok l → kept w l.1.
Proof.
  revert w pf. induction es as [|e es IH]; intros w pf; cbn [outcome_loop].
  - by intros [= <-].
  - intros ([w' pf'] & Hs & Hl)%bind_Ok. apply IH in Hl as [? ? ? ? ?].
    apply outcome_step_kept in Hs as [? ? ? ? ?]. cbn [fst] in *. split; congruence.
Qed.

Lemma server_updateOutcomeE now w :
  ws_events w ≠ [] →
  WorkSession.updateOutcome now w =
    (let! l := outcome_loop (reset w, 0) (ws_events w) in
     let! w' := finish_outcome now l.1 in
     Ok (if bool_decide (ws_state w = DONE) then set_state DONE w' else w')).
Proof. intros Hne. by rewrite WorkSession.updateOutcomeE. Qed.

(** C31: The clock the client shows is the server's clock.  Whenever the
    server's [updateOutcome] returns for a session and a time, the client's
    returns too, with the same start, state, name and notes; when no pause
    is open it is the same session in every field the server computes
    (besides, the client reads the time of the last touch from the log);
    only a session that never started differs, whose end the client
    clears. *)
Theorem client_clock_is_servers now w s :
  WorkSession.updateOutcome now w = Ok s → ws_events w ≠ [] →
  ∃ c o, updateOutcome now w = Ok (c, o) ∧
    ws_start c = ws_start s ∧ ws_state c = ws_state s ∧
    ws_name c = ws_name s ∧ ws_notes c = ws_notes s ∧
    (open_pause (ws_events w) = 0 ∨ ws_start s = 0 →
       c = set_touched (last_touch (ws_touched w) (ws_events w))
             (if ws_start s =? 0 then set_end None s else s)).
Proof.
  intros Hs Hne. rewrite server_updateOutcomeE in Hs by done.
  apply bind_Ok in Hs as ([w1 pf] & Hl & Hs). apply bind_Ok in Hs as (w2 & Hf & [= <-]).
  rewrite client_updateOutcomeE, Hl by done. apply loop_pause in Hl as Hp. cbn [fst snd] in *.
  fold (open_pause (ws_events w)) in Hp.
  set (t := last_touch _ _). unfold outcome_of, client_finish. cbn [fst snd]. fold t.
  eexists _, _. split; [reflexivity|]. unfold finish_outcome in Hf.
  set (wp := if pf =? 0 then _ else _).
  assert (Hwp : ws_start wp = ws_start w1 ∧ ws_end wp = ws_end w1 ∧ ws_state wp = ws_state w1 ∧
    ws_name wp = ws_name w1 ∧ ws_notes wp = ws_notes w1).
  { subst wp. unfold end_pause. by destruct (pf =? 0), (0 <? pf). }
  assert (Hwq : pf = 0 → wp = set_touched t w1) by (intros ->; done).
  assert (Hwz : set_paused 0 (set_duration 0 (set_end None wp)) =
                set_touched t (set_paused 0 (set_duration 0 (set_end None w1)))).
  { subst wp. unfold end_pause. by destruct (pf =? 0), (0 <? pf). }
  clearbody wp t. destruct Hwp as (Hst & Hen & Hsta & Hna & Hno). rewrite Hst, Hen.
  destruct (ws_start w1 =? 0) eqn:Hz.
  - injection Hf as <-. apply Z.eqb_eq in Hz. rewrite Hwz.
    case_bool_decide; cbn [ws_start ws_state ws_name ws_notes set_state set_paused set_duration set_end set_touched];
      rewrite Hz; by split_and!.
  - apply Z.eqb_neq in Hz.
    assert (Hpf : pf = 0 ∨ ws_start w1 = 0 → wp = set_touched t w1) by (intros [?|?]; [by apply Hwq|done]).
    rewrite <- Hp. apply Z.eqb_neq in Hz.
    destruct (ws_end w1) as [e|]; [destruct (e <=? ws_start w1)|case_bool_decide; [done|destruct (u64 now <=? ws_start w1)]];
      injection Hf as <-; case_bool_decide;
      cbn [ws_start ws_state ws_name ws_notes set_state set_duration];
      (split_and!; [done..|]); intros ->%Hpf; rewrite Hz; reflexivity.
Qed.

(** *** Computing the clock again

    Two runs of the loop over the same log, from [a] and from [b]: what an
    event sets is the same in both, the rest is still as it was. *)
Definition either {A} (f : WorkSession → A) (a b x y : WorkSession) : Prop :=
  f x = f y ∨ (f x = f a ∧ f y = f b).

Record coupled (a b x y : WorkSession) : Prop := {
  co_start : ws_start x = ws_start y;
  co_duration : ws_duration x = ws_duration y;
  co_paused : ws_paused x = ws_paused y;
  co_state : either ws_state a b x y;
  co_end : either ws_end a b x y;
  co_name : either ws_name a b x y;
  co_notes : either ws_notes a b x y
}.

Lemma either_refl {A} (f : WorkSession → A) a b : either f a b a b.
Proof. by right. Qed.

Lemma coupled_set_state a b x y s : coupled a b x y → coupled a b (set_state s x) (set_state s y).
Proof. intros []. split; (done || by left). Qed.
Lemma coupled_set_start a b x y t : coupled a b x y → coupled a b (set_start t x) (set_start t y).
Proof. intros []. by split. Qed.
Lemma coupled_set_end a b x y t : coupled a b x y → coupled a b (set_end t x) (set_end t y).
Proof. intros []. split; (done || by left). Qed.
Lemma coupled_set_duration a b x y d : coupled a b x y → coupled a b (set_duration d x) (set_duration d y).
Proof. intros []. by split. Qed.
Lemma coupled_set_paused a b x y d : coupled a b x y → coupled a b (set_paused d x) (set_paused d y).
Proof. intros []. by split. Qed.

Lemma coupled_set_texts a b x y x' y' n m :
  coupled a b x y → coupled a b x' y' →
  coupled a b (set_texts (default (ws_name x) n) (default (ws_notes x) m) x')
              (set_texts (default (ws_name y) n) (default (ws_notes y) m) y').
Proof. intros [] []. split; try done; [by destruct n; [left|]|by destruct m; [left|]]. Qed.

Lemma coupled_end_pause a b x y pf e :
  coupled a b x y →
  coupled a b (end_pause e (x, pf)).1 (end_pause e (y, pf)).1 ∧
  (end_pause e (x, pf)).2 = (end_pause e (y, pf)).2.
Proof.
  intros Hc. unfold end_pause. destruct (0 <? pf); [|done]. cbn [fst snd].
  rewrite (co_paused _ _ _ _ Hc). split; [|done]. by apply coupled_set_paused.
Qed.

#[local] Hint Resolve coupled_set_state coupled_set_start coupled_set_end coupled_set_duration
  coupled_set_paused : core.

Lemma coupled_step a b x y pf e l :
  (ws_state a = DONE → ws_state b = DONE) → coupled a b x y →
  outcome_step (x, pf) e = Ok l →
  ∃ y', outcome_step (y, pf) e = Ok (y', l.2) ∧ coupled a b l.1 y'.
Proof.
  intros Hd Hc. pose proof (coupled_end_pause a b x y pf e Hc) as [Hp Hpf].
  unfold outcome_step. destruct (end_pause e (x, pf)) as [x1 pf1], (end_pause e (y, pf)) as [y1 pf1'].
  cbn [fst snd] in *. subst pf1'. destruct (ev_kind e); try (intros [= <-]; eexists; (split; [reflexivity|]); cbn [fst snd]; auto; done).
  set (x2 := match ev_start e with Some t => set_start t x | None => x end).
  set (y2 := match ev_start e with Some t => set_start t y | None => y end).
  assert (Hc2 : coupled a b x2 y2) by (subst x2 y2; destruct (ev_start e); auto).
  intros (x3 & Hx3 & H)%bind_Ok.
  assert (∃ y3, (match ev_end e with
      | Some t => if bool_decide (ws_state y2 = DONE) then Ok (set_end (Some t) y2)
                  else Throw (server_err Error.INVALID_REQUEST)
      | None => Ok y2 end) = Ok y3 ∧ coupled a b x3 y3) as (y3 & -> & Hc3).
  { clearbody x2 y2. destruct (ev_end e); [|by simplify_eq; eauto].
    destruct (decide (ws_state x2 = DONE)) as [Hx|Hx].
    - rewrite bool_decide_true in Hx3 by done. rewrite bool_decide_true; [simplify_eq; eauto|].
      destruct (co_state _ _ _ _ Hc2) as [?|[Ha Hb]]; [congruence|].
      rewrite Hb. apply Hd. congruence.
    - by rewrite bool_decide_false in Hx3. }
  clearbody x2 y2. cbn [mbind result_bind].
  destruct (ev_duration e), (ev_paused e); injection H as <-; eexists;
    (split; [reflexivity|]); apply (coupled_set_texts a b x3 y3); auto.
Qed.

Lemma coupled_loop a b es x y pf l :
  (ws_state a = DONE → ws_state b = DONE) → coupled a b x y →
  outcome_loop (x, pf) es = Ok l →
  ∃ y', outcome_loop (y, pf) es = Ok (y', l.2) ∧ coupled a b l.1 y'.
Proof.
  intros Hd. revert x y pf. induction es as [|e es IH]; intros x y pf Hc; cbn [outcome_loop].
  - intros [= <-]. by exists y.
  - intros ([x1 pf1] & Hs & Hl)%bind_Ok.
    destruct (coupled_step a b x y pf e _ Hd Hc Hs) as (y1 & -> & Hc1). cbn [mbind result_bind fst snd].
    by apply (IH x1 y1 pf1).
Qed.

(** The end of the clock looks neither at the state nor, when the session
    never started, at the end. *)
Lemma client_finish_state now s x pf : client_finish now (set_state s x, pf) = set_state s (client_finish now (x, pf)).
Proof.
  unfold client_finish, end_pause. cbn [fst snd].
  destruct (pf =? 0), (0 <? pf); cbn [fst ws_start ws_end ws_paused set_state set_paused];
    destruct (ws_start x =? 0), (ws_end x) as [e|]; try done;
    try (by destruct (e <=? ws_start x)); by destruct (u64 now <=? ws_start x).
Qed.

Lemma client_finish_no_start now x pf e :
  ws_start x = 0 → client_finish now (set_end e x, pf) = client_finish now (x, pf).
Proof.
  intros Hx. unfold client_finish, end_pause. cbn [fst snd].
  by destruct (pf =? 0), (0 <? pf); cbn [fst ws_start set_end set_paused]; rewrite Hx.
Qed.

Lemma client_finish_fields now x pf :
  let r := client_finish now (x, pf) in
  kept x r ∧ ws_state r = ws_state x ∧ ws_name r = ws_name x ∧ ws_notes r = ws_notes x ∧
  ws_start r = ws_start x ∧ ws_end r = (if ws_start x =? 0 then None else ws_end x).
Proof.
  unfold client_finish, end_pause. cbn [fst snd].
  destruct (pf =? 0), (0 <? pf); cbn [fst ws_start ws_end set_paused];
    (destruct (ws_start x =? 0); [by split_and!|]);
    (destruct (ws_end x) as [e|] eqn:He; [destruct (e <=? ws_start x)|destruct (u64 now <=? ws_start x)]);
    by split_and!.
Qed.

Lemma session_eq (x y : WorkSession) t :
  ws_id x = ws_id y → ws_action x = ws_action y → ws_version x = ws_version y →
  ws_events x = ws_events y →
  ws_start x = ws_start y → ws_duration x = ws_duration y → ws_paused x = ws_paused y →
  ws_name x = ws_name y → ws_notes x = ws_notes y →
  set_touched t y = set_end (ws_end y) (set_state (ws_state y) (set_touched t x)).
Proof. destruct x, y; cbn; intros; subst; reflexivity. Qed.

Lemma outcome_of_fields now w l :
  let w' := (outcome_of now w l).1 in
  ws_id w' = ws_id l.1 ∧ ws_action w' = ws_action l.1 ∧ ws_version w' = ws_version l.1 ∧
  ws_events w' = ws_events l.1 ∧ ws_start w' = ws_start l.1 ∧ ws_name w' = ws_name l.1 ∧
  ws_notes w' = ws_notes l.1 ∧
  ws_touched w' = last_touch (ws_touched w) (ws_events w) ∧
  ws_state w' = (if bool_decide (ws_state w = DONE) then DONE else ws_state l.1) ∧
  ws_end w' = (if ws_start l.1 =? 0 then None else ws_end l.1).
Proof.
  unfold outcome_of. cbn [fst]. set (t := last_touch _ _).
  pose proof (client_finish_fields now (set_touched t l.1) l.2) as ([] & H1 & H2 & H3 & H4 & H5).
  clearbody t. cbn [ws_id ws_action ws_version ws_events ws_start ws_name ws_notes ws_touched ws_state ws_end set_touched] in *.
  case_bool_decide; cbn [ws_id ws_action ws_version ws_events ws_start ws_name ws_notes ws_touched ws_state ws_end set_state];
    by split_and!.
Qed.

(** The two loops of a session and of what the clock made of it. *)
Lemma loop_again now w l :
  outcome_loop (reset w, 0) (ws_events w) = Ok l →
  let w1 := (outcome_of now w l).1 in
  ∃ y, outcome_loop (reset w1, 0) (ws_events w) = Ok (y, l.2) ∧ coupled (reset w) (reset w1) l.1 y.
Proof.
  intros Hl w1.
  pose proof (outcome_of_fields now w l) as (_ & _ & _ & _ & _ & Hn & Hno & _ & Hst & _).
  apply (coupled_loop _ _ (ws_events w) (reset w) (reset w1) 0 l); [| |done].
  - destruct (reset_fields w) as (_ & _ & -> & _), (reset_fields w1) as (_ & _ & -> & _).
    intros Hd. subst w1. by rewrite Hst, bool_decide_true.
  - destruct (reset_fields w) as (_ & _ & _ & H1 & H2 & H3), (reset_fields w1) as (_ & _ & _ & H4 & H5 & H6).
    split; (congruence || by apply either_refl).
Qed.

Lemma reset_texts w : ws_name (reset w) = ws_name w ∧ ws_notes (reset w) = ws_notes w ∧
  ws_end (reset w) = (if bool_decide (ws_state w = DONE) then ws_end w else None) ∧
  ws_id (reset w) = ws_id w ∧ ws_action (reset w) = ws_action w ∧ ws_version (reset w) = ws_version w.
Proof. unfold reset. cbn [ws_state set_start set_duration set_paused]. by case_bool_decide. Qed.

Lemma either_settles {A} (f : WorkSession → A) a b x y : either f a b x y → (f x = f a → f b = f x) → f y = f x.
Proof. intros [He|[Ha Hb]] Hf; [done|]. rewrite Hb. by apply Hf. Qed.

Lemma set_state_same x : set_state (ws_state x) x = x.
Proof. by destruct x. Qed.
Lemma set_end_same x : set_end (ws_end x) x = x.
Proof. by destruct x. Qed.

Lemma outcome_of_again now1 now2 w l y :
  outcome_loop (reset w, 0) (ws_events w) = Ok l →
  let w1 := (outcome_of now1 w l).1 in
  outcome_loop (reset w1, 0) (ws_events w) = Ok (y, l.2) → coupled (reset w) (reset w1) l.1 y →
  (outcome_of now2 w1 (y, l.2)).1 = (outcome_of now2 w l).1.
Proof.
  intros Hl w1 Hy Hc.
  destruct (outcome_of_fields now1 w l) as (Hid & Hac & Hve & Hev & Hst & Hna & Hno & Hto & Hsa & Hen).
  fold w1 in Hid, Hac, Hve, Hev, Hst, Hna, Hno, Hto, Hsa, Hen.
  destruct (outcome_loop_kept _ _ _ _ Hl) as [Ki Ka Kv Ke _].
  destruct (outcome_loop_kept _ _ _ _ Hy) as [Ki' Ka' Kv' Ke' _]. cbn [fst] in *.
  destruct (reset_texts w) as (Rn & Rno & Re & Ri & Ra & Rv).
  destruct (reset_texts w1) as (Rn1 & Rno1 & Re1 & Ri1 & Ra1 & Rv1).
  destruct (reset_fields w) as (Rev & _ & Rs & _), (reset_fields w1) as (Rev1 & _ & Rs1 & _).
  destruct Hc as [Cs Cd Cp Csa Ce Cn Cno].
  assert (Hyn : ws_name y = ws_name l.1) by (apply (either_settles _ _ _ _ _ Cn); congruence).
  assert (Hyno : ws_notes y = ws_notes l.1) by (apply (either_settles _ _ _ _ _ Cno); congruence).
  assert (Hye : ws_start l.1 ≠ 0 → ws_end y = ws_end l.1).
  { intros Hz. apply (either_settles _ _ _ _ _ Ce). rewrite Re, Re1, Hen, Hsa.
    rewrite (proj2 (Z.eqb_neq _ _) Hz). destruct (decide (ws_state w = DONE)) as [Hd|Hd].
    - by rewrite (bool_decide_true (ws_state w = DONE)), bool_decide_true.
    - rewrite (bool_decide_false (ws_state w = DONE)) by done. intros ->. by destruct (bool_decide (ws_state l.1 = DONE)). }
  assert (Hys : ws_state w ≠ DONE → ws_state y = ws_state l.1).
  { intros Hd. apply (either_settles _ _ _ _ _ Csa). by rewrite Rs, Rs1, Hsa, bool_decide_false. }
  unfold outcome_of. cbn [fst snd]. rewrite Hev, Ke, Rev, Hto, last_touch_again.
  set (T := last_touch _ _). clearbody T.
  rewrite (session_eq l.1 y T) by congruence.
  set (F := client_finish now2 (set_touched T l.1, l.2)).
  assert (HF : client_finish now2 (set_end (ws_end y) (set_state (ws_state y) (set_touched T l.1)), l.2)
    = set_state (ws_state y) F).
  { destruct (decide (ws_start l.1 = 0)) as [Hz|Hz].
    - by rewrite client_finish_no_start, client_finish_state by done.
    - rewrite Hye by done.
      change (ws_end l.1) with (ws_end (set_state (ws_state y) (set_touched T l.1))).
      by rewrite set_end_same, client_finish_state. }
  rewrite HF, Hsa.
  assert (HFs : ws_state F = ws_state l.1) by apply (client_finish_fields now2 (set_touched T l.1) l.2).
  clearbody F. destruct (decide (ws_state w = DONE)) as [Hd|Hd].
  - rewrite !(bool_decide_true (ws_state w = DONE)) by done. by rewrite bool_decide_true.
  - rewrite (bool_decide_false (ws_state w = DONE)) by done. rewrite Hys, <- HFs, set_state_same by done.
    destruct (decide (ws_state F = DONE)) as [HD|HD]; [|by rewrite bool_decide_false].
    rewrite bool_decide_true by done. by rewrite <- HD, set_state_same.
Qed.

Lemma Ok_inj {A} (x y : A) : Ok x = Ok y → x = y.
Proof. by intros [= ->]. Qed.

Lemma outcome_again now1 now2 w w1 o1 :
  updateOutcome now1 w = Ok (w1, o1) →
  ∃ w2 o2 o3, updateOutcome now2 w = Ok (w2, o2) ∧ updateOutcome now2 w1 = Ok (w2, o3) ∧
    ws_id w2 = ws_id w1 ∧ ws_action w2 = ws_action w1 ∧ ws_events w2 = ws_events w1 ∧
    ws_state w2 = ws_state w1 ∧ ws_touched w2 = ws_touched w1.
Proof.
  destruct (decide (ws_events w = [])) as [He|He].
  { unfold updateOutcome. rewrite bool_decide_true by done. intros [= <- <-].
    rewrite bool_decide_true by done. by eauto 10. }
  rewrite client_updateOutcomeE by done.
  destruct (outcome_loop (reset w, 0) (ws_events w)) as [l|] eqn:Hl; [|done].
  intros Ho. apply Ok_inj in Ho. apply (f_equal fst) in Ho. cbn [fst] in Ho. subst w1.
  destruct (loop_again now1 w l Hl) as (y & Hy & Hc).
  pose proof (outcome_of_again now1 now2 w l y Hl Hy Hc) as Heq.
  destruct (outcome_of_fields now1 w l) as (F1 & F2 & _ & F3 & _ & _ & _ & F4 & F5 & _).
  destruct (outcome_of_fields now2 w l) as (G1 & G2 & _ & G3 & _ & _ & _ & G4 & G5 & _).
  set (w1 := (outcome_of now1 w l).1) in *.
  destruct (outcome_loop_kept _ _ _ _ Hl) as [_ _ _ Ke _], (reset_fields w) as (Rev & _).
  assert (Hev : ws_events w1 = ws_events w) by congruence.
  exists (outcome_of now2 w l).1, (outcome_of now2 w l).2, (outcome_of now2 w1 (y, l.2)).2.
  rewrite (client_updateOutcomeE now2 w), Hl by done. rewrite <- surjective_pairing.
  rewrite client_updateOutcomeE by congruence. rewrite Hev, Hy.
  rewrite (surjective_pairing (outcome_of now2 w1 (y, l.2))), Heq. cbn [snd].
  split_and!; congruence.
Qed.

(** The pause that is open counts as a pause: while a session runs, for a
    log that starts, pauses and resumes in order of time, the duration the
    client shows is the time the session was active until now, at most a
    week, and the pause is the time it was paused, the pause that is still
    going on included. *)
Theorem client_clock_counts now w t0 e0 es :
  ws_events w = e0 :: es → ws_state w ≠ DONE →
  ev_kind e0 = START → ev_time e0 = t0 → started t0 es →
  ta_last (tally t0 es) ≤ now < 2 ^ 63 → now - t0 < 2 ^ 32 →
  let s := tally_step (tally t0 es) (createWorkEvent now TOUCH) in
  ∃ c o, updateOutcome now w = Ok (c, o) ∧ ws_start c = t0 ∧ ws_end c = None ∧
    ws_state c = (if ta_running s then ACTIVE else PAUSED) ∧
    ws_paused c = ta_paused s ∧ ws_duration c = Z.min (ta_active s) (7 * 24 * 3600).
Proof.
  intros Hev Hnd Hk Ht0 Hst Hnow Hwin. cbn zeta.
  rewrite client_updateOutcomeE by (by rewrite Hev).
  destruct (reset_fields w) as (_ & _ & Hrs & _ & _ & Hrp).
  destruct (started_loop t0 es (reset w) e0 Hst Hk Ht0 Hrp) as (l & Hl & Ha).
  rewrite Hev, Hl. pose proof (agrees_total _ _ _ _ Ha) as Htot.
  destruct l as [w1 pf]. unfold agrees in Ha.
  destruct Ha as (Hs & He & _ & Hst1 & H1 & H2 & H3 & H4 & H5 & Hr).
  assert (Hre : ws_end (reset w) = None).
  { destruct (reset_texts w) as (_ & _ & -> & _). by rewrite bool_decide_false. }
  destruct Hst as (Ht & _). eexists _, _. split; [reflexivity|].
  unfold outcome_of, client_finish, tally_step, end_pause. cbn [fst snd ev_time ev_kind createWorkEvent ta_running ta_paused ta_active].
  rewrite (bool_decide_false _ Hnd). set (t := last_touch _ _). clearbody t.
  assert (Hp0 : (pf =? 0) = ta_running (tally t0 es) ∧ (0 <? pf) = negb (ta_running (tally t0 es))).
  { destruct (ta_running _); destruct Hr; [subst pf; done|].
    split; [by apply Z.eqb_neq; lia|by apply Z.ltb_lt; lia]. }
  destruct Hp0 as [-> ->]. rewrite (u64_small now) by lia.
  destruct (ta_running (tally t0 es)); cbn [negb fst ws_start ws_end ws_paused ws_duration ws_state set_paused set_touched];
    rewrite Hs, He, Hre, (proj2 (Z.eqb_neq t0 0)) by lia; destruct Hr as [Hr1 Hr2].
  - destruct (Z.leb_spec now t0); cbn [ws_start ws_end ws_paused ws_duration ws_state set_duration set_touched];
      rewrite ?Hs, ?He, ?Hre, ?Hst1, ?Hr2; split_and!; try done.
    + lia.
    + rewrite u32_small by lia. lia.
    + lia.
    + rewrite u64_small, to_long_small, Z.max_r, u32_small by lia. lia.
  - rewrite (u64_small (now - pf)), (u32_small (_ + _)) by lia.
    destruct (Z.leb_spec now t0); cbn [ws_start ws_end ws_paused ws_duration ws_state set_duration set_paused set_touched];
      rewrite ?Hs, ?He, ?Hre, ?Hst1; split_and!; try done.
    + rewrite u32_small by lia. lia.
    + rewrite u32_small by lia. lia.
    + rewrite u32_small by lia. lia.
    + rewrite u64_small, to_long_small, Z.max_r, u32_small by lia. lia.
Qed.

(** ** The cache and its table *)
Section facts.
Context {Blob : Type} (serialize : Work → Blob) (deserialize : Blob → option Work).
Context (round_trip : ∀ w, deserialize (serialize w) = Some w).
Implicit Types (c : Cache (Blob := Blob)) (l : nat) (w : Work).

(** The clock of a session can be computed and leaves its state. *)
Definition settled (s : WorkSession) : Prop :=
  ∀ now, ∃ s' o, updateOutcome now s = Ok (s', o) ∧ ws_id s' = ws_id s ∧ ws_action s' = ws_action s ∧
    ws_state s' = ws_state s.

(** The list of running sessions shares its objects with the map. *)
Record shared c : Prop := {
  sh_items : ∀ id l, items c !! id = Some l → ∃ w, heap c !! l = Some w ∧ w_id w = id;
  sh_active : ∀ l, l ∈ active c → ∃ w, heap c !! l = Some w ∧ items c !! w_id w = Some l ∧
    running (w_state w) = true ∧ settled (w_session w);
  sh_nodup : NoDup (active c)
}.

Lemma settled_outcome now s s' o : updateOutcome now s = Ok (s', o) → settled s'.
Proof.
  intros H now2. destruct (outcome_again now now2 s s' o H) as (s2 & o2 & o3 & _ & H3 & ? & ? & _ & ? & _).
  by exists s2, o3.
Qed.

(** What the server saved, the client can compute, in the same state. *)
Lemma finish_outcome_fields now x r :
  finish_outcome now x = Ok r → kept x r ∧ ws_state r = ws_state x.
Proof. unfold finish_outcome. intros H. repeat case_match; simplify_eq; done. Qed.

Lemma server_session_settled now (w s : WorkSession) : WorkSession.updateOutcome now w = Ok s → settled s.
Proof.
  destruct (decide (ws_events w = [])) as [He|He].
  { unfold WorkSession.updateOutcome. rewrite bool_decide_true by done. intros [= <-] now2.
    unfold updateOutcome. rewrite bool_decide_true by done. by eexists _, _. }
  rewrite server_updateOutcomeE by done. intros ([w1 pf] & Hl & (w2 & Hf & [= Hs])%bind_Ok)%bind_Ok now2.
  apply finish_outcome_fields in Hf as [[Fi Fa _ Fe _] Fs]. cbn [fst] in *.
  destruct (outcome_loop_kept _ _ _ _ Hl) as [Ki Ka _ Ke _]. cbn [fst] in *.
  destruct (reset_fields w) as (Rev & _ & Rs & R1 & R2 & R3), (reset_texts w) as (_ & _ & _ & Ri & Ra & _).
  destruct (reset_fields s) as (Rev1 & _ & Rs1 & R4 & R5 & R6), (reset_texts s) as (_ & _ & _ & Ri1 & Ra1 & _).
  assert (Hsf : ws_id s = ws_id w ∧ ws_action s = ws_action w ∧ ws_events s = ws_events w ∧
    ws_state s = if decide (ws_state w = DONE) then DONE else ws_state w1).
  { subst s. destruct (decide (ws_state w = DONE)) as [Hd|Hd];
      [rewrite bool_decide_true by done|rewrite bool_decide_false by done];
      cbn [ws_id ws_action ws_events ws_state set_state]; split_and!; congruence. }
  destruct Hsf as (Si & Sa & Se & Ss).
  destruct (coupled_loop (reset w) (reset s) (ws_events w) (reset w) (reset s) 0 (w1, pf)) as (y & Hy & Hc); [| |done|].
  { intros Hd. rewrite Rs in Hd. by rewrite Rs1, Ss, decide_True. }
  { split; (congruence || by apply either_refl). }
  cbn [fst snd] in *. rewrite client_updateOutcomeE by congruence. rewrite Se, Hy.
  destruct (outcome_of_fields now2 s (y, pf)) as (Oi & Oa & _ & _ & _ & _ & _ & _ & Os & _).
  destruct (outcome_loop_kept _ _ _ _ Hy) as [Yi Ya _ _ _]. cbn [fst] in *.
  exists (outcome_of now2 s (y, pf)).1, (outcome_of now2 s (y, pf)).2. rewrite <- surjective_pairing.
  split_and!; try congruence. rewrite Os. destruct (decide (ws_state s = DONE)) as [Hd|Hd];
    [by rewrite bool_decide_true|rewrite bool_decide_false by done].
  destruct (decide (ws_state w = DONE)); [congruence|]. rewrite Ss.
  apply (either_settles _ _ _ _ _ (co_state _ _ _ _ Hc)). congruence.
Qed.

Lemma outcome_id now s s' o : updateOutcome now s = Ok (s', o) → ws_id s' = ws_id s ∧ ws_action s' = ws_action s.
Proof.
  intros H. destruct (decide (ws_events s = [])) as [He|He].
  { unfold updateOutcome in H. rewrite bool_decide_true in H by done. by injection H as <- _. }
  rewrite client_updateOutcomeE in H by done.
  destruct (outcome_loop (reset s, 0) (ws_events s)) as [l|] eqn:Hl; [|done].
  apply Ok_inj, (f_equal fst) in H. cbn [fst] in H. subst s'.
  destruct (outcome_of_fields now s l) as (-> & -> & _).
  destruct (outcome_loop_kept _ _ _ _ Hl) as [-> -> _ _ _].
  destruct (reset_texts s) as (_ & _ & _ & -> & -> & _). done.
Qed.

(** *** Lists of pointers *)
Lemma delete_elem (ls : list nat) i x l :
  NoDup ls → ls !! i = Some x → l ∈ delete i ls ↔ l ∈ ls ∧ l ≠ x.
Proof.
  intros Hnd Hi. pose proof (delete_Permutation ls i x Hi) as Hp. set (d := delete i ls) in *. clearbody d.
  rewrite Hp in Hnd |- *. apply NoDup_cons in Hnd as [Hx _]. rewrite elem_of_cons. naive_solver.
Qed.

Lemma delete_nodup (ls : list nat) i : NoDup ls → NoDup (delete i ls).
Proof. intros Hnd. eapply sublist_NoDup; [done|apply sublist_delete]. Qed.

Lemma shared_id_unique c l l' w w' :
  shared c → l ∈ active c → l' ∈ active c → heap c !! l = Some w → heap c !! l' = Some w' →
  w_id w = w_id w' → l = l'.
Proof.
  intros [_ Ha _] Hl Hl' Hw Hw' He. apply Ha in Hl as (? & ? & ? & _), Hl' as (? & ? & ? & _).
  simplify_eq. congruence.
Qed.

(** What trimming leaves. *)
Record trimmed work c (a e : bool) c1 : Prop := {
  tr_items : items c1 = items c;
  tr_heap : heap c1 = heap c;
  tr_table : table c1 = table c;
  tr_actions : actions c1 = actions c;
  tr_sub : sublist (active c1) (active c);
  tr_active : ∀ l, l ∈ active c1 ↔ l ∈ active c ∧ (has_id c (w_id work) l → e = true);
  tr_exist : e = true → running (w_state work) = true ∧ ∃ l, l ∈ active c ∧ has_id c (w_id work) l;
  tr_new : e = false → running (w_state work) = true → ∀ l, l ∈ active c → ¬ has_id c (w_id work) l
}.

Lemma has_id_Some c id l w : heap c !! l = Some w → has_id c id l ↔ w_id w = id.
Proof. unfold has_id. intros ->. cbn. naive_solver. Qed.

Lemma trim_active_spec work c a e c1 :
  shared c → trim_active work c = (a, e, c1) → trimmed work c a e c1.
Proof.
  intros Hsh. unfold trim_active. destruct (list_find _ _) as [[i x]|] eqn:Hf.
  - apply list_find_Some in Hf as (Hi & Hx & _).
    pose proof (list_elem_of_lookup_2 _ _ _ Hi) as Hxa.
    destruct (running (w_state work)) eqn:Hr; cbn [negb]; intros [= <- <- <-]; split; try done.
    + naive_solver.
    + naive_solver.
    + apply sublist_delete.
    + intros l. cbn [active set_active]. rewrite (delete_elem _ i x) by (done || apply Hsh).
      split; intros [Hl Hn]; (split; [done|]); [|by intros ->; specialize (Hn Hx)].
      intros Hid. destruct Hn. destruct (sh_active c Hsh l Hl) as (w & Hw & _).
      destruct (sh_active c Hsh x Hxa) as (w' & Hw' & _).
      apply (shared_id_unique c l x w w'); try done.
      apply (has_id_Some c _ l w Hw) in Hid. apply (has_id_Some c _ x w' Hw') in Hx. congruence.
    + congruence.
  - apply list_find_None in Hf. rewrite Forall_forall in Hf. intros [= <- <- <-]. split; try done.
    intros l. split; [|naive_solver]. intros Hl. split; [done|]. by intros ?%(Hf l).
Qed.

(** What storing the object leaves. *)
Record stored work c l c1 : Prop := {
  st_heap : heap c1 = <[l := work]> (heap c);
  st_items : items c1 = <[w_id work := l]> (items c);
  st_active : active c1 = active c;
  st_table : table c1 = table c;
  st_actions : actions c1 = actions c;
  st_old : ∀ l' w', heap c !! l' = Some w' → items c !! w_id w' = Some l' → l' = l ↔ w_id w' = w_id work
}.

Lemma store_object_spec work c l c1 : shared c → store_object work c = (l, c1) → stored work c l c1.
Proof.
  intros Hsh. unfold store_object. destruct (items c !! w_id work) as [l0|] eqn:Hi; cbn.
  - intros [= <- <-]. split; try done; cbn.
    + symmetry. by apply insert_id.
    + intros l' w' Hw' Hi'. destruct (sh_items c Hsh _ _ Hi) as (w0 & Hw0 & He).
      split; [intros ->; congruence|]. intros He'. rewrite He' in Hi'. congruence.
  - intros [= <- <-]. split; try done. intros l' w' Hw' Hi'. split.
    + intros ->. destruct (is_fresh (dom (heap c))). by apply elem_of_dom_2 in Hw'.
    + intros He'. rewrite He' in Hi'. congruence.
Qed.

Lemma save_spec ok w c b c1 :
  save serialize ok w c = (b, c1) →
  items c1 = items c ∧ active c1 = active c ∧ heap c1 = heap c ∧ actions c1 = actions c.
Proof.
  unfold save, remove, insert_query. intros H. repeat case_match; simplify_eq; done.
Qed.

Lemma shared_ext c c1 :
  items c1 = items c → heap c1 = heap c → active c1 ≡ₚ active c → shared c → shared c1.
Proof.
  intros Hi Hh Ha [H1 H2 H3]. split; rewrite ?Hi, ?Hh; [done| |by rewrite Ha].
  intros l Hl. apply H2. by rewrite <- Ha.
Qed.

Lemma sortActive_perm c : active (sortActive c) ≡ₚ active c.
Proof. cbn. apply merge_sort_Permutation. Qed.

Lemma shared_sort c : shared c → shared (sortActive c).
Proof. apply shared_ext; [done..|apply sortActive_perm]. Qed.

Lemma shared_emit o c : shared c → shared (emit o c).
Proof. by apply shared_ext. Qed.

Lemma with_session_id s w : ws_id s = ws_id (w_session w) → w_id (with_session s w) = w_id w.
Proof. done. Qed.

(** The object is stored, before the list is brought up to date. *)
Lemma stored_shared work c a e c1 l c2 :
  shared c → settled (w_session work) → trimmed work c a e c1 → stored work c1 l c2 →
  shared c2 ∧ (e = false → l ∉ active c2) ∧ (e = true → running (w_state work) = true ∧ l ∈ active c2).
Proof.
  intros Hsh Hset Htr Hst. destruct Hst as [Hh Hi Ha _ _ Hold].
  rewrite (tr_heap _ _ _ _ _ Htr) in Hh, Hold. rewrite (tr_items _ _ _ _ _ Htr) in Hi, Hold.
  assert (Hin : ∀ l', l' ∈ active c2 → ∃ w', heap c !! l' = Some w' ∧ items c !! w_id w' = Some l' ∧
    running (w_state w') = true ∧ settled (w_session w') ∧ (l' = l ↔ w_id w' = w_id work) ∧
    (l' = l → e = true)).
  { intros l' Hl'. rewrite Ha in Hl'. apply (tr_active _ _ _ _ _ Htr) in Hl' as [Hl' He].
    destruct (sh_active c Hsh l' Hl') as (w' & Hw' & Hi' & Hr' & Hs'). exists w'.
    pose proof (Hold l' w' Hw' Hi') as Hll. split_and!; try done.
    intros Hle%Hll. apply He. by apply (has_id_Some c _ l' w'). }
  split_and!.
  - split.
    + intros id l' Hl'. rewrite Hi in Hl'. rewrite Hh.
      destruct (decide (id = w_id work)) as [->|Hne].
      * rewrite lookup_insert_eq in Hl'. simplify_eq. exists work. by rewrite lookup_insert_eq.
      * rewrite lookup_insert_ne in Hl' by done. destruct (sh_items c Hsh _ _ Hl') as (w' & Hw' & <-).
        exists w'. rewrite lookup_insert_ne; [done|]. intros ->. apply Hne. by apply (Hold l' w').
    + intros l' Hl'. destruct (Hin l' Hl') as (w' & Hw' & Hi' & Hr' & Hs' & Hll & He).
      rewrite Hh, Hi. destruct (decide (l' = l)) as [->|Hne].
      * exists work. rewrite !lookup_insert_eq. split_and!; try done.
        by apply (tr_exist _ _ _ _ _ Htr), He.
      * exists w'. rewrite !lookup_insert_ne; [done| |done]. intros He'. apply Hne. by apply Hll.
    + rewrite Ha. eapply sublist_NoDup; [apply Hsh|apply Htr].
  - intros -> Hl. destruct (Hin l Hl) as (w' & _ & _ & _ & _ & _ & He). by specialize (He eq_refl).
  - intros ->. destruct (tr_exist _ _ _ _ _ Htr eq_refl) as (Hr & l' & Hl' & Hid). split; [done|].
    destruct (sh_active c Hsh l' Hl') as (w' & Hw' & Hi' & _).
    apply (has_id_Some c _ l' w' Hw') in Hid. apply (Hold l' w' Hw' Hi') in Hid. subst l'.
    rewrite Ha. by apply (tr_active _ _ _ _ _ Htr).
Qed.

(** The running session with the id is in the list. *)
Definition shown c (id : string) : Prop := ∃ l, items c !! id = Some l ∧ l ∈ active c.

Lemma list_running_spec work l e a c b c1 :
  shared c → settled (w_session work) → heap c !! l = Some work → items c !! w_id work = Some l →
  (e = false → l ∉ active c) → (e = true → running (w_state work) = true ∧ l ∈ active c) →
  list_running l e a c = (b, c1) →
  shared c1 ∧ items c1 = items c ∧ heap c1 = heap c ∧ table c1 = table c ∧ actions c1 = actions c ∧
  (∀ l', l' ∈ active c1 ↔ l' ∈ active c ∨ (l' = l ∧ running (w_state work) = true)) ∧
  (b || e = false → active c1 = active c).
Proof.
  intros Hsh Hs Hl Hi He1 He2. unfold list_running. rewrite Hl.
  destruct (running (w_state work)) eqn:Hr, e; cbn [andb negb]; intros [= <- <-]; split_and!; try done.
  - intros l'. split; [by left|]. intros [?|[-> _]]; [done|by apply He2].
  - destruct Hsh as [H1 H2 H3]. split; cbn [items heap active set_active].
    + done.
    + intros l' [Hl'| ->%list_elem_of_singleton]%elem_of_app; [by apply H2|]. by exists work.
    + apply NoDup_app. split_and!; [done| |apply NoDup_singleton].
      intros l' Hl' ->%list_elem_of_singleton. by apply He1.
  - intros l'. cbn [active set_active]. rewrite elem_of_app, list_elem_of_singleton. naive_solver.
  - by destruct (He2 eq_refl).
  - naive_solver.
Qed.

(** The object kept for an id. *)
Definition object c (id : string) : option Work := items c !! id ≫= λ l, heap c !! l.

Lemma object_insert work c c1 l :
  shared c → items c1 = <[w_id work := l]> (items c) → heap c1 = <[l := work]> (heap c) →
  (∀ l' w', heap c !! l' = Some w' → items c !! w_id w' = Some l' → l' = l ↔ w_id w' = w_id work) →
  ∀ id, object c1 id = if decide (id = w_id work) then Some work else object c id.
Proof.
  intros Hsh Hi Hh Hold id. unfold object. rewrite Hi, Hh. case_decide as Hd.
  - subst id. rewrite lookup_insert_eq. cbn. by rewrite lookup_insert_eq.
  - rewrite lookup_insert_ne by done. destruct (items c !! id) as [l'|] eqn:Hl'; [|done]. cbn.
    destruct (sh_items c Hsh _ _ Hl') as (w' & Hw' & <-). rewrite lookup_insert_ne; [done|].
    intros <-. apply Hd. by apply (Hold l w').
Qed.

(** What the update of a session promises: the list keeps sharing its
    objects, and after a success it shows the session if it runs. *)
Definition updated_to work c (r : result bool) c1 : Prop :=
  shared c1 ∧ actions c1 = actions c ∧
  (r = Ok true →
     (∀ id, shown c1 id ↔ (id ≠ w_id work ∧ shown c id) ∨ (id = w_id work ∧ running (w_state work) = true)) ∧
     (∀ id, object c1 id = if decide (id = w_id work)
                           then if decide (w_state work = DELETED) then None else Some work
                           else object c id)).

Lemma trimmed_shared work c a e c1 : shared c → trimmed work c a e c1 → shared c1.
Proof.
  intros Hsh Htr. split; rewrite ?(tr_items _ _ _ _ _ Htr), ?(tr_heap _ _ _ _ _ Htr); [apply Hsh| |].
  - intros l [Hl _]%(tr_active _ _ _ _ _ Htr). by apply Hsh.
  - eapply sublist_NoDup; [apply Hsh|apply Htr].
Qed.

Lemma process_deleted_inv ok work c a e c2 r c1 :
  shared c → trimmed work c a e c2 → w_state work = DELETED →
  process_deleted ok (w_id work) c2 = (r, c1) → updated_to work c r c1.
Proof.
  intros Hsh Htr Hd. unfold process_deleted.
  assert (He : e = false).
  { destruct e; [|done]. destruct (tr_exist _ _ _ _ _ Htr eq_refl) as [Hr _]. by rewrite Hd in Hr. }
  subst e. assert (Hsh2 : shared (set_items (delete (w_id work)) c2)).
  { split; cbn [items heap active set_items]; rewrite ?(tr_items _ _ _ _ _ Htr), ?(tr_heap _ _ _ _ _ Htr).
    - intros id l [_ Hl]%lookup_delete_Some. by apply Hsh.
    - intros l [Hl Hn]%(tr_active _ _ _ _ _ Htr). destruct (sh_active c Hsh l Hl) as (x & Hx & Hi & ? & ?).
      exists x. split_and!; try done. rewrite lookup_delete_ne; [done|]. intros Hx'.
      assert (false = true) by (apply Hn, (has_id_Some c _ l x Hx); by rewrite Hx'). done.
    - eapply sublist_NoDup; [apply Hsh|apply Htr]. }
  pose proof (trimmed_shared _ _ _ _ _ Hsh Htr) as Hsh2'.
  unfold remove. assert (Hac : actions c2 = actions c) by apply Htr.
  destruct (if ok then _ else _) as [b c3] eqn:Hrm.
  assert (Hc3 : items c3 = items c2 ∧ heap c3 = heap c2 ∧ active c3 = active c2 ∧ actions c3 = actions c2)
    by (destruct ok; by injection Hrm as <- <-).
  destruct Hc3 as (Hi3 & Hh3 & Ha3 & Hac3).
  destruct b; cbn [negb]; intros [= <- <-].
  + split; [apply (shared_ext (set_items (delete (w_id work)) c2)); [by cbn; rewrite Hi3|done|by cbn; rewrite Ha3|done]|].
    split; [cbn; congruence|]. intros _. split; intros id.
    2:{ unfold object. cbn [items heap set_items emit]. rewrite Hi3, Hh3, (tr_items _ _ _ _ _ Htr), (tr_heap _ _ _ _ _ Htr).
        case_decide as Hid; [|by rewrite lookup_delete_ne]. by rewrite Hid, lookup_delete_eq, decide_True. }
    unfold shown. cbn [items active set_items emit]. rewrite Hi3, Ha3, (tr_items _ _ _ _ _ Htr), Hd.
    setoid_rewrite lookup_delete_Some. setoid_rewrite (tr_active _ _ _ _ _ Htr).
    split; [naive_solver|]. intros [[Hne (l & Hl & Hla)]|[_ ?]]; [|done].
    exists l. split; [split; [congruence|done]|]. split; [done|]. intros Hh. exfalso. apply Hne.
    destruct (sh_items c Hsh _ _ Hl) as (x & Hx & <-). by apply (has_id_Some c _ l x Hx) in Hh.
  + split; [by apply (shared_ext c2); [..|done]; cbn; rewrite ?Hi3, ?Ha3|]. split; [cbn; congruence|done].
Qed.

(** The ids a list shows, from its elements. *)
Lemma stored_shown work c a e c2 l c7 :
  shared c → trimmed work c a e c2 → items c7 = <[w_id work := l]> (items c) →
  (∀ l', l' ∈ active c7 ↔ (l' ∈ active c ∧ (has_id c (w_id work) l' → e = true)) ∨
                          (l' = l ∧ running (w_state work) = true)) →
  (∀ l' w', heap c !! l' = Some w' → items c !! w_id w' = Some l' → l' = l ↔ w_id w' = w_id work) →
  ∀ id, shown c7 id ↔ (id ≠ w_id work ∧ shown c id) ∨ (id = w_id work ∧ running (w_state work) = true).
Proof.
  intros Hsh Htr Hi Hel Hold id. unfold shown. rewrite Hi. destruct (decide (id = w_id work)) as [->|Hne].
  - rewrite lookup_insert_eq. split.
    + intros (l' & [= <-] & Hl'). right. split; [done|]. apply Hel in Hl' as [[Hl' Hn]|[_ ?]]; [|done].
      destruct (sh_active c Hsh l Hl') as (x & Hx & Hix & _). apply (tr_exist _ _ _ _ _ Htr), Hn.
      apply (has_id_Some c _ l x Hx). by apply (Hold l x).
    + intros [[? _]|[_ Hr]]; [done|]. exists l. split; [done|]. apply Hel. by right.
  - rewrite lookup_insert_ne by done. split.
    + intros (l' & Hl' & Hl). left. split; [done|]. exists l'. split; [done|].
      apply Hel in Hl as [[? _]|[-> _]]; [done|].
      destruct (sh_items c Hsh _ _ Hl') as (x & Hx & <-). destruct Hne. by apply (Hold l x).
    + intros [[_ (l' & Hl' & Hl)]|[? _]]; [|done]. exists l'. split; [done|]. apply Hel. left. split; [done|].
      intros Hh'. destruct (sh_items c Hsh _ _ Hl') as (x & Hx & <-). by apply (has_id_Some c _ l' x Hx) in Hh'.
Qed.

Lemma process_stored_inv ok op w work c a e c2 r c1 :
  shared c → settled (w_session work) → w_id w = w_id work → w_state work ≠ DELETED →
  trimmed work c a e c2 → process_stored serialize ok op w work a e c2 = (r, c1) → updated_to work c r c1.
Proof.
  intros Hsh Hset Hw Hnd Htr. unfold process_stored. rewrite Hw.
  destruct (store_object work c2) as [l c3] eqn:Hso.
  pose proof (trimmed_shared _ _ _ _ _ Hsh Htr) as Hsh2.
  apply (store_object_spec _ _ _ _ Hsh2) in Hso as Hst.
  destruct (stored_shared work c a e c2 l c3 Hsh Hset Htr Hst) as (Hsh3 & He1 & He2).
  destruct (save serialize ok w c3) as [b c4] eqn:Hsv. apply save_spec in Hsv as (Hi4 & Ha4 & Hh4 & Hac4).
  assert (Hsh4 : shared c4) by (apply (shared_ext c3); by rewrite ?Ha4).
  assert (Hac : actions c4 = actions c) by (rewrite Hac4, (st_actions _ _ _ _ Hst); apply Htr).
  destruct b; cbn [negb]; [|intros [= <- <-]; split; [by apply shared_emit|split; [done|discriminate]]].
  destruct (list_running l e a c4) as [b c5] eqn:Hlr.
  assert (Hl4 : heap c4 !! l = Some work) by (by rewrite Hh4, (st_heap _ _ _ _ Hst), lookup_insert_eq).
  assert (Hi4' : items c4 !! w_id work = Some l) by (by rewrite Hi4, (st_items _ _ _ _ Hst), lookup_insert_eq).
  destruct (list_running_spec work l e a c4 b c5 Hsh4 Hset Hl4 Hi4' ltac:(by rewrite Ha4) ltac:(by rewrite Ha4) Hlr)
    as (Hsh5 & Hi5 & Hh5 & _ & Hac5 & Hel5 & _).
  set (c6 := if b || e then sortActive c5 else c5).
  assert (Hc6 : items c6 = items c5 ∧ heap c6 = heap c5 ∧ actions c6 = actions c5 ∧ active c6 ≡ₚ active c5)
    by (subst c6; destruct (b || e); split_and!; (done || apply sortActive_perm)).
  destruct Hc6 as (Hi6 & Hh6 & Hac6 & Hp6). clearbody c6.
  intros [= <- <-]. set (c7 := if b || e then _ else _).
  assert (Hc7 : items c7 = items c6 ∧ heap c7 = heap c6 ∧ actions c7 = actions c6 ∧ active c7 = active c6)
    by (subst c7; by destruct (b || e)).
  clearbody c7. destruct Hc7 as (Hi7 & Hh7 & Hac7 & Ha7).
  assert (Hel7 : ∀ l', l' ∈ active c7 ↔ (l' ∈ active c ∧ (has_id c (w_id work) l' → e = true)) ∨
                       (l' = l ∧ running (w_state work) = true)).
  { intros l'. rewrite Ha7, Hp6, Hel5, Ha4, (st_active _ _ _ _ Hst). by rewrite (tr_active _ _ _ _ _ Htr). }
  assert (Hi : items c7 = <[w_id work := l]> (items c)).
  { rewrite Hi7, Hi6, Hi5, Hi4, (st_items _ _ _ _ Hst). by rewrite (tr_items _ _ _ _ _ Htr). }
  pose proof (st_old _ _ _ _ Hst) as Hold. rewrite (tr_heap _ _ _ _ _ Htr), (tr_items _ _ _ _ _ Htr) in Hold.
  split; [apply (shared_ext c5); [congruence|congruence|by rewrite Ha7, Hp6|done]|].
  assert (Hh : heap c7 = <[l := work]> (heap c)).
  { rewrite Hh7, Hh6, Hh5, Hh4, (st_heap _ _ _ _ Hst). by rewrite (tr_heap _ _ _ _ _ Htr). }
  split; [congruence|]. intros _. split; [by eapply stored_shown|]. intros id.
  rewrite (object_insert work c c7 l Hsh Hi Hh Hold), (decide_False (P := w_state work = DELETED)) by done. done.
Qed.

Lemma process_work_inv ok now op w c r c1 :
  shared c → process_work serialize ok now op w c = (r, c1) →
  match updateOutcome now (w_session w) with
  | Ok (s, _) => updated_to (with_session s w) c r c1
  | Throw e => r = Throw e ∧ c1 = c
  end.
Proof.
  intros Hsh. unfold process_work. destruct (updateOutcome now (w_session w)) as [[s o]|e] eqn:Ho; [|by intros [= <- <-]].
  destruct (outcome_id _ _ _ _ Ho) as [Hid _].
  assert (Hw : w_id w = w_id (with_session s w)) by done.
  destruct (trim_active _ c) as [[a e] c2] eqn:Ht. apply (trim_active_spec _ _ _ _ _ Hsh) in Ht as Htr.
  case_bool_decide as Hd.
  - rewrite Hw. by eapply process_deleted_inv.
  - eapply process_stored_inv; [done| |done..]. by eapply settled_outcome.
Qed.

(** *** What an update does to the table *)
Lemma trimmed_table work c a e c1 : trim_active work c = (a, e, c1) → table c1 = table c ∧ actions c1 = actions c.
Proof. unfold trim_active. intros H. repeat case_match; simplify_eq; done. Qed.

Lemma process_work_table now op w c c1 :
  process_work serialize true now op w c = (Ok true, c1) →
  (∀ r, table c !! w_id w = Some r → wr_updated_id r ≤ w_updatedId w) →
  (∀ s o, updateOutcome now (w_session w) = Ok (s, o) → ws_state s = w_state w) →
  table c1 = if decide (w_state w = DELETED) then delete (w_id w) (table c)
             else <[w_id w := getParams serialize w]> (table c).
Proof.
  intros H Hfresh Hst. unfold process_work in H.
  destruct (updateOutcome now (w_session w)) as [[s o]|e]; [|done].
  specialize (Hst s o eq_refl). change (ws_state s) with (w_state (with_session s w)) in Hst. rewrite Hst in H.
  destruct (trim_active _ c) as [[a e] c2] eqn:Ht. apply trimmed_table in Ht as [Ht _].
  destruct (decide (w_state w = DELETED)) as [Hd|Hd].
  - rewrite bool_decide_true in H by done. unfold process_deleted, remove in H. case_bool_decide; [|done].
    cbn in H. injection H as <-. cbn. by rewrite Ht.
  - rewrite bool_decide_false in H by done. unfold process_stored in H.
    destruct (store_object _ c2) as [l c3] eqn:Hs.
    assert (Hc3 : table c3 = table c2) by (unfold store_object, emplace in Hs; destruct (items c2 !! _); by injection Hs as _ <-).
    unfold save, insert_query in H. rewrite bool_decide_false in H by done. cbn [andb] in H.
    case_bool_decide; [|done]. cbn [negb] in H.
    destruct (list_running l e a _) as [b c5] eqn:Hl.
    assert (Hc5 : table c5 = <[w_id w := getParams serialize w]> (table c)).
    { unfold list_running in Hl. rewrite Ht in Hc3.
      assert (table (emit [clearSyncIssuesForObject (w_id w)] (set_table (λ t, match t !! w_id w with
          | Some r => if wr_updated_id r <=? w_updatedId w then <[w_id w:=getParams serialize w]> t else t
          | None => <[w_id w:=getParams serialize w]> t end) c3)) = <[w_id w := getParams serialize w]> (table c)) as <-.
      { cbn [table emit set_table]. rewrite Hc3. destruct (table c !! w_id w) as [r|] eqn:Hr; [|done].
        by rewrite (proj2 (Z.leb_le _ _) (Hfresh r eq_refl)). }
      destruct (_ && _) in Hl; by injection Hl as _ <-. }
    injection H as <-. rewrite <- Hc5. by destruct (b || e).
Qed.

(** *** Deleting and moving an action *)
Lemma remove_active_spec id l c b c1 :
  shared c → items c !! id = Some l → removeFromActive id c = (b, c1) →
  items c1 = items c ∧ heap c1 = heap c ∧ table c1 = table c ∧ actions c1 = actions c ∧ NoDup (active c1) ∧
  (∀ l', l' ∈ active c1 ↔ l' ∈ active c ∧ l' ≠ l).
Proof.
  intros Hsh Hi. unfold removeFromActive.
  assert (Hl : ∀ l', l' ∈ active c → has_id c id l' ↔ l' = l).
  { intros l' Hl'. destruct (sh_active c Hsh l' Hl') as (w & Hw & Hiw & _). rewrite (has_id_Some c id l' w Hw).
    destruct (sh_items c Hsh _ _ Hi) as (w' & Hw' & He). split; [intros <-; congruence|intros ->; congruence]. }
  destruct (list_find _ _) as [[i x]|] eqn:Hf.
  - apply list_find_Some in Hf as (Hx & Hid & _). pose proof (list_elem_of_lookup_2 _ _ _ Hx) as Hxa.
    apply (Hl x Hxa) in Hid as ->. intros [= <- <-]. split_and!; try done.
    + apply delete_nodup, Hsh.
    + intros l'. apply (delete_elem _ i l); [apply Hsh|done].
  - apply list_find_None in Hf. rewrite Forall_forall in Hf. intros [= <- <-]. split_and!; try done; [apply Hsh|].
    intros l'. split; [|by intros []]. intros Hl'. split; [done|]. intros ->. apply (Hf l Hl'). by apply Hl.
Qed.

Lemma action_loop_spec op ids c b aff c1 :
  shared c → NoDup ids.*1 → (∀ id l, (id, l) ∈ ids → items c !! id = Some l) →
  action_loop op ids c = (b, aff, c1) →
  shared c1 ∧ aff = ids.*1 ∧ heap c1 = heap c ∧ table c1 = table c ∧ actions c1 = actions c ∧
  (∀ id, items c1 !! id = if decide (op = OP_DELETED ∧ id ∈ ids.*1) then None else items c !! id) ∧
  (∀ l, l ∈ active c1 ↔ l ∈ active c ∧ l ∉ ids.*2).
Proof.
  revert c b aff c1. induction ids as [|[id l] ids IH]; intros c b aff c1 Hsh Hnd Hin; cbn [action_loop].
  { intros [= <- <- <-]. split_and!; try done.
    - intros id. rewrite decide_False; [done|]. intros [_ H]. by apply elem_of_nil in H.
    - intros l. cbn. split; [|by intros []]. intros ?. split; [done|]. apply not_elem_of_nil. }
  cbn [fmap list_fmap fst snd] in *. apply NoDup_cons in Hnd as [Hid Hnd].
  assert (Hi : items c !! id = Some l) by (apply Hin; by left).
  destruct (sh_items c Hsh _ _ Hi) as (w & Hw & Hwid). rewrite Hw, Hwid.
  destruct (removeFromActive id c) as [f c2] eqn:Hr.
  destruct (remove_active_spec id l c f c2 Hsh Hi Hr) as (Hi2 & Hh2 & Ht2 & Hac2 & Hnd2 & Ha2).
  set (c3 := if bool_decide (op = OP_DELETED) then set_items (delete id) c2 else c2).
  assert (Hc3 : heap c3 = heap c ∧ table c3 = table c ∧ actions c3 = actions c ∧ active c3 = active c2)
    by (subst c3; by case_bool_decide).
  assert (Hi3 : ∀ id', items c3 !! id' = if decide (op = OP_DELETED ∧ id' = id) then None else items c !! id').
  { intros id'. subst c3. case_bool_decide as Hop; cbn [items set_items]; rewrite Hi2.
    - destruct (decide (id' = id)) as [->|Hne].
      + by rewrite lookup_delete_eq, decide_True.
      + rewrite lookup_delete_ne by done. rewrite decide_False; [done|]. by intros [_ ?].
    - rewrite decide_False; [done|]. by intros [? _]. }
  destruct Hc3 as (Hh3 & Ht3 & Hac3 & Ha3). clearbody c3.
  assert (Hsh3 : shared c3).
  { split.
    - intros id' l'. rewrite Hi3, Hh3. destruct (decide _); [intros [=]|]. apply Hsh.
    - intros l'. rewrite Ha3, Hh3. intros [Hl' Hne]%Ha2. destruct (sh_active c Hsh l' Hl') as (x & Hx & Hix & ? & ?).
      exists x. rewrite Hi3, decide_False; [done|]. intros [_ <-]. congruence.
    - by rewrite Ha3. }
  destruct (action_loop op ids c3) as [[b' aff'] c4] eqn:Hl. intros [= <- <- <-].
  apply IH in Hl as (Hsh4 & -> & Hh4 & Ht4 & Hac4 & Hi4 & Ha4); [|done|done|].
  - split_and!; try done; try congruence.
    + intros id'. rewrite Hi4, Hi3. destruct (decide (op = OP_DELETED ∧ id' ∈ ids.*1)) as [[? ?]|Hd1].
      { rewrite decide_True; [done|]. split; [done|by right]. }
      destruct (decide (op = OP_DELETED ∧ id' = id)) as [[? ->]|Hd2].
      { rewrite decide_True; [done|]. split; [done|by left]. }
      rewrite decide_False; [done|]. intros [? [->|?]%elem_of_cons]; [by apply Hd2|by apply Hd1].
    + intros l'. rewrite Ha4, Ha3, Ha2, not_elem_of_cons. tauto.
  - intros id' l' Hin'. rewrite Hi3, decide_False; [apply Hin; by right|].
    intros [_ ->]. apply Hid. apply list_elem_of_fmap. by exists (id, l').
Qed.

Lemma shared_id c id l w : shared c → items c !! id = Some l → heap c !! l = Some w → w_id w = id.
Proof. intros Hsh Hi Hw. destruct (sh_items c Hsh _ _ Hi) as (w' & Hw' & <-). congruence. Qed.

(** After an action was deleted or moved the list shows the sessions of the
    other actions; a deleted action takes the objects along. *)
Lemma process_action_inv op a c r c1 :
  op = OP_DELETED ∨ op = MOVED → shared c → process_action op a c = (r, c1) →
  r = Ok true ∧ shared c1 ∧ table c1 = table c ∧ actions c1 = actions c ∧ heap c1 = heap c ∧
  (∀ id, object c1 id = match object c id with
                        | Some w => if decide (op = OP_DELETED ∧ ws_action (w_session w) = a) then None else Some w
                        | None => None end) ∧
  (∀ id, shown c1 id ↔ shown c id ∧ (ws_action ∘ w_session) <$> object c id ≠ Some a).
Proof.
  intros Hop Hsh. unfold process_action.
  assert (bool_decide (op = OP_DELETED) || bool_decide (op = MOVED) = true) as ->.
  { by destruct Hop as [-> | ->]. }
  destruct (action_loop _ _ c) as [[b aff] c2] eqn:Hl.
  apply action_loop_spec in Hl as (Hsh2 & -> & Hh2 & Ht2 & Hac2 & Hi2 & Ha2); [|done|apply NoDup_fst_map_to_list|].
  2:{ intros id l Hin%elem_of_map_to_list. by apply map_lookup_filter_Some in Hin as [? _]. }
  set (ids := map_to_list _) in *.
  assert (Hids : ∀ id l w, items c !! id = Some l → heap c !! l = Some w →
    (id ∈ ids.*1 ↔ ws_action (w_session w) = a) ∧ (l ∈ ids.*2 ↔ ws_action (w_session w) = a)).
  { intros id l w Hi Hw. assert (Hin : (id, l) ∈ ids ↔ ws_action (w_session w) = a).
    { subst ids. rewrite elem_of_map_to_list, map_lookup_filter_Some. unfold of_action. cbn. rewrite Hw. cbn. naive_solver. }
    rewrite <- Hin, !list_elem_of_fmap. split; (split; [|intros ?; by exists (id, l)]).
    - intros ([id' l'] & -> & Hx). cbn in *. assert (Hx' := Hx). apply elem_of_map_to_list, map_lookup_filter_Some in Hx' as [Hx' _].
      assert (l' = l) as -> by congruence. done.
    - intros ([id' l'] & -> & Hx). cbn in *. assert (Hx' := Hx). apply elem_of_map_to_list, map_lookup_filter_Some in Hx' as [Hx' _].
      assert (id' = id) as -> by (transitivity (w_id w); [symmetry|]; by eapply (shared_id c)). done. }
  set (c3 := if b then emit [activeChanged] (sortActive c2) else c2).
  assert (Hc3 : items c3 = items c2 ∧ heap c3 = heap c2 ∧ table c3 = table c2 ∧ actions c3 = actions c2 ∧ active c3 ≡ₚ active c2)
    by (subst c3; destruct b; split_and!; (done || apply sortActive_perm)).
  clearbody c3 ids. destruct Hc3 as (Hi3 & Hh3 & Ht3 & Hac3 & Ha3). intros [= <- <-].
  split; [done|]. split; [apply (shared_ext c2); [done..|exact Ha3|done]|]. cbn [table actions heap emit].
  split; [congruence|]. split; [congruence|]. split; [congruence|]. split.
  - intros id. unfold object. cbn [items heap emit]. rewrite Hi3, Hh3, Hh2, Hi2.
    destruct (items c !! id) as [l|] eqn:Hi; cbn; [|by destruct (decide _)].
    destruct (sh_items c Hsh _ _ Hi) as (w & Hw & _). rewrite Hw. destruct (Hids id l w Hi Hw) as [H1 _].
    destruct (decide (op = OP_DELETED ∧ id ∈ ids.*1)); cbn; rewrite ?Hw;
      [rewrite decide_True by naive_solver|rewrite decide_False by naive_solver]; done.
  - intros id. unfold shown, object. cbn [items active emit]. rewrite Hi3. setoid_rewrite Ha3. setoid_rewrite Hi2. split.
    + intros (l & Hl & [Hla Hn]%Ha2). destruct (decide _) as [|Hd]; [done|]. split; [by exists l|].
      destruct (sh_items c Hsh _ _ Hl) as (w & Hw & _). rewrite Hl. cbn. rewrite Hw. cbn. intros [= He].
      apply Hn. by apply (Hids id l w).
    + intros [(l & Hl & Hla) Hn]. destruct (sh_items c Hsh _ _ Hl) as (w & Hw & _). rewrite Hl in Hn. cbn in Hn. rewrite Hw in Hn. cbn in Hn.
      destruct (Hids id l w Hl Hw) as [H1 H2]. exists l. rewrite decide_False; [|naive_solver].
      split; [done|]. apply Ha2. naive_solver.
Qed.

(** *** The timer *)

(** A tick changes nothing but the clocks of the sessions in the list. *)
Record ticked (ls : list nat) now c c1 : Prop := {
  ti_items : items c1 = items c;
  ti_active : active c1 = active c;
  ti_table : table c1 = table c;
  ti_actions : actions c1 = actions c;
  ti_heap : ∀ l, heap c1 !! l = match heap c !! l with
                                | Some w => if decide (l ∈ ls) then match updateOutcome now (w_session w) with
                                                                    | Ok (s, _) => Some (with_session s w)
                                                                    | Throw _ => Some w end
                                            else Some w
                                | None => None end
}.

Lemma tick_loop_spec now ls c :
  NoDup ls → (∀ l, l ∈ ls → ∃ w, heap c !! l = Some w ∧ settled (w_session w)) →
  ∃ ch c1, tick_loop now ls c = (Ok ch, c1) ∧ out c1 = out c ∧ ticked ls now c c1 ∧
    ch = omap (λ l, w ← heap c !! l; match updateOutcome now (w_session w) with
                    | Ok (_, o) => if out_duration o || out_paused o then Some (w_id w, o) else None
                    | Throw _ => None end) ls.
Proof.
  revert c. induction ls as [|l ls IH]; intros c Hnd Hin; cbn [tick_loop].
  { exists [], c. split_and!; try done. split; try done. intros l. by destruct (heap c !! l). }
  apply NoDup_cons in Hnd as [Hl Hnd]. destruct (Hin l) as (w & Hw & Hs); [by left|].
  destruct (Hs now) as (s & o & Ho & _). rewrite Hw, Ho.
  destruct (IH (set_obj l (with_session s w) c) Hnd) as (ch & c1 & -> & Hout & [Hi Ha Ht Hac Hh] & Hch).
  { intros l' Hl'. destruct (Hin l') as (w' & Hw' & Hs'); [by right|]. exists w'. cbn [heap set_obj].
    rewrite lookup_insert_ne; [done|]. by intros <-. }
  eexists _, c1. split; [reflexivity|]. split; [done|]. split.
  - split; try done. intros l'. rewrite Hh. cbn [heap set_obj]. destruct (decide (l' = l)) as [->|Hne].
    + rewrite lookup_insert_eq, Hw, decide_False by done. by rewrite decide_True, Ho by (by left).
    + rewrite lookup_insert_ne by done. destruct (heap c !! l') as [w'|]; [|done].
      destruct (decide (l' ∈ ls)); [rewrite decide_True by (by right)|rewrite decide_False]; [done|done|].
      by rewrite not_elem_of_cons.
  - assert (Hrest : ch = omap (λ l, w ← heap c !! l; match updateOutcome now (w_session w) with
        | Ok (_, o) => if out_duration o || out_paused o then Some (w_id w, o) else None
        | Throw _ => None end) ls).
    { rewrite Hch. apply list_omap_ext. apply Forall_Forall2_diag, Forall_forall. intros l' Hl'. cbn [heap set_obj].
      rewrite lookup_insert_ne; [done|]. by intros <-. }
    rewrite Hrest. cbn [omap list_omap]. rewrite Hw. cbn [mbind option_bind]. rewrite Ho. by destruct (_ || _).
Qed.

(** *** The list follows the table *)

(** A row as [getParams] writes it, of a session whose clock computes. *)
Definition row_ok (id : string) (r : WRow) : Prop :=
  ∃ w, deserialize (wr_data r) = Some w ∧ w_id w = id ∧ wr_state r = state_code (w_state w) ∧
       wr_action r = ws_action (w_session w) ∧ settled (w_session w).

(** The list shows the sessions that run according to the table. *)
Record follows c : Prop := {
  fo_rows : ∀ id r, table c !! id = Some r → row_ok id r;
  fo_shown : ∀ id, shown c id ↔ ∃ r, table c !! id = Some r ∧ wr_state r < state_code DONE;
  fo_action : ∀ id w r, object c id = Some w → table c !! id = Some r → ws_action (w_session w) = wr_action r
}.

Lemma running_code s : running s = true ↔ state_code s < state_code DONE.
Proof. destruct s; cbn; split; (done || lia). Qed.

Lemma shown_object c id : shared c → shown c id → ∃ w, object c id = Some w ∧ running (w_state w) = true.
Proof.
  intros Hsh (l & Hl & Hla). destruct (sh_active c Hsh l Hla) as (w & Hw & _ & Hr & _).
  exists w. unfold object. rewrite Hl. cbn. by rewrite Hw.
Qed.

Lemma follows_same c c1 :
  table c1 = table c → (∀ id, shown c1 id ↔ shown c id) →
  (∀ id w r, object c1 id = Some w → table c !! id = Some r → ws_action (w_session w) = wr_action r) →
  follows c → follows c1.
Proof.
  intros Ht Hs Ho [H1 H2 H3]. split; rewrite ?Ht; [done| |done]. intros id. by rewrite Hs, H2.
Qed.

Lemma update_follows now op w c c1 :
  shared c → follows c → settled (w_session w) →
  (∀ r, table c !! w_id w = Some r → wr_updated_id r ≤ w_updatedId w) →
  process_work serialize true now op w c = (Ok true, c1) → shared c1 ∧ follows c1.
Proof.
  intros Hsh [F1 F2 F3] Hset Hfresh Hp. destruct (Hset now) as (s & o & Ho & Hid & Hact & Hst).
  pose proof (process_work_table now op w c c1 Hp Hfresh ltac:(intros ?? Heq; rewrite Ho in Heq; by simplify_eq)) as Ht.
  apply (process_work_inv _ _ _ _ _ _ _ Hsh) in Hp. rewrite Ho in Hp. destruct Hp as (Hsh1 & _ & Hp).
  destruct (Hp eq_refl) as [Hs1 Ho1]. split; [done|].
  assert (Hw : w_id (with_session s w) = w_id w) by done.
  assert (Hws : w_state (with_session s w) = w_state w) by done.
  rewrite Hw in Hs1, Ho1. rewrite Hws in Hs1, Ho1. split; rewrite ?Ht.
  - intros id r. case_decide; [intros [_ Hr]%lookup_delete_Some; by apply F1|].
    intros [[<- <-]|[_ Hr]]%lookup_insert_Some; [|by apply F1].
    exists w. cbn. by rewrite round_trip.
  - intros id. rewrite Hs1, F2, running_code. case_decide as Hd.
    + rewrite Hd. setoid_rewrite lookup_delete_Some. cbn [state_code]. naive_solver lia.
    + setoid_rewrite lookup_insert_Some. split.
      * intros [[Hne (r & Hr & Hlt)]|[-> Hlt]]; [|by exists (getParams serialize w); split; [left|]].
        exists r. split; [by right|done].
      * intros (r & [[<- <-]|[Hne Hr]] & Hlt); [by right|]. left. split; [done|]. by exists r.
  - intros id x r. rewrite Ho1. destruct (decide (id = w_id w)) as [->|Hne].
    + destruct (decide (w_state w = DELETED)); [done|]. rewrite lookup_insert_eq. intros [= <-] [= <-]. exact Hact.
    + intros Hx Hr. apply (F3 id x r Hx).
      destruct (decide (w_state w = DELETED)); [by apply lookup_delete_Some in Hr as [_ Hr]|].
      by rewrite lookup_insert_ne in Hr.
Qed.

(** The deletion of an action in the local table of actions takes the work
    sessions along ([ON DELETE CASCADE] of the table in DbStore.cpp). *)
Definition cascade (a : string) c : Cache :=
  {| items := items c; active := active c; heap := heap c;
     table := filter (λ kr, wr_action kr.2 ≠ a) (table c);
     actions := actions c ∖ {[a]}; out := out c |}.

Lemma action_deleted_follows a c r c1 :
  shared c → follows c → process_action OP_DELETED a (cascade a c) = (r, c1) → r = Ok true ∧ shared c1 ∧ follows c1.
Proof.
  intros Hsh [F1 F2 F3] Hp. assert (Hsh0 : shared (cascade a c)) by by apply (shared_ext c).
  apply process_action_inv in Hp as (-> & Hsh1 & Ht & _ & _ & Ho & Hs); [|by left|done].
  split; [done|]. split; [done|].
  assert (Hx : ∀ id, object (cascade a c) id = object c id) by done.
  assert (Hs0 : ∀ id, shown (cascade a c) id ↔ shown c id) by done.
  split; rewrite Ht; cbn [table cascade].
  - intros id r [Hr _]%map_lookup_filter_Some. by apply F1.
  - intros id. rewrite Hs, Hs0, Hx. setoid_rewrite map_lookup_filter_Some. cbn [snd]. split.
    + intros [Hsn Hn]. destruct (shown_object c id Hsh Hsn) as (w & Hw & _). apply F2 in Hsn as (r & Hr & Hlt).
      exists r. split; [split; [done|]|done]. rewrite <- (F3 id w r Hw Hr). rewrite Hw in Hn. cbn in Hn. congruence.
    + intros (r & [Hr Hn] & Hlt). assert (Hsn : shown c id) by (apply F2; by exists r). split; [done|].
      destruct (shown_object c id Hsh Hsn) as (w & Hw & _). rewrite Hw. cbn. rewrite (F3 id w r Hw Hr). congruence.
  - intros id w r. rewrite Ho, Hx. intros Hw [Hr _]%map_lookup_filter_Some.
    destruct (object c id) as [w'|] eqn:Hw'; [|done]. destruct (decide _); [done|]. simplify_eq. by apply (F3 id).
Qed.

Lemma action_moved_follows a c r c1 :
  shared c → follows c → (∀ id w, shown c id → object c id = Some w → ws_action (w_session w) ≠ a) →
  process_action MOVED a c = (r, c1) → r = Ok true ∧ shared c1 ∧ follows c1.
Proof.
  intros Hsh Hf Hno Hp. apply process_action_inv in Hp as (-> & Hsh1 & Ht & _ & _ & Ho & Hs); [|by right|done].
  split; [done|]. split; [done|]. apply (follows_same c c1 Ht); [| |done].
  - intros id. rewrite Hs. split; [by intros []|]. intros Hsn. split; [done|].
    destruct (shown_object c id Hsh Hsn) as (w & Hw & _). rewrite Hw. cbn. intros [= He]. by apply (Hno id w).
  - intros id w r. rewrite Ho. destruct (object c id) as [w'|] eqn:Hw'; [|done].
    rewrite decide_False by (by intros [? _]). intros [= <-] Hr. by apply (fo_action c Hf id).
Qed.

Lemma tick_spec now c :
  shared c → ∃ c1, updateSessionsDurations now c = (Ok tt, c1) ∧ ticked (active c) now c c1.
Proof.
  intros Hsh. destruct (tick_loop_spec now (active c) c) as (ch & c1 & Hl & _ & Ht & _).
  - apply Hsh.
  - intros l Hl. destruct (sh_active c Hsh l Hl) as (w & ? & _ & _ & ?). by exists w.
  - unfold updateSessionsDurations. rewrite Hl. eexists. split; [reflexivity|]. destruct Ht. by case_bool_decide.
Qed.

Lemma ticked_lookup now c c1 l w1 :
  ticked (active c) now c c1 → heap c1 !! l = Some w1 →
  ∃ w, heap c !! l = Some w ∧ w_id w1 = w_id w ∧ ws_action (w_session w1) = ws_action (w_session w) ∧
    (l ∈ active c → ∀ s o, updateOutcome now (w_session w) = Ok (s, o) → w1 = with_session s w).
Proof.
  intros [_ _ _ _ Hh] Hw1. rewrite Hh in Hw1. destruct (heap c !! l) as [w|]; [|done]. exists w.
  split; [done|]. destruct (decide (l ∈ active c)); [|by simplify_eq].
  destruct (updateOutcome now (w_session w)) as [[s o]|ex] eqn:Ho; simplify_eq; [|split_and!; done].
  destruct (outcome_id _ _ _ _ Ho). split_and!; [done..|]. intros _ ? ? [= -> ->]. done.
Qed.

Lemma ticked_shared now c c1 : shared c → ticked (active c) now c c1 → shared c1.
Proof.
  intros Hsh Ht. pose proof Ht as [Hi Ha _ _ Hh]. split.
  - intros id l. rewrite Hi. intros Hl. destruct (sh_items c Hsh _ _ Hl) as (w & Hw & <-).
    rewrite Hh, Hw. destruct (decide _); [|by exists w].
    destruct (updateOutcome now (w_session w)) as [[s o]|ex] eqn:Ho; [|by exists w].
    destruct (outcome_id _ _ _ _ Ho). by exists (with_session s w).
  - intros l. rewrite Ha. intros Hl. destruct (sh_active c Hsh l Hl) as (w & Hw & Hiw & Hr & Hs).
    destruct (Hs now) as (s & o & Ho & Hid & _ & Hst). exists (with_session s w).
    rewrite Hh, Hw, decide_True, Ho by done. split; [done|]. rewrite Hi. split; [|split].
    + replace (w_id (with_session s w)) with (w_id w) by done. done.
    + unfold w_state. cbn. by rewrite Hst.
    + by eapply settled_outcome.
  - rewrite Ha. apply Hsh.
Qed.

Lemma ticked_follows now c c1 : shared c → follows c → ticked (active c) now c c1 → follows c1.
Proof.
  intros Hsh Hf Ht. pose proof Ht as [Hi Ha Htb _ Hh]. apply (follows_same c c1 Htb); [| |done].
  - intros id. unfold shown. by rewrite Hi, Ha.
  - intros id w r. unfold object. rewrite Hi. destruct (items c !! id) as [l|] eqn:Hl; [|done]. cbn.
    intros Hw Hr. destruct (ticked_lookup _ _ _ _ _ Ht Hw) as (w0 & Hw0 & _ & -> & _).
    apply (fo_action c Hf id); [|done]. unfold object. by rewrite Hl.
Qed.

(** *** Queries *)
Lemma insert_fresh_spec id w c :
  shared c → items c !! id = None → w_id w = id →
  let l := fresh (dom (heap c)) in
  let c1 := set_items <[id := l]> (set_obj l w c) in
  shared c1 ∧ (∀ id', shown c1 id' ↔ shown c id') ∧
  (∀ id', object c1 id' = if decide (id' = id) then Some w else object c id').
Proof.
  intros Hsh Hi Hw l c1. assert (Hl : heap c !! l = None) by apply not_elem_of_dom, is_fresh.
  assert (Hne : ∀ l' w', heap c !! l' = Some w' → l ≠ l') by (intros l' w' Hw' ->; congruence).
  assert (Hla : l ∉ active c).
  { intros H. destruct (sh_active c Hsh l H) as (x & Hx & _). congruence. }
  subst c1. split; [split|split]; cbn [items active heap set_items set_obj].
  - intros id' l' [[<- <-]|[Hne' Hl']]%lookup_insert_Some.
    + exists w. by rewrite lookup_insert_eq.
    + destruct (sh_items c Hsh _ _ Hl') as (w' & Hw' & ?). exists w'. rewrite lookup_insert_ne; [done|by eapply Hne].
  - intros l' Hl'. destruct (sh_active c Hsh l' Hl') as (w' & Hw' & Hi' & ? & ?). exists w'.
    rewrite lookup_insert_ne by (by eapply Hne). split_and!; try done. rewrite lookup_insert_ne; [done|]. congruence.
  - apply Hsh.
  - intros id'. unfold shown. cbn [items active set_items set_obj]. destruct (decide (id' = id)) as [->|Hd].
    + rewrite lookup_insert_eq, Hi. naive_solver.
    + by rewrite lookup_insert_ne.
  - intros id'. unfold object. cbn [items heap set_items set_obj]. destruct (decide (id' = id)) as [->|Hd].
    + rewrite lookup_insert_eq. cbn. by rewrite lookup_insert_eq.
    + rewrite lookup_insert_ne by done. destruct (items c !! id') as [l'|] eqn:Hl'; [|done]. cbn.
      destruct (sh_items c Hsh _ _ Hl') as (w' & Hw' & _). rewrite lookup_insert_ne; [done|by eapply Hne].
Qed.

(** Every row of the answer yields the object the cache keeps for it. *)
Lemma take_rows_spec rows c :
  shared c → follows c → (∀ id r, (id, r) ∈ rows → table c !! id = Some r) →
  ∃ ls c1, take_rows deserialize rows c = (ls, c1) ∧ shared c1 ∧ follows c1 ∧ table c1 = table c ∧
    actions c1 = actions c ∧ active c1 = active c ∧ items c ⊆ items c1 ∧
    Forall2 (λ l kr, items c1 !! kr.1 = Some l) ls rows.
Proof.
  revert c. induction rows as [|[id r] rows IH]; intros c Hsh Hf Hin; cbn [take_rows].
  { exists [], c. split_and!; (done || constructor). }
  destruct (items c !! id) as [l|] eqn:Hi.
  - destruct (IH c Hsh Hf) as (ls & c1 & -> & ? & ? & ? & ? & ? & Hsub & ?); [intros; apply Hin; by right|].
    exists (l :: ls), c1. split_and!; try done. constructor; [|done]. by apply (lookup_weaken (items c)).
  - assert (Hr : table c !! id = Some r) by (apply Hin; by left).
    destruct (fo_rows c Hf id r Hr) as (w & Hdes & Hw & Hst & Hac & Hset). rewrite Hdes.
    destruct (insert_fresh_spec id w c Hsh Hi Hw) as (Hsh' & Hs' & Ho').
    set (l := fresh (dom (heap c))) in *. set (c' := set_items _ _) in *.
    destruct (IH c' Hsh') as (ls & c1 & -> & ? & ? & ? & ? & ? & Hsub & ?).
    + apply (follows_same c); [done|done| |done]. intros id' w' r'. rewrite Ho'.
      destruct (decide (id' = id)) as [->|]; [|by apply (fo_action c Hf)]. intros [= <-] ?. congruence.
    + intros; apply Hin; by right.
    + exists (l :: ls), c1. split_and!; try done.
      * etransitivity; [|done]. by apply insert_subseteq.
      * constructor; [|done]. apply (lookup_weaken (items c')); [|done]. by apply lookup_insert_eq.
Qed.

(** *** Loading *)

(** One row: a new object that enters the list. *)
Lemma load_row_spec id w s c :
  shared c → items c !! id = None → w_id w = id → ws_id s = ws_id (w_session w) →
  running (ws_state s) = true → settled s →
  let l := fresh (dom (heap c)) in
  let c1 := set_items <[id := l]> (set_obj l w c) in
  let c2 := set_active (active c1 ++ [l]) (set_obj l (with_session s w) c1) in
  shared c2 ∧ (∀ id', shown c2 id' ↔ id' = id ∨ shown c id') ∧
  (∀ id', object c2 id' = if decide (id' = id) then Some (with_session s w) else object c id').
Proof.
  intros Hsh Hi Hw Hids Hr Hset l c1 c2.
  destruct (insert_fresh_spec id w c Hsh Hi Hw) as (Hsh' & Hs' & _). fold l c1 in Hsh', Hs'.
  assert (Hwid : w_id (with_session s w) = id) by (rewrite <- Hw; done).
  assert (Hlf : ∀ l' x, heap c !! l' = Some x → l' ≠ l).
  { intros l' x Hx ->. apply elem_of_dom_2 in Hx. by apply (is_fresh (dom (heap c))). }
  assert (Hh : heap c2 = <[l := with_session s w]> (heap c)) by (subst c1 c2; cbn; apply insert_insert_eq).
  assert (Hit : items c2 = <[id := l]> (items c)) by done.
  assert (Ha : active c2 = active c ++ [l]) by done. clearbody c2.
  split; [split|split]; rewrite ?Hh, ?Hit, ?Ha.
  - intros id' l' [[<- <-]|[Hne Hl']]%lookup_insert_Some.
    + exists (with_session s w). by rewrite lookup_insert_eq.
    + destruct (sh_items c Hsh _ _ Hl') as (x & Hx & ?). exists x.
      rewrite lookup_insert_ne; [done|]. by eapply not_eq_sym, Hlf.
  - intros l' [Hl'| ->%list_elem_of_singleton]%elem_of_app.
    + destruct (sh_active c Hsh l' Hl') as (x & Hx & Hix & ? & ?). exists x.
      rewrite lookup_insert_ne by (by eapply not_eq_sym, Hlf). split_and!; try done.
      rewrite lookup_insert_ne; [done|]. congruence.
    + exists (with_session s w). by rewrite Hwid, !lookup_insert_eq.
  - apply NoDup_app. split_and!; [apply Hsh| |apply NoDup_singleton].
    intros l' Hl' ->%list_elem_of_singleton. destruct (sh_active c Hsh l Hl') as (x & Hx & _). by apply (Hlf l x).
  - intros id'. unfold shown. rewrite Hit, Ha. setoid_rewrite elem_of_app. setoid_rewrite list_elem_of_singleton.
    destruct (decide (id' = id)) as [->|Hne]; [rewrite lookup_insert_eq; naive_solver|].
    rewrite lookup_insert_ne by done. split; [|naive_solver]. intros (l' & Hl' & [?| ->]); [naive_solver|].
    destruct (sh_items c Hsh _ _ Hl') as (x & Hx & _). by apply Hlf in Hx.
  - intros id'. unfold object. rewrite Hit, Hh. destruct (decide (id' = id)) as [->|Hne].
    + rewrite lookup_insert_eq. cbn. by rewrite lookup_insert_eq.
    + rewrite lookup_insert_ne by done. destruct (items c !! id') as [l'|] eqn:Hl'; [|done]. cbn.
      destruct (sh_items c Hsh _ _ Hl') as (x & Hx & _). rewrite lookup_insert_ne; [done|]. by eapply not_eq_sym, Hlf.
Qed.

Lemma load_rows_spec now rows c :
  shared c → NoDup rows.*1 →
  (∀ id r, (id, r) ∈ rows → row_ok id r ∧ wr_state r < state_code DONE ∧ items c !! id = None) →
  ∃ c1, load_rows deserialize now rows c = (Ok true, c1) ∧ shared c1 ∧ table c1 = table c ∧ actions c1 = actions c ∧
    (∀ id, shown c1 id ↔ shown c id ∨ id ∈ rows.*1) ∧
    (∀ id w, object c1 id = Some w →
       object c id = Some w ∨ ∃ r, (id, r) ∈ rows ∧ ws_action (w_session w) = wr_action r).
Proof.
  revert c. induction rows as [|[id r] rows IH]; intros c Hsh Hnd Hin; cbn [load_rows].
  { exists c. split_and!; try done; [|by left]. intros id. cbn. rewrite elem_of_nil. naive_solver. }
  apply NoDup_cons in Hnd as [Hid Hnd].
  destruct (Hin id r) as ((w & Hdes & Hw & Hst & Hac & Hset) & Hlt & Hi); [by left|].
  rewrite Hdes, Hw, Hi. unfold emplace. rewrite Hw.
  destruct (Hset now) as (s & o & Ho & Hids & Hacts & Hsts).
  assert (Hrun : running (ws_state s) = true).
  { apply running_code. rewrite Hsts. change (ws_state (w_session w)) with (w_state w). by rewrite <- Hst. }
  destruct (load_row_spec id w s c Hsh Hi Hw Hids Hrun ltac:(by eapply settled_outcome)) as (Hsh2 & Hs2 & Ho2).
  set (l := fresh (dom (heap c))) in *. set (c1 := set_items <[id := l]> (set_obj l w c)) in *.
  assert (Hl : heap c1 !! l = Some w) by apply lookup_insert_eq. rewrite Hl, Ho.
  set (c2 := set_active _ _) in *.
  assert (Hi2 : ∀ id', id ≠ id' → items c2 !! id' = items c !! id') by (intros; by apply lookup_insert_ne).
  destruct (IH c2 Hsh2 Hnd) as (c3 & Hc3 & Hsh3 & Ht3 & Hac3 & Hs3 & Ho3).
  { intros id' r' Hin'. destruct (Hin id' r') as (? & ? & Hi'); [by right|]. split_and!; try done.
    rewrite Hi2; [done|]. intros <-. apply Hid, list_elem_of_fmap. by exists (id, r'). }
  exists c3. split; [exact Hc3|]. split_and!; try done.
  - intros id'. rewrite Hs3, Hs2. cbn [fmap list_fmap fst]. rewrite elem_of_cons. naive_solver.
  - intros id' x Hx. destruct (Ho3 id' x Hx) as [H|(r' & ? & ?)]; [|right; exists r'; split; [by right|done]].
    rewrite Ho2 in H. destruct (decide (id' = id)) as [->|Hne]; [|by left]. injection H as <-.
    right. exists r. split; [by left|]. cbn. congruence.
Qed.

Lemma delete_unresolved_spec rows c :
  ∃ c1, delete_unresolved (λ _, true) rows c = (true, c1) ∧ items c1 = items c ∧ active c1 = active c ∧
    heap c1 = heap c ∧ actions c1 = actions c ∧
    (∀ id, table c1 !! id = if decide (id ∈ rows.*1) then None else table c !! id).
Proof.
  revert c. induction rows as [|[id r] rows IH]; intros c; cbn [delete_unresolved].
  { exists c. split_and!; try done. }
  destruct (IH (set_table (delete id) (emit [recordSyncIssue id (wr_action r)] c))) as (c1 & -> & ? & ? & ? & ? & Ht).
  exists c1. split_and!; try done. intros id'. rewrite Ht. cbn [table set_table emit fmap list_fmap fst].
  destruct (decide (id' ∈ rows.*1)); [by rewrite decide_True by (by right)|].
  destruct (decide (id' = id)) as [->|Hne]; [by rewrite lookup_delete_eq, decide_True by (by left)|].
  rewrite lookup_delete_ne by done. rewrite decide_False; [done|]. by rewrite not_elem_of_cons.
Qed.

(** Loading a cleared cache: sessions of unknown actions are dropped and
    reported, the others that run make up the list. *)
Lemma load_follows now c :
  (∀ id r, table c !! id = Some r → row_ok id r) →
  ∃ c1, loadFromCache deserialize true (λ _, true) now (clear c) = (Ok true, c1) ∧ shared c1 ∧ follows c1 ∧
    actions c1 = actions c ∧ (∀ id, table c1 !! id = r ← table c !! id; if unresolved c r then None else Some r).
Proof.
  intros Hok. unfold loadFromCache, validateStoredWorkSessions.
  set (dead := map_to_list (filter (λ kr, unresolved (clear c) kr.2) (table (clear c)))).
  destruct (delete_unresolved_spec dead (clear c)) as (c0 & -> & Hi0 & Ha0 & Hh0 & Hac0 & Ht0). cbn [negb].
  assert (Ht : ∀ id, table c0 !! id = r ← table c !! id; if unresolved c r then None else Some r).
  { intros id. rewrite Ht0. change (table (clear c)) with (table c).
    assert (Hd : id ∈ dead.*1 ↔ ∃ r, table c !! id = Some r ∧ unresolved c r = true).
    { subst dead. rewrite list_elem_of_fmap. split.
      - intros ([id' r] & -> & Hin%elem_of_map_to_list). apply map_lookup_filter_Some in Hin as [? H%Is_true_true]. by exists r.
      - intros (r & Hr & Hu). exists (id, r). split; [done|]. apply elem_of_map_to_list, map_lookup_filter_Some. split; [done|by apply Is_true_true]. }
    destruct (table c !! id) as [r|] eqn:Hr; cbn.
    - destruct (unresolved c r) eqn:Hu; [by rewrite decide_True by (apply Hd; by exists r)|].
      rewrite decide_False; [done|]. rewrite Hd. intros (r' & ? & ?). congruence.
    - rewrite decide_False; [done|]. rewrite Hd. intros (r' & ? & ?). congruence. }
  set (rows := map_to_list _).
  assert (Hrows : ∀ id r, (id, r) ∈ rows ↔ table c0 !! id = Some r ∧ wr_state r < state_code DONE).
  { intros id r. subst rows. rewrite elem_of_map_to_list, map_lookup_filter_Some. cbn [snd]. by rewrite Is_true_true, Z.ltb_lt. }
  assert (Hok0 : ∀ id r, table c0 !! id = Some r → row_ok id r).
  { intros id r. rewrite Ht. destruct (table c !! id) as [r'|] eqn:Hr; [|done]. cbn. destruct (unresolved c r'); [done|].
    intros [= <-]. by apply Hok. }
  assert (Hsh0 : shared c0).
  { split; rewrite ?Hi0, ?Ha0; [done| |constructor]. intros l H. by apply elem_of_nil in H. }
  assert (Hnone : ∀ id, items c0 !! id = None) by (intros; by rewrite Hi0).
  destruct (load_rows_spec now rows c0 Hsh0) as (c1 & -> & Hsh1 & Ht1 & Hac1 & Hs1 & Ho1).
  { apply NoDup_fst_map_to_list. }
  { intros id r [Hr ?]%Hrows. split_and!; [by apply Hok0|done|done]. }
  eexists. split; [reflexivity|]. split; [by apply shared_emit, shared_sort|].
  cbn [table actions emit sortActive set_active]. split; [|split; [rewrite Hac1, Hac0; done|by intros; rewrite Ht1, Ht]].
  split; cbn [table emit sortActive set_active]; rewrite ?Ht1; [done| |].
  - intros id. transitivity (shown c1 id).
    { unfold shown. cbn [items active emit sortActive set_active]. by setoid_rewrite merge_sort_Permutation. }
    rewrite Hs1, list_elem_of_fmap. split.
    + intros [(l & Hl & _)|([id' r] & -> & [? ?]%Hrows)]; [by rewrite Hnone in Hl|by exists r].
    + intros (r & Hr & Hlt). right. exists (id, r). split; [done|]. by apply Hrows.
  - intros id w r Hw Hr. destruct (Ho1 id w Hw) as [H|(r' & [Hr' _]%Hrows & ->)].
    + unfold object in H. by rewrite Hnone in H.
    + congruence.
Qed.

(** *** The life of the cache *)

(** What happens to a cache that is loaded and whose statements succeed:
    sessions the server sends in the order of their versions, deleted and
    moved actions (no running session may belong to an action that moves:
    [moved_action_hides_sessions] shows why), ticks and queries. *)
Inductive cache_step : Cache (Blob := Blob) → Cache (Blob := Blob) → Prop :=
| step_work now op w c c1 :
    settled (w_session w) → (∀ r, table c !! w_id w = Some r → wr_updated_id r ≤ w_updatedId w) →
    pocessUpdate serialize true now op (UpWork w) c = (Ok true, c1) → cache_step c c1
| step_deleted now a c c1 r :
    pocessUpdate serialize true now OP_DELETED (UpAction a) (cascade a c) = (r, c1) → cache_step c c1
| step_moved now a c c1 r :
    (∀ id w, shown c id → object c id = Some w → ws_action (w_session w) ≠ a) →
    pocessUpdate serialize true now MOVED (UpAction a) c = (r, c1) → cache_step c c1
| step_tick now c c1 r : updateSessionsDurations now c = (r, c1) → cache_step c c1
| step_query page answer c c1 ls :
    (∀ id r, (id, r) ∈ answer → table c !! id = Some r) →
    getWorkSessions deserialize true page answer c = (ls, c1) → cache_step c c1.

Lemma getWorkSessions_spec page answer c :
  shared c → follows c → (∀ id r, (id, r) ∈ answer → table c !! id = Some r) →
  ∃ ls c1, getWorkSessions deserialize true page answer c = (ls, c1) ∧ shared c1 ∧ follows c1 ∧ table c1 = table c ∧
    items c ⊆ items c1.
Proof.
  intros Hsh Hf Hin. unfold getWorkSessions.
  destruct page as [[ps off]|]; [|by exists [], c]. destruct (ps <=? 0); [by exists [], c|]. cbn [negb].
  destruct (take_rows_spec (take (Z.to_nat (Z.min (u32 ps) 100)) (drop (Z.to_nat (default 0 off)) answer)) c Hsh Hf)
    as (ls & c1 & -> & ? & ? & ? & _ & _ & ? & _); [|by exists ls, c1].
  intros id r Hr. apply Hin. rewrite <- (take_drop (Z.to_nat (default 0 off)) answer). apply elem_of_app. right.
  set (rest := drop _ _) in *. rewrite <- (take_drop (Z.to_nat (Z.min (u32 ps) 100)) rest). apply elem_of_app. by left.
Qed.

Lemma cache_step_inv c c1 : cache_step c c1 → shared c → follows c → shared c1 ∧ follows c1.
Proof.
  intros Hs Hsh Hf. inversion Hs as [now op w ? ? Hset Hfr Hp|now a ? ? r Hp|now a ? ? r Hno Hp|now ? ? r Hp|page answer ? ? ls Hin Hp]; subst.
  - by eapply update_follows.
  - by apply (action_deleted_follows a c r).
  - by apply (action_moved_follows a c r).
  - destruct (tick_spec now c Hsh) as (c2 & Heq & Ht). rewrite Heq in Hp. injection Hp as <- <-.
    split; [by eapply ticked_shared|by eapply ticked_follows].
  - destruct (getWorkSessions_spec page answer c Hsh Hf Hin) as (? & ? & Heq & ? & ? & _). rewrite Heq in Hp. by injection Hp as <- <-.
Qed.

#[local] Instance in_order_total h : Total (in_order h).
Proof.
  intros a b. unfold in_order, sorts_before. destruct (sort_key h a) as [x1 x2], (sort_key h b) as [y1 y2]. cbn.
  repeat match goal with |- context [?u =? ?v] => destruct (Z.eqb_spec u v) end; cbn;
    rewrite ?Z.ltb_ge; (lia || (left; lia)).
Qed.

Lemma fetch_perm c : shared c → fetch c ≡ₚ active c.
Proof.
  intros Hsh. unfold fetch. rewrite merge_sort_Permutation.
  assert (Hall : Forall (λ l, match heap c !! l with
      | Some w => state_code (w_state w) <? state_code DONE | None => false end = true) (active c)).
  { apply Forall_forall. intros l Hl. destruct (sh_active c Hsh l Hl) as (w & -> & _ & Hr & _).
    by apply Z.ltb_lt, running_code. }
  induction Hall as [|l ls Hl _ IH]; [done|]. rewrite filter_cons, decide_True by done. by f_equiv.
Qed.


(** The clock does not drift.  However often the timer ticked before,
    a tick at a time leaves every session as one tick at that time would
    have left it. *)
Theorem ticks_do_not_drift t1 t2 c c1 c2 c3 r1 r2 r3 :
  shared c →
  updateSessionsDurations t1 c = (r1, c1) → updateSessionsDurations t2 c1 = (r2, c2) →
  updateSessionsDurations t2 c = (r3, c3) →
  r1 = Ok tt ∧ r2 = Ok tt ∧ r3 = Ok tt ∧
  heap c2 = heap c3 ∧ items c2 = items c3 ∧ active c2 = active c3 ∧ table c2 = table c3.
Proof.
  intros Hsh H1 H2 H3.
  destruct (tick_spec t1 c Hsh) as (d1 & E1 & T1). rewrite E1 in H1. injection H1 as <- <-.
  pose proof (ticked_shared _ _ _ Hsh T1) as Hsh1.
  destruct (tick_spec t2 d1 Hsh1) as (d2 & E2 & T2). rewrite E2 in H2. injection H2 as <- <-.
  destruct (tick_spec t2 c Hsh) as (d3 & E3 & T3). rewrite E3 in H3. injection H3 as <- <-.
  pose proof T1 as [I1 A1 B1 _ G1]. pose proof T2 as [I2 A2 B2 _ G2]. pose proof T3 as [I3 A3 B3 _ G3].
  split_and!; try congruence. apply map_eq. intros l. rewrite G2, G3, G1, A1.
  destruct (heap c !! l) as [w|]; [|done]. destruct (decide (l ∈ active c)) as [Hl|]; [|done].
  destruct (updateOutcome t1 (w_session w)) as [[s o]|ex] eqn:Ho; [|done].
  destruct (outcome_again t1 t2 _ _ _ Ho) as (s2 & o2 & o3 & -> & Ho3 & _). cbn [w_session with_session]. by rewrite Ho3.
Qed.

(** Moving an action to another list takes its running sessions off the
    list of current sessions, although they go on running in the table. *)
Theorem moved_action_hides_sessions now a c r c1 :
  shared c → pocessUpdate serialize true now MOVED (UpAction a) c = (r, c1) →
  r = Ok true ∧ table c1 = table c ∧
  ∀ id, shown c1 id ↔ shown c id ∧ (ws_action ∘ w_session) <$> object c id ≠ Some a.
Proof.
  intros Hsh Hp. apply process_action_inv in Hp as (-> & _ & Ht & _ & _ & _ & Hs); [|by right|done].
  by split_and!.
Qed.

(** *** The pages of a list *)
Lemma query_length ps off answer c :
  shared c → follows c → (∀ id r, (id, r) ∈ answer → table c !! id = Some r) → 0 < ps < 2 ^ 32 →
  ∃ ls c1, getWorkSessions deserialize true (Some (ps, Some (Z.of_nat off))) answer c = (ls, c1) ∧ shared c1 ∧ follows c1 ∧
    table c1 = table c ∧ items c ⊆ items c1 ∧
    Forall2 (λ l kr, items c1 !! kr.1 = Some l) ls (take (Z.to_nat (Z.min ps 100)) (drop off answer)).
Proof.
  intros Hsh Hf Hin Hps. unfold getWorkSessions. destruct (Z.leb_spec ps 0); [lia|]. cbn [negb].
  change (default 0 (Some (Z.of_nat off))) with (Z.of_nat off). rewrite u32_small, Nat2Z.id by lia.
  destruct (take_rows_spec (take (Z.to_nat (Z.min ps 100)) (drop off answer)) c Hsh Hf)
    as (ls & c1 & -> & ? & ? & ? & _ & _ & ? & ?); [|by exists ls, c1].
  intros id r Hr. apply Hin. rewrite <- (take_drop off answer). apply elem_of_app. right.
  set (rest := drop _ _) in *. rewrite <- (take_drop (Z.to_nat (Z.min ps 100)) rest). apply elem_of_app. by left.
Qed.

(** The rows of the model are the objects of the first rows of the answer. *)
Definition shows_prefix (answer : list (string * WRow)) (k : nat) (m : WorkModel) c : Prop :=
  shared c ∧ follows c ∧ (∀ id r, (id, r) ∈ answer → table c !! id = Some r) ∧ (k ≤ length answer)%nat ∧
  Forall2 (λ l kr, items c !! kr.1 = Some l) (sessions m) (take k answer).

Lemma next_page setting answer k m c :
  0 ≤ setting < 2 ^ 31 → page_size m = setting → shows_prefix answer k m c →
  ∃ m1 c1 got, doFetchSome deserialize setting false answer m c = (m1, c1) ∧ page_size m1 = setting ∧
    got = Nat.min (Z.to_nat (Z.min (Z.max setting 20) 100)) (length answer - k) ∧
    shows_prefix answer (k + got) m1 c1 ∧ more m1 = negb (Z.of_nat got <? Z.max setting 20).
Proof.
  intros Hs Hpm (Hsh & Hf & Hin & Hk & Hall). unfold doFetchSome, pageSize. rewrite Hpm.
  assert (Hlen : length (sessions m) = k).
  { apply Forall2_length in Hall. rewrite length_take in Hall. lia. }
  rewrite Hlen.
  destruct (query_length (Z.max setting 20) k answer c Hsh Hf Hin ltac:(lia))
    as (ls & c1 & -> & Hsh1 & Hf1 & Ht1 & Hi1 & Hall1).
  pose proof (Forall2_length _ _ _ Hall1) as Hg. rewrite length_take, length_drop in Hg.
  eexists _, _, _. split; [reflexivity|]. split; [done|]. split; [reflexivity|]. cbn [sessions more].
  rewrite Hg. split; [|done]. split_and!; [done|done|by rewrite Ht1|lia|]. cbn [sessions].
  set (n := Z.to_nat (Z.min (Z.max setting 20) 100)) in *.
  assert (take (k + Nat.min n (length answer - k)) answer = take k answer ++ take n (drop k answer)) as ->.
  { rewrite <- take_take_drop. f_equal. destruct (Nat.le_ge_cases n (length answer - k)).
    - by rewrite Nat.min_l.
    - rewrite Nat.min_r by done. rewrite !firstn_all2; [done|rewrite length_drop; lia..]. }
  apply Forall2_app; [|done]. eapply Forall2_impl; [exact Hall|]. intros l kr Hl. by apply (lookup_weaken (items c)).
Qed.

Lemma scroll_pages setting answer n k m c :
  0 ≤ setting < 2 ^ 31 → page_size m = setting → shows_prefix answer k m c →
  (setting ≤ 100 → more m = false → k = length answer) →
  ∃ m1 c1 k1, scroll deserialize n answer m c = (m1, c1) ∧ shows_prefix answer k1 m1 c1 ∧
    (setting ≤ 100 → (more m1 = false → k1 = length answer) ∧ (more m1 = true → more m = true ∧ (k + n ≤ k1)%nat)) ∧
    (more m = false → k1 = k ∧ more m1 = false).
Proof.
  intros Hs. revert k m c. induction n as [|n IH]; intros k m c Hpm Hp Hdone; cbn [scroll].
  { exists m, c, k. split_and!; try done. intros Hle. split; [by auto|]. intros ?. split; [done|lia]. }
  unfold fetchMore. destruct (more m) eqn:Hm.
  - rewrite Hpm. destruct (next_page setting answer k m c Hs Hpm Hp) as (m1 & c1 & got & -> & Hpm1 & Hg & Hp1 & Hm1).
    pose proof Hp as (_ & _ & _ & Hk & _).
    destruct (IH (k + got)%nat m1 c1 Hpm1 Hp1) as (m2 & c2 & k2 & -> & Hp2 & Hle2 & Hno2).
    { intros Hle Hf. rewrite Hm1 in Hf. apply negb_false_iff, Z.ltb_lt in Hf. lia. }
    exists m2, c2, k2. split_and!; try done. intros Hle. destruct (Hle2 Hle) as [Ha Hb]. split; [done|].
    intros Ht. destruct (Hb Ht) as [Hm1' Hk2]. split; [done|].
    rewrite Hm1 in Hm1'. apply negb_true_iff, Z.ltb_ge in Hm1'. lia.
  - destruct (IH k m c Hpm Hp ltac:(intros; by apply Hdone)) as (m2 & c2 & k2 & -> & Hp2 & Hle2 & Hno2).
    exists m2, c2, k2. split_and!; try done; [|by intros _; apply Hno2]. intros Hle. destruct (Hle2 Hle) as [Ha Hb].
    split; [done|]. intros Ht. destruct (Hb Ht) as [? _]. congruence.
Qed.

(** The pages of a list of work sessions.  With a page size of at most
    100 a view that scrolls to the end shows every session that matches,
    once, in the order of the query, and stops asking.  With a larger page
    size (the default is 500) it shows the first 100 and believes there is
    no more, because the query never returns more than 100 rows. *)
Theorem list_pages setting answer m0 c n :
  0 ≤ setting < 2 ^ 31 → shared c → follows c →
  (∀ id r, (id, r) ∈ answer → table c !! id = Some r) → (length answer ≤ n)%nat →
  let '(m1, c1) := doFetchSome deserialize setting true answer m0 c in
  let '(m, c') := scroll deserialize n answer m1 c1 in
  Forall2 (λ l kr, items c' !! kr.1 = Some l) (sessions m) (if setting <=? 100 then answer else take 100 answer) ∧
  more m = false.
Proof.
  intros Hs Hsh Hf Hin Hn.
  pose (m := {| sessions := []; page_size := setting; more := false |}).
  change (doFetchSome deserialize setting true answer m0 c) with (doFetchSome deserialize setting false answer m c).
  assert (Hp0 : shows_prefix answer 0 m c) by (split_and!; (done || lia || constructor)).
  destruct (next_page setting answer 0 m c Hs eq_refl Hp0) as (m1 & c1 & got & -> & Hpm1 & Hg & Hp1 & Hm1).
  rewrite Nat.sub_0_r in Hg.
  destruct (scroll_pages setting answer n got m1 c1 Hs Hpm1 Hp1) as (m2 & c2 & k2 & -> & Hp2 & Hle & Hno).
  { intros Hle Hmf. rewrite Hm1 in Hmf. apply negb_false_iff, Z.ltb_lt in Hmf. lia. }
  destruct Hp2 as (_ & _ & _ & Hk2 & Hall). destruct (Z.leb_spec setting 100) as [Hl|Hl].
  - destruct (Hle Hl) as [Ha Hb]. destruct (more m2) eqn:Hm2.
    + destruct (Hb eq_refl) as [Hm1' Hk]. rewrite Hm1 in Hm1'. apply negb_true_iff, Z.ltb_ge in Hm1'. lia.
    + rewrite (Ha eq_refl), firstn_all in Hall. done.
  - assert (Hmf : more m1 = false) by (rewrite Hm1; apply negb_false_iff, Z.ltb_lt; lia).
    destruct (Hno Hmf) as [-> Hm2]. split; [|exact Hm2].
    replace (take 100 answer) with (take got answer); [done|].
    subst got. rewrite Z.min_r by lia. change (Z.to_nat 100) with 100%nat.
    destruct (Nat.le_ge_cases (length answer) 100); [rewrite !firstn_all2 by lia; done|f_equal; lia].
Qed.
End facts.

(** ** Examples *)
Module Example_work_cache.

Definition session (id a : string) (st : WorkState) (es : list WorkEvent) : WorkSession :=
  {| ws_id := id; ws_action := a; ws_start := 0; ws_end := None; ws_duration := 0; ws_paused := 0;
     ws_state := st; ws_version := 1; ws_touched := 0; ws_events := es; ws_name := id; ws_notes := "" |}.

(** As the server saved it at time 2000. *)
Definition saved (s : WorkSession) : WorkSession :=
  match WorkSession.updateOutcome 2000 s with Ok s => s | Throw _ => s end.

Definition working : WorkSession := saved (session "w1" "a1" ACTIVE [at_time 1000 START]).
Definition paused : WorkSession := saved (session "w2" "a2" ACTIVE [at_time 1000 START; at_time 1600 PAUSE]).
Definition finished : WorkSession := saved (session "w3" "a1" ACTIVE [at_time 1000 START; at_time 1900 STOP]).

Definition row (n : Z) (s : WorkSession) : Work := {| w_session := s; w_updated := n; w_updatedId := n |}.

(** The codec of the witness keeps the message. *)
Definition stored : gmap string (WRow (Blob := Work)) :=
  {[ "w1" := getParams (λ w, w) (row 1 working); "w2" := getParams (λ w, w) (row 2 paused);
     "w3" := getParams (λ w, w) (row 3 finished); "w4" := getParams (λ w, w) (row 4 (session "w4" "gone" ACTIVE [])) ]}.

Definition start : Cache (Blob := Work) :=
  {| items := ∅; active := []; heap := ∅; table := stored; actions := {["a1"; "a2"]}; out := [] |}.

Definition loaded : Cache (Blob := Work) := (loadFromCache Some true (λ _, true) 2000 (clear start)).2.

Definition ids_of (c : Cache (Blob := Work)) : list (string * WorkState * Z * Z) :=
  omap (λ l, w ← heap c !! l; Some (w_id w, w_state w, ws_duration (w_session w), ws_paused (w_session w))) (fetch c).

(** Active before paused; the orphan is gone; the open pause is a pause. *)
Lemma loaded_list : ids_of loaded = [("w1", ACTIVE, 1000, 0); ("w2", PAUSED, 600, 400)].
Proof. vm_compute. reflexivity. Qed.

Lemma later_list : ids_of (updateSessionsDurations 2600 loaded).2 = [("w1", ACTIVE, 1600, 0); ("w2", PAUSED, 600, 1000)].
Proof. vm_compute. reflexivity. Qed.

(** The session of an action that is moved leaves the list, and runs on. *)
Lemma moved_session_is_lost :
  ids_of (pocessUpdate (λ w, w) true 2000 MOVED (UpAction "a1") loaded).2 = [("w2", PAUSED, 600, 400)] ∧
  (wr_state <$> table (pocessUpdate (λ w, w) true 2000 MOVED (UpAction "a1") loaded).2 !! "w1") = Some 0.
Proof. vm_compute. split; reflexivity. Qed.

(** A statement that fails leaves a running session out of the list: the
    object is there, the list was not brought up to date. *)
Lemma failed_save_is_not_listed :
  let started := row 9 (saved (session "w9" "a1" ACTIVE [at_time 1990 START])) in
  let '(r, c) := pocessUpdate (λ w, w) false 2000 ADDED (UpWork started) loaded in
  r = Ok false ∧ (w_state <$> object c "w9") = Some ACTIVE ∧ ids_of c = ids_of loaded.
Proof. vm_compute. split_and!; reflexivity. Qed.

Lemma client_clock_is_servers_witness :
  ∃ c o, updateOutcome 2000 (session "w1" "a1" ACTIVE [at_time 1000 START]) = Ok (c, o) ∧
    ws_start c = 1000 ∧ ws_state c = ACTIVE.
Proof.
  destruct (client_clock_is_servers 2000 (session "w1" "a1" ACTIVE [at_time 1000 START]) working
    ltac:(vm_compute; reflexivity) ltac:(done)) as (c & o & H & Hs & Hst & _).
  exists c, o. split; [exact H|]. split; [exact Hs|exact Hst].
Defined.

Lemma client_clock_counts_witness :
  ∃ c o, updateOutcome 2000 (session "w2" "a2" ACTIVE [at_time 1000 START; at_time 1600 PAUSE]) = Ok (c, o) ∧
    ws_paused c = 400 ∧ ws_duration c = 600.
Proof.
  destruct (client_clock_counts 2000 (session "w2" "a2" ACTIVE [at_time 1000 START; at_time 1600 PAUSE])
    1000 (at_time 1000 START) [at_time 1600 PAUSE] eq_refl ltac:(done) eq_refl eq_refl
    ltac:(unfold started; split_and!; [lia|done|done|repeat constructor; cbn; lia|lia])
    ltac:(vm_compute; split; [discriminate|reflexivity]) ltac:(lia)) as (c & o & H & _ & _ & _ & Hp & Hd).
  exists c, o. split; [exact H|]. split; [exact Hp|exact Hd].
Defined.

Lemma row_of_session n w s :
  WorkSession.updateOutcome 2000 w = Ok s → row_ok Some (ws_id s) (getParams (λ w, w) (row n s)).
Proof. intros H. exists (row n s). split_and!; try done. by apply (server_session_settled 2000 w). Qed.

Lemma stored_rows id r : table start !! id = Some r → row_ok Some id r.
Proof.
  cbn [table start]. unfold stored. intros H.
  apply lookup_insert_Some in H as [[<- <-]|[_ H]];
    [apply (row_of_session 1 (session "w1" "a1" ACTIVE [at_time 1000 START]) working); vm_compute; reflexivity|].
  apply lookup_insert_Some in H as [[<- <-]|[_ H]];
    [apply (row_of_session 2 (session "w2" "a2" ACTIVE [at_time 1000 START; at_time 1600 PAUSE]) paused); vm_compute; reflexivity|].
  apply lookup_insert_Some in H as [[<- <-]|[_ H]];
    [apply (row_of_session 3 (session "w3" "a1" ACTIVE [at_time 1000 START; at_time 1900 STOP]) finished); vm_compute; reflexivity|].
  apply lookup_singleton_Some in H as [<- <-].
  apply (row_of_session 4 (session "w4" "gone" ACTIVE []) (session "w4" "gone" ACTIVE [])). vm_compute. reflexivity.
Qed.

(** A session starts, the timer ticks. *)
Definition begun : Work := row 5 (saved (session "w5" "a2" ACTIVE [at_time 1995 START])).
Definition with_begun : Cache (Blob := Work) := (pocessUpdate (λ w, w) true 2000 ADDED (UpWork begun) loaded).2.
Definition ticked_once : Cache (Blob := Work) := (updateSessionsDurations 2060 with_begun).2.

Lemma begun_settled : settled (w_session begun).
Proof. apply (server_session_settled 2000 (session "w5" "a2" ACTIVE [at_time 1995 START])). vm_compute. reflexivity. Qed.

Lemma loaded_facts :
  loadFromCache Some true (λ _, true) 2000 (clear start) = (Ok true, loaded) ∧ shared loaded ∧ follows Some loaded.
Proof. unfold loaded. destruct (load_follows Some 2000 start stored_rows) as (c & -> & Hs & Hf & _). by split_and!. Qed.

Lemma begun_run : rtc (cache_step (λ w, w) Some) loaded ticked_once.
Proof.
  apply rtc_l with with_begun; [|apply rtc_once].
  - apply (step_work _ _ 2000 ADDED begun); [apply begun_settled| |].
    + intros r H. exfalso. revert H. vm_compute. discriminate.
    + unfold with_begun. rewrite (surjective_pairing (pocessUpdate _ _ _ _ _ _)) at 1. by f_equal.
  - apply (step_tick _ _ 2060 _ _ (updateSessionsDurations 2060 with_begun).1). apply surjective_pairing.
Qed.


Lemma ticks_do_not_drift_witness :
  heap (updateSessionsDurations 2600 (updateSessionsDurations 2060 loaded).2).2 =
  heap (updateSessionsDurations 2600 loaded).2.
Proof.
  refine (proj1 (proj2 (proj2 (proj2 (ticks_do_not_drift 2060 2600 loaded _ _ _ _ _ _
    (proj1 (proj2 loaded_facts)) (surjective_pairing _) (surjective_pairing _) (surjective_pairing _)))))).
Defined.

Lemma moved_action_hides_sessions_witness :
  ¬ shown (pocessUpdate (λ w, w) true 2000 MOVED (UpAction "a1") loaded).2 "w1" ∧ shown loaded "w1".
Proof.
  destruct (moved_action_hides_sessions (λ w, w) 2000 "a1" loaded _ _ (proj1 (proj2 loaded_facts)) (surjective_pairing _)) as (_ & _ & Hs).
  split.
  - rewrite Hs. intros [_ H]. apply H. vm_compute. reflexivity.
  - eexists. split; [vm_compute; reflexivity|]. apply list_elem_of_In. vm_compute. auto.
Defined.

(** 250 rows of one session each, on the pages of the default size. *)
Lemma list_pages_witness :
  let answer := map_to_list (table loaded) in
  let '(m, c) := doFetchSome Some 500 true answer {| sessions := []; page_size := 0; more := true |} loaded in
  length (sessions m) = 3%nat ∧ more m = false.
Proof.
  pose proof (list_pages Some 500 (map_to_list (table loaded))
    {| sessions := []; page_size := 0; more := true |} loaded 3 ltac:(lia) (proj1 (proj2 loaded_facts)) (proj2 (proj2 loaded_facts))
    (λ id r H, proj1 (elem_of_map_to_list _ _ _) H) ltac:(apply Nat.leb_le; vm_compute; reflexivity)) as H.
  cbv zeta. destruct (doFetchSome _ _ _ _ _ _) as [m c] eqn:Hd.
  assert (Hm : (length (sessions m), more m) = (3%nat, false)).
  { transitivity ((λ mc, (length (sessions mc.1), more mc.1)) (doFetchSome Some 500 true (map_to_list (table loaded))
      {| sessions := []; page_size := 0; more := true |} loaded)); [by rewrite Hd|vm_compute; reflexivity]. }
  split; [exact (f_equal fst Hm)|exact (f_equal snd Hm)].
Defined.
End Example_work_cache.
