(* ===== verification/SignUp.v ===== *)
(** * The sign-up server

    src/src/signup/lib: the server a new user meets first.  It limits the
    rate of sign-ups ([allowSignupAttempt]), lets one sign-up per email run
    at a time, picks an instance of the backend in the region the user
    asked for ([assignInstance]), lets that instance create the tenant and
    the device, and remembers which instance holds the account
    ([getInstanceFromUserEmail] for later devices).  Administrators keep
    the regions and instances.

    A sign-up waits for the backend, so it is a sequence of steps and the
    steps of many sign-ups interleave.  What the backend answers is an
    argument.  SHA-256 is the parameter [sha256].  The tokens of a bucket
    are rationals; the program computes them as doubles. *)
From Stdlib Require Import QArith Qminmax Lqa.
From S2P Require Import Prelude Text.
From S2P Require Accounts.

#[local] Open Scope Z_scope.
#[local] Open Scope nextapp_scope.

(** ** The rate limiter *)

(** [Server::RateLimitBucket]; times are nanoseconds of the steady clock and
    0 is [time_point{}]. *)
Record RateLimitBucket := { tokens : Q; updated_at : Z }.

(** [Server::SignupRateLimitConfig] *)
Record SignupRateLimitConfig := {
  ip_burst : Z;
  ip_refill_per_second : Q;
  email_burst : Z;
  email_refill_per_second : Q
}.

(** [duration<double>(now - since).count()] *)
Definition seconds (now since : Z) : Q := (now - since) # 1000000000.

Definition consumeRateLimitToken_ (buckets : gmap string RateLimitBucket) (key : string) (burst : Z)
    (refill_per_second : Q) (now : Z) : bool * gmap string RateLimitBucket :=
  if burst =? 0 then (false, buckets) else
  let bucket := default {| tokens := 0; updated_at := 0 |} (buckets !! key) in
  let bucket :=
    if updated_at bucket =? 0 then {| tokens := inject_Z burst; updated_at := now |}
    else {| tokens := Qmin (inject_Z burst)
                        (tokens bucket + seconds now (updated_at bucket) * refill_per_second);
            updated_at := now |} in
  if negb (Qle_bool 1 (tokens bucket)) then (false, <[key := bucket]> buckets)
  else (true, <[key := {| tokens := tokens bucket - 1; updated_at := updated_at bucket |}]> buckets).

(** [std::string_view::rfind] *)
Definition rfind (c : ascii) (s : chars) : option nat :=
  match find c (reverse s) with Some i => Some (length s - 1 - i)%nat | None => None end.

Definition starts_with (p s : chars) : bool := bool_decide (take (length p) s = p).

(** [peerKey_]: the address of the peer without its port. *)
Definition peerKey_ (peer : chars) : chars :=
  if starts_with (lit "ipv4:") peer then
    let host := drop 5 peer in
    match rfind ":"%char host with Some pos => take pos host | None => host end
  else if starts_with (lit "ipv6:[") peer then
    let host := drop 6 peer in
    match find "]"%char host with Some pos => take pos host | None => host end
  else peer.

(** ** The database *)

Record RegionRow := { rg_name : string; rg_description : option string; rg_active : bool }.

Record InstanceRow := {
  in_region : string;
  in_url : string;
  in_pub_url : string;
  in_ca_cert : option string;
  in_key : option string;
  in_cert : option string;
  in_metrics_url : option string;
  in_server_id : option string;
  in_active : bool
}.

Record TenantRow := { tn_state : string; tn_instance : string; tn_region : string }.
Record UserRow := { us_email_hash : string; us_tenant : string; us_state : string }.

(** A row of [localuser]: the nickname is the key. *)
Record LocalUser := { lu_id : string; lu_kind : string; lu_auth_token : string }.

Record Db := {
  regions : gmap string RegionRow;
  instances : gmap string InstanceRow;
  tenants : gmap string TenantRow;
  users : gmap string UserRow;
  localusers : gmap string LocalUser
}.

Definition set_regions (f : gmap string RegionRow → gmap string RegionRow) (d : Db) : Db :=
  {| regions := f (regions d); instances := instances d; tenants := tenants d; users := users d; localusers := localusers d |}.
Definition set_instances (f : gmap string InstanceRow → gmap string InstanceRow) (d : Db) : Db :=
  {| regions := regions d; instances := f (instances d); tenants := tenants d; users := users d; localusers := localusers d |}.
Definition set_tenants (f : gmap string TenantRow → gmap string TenantRow) (d : Db) : Db :=
  {| regions := regions d; instances := instances d; tenants := f (tenants d); users := users d; localusers := localusers d |}.
Definition set_users (f : gmap string UserRow → gmap string UserRow) (d : Db) : Db :=
  {| regions := regions d; instances := instances d; tenants := tenants d; users := f (users d); localusers := localusers d |}.

(** [DELETE] with the cascades of the schema. *)
Definition drop_tenants (P : TenantRow → bool) (d : Db) : Db :=
  let keep := filter (λ kt, P kt.2 = false) (tenants d) in
  set_users (filter (λ ku, is_Some (keep !! us_tenant ku.2))) (set_tenants (λ _, keep) d).
Definition drop_instances (P : string → InstanceRow → bool) (d : Db) : Db :=
  let keep := filter (λ ki, P ki.1 ki.2 = false) (instances d) in
  drop_tenants (λ t, bool_decide (keep !! tn_instance t = None)) (set_instances (λ _, keep) d).
Definition drop_region (id : string) (d : Db) : Db :=
  drop_tenants (λ t, bool_decide (tn_region t = id))
    (drop_instances (λ _ i, bool_decide (in_region i = id)) (set_regions (delete id) d)).

(** [INSERT INTO tenant ... ON DUPLICATE KEY UPDATE] *)
Definition upsert_tenant (id : string) (t : TenantRow) : M Db unit :=
  let! d := gets (λ d, d) in
  let! _ := lift (throw_if (negb (bool_decide (is_Some (instances d !! tn_instance t)) &&
                                  bool_decide (is_Some (regions d !! tn_region t)))) runtime_error) in
  modify (set_tenants <[id := t]>).

(** The user with the hash of an email; the column is a unique key. *)
Definition by_email (hash : string) (d : Db) : option (string * UserRow) :=
  head (map_to_list (filter (λ ku, us_email_hash ku.2 = hash) (users d))).

(** [INSERT INTO `user` ... ON DUPLICATE KEY UPDATE]: a row with the same id
    or the same hash is updated in place, and keeps its id. *)
Definition upsert_user (id : string) (u : UserRow) : M Db unit :=
  let! d := gets (λ d, d) in
  let! _ := lift (throw_if (negb (bool_decide (is_Some (tenants d !! us_tenant u)))) runtime_error) in
  match users d !! id, by_email (us_email_hash u) d with
  | Some _, Some (id', _) =>
      let! _ := lift (throw_if (negb (bool_decide (id' = id))) runtime_error) in
      modify (set_users <[id := u]>)
  | Some _, None => modify (set_users <[id := u]>)
  | None, Some (id', _) => modify (set_users <[id' := u]>)
  | None, None => modify (set_users <[id := u]>)
  end.

Definition delete_user_by_email (hash : string) : M Db unit :=
  modify (set_users (filter (λ ku, us_email_hash ku.2 ≠ hash))).

(** ** The cluster in memory *)

Record Instance := {
  c_url : string;
  c_pub_url : string;
  c_active : bool;
  c_server_id : string;
  is_online : bool
}.

Record Region := { c_name : string; c_region_active : bool; c_instances : gmap string Instance }.

Definition Cluster : Type := gmap string Region.

Definition load_instance (i : InstanceRow) : Instance :=
  {| c_url := in_url i; c_pub_url := in_pub_url i; c_active := in_active i;
     c_server_id := default "" (in_server_id i); is_online := false |}.

(** [getClusterFromDb] *)
Definition getClusterFromDb (d : Db) : Cluster :=
  map_imap (λ id r, Some {| c_name := rg_name r; c_region_active := rg_active r;
                            c_instances := load_instance <$> filter (λ ki, in_region ki.2 = id) (instances d) |})
           (regions d).

(** The instance with the id, and its region: [getInstanceFromUuid] and the
    loops over all instances. *)
Definition getInstanceFromUuid (uuid : string) (c : Cluster) : option (string * Instance) :=
  head (omap (λ kr, i ← c_instances kr.2 !! uuid; Some (kr.1, i)) (map_to_list c)).

Definition set_online (b : bool) (i : Instance) : Instance :=
  {| c_url := c_url i; c_pub_url := c_pub_url i; c_active := c_active i; c_server_id := c_server_id i; is_online := b |}.

(** [loadCluster_]: what is online stays online. *)
Definition loadCluster_ (d : Db) (current : Cluster) : Cluster :=
  (λ r, {| c_name := c_name r; c_region_active := c_region_active r;
           c_instances := map_imap (λ id i, Some (match getInstanceFromUuid id current with
                                                  | Some (_, old) => set_online (is_online old) i
                                                  | None => i end)) (c_instances r) |})
  <$> getClusterFromDb d.

(** [AssignedInstance] *)
Record AssignedInstance := { as_region : string; as_instance : string; as_pub_url : string }.

(** [assignInstance]: [rnd] is the random number. *)
Definition assignInstance (rnd : Z) (region : string) (c : Cluster) : result AssignedInstance :=
  match c !! region with
  | None => Throw runtime_error
  | Some r =>
      let alternatives := filter (λ ki, is_online ki.2 && c_active ki.2) (map_to_list (c_instances r)) in
      match alternatives !! Z.to_nat (rnd mod Z.of_nat (length alternatives)) with
      | Some (id, i) => Ok {| as_region := region; as_instance := id; as_pub_url := c_pub_url i |}
      | None => Throw runtime_error
      end
  end.

(** ** The handlers *)
Section server.
Context (sha256 : string → string).

(** [getEmailHash]; [salt] is chosen when the database is created. *)
Definition getEmailHash (salt email : string) : string :=
  sha256 (String.append (Accounts.toLower email) (String.append ":" salt)).

(** [getPasswordHash] *)
Definition getPasswordHash (password userUuid : string) : string :=
  sha256 (String.append password (String.append ":" userUuid)).

(** What the process keeps. *)
Record Server := {
  db : Db;
  cluster : Cluster;
  conns : gset string;
  inflight : gset string;
  ip_buckets : gmap string RateLimitBucket;
  email_buckets : gmap string RateLimitBucket
}.

Definition set_db (d : Db) (s : Server) : Server :=
  {| db := d; cluster := cluster s; conns := conns s; inflight := inflight s;
     ip_buckets := ip_buckets s; email_buckets := email_buckets s |}.
Definition set_cluster (c : Cluster) (s : Server) : Server :=
  {| db := db s; cluster := c; conns := conns s; inflight := inflight s;
     ip_buckets := ip_buckets s; email_buckets := email_buckets s |}.
Definition set_conns (f : gset string → gset string) (s : Server) : Server :=
  {| db := db s; cluster := cluster s; conns := f (conns s); inflight := inflight s;
     ip_buckets := ip_buckets s; email_buckets := email_buckets s |}.
Definition set_inflight (f : gset string → gset string) (s : Server) : Server :=
  {| db := db s; cluster := cluster s; conns := conns s; inflight := f (inflight s);
     ip_buckets := ip_buckets s; email_buckets := email_buckets s |}.
Definition set_buckets (ip email : gmap string RateLimitBucket) (s : Server) : Server :=
  {| db := db s; cluster := cluster s; conns := conns s; inflight := inflight s;
     ip_buckets := ip; email_buckets := email |}.

(** [allowSignupAttemptLocal_]: both buckets pay. *)
Definition allowSignupAttemptLocal_ (salt : string) (peer email : string) (cfg : SignupRateLimitConfig) (now : Z)
    (s : Server) : bool * Server :=
  let peer_key := String.string_of_list_ascii (peerKey_ (lit peer)) in
  let '(ip_allowed, ip) := consumeRateLimitToken_ (ip_buckets s) peer_key (ip_burst cfg) (ip_refill_per_second cfg) now in
  let '(email_allowed, em) := consumeRateLimitToken_ (email_buckets s) (getEmailHash salt email) (email_burst cfg)
                                (email_refill_per_second cfg) now in
  (ip_allowed && email_allowed, set_buckets ip em s).

Definition tryReserveEmailSignup (hash : string) (s : Server) : bool * Server :=
  if bool_decide (hash ∈ inflight s) then (false, s) else (true, set_inflight (union {[hash]}) s).

Definition releaseEmailSignup (hash : string) : Server → Server := set_inflight (λ h, h ∖ {[hash]}).

(** [signup.pb.SignUpRequest], without what is only passed on. *)
Record SignUpRequest := { sr_email : string; sr_region : option string }.

(** [nextapp.pb.Tenant] of the answer to [CreateTenant]. *)
Record NewTenant := { nt_uuid : string; nt_users : list string }.

(** [signup.pb.Reply] *)
Inductive Reply :=
| Failed (e : exn)
| TooManyAttempts
| Unauthorized
| SignedUp (device server_url : string).

(** A sign-up between its steps: the email's hash and the instance it was
    given. *)
Inductive Phase :=
| AwaitTenant (hash : string) (a : AssignedInstance)
| AwaitDevice (hash : string) (a : AssignedInstance) (t : NewTenant)
| Storing (hash : string) (a : AssignedInstance) (t : NewTenant) (device : string)
| Done (r : Reply).

(** The hash a sign-up has reserved. *)
Definition reserved (p : Phase) : option string :=
  match p with
  | AwaitTenant h _ | AwaitDevice h _ _ | Storing h _ _ _ => Some h
  | Done _ => None
  end.

(** The end of the coroutine: [ScopedExit] gives the email back. *)
Definition finish (hash : string) (r : Reply) (s : Server) : Phase * Server :=
  (Done r, releaseEmailSignup hash s).

(** [SignUp] up to the call of [CreateTenant]. *)
Definition begin_signup (salt : string) (cfg : SignupRateLimitConfig) (now rnd : Z) (peer : string)
    (req : SignUpRequest) (s : Server) : Phase * Server :=
  if bool_decide (sr_email req = "") then (Done (Failed (server_err Error.MISSING_USER_EMAIL)), s) else
  match sr_region req with
  | None | Some "" => (Done (Failed runtime_error), s)
  | Some region =>
      let '(allowed, s) := allowSignupAttemptLocal_ salt peer (sr_email req) cfg now s in
      if negb allowed then (Done TooManyAttempts, s) else
      let email_hash := getEmailHash salt (sr_email req) in
      let '(mine, s) := tryReserveEmailSignup email_hash s in
      if negb mine then (Done (Failed (server_err Error.ALREADY_EXIST)), s) else
      match assignInstance rnd region (cluster s) with
      | Throw e => finish email_hash (Failed e) s
      | Ok a => if bool_decide (as_instance a ∈ conns s) then (AwaitTenant email_hash a, s)
                else finish email_hash (Failed undefined) s
      end
  end.

(** The answer to [CreateTenant]: an error, no tenant, or the tenant. *)
Definition on_tenant (answer : result (option NewTenant)) (p : Phase) (s : Server) : Phase * Server :=
  match p with
  | AwaitTenant hash a =>
      match answer with
      | Throw e => finish hash (Failed e) s
      | Ok None => finish hash (Failed runtime_error) s
      | Ok (Some t) => if bool_decide (length (nt_users t) = 1%nat) then (AwaitDevice hash a t, s)
                       else finish hash (Failed runtime_error) s
      end
  | _ => (p, s)
  end.

(** The answer to [CreateDevice]. *)
Definition on_device (answer : result (option string)) (p : Phase) (s : Server) : Phase * Server :=
  match p with
  | AwaitDevice hash a t =>
      match answer with
      | Throw e => finish hash (Failed e) s
      | Ok None => finish hash (Failed runtime_error) s
      | Ok (Some device) => (Storing hash a t device, s)
      end
  | _ => (p, s)
  end.

(** The transaction at the end of [SignUp]. *)
Definition store_signup (hash : string) (a : AssignedInstance) (t : NewTenant) : M Db unit :=
  let user_id := default "" (head (nt_users t)) in
  let! _ := upsert_tenant (nt_uuid t) {| tn_state := "active"; tn_instance := as_instance a; tn_region := as_region a |} in
  let! _ := delete_user_by_email hash in
  upsert_user user_id {| us_email_hash := hash; us_tenant := nt_uuid t; us_state := "inactive" |}.

Definition on_store (p : Phase) (s : Server) : Phase * Server :=
  match p with
  | Storing hash a t device =>
      match store_signup hash a t (db s) with
      | Ok (_, d) => finish hash (SignedUp device (as_pub_url a)) (set_db d s)
      | Throw e => finish hash (Failed e) s
      end
  | _ => (p, s)
  end.

(** *** Finding the instance of a user *)

(** The join of [getInstanceFromUserEmail]. *)
Definition instance_of_email (hash : string) (d : Db) : option string :=
  ku ← by_email hash d; t ← tenants d !! us_tenant ku.2; Some (tn_instance t).

Definition getInstanceFromUserEmail (salt email : string) (s : Server) : option (string * Instance) :=
  i ← instance_of_email (getEmailHash salt email) (db s); getInstanceFromUuid i (cluster s).

(** [CreateNewDevice] up to the call of the backend: the instance the
    request is passed to and the address the device gets. *)
Definition route_new_device (salt : string) (otp_email : option string) (s : Server) : result (string * string) :=
  match otp_email with
  | None => Throw (server_err Error.MISSING_AUTH)
  | Some email =>
      match i ← instance_of_email (getEmailHash salt email) (db s);
            ri ← getInstanceFromUuid i (cluster s); Some (i, ri.2) with
      | None => Throw (server_err Error.GENERIC_ERROR)
      | Some (i, inst) => if bool_decide (i ∈ conns s) then Ok (i, c_pub_url inst)
                          else Throw (server_err Error.TEMPORATY_FAILURE)
      end
  end.

(** *** Administration *)

(** [isAdmin] *)
Definition isAdmin (user password : option string) (d : Db) : bool :=
  match user, password with
  | Some u, Some p =>
      if bool_decide (u = "") || bool_decide (p = "") then false else
      match localusers d !! u with
      | None => false
      | Some row => bool_decide (getPasswordHash p (lu_id row) = lu_auth_token row) && bool_decide (lu_kind row = "admin")
      end
  | _, _ => false
  end.

(** [signup.pb.SetInstance]; an empty text is an unset field. *)
Record SetInstance := {
  si_uuid : string; si_region : string; si_url : string; si_pub_url : string;
  si_ca_cert : string; si_key : string; si_cert : string; si_metrics_url : string;
  si_active : option bool
}.

(** The statement of [AddInstance]; [uuid] is the request's or a new one. *)
Definition AddInstance (uuid : string) (req : SetInstance) : M Db unit :=
  let! d := gets (λ d, d) in
  let pub_url := if bool_decide (si_pub_url req = "") then si_url req else si_pub_url req in
  let! _ := lift (throw_if (bool_decide (is_Some (instances d !! uuid)) ||
                            negb (bool_decide (is_Some (regions d !! si_region req)))) runtime_error) in
  modify (set_instances <[uuid :=
    {| in_region := si_region req; in_url := si_url req; in_pub_url := pub_url;
       in_ca_cert := toStringOrNull (si_ca_cert req); in_key := toStringOrNull (si_key req);
       in_cert := toStringOrNull (si_cert req); in_metrics_url := toStringOrNull (si_metrics_url req);
       in_server_id := None; in_active := default true (si_active req) |}]>).

(** The columns [UpdateInstance] sets: those the request gives. *)
Definition keep_or {A} (b : bool) (new old : A) : A := if b then new else old.

Definition set_columns (req : SetInstance) (i : InstanceRow) : InstanceRow :=
  let pub_url := if bool_decide (si_pub_url req = "") then si_url req else si_pub_url req in
  let given s := negb (bool_decide (s = "")) in
  {| in_region := keep_or (given (si_region req)) (si_region req) (in_region i);
     in_url := keep_or (given (si_url req)) (si_url req) (in_url i);
     in_pub_url := keep_or (given pub_url) pub_url (in_pub_url i);
     in_ca_cert := keep_or (given (si_ca_cert req)) (Some (si_ca_cert req)) (in_ca_cert i);
     in_key := keep_or (given (si_key req)) (Some (si_key req)) (in_key i);
     in_cert := keep_or (given (si_cert req)) (Some (si_cert req)) (in_cert i);
     in_metrics_url := keep_or (given (si_metrics_url req)) (Some (si_metrics_url req)) (in_metrics_url i);
     in_server_id := in_server_id i;
     in_active := default (in_active i) (si_active req) |}.

(** Without a column to set the statement is not SQL. *)
Definition sets_nothing (req : SetInstance) : bool :=
  bool_decide (si_region req = "" ∧ si_url req = "" ∧ si_pub_url req = "" ∧ si_ca_cert req = "" ∧
               si_key req = "" ∧ si_cert req = "" ∧ si_metrics_url req = "" ∧ si_active req = None).

Definition UpdateInstance (req : SetInstance) : M Db unit :=
  let! _ := lift (throw_if (bool_decide (si_uuid req = "")) runtime_error) in
  let! d := gets (λ d, d) in
  let! _ := lift (throw_if (negb (bool_decide (is_Some (instances d !! si_uuid req)))) (server_err Error.DATABASE_REQUEST_FAILED)) in
  let! _ := lift (throw_if (sets_nothing req) runtime_error) in
  let! _ := lift (throw_if (negb (bool_decide (si_region req = "")) &&
                            negb (bool_decide (is_Some (regions d !! si_region req)))) runtime_error) in
  modify (set_instances (alter (set_columns req) (si_uuid req))).

Definition RemoveInstance (uuid : string) : M Db unit :=
  let! d := gets (λ d, d) in
  let! _ := lift (throw_if (negb (bool_decide (is_Some (instances d !! uuid)))) (server_err Error.DATABASE_REQUEST_FAILED)) in
  modify (drop_instances (λ id _, bool_decide (id = uuid))).

(** The name of a region is a unique key. *)
Definition name_taken (id name : string) (d : Db) : bool :=
  existsb (λ kr, negb (bool_decide (kr.1 = id)) && bool_decide (rg_name kr.2 = name)) (map_to_list (regions d)).

Definition CreateRegion (uuid : string) (r : RegionRow) : M Db unit :=
  let! d := gets (λ d, d) in
  let! _ := lift (throw_if (bool_decide (is_Some (regions d !! uuid)) || name_taken uuid (rg_name r) d) runtime_error) in
  modify (set_regions <[uuid := r]>).

(** An update that changes nothing affects no row, and is an error. *)
Definition UpdateRegion (uuid : string) (r : RegionRow) : M Db unit :=
  let! d := gets (λ d, d) in
  match regions d !! uuid with
  | None => lift (Throw (server_err Error.DATABASE_REQUEST_FAILED))
  | Some old =>
      let! _ := lift (throw_if (name_taken uuid (rg_name r) d) runtime_error) in
      let! _ := lift (throw_if (bool_decide (rg_name old = rg_name r) && bool_decide (rg_description old = rg_description r)
                                && Bool.eqb (rg_active old) (rg_active r)) (server_err Error.DATABASE_REQUEST_FAILED)) in
      modify (set_regions <[uuid := r]>)
  end.

Definition DeleteRegion (uuid : string) : M Db unit :=
  let! d := gets (λ d, d) in
  let! _ := lift (throw_if (negb (bool_decide (is_Some (regions d !! uuid)))) (server_err Error.DATABASE_REQUEST_FAILED)) in
  modify (drop_region uuid).

(** [unaryHandler] with [requireAdminCreds]: a handler that changes the
    tables loads the cluster again. *)
Definition admin_request (user password : option string) (m : M Db unit) (s : Server) : result bool * Server :=
  if negb (isAdmin user password (db s)) then (Ok false, s) else
  match m (db s) with
  | Throw e => (Throw e, s)
  | Ok (_, d) => (Ok true, set_cluster (loadCluster_ d (cluster s)) (set_db d s))
  end.

(** *** Connecting to the instances *)

(** A message of the stream of [ListTenants]. *)
Record TenantUsers := { tu_uuid : string; tu_users : list (string * string * bool) }.

Definition sync_user (salt tenant : string) (u : string * string * bool) : M Db unit :=
  let '(uuid, email, act) := u in
  upsert_user uuid {| us_email_hash := getEmailHash salt email; us_tenant := tenant;
                      us_state := if act : bool then "active" else "inactive" |}.

Definition sync_tenant (salt region instance : string) (t : TenantUsers) : M Db unit :=
  let! _ := upsert_tenant (tu_uuid t) {| tn_state := "active"; tn_instance := instance; tn_region := region |} in
  for_each (sync_user salt (tu_uuid t)) (tu_users t).

(** [initializeInstance]: one transaction; [None] is an error in the
    stream, after which nothing is committed. *)
Definition initializeInstance (salt region instance server_id : string) (stream : option (list TenantUsers)) : M Db unit :=
  match stream with
  | None => mret tt
  | Some ts =>
      let! _ := modify (drop_tenants (λ t, bool_decide (tn_instance t = instance))) in
      let! _ := for_each (sync_tenant salt region instance) ts in
      modify (set_instances (alter (λ i,
        {| in_region := in_region i; in_url := in_url i; in_pub_url := in_pub_url i; in_ca_cert := in_ca_cert i;
           in_key := in_key i; in_cert := in_cert i; in_metrics_url := in_metrics_url i;
           in_server_id := Some server_id; in_active := in_active i |}) instance))
  end.

(** An instance that answered; its server id is kept when it had one. *)
Definition peered (server_id : string) (i : Instance) : Instance :=
  {| c_url := c_url i; c_pub_url := c_pub_url i; c_active := c_active i;
     c_server_id := if bool_decide (c_server_id i = "") then server_id else c_server_id i; is_online := true |}.

Definition set_instance_online (region instance : string) (i : Instance) : Cluster → Cluster :=
  alter (λ r, {| c_name := c_name r; c_region_active := c_region_active r;
                 c_instances := <[instance := i]> (c_instances r) |}) region.

(** One instance of the round of [connectToInstances] that is not online
    yet; [answer] is what the connection gave: the server id and the list
    of users. *)
Definition connect_instance (salt region instance : string) (answer : option (string * option (list TenantUsers)))
    (s : Server) : result unit * Server :=
  match answer, r ← cluster s !! region; c_instances r !! instance with
  | Some (server_id, stream), Some i =>
      let i := peered server_id i in
      let s := set_cluster (set_instance_online region instance i (cluster s)) (set_conns (union {[instance]}) s) in
      match initializeInstance salt region instance (c_server_id i) stream (db s) with
      | Ok (_, d) => (Ok tt, set_db d s)
      | Throw e => (Throw e, s)
      end
  | _, _ => (Ok tt, s)
  end.
End server.

(** ** The rate is limited *)
Lemma seconds_add a b c : (seconds a c == seconds a b + seconds b c)%Q.
Proof. unfold seconds, Qeq, Qplus. cbn. lia. Qed.

Lemma seconds_nonneg a b : b ≤ a → (0 <= seconds a b)%Q.
Proof. intros H. unfold seconds, Qle. cbn. lia. Qed.

(** A run of attempts with their keys and times; what each was told. *)
Fixpoint attempts (burst : Z) (refill : Q) (l : list (string * Z)) (b : gmap string RateLimitBucket) :
    list (string * bool) * gmap string RateLimitBucket :=
  match l with
  | [] => ([], b)
  | (k, t) :: l =>
      let '(ok, b) := consumeRateLimitToken_ b k burst refill t in
      let '(rs, b) := attempts burst refill l b in
      ((k, ok) :: rs, b)
  end.

Definition allowed (k : string) (rs : list (string * bool)) : Z :=
  Z.of_nat (length (filter (λ r, r = (k, true)) rs)).

Section bucket.
Context (burst : Z) (refill : Q) (Hburst : 0 < burst) (Hrefill : (0 <= refill)%Q).

(** What a key could spend at a time. *)
Definition capacity (o : option RateLimitBucket) (t : Z) : Q :=
  match o with
  | None => inject_Z burst
  | Some b => Qmin (inject_Z burst) (tokens b + seconds t (updated_at b) * refill)
  end.

Definition bucket_ok (t : Z) (o : option RateLimitBucket) : Prop :=
  ∀ b, o = Some b → 0 < updated_at b ≤ t ∧ (0 <= tokens b)%Q ∧ (tokens b <= inject_Z burst)%Q.

Lemma burst_nonneg : (0 <= inject_Z burst)%Q.
Proof using Hburst. unfold Qle. cbn. lia. Qed.

Lemma capacity_le o t : (capacity o t <= inject_Z burst)%Q.
Proof. destruct o; [apply Q.le_min_l|apply Qle_refl]. Qed.

Lemma refilled_nonneg a b : b ≤ a → (0 <= seconds a b * refill)%Q.
Proof using Hrefill. intros. by apply Qmult_le_0_compat; [apply seconds_nonneg|]. Qed.

Lemma capacity_nonneg o t : bucket_ok t o → (0 <= capacity o t)%Q.
Proof using Hburst Hrefill.
  intros Ho. destruct o as [b|]; cbn [capacity]; [|apply burst_nonneg].
  destruct (Ho b eq_refl) as (Hu & H0 & _). apply Q.min_glb; [apply burst_nonneg|].
  pose proof (refilled_nonneg t (updated_at b) ltac:(lia)). lra.
Qed.

Lemma capacity_grows o t t' : t ≤ t' → (capacity o t' <= capacity o t + seconds t' t * refill)%Q.
Proof using Hrefill.
  intros Ht. pose proof (refilled_nonneg t' t Ht) as Hp.
  destruct o as [b|]; cbn [capacity]; [|lra].
  assert (Hm : (seconds t' (updated_at b) * refill == seconds t' t * refill + seconds t (updated_at b) * refill)%Q)
    by (rewrite (seconds_add t' t (updated_at b)); ring).
  destruct (Q.min_spec (inject_Z burst) (tokens b + seconds t (updated_at b) * refill)) as [[? ->]|[? ->]];
  destruct (Q.min_spec (inject_Z burst) (tokens b + seconds t' (updated_at b) * refill)) as [[? ->]|[? ->]]; lra.
Qed.

Lemma consume_other k k' t b : k ≠ k' → (consumeRateLimitToken_ b k burst refill t).2 !! k' = b !! k'.
Proof.
  intros Hk. unfold consumeRateLimitToken_. destruct (burst =? 0); [done|].
  destruct (negb _); cbn [snd]; by rewrite lookup_insert_ne.
Qed.

(** An attempt spends one token of the capacity, or none when there is less
    than one. *)
Lemma consume_spec k t b ok b1 :
  0 < t → bucket_ok t (b !! k) → consumeRateLimitToken_ b k burst refill t = (ok, b1) →
  bucket_ok t (b1 !! k) ∧ (capacity (b1 !! k) t == capacity (b !! k) t - (if ok then 1 else 0))%Q ∧
  (ok = true ↔ (1 <= capacity (b !! k) t)%Q).
Proof using Hburst Hrefill.
  intros Ht Ho. pose proof (capacity_nonneg _ _ Ho) as Hpos. pose proof (capacity_le (b !! k) t) as Hmax.
  unfold consumeRateLimitToken_. destruct (Z.eqb_spec burst 0) as [|_]; [lia|].
  set (bk := if updated_at _ =? 0 then _ else _).
  assert (Hbk : updated_at bk = t ∧ (tokens bk == capacity (b !! k) t)%Q).
  { subst bk. destruct (b !! k) as [b0|] eqn:Hk; cbn [default from_option id].
    - destruct (Ho b0 eq_refl) as [Hu _]. destruct (Z.eqb_spec (updated_at b0) 0); [lia|]. split; [done|reflexivity].
    - split; [done|reflexivity]. }
  destruct Hbk as (Hu & Hc). clearbody bk.
  assert (Hz : (seconds t t * refill == 0)%Q) by (unfold seconds; rewrite Z.sub_diag; ring).
  destruct (Qle_bool 1 (tokens bk)) eqn:Hq; cbn [negb]; intros [= <- <-]; rewrite lookup_insert_eq.
  - apply Qle_bool_iff in Hq. split; [|split].
    + intros b' [= <-]. cbn. rewrite Hu. split; [lia|]. split; lra.
    + cbn [capacity tokens updated_at]. rewrite Hu, Hz, <- Hc, Q.min_r by lra. ring.
    + split; [intros _; by rewrite <- Hc|done].
  - split; [|split].
    + intros b' [= <-]. rewrite Hu. split; [lia|]. split; lra.
    + cbn [capacity]. rewrite Hu, Hz, <- Hc, Q.min_r by lra. ring.
    + split; [done|]. intros H1. rewrite <- Hc in H1. apply Qle_bool_iff in H1. congruence.
Qed.

Lemma bucket_ok_mono t t' o : t ≤ t' → bucket_ok t o → bucket_ok t' o.
Proof. intros Ht Ho b Hb. destruct (Ho b Hb). split; [lia|done]. Qed.

Lemma inject_Z_succ z : (inject_Z (1 + z) == 1 + inject_Z z)%Q.
Proof. unfold Qeq, Qplus. cbn. lia. Qed.

Lemma allowed_cons k r rs : allowed k (r :: rs) = (if bool_decide (r = (k, true)) then 1 else 0) + allowed k rs.
Proof.
  unfold allowed. rewrite filter_cons. destruct (decide (r = (k, true))); [rewrite bool_decide_true by done|rewrite bool_decide_false by done];
    cbn [length]; lia.
Qed.

Lemma attempts_spend k l : ∀ b t0 t1 rs b1,
  0 < t0 → Sorted Z.le (t0 :: l.*2 ++ [t1]) → bucket_ok t0 (b !! k) → attempts burst refill l b = (rs, b1) →
  (inject_Z (allowed k rs) + capacity (b1 !! k) t1 <= capacity (b !! k) t0 + seconds t1 t0 * refill)%Q ∧
  bucket_ok t1 (b1 !! k).
Proof using Hburst Hrefill.
  induction l as [|[k' t] l IH]; intros b t0 t1 rs b1 Ht0 Hs Ho; cbn [attempts fmap list_fmap app snd].
  - intros [= <- <-]. apply Sorted_inv in Hs as [_ Hs]. apply HdRel_inv in Hs.
    split; [|by eapply bucket_ok_mono].
    pose proof (capacity_grows (b !! k) t0 t1 Hs). change (inject_Z (allowed k [])) with 0%Q. lra.
  - cbn in Hs. apply Sorted_inv in Hs as [Hs Ht]. apply HdRel_inv in Ht.
    destruct (consumeRateLimitToken_ b k' burst refill t) as [ok b2] eqn:Hc.
    destruct (attempts burst refill l b2) as [rs' b3] eqn:Ha. intros [= <- <-].
    pose proof (capacity_grows (b !! k) t0 t Ht) as Hg.
    pose proof (bucket_ok_mono t0 t _ Ht Ho) as Ho'.
    assert (Hm : (seconds t1 t0 * refill == seconds t1 t * refill + seconds t t0 * refill)%Q)
      by (rewrite (seconds_add t1 t t0); ring).
    rewrite allowed_cons. destruct (decide (k' = k)) as [->|Hk].
    + assert (Htp : 0 < t) by lia. destruct (consume_spec _ _ _ _ _ Htp Ho' Hc) as (Ho2 & Hc2 & _).
      destruct (IH b2 t t1 rs' b3 ltac:(lia) Hs Ho2 Ha) as [Hi Ho3]. split; [|done].
      destruct ok; [rewrite bool_decide_true by done; rewrite inject_Z_succ|rewrite bool_decide_false by congruence; change (0 + allowed k rs') with (allowed k rs')]; lra.
    + assert (Hb2 : b2 !! k = b !! k) by (by rewrite <- (consume_other k' k t b Hk), Hc).
      rewrite <- Hb2 in *.
      destruct (IH b2 t t1 rs' b3 ltac:(lia) Hs Ho' Ha) as [Hi Ho3]. split; [|done].
      rewrite bool_decide_false by congruence. change (0 + allowed k rs') with (allowed k rs'). lra.
Qed.
End bucket.

(** C33: However many attempts are made with an address, or with an email, in
    whatever order and mixed with whatever other ones, between two moments at most
    the burst plus the refill of the time between are allowed. *)
Theorem attempts_limited burst refill k l b t0 t1 :
  0 < burst → (0 <= refill)%Q → 0 < t0 → Sorted Z.le (t0 :: l.*2 ++ [t1]) → bucket_ok burst t0 (b !! k) →
  (inject_Z (allowed k (attempts burst refill l b).1) <= inject_Z burst + seconds t1 t0 * refill)%Q.
Proof.
  intros Hb Hr Ht Hs Ho. destruct (attempts burst refill l b) as [rs b1] eqn:Ha.
  destruct (attempts_spend burst refill Hb Hr k l b t0 t1 rs b1 Ht Hs Ho Ha) as [Hle Ho1].
  pose proof (capacity_nonneg burst refill Hb Hr _ _ Ho1). pose proof (capacity_le burst refill (b !! k) t0).
  cbn [fst]. lra.
Qed.

(** One who waits for a token gets it: some attempts after which the time to
    refill one has passed are followed by an allowed one. *)
Lemma patient_is_allowed burst refill k l b t0 t1 t :
  0 < burst → (0 <= refill)%Q → 0 < t0 → Sorted Z.le (t0 :: l.*2 ++ [t1]) → bucket_ok burst t0 (b !! k) →
  t1 ≤ t → (1 <= seconds t t1 * refill)%Q →
  (consumeRateLimitToken_ (attempts burst refill l b).2 k burst refill t).1 = true.
Proof.
  intros Hb Hr Ht Hs Ho Ht1 Hw. destruct (attempts burst refill l b) as [rs b1] eqn:Ha.
  destruct (attempts_spend burst refill Hb Hr k l b t0 t1 rs b1 Ht Hs Ho Ha) as [_ Ho1].
  assert (t0 ≤ t1).
  { clear -Hs. apply (Sorted_StronglySorted Z.le_trans) in Hs. apply StronglySorted_inv in Hs as [_ Hf].
    apply Forall_app in Hf as [_ Hf]. by apply Forall_cons_1 in Hf as [? _]. }
  cbn [snd]. destruct (consumeRateLimitToken_ b1 k burst refill t) as [ok b2] eqn:Hc. cbn [fst].
  apply (consume_spec burst refill Hb Hr k t b1 ok b2 ltac:(lia) (bucket_ok_mono _ _ _ _ Ht1 Ho1) Hc).
  destruct (b1 !! k) as [bk|] eqn:Hk; cbn [capacity].
  - destruct (Ho1 bk eq_refl) as (Hu & H0 & _). apply Q.min_glb; [unfold Qle; cbn; lia|].
    pose proof (refilled_nonneg refill Hr t1 (updated_at bk) ltac:(lia)).
    assert (Hm : (seconds t (updated_at bk) * refill == seconds t t1 * refill + seconds t1 (updated_at bk) * refill)%Q)
      by (rewrite (seconds_add t t1 (updated_at bk)); ring). lra.
  - unfold Qle; cbn; lia.
Qed.

(** ** The tables *)

(** What a handler that returned had found and checked. *)
Ltac checked H :=
  repeat (progress (cbv [gets modify] in H; cbn beta in H) ||
    match type of H with
    | (_ ≫= _) _ = Ok (_, _) => apply M_bind_Ok in H; let a := fresh "a" in let s := fresh "s" in let Hm := fresh "Hm" in
                                destruct H as (a & s & Hm & H); checked Hm
    | lift (throw_if _ _) _ = Ok _ => apply lift_Ok in H; let E := fresh "E" in destruct H as [E ->]; apply throw_if_Ok in E;
                                      try apply negb_false_iff in E; split_bools
    | lift _ _ = Ok (_, _) => apply lift_Ok in H; destruct H as [H ->]
    | Ok _ = Ok _ => first [injection H as <- <- | injection H as <-]
    | Throw _ = Ok _ => discriminate H
    end).

(** The foreign keys and unique keys of the schema. *)
Record db_ok (d : Db) : Prop := {
  instances_region : map_Forall (λ _ i, is_Some (regions d !! in_region i)) (instances d);
  tenants_instance : map_Forall (λ _ t, is_Some (instances d !! tn_instance t)) (tenants d);
  tenants_region : map_Forall (λ _ t, is_Some (regions d !! tn_region t)) (tenants d);
  users_tenant : map_Forall (λ _ u, is_Some (tenants d !! us_tenant u)) (users d);
  emails_unique : ∀ i j u v, users d !! i = Some u → users d !! j = Some v → us_email_hash u = us_email_hash v → i = j;
  names_unique : ∀ i j r s, regions d !! i = Some r → regions d !! j = Some s → rg_name r = rg_name s → i = j
}.

Lemma head_map_to_list_filter {A} (P : string * A → Prop) `{!∀ x, Decision (P x)} (m : gmap string A) k x :
  head (map_to_list (filter P m)) = Some (k, x) → m !! k = Some x ∧ P (k, x).
Proof.
  destruct (map_to_list (filter P m)) as [|[k' x'] l] eqn:Hl; [done|]. cbn. intros [= -> ->].
  assert (filter P m !! k = Some x) as HH%map_lookup_filter_Some by (apply elem_of_map_to_list; rewrite Hl; apply list_elem_of_here). exact HH.
Qed.

Lemma head_map_to_list_None {A} (P : string * A → Prop) `{!∀ x, Decision (P x)} (m : gmap string A) :
  head (map_to_list (filter P m)) = None → ∀ k x, m !! k = Some x → ¬ P (k, x).
Proof.
  destruct (map_to_list (filter P m)) as [|[k' x'] l] eqn:Hl; [|done]. intros _ k x Hk HP.
  apply map_to_list_empty_iff in Hl. pose proof (map_lookup_filter_Some_2 P m k x Hk HP) as Hf. rewrite Hl in Hf. done.
Qed.

Lemma by_email_Some h d i u : by_email h d = Some (i, u) → users d !! i = Some u ∧ us_email_hash u = h.
Proof. intros He. exact (head_map_to_list_filter (λ ku, us_email_hash ku.2 = h) _ _ _ He). Qed.

Lemma by_email_None h d : by_email h d = None → ∀ i u, users d !! i = Some u → us_email_hash u ≠ h.
Proof. intros H i u Hu. exact (head_map_to_list_None (λ ku, us_email_hash ku.2 = h) _ H i u Hu). Qed.

Lemma by_email_of d i u : db_ok d → users d !! i = Some u → by_email (us_email_hash u) d = Some (i, u).
Proof.
  intros Hd Hu. destruct (by_email (us_email_hash u) d) as [[j v]|] eqn:He.
  - apply by_email_Some in He as [Hv Heq]. pose proof (emails_unique d Hd _ _ _ _ Hv Hu Heq) as ->. congruence.
  - by destruct (by_email_None _ _ He i u Hu).
Qed.

(** A user is written to a row that may have the hash. *)
Lemma set_user_ok id u d :
  db_ok d → is_Some (tenants d !! us_tenant u) →
  (∀ j v, users d !! j = Some v → us_email_hash v = us_email_hash u → j = id) →
  db_ok (set_users <[id := u]> d).
Proof.
  intros Hd Ht Hu. split; cbn; try apply Hd.
  - apply map_Forall_insert_2; [done|]. apply Hd.
  - intros i j v w. rewrite !lookup_insert_Some. intros [[<- <-]|[? Hv]] [[<- <-]|[? Hw]] He; try done.
    + symmetry. by eapply Hu; [|symmetry].
    + by eapply Hu.
    + by eapply Hd.
Qed.

Lemma upsert_user_spec id u d x d' :
  db_ok d → upsert_user id u d = Ok (x, d') →
  ∃ id', d' = set_users <[id' := u]> d ∧ is_Some (tenants d !! us_tenant u) ∧
         (∀ j v, users d !! j = Some v → us_email_hash v = us_email_hash u → j = id') ∧
         (users d !! id = None → by_email (us_email_hash u) d = None → id' = id).
Proof.
  intros Hd. unfold upsert_user. intros H. checked H.
  destruct (users d !! id) as [v|] eqn:Hv, (by_email (us_email_hash u) d) as [[j w]|] eqn:He; checked H.
  all: try (apply by_email_Some in He as He'; destruct He' as [Hw Hh]).
  - exists id. split_and!; try done.
    intros j' w' Hj Heq. subst j. eapply (emails_unique d Hd); [done..|congruence].
  - exists id. split_and!; try done. intros j w Hw Hh. by destruct (by_email_None _ _ He j w Hw).
  - exists j. split_and!; try done. intros j' w' Hj Heq. eapply (emails_unique d Hd); [done..|congruence].
  - exists id. split_and!; try done. intros j w Hw Hh. by destruct (by_email_None _ _ He j w Hw).
Qed.

Lemma upsert_user_keeps id u : keeps db_ok (upsert_user id u).
Proof.
  intros d x d' Hd H. destruct (upsert_user_spec _ _ _ _ _ Hd H) as (id' & -> & Ht & Hu & _).
  by apply set_user_ok.
Qed.

Lemma upsert_tenant_keeps id t : keeps db_ok (upsert_tenant id t).
Proof.
  intros d x d' Hd H. unfold upsert_tenant in H. checked H.
  split; cbn; try apply Hd.
  - by apply map_Forall_insert_2, Hd.
  - by apply map_Forall_insert_2, Hd.
  - intros i u Hu. apply lookup_insert_is_Some'. right. by eapply (users_tenant d Hd).
Qed.

Lemma delete_user_keeps h : keeps db_ok (delete_user_by_email h).
Proof.
  intros d x d' Hd H. unfold delete_user_by_email in H. checked H. split; cbn; try apply Hd.
  - intros i u [Hu _]%map_lookup_filter_Some. by eapply (users_tenant d Hd).
  - intros i j u v [Hu _]%map_lookup_filter_Some [Hv _]%map_lookup_filter_Some. by apply (emails_unique d Hd).
Qed.

(** What a cascade over the tenants mends. *)
Lemma drop_tenants_ok P d :
  map_Forall (λ _ i, is_Some (regions d !! in_region i)) (instances d) →
  (∀ k t, tenants d !! k = Some t → P t = false → is_Some (instances d !! tn_instance t) ∧ is_Some (regions d !! tn_region t)) →
  (∀ i j u v, users d !! i = Some u → users d !! j = Some v → us_email_hash u = us_email_hash v → i = j) →
  (∀ i j r s, regions d !! i = Some r → regions d !! j = Some s → rg_name r = rg_name s → i = j) →
  db_ok (drop_tenants P d).
Proof.
  intros Hi Ht He Hn. split; cbn; try done.
  - intros k t [Hk Hp]%map_lookup_filter_Some. by eapply Ht.
  - intros k t [Hk Hp]%map_lookup_filter_Some. by eapply Ht.
  - by intros i u [_ Hu]%map_lookup_filter_Some.
  - intros i j u v [Hu _]%map_lookup_filter_Some [Hv _]%map_lookup_filter_Some. by apply He.
Qed.

Lemma drop_instances_ok P d : db_ok d → db_ok (drop_instances P d).
Proof.
  intros Hd. apply drop_tenants_ok; cbn; try apply Hd.
  - intros k i [Hi _]%map_lookup_filter_Some. by eapply (instances_region d Hd).
  - intros k t Ht Hk%bool_decide_eq_false. split; [by apply not_eq_None_Some|by eapply (tenants_region d Hd)].
Qed.

Lemma drop_region_ok id d : db_ok d → db_ok (drop_region id d).
Proof.
  intros Hd. apply drop_tenants_ok; cbn.
  - intros k i [Hi Hr]%map_lookup_filter_Some. cbn in Hr. apply bool_decide_eq_false in Hr.
    rewrite lookup_delete_ne by done. by eapply (instances_region d Hd).
  - intros k t [Ht Hk]%map_lookup_filter_Some. cbn in Hk. intros Hr%bool_decide_eq_false.
    apply bool_decide_eq_false in Hk. split; [by apply not_eq_None_Some|].
    rewrite lookup_delete_ne by done. by eapply (tenants_region d Hd).
  - intros i j u v [Hu _]%map_lookup_filter_Some [Hv _]%map_lookup_filter_Some. by apply (emails_unique d Hd).
  - intros i j r s [_ Hr]%lookup_delete_Some [_ Hs]%lookup_delete_Some. by apply (names_unique d Hd i j r s).
Qed.

(** A change of instances that keeps the keys and leads to known regions. *)
Lemma alter_instance_ok f id d :
  db_ok d → (∀ i, instances d !! id = Some i → is_Some (regions d !! in_region (f i))) →
  db_ok (set_instances (alter f id) d).
Proof.
  intros Hd Hf. split; cbn; try apply Hd.
  - intros k i. rewrite lookup_alter_Some. intros [(<- & i' & Hi & ->)|[_ Hi]]; [by apply Hf|by eapply (instances_region d Hd)].
  - intros k t Ht. apply lookup_alter_is_Some. by eapply (tenants_instance d Hd).
Qed.

Lemma set_region_ok id r d : db_ok d → name_taken id (rg_name r) d = false → db_ok (set_regions <[id := r]> d).
Proof.
  intros Hd Hn.
  assert (Hfree : ∀ k r', regions d !! k = Some r' → rg_name r' = rg_name r → k = id).
  { intros k r' Hk He. destruct (decide (k = id)) as [|Hne]; [done|]. unfold name_taken in Hn.
    apply not_true_iff_false in Hn. destruct Hn. apply existsb_exists. exists (k, r').
    rewrite <- list_elem_of_In, elem_of_map_to_list. cbn. split; [done|].
    rewrite bool_decide_false by done. by rewrite bool_decide_true. }
  split; cbn; try apply Hd.
  - intros k i Hi. apply lookup_insert_is_Some'. right. by eapply (instances_region d Hd).
  - intros k t Ht. apply lookup_insert_is_Some'. right. by eapply (tenants_region d Hd).
  - intros i j r1 r2. rewrite !lookup_insert_Some. intros [[<- <-]|[? H1]] [[<- <-]|[? H2]] He; try done.
    + symmetry. by eapply Hfree; [|symmetry].
    + by eapply Hfree.
    + by eapply (names_unique d Hd).
Qed.

(** ** The server while sign-ups are running *)
Section system.
Context (sha256 : string → string) (salt : string) (cfg : SignupRateLimitConfig).

(** The requests of an administrator. *)
Inductive AdminRequest :=
| ReqAddInstance (uuid : string) (req : SetInstance)
| ReqUpdateInstance (req : SetInstance)
| ReqRemoveInstance (uuid : string)
| ReqCreateRegion (uuid : string) (r : RegionRow)
| ReqUpdateRegion (uuid : string) (r : RegionRow)
| ReqDeleteRegion (uuid : string).

Definition admin_handler (r : AdminRequest) : M Db unit :=
  match r with
  | ReqAddInstance uuid req => AddInstance uuid req
  | ReqUpdateInstance req => UpdateInstance req
  | ReqRemoveInstance uuid => RemoveInstance uuid
  | ReqCreateRegion uuid r => CreateRegion uuid r
  | ReqUpdateRegion uuid r => UpdateRegion uuid r
  | ReqDeleteRegion uuid => DeleteRegion uuid
  end.

(** The server and where each sign-up is. *)
Record World := { server : Server; signups : gmap nat Phase }.

Inductive Event :=
| Begin (id : nat) (now rnd : Z) (peer : string) (req : SignUpRequest)
| TenantAnswer (id : nat) (answer : result (option NewTenant))
| DeviceAnswer (id : nat) (answer : result (option string))
| Store (id : nat)
| Admin (user password : option string) (r : AdminRequest)
| Connected (region instance : string) (answer : option (string * option (list TenantUsers))).

Definition advance (f : Phase → Server → Phase * Server) (id : nat) (w : World) : World :=
  match signups w !! id with
  | None => w
  | Some p => let '(p', s) := f p (server w) in {| server := s; signups := <[id := p']> (signups w) |}
  end.

Definition signup_step (e : Event) (w : World) : World :=
  match e with
  | Begin id now rnd peer req =>
      match signups w !! id with
      | Some _ => w
      | None => let '(p, s) := begin_signup sha256 salt cfg now rnd peer req (server w) in
                {| server := s; signups := <[id := p]> (signups w) |}
      end
  | TenantAnswer id answer => advance (on_tenant answer) id w
  | DeviceAnswer id answer => advance (on_device answer) id w
  | Store id => advance on_store id w
  | Admin user password r => {| server := (admin_request sha256 user password (admin_handler r) (server w)).2; signups := signups w |}
  | Connected region instance answer =>
      {| server := (connect_instance sha256 salt region instance answer (server w)).2; signups := signups w |}
  end.

Definition signup_run (es : list Event) (w : World) : World := foldl (λ w e, signup_step e w) w es.

(** The process has just started. *)
Definition started (s : Server) : World := {| server := s; signups := ∅ |}.

(** *** Who has reserved what *)
Definition reservations_ok (w : World) : Prop :=
  (∀ h, h ∈ inflight (server w) ↔ ∃ id p, signups w !! id = Some p ∧ reserved p = Some h) ∧
  (∀ id id' p p' h, signups w !! id = Some p → signups w !! id' = Some p' →
     reserved p = Some h → reserved p' = Some h → id = id').

(** A step of one sign-up keeps its reservation or gives it back. *)
Definition holds_or_releases (p p' : Phase) (s s' : Server) : Prop :=
  (reserved p' = reserved p ∧ inflight s' = inflight s) ∨
  (reserved p' = None ∧ ∃ h, reserved p = Some h ∧ inflight s' = inflight s ∖ {[h]}).

Lemma finish_releases p h r s s0 p' s' :
  reserved p = Some h → inflight s = inflight s0 → finish h r s = (p', s') → holds_or_releases p p' s0 s'.
Proof. intros Hp Hi [= <- <-]. right. split; [done|]. exists h. split; [done|]. cbn. by rewrite Hi. Qed.

Lemma on_tenant_holds answer p s p' s' : on_tenant answer p s = (p', s') → holds_or_releases p p' s s'.
Proof.
  destruct p as [h a| | |]; cbn [on_tenant]; try by intros [= <- <-]; left.
  destruct answer as [[t|]|e]; [|by apply finish_releases..].
  case_bool_decide; [by intros [= <- <-]; left|by apply finish_releases].
Qed.

Lemma on_device_holds answer p s p' s' : on_device answer p s = (p', s') → holds_or_releases p p' s s'.
Proof.
  destruct p as [|h a t| |]; cbn [on_device]; try by intros [= <- <-]; left.
  destruct answer as [[d|]|e]; [by intros [= <- <-]; left|by apply finish_releases..].
Qed.

Lemma on_store_holds p s p' s' : on_store p s = (p', s') → holds_or_releases p p' s s'.
Proof.
  destruct p as [| |h a t d|]; cbn [on_store]; try by intros [= <- <-]; left.
  destruct (store_signup h a t (db s)) as [[x d']|e]; by apply finish_releases.
Qed.

Lemma advance_reservations f id w :
  (∀ p s p' s', f p s = (p', s') → holds_or_releases p p' s s') → reservations_ok w → reservations_ok (advance f id w).
Proof.
  intros Hf [Hin Hone]. unfold advance. destruct (signups w !! id) as [p|] eqn:Hp; [|done].
  destruct (f p (server w)) as [p' s'] eqn:Hr. apply Hf in Hr.
  assert (Hback : ∀ h, reserved p' = Some h → reserved p = Some h).
  { intros h Hh. destruct Hr as [[Hr _]|[Hr _]]; congruence. }
  split; cbn [server signups].
  - intros h. destruct Hr as [[Hr ->]|(Hr & h0 & Hh0 & ->)].
    + rewrite Hin. split; intros (id' & q & Hq & Hh); destruct (decide (id' = id)) as [->|Hne].
      * exists id, p'. rewrite lookup_insert_eq. split; [done|]. rewrite Hr. congruence.
      * exists id', q. by rewrite lookup_insert_ne.
      * rewrite lookup_insert_eq in Hq. injection Hq as <-. exists id, p. split; [done|]. by rewrite <- Hr.
      * rewrite lookup_insert_ne in Hq by done. eauto.
    + rewrite elem_of_difference, elem_of_singleton, Hin. split.
      * intros [(id' & q & Hq & Hh) Hne]. exists id', q. rewrite lookup_insert_ne; [done|].
        intros <-. congruence.
      * intros (id' & q & Hq & Hh). destruct (decide (id' = id)) as [->|Hne].
        -- rewrite lookup_insert_eq in Hq. congruence.
        -- rewrite lookup_insert_ne in Hq by done. split; [eauto|]. intros ->. by apply Hne, (Hone id' id q p h0).
  - intros i j q q' h Hq Hq' Hh Hh'. apply lookup_insert_Some in Hq, Hq'.
    destruct Hq as [[<- <-]|[_ Hq]], Hq' as [[<- <-]|[_ Hq']]; eauto.
Qed.

(** A new sign-up reserves an email nobody holds, or nothing. *)
Lemma begin_signup_reserves now rnd peer req s p s' :
  begin_signup sha256 salt cfg now rnd peer req s = (p, s') →
  (reserved p = None ∧ inflight s' = inflight s) ∨
  (∃ h, reserved p = Some h ∧ h ∉ inflight s ∧ inflight s' = {[h]} ∪ inflight s).
Proof.
  unfold begin_signup. case_bool_decide; [intros [= <- <-]; by left|].
  assert (Hfail : ∀ e : exn, reserved (Done (Failed e)) = None) by done.
  destruct (sr_region req) as [[|c r]|]; [intros [= <- <-]; by left| |intros [= <- <-]; by left].
  unfold allowSignupAttemptLocal_.
  destruct (consumeRateLimitToken_ (ip_buckets s) _ _ _ _) as [ok1 b1].
  destruct (consumeRateLimitToken_ (email_buckets s) _ _ _ _) as [ok2 b2]. cbn zeta beta iota.
  destruct (ok1 && ok2); cbn [negb]; [|intros [= <- <-]; by left].
  unfold tryReserveEmailSignup. cbn [inflight set_buckets].
  destruct (decide (getEmailHash sha256 salt (sr_email req) ∈ inflight s)) as [Hin|Hni].
  { rewrite bool_decide_true by done. intros [= <- <-]. by left. }
  rewrite bool_decide_false by done. cbn [negb].
  assert (Hback : ({[getEmailHash sha256 salt (sr_email req)]} ∪ inflight s) ∖ {[getEmailHash sha256 salt (sr_email req)]} = inflight s).
  { clear -Hni. set_solver. }
  destruct (assignInstance rnd _ _) as [a|e]; [case_bool_decide|]; unfold finish; intros [= <- <-].
  - right. eexists. by split_and!.
  - left. split; [done|]. exact Hback.
  - left. split; [done|]. exact Hback.
Qed.

Lemma admin_inflight user password m s : inflight (admin_request sha256 user password m s).2 = inflight s.
Proof. unfold admin_request. destruct (negb _); [done|]. by destruct (m (db s)) as [[]|]. Qed.

Lemma connect_inflight region instance answer s :
  inflight (connect_instance sha256 salt region instance answer s).2 = inflight s.
Proof.
  unfold connect_instance. destruct answer as [[sid stream]|]; [|done].
  destruct (cluster s !! region) as [r|]; cbn; [|done]. destruct (c_instances r !! instance) as [i|]; cbn; [|done].
  by destruct (initializeInstance _ _ _ _ _ _ _) as [[]|].
Qed.

Lemma signup_step_reservations e w : reservations_ok w → reservations_ok (signup_step e w).
Proof.
  intros Hw. destruct e as [id now rnd peer req|id answer|id answer|id|user password r|region instance answer]; cbn [signup_step].
  - destruct (signups w !! id) as [|] eqn:Hid; [done|].
    destruct (begin_signup _ _ _ _ _ _ _ _) as [p s'] eqn:Hb. apply begin_signup_reserves in Hb.
    destruct Hw as [Hin Hone].
    assert (Hold : ∀ h, (∃ id' q, signups w !! id' = Some q ∧ reserved q = Some h) →
                   ∃ id' q, <[id := p]> (signups w) !! id' = Some q ∧ reserved q = Some h).
    { intros h (id' & q & Hq & Hh). exists id', q. rewrite lookup_insert_ne; [done|]. congruence. }
    split; cbn [server signups].
    + intros h. destruct Hb as [[Hp ->]|(h0 & Hp & Hni & ->)].
      * rewrite Hin. split; [apply Hold|]. intros (id' & q & [[<- <-]|[_ Hq]]%lookup_insert_Some & Hh); [congruence|eauto].
      * rewrite elem_of_union, elem_of_singleton, Hin. split.
        -- intros [->|Hh]; [exists id, p; by rewrite lookup_insert_eq|by apply Hold].
        -- intros (id' & q & [[<- <-]|[_ Hq]]%lookup_insert_Some & Hh); [left; congruence|right; eauto].
    + intros i j q q' h Hq Hq' Hh Hh'. apply lookup_insert_Some in Hq, Hq'.
      destruct Hq as [[<- <-]|[_ Hq]], Hq' as [[<- <-]|[_ Hq']]; [done| | |eauto];
        (destruct Hb as [[Hp _]|(h0 & Hp & Hni & _)]; [congruence|]); destruct Hni;
        apply Hin; (replace h0 with h by congruence); eauto.
  - apply advance_reservations; [|done]. intros. by eapply on_tenant_holds.
  - apply advance_reservations; [|done]. intros. by eapply on_device_holds.
  - apply advance_reservations; [|done]. intros. by eapply on_store_holds.
  - destruct Hw as [Hin Hone]. split; cbn [server signups]; [|done]. by rewrite admin_inflight.
  - destruct Hw as [Hin Hone]. split; cbn [server signups]; [|done]. by rewrite connect_inflight.
Qed.

Lemma signup_run_reservations es s : inflight s = ∅ → reservations_ok (signup_run es (started s)).
Proof.
  intros Hs. unfold signup_run. apply foldl_inv; [intros; by apply signup_step_reservations|]. split; cbn.
  - intros h. rewrite Hs. split; [set_solver|]. by intros (? & ? & ? & ?).
  - done.
Qed.

(** *** The tables stay consistent *)
Lemma keeps_throw_if {S} (I : S → Prop) b e : keeps I (lift (throw_if b e)).
Proof. apply keeps_lift. Qed.

Lemma sync_tenant_keeps region instance t : keeps db_ok (sync_tenant sha256 salt region instance t).
Proof.
  apply keeps_bind; [apply upsert_tenant_keeps|]. intros _. apply keeps_for_each. intros [[uuid email] act] _.
  apply upsert_user_keeps.
Qed.

Lemma initializeInstance_keeps region instance sid stream :
  keeps db_ok (initializeInstance sha256 salt region instance sid stream).
Proof.
  destruct stream as [ts|]; [|apply keeps_ret]. cbn [initializeInstance].
  apply keeps_bind; [|intros _; apply keeps_bind; [|intros _]].
  - apply keeps_modify. intros d Hd. apply drop_tenants_ok; try apply Hd.
    intros k t Ht _. split; [by eapply (tenants_instance d Hd)|by eapply (tenants_region d Hd)].
  - apply keeps_for_each. intros t _. apply sync_tenant_keeps.
  - apply keeps_modify. intros d Hd. apply alter_instance_ok; [done|]. cbn. intros i Hi. by eapply (instances_region d Hd).
Qed.

Lemma store_signup_keeps h a t : keeps db_ok (store_signup h a t).
Proof.
  apply keeps_bind; [apply upsert_tenant_keeps|]. intros _.
  apply keeps_bind; [apply delete_user_keeps|]. intros _. apply upsert_user_keeps.
Qed.

Lemma admin_handler_keeps r : keeps db_ok (admin_handler r).
Proof.
  intros d x d' Hd H. destruct r as [uuid req|req|uuid|uuid r|uuid r|uuid]; cbn [admin_handler] in H.
  - unfold AddInstance in H. checked H. rename select (negb _ = false) into Hr.
    apply negb_false_iff, bool_decide_eq_true in Hr.
    split; cbn; try apply Hd.
    + apply map_Forall_insert_2; [done|apply Hd].
    + intros k t Ht. apply lookup_insert_is_Some'. right. by eapply (tenants_instance d Hd).
  - unfold UpdateInstance in H. checked H. apply alter_instance_ok; [done|]. intros i Hi. cbn.
    rename select (_ && _ = false) into Hk. unfold keep_or.
    destruct (bool_decide (si_region req = "")); cbn [negb andb] in Hk |- *; [by eapply (instances_region d Hd)|].
    by apply negb_false_iff, bool_decide_eq_true in Hk.
  - unfold RemoveInstance in H. checked H. by apply drop_instances_ok.
  - unfold CreateRegion in H. checked H. by apply set_region_ok.
  - unfold UpdateRegion in H. checked H. destruct (regions d !! uuid) as [old|]; [|by checked H].
    checked H. by apply set_region_ok.
  - unfold DeleteRegion in H. checked H. by apply drop_region_ok.
Qed.

Lemma finish_db h r s : db (finish h r s).2 = db s.
Proof. done. Qed.

Lemma begin_signup_db now rnd peer req s : db (begin_signup sha256 salt cfg now rnd peer req s).2 = db s.
Proof.
  unfold begin_signup. case_bool_decide; [done|]. destruct (sr_region req) as [[|c r]|]; [done| |done].
  unfold allowSignupAttemptLocal_.
  destruct (consumeRateLimitToken_ (ip_buckets s) _ _ _ _) as [ok1 b1].
  destruct (consumeRateLimitToken_ (email_buckets s) _ _ _ _) as [ok2 b2]. cbn zeta beta iota.
  destruct (ok1 && ok2); cbn [negb]; [|done].
  unfold tryReserveEmailSignup. case_bool_decide; [done|]. cbn [negb].
  destruct (assignInstance _ _ _); [|done]. by case_bool_decide.
Qed.

Lemma on_tenant_db answer p s : db (on_tenant answer p s).2 = db s.
Proof. destruct p, answer as [[nt|]|]; try done. cbn. by case_bool_decide. Qed.

Lemma on_device_db answer p s : db (on_device answer p s).2 = db s.
Proof. by destruct p, answer as [[dev|]|]. Qed.

Lemma on_store_ok p s : db_ok (db s) → db_ok (db (on_store p s).2).
Proof.
  intros Hs. destruct p as [| |h a t d|]; try done. cbn [on_store].
  destruct (store_signup h a t (db s)) as [[x d']|e] eqn:Hr; [|done]. cbn. by eapply store_signup_keeps.
Qed.

Lemma advance_db (f : Phase → Server → Phase * Server) id w :
  (∀ p s, db_ok (db s) → db_ok (db (f p s).2)) → db_ok (db (server w)) → db_ok (db (server (advance f id w))).
Proof.
  intros Hf Hw. unfold advance. destruct (signups w !! id) as [p|]; [|done].
  specialize (Hf p _ Hw). by destruct (f p (server w)).
Qed.

Lemma signup_step_db e w : db_ok (db (server w)) → db_ok (db (server (signup_step e w))).
Proof.
  intros Hw. destruct e as [id now rnd peer req|id answer|id answer|id|user password r|region instance answer]; cbn [signup_step].
  - destruct (signups w !! id); [done|]. pose proof (begin_signup_db now rnd peer req (server w)) as Hb.
    destruct (begin_signup _ _ _ _ _ _ _ _) as [p s']. cbn in *. by rewrite Hb.
  - apply advance_db; [|done]. intros p s Hs. by rewrite on_tenant_db.
  - apply advance_db; [|done]. intros p s Hs. by rewrite on_device_db.
  - apply advance_db; [|done]. apply on_store_ok.
  - cbn. unfold admin_request. destruct (negb _); [done|].
    destruct (admin_handler r (db (server w))) as [[x d]|] eqn:Hr; [|done]. cbn. by eapply admin_handler_keeps.
  - cbn. unfold connect_instance.
    destruct answer as [[sid stream]|]; [|done].
    destruct (cluster (server w) !! region) as [rg|]; cbn; [|done]. destruct (c_instances rg !! instance) as [i|]; cbn; [|done].
    destruct (initializeInstance _ _ _ _ _ _ _) as [[x d]|] eqn:Hr; [|done]. cbn. by eapply initializeInstance_keeps.
Qed.

Lemma signup_run_db es s : db_ok (db s) → db_ok (db (server (signup_run es (started s)))).
Proof. intros Hs. unfold signup_run. apply foldl_inv; [intros; by apply signup_step_db|done]. Qed.
End system.

(** C14: Whatever sign-ups run and however their steps interleave, with each
    other, with administrators and with instances that connect: no two that are under way
    are for the same email, and an email is held back exactly while one for it
    is under way. *)
Theorem one_signup_per_email sha256 salt cfg es s :
  inflight s = ∅ → reservations_ok (signup_run sha256 salt cfg es (started s)).
Proof. apply signup_run_reservations. Qed.

(** C1: The tables stay consistent under everything the server does: every
    reference leads to a row, an email belongs to one account, and the names
    of the regions differ. *)
Theorem signup_tables_consistent sha256 salt cfg es s :
  db_ok (db s) → db_ok (db (server (signup_run sha256 salt cfg es (started s)))).
Proof. apply signup_run_db. Qed.

(** ** Where an account lives *)
Lemma instance_of_user h d i u :
  db_ok d → users d !! i = Some u → us_email_hash u = h →
  instance_of_email h d = (t ← tenants d !! us_tenant u; Some (tn_instance t)).
Proof. intros Hd Hu <-. unfold instance_of_email. by rewrite (by_email_of d i u Hd Hu). Qed.

Lemma instance_of_nobody h d :
  (∀ i u, users d !! i = Some u → us_email_hash u ≠ h) → instance_of_email h d = None.
Proof.
  intros Hn. unfold instance_of_email. destruct (by_email h d) as [[i u]|] eqn:He; [|done].
  apply by_email_Some in He as [Hu Hh]. by destruct (Hn i u Hu).
Qed.

Lemma store_signup_spec h a t d x d' :
  db_ok d → store_signup h a t d = Ok (x, d') →
  let row := {| us_email_hash := h; us_tenant := nt_uuid t; us_state := "inactive" |} in
  let id := default "" (head (nt_users t)) in
  tenants d' = <[nt_uuid t := {| tn_state := "active"; tn_instance := as_instance a; tn_region := as_region a |}]> (tenants d) ∧
  users d' = <[id := row]> (filter (λ ku, us_email_hash ku.2 ≠ h) (users d)).
Proof.
  intros Hd H. cbn zeta. unfold store_signup in H. cbn zeta in H.
  apply M_bind_Ok in H as ([] & d1 & H1 & H). apply M_bind_Ok in H as ([] & d2 & H2 & H).
  assert (Hd1 : db_ok d1) by (by eapply upsert_tenant_keeps).
  assert (Hd2 : db_ok d2) by (by eapply delete_user_keeps).
  assert (Hu : users d2 = filter (λ ku, us_email_hash ku.2 ≠ h) (users d) ∧
               tenants d2 = <[nt_uuid t := {| tn_state := "active"; tn_instance := as_instance a; tn_region := as_region a |}]> (tenants d)).
  { unfold upsert_tenant in H1. checked H1. unfold delete_user_by_email in H2. checked H2. done. }
  destruct Hu as [Hu Ht].
  destruct (by_email h d2) as [[j w]|] eqn:He.
  { apply by_email_Some in He as [Hw Hh]. rewrite Hu in Hw. apply map_lookup_filter_Some in Hw as [_ Hw]. by destruct Hw. }
  unfold upsert_user in H. checked H. cbn [us_email_hash] in H. rewrite He in H.
  destruct (users d2 !! default "" (head (nt_users t))) as [v|] eqn:Hv; checked H; cbn; by rewrite Hu, Ht.
Qed.

(** C18: When a sign-up ends well the email belongs to the instance that was
    chosen, and its reservation is gone; when the backend's new ids are new,
    every other account stays where it was. *)
Theorem signup_routes_account h a t device url s s' :
  db_ok (db s) → on_store (Storing h a t device) s = (Done (SignedUp device url), s') →
  instance_of_email h (db s') = Some (as_instance a) ∧ url = as_pub_url a ∧ h ∉ inflight s' ∧
  (tenants (db s) !! nt_uuid t = None → users (db s) !! default "" (head (nt_users t)) = None →
   ∀ h', h' ≠ h → instance_of_email h' (db s') = instance_of_email h' (db s)).
Proof.
  intros Hd. cbn [on_store]. destruct (store_signup h a t (db s)) as [[[] d']|e] eqn:Hr; [|done].
  unfold finish. intros [= <- <-]. cbn [db set_db set_inflight releaseEmailSignup inflight].
  pose proof (store_signup_keeps h a t _ _ _ Hd Hr) as Hd'.
  pose proof (store_signup_spec h a t _ _ _ Hd Hr) as [Ht Hu]. cbn zeta in Ht, Hu.
  set (id := default "" (head (nt_users t))) in *. set (row := {| us_email_hash := h; us_tenant := nt_uuid t; us_state := "inactive" |}) in *.
  split_and!; [|done|by intros [_ []%not_elem_of_singleton]%elem_of_difference|].
  - rewrite (instance_of_user h d' id row Hd'); [|by rewrite Hu, lookup_insert_eq|done].
    cbn [us_tenant row]. by rewrite Ht, lookup_insert_eq.
  - intros Hnt Hnu h' Hne. destruct (by_email h' (db s)) as [[i u]|] eqn:He.
    + apply by_email_Some in He as [Hi Hh].
      assert (Hid : i ≠ id) by congruence.
      rewrite (instance_of_user h' d' i u Hd'), (instance_of_user h' (db s) i u Hd); [|done|done| |done].
      * rewrite Ht. destruct (users_tenant _ Hd _ _ Hi) as [tr Htr].
        rewrite lookup_insert_ne; [done|]. intros Heq. rewrite <- Heq, Hnt in Htr. discriminate Htr.
      * rewrite Hu, lookup_insert_ne by done. apply map_lookup_filter_Some. split; [done|]. cbn. congruence.
    + pose proof (by_email_None _ _ He) as Hno. rewrite !instance_of_nobody; [done|done|].
      intros i u. rewrite Hu. intros [[<- <-]|[_ [Hi _]%map_lookup_filter_Some]]%lookup_insert_Some; [cbn; congruence|by eapply Hno].
Qed.

(** ** The choice of an instance *)

(** C1: A new account gets an instance of its region that is active and
    online; there is none only when the region has none; every such instance
    is chosen for some random number. *)
Theorem assignInstance_picks rnd region c :
  0 ≤ rnd →
  match assignInstance rnd region c with
  | Ok a => as_region a = region ∧
            ∃ r i, c !! region = Some r ∧ c_instances r !! as_instance a = Some i ∧
                   is_online i = true ∧ c_active i = true ∧ as_pub_url a = c_pub_url i
  | Throw _ => ∀ r id i, c !! region = Some r → c_instances r !! id = Some i → ¬ (is_online i = true ∧ c_active i = true)
  end ∧
  ∀ r id i, c !! region = Some r → c_instances r !! id = Some i → is_online i = true → c_active i = true →
    ∃ n, 0 ≤ n ∧ assignInstance n region c = Ok {| as_region := region; as_instance := id; as_pub_url := c_pub_url i |}.
Proof.
  intros Hrnd. unfold assignInstance. destruct (c !! region) as [r|]; [|by split].
  set (alts := filter _ _).
  assert (Halts : ∀ id i, (id, i) ∈ alts ↔ c_instances r !! id = Some i ∧ is_online i = true ∧ c_active i = true).
  { intros id i. unfold alts. rewrite list_elem_of_filter, elem_of_map_to_list. cbn.
    rewrite <- andb_true_iff. unfold Is_true. destruct (is_online i && c_active i); naive_solver. }
  clearbody alts. split.
  - destruct (alts !! _) as [[id i]|] eqn:Hl.
    + apply list_elem_of_lookup_2, Halts in Hl as (Hi & Ho & Ha). split; [done|]. by exists r, i.
    + intros r' id i [= <-] Hi [Ho Ha]. apply lookup_ge_None in Hl.
      assert (Hin : (id, i) ∈ alts) by by apply Halts.
      destruct alts as [|x l]; [by apply not_elem_of_nil in Hin|].
      pose proof (Z.mod_pos_bound rnd (Z.of_nat (length (x :: l))) ltac:(cbn; lia)). lia.
  - intros r' id i [= <-] Hi Ho Ha.
    assert (Hin : (id, i) ∈ alts) by by apply Halts.
    apply list_elem_of_lookup_1 in Hin as [n Hn]. exists (Z.of_nat n). split; [lia|].
    pose proof (lookup_lt_Some _ _ _ Hn). rewrite Z.mod_small by lia. by rewrite Nat2Z.id, Hn.
Qed.

(** ** Loading the cluster again *)

Lemma head_omap_unique {A B} (f : A → option B) (l : list A) x b :
  x ∈ l → f x = Some b → (∀ y, y ∈ l → is_Some (f y) → y = x) → head (omap f l) = Some b.
Proof.
  induction l as [|y l IH]; intros Hx Hf Hu; [by apply not_elem_of_nil in Hx|]. cbn.
  destruct (f y) as [b'|] eqn:Hy.
  - cbn. assert (y = x) as -> by (apply Hu; [left|by rewrite Hy]). congruence.
  - apply elem_of_cons in Hx as [->|Hx]; [congruence|]. apply IH; [done..|]. intros z Hz. apply Hu. by right.
Qed.

Lemma found_in_region uuid c region r i :
  c !! region = Some r → c_instances r !! uuid = Some i →
  (∀ k r', c !! k = Some r' → is_Some (c_instances r' !! uuid) → k = region) →
  getInstanceFromUuid uuid c = Some (region, i).
Proof.
  intros Hr Hi Hu. unfold getInstanceFromUuid. apply (head_omap_unique _ _ (region, r)).
  - by apply elem_of_map_to_list.
  - cbn. by rewrite Hi.
  - intros [k r'] Hk%elem_of_map_to_list [b Hb]. cbn in Hb. destruct (c_instances r' !! uuid) eqn:Hx; [|done].
    assert (k = region) as -> by (eapply Hu; [done|by rewrite Hx]). pose proof (eq_trans (eq_sym Hr) Hk) as [= ->]. done.
Qed.

Lemma not_found uuid c :
  (∀ k r, c !! k = Some r → c_instances r !! uuid = None) → getInstanceFromUuid uuid c = None.
Proof.
  intros Hn. unfold getInstanceFromUuid. destruct (omap _ _) as [|x l] eqn:Ho; [done|].
  assert (Hx : x ∈ x :: l) by left. rewrite <- Ho in Hx. apply list_elem_of_omap in Hx as ([k r] & Hk%elem_of_map_to_list & Hx).
  cbn in Hx. by rewrite (Hn k r Hk) in Hx.
Qed.

(** Whether the process is connected to an instance. *)
Definition online (uuid : string) (c : Cluster) : bool :=
  match getInstanceFromUuid uuid c with Some (_, i) => is_online i | None => false end.

(** C1: A cluster that is loaded again holds exactly the instances of the
    database, each in its region with what its row says, and an instance is
    online exactly when it was before. *)
Theorem loadCluster_keeps_online d current uuid :
  db_ok d →
  getInstanceFromUuid uuid (loadCluster_ d current) =
    (row ← instances d !! uuid; Some (in_region row, set_online (online uuid current) (load_instance row))).
Proof.
  intros Hd. set (mark := λ id i, match getInstanceFromUuid id current with
                                  | Some (_, old) => set_online (is_online old) i | None => i end).
  assert (Hlk : ∀ k r, loadCluster_ d current !! k = Some r ↔
    ∃ row, regions d !! k = Some row ∧
      r = {| c_name := rg_name row; c_region_active := rg_active row;
             c_instances := map_imap (λ id i, Some (mark id i)) (load_instance <$> filter (λ ki, in_region ki.2 = k) (instances d)) |}).
  { intros k r. unfold loadCluster_, getClusterFromDb, Cluster. rewrite (lookup_fmap (M:=gmap string)), map_lookup_imap.
    destruct (regions d !! k) as [row|]; cbn; naive_solver. }
  assert (Hin : ∀ k r, loadCluster_ d current !! k = Some r →
    c_instances r !! uuid = (row ← instances d !! uuid; if decide (in_region row = k) then Some (mark uuid (load_instance row)) else None)).
  { intros k r (row & _ & ->)%Hlk. cbn [c_instances]. rewrite map_lookup_imap, lookup_fmap.
    destruct (filter _ (instances d) !! uuid) as [i|] eqn:Hf.
    - apply map_lookup_filter_Some in Hf as [-> Hk]. cbn in Hk |- *. by rewrite decide_True.
    - cbn. apply map_lookup_filter_None in Hf as [Hf|Hf]; [by rewrite Hf|].
      destruct (instances d !! uuid) as [i|]; [|done]. cbn. rewrite decide_False; [done|]. by apply (Hf i). }
  destruct (instances d !! uuid) as [row|] eqn:Hrow; cbn.
  - destruct (instances_region d Hd _ _ Hrow) as [rr Hrr].
    assert (Hc : is_Some (loadCluster_ d current !! in_region row)) by (eexists; apply Hlk; by eexists).
    destruct Hc as [r Hr]. replace (set_online (online uuid current) (load_instance row)) with (mark uuid (load_instance row)).
    2:{ unfold mark, online. by destruct (getInstanceFromUuid uuid current) as [[]|]. }
    apply (found_in_region uuid _ _ r); [done| |].
    + rewrite (Hin _ _ Hr). cbn. by rewrite decide_True.
    + intros k r' Hk. rewrite (Hin _ _ Hk). cbn. destruct (decide (in_region row = k)) as [->|]; [done|by intros []].
  - apply not_found. intros k r Hk. by rewrite (Hin _ _ Hk).
Qed.

(** ** Where the code does something else than it means to *)

(** An instance whose list of users breaks off counts as online although
    none of its users are known; the next rounds pass over it. *)
Theorem broken_stream_stays_online sha256 salt region instance sid s r i :
  cluster s !! region = Some r → c_instances r !! instance = Some i →
  let s' := (connect_instance sha256 salt region instance (Some (sid, None)) s).2 in
  db s' = db s ∧ instance ∈ conns s' ∧
  ∃ r' i', cluster s' !! region = Some r' ∧ c_instances r' !! instance = Some i' ∧ is_online i' = true.
Proof.
  intros Hr Hi. unfold connect_instance, Cluster in *. rewrite Hr. cbn. rewrite Hi. cbn.
  split; [done|]. split; [by apply elem_of_union_l, elem_of_singleton|].
  unfold set_instance_online, Cluster in *. rewrite lookup_alter_eq, Hr. cbn. eexists _, _. split; [done|]. cbn.
  by rewrite lookup_insert_eq.
Qed.

(** Both buckets pay even when the other one refuses: the tokens of an email
    are used up by attempts that its owner did not make and that were refused. *)
Theorem refused_attempt_costs_email sha256 salt peer email cfg now s b :
  email_buckets s !! getEmailHash sha256 salt email = Some b →
  0 < updated_at b ≤ now → 0 < email_burst cfg → (0 <= email_refill_per_second cfg)%Q →
  (1 <= tokens b)%Q → (tokens b <= inject_Z (email_burst cfg))%Q → ip_burst cfg = 0 →
  let '(ok, s') := allowSignupAttemptLocal_ sha256 salt peer email cfg now s in
  ok = false ∧
  (capacity (email_burst cfg) (email_refill_per_second cfg) (email_buckets s' !! getEmailHash sha256 salt email) now ==
   capacity (email_burst cfg) (email_refill_per_second cfg) (Some b) now - 1)%Q.
Proof.
  intros Hb Hu He Hr Ht Hm Hip. unfold allowSignupAttemptLocal_.
  unfold consumeRateLimitToken_ at 1. rewrite Hip, Z.eqb_refl.
  destruct (consumeRateLimitToken_ (email_buckets s) _ _ _ _) as [ok b1] eqn:Hc. split; [done|]. cbn [email_buckets set_buckets].
  assert (Ho : bucket_ok (email_burst cfg) now (email_buckets s !! getEmailHash sha256 salt email)).
  { rewrite Hb. intros b' [= <-]. split; [done|]. split; [lra|done]. }
  assert (Hnow : 0 < now) by lia. destruct (consume_spec _ _ He Hr _ _ _ _ _ Hnow Ho Hc) as (_ & Hcap & Hok). rewrite Hb in *.
  rewrite Hcap. destruct ok; [reflexivity|]. exfalso. assert (Hf : false = true); [|done]. apply Hok.
  cbn [capacity]. pose proof (refilled_nonneg _ Hr now (updated_at b) ltac:(lia)).
  apply Q.min_glb; [unfold Qle; cbn; lia|lra].
Qed.

Module Example_signup.
Definition cfg : SignupRateLimitConfig :=
  {| ip_burst := 20; ip_refill_per_second := 1 # 10; email_burst := 2; email_refill_per_second := 1 # 60 |}.
Definition sha (s : string) : string := s.

Definition row (region : string) : InstanceRow :=
  {| in_region := region; in_url := "https://be"; in_pub_url := "https://be.example.com"; in_ca_cert := None; in_key := None;
     in_cert := None; in_metrics_url := None; in_server_id := None; in_active := true |}.

Definition db0 : Db :=
  {| regions := {[ "r1" := {| rg_name := "Europe"; rg_description := None; rg_active := true |} ]};
     instances := <["i1" := row "r1"]> {[ "i2" := row "r1" ]};
     tenants := ∅; users := ∅;
     localusers := {[ "admin" := {| lu_id := "id"; lu_kind := "admin"; lu_auth_token := "pw:id" |} ]} |}.

Definition s0 : Server :=
  {| db := db0; cluster := loadCluster_ db0 ∅; conns := ∅; inflight := ∅; ip_buckets := ∅; email_buckets := ∅ |}.

Lemma db0_ok : db_ok db0.
Proof.
  split; cbn; try apply map_Forall_empty; try done.
  - intros k i [[<- <-]|[_ [<- <-]%lookup_singleton_Some]]%lookup_insert_Some; cbn; by eexists.
  - by intros i j r s [<- <-]%lookup_singleton_Some [<- <-]%lookup_singleton_Some.
Qed.

Definition ann : SignUpRequest := {| sr_email := "ann@x.org"; sr_region := Some "r1" |}.
Definition tenant (n : string) : NewTenant := {| nt_uuid := String.append "t" n; nt_users := [String.append "u" n] |}.
Definition second : Z := 1000000000.

(** Both instances connect, and Ann signs up twice; the second attempt comes
    while the first runs, a third one after it. *)
Definition both_online : list Event :=
  [Connected "r1" "i1" (Some ("s1", Some [])); Connected "r1" "i2" (Some ("s2", Some []))].
Definition first : list Event :=
  [Begin 1 second 0 "ipv4:1.2.3.4:5" ann; Begin 2 second 0 "ipv4:1.2.3.4:5" ann;
   TenantAnswer 1 (Ok (Some (tenant "1"))); DeviceAnswer 1 (Ok (Some "d1")); Store 1].
Definition again : list Event :=
  [Begin 3 (100 * second) 1 "ipv4:1.2.3.4:6" ann; TenantAnswer 3 (Ok (Some (tenant "2")));
   DeviceAnswer 3 (Ok (Some "d2")); Store 3].

Definition w1 := signup_run sha "s" cfg (both_online ++ first) (started s0).
Definition w2 := signup_run sha "s" cfg again w1.

Example first_signed_up :
  signups w1 !! 1%nat = Some (Done (SignedUp "d1" "https://be.example.com")) ∧
  signups w1 !! 2%nat = Some (Done (Failed (server_err Error.ALREADY_EXIST))) ∧
  inflight (server w1) = ∅ ∧
  instance_of_email (getEmailHash sha "s" "Ann@x.org") (db (server w1)) = Some "i1".
Proof. vm_compute. done. Qed.

(** The email has an account on the first instance; a sign-up that the
    random number sends to the second one is not refused.  The old account
    stays on its instance, but its user row is gone and new devices of Ann are
    sent to the new one. *)
Example second_signup_takes_account_over :
  signups w2 !! 3%nat = Some (Done (SignedUp "d2" "https://be.example.com")) ∧
  is_Some (tenants (db (server w2)) !! "t1") ∧ users (db (server w2)) !! "u1" = None ∧
  route_new_device sha "s" (Some "ann@x.org") (server w1) = Ok ("i1", "https://be.example.com") ∧
  route_new_device sha "s" (Some "ann@x.org") (server w2) = Ok ("i2", "https://be.example.com").
Proof. vm_compute. split_and!; try done. by eexists. Qed.

Lemma one_signup_per_email_witness :
  inflight s0 = ∅ ∧ reservations_ok (signup_run sha "s" cfg (both_online ++ first ++ again) (started s0)).
Proof. split; [done|]. apply one_signup_per_email. done. Defined.

Lemma signup_tables_consistent_witness :
  db_ok db0 ∧ db_ok (db (server (signup_run sha "s" cfg (both_online ++ first ++ again) (started s0)))).
Proof. split; [apply db0_ok|]. apply signup_tables_consistent. apply db0_ok. Defined.

Definition a1 : AssignedInstance := {| as_region := "r1"; as_instance := "i1"; as_pub_url := "u" |}.

Lemma signup_routes_account_witness :
  instance_of_email "h" (db (on_store (Storing "h" a1 (tenant "1") "d") s0).2) = Some "i1".
Proof.
  destruct (on_store (Storing "h" a1 (tenant "1") "d") s0) as [p s'] eqn:Hs.
  assert (Hp : (on_store (Storing "h" a1 (tenant "1") "d") s0).1 = Done (SignedUp "d" "u")) by (vm_compute; reflexivity).
  rewrite Hs in Hp. cbn in Hp. rewrite Hp in Hs.
  exact (proj1 (signup_routes_account "h" a1 (tenant "1") "d" "u" s0 s' db0_ok Hs)).
Defined.

Lemma assignInstance_picks_witness :
  0 ≤ 7 ∧ match assignInstance 7 "r1" (cluster (server w1)) with Ok a => as_region a = "r1" | Throw _ => False end.
Proof.
  split; [lia|]. pose proof (assignInstance_picks 7 "r1" (cluster (server w1)) ltac:(lia)) as [H _].
  revert H. destruct (assignInstance 7 "r1" (cluster (server w1))) as [a|e] eqn:Ha; [by intros [? _]|].
  vm_compute in Ha. discriminate Ha.
Defined.

Lemma loadCluster_keeps_online_witness :
  db_ok db0 ∧ online "i1" (loadCluster_ db0 (cluster (server w1))) = true.
Proof.
  split; [apply db0_ok|]. unfold online. rewrite (loadCluster_keeps_online db0 (cluster (server w1)) "i1" db0_ok). vm_compute. reflexivity.
Defined.

Definition knocks : list (string * Z) :=
  [("a", second); ("a", second); ("b", second); ("a", second + 1); ("a", 62 * second)].

Lemma attempts_limited_witness :
  (attempts 2 (1 # 60) knocks ∅).1 = [("a", true); ("a", true); ("b", true); ("a", false); ("a", true)] ∧
  (inject_Z (allowed "a" (attempts 2 (1 # 60) knocks ∅).1) <= inject_Z 2 + seconds (62 * second) second * (1 # 60))%Q.
Proof.
  split; [vm_compute; reflexivity|]. apply attempts_limited; [lia|unfold Qle; cbn; lia|unfold second; lia| |by intros b].
  unfold knocks. cbn -[Z.mul Z.add]. unfold second. repeat first [apply Sorted_nil | apply Sorted_cons | apply HdRel_nil | apply HdRel_cons]; lia.
Defined.
End Example_signup.
