(* ===== verification/SyncCache.v ===== *)
(** * The life of a client cache

    src/src/NextAppUi/ServerSynchedCahce.h: the base of the client's caches
    (nodes, actions, work sessions, calendar).  A cache fetches what is new
    from the server in one transaction of the local database, loads the
    table into memory, and applies the updates that came in meanwhile.

    What a particular cache does is an instance of [CacheOps]; MainTree.v
    has the one of the tree of nodes.  What the database answers to the
    start and the end of a transaction, and what the server sends, are
    arguments. *)
From S2P Require Import Prelude.

#[local] Open Scope Z_scope.

(** [ServerSynchedCahce::State], in the order of the code. *)
Inductive State := LOCAL | SYNCHING | LOADING | APPLYING_UPDATES | VALID | ERROR.

#[export] Instance State_eq_dec : EqDecision State.
Proof. solve_decision. Defined.

Definition state_number (s : State) : Z :=
  match s with LOCAL => 0 | SYNCHING => 1 | LOADING => 2 | APPLYING_UPDATES => 3 | VALID => 4 | ERROR => 5 end.

(** The virtual functions: [C] is what is in memory, [D] the local
    database, [T] an item of the server and [U] an update.  A function that
    fails may have changed something before. *)
Class CacheOps (C D T U : Type) := {
  clear : C → C;
  loadFromCache : D → C → bool * (D * C);
  saveBatch : list T → D → bool * D;
  save : T → D → bool * D;
  haveBatch : bool;
  finalizeSyncPersistence : D → bool * D;
  isRelevant : U → bool;
  getLastUpdate : D → Z;
  getLastUpdatedId : D → Z
}.

Record Cached (C D U : Type) := {
  state : State;
  pending_updates_ : list U;
  full_sync_ : bool;
  load_after_sync_ : bool;
  mem : C;
  db : D
}.
Arguments state {C D U}.
Arguments pending_updates_ {C D U}.
Arguments full_sync_ {C D U}.
Arguments load_after_sync_ {C D U}.
Arguments mem {C D U}.
Arguments db {C D U}.
Arguments Build_Cached {C D U}.

Section cache.
Context {C D T U : Type} `{!CacheOps C D T U}.

Abbreviation Cache := (Cached C D U).

Definition setState (s : State) (c : Cache) : Cache :=
  {| state := s; pending_updates_ := pending_updates_ c; full_sync_ := full_sync_ c;
     load_after_sync_ := load_after_sync_ c; mem := mem c; db := db c |}.
Definition set_pending (l : list U) (c : Cache) : Cache :=
  {| state := state c; pending_updates_ := l; full_sync_ := full_sync_ c;
     load_after_sync_ := load_after_sync_ c; mem := mem c; db := db c |}.
Definition set_full (b : bool) (c : Cache) : Cache :=
  {| state := state c; pending_updates_ := pending_updates_ c; full_sync_ := b;
     load_after_sync_ := load_after_sync_ c; mem := mem c; db := db c |}.
Definition set_mem (m : C) (c : Cache) : Cache :=
  {| state := state c; pending_updates_ := pending_updates_ c; full_sync_ := full_sync_ c;
     load_after_sync_ := load_after_sync_ c; mem := m; db := db c |}.
Definition set_db (d : D) (c : Cache) : Cache :=
  {| state := state c; pending_updates_ := pending_updates_ c; full_sync_ := full_sync_ c;
     load_after_sync_ := load_after_sync_ c; mem := mem c; db := d |}.

Definition valid (c : Cache) : bool := bool_decide (state c = VALID).

(** ** Updates *)
Section process.
(** [pocessUpdate] of the cache. *)
Context (pocessUpdate : U → Cache → bool * Cache).

(** [onUpdate] *)
Definition onUpdate (u : U) (c : Cache) : Cache :=
  if isRelevant u then
    if valid c then (pocessUpdate u c).2 else set_pending (pending_updates_ c ++ [u]) c
  else c.

(** The loop over the updates; the first that fails ends it. *)
Fixpoint apply_pending (l : list U) (c : Cache) : bool * Cache :=
  match l with
  | [] => (true, c)
  | u :: l => let '(ok, c) := pocessUpdate u c in if ok : bool then apply_pending l c else (false, c)
  end.

(** [do { ... } while(!pending_updates_.empty())] *)
Fixpoint apply_rounds (fuel : nat) (c : Cache) : bool * Cache :=
  match fuel with
  | O => (false, c)
  | S fuel =>
      let '(ok, c) := apply_pending (pending_updates_ c) (set_pending [] c) in
      if negb ok then (false, c) else
      if bool_decide (length (pending_updates_ c) = 0%nat) then (true, c) else apply_rounds fuel c
  end.

(** [loadLocally] *)
Definition loadLocally (fuel : nat) (doClear : bool) (c : Cache) : bool * Cache :=
  let c := setState LOADING c in
  let c := if doClear then set_mem (clear (mem c)) c else c in
  let '(ok, (d, m)) := loadFromCache (db c) (mem c) in
  let c := set_mem m (set_db d c) in
  if negb ok then (false, c) else
  let '(ok, c) := apply_rounds fuel (setState APPLYING_UPDATES c) in
  if negb ok then (false, c) else (true, setState VALID c).
End process.

(** ** Synchronisation *)

(** A message of the stream, as far as the loop looks at it. *)
Inductive Message :=
| Items (l : list T)
| NoItems
| ServerError.

(** [GetNewReq] *)
Record GetNewReq := { rq_full : bool; rq_updated_id : bool; rq_since : option Z }.

Definition make_request (use_updated_id : bool) (c : Cache) : GetNewReq :=
  if use_updated_id then {| rq_full := full_sync_ c; rq_updated_id := true; rq_since := Some (getLastUpdatedId (db c)) |}
  else {| rq_full := full_sync_ c; rq_updated_id := false;
          rq_since := if 0 <? getLastUpdate (db c) then Some (getLastUpdate (db c)) else None |}.

(** The items one by one. *)
Fixpoint save_all (l : list T) (d : D) : bool * D :=
  match l with
  | [] => (true, d)
  | x :: l => let '(ok, d) := save x d in if ok : bool then save_all l d else (false, d)
  end.

Definition save_items (l : list T) (d : D) : bool * D := if haveBatch then saveBatch l d else save_all l d.

(** The loop of [synchFromServer]; [ended] is how the stream ended. *)
Fixpoint synchFromServer (stream : list Message) (ended : bool) (d : D) : bool * D :=
  match stream with
  | [] => (ended, d)
  | Items l :: stream => let '(ok, d) := save_items l d in if ok : bool then synchFromServer stream ended d else (false, d)
  | NoItems :: stream => synchFromServer stream ended d
  | ServerError :: _ => (false, d)
  end.

(** How the database answers: [began] to the start of the transaction,
    [committed] to its end; [frozen] is the database after an end that
    failed. *)
Record Answers := { began : bool; committed : bool; frozen : D }.

(** [synch], with the tables as every connection sees them afterwards. *)
Definition synch (process : U → Cache → bool * Cache) (fuel : nat) (isFullSync : bool) (a : Answers)
    (stream : list Message) (ended : bool) (c : Cache) : bool * Cache :=
  let c := set_full isFullSync c in
  if (state_number LOCAL <? state_number (state c)) && (state_number (state c) <? state_number VALID) then (false, c) else
  let c := setState SYNCHING c in
  let c := if load_after_sync_ c then set_mem (clear (mem c)) c else c in
  let use_transaction := negb isFullSync in
  if use_transaction && negb (began a) then (false, setState ERROR c) else
  let '(ok, d) := synchFromServer stream ended (db c) in
  let '(ok, d) := if ok : bool then finalizeSyncPersistence d else (false, d) in
  let '(persisted, d) :=
    if ok : bool then if use_transaction then (committed a, if committed a then d else frozen a) else (true, d)
    else (false, if use_transaction then db c else d) in
  let c := set_db d c in
  if persisted : bool then
    if negb (load_after_sync_ c) then (true, setState LOCAL c) else
    let '(ok, c) := loadLocally process fuel false c in
    if ok : bool then (true, c) else (false, setState ERROR c)
  else (false, setState ERROR c).

(** ** What holds of it *)

(** An update never makes another one wait: between its steps nothing else
    runs. *)
Definition queues_nothing (process : U → Cache → bool * Cache) : Prop :=
  ∀ u c, pending_updates_ c = [] → pending_updates_ (process u c).2 = [].

Lemma apply_pending_queues_nothing process l c ok c' :
  queues_nothing process → pending_updates_ c = [] → apply_pending process l c = (ok, c') → pending_updates_ c' = [].
Proof.
  intros Hq. revert c. induction l as [|u l IH]; intros c Hc; cbn [apply_pending].
  - by intros [= _ <-].
  - specialize (Hq u c Hc). destruct (process u c) as [[] c1]; cbn in Hq; [by apply IH|by intros [= _ <-]].
Qed.

Lemma apply_rounds_once process fuel c :
  queues_nothing process →
  apply_rounds process (S fuel) c = apply_pending process (pending_updates_ c) (set_pending [] c).
Proof.
  intros Hq. cbn [apply_rounds]. destruct (apply_pending process (pending_updates_ c) (set_pending [] c)) as [ok c'] eqn:Ha.
  assert (Hp : pending_updates_ c' = []) by by eapply apply_pending_queues_nothing, Ha. rewrite Hp. by destruct ok.
Qed.

Lemma loadLocally_loaded process fuel (doClear : bool) c d m :
  loadFromCache (db c) (if doClear then clear (mem c) else mem c) = (true, (d, m)) →
  loadLocally process fuel doClear c =
    let '(ok, c) := apply_rounds process fuel (setState APPLYING_UPDATES (set_mem m (set_db d c))) in
    if negb ok then (false, c) else (true, setState VALID c).
Proof. intros Hl. unfold loadLocally. destruct doClear; cbn [db mem setState set_mem]; by rewrite Hl. Qed.

(** A cache that loads holds what its table holds, and every update that
    came in before, each applied once and in the order it came. *)
Theorem loadLocally_applies_all process fuel (doClear : bool) c d m c' :
  queues_nothing process →
  loadFromCache (db c) (if doClear then clear (mem c) else mem c) = (true, (d, m)) →
  loadLocally process (S fuel) doClear c = (true, c') →
  state c' = VALID ∧ pending_updates_ c' = [] ∧
  ∃ c1, apply_pending process (pending_updates_ c) (set_pending [] (setState APPLYING_UPDATES (set_mem m (set_db d c)))) = (true, c1) ∧
        c' = setState VALID c1.
Proof.
  intros Hq Hl. rewrite (loadLocally_loaded _ _ _ _ _ _ Hl), (apply_rounds_once process fuel _ Hq).
  cbn [pending_updates_ setState set_mem set_db].
  destruct (apply_pending process (pending_updates_ c) _) as [ok c1] eqn:Ha.
  assert (Hp : pending_updates_ c1 = []) by by eapply apply_pending_queues_nothing, Ha.
  destruct ok; cbn [negb]; [|done]. intros [= <-]. split_and!; [done..|]. by exists c1.
Qed.


(** *** Where the code does something else than it means to *)

(** A load that fails leaves the cache in [LOADING] or
    [APPLYING_UPDATES]. *)
Lemma failed_load_state process fuel doClear c c' :
  (∀ u x, state x = APPLYING_UPDATES → state (process u x).2 = APPLYING_UPDATES) →
  loadLocally process fuel doClear c = (false, c') → state c' = LOADING ∨ state c' = APPLYING_UPDATES.
Proof.
  intros Hp. unfold loadLocally. destruct (loadFromCache _ _) as [[] [d m]]; cbn [negb].
  2:{ intros [= <-]. left. by destruct doClear. }
  assert (Hap : ∀ l y, state y = APPLYING_UPDATES → state (apply_pending process l y).2 = APPLYING_UPDATES).
  { induction l as [|u l IH]; intros y Hy; cbn [apply_pending]; [done|]. specialize (Hp u y Hy).
    destruct (process u y) as [[] y1]; [by apply IH|done]. }
  assert (Hround : ∀ n y, state y = APPLYING_UPDATES → state (apply_rounds process n y).2 = APPLYING_UPDATES).
  { induction n as [|n IH]; intros y Hy; cbn [apply_rounds]; [done|].
    specialize (Hap (pending_updates_ y) (set_pending [] y) Hy).
    destruct (apply_pending process _ _) as [[] y1]; cbn in Hap |- *; [|done]. case_bool_decide; [done|by apply IH]. }
  match goal with |- context [apply_rounds process fuel ?y] => specialize (Hround fuel y eq_refl) end.
  destruct (apply_rounds process fuel _) as [[] y1]; cbn in Hround |- *; [done|]. intros [= <-]. by right.
Qed.

(** After a load that failed every synchronisation is refused as if one were
    running; nothing but a load that succeeds ends this. *)
Theorem failed_load_refuses_synch process fuel doClear c c' n isFull a stream ended :
  (∀ u x, state x = APPLYING_UPDATES → state (process u x).2 = APPLYING_UPDATES) →
  loadLocally process fuel doClear c = (false, c') →
  synch process n isFull a stream ended c' = (false, set_full isFull c').
Proof.
  intros Hp Hl. unfold synch. cbn [state set_full].
  by destruct (failed_load_state process fuel doClear c c' Hp Hl) as [-> | ->].
Qed.

(** When an update fails while the cache loads, the ones after it are
    dropped. *)
Theorem failed_update_drops_rest process fuel c d m u l c1 :
  loadFromCache (db c) (mem c) = (true, (d, m)) → pending_updates_ c = u :: l →
  process u (set_pending [] (setState APPLYING_UPDATES (set_mem m (set_db d c)))) = (false, c1) →
  loadLocally process (S fuel) false c = (false, c1).
Proof.
  intros Hl Hp Hu. rewrite (loadLocally_loaded _ _ false _ _ _ Hl). cbn [apply_rounds pending_updates_ setState set_mem set_db].
  rewrite Hp. cbn [apply_pending]. by rewrite Hu.
Qed.
End cache.
