(* ===== verification/MainTree.v ===== *)
(** * The tree of nodes in the client

    src/src/NextAppUi/MainTreeModel.cpp: the lists of the user as the tree
    the application shows.  The rows are in the table [node] of the local
    database; in memory every node is a [TreeNode] with pointers to its
    parent and its children, and [uuid_index_] leads from the id to the node.
    The first part are the tree and its operations, the second what makes it
    a cache of the table (an instance of [CacheOps] of SyncCache.v), and the
    third what the views ask for.

    A pointer is a number and [root_] is the pointer 0; the heap holds the
    nodes that are alive.  Ids are in their canonical form, the empty one is
    the null id.  The comparison of names without regard to case is the
    parameter [name_gt]. *)
From stdpp Require Import sorting.
From S2P Require Import Prelude SyncCache.
From S2P Require Nodes SyncIssues IssueReport.

#[local] Open Scope Z_scope.

Abbreviation Row := Nodes.NodeRow.

(** [pb::Node]: the id, what has its own replication columns, and the
    rest. *)
Record Node := {
  nd_uuid : string;
  nd_row : Row;
  nd_deleted : bool;
  nd_updated : Z;
  nd_updated_id : Z
}.

Definition nd_parent (n : Node) : string := IssueReport.parent_of (nd_row n).

(** ** The tree *)
Definition ptr : Type := nat.
Definition root : ptr := 0%nat.

(** [MainTreeModel::TreeNode] *)
Record TreeNode := {
  t_uuid : string;
  t_node : Row;
  t_children : list ptr;
  t_parent : option ptr
}.

Definition set_node (r : Row) (n : TreeNode) : TreeNode :=
  {| t_uuid := t_uuid n; t_node := r; t_children := t_children n; t_parent := t_parent n |}.
Definition set_children (f : list ptr → list ptr) (n : TreeNode) : TreeNode :=
  {| t_uuid := t_uuid n; t_node := t_node n; t_children := f (t_children n); t_parent := t_parent n |}.
Definition set_parent (p : option ptr) (n : TreeNode) : TreeNode :=
  {| t_uuid := t_uuid n; t_node := t_node n; t_children := t_children n; t_parent := p |}.

(** [broken] marks an execution the language gives no meaning to;
    [repairs] counts the calls of [requestIncrementalRepair]. *)
Record Tree := {
  heap : gmap ptr TreeNode;
  uuid_index : gmap string ptr;
  selected : string;
  repairs : nat;
  broken : bool
}.

Definition set_heap (f : gmap ptr TreeNode → gmap ptr TreeNode) (m : Tree) : Tree :=
  {| heap := f (heap m); uuid_index := uuid_index m; selected := selected m; repairs := repairs m; broken := broken m |}.
Definition set_index (f : gmap string ptr → gmap string ptr) (m : Tree) : Tree :=
  {| heap := heap m; uuid_index := f (uuid_index m); selected := selected m; repairs := repairs m; broken := broken m |}.
Definition setSelected (s : string) (m : Tree) : Tree :=
  {| heap := heap m; uuid_index := uuid_index m; selected := s; repairs := repairs m; broken := broken m |}.
Definition requestIncrementalRepair (m : Tree) : Tree :=
  {| heap := heap m; uuid_index := uuid_index m; selected := selected m; repairs := S (repairs m); broken := broken m |}.
Definition break (m : Tree) : Tree :=
  {| heap := heap m; uuid_index := uuid_index m; selected := selected m; repairs := repairs m; broken := true |}.

Definition empty_row : Row :=
  {| Nodes.n_user := ""; Nodes.n_name := ""; Nodes.n_kind := 0; Nodes.n_descr := ""; Nodes.n_active := false;
     Nodes.n_inbox := false; Nodes.n_parent := None; Nodes.n_version := 0; Nodes.n_exclude := false; Nodes.n_category := None |}.

(** [root_] of a new model. *)
Definition empty_root : TreeNode := {| t_uuid := ""; t_node := empty_row; t_children := []; t_parent := None |}.
Definition new_tree : Tree :=
  {| heap := {[root := empty_root]}; uuid_index := ∅; selected := ""; repairs := 0; broken := false |}.

(** [clear]: the nodes below the root are freed. *)
Definition clear_tree (m : Tree) : Tree :=
  set_index (λ _, ∅) (set_heap (λ h, match h !! root with
                                     | Some r => {[root := set_children (λ _, []) r]}
                                     | None => ∅ end) m).

Definition children (p : ptr) (m : Tree) : list ptr := from_option t_children [] (heap m !! p).
Definition uuid_of (p : ptr) (m : Tree) : string := from_option t_uuid "" (heap m !! p).
Definition parent_ptr (p : ptr) (m : Tree) : option ptr := n ← heap m !! p; t_parent n.
Definition name_of (h : gmap ptr TreeNode) (p : ptr) : string := from_option (λ n, Nodes.n_name (t_node n)) "" (h !! p).

(** [lookupTreeNode] with [emptyIsRoot]. *)
Definition lookupTreeNode (uuid : string) (m : Tree) : option ptr :=
  if bool_decide (uuid = "") then Some root else uuid_index m !! uuid.

(** The loop of [isDescent]; as many rounds as there are nodes. *)
Fixpoint climb (fuel : nat) (target : string) (p : option ptr) (m : Tree) : bool :=
  match fuel, p with
  | S fuel, Some p => if bool_decide (uuid_of p m = target) then true else climb fuel target (parent_ptr p m) m
  | _, _ => false
  end.

Definition isDescent (nodeUuid descentOf : string) (m : Tree) : bool :=
  match lookupTreeNode nodeUuid m with
  | Some p => climb (size (heap m)) descentOf (parent_ptr p m) m
  | None => false
  end.

(** [getRow] *)
Definition getRow (l : list ptr) (uuid : string) (m : Tree) : option nat :=
  fst <$> list_find (λ c, uuid_of c m = uuid) l.

(** [getListFromChild] *)
Definition getListFromChild (p : ptr) (m : Tree) : list ptr :=
  match parent_ptr p m with Some q => children q m | None => children root m end.

(** A [QModelIndex]: the row and the pointer; [None] is the invalid one. *)
Definition ModelIndex : Type := option (nat * ptr).

Definition getIndex (p : ptr) (m : Tree) : ModelIndex :=
  if bool_decide (p = root) then Some (0%nat, root) else
  row ← getRow (getListFromChild p m) (uuid_of p m) m; Some (row, p).

Section tree.
Context (name_gt : string → string → bool).

(** [getInsertRow]: the first row with a greater name. *)
Fixpoint insert_row (h : gmap ptr TreeNode) (name : string) (l : list ptr) : nat :=
  match l with
  | [] => 0
  | c :: l => if name_gt (name_of h c) name then 0 else S (insert_row h name l)
  end.

Definition getInsertRow (parent : ptr) (name : string) (m : Tree) : nat :=
  insert_row (heap m) name (children parent m).

(** [insertNode] *)
Definition insertNode (tn : ptr) (row : nat) (l : list ptr) : list ptr :=
  if (length l <=? row)%nat then l ++ [tn] else take row l ++ tn :: drop row l.

(** [addNode]; the new node is a pointer that was not in use. *)
Definition addNode (parent : ptr) (uuid : string) (node : Row) (m : Tree) : Tree :=
  let row := getInsertRow parent (Nodes.n_name node) m in
  let new := fresh (dom (heap m)) in
  set_index <[uuid := new]>
    (set_heap (λ h, alter (set_children (insertNode new row)) parent
                      (<[new := {| t_uuid := uuid; t_node := node; t_children := []; t_parent := Some parent |}]> h)) m).

(** [moveNode]: the rows are found before the node is taken out. *)
Definition moveNode (parent current : ptr) (node : Row) (m : Tree) : Tree :=
  match parent_ptr current m with
  | None => break m
  | Some q =>
      match lookupTreeNode (uuid_of q m) m with
      | None => m
      | Some old_parent =>
          let dst_row := getInsertRow parent (Nodes.n_name node) m in
          match getIndex current m with
          | None => break m
          | Some (src_row, _) =>
              match children old_parent m !! src_row with
              | None => break m
              | Some tn =>
                  set_heap (λ h, alter (set_children (insertNode tn dst_row)) parent
                                   (alter (λ n, set_parent (Some parent) (set_node node n)) tn
                                      (alter (set_children (delete src_row)) old_parent h))) m
              end
          end
      end
  end.

(** ** The cache of the table *)

(** The local database: the tables, the columns [updated] and [updated_id]
    of [node], and how it answers the next statements ([true] when there is
    nothing more). *)
Record ClientDb := {
  tables : IssueReport.Tables;
  cursor : gmap string (Z * Z);
  answers : list bool
}.

Definition rows (d : ClientDb) : gmap string Row := IssueReport.t_nodes (tables d).

Definition statement (d : ClientDb) : bool * ClientDb :=
  match answers d with
  | [] => (true, d)
  | ok :: l => (ok, {| tables := tables d; cursor := cursor d; answers := l |})
  end.

Definition set_rows (f : gmap string Row → gmap string Row) (d : ClientDb) : ClientDb :=
  {| tables := IssueReport.set_nodes f (tables d); cursor := cursor d; answers := answers d |}.

(** [insert_query]: an older row does not replace a newer one. *)
Definition newer (n : Node) (d : ClientDb) : bool :=
  match rows d !! nd_uuid n with
  | None => true
  | Some _ => from_option snd 0 (cursor d !! nd_uuid n) <=? nd_updated_id n
  end.

Definition insert_query (n : Node) (d : ClientDb) : ClientDb :=
  if newer n d then
    {| tables := IssueReport.set_nodes <[nd_uuid n := nd_row n]> (tables d);
       cursor := <[nd_uuid n := (nd_updated n, nd_updated_id n)]> (cursor d); answers := answers d |}
  else d.

Definition save_row (n : Node) (d : ClientDb) : ClientDb :=
  if nd_deleted n then set_rows (delete (nd_uuid n)) d else insert_query n d.

Definition save_node (n : Node) (d : ClientDb) : bool * ClientDb :=
  let '(ok, d) := statement d in if ok : bool then (true, save_row n d) else (false, d).

(** [saveBatch]: the statements of a batch are one transaction. *)
Definition save_batch (l : list Node) (d : ClientDb) : bool * ClientDb :=
  let '(ok, d) := statement d in if ok : bool then (true, foldl (λ d n, save_row n d) d l) else (false, d).

Context (sha256 : string → string).

(** [validateStoredNodes] (its queries are in IssueReport.v). *)
Definition validateStoredNodes (d : ClientDb) : bool * ClientDb :=
  let '(ok, d) := statement d in
  if ok : bool then (true, {| tables := IssueReport.validateStoredNodes sha256 (tables d); cursor := cursor d; answers := answers d |})
  else (false, d).

(** [ORDER BY]: the rows without parent first, then by the time of the
    update and the id. *)
Definition row_key (d : ClientDb) (kv : string * Row) : Z * Z * string :=
  (if bool_decide (IssueReport.parent_of kv.2 = "") then 0 else 1, from_option fst 0 (cursor d !! kv.1), kv.1).

Definition key_le (a b : Z * Z * string) : Prop :=
  a.1.1 < b.1.1 ∨ a.1.1 = b.1.1 ∧ (a.1.2 < b.1.2 ∨ a.1.2 = b.1.2 ∧ String.leb a.2 b.2 = true).

#[local] Instance key_le_dec a b : Decision (key_le a b).
Proof. unfold key_le. apply _. Defined.

Definition query_rows (d : ClientDb) : list (string * Row) :=
  merge_sort (λ a b, key_le (row_key d a) (row_key d b)) (map_to_list (rows d)).

(** One round over the rows that wait for their parent: what still waits,
    whether one was added, and the tree. *)
Fixpoint load_round (pending : list (string * Row)) (m : Tree) : list (string * Row) * bool * Tree :=
  match pending with
  | [] => ([], false, m)
  | (uuid, r) :: pending =>
      match lookupTreeNode (IssueReport.parent_of r) m with
      | Some parent => let '(remaining, _, m) := load_round pending (addNode parent uuid r m) in (remaining, true, m)
      | None => let '(remaining, progress, m) := load_round pending m in ((uuid, r) :: remaining, progress, m)
      end
  end.

(** [do ... while (made_progress && !pending.empty())] *)
Fixpoint load_loop (fuel : nat) (pending : list (string * Row)) (m : Tree) : list (string * Row) * Tree :=
  match fuel with
  | O => (pending, m)
  | S fuel =>
      let '(remaining, progress, m) := load_round pending m in
      if (progress : bool) && negb (bool_decide (remaining = [])) then load_loop fuel remaining m else (remaining, m)
  end.

(** [loadFromCache] *)
Definition load_tree (d : ClientDb) (m : Tree) : bool * (ClientDb * Tree) :=
  let '(ok, d) := validateStoredNodes d in
  if negb ok then (false, (d, m)) else
  let '(ok, d) := statement d in
  if negb ok then (false, (d, m)) else
  let pending := query_rows d in
  let '(remaining, m) := load_loop (S (length pending)) pending m in
  (bool_decide (remaining = []), (d, m)).

(** The operations of [nextapp.pb.Update]. *)
Inductive Operation := ADDED | UPDATED | MOVED | DELETED.

#[export] Instance Operation_eq_dec : EqDecision Operation.
Proof using. clear. solve_decision. Defined.

Record Update := { up_op : Operation; up_node : option Node }.

#[export] Instance MainTreeModel_ops : CacheOps Tree ClientDb Node Update := {
  clear := clear_tree;
  loadFromCache := load_tree;
  saveBatch := save_batch;
  save := save_node;
  haveBatch := true;
  finalizeSyncPersistence := validateStoredNodes;
  isRelevant u := bool_decide (is_Some (up_node u));
  getLastUpdate d := foldr Z.max 0 (map (λ kv, from_option fst 0 (cursor d !! kv.1)) (map_to_list (rows d)));
  getLastUpdatedId d := foldr Z.max 0 (map (λ kv, from_option snd 0 (cursor d !! kv.1)) (map_to_list (rows d)))
}.

Abbreviation Cache := (Cached Tree ClientDb Update).

Definition on_tree (f : Tree → Tree) (c : Cache) : Cache := set_mem (f (mem c)) c.

(** [resyncOnFailure]; the timer runs when the coroutine has returned. *)
Definition resyncOnFailure (r : bool * Cache) : bool * Cache :=
  if r.1 then r else (false, on_tree requestIncrementalRepair r.2).

Definition save_to (n : Node) (c : Cache) : bool * Cache :=
  let '(ok, d) := save_node n (db c) in (ok, set_db d c).

(** [co_await a && co_await b] *)
Definition and_then (a : Cache → bool * Cache) (b : Cache → bool * Cache) (c : Cache) : bool * Cache :=
  let '(ok, c) := a c in if ok : bool then b c else (false, c).

Definition done (c : Cache) : bool * Cache := (true, c).

(** [added:] *)
Definition process_added (doLoadLocally : Cache → bool * Cache) (node : Node) (parent current : option ptr) (c : Cache) : bool * Cache :=
  resyncOnFailure (
    match current, parent with
    | Some _, _ => and_then (save_to node) doLoadLocally c
    | None, None => and_then (save_to node) doLoadLocally c
    | None, Some parent => and_then (save_to node) (λ c, done (on_tree (addNode parent (nd_uuid node) (nd_row node)) c)) c
    end).

Definition process_updated (doLoadLocally : Cache → bool * Cache) (node : Node) (current : option ptr) (c : Cache) : bool * Cache :=
  resyncOnFailure (
    match current with
    | None => and_then (save_to node) doLoadLocally c
    | Some p => save_to node (on_tree (set_heap (alter (set_node (nd_row node)) p)) c)
    end).

Definition process_moved (doLoadLocally : Cache → bool * Cache) (node : Node) (parent current : option ptr) (c : Cache) : bool * Cache :=
  match current with
  | None => process_added doLoadLocally node parent current c
  | Some p =>
      resyncOnFailure (
        match parent with
        | None => and_then (save_to node) doLoadLocally c
        | Some q =>
            and_then (save_to node) (λ c, done (on_tree (
              if bool_decide (parent_ptr p (mem c) = Some q) then set_heap (alter (set_node (nd_row node)) p)
              else moveNode q p (nd_row node)) c)) c
        end)
  end.

(** The selection goes with the node or with one above it. *)
Definition clear_selection (current : option ptr) (m : Tree) : Tree :=
  match current with
  | None => m
  | Some p =>
      match lookupTreeNode (selected m) m with
      | Some sel => if bool_decide (sel = p) || isDescent (uuid_of sel m) (uuid_of p m) m then setSelected "" m else m
      | None => m
      end
  end.

Definition process_deleted (doLoadLocally : Cache → bool * Cache) (node : Node) (parent current : option ptr) (c : Cache) : bool * Cache :=
  if bool_decide (current = Some root) then (false, c) else
  if bool_decide (is_Some current) && bool_decide (parent = None) then (false, on_tree break c) else
  resyncOnFailure (and_then (save_to node) doLoadLocally (on_tree (clear_selection current) c)).

(** [pocessUpdate] *)
Definition pocessUpdate_with (doLoadLocally : Cache → bool * Cache) (u : Update) (c : Cache) : bool * Cache :=
  match up_node u with
  | None => resyncOnFailure (false, c)
  | Some node =>
      let parent := lookupTreeNode (nd_parent node) (mem c) in
      if bool_decide (nd_uuid node = "") then resyncOnFailure (false, c) else
      let current := lookupTreeNode (nd_uuid node) (mem c) in
      let newest := n ← (current ≫= λ p, heap (mem c) !! p); Some (Nodes.n_version (t_node n)) in
      if negb (bool_decide (up_op u = DELETED)) && (from_option (λ v, Nodes.n_version (nd_row node) <? v) false newest)
      then (true, c) else
      match up_op u with
      | ADDED => process_added doLoadLocally node parent current c
      | UPDATED => process_updated doLoadLocally node current c
      | MOVED => process_moved doLoadLocally node parent current c
      | DELETED => process_deleted doLoadLocally node parent current c
      end
  end.

(** An update may load the tree again, which applies the updates that
    waited. *)
Fixpoint pocessUpdate (fuel : nat) (u : Update) (c : Cache) : bool * Cache :=
  pocessUpdate_with (λ c, match fuel with
                          | O => (false, c)
                          | S fuel => loadLocally (pocessUpdate fuel) 1 true c
                          end) u c.

(** [doLoadLocally] *)
Definition doLoadLocally (c : Cache) : bool * Cache := loadLocally (pocessUpdate 1) 1 true c.

(** [doSynch] *)
Definition doSynch (fullSync : bool) (a : Answers) (stream : list (Message (T := Node))) (ended : bool) (c : Cache) : bool * Cache :=
  synch (pocessUpdate 1) 1 fullSync a stream ended c.

(** [onOnline], when the state of the connection changes. *)
Definition onOnline (online : bool) (c : Cache) : Cache := if online then c else setState LOCAL c.

(** ** What the views ask for *)

(** [index] and [parent] of the item model. *)
Definition index (row : nat) (column : Z) (parent : ModelIndex) (c : Cache) : ModelIndex :=
  if negb (valid c) then None else
  if negb (column =? 0) then None else
  match parent with
  | Some (_, p) => current ← children p (mem c) !! row; Some (row, current)
  | None => if bool_decide (row = 0%nat) then Some (0%nat, root) else None
  end.

Definition parent (child : ModelIndex) (c : Cache) : ModelIndex :=
  if negb (valid c) then None else
  match child with
  | None => None
  | Some (_, current) =>
      match parent_ptr current (mem c) with
      | None => None
      | Some p => if bool_decide (p = root) then Some (0%nat, root) else
                  row ← getRow (getListFromChild p (mem c)) (uuid_of p (mem c)) (mem c); Some (row, p)
      end
  end.

Definition rowCount (parent : ModelIndex) (c : Cache) : nat :=
  if negb (valid c) then 0%nat else
  match parent with Some (_, p) => length (children p (mem c)) | None => 1%nat end.

Definition hasChildren (parent : ModelIndex) (c : Cache) : bool :=
  match parent with Some (_, p) => negb (bool_decide (children p (mem c) = [])) | None => true end.

(** [useRoot]: the first list. *)
Definition useRoot (c : Cache) : ModelIndex :=
  match children root (mem c) with
  | [] => index 0 0 None c
  | p :: _ => getIndex p (mem c)
  end.

(** [isChildOfSelected] *)
Definition isChildOfSelected (uuid : string) (m : Tree) : bool :=
  match lookupTreeNode (selected m) m with
  | Some sel => isDescent uuid (uuid_of sel m) m
  | None => false
  end.

(** The request [moveNode] of the application sends, and [canMove]. *)
Definition move_request (uuid toParentUuid : string) (m : Tree) : option (string * string) :=
  if bool_decide (uuid = "") then None else
  if isDescent toParentUuid uuid m then None else Some (uuid, toParentUuid).

Definition canMove (uuid toParentUuid : string) (m : Tree) : bool :=
  if bool_decide (uuid = toParentUuid) || isDescent toParentUuid uuid m then false else true.

(** [getCategoryForNode]: its own or the nearest one above. *)
Fixpoint category_above (fuel : nat) (p : option ptr) (m : Tree) : string :=
  match fuel, p ≫= λ p, heap m !! p with
  | S fuel, Some n => match Nodes.n_category (t_node n) with
                      | Some c => c
                      | None => category_above fuel (t_parent n) m
                      end
  | _, _ => ""
  end.

Definition getCategoryForNode (uuid : string) (recurse : bool) (m : Tree) : string :=
  match lookupTreeNode uuid m with
  | Some p => category_above (if recurse then S (size (heap m)) else 1) (Some p) m
  | None => ""
  end.

(** [nodeNameFromQuuid] with the full path. *)
Fixpoint path_names (fuel : nat) (p : option ptr) (m : Tree) (name : string) : string :=
  match fuel, p ≫= λ p, heap m !! p with
  | S fuel, Some n =>
      let name := if bool_decide (name = "") then name else String.append "/" name in
      path_names fuel (t_parent n) m (String.append (Nodes.n_name (t_node n)) name)
  | _, _ => name
  end.

Definition nodeNameFromUuid (uuid : string) (fullPath : bool) (m : Tree) : string :=
  match uuid_index m !! uuid with
  | Some p => if fullPath then path_names (size (heap m)) (Some p) m "" else name_of (heap m) p
  | None => ""
  end.

(** [inboxUuid]: depth first, with as many levels as there are nodes. *)
Fixpoint findInbox (fuel : nat) (l : list ptr) (m : Tree) : string :=
  match fuel with
  | O => ""
  | S fuel =>
      (fix go l := match l with
                   | [] => ""
                   | p :: l => match heap m !! p with
                               | None => go l
                               | Some n => if Nodes.n_inbox (t_node n) then t_uuid n else
                                           let u := findInbox fuel (t_children n) m in
                                           if bool_decide (u = "") then go l else u
                               end
                   end) l
  end.

Definition inboxUuid (m : Tree) : string := findInbox (size (heap m)) (children root m) m.

(** ** The shape of the tree *)

(** [anchored h d p]: [d] steps to the parent lead from [p] to the root. *)
Inductive anchored (h : gmap ptr TreeNode) : nat → ptr → Prop :=
| anchored_root : anchored h 0 root
| anchored_child d p n q : h !! p = Some n → t_parent n = Some q → anchored h d q → anchored h (S d) p.

(** [above h k a p]: [a] is [k] steps above [p]. *)
Inductive above (h : gmap ptr TreeNode) (a : ptr) : nat → ptr → Prop :=
| above_self : above h a 0 a
| above_parent k p n q : h !! p = Some n → t_parent n = Some q → above h a k q → above h a (S k) p.

(** Parents and children agree, every node hangs below the root, and the
    index leads to every node by its id. *)
Record tree_ok (m : Tree) : Prop := {
  ok_root : ∃ n, heap m !! root = Some n ∧ t_parent n = None ∧ t_uuid n = "";
  ok_child p n c : heap m !! p = Some n → c ∈ t_children n → ∃ cn, heap m !! c = Some cn ∧ t_parent cn = Some p;
  ok_parent c cn : heap m !! c = Some cn → c ≠ root →
    ∃ p pn, t_parent cn = Some p ∧ heap m !! p = Some pn ∧ c ∈ t_children pn;
  ok_nodup p n : heap m !! p = Some n → NoDup (t_children n);
  ok_index u c : uuid_index m !! u = Some c ↔ ∃ n, heap m !! c = Some n ∧ c ≠ root ∧ t_uuid n = u;
  ok_uuid c n : heap m !! c = Some n → c ≠ root → t_uuid n ≠ "";
  ok_anchored c : is_Some (heap m !! c) → ∃ d, anchored (heap m) d c
}.

Lemma uuid_unique m c c' n n' :
  tree_ok m → heap m !! c = Some n → heap m !! c' = Some n' → t_uuid n = t_uuid n' → c = c'.
Proof.
  intros Hm Hc Hc' He. destruct (ok_root m Hm) as (rn & Hr & _ & Hu).
  destruct (decide (c = root)) as [->|Hne], (decide (c' = root)) as [->|Hne']; [done| | |].
  - rewrite Hr in Hc. injection Hc as <-. exfalso. apply (ok_uuid m Hm c' n' Hc' Hne'). congruence.
  - rewrite Hr in Hc'. injection Hc' as <-. exfalso. apply (ok_uuid m Hm c n Hc Hne). congruence.
  - assert (H1 : uuid_index m !! t_uuid n = Some c) by (apply (ok_index m Hm); eauto).
    assert (H2 : uuid_index m !! t_uuid n = Some c') by (apply (ok_index m Hm); eauto). congruence.
Qed.

Lemma root_of_ok m n : tree_ok m → heap m !! root = Some n → t_parent n = None.
Proof. intros Hm Hn. destruct (ok_root m Hm) as (rn & Hr & Hp & _). congruence. Qed.

Lemma lookup_uuid m c n : tree_ok m → heap m !! c = Some n → lookupTreeNode (t_uuid n) m = Some c.
Proof.
  intros Hm Hc. unfold lookupTreeNode. destruct (ok_root m Hm) as (rn & Hr & _ & Hu).
  destruct (decide (c = root)) as [->|Hne].
  - rewrite bool_decide_true by congruence. done.
  - rewrite bool_decide_false by by eapply ok_uuid. apply (ok_index m Hm). eauto.
Qed.

Lemma lookup_node m u c : tree_ok m → lookupTreeNode u m = Some c → ∃ n, heap m !! c = Some n ∧ t_uuid n = u.
Proof.
  intros Hm. unfold lookupTreeNode. case_bool_decide as Hu.
  - intros [= <-]. destruct (ok_root m Hm) as (rn & Hr & _ & Hn). exists rn. by rewrite Hu.
  - intros (n & Hn & _ & He)%(ok_index m Hm). eauto.
Qed.

Lemma lookup_nonempty m u c : tree_ok m → u ≠ "" → lookupTreeNode u m = Some c → c ≠ root ∧ uuid_index m !! u = Some c.
Proof.
  intros Hm Hu. unfold lookupTreeNode. rewrite bool_decide_false by done. intros H. split; [|done].
  by apply (ok_index m Hm) in H as (_ & _ & H & _).
Qed.

Lemma anchored_live m d c : tree_ok m → anchored (heap m) d c → is_Some (heap m !! c).
Proof. intros Hm H. destruct H; [|by eexists]. destruct (ok_root m Hm) as (rn & Hr & _). by eexists. Qed.

(** *** Rows of the children *)
Lemma insertNode_perm tn row l : insertNode tn row l ≡ₚ tn :: l.
Proof.
  unfold insertNode. destruct (length l <=? row)%nat.
  - by rewrite Permutation_app_comm.
  - rewrite <- (take_drop row l) at 3. by rewrite Permutation_middle.
Qed.

Lemma elem_of_insertNode c tn row l : c ∈ insertNode tn row l ↔ c = tn ∨ c ∈ l.
Proof. by rewrite insertNode_perm, elem_of_cons. Qed.

Lemma NoDup_insertNode tn row l : tn ∉ l → NoDup l → NoDup (insertNode tn row l).
Proof. rewrite insertNode_perm, NoDup_cons. done. Qed.

Lemma getRow_spec l m c n :
  tree_ok m → heap m !! c = Some n → (∀ x, x ∈ l → is_Some (heap m !! x)) → c ∈ l → NoDup l →
  ∃ i, getRow l (t_uuid n) m = Some i ∧ l !! i = Some c.
Proof.
  intros Hm Hc Hl Hin Hnd. unfold getRow.
  assert (Hu : ∀ x, x ∈ l → uuid_of x m = t_uuid n → x = c).
  { intros x Hx. destruct (Hl x Hx) as [xn Hxn]. unfold uuid_of. rewrite Hxn. cbn. intros He. by eapply uuid_unique. }
  destruct (list_find_elem_of (λ x, uuid_of x m = t_uuid n) l c Hin) as [[i x] Hf].
  { unfold uuid_of. by rewrite Hc. }
  rewrite Hf. cbn. exists i. split; [done|]. apply list_find_Some in Hf as (Hi & Hx & _).
  assert (x = c) as ->; [|done]. apply Hu; [by eapply list_elem_of_lookup_2|done].
Qed.

Lemma children_live m p c : tree_ok m → c ∈ children p m → is_Some (heap m !! c).
Proof.
  intros Hm. unfold children. destruct (heap m !! p) as [n|] eqn:Hp; cbn; [|by intros ?%elem_of_nil].
  intros Hc. destruct (ok_child m Hm p n c Hp Hc) as (cn & Hcn & _). by eexists.
Qed.

(** The index of a node: its row among its parent's children. *)
Lemma getIndex_spec m c n :
  tree_ok m → heap m !! c = Some n → c ≠ root →
  ∃ p i, t_parent n = Some p ∧ getIndex c m = Some (i, c) ∧ children p m !! i = Some c.
Proof.
  intros Hm Hc Hne. destruct (ok_parent m Hm c n Hc Hne) as (p & pn & Hp & Hpn & Hin).
  assert (Hl : getListFromChild c m = children p m) by (unfold getListFromChild, parent_ptr; rewrite Hc; cbn; by rewrite Hp).
  assert (Hu : uuid_of c m = t_uuid n) by (unfold uuid_of; by rewrite Hc).
  unfold getIndex. rewrite bool_decide_false, Hl, Hu by done.
  destruct (getRow_spec (children p m) m c n Hm Hc) as (i & Hi & Hli).
  - intros x. by apply children_live.
  - unfold children. by rewrite Hpn.
  - unfold children. rewrite Hpn. by eapply ok_nodup.
  - exists p, i. by rewrite Hi.
Qed.

(** *** A new node *)
Lemma heap_addNode parent uuid node m pn :
  heap m !! parent = Some pn →
  let new := fresh (dom (heap m)) in
  let row := getInsertRow parent (Nodes.n_name node) m in
  new ≠ parent ∧ heap m !! new = None ∧
  ∀ x, heap (addNode parent uuid node m) !! x =
       if decide (x = new) then Some {| t_uuid := uuid; t_node := node; t_children := []; t_parent := Some parent |}
       else if decide (x = parent) then Some (set_children (insertNode new row) pn) else heap m !! x.
Proof.
  intros Hp new row. assert (Hf : heap m !! new = None) by (apply not_elem_of_dom, is_fresh).
  assert (Hne : new ≠ parent) by congruence. split_and!; [done..|]. intros x. cbn.
  destruct (decide (x = parent)) as [->|Hxp].
  - rewrite lookup_alter_eq, lookup_insert_ne by done. rewrite Hp. by rewrite decide_False by done.
  - rewrite lookup_alter_ne by done. destruct (decide (x = new)) as [->|Hxn]; [by rewrite lookup_insert_eq|by rewrite lookup_insert_ne].
Qed.

Lemma anchored_mono h h' d c :
  (∀ p n q, h !! p = Some n → t_parent n = Some q → ∃ n', h' !! p = Some n' ∧ t_parent n' = Some q) →
  anchored h d c → anchored h' d c.
Proof.
  intros Hh. induction 1 as [|d p n q Hp Hq _ IH]; [constructor|].
  destruct (Hh p n q Hp Hq) as (n' & Hn' & Hq'). by eapply anchored_child.
Qed.

Lemma addNode_ok parent uuid node m :
  tree_ok m → is_Some (heap m !! parent) → uuid ≠ "" → uuid_index m !! uuid = None → tree_ok (addNode parent uuid node m).
Proof.
  intros Hm [pn Hp] Hu Hi. destruct (heap_addNode parent uuid node m pn Hp) as (Hne & Hf & Hh).
  set (new := fresh (dom (heap m))) in *. set (row := getInsertRow parent (Nodes.n_name node) m) in *.
  assert (Hix : uuid_index (addNode parent uuid node m) = <[uuid := new]> (uuid_index m)) by done.
  set (m' := addNode parent uuid node m) in *. clearbody m'.
  destruct (ok_root m Hm) as (rn & Hr & Hrp & Hru).
  assert (Hnr : new ≠ root) by congruence.
  (* what an old node became *)
  assert (Hold : ∀ x n, heap m !! x = Some n → ∃ n', heap m' !! x = Some n' ∧ t_uuid n' = t_uuid n ∧ t_parent n' = t_parent n ∧
             (∀ c, c ∈ t_children n' ↔ c ∈ t_children n ∨ (x = parent ∧ c = new))).
  { intros x n Hx. rewrite Hh. destruct (decide (x = new)) as [->|]; [congruence|].
    destruct (decide (x = parent)) as [->|]; [|exists n; naive_solver].
    assert (n = pn) as -> by congruence. eexists. split_and!; [done..|]. intros c. cbn. rewrite elem_of_insertNode. naive_solver. }
  assert (Hinv : ∀ x n', heap m' !! x = Some n' → x = new ∨ (x ≠ new ∧ ∃ n, heap m !! x = Some n)).
  { intros x n'. rewrite Hh. destruct (decide (x = new)); [by left|]. right. split; [done|]. destruct (decide (x = parent)) as [->|]; eauto. }
  assert (Hnew : heap m' !! new = Some {| t_uuid := uuid; t_node := node; t_children := []; t_parent := Some parent |})
    by by rewrite Hh, decide_True.
  split.
  - destruct (Hold root rn Hr) as (n' & Hn' & Hu' & Hp' & _). exists n'. by rewrite Hu', Hp'.
  - intros p n' c Hp' Hc. destruct (Hinv p n' Hp') as [->|[Hpn [n Hn]]].
    + rewrite Hnew in Hp'. injection Hp' as <-. by apply elem_of_nil in Hc.
    + destruct (Hold p n Hn) as (n2 & Hn2 & _ & _ & Hcs). assert (n2 = n') as -> by congruence.
      apply Hcs in Hc as [Hc|[-> ->]]; [|by eexists].
      destruct (ok_child m Hm p n c Hn Hc) as (cn & Hcn & Hcp).
      destruct (Hold c cn Hcn) as (cn' & Hcn' & _ & Hpar & _). exists cn'. split; [done|congruence].
  - intros c cn' Hc Hcr. destruct (Hinv c cn' Hc) as [->|[Hcn [n Hn]]].
    + rewrite Hnew in Hc. injection Hc as <-. destruct (Hold parent pn Hp) as (pn' & Hpn' & _ & _ & Hcs).
      exists parent, pn'. split_and!; [done..|]. apply Hcs. by right.
    + destruct (ok_parent m Hm c n Hn Hcr) as (p & q & Hpp & Hq & Hin).
      destruct (Hold c n Hn) as (n2 & Hn2 & _ & Hpar & _). assert (n2 = cn') as -> by congruence.
      destruct (Hold p q Hq) as (q' & Hq' & _ & _ & Hcs). exists p, q'. split_and!; [congruence|done|]. apply Hcs. by left.
  - intros p n' Hp'. rewrite Hh in Hp'. destruct (decide (p = new)); [injection Hp' as <-; constructor|].
    destruct (decide (p = parent)) as [->|]; [|by eapply ok_nodup]. injection Hp' as <-. cbn.
    apply NoDup_insertNode; [|by eapply ok_nodup]. intros Hin. destruct (ok_child m Hm parent pn new Hp Hin) as (x & Hx & _). congruence.
  - intros u c. rewrite Hix, lookup_insert_Some. split.
    + intros [[<- <-]|[Hne' Hc]]; [by eexists|]. apply (ok_index m Hm) in Hc as (n & Hn & Hcr & He).
      destruct (Hold c n Hn) as (n' & Hn' & Hu' & _). exists n'. split_and!; congruence.
    + intros (n' & Hn' & Hcr & He). destruct (Hinv c n' Hn') as [->|[Hcn [n Hn]]].
      * left. rewrite Hnew in Hn'. injection Hn' as <-. done.
      * right. destruct (Hold c n Hn) as (n2 & Hn2 & Hu' & _). assert (n2 = n') as -> by congruence.
        assert (Hc : uuid_index m !! u = Some c) by (apply (ok_index m Hm); exists n; split_and!; [done..|congruence]).
        split; [congruence|done].
  - intros c n' Hn' Hcr. destruct (Hinv c n' Hn') as [->|[Hcn [n Hn]]].
    + rewrite Hnew in Hn'. by injection Hn' as <-.
    + destruct (Hold c n Hn) as (n2 & Hn2 & Hu' & _). assert (n2 = n') as -> by congruence. rewrite Hu'. by eapply ok_uuid.
  - intros c [n' Hn'].
    assert (Hanc : ∀ d x, anchored (heap m) d x → anchored (heap m') d x).
    { intros d x. apply anchored_mono. intros p n q Hpn Hq. destruct (Hold p n Hpn) as (n2 & Hn2 & _ & Hp2 & _). exists n2. split; [done|congruence]. }
    destruct (Hinv c n' Hn') as [->|[Hcn [n Hn]]].
    + destruct (ok_anchored m Hm parent) as [d Hd]; [by eexists|]. exists (S d). eapply anchored_child; [exact Hnew|reflexivity|by apply Hanc].
    + destruct (ok_anchored m Hm c) as [d Hd]; [by eexists|]. exists d. by apply Hanc.
Qed.

(** *** A node that moves *)
Lemma not_own_parent m c n : tree_ok m → heap m !! c = Some n → t_parent n ≠ Some c.
Proof.
  intros Hm Hc Hp. destruct (ok_anchored m Hm c) as [d Hd]; [by eexists|].
  revert Hc Hp. induction Hd as [|d c n' q Hn Hq Hd IH]; intros Hc Hp.
  - by rewrite (root_of_ok m n Hm Hc) in Hp.
  - assert (n' = n) as -> by congruence. assert (q = c) as -> by congruence. by apply IH.
Qed.

Lemma parent_differs m c n q : tree_ok m → heap m !! c = Some n → t_parent n = Some q → q ≠ c.
Proof. intros Hm Hc Hq ->. exact (not_own_parent m c n Hm Hc Hq). Qed.

Lemma moveNode_run p cur node m n pn q qn :
  tree_ok m → heap m !! cur = Some n → cur ≠ root → t_parent n = Some q → heap m !! q = Some qn →
  heap m !! p = Some pn → p ≠ q → p ≠ cur →
  ∃ i, t_children qn !! i = Some cur ∧
    uuid_index (moveNode p cur node m) = uuid_index m ∧ broken (moveNode p cur node m) = broken m ∧
    repairs (moveNode p cur node m) = repairs m ∧ selected (moveNode p cur node m) = selected m ∧
    ∀ x, heap (moveNode p cur node m) !! x =
      if decide (x = p) then Some (set_children (insertNode cur (getInsertRow p (Nodes.n_name node) m)) pn)
      else if decide (x = cur) then Some (set_parent (Some p) (set_node node n))
      else if decide (x = q) then Some (set_children (delete i) qn) else heap m !! x.
Proof.
  intros Hm Hc Hr Hq Hqn Hp Hpq Hpc.
  assert (Hqc : q ≠ cur) by exact (parent_differs m cur n q Hm Hc Hq).
  destruct (getIndex_spec m cur n Hm Hc Hr) as (q' & i & Hq' & Hix & Hi). assert (q' = q) as -> by congruence.
  assert (Hch : children q m = t_children qn) by (unfold children; by rewrite Hqn). rewrite Hch in Hi.
  exists i. split; [done|]. unfold moveNode, parent_ptr. rewrite Hc. cbn. rewrite Hq.
  assert (Hu : uuid_of q m = t_uuid qn) by (unfold uuid_of; by rewrite Hqn). rewrite Hu.
  rewrite (lookup_uuid m q qn Hm Hqn), Hix, Hch, Hi. cbn. split_and!; [done..|]. intros x.
  destruct (decide (x = p)) as [->|Hxp].
  - rewrite lookup_alter_eq, !lookup_alter_ne by done. by rewrite Hp.
  - rewrite lookup_alter_ne by done. destruct (decide (x = cur)) as [->|Hxc].
    + rewrite lookup_alter_eq, lookup_alter_ne by done. by rewrite Hc.
    + rewrite lookup_alter_ne by done. destruct (decide (x = q)) as [->|Hxq].
      * rewrite lookup_alter_eq. by rewrite Hqn.
      * by rewrite lookup_alter_ne.
Qed.

(** Nodes that are not below the moved one keep their way to the root. *)
Lemma anchored_aside h h' cur d x :
  (∀ p n q, h !! p = Some n → t_parent n = Some q → p ≠ cur → ∃ n', h' !! p = Some n' ∧ t_parent n' = Some q) →
  anchored h d x → (¬ ∃ k, above h cur k x) → anchored h' d x.
Proof.
  intros Hh. induction 1 as [|d x n q Hx Hq _ IH]; intros Hna; [constructor|].
  assert (x ≠ cur) by (intros ->; apply Hna; exists 0%nat; constructor).
  destruct (Hh x n q Hx Hq) as (n' & Hn' & Hq'); [done|]. eapply anchored_child; [done..|]. apply IH.
  intros [k Hk]. apply Hna. exists (S k). by eapply above_parent.
Qed.

Lemma anchored_moved h h' cur d x p nc :
  (∀ p n q, h !! p = Some n → t_parent n = Some q → p ≠ cur → ∃ n', h' !! p = Some n' ∧ t_parent n' = Some q) →
  h' !! cur = Some nc → t_parent nc = Some p → (∃ d, anchored h' d p) →
  anchored h d x → ∃ d', anchored h' d' x.
Proof.
  intros Hh Hc Hp [dp Hdp]. induction 1 as [|d x n q Hx Hq _ [dq IH]]; [exists 0%nat; constructor|].
  destruct (decide (x = cur)) as [->|Hne]; [exists (S dp); by eapply anchored_child|].
  destruct (Hh x n q Hx Hq Hne) as (n' & Hn' & Hq'). exists (S dq). by eapply anchored_child.
Qed.

Lemma taken_out_elem l i (c x : ptr) : NoDup l → l !! i = Some c → (x ∈ delete i l ↔ x ∈ l ∧ x ≠ c).
Proof.
  intros Hnd Hi. pose proof (delete_Permutation l i c Hi) as Hp.
  assert (Hx : x ∈ l ↔ x ∈ c :: delete i l) by by rewrite <- Hp.
  assert (Hnd' : NoDup (c :: delete i l)) by by rewrite <- Hp.
  apply NoDup_cons in Hnd' as [Hni _]. rewrite Hx, elem_of_cons. clear Hx Hp Hnd. split.
  - intros Hx. split; [by right|]. by intros ->.
  - intros [[->|Hx] Hne]; done.
Qed.

Lemma moveNode_ok p cur node m n q :
  tree_ok m → heap m !! cur = Some n → cur ≠ root → t_parent n = Some q →
  is_Some (heap m !! p) → p ≠ q → (¬ ∃ k, above (heap m) cur k p) → tree_ok (moveNode p cur node m).
Proof.
  intros Hm Hc Hr Hq [pn Hp] Hpq Hna.
  assert (Hpc : p ≠ cur) by (intros ->; apply Hna; exists 0%nat; constructor).
  destruct (ok_parent m Hm cur n Hc Hr) as (q' & qn & Hq' & Hqn & Hin). assert (q' = q) as -> by congruence.
  assert (Hqc : q ≠ cur) by exact (parent_differs m cur n q Hm Hc Hq).
  destruct (moveNode_run p cur node m n pn q qn Hm Hc Hr Hq Hqn Hp Hpq Hpc) as (i & Hi & Hix & _ & _ & _ & Hh).
  set (m' := moveNode p cur node m) in *. clearbody m'.
  set (row := getInsertRow p (Nodes.n_name node) m) in *.
  (* what a node became *)
  assert (Hold : ∀ x xn, heap m !! x = Some xn → ∃ xn', heap m' !! x = Some xn' ∧ t_uuid xn' = t_uuid xn ∧
             t_parent xn' = (if decide (x = cur) then Some p else t_parent xn) ∧
             (∀ c, c ∈ t_children xn' ↔ if decide (c = cur) then x = p else c ∈ t_children xn)).
  { intros x xn Hx. rewrite Hh. destruct (decide (x = p)) as [->|Hxp].
    - assert (xn = pn) as -> by congruence. eexists. split; [done|]. split; [done|]. rewrite decide_False by done. split; [done|].
      intros c. cbn. rewrite elem_of_insertNode. destruct (decide (c = cur)); naive_solver.
    - destruct (decide (x = cur)) as [->|Hxc].
      + assert (xn = n) as -> by congruence. eexists. split; [done|]. split; [done|]. split; [done|].
        intros c. cbn. destruct (decide (c = cur)) as [->|]; [|done]. split; [|done].
        intros Hcc. destruct (ok_child m Hm cur n cur Hc Hcc) as (y & Hy & Hyp). by destruct (parent_differs m cur y cur Hm Hy Hyp).
      + destruct (decide (x = q)) as [->|Hxq].
        * assert (xn = qn) as -> by congruence. eexists. split; [done|]. split; [done|]. split; [done|].
          intros c. cbn. rewrite (taken_out_elem _ i cur) by (try done; by eapply ok_nodup). destruct (decide (c = cur)); naive_solver.
        * exists xn. split_and!; [done..|]. intros c. destruct (decide (c = cur)) as [->|]; [|done]. split; [|done].
          intros Hcc. destruct (ok_child m Hm x xn cur Hx Hcc) as (y & Hy & Hyp). congruence. }
  assert (Hinv : ∀ x xn', heap m' !! x = Some xn' → ∃ xn, heap m !! x = Some xn).
  { intros x xn'. rewrite Hh. repeat destruct (decide _); subst; eauto. }
  split.
  - destruct (ok_root m Hm) as (rn & Hrn & Hrp & Hru). destruct (Hold root rn Hrn) as (n' & Hn' & Hu' & Hp' & _).
    rewrite decide_False in Hp' by congruence. exists n'. split_and!; congruence.
  - intros x xn' c Hx Hcx. destruct (Hinv x xn' Hx) as [xn Hxn]. destruct (Hold x xn Hxn) as (y & Hy & _ & _ & Hcs).
    assert (y = xn') as -> by congruence. apply Hcs in Hcx. destruct (decide (c = cur)) as [->|Hcc].
    + subst x. destruct (Hold cur n Hc) as (n' & Hn' & _ & Hp' & _). rewrite decide_True in Hp' by done. by exists n'.
    + destruct (ok_child m Hm x xn c Hxn Hcx) as (cn & Hcn & Hcp). destruct (Hold c cn Hcn) as (cn' & Hcn' & _ & Hp' & _).
      rewrite decide_False in Hp' by done. exists cn'. split; [done|congruence].
  - intros c cn' Hcn' Hcr. destruct (Hinv c cn' Hcn') as [cn Hcn]. destruct (Hold c cn Hcn) as (y & Hy & _ & Hpar & _).
    assert (y = cn') as -> by congruence. destruct (decide (c = cur)) as [->|Hcc].
    + destruct (Hold p pn Hp) as (pn' & Hpn' & _ & _ & Hcs). exists p, pn'. split_and!; [done..|]. apply Hcs. by rewrite decide_True.
    + destruct (ok_parent m Hm c cn Hcn Hcr) as (x & xn & Hx & Hxn & Hxin). destruct (Hold x xn Hxn) as (xn' & Hxn' & _ & _ & Hcs).
      exists x, xn'. split_and!; [congruence|done|]. apply Hcs. by rewrite decide_False.
  - intros x xn' Hx. rewrite Hh in Hx. destruct (decide (x = p)) as [->|Hxp].
    { injection Hx as <-. cbn. apply NoDup_insertNode; [|by eapply ok_nodup].
      intros Hcc. destruct (ok_child m Hm p pn cur Hp Hcc) as (y & Hy & Hyp). congruence. }
    destruct (decide (x = cur)) as [->|Hxc]; [injection Hx as <-; cbn; by eapply ok_nodup|].
    destruct (decide (x = q)) as [->|Hxq]; [|by eapply ok_nodup]. injection Hx as <-. cbn.
    assert (Hnd : NoDup (cur :: delete i (t_children qn))) by (rewrite <- delete_Permutation by done; by eapply ok_nodup).
    by apply NoDup_cons in Hnd as [_ ?].
  - intros u c. rewrite Hix, (ok_index m Hm). split.
    + intros (cn & Hcn & Hcr & He). destruct (Hold c cn Hcn) as (cn' & Hcn' & Hu' & _). exists cn'. split_and!; congruence.
    + intros (cn' & Hcn' & Hcr & He). destruct (Hinv c cn' Hcn') as [cn Hcn]. destruct (Hold c cn Hcn) as (y & Hy & Hu' & _).
      exists cn. split_and!; congruence.
  - intros c cn' Hcn' Hcr. destruct (Hinv c cn' Hcn') as [cn Hcn]. destruct (Hold c cn Hcn) as (y & Hy & Hu' & _).
    assert (y = cn') as -> by congruence. rewrite Hu'. by eapply ok_uuid.
  - intros c [cn' Hcn']. destruct (Hinv c cn' Hcn') as [cn Hcn]. destruct (ok_anchored m Hm c) as [d Hd]; [by eexists|].
    assert (Hstep : ∀ x xn y, heap m !! x = Some xn → t_parent xn = Some y → x ≠ cur → ∃ xn', heap m' !! x = Some xn' ∧ t_parent xn' = Some y).
    { intros x xn y Hx Hy Hne. destruct (Hold x xn Hx) as (xn' & Hxn' & _ & Hpar & _). rewrite decide_False in Hpar by done. exists xn'. split; congruence. }
    destruct (Hold cur n Hc) as (nc & Hnc & _ & Hncp & _). rewrite decide_True in Hncp by done.
    eapply anchored_moved; [exact Hstep|exact Hnc|exact Hncp| |exact Hd].
    destruct (ok_anchored m Hm p) as [dp Hdp]; [by eexists|]. exists dp. by eapply anchored_aside.
Qed.

(** *** A node that changes *)
Lemma set_node_ok r c m : tree_ok m → tree_ok (set_heap (alter (set_node r) c) m).
Proof.
  intros Hm.
  assert (Hold : ∀ x n, heap m !! x = Some n → ∃ n', alter (set_node r) c (heap m) !! x = Some n' ∧ t_uuid n' = t_uuid n ∧
             t_parent n' = t_parent n ∧ t_children n' = t_children n).
  { intros x n Hx. destruct (decide (x = c)) as [->|]; [rewrite lookup_alter_eq, Hx|rewrite lookup_alter_ne, Hx by done]; by eexists. }
  assert (Hinv : ∀ x n', alter (set_node r) c (heap m) !! x = Some n' → ∃ n, heap m !! x = Some n ∧ t_uuid n' = t_uuid n ∧
             t_parent n' = t_parent n ∧ t_children n' = t_children n).
  { intros x n' Hx. assert (Hs : is_Some (heap m !! x)) by (by apply (lookup_alter_is_Some (set_node r) _ c); eexists).
    destruct Hs as [n Hn]. destruct (Hold x n Hn) as (y & Hy & H). assert (y = n') as -> by congruence. eauto. }
  split; cbn.
  - destruct (ok_root m Hm) as (rn & Hrn & Hp & Hu). destruct (Hold _ _ Hrn) as (n' & ? & ? & ? & _). exists n'. split_and!; congruence.
  - intros p n' x (n & Hn & _ & _ & Hcs)%Hinv. rewrite Hcs. intros Hx. destruct (ok_child m Hm p n x Hn Hx) as (cn & Hcn & Hcp).
    destruct (Hold _ _ Hcn) as (cn' & ? & _ & ? & _). exists cn'. split; congruence.
  - intros x n' (n & Hn & _ & Hpar & _)%Hinv Hxr. destruct (ok_parent m Hm x n Hn Hxr) as (p & pn & Hp & Hpn & Hin).
    destruct (Hold _ _ Hpn) as (pn' & ? & _ & _ & Hcs). exists p, pn'. split_and!; congruence.
  - intros p n' (n & Hn & _ & _ & Hcs)%Hinv. rewrite Hcs. by eapply ok_nodup.
  - intros u x. rewrite (ok_index m Hm). split.
    + intros (n & Hn & Hxr & He). destruct (Hold _ _ Hn) as (n' & ? & ? & _). exists n'. split_and!; congruence.
    + intros (n' & (n & Hn & Hu & _)%Hinv & Hxr & He). exists n. split_and!; congruence.
  - intros x n' (n & Hn & Hu & _)%Hinv Hxr. rewrite Hu. by eapply ok_uuid.
  - intros x [n' (n & Hn & _)%Hinv]. destruct (ok_anchored m Hm x) as [d Hd]; [by eexists|]. exists d.
    eapply anchored_mono; [|done]. intros y yn z Hy Hz. destruct (Hold _ _ Hy) as (y' & ? & _ & ? & _). exists y'. split; congruence.
Qed.

Lemma clear_tree_ok m : tree_ok m → tree_ok (clear_tree m) ∧ uuid_index (clear_tree m) = ∅ ∧
  ∃ r, heap m !! root = Some r ∧ heap (clear_tree m) = {[root := set_children (λ _, []) r]}.
Proof.
  intros Hm. destruct (ok_root m Hm) as (r & Hr & Hp & Hu).
  assert (Hh : heap (clear_tree m) = {[root := set_children (λ _, []) r]}) by (cbn; by rewrite Hr).
  split; [|split; [done|by exists r]]. split; rewrite ?Hh; try (cbn [uuid_index clear_tree set_index]).
  - exists (set_children (λ _, []) r). split_and!; [apply lookup_singleton_eq|done|done].
  - intros p n c [<- <-]%lookup_singleton_Some Hc. by apply elem_of_nil in Hc.
  - intros c cn [<- <-]%lookup_singleton_Some. done.
  - intros p n [<- <-]%lookup_singleton_Some. constructor.
  - intros u c. rewrite lookup_empty. split; [done|]. intros (n & [<- _]%lookup_singleton_Some & ? & _). done.
  - intros c n [<- <-]%lookup_singleton_Some. done.
  - intros c [n [<- <-]%lookup_singleton_Some]. exists 0%nat. constructor.
Qed.

Lemma new_tree_ok : tree_ok new_tree.
Proof.
  split; cbn [heap uuid_index new_tree].
  - exists empty_root. split_and!; [apply lookup_singleton_eq|done|done].
  - intros p n c [<- <-]%lookup_singleton_Some Hc. by apply elem_of_nil in Hc.
  - intros c cn [<- <-]%lookup_singleton_Some. done.
  - intros p n [<- <-]%lookup_singleton_Some. constructor.
  - intros u c. rewrite lookup_empty. split; [done|]. intros (n & [<- _]%lookup_singleton_Some & ? & _). done.
  - intros c n [<- <-]%lookup_singleton_Some. done.
  - intros c [n [<- <-]%lookup_singleton_Some]. exists 0%nat. constructor.
Qed.

(** ** What the tree holds *)

(** The rows of the nodes by their ids. *)
Definition node_rows (m : Tree) : gmap string Row := omap (λ c, t_node <$> heap m !! c) (uuid_index m).

(** Every node hangs below the one its row names. *)
Definition placed (m : Tree) : Prop :=
  ∀ c n p, heap m !! c = Some n → t_parent n = Some p → uuid_of p m = IssueReport.parent_of (t_node n).

Lemma node_rows_lookup m u : node_rows m !! u = (c ← uuid_index m !! u; t_node <$> heap m !! c).
Proof. unfold node_rows. by rewrite lookup_omap. Qed.

Lemma node_rows_Some m u r :
  tree_ok m → node_rows m !! u = Some r ↔ ∃ c n, heap m !! c = Some n ∧ c ≠ root ∧ t_uuid n = u ∧ t_node n = r.
Proof.
  intros Hm. rewrite node_rows_lookup. split.
  - destruct (uuid_index m !! u) as [c|] eqn:Hc; [|done]. cbn. apply (ok_index m Hm) in Hc as (n & Hn & Hr & Hu).
    rewrite Hn. cbn. intros [= <-]. eauto 10.
  - intros (c & n & Hn & Hr & Hu & <-). assert (Hc : uuid_index m !! u = Some c) by (apply (ok_index m Hm); eauto).
    rewrite Hc. cbn. by rewrite Hn.
Qed.

Lemma node_rows_index m u : tree_ok m → is_Some (node_rows m !! u) ↔ is_Some (uuid_index m !! u).
Proof.
  intros Hm. rewrite node_rows_lookup. split.
  - intros [r Hr]. destruct (uuid_index m !! u); [by eexists|done].
  - intros [c Hc]. rewrite Hc. cbn. apply (ok_index m Hm) in Hc as (n & -> & _). by eexists.
Qed.

Lemma uuid_of_some m c n : heap m !! c = Some n → uuid_of c m = t_uuid n.
Proof. intros H. unfold uuid_of. by rewrite H. Qed.

Lemma addNode_rows parent uuid node m :
  tree_ok m → is_Some (heap m !! parent) → uuid_index m !! uuid = None →
  node_rows (addNode parent uuid node m) = <[uuid := node]> (node_rows m).
Proof.
  intros Hm [pn Hp] Hi. destruct (heap_addNode parent uuid node m pn Hp) as (Hne & Hf & Hh).
  apply map_eq. intros u. rewrite node_rows_lookup. cbn [uuid_index addNode set_index].
  destruct (decide (u = uuid)) as [->|Hu].
  - rewrite !lookup_insert_eq. cbn [mbind option_bind]. rewrite Hh. by rewrite decide_True.
  - rewrite !lookup_insert_ne by done. rewrite node_rows_lookup. cbn [uuid_index set_heap].
    destruct (uuid_index m !! u) as [c|] eqn:Hc; [|done]. cbn [mbind option_bind]. rewrite Hh.
    apply (ok_index m Hm) in Hc as (n & Hn & _). destruct (decide (c = _)) as [->|]; [congruence|].
    destruct (decide (c = parent)) as [->|]; [|done]. by rewrite Hp.
Qed.

Lemma addNode_placed parent uuid node m :
  tree_ok m → is_Some (heap m !! parent) → uuid_of parent m = IssueReport.parent_of node → placed m →
  placed (addNode parent uuid node m).
Proof.
  intros Hm [pn Hp] Hu Hpl c n p. destruct (heap_addNode parent uuid node m pn Hp) as (Hne & Hf & Hh).
  assert (Hold : ∀ x, is_Some (heap m !! x) → uuid_of x (addNode parent uuid node m) = uuid_of x m).
  { intros x [xn Hx]. unfold uuid_of. rewrite Hh, Hx. destruct (decide (x = _)) as [->|]; [congruence|].
    destruct (decide (x = parent)) as [->|]; [|done]. assert (xn = pn) as -> by congruence. done. }
  rewrite Hh. destruct (decide (c = _)) as [->|Hcn].
  - intros [= <-]. cbn. intros [= <-]. rewrite Hold by by eexists. done.
  - assert (Hlive : ∀ xn, heap m !! c = Some xn → t_parent xn = Some p → is_Some (heap m !! p)).
    { intros xn Hx Hpx. destruct (decide (c = root)) as [->|Hr]; [by rewrite (root_of_ok m xn Hm Hx) in Hpx|].
      destruct (ok_parent m Hm c xn Hx Hr) as (q & qn & Hq & Hqn & _). assert (q = p) as <- by congruence. by eexists. }
    destruct (decide (c = parent)) as [->|Hcp].
    + intros [= <-]. cbn. intros Hq. rewrite Hold by by eapply Hlive. by apply (Hpl parent pn p).
    + intros Hn Hq. rewrite Hold by by eapply Hlive. by apply (Hpl c n p).
Qed.

Lemma set_node_rows r c n m :
  tree_ok m → heap m !! c = Some n → c ≠ root →
  node_rows (set_heap (alter (set_node r) c) m) = <[t_uuid n := r]> (node_rows m).
Proof.
  intros Hm Hc Hr. assert (Hi : uuid_index m !! t_uuid n = Some c) by (apply (ok_index m Hm); eauto).
  apply map_eq. intros u. rewrite node_rows_lookup. cbn.
  destruct (decide (u = t_uuid n)) as [->|Hu].
  - rewrite lookup_insert_eq, Hi. cbn. by rewrite lookup_alter_eq, Hc.
  - rewrite lookup_insert_ne by done. rewrite node_rows_lookup.
    destruct (uuid_index m !! u) as [x|] eqn:Hx; [|done]. cbn. rewrite lookup_alter_ne; [done|]. intros <-.
    apply (ok_index m Hm) in Hx as (xn & Hxn & _ & Hxu). congruence.
Qed.

Lemma set_node_placed r c n p m :
  tree_ok m → heap m !! c = Some n → t_parent n = Some p → uuid_of p m = IssueReport.parent_of r → placed m →
  placed (set_heap (alter (set_node r) c) m).
Proof.
  intros Hm Hc Hp Hu Hpl x xn q. cbn.
  assert (Hold : ∀ y, uuid_of y (set_heap (alter (set_node r) c) m) = uuid_of y m).
  { intros y. unfold uuid_of. cbn. destruct (decide (y = c)) as [->|]; [by rewrite lookup_alter_eq, Hc|by rewrite lookup_alter_ne]. }
  rewrite Hold. destruct (decide (x = c)) as [->|Hx].
  - rewrite lookup_alter_eq, Hc. cbn. intros [= <-]. cbn. rewrite Hp. intros [= <-]. done.
  - rewrite lookup_alter_ne by done. apply Hpl.
Qed.

Lemma moveNode_rows p cur node m n q :
  tree_ok m → heap m !! cur = Some n → cur ≠ root → t_parent n = Some q → is_Some (heap m !! p) → p ≠ q → p ≠ cur →
  uuid_of p m = IssueReport.parent_of node → placed m →
  node_rows (moveNode p cur node m) = <[t_uuid n := node]> (node_rows m) ∧ placed (moveNode p cur node m).
Proof.
  intros Hm Hc Hr Hq [pn Hp] Hpq Hpc Hu Hpl.
  destruct (ok_parent m Hm cur n Hc Hr) as (q' & qn & Hq' & Hqn & Hin). assert (q' = q) as -> by congruence.
  destruct (moveNode_run p cur node m n pn q qn Hm Hc Hr Hq Hqn Hp Hpq Hpc) as (i & Hi & Hix & _ & _ & _ & Hh).
  assert (Hi' : uuid_index m !! t_uuid n = Some cur) by (apply (ok_index m Hm); eauto).
  assert (Hold : ∀ y, uuid_of y (moveNode p cur node m) = uuid_of y m).
  { intros y. unfold uuid_of. rewrite Hh. destruct (decide (y = p)) as [->|]; [by rewrite Hp|].
    destruct (decide (y = cur)) as [->|]; [by rewrite Hc|]. destruct (decide (y = q)) as [->|]; [by rewrite Hqn|done]. }
  split.
  - apply map_eq. intros u. rewrite node_rows_lookup, Hix. destruct (decide (u = t_uuid n)) as [->|Hne].
    + rewrite lookup_insert_eq, Hi'. cbn [mbind option_bind]. rewrite Hh, decide_False, decide_True by done. done.
    + rewrite lookup_insert_ne by done. rewrite node_rows_lookup. destruct (uuid_index m !! u) as [x|] eqn:Hx; [|done].
      cbn [mbind option_bind]. assert (x ≠ cur).
      { intros ->. apply (ok_index m Hm) in Hx as (y & Hy & _ & Hyu). congruence. }
      rewrite Hh. destruct (decide (x = p)) as [->|]; [by rewrite Hp|]. rewrite decide_False by done.
      destruct (decide (x = q)) as [->|]; [by rewrite Hqn|done].
  - intros x xn y. rewrite Hold, Hh. destruct (decide (x = p)) as [->|].
    { intros [= <-] Hy. exact (Hpl p pn y Hp Hy). }
    destruct (decide (x = cur)) as [->|]; [intros [= <-]; cbn; by intros [= <-]|].
    destruct (decide (x = q)) as [->|]; [intros [= <-] Hy; exact (Hpl q qn y Hqn Hy)|apply Hpl].
Qed.

(** ** Loading *)

(** What [addNode] leaves as it is. *)
Definition same_rest (m m' : Tree) : Prop :=
  selected m' = selected m ∧ repairs m' = repairs m ∧ broken m' = broken m.

Definition waiting (l : list (string * Row)) (m : Tree) : Prop :=
  NoDup l.*1 ∧ ∀ u r, (u, r) ∈ l → u ≠ "" ∧ uuid_index m !! u = None.

Definition stuck (l : list (string * Row)) (m : Tree) : Prop :=
  ∀ u r, (u, r) ∈ l → lookupTreeNode (IssueReport.parent_of r) m = None.

Record loads (l l' : list (string * Row)) (m m' : Tree) : Prop := {
  lo_ok : tree_ok m';
  lo_placed : placed m';
  lo_waiting : waiting l' m';
  lo_rows u r : node_rows m' !! u = Some r ↔ node_rows m !! u = Some r ∨ (u, r) ∈ l ∧ (u, r) ∉ l';
  lo_sub u r : (u, r) ∈ l' → (u, r) ∈ l;
  lo_rest : same_rest m m'
}.

#[local] Instance Row_eq_dec : EqDecision Row.
Proof using. clear. solve_decision. Defined.

Lemma loads_trans l1 l2 l3 m1 m2 m3 : loads l1 l2 m1 m2 → loads l2 l3 m2 m3 → loads l1 l3 m1 m3.
Proof.
  intros [A1 B1 C1 D1 E1 F1] [A2 B2 C2 D2 E2 F2]. split; try done.
  - intros u r. rewrite D2, D1. split.
    + intros [[H|[H1 H2]]|[H1 H2]]; [by left|right; split; [done|]; auto|right; auto].
    + intros [H|[H1 H2]]; [by left; left|]. destruct (decide ((u, r) ∈ l2)); [by right|left; by right].
  - auto.
  - destruct F1 as (?&?&?), F2 as (?&?&?). split_and!; congruence.
Qed.

Lemma load_round_loads l : ∀ m l' prog m',
  tree_ok m → placed m → waiting l m → load_round l m = (l', prog, m') →
  loads l l' m m' ∧ (length l' ≤ length l)%nat ∧
  (if prog : bool then (length l' < length l)%nat else l' = l ∧ m' = m ∧ stuck l m).
Proof.
  induction l as [|[u r] l IH]; intros m l' prog m' Hm Hpl [Hnd Hw]; cbn [load_round].
  - intros [= <- <- <-]. split_and!; [|done..|by intros ? ? ?%elem_of_nil].
    split; [done..| |naive_solver|by split_and!]. intros u r. rewrite elem_of_nil. naive_solver.
  - cbn in Hnd. apply NoDup_cons in Hnd as [Hni Hnd]. destruct (Hw u r) as [Hu Hi]; [by left|].
    destruct (lookupTreeNode (IssueReport.parent_of r) m) as [p|] eqn:Hl.
    + destruct (load_round l (addNode p u r m)) as [[rem prog'] m1] eqn:Hr. intros [= <- <- <-].
      destruct (lookup_node m _ _ Hm Hl) as (pn & Hpn & Hpu).
      assert (Hlive : is_Some (heap m !! p)) by by eexists.
      assert (Hadd : node_rows (addNode p u r m) = <[u := r]> (node_rows m)) by by apply addNode_rows.
      destruct (IH (addNode p u r m) rem prog' m1) as (Hlo & Hlen & _).
      * by apply addNode_ok.
      * apply addNode_placed; try done. by rewrite (uuid_of_some m p pn Hpn).
      * split; [done|]. intros v s Hv. destruct (Hw v s) as [Hv0 Hvi]; [by right|]. split; [done|].
        cbn. rewrite lookup_insert_ne; [done|]. intros <-. apply Hni. apply list_elem_of_fmap. by exists (u, s).
      * done.
      * split_and!; [|cbn; lia|cbn; lia]. destruct Hlo as [A B C D E F]. split; try done.
        -- intros v s. rewrite D, Hadd, lookup_insert_Some, elem_of_cons. split.
           ++ intros [[[<- <-]|[_ H]]|[H1 H2]]; [|by left|by right; auto]. right. split; [by left|].
              intros Hin. apply E in Hin. apply Hni, list_elem_of_fmap. by exists (u, r).
           ++ intros [H|[[[= -> ->]|H1] H2]]; [|by left; left|by right]. left. right. split; [|done].
              intros <-. rewrite node_rows_lookup, Hi in H. done.
        -- intros v s H. right. by apply E.
    + destruct (load_round l m) as [[rem prog'] m1] eqn:Hr. intros [= <- <- <-].
      destruct (IH m rem prog' m1 Hm Hpl) as (Hlo & Hlen & Hprog); [split; [done|]; intros v s Hv; apply (Hw v s); by right|done|].
      destruct Hlo as [A B C D E F].
      assert (Hur : (u, r) ∉ rem).
      { intros Hin. apply E in Hin. apply Hni, list_elem_of_fmap. by exists (u, r). }
      assert (Hui : uuid_index m1 !! u = None).
      { apply eq_None_not_Some. rewrite <- (node_rows_index m1 u A). intros [s Hs]. apply D in Hs as [Hs|[Hs _]].
        - rewrite node_rows_lookup, Hi in Hs. done.
        - apply Hni, list_elem_of_fmap. by exists (u, s). }
      split_and!; [|cbn; lia|].
      * split; try done.
        -- destruct C as [C1 C2]. split; [cbn; apply NoDup_cons; split; [|done]|].
           ++ intros ([v s] & Hv & Hin)%list_elem_of_fmap. apply E in Hin. cbn in Hv. subst v. apply Hni, list_elem_of_fmap. by exists (u, s).
           ++ intros v s [[= -> ->]|Hv]%elem_of_cons; [done|by eapply C2].
        -- intros v s. rewrite D, !elem_of_cons. split.
           ++ intros [H|[H1 H2]]; [by left|]. right. split; [by right|]. intros [[= -> ->]|H]; [|done].
              apply Hni, list_elem_of_fmap. by exists (u, r).
           ++ intros [H|[[[= -> ->]|H1] H2]]; [by left| |right; split; [done|]; tauto]. exfalso. tauto.
        -- intros v s. rewrite !elem_of_cons. intros [H|H]; [by left|right; by apply E].
      * destruct prog'; [cbn; lia|]. destruct Hprog as (-> & -> & Hst). split_and!; [done..|].
        intros v s [[= -> ->]|Hv]%elem_of_cons; [done|by eapply Hst].
Qed.

Lemma load_loop_loads fuel : ∀ l m l' m',
  (length l < fuel)%nat → tree_ok m → placed m → waiting l m → load_loop fuel l m = (l', m') →
  loads l l' m m' ∧ stuck l' m'.
Proof.
  induction fuel as [|fuel IH]; intros l m l' m' Hf Hm Hpl Hw; [lia|]. cbn [load_loop].
  destruct (load_round l m) as [[rem prog] m1] eqn:Hr.
  destruct (load_round_loads l m rem prog m1 Hm Hpl Hw Hr) as (Hlo & Hlen & Hp).
  destruct prog; cbn [andb].
  - case_bool_decide as He; cbn [negb].
    + intros [= <- <-]. split; [done|]. subst rem. by intros ? ? ?%elem_of_nil.
    + intros Hl. destruct (IH rem m1 l' m') as [Hlo2 Hst]; [lia|apply Hlo..|done|].
      split; [by eapply loads_trans|done].
  - intros [= <- <-]. split; [done|]. destruct Hp as (-> & -> & ?). done.
Qed.

(** The chain of parents of a row ends. *)
Inductive hangs (t : gmap string Row) : nat → string → Prop :=
| hangs_top u r : t !! u = Some r → IssueReport.parent_of r = "" → hangs t 0 u
| hangs_child d u r : t !! u = Some r → hangs t d (IssueReport.parent_of r) → hangs t (S d) u.

Lemma query_rows_perm d : query_rows d ≡ₚ map_to_list (rows d).
Proof. apply merge_sort_Permutation. Qed.

Lemma elem_of_query_rows d u r : (u, r) ∈ query_rows d ↔ rows d !! u = Some r.
Proof. by rewrite query_rows_perm, elem_of_map_to_list. Qed.

Lemma query_rows_waiting d m : rows d !! "" = None → uuid_index m = ∅ → waiting (query_rows d) m.
Proof.
  intros He Hi. split; [rewrite query_rows_perm; apply NoDup_fst_map_to_list|].
  intros u r Hu%elem_of_query_rows. split; [intros ->; congruence|]. by rewrite Hi, lookup_empty.
Qed.

Lemma node_rows_empty m : uuid_index m = ∅ → node_rows m = ∅.
Proof. intros Hi. apply map_eq. intros u. by rewrite node_rows_lookup, Hi, !lookup_empty. Qed.

Lemma validate_shrinks d ok d' : validateStoredNodes d = (ok, d') → rows d' ⊆ rows d.
Proof.
  unfold validateStoredNodes, statement. destruct (answers d) as [|[] l]; intros [= <- <-]; cbn [rows tables]; [| |done];
    unfold rows; cbn [tables]; apply (IssueReport.validateStoredNodes_run sha256 (tables d)).
Qed.

(** Every node of a loaded tree has its row, and the chain of its parents
    ends. *)
Lemma anchored_hangs m d c n :
  tree_ok m → placed m → anchored (heap m) d c → heap m !! c = Some n → c ≠ root → ∃ d', hangs (node_rows m) d' (t_uuid n).
Proof.
  intros Hm Hpl Hd. revert n. induction Hd as [|d c n' q Hn' Hq Hd IH]; intros n Hc Hr; [done|].
  assert (n' = n) as -> by congruence.
  assert (Hrow : node_rows m !! t_uuid n = Some (t_node n)) by (apply (node_rows_Some m _ _ Hm); eauto 10).
  pose proof (Hpl c n q Hc Hq) as Hu. destruct (anchored_live m d q Hm Hd) as [qn Hqn]. rewrite (uuid_of_some m q qn Hqn) in Hu.
  destruct (decide (q = root)) as [->|Hqr].
  - exists 0%nat. eapply hangs_top; [done|]. destruct (ok_root m Hm) as (rn & Hrn & _ & Hru). congruence.
  - destruct (IH qn Hqn Hqr) as [d' Hd']. exists (S d'). eapply hangs_child; [done|]. by rewrite <- Hu.
Qed.

Record load_result (d : ClientDb) (m : Tree) (ok : bool) (d' : ClientDb) (m' : Tree) : Prop := {
  lr_ok : tree_ok m';
  lr_placed : placed m';
  lr_rest : same_rest m m';
  lr_shrinks : rows d' ⊆ rows d;
  lr_loaded : ok = true → node_rows m' = rows d' ∧ ∀ u, is_Some (rows d' !! u) → ∃ k, hangs (rows d') k u;
  lr_failed : ok = false → answers d = [] → ∃ u, is_Some (rows d' !! u) ∧ ¬ ∃ k, hangs (rows d') k u
}.

Lemma load_tree_spec d m ok d' m' :
  tree_ok m → placed m → uuid_index m = ∅ → rows d !! "" = None → load_tree d m = (ok, (d', m')) → load_result d m ok d' m'.
Proof.
  intros Hm Hpl Hi He. unfold load_tree. destruct (validateStoredNodes d) as [ok1 d1] eqn:Hv.
  pose proof (validate_shrinks _ _ _ Hv) as Hsh.
  assert (Hbad : ok1 = false → answers d ≠ []) by (intros ->; revert Hv; unfold validateStoredNodes, statement; by destruct (answers d) as [|[]]).
  assert (Ha : answers d = [] → answers d1 = []) by (intros Ha; revert Hv; unfold validateStoredNodes, statement; rewrite Ha; by intros [= _ <-]).
  destruct ok1; cbn [negb].
  2:{ intros [= <- <- <-]. split; try done. intros _ Hn. by destruct (Hbad eq_refl). }
  destruct (statement d1) as [ok2 d2] eqn:Hs.
  assert (H2 : rows d2 = rows d1 ∧ cursor d2 = cursor d1 ∧ (ok2 = false → answers d1 ≠ [])).
  { revert Hs. unfold statement, rows. destruct (answers d1) as [|[]] eqn:?; intros [= <- <-]; done. }
  destruct H2 as (Hr2 & _ & Hbad2). destruct ok2; cbn [negb].
  2:{ intros [= <- <- <-]. split; try done; [by rewrite Hr2|]. intros _ Hn. by destruct (Hbad2 eq_refl (Ha Hn)). }
  assert (He2 : rows d2 !! "" = None) by (rewrite Hr2; by eapply lookup_weaken_None).
  cbv zeta. destruct (load_loop (S (length (query_rows d2))) (query_rows d2) m) as [rem m1] eqn:Hl. intros [= <- <- <-].
  destruct (load_loop_loads _ _ _ _ _ (Nat.lt_succ_diag_r _) Hm Hpl (query_rows_waiting d2 m He2 Hi) Hl) as [Hlo Hst].
  destruct Hlo as [A B C D E F].
  assert (Hrows : ∀ u r, node_rows m1 !! u = Some r ↔ rows d2 !! u = Some r ∧ (u, r) ∉ rem).
  { intros u r. rewrite D, (node_rows_empty m Hi), lookup_empty, elem_of_query_rows. naive_solver. }
  split; try done; [by rewrite Hr2| |].
  - intros Hrem%bool_decide_eq_true. subst rem.
    assert (Heq : node_rows m1 = rows d2).
    { apply map_eq. intros u. apply option_eq. intros r. rewrite Hrows. split; [by intros [? _]|]. intros H. split; [done|by intros ?%elem_of_nil]. }
    split; [done|]. intros u [r Hr]. rewrite <- Heq in Hr |- *. apply (node_rows_Some m1 _ _ A) in Hr as (c & n & Hc & Hcr & <- & _).
    destruct (ok_anchored m1 A c) as [k Hk]; [by eexists|]. by eapply anchored_hangs.
  - intros Hrem%bool_decide_eq_false _. destruct rem as [|[u r] rem]; [done|].
    assert (Hur : rows d2 !! u = Some r) by (apply elem_of_query_rows, E; by left).
    exists u. split; [by eexists|]. intros [k Hk].
    assert (Hin : ∀ k v, hangs (rows d2) k v → is_Some (uuid_index m1 !! v)).
    { clear Hur Hk k Hrem. intros k v Hk. apply (node_rows_index m1 v A).
      induction Hk as [v s Hvs Hp|k v s Hvs Hk IH]; (destruct (decide ((v, s) ∈ (u, r) :: rem)) as [Hin|Hni]; [|exists s; by apply Hrows]).
      - pose proof (Hst v s Hin) as Hno. unfold lookupTreeNode in Hno. by rewrite bool_decide_true in Hno.
      - pose proof (Hst v s Hin) as Hno. unfold lookupTreeNode in Hno. case_bool_decide; [done|].
        apply (node_rows_index m1 _ A) in IH as [c Hc]. congruence. }
    destruct (Hin k u Hk) as [c Hc]. destruct C as [_ C]. destruct (C u r) as [_ Hno]; [by left|]. congruence.
Qed.

(** ** Updates *)

(** The tree is a tree and shows the rows of the table, every node below the
    one its row names. *)
Record mirrors (c : Cache) : Prop := {
  mi_ok : tree_ok (mem c);
  mi_placed : placed (mem c);
  mi_rows : node_rows (mem c) = rows (db c);
  mi_key : rows (db c) !! "" = None
}.

(** What a load of the tree may leave behind. *)
Record reloaded (c : Cache) (ok : bool) (c' : Cache) : Prop := {
  rl_ok : tree_ok (mem c');
  rl_placed : placed (mem c');
  rl_key : rows (db c') !! "" = None;
  rl_pending : pending_updates_ c' = [];
  rl_state : if ok then state c' = VALID else state c' = LOADING;
  rl_rest : same_rest (mem c) (mem c');
  rl_shrinks : rows (db c') ⊆ rows (db c);
  rl_mirrors : ok = true → mirrors c' ∧ ∀ u, is_Some (rows (db c') !! u) → ∃ k, hangs (rows (db c')) k u;
  rl_failed : ok = false → answers (db c) = [] → ∃ u, is_Some (rows (db c') !! u) ∧ ¬ ∃ k, hangs (rows (db c')) k u
}.

Lemma same_rest_clear m : same_rest m (clear_tree m).
Proof. done. Qed.

Lemma clear_tree_placed m : tree_ok m → placed (clear_tree m).
Proof.
  intros Hm. destruct (clear_tree_ok m Hm) as (Hc & _ & r & Hr & Hh). intros c n p Hn Hp. rewrite Hh in Hn.
  apply lookup_singleton_Some in Hn as [<- <-]. cbn in Hp. by rewrite (root_of_ok m r Hm Hr) in Hp.
Qed.

(** Loading the tree when no update waits. *)
Lemma reload_spec process c ok c' :
  tree_ok (mem c) → rows (db c) !! "" = None → pending_updates_ c = [] → loadLocally process 1 true c = (ok, c') → reloaded c ok c'.
Proof.
  intros Hm He Hp. unfold loadLocally. cbn [db mem setState set_mem loadFromCache MainTreeModel_ops clear].
  destruct (clear_tree_ok (mem c) Hm) as (Hcl & Hi & _).
  destruct (load_tree (db c) (clear_tree (mem c))) as [ok1 [d m]] eqn:Hl.
  pose proof (load_tree_spec _ _ _ _ _ Hcl (clear_tree_placed _ Hm) Hi He Hl) as [A B C D E F].
  assert (Hk : rows d !! "" = None) by by eapply lookup_weaken_None.
  destruct ok1; cbn [negb].
  - cbn [apply_rounds pending_updates_ setState set_db set_mem]. rewrite Hp. cbn.
    intros [= <- <-]. destruct (E eq_refl) as [E1 E2]. by split.
  - intros [= <- <-]. split; try done.
Qed.

Section updates.
(** What [doLoadLocally] does when it is called from [pocessUpdate]. *)
Context (R : Cache → bool * Cache).
Context (R_spec : ∀ c ok c', tree_ok (mem c) → rows (db c) !! "" = None → pending_updates_ c = [] → R c = (ok, c') → reloaded c ok c').

Lemma save_to_spec n c ok c' :
  save_to n c = (ok, c') →
  mem c' = mem c ∧ pending_updates_ c' = pending_updates_ c ∧ state c' = state c ∧
  rows (db c') = if ok : bool then rows (save_row n (db c)) else rows (db c).
Proof.
  unfold save_to, save_node, statement.
  assert (Hrow : ∀ d a, rows (save_row n {| tables := tables d; cursor := cursor d; answers := a |}) = rows (save_row n d)).
  { intros d a. unfold save_row, insert_query. destruct (nd_deleted n); [done|].
    change (newer n {| tables := tables d; cursor := cursor d; answers := a |}) with (newer n d). by destruct (newer n d). }
  destruct (answers (db c)) as [|[] l]; intros [= <- <-]; cbn; split_and!; try done; by rewrite <- Hrow.
Qed.

Lemma save_row_rows n d :
  nd_deleted n = false → newer n d = true → rows (save_row n d) = <[nd_uuid n := nd_row n]> (rows d).
Proof. intros Hd Hn. unfold save_row, insert_query. by rewrite Hd, Hn. Qed.

Lemma save_row_key n d : nd_uuid n ≠ "" → rows d !! "" = None → rows (save_row n d) !! "" = None.
Proof.
  intros Hu He. unfold save_row, insert_query. destruct (nd_deleted n).
  - unfold rows. cbn. by apply lookup_delete_None; right.
  - destruct (newer n d); [|done]. unfold rows. cbn. by rewrite lookup_insert_ne.
Qed.

(** An update the server sends in its order: it is newer than the row, only
    a deletion carries the flag, an update leaves the parent, a move does
    not lead below the node itself, and the parent of a node that is deleted
    is known. *)
Record in_order (u : Update) (node : Node) (c : Cache) : Prop := {
  io_newer : newer node (db c) = true;
  io_deleted : up_op u ≠ DELETED → nd_deleted node = false;
  io_updated : up_op u = UPDATED → ∀ old, rows (db c) !! nd_uuid node = Some old → IssueReport.parent_of old = nd_parent node;
  io_moved : up_op u = MOVED → ¬ ∃ k, Nodes.below (λ _, true) (rows (db c)) k (nd_uuid node) (nd_parent node);
  io_known : up_op u = DELETED → is_Some (lookupTreeNode (nd_parent node) (mem c))
}.

Lemma above_below m a an k p pn :
  tree_ok m → placed m → above (heap m) a k p → a ≠ root → heap m !! a = Some an → heap m !! p = Some pn →
  Nodes.below (λ _, true) (node_rows m) k (t_uuid an) (t_uuid pn).
Proof.
  intros Hm Hpl Hab Hr Ha. revert pn. induction Hab as [|k p n q Hn Hq Hab IH]; intros pn Hp.
  - assert (pn = an) as -> by congruence. constructor.
  - assert (n = pn) as -> by congruence.
    assert (Hpr : p ≠ root) by (intros ->; by rewrite (root_of_ok m pn Hm Hp) in Hq).
    destruct (ok_parent m Hm p pn Hp Hpr) as (q' & qn & Hq' & Hqn & _). assert (q' = q) as -> by congruence.
    assert (Hqr : q ≠ root).
    { intros ->. inversion Hab as [|? ? ? ? Hrn Hrp]; subst; [done|]. by rewrite (root_of_ok m _ Hm Hrn) in Hrp. }
    pose proof (Hpl p pn q Hp Hq) as Hu. rewrite (uuid_of_some m q qn Hqn) in Hu.
    assert (Hne : t_uuid qn ≠ "") by by eapply ok_uuid.
    eapply (Nodes.below_child _ _ k (t_uuid an) (t_uuid pn) (t_node pn) (t_uuid qn)); [|done| |by apply IH].
    + apply (node_rows_Some m _ _ Hm). eauto 10.
    + unfold IssueReport.parent_of in Hu. destruct (Nodes.n_parent (t_node pn)); cbn in Hu; congruence.
Qed.

Lemma resync_true r : resyncOnFailure r = (true, r.2) ↔ r.1 = true.
Proof. unfold resyncOnFailure. destruct r as [[] c]; cbn; [done|]. split; [by intros [= H]|done]. Qed.

Lemma resync_ok r c' : resyncOnFailure r = (true, c') → r = (true, c').
Proof. unfold resyncOnFailure. destruct r as [[] c]; cbn; congruence. Qed.

Lemma and_then_ok a b c c' : and_then a b c = (true, c') → ∃ c1, a c = (true, c1) ∧ b c1 = (true, c').
Proof. unfold and_then. destruct (a c) as [[] c1]; [|done]. eauto. Qed.

(** Saving and loading again. *)
Lemma save_reload_mirrors n c c' :
  tree_ok (mem c) → rows (db c) !! "" = None → pending_updates_ c = [] → nd_uuid n ≠ "" →
  and_then (save_to n) R c = (true, c') → mirrors c'.
Proof.
  intros Hm He Hp Hu (c1 & Hs & Hr)%and_then_ok. destruct (save_to_spec n c true c1 Hs) as (H1 & H2 & H3 & H4).
  destruct (R_spec c1 true c') as [_ _ _ _ _ _ _ Hmi _]; [by rewrite H1| |by rewrite H2|done|by apply Hmi].
  rewrite H4. by apply save_row_key.
Qed.

Lemma current_is_row c node p :
  mirrors c → nd_uuid node ≠ "" → lookupTreeNode (nd_uuid node) (mem c) = Some p →
  ∃ n, heap (mem c) !! p = Some n ∧ p ≠ root ∧ t_uuid n = nd_uuid node ∧ rows (db c) !! nd_uuid node = Some (t_node n).
Proof.
  intros Hc Hu Hl. destruct (lookup_nonempty _ _ _ (mi_ok c Hc) Hu Hl) as [Hr _].
  destruct (lookup_node _ _ _ (mi_ok c Hc) Hl) as (n & Hn & Hnu). exists n. split_and!; try done.
  rewrite <- (mi_rows c Hc). apply (node_rows_Some _ _ _ (mi_ok c Hc)). eauto 10.
Qed.

Lemma added_mirrors u node c c' :
  mirrors c → pending_updates_ c = [] → nd_uuid node ≠ "" → in_order u node c → up_op u ≠ DELETED →
  process_added R node (lookupTreeNode (nd_parent node) (mem c)) (lookupTreeNode (nd_uuid node) (mem c)) c = (true, c') → mirrors c'.
Proof.
  intros Hc Hp Hu Ho Hop H%resync_ok. destruct (lookupTreeNode (nd_uuid node) (mem c)) as [cur|] eqn:Hcur.
  { eapply save_reload_mirrors; [apply Hc|apply Hc|done..]. }
  destruct (lookupTreeNode (nd_parent node) (mem c)) as [par|] eqn:Hpar.
  2:{ eapply save_reload_mirrors; [apply Hc|apply Hc|done..]. }
  apply and_then_ok in H as (c1 & Hs & [= <-]). destruct (save_to_spec node c true c1 Hs) as (H1 & H2 & H3 & H4).
  rewrite save_row_rows in H4; [|by apply (io_deleted u node c Ho)|apply (io_newer u node c Ho)].
  destruct (lookup_node _ _ _ (mi_ok c Hc) Hpar) as (pn & Hpn & Hpu).
  assert (Hlive : is_Some (heap (mem c) !! par)) by by eexists.
  assert (Hi : uuid_index (mem c) !! nd_uuid node = None) by (unfold lookupTreeNode in Hcur; by rewrite bool_decide_false in Hcur).
  unfold on_tree. rewrite H1. split; cbn [mem db set_mem].
  - apply addNode_ok; [apply Hc|done..].
  - apply addNode_placed; [apply Hc|done| |apply Hc]. by rewrite (uuid_of_some _ par pn Hpn).
  - rewrite addNode_rows by (try done; apply Hc). by rewrite H4, (mi_rows c Hc).
  - rewrite H4. rewrite lookup_insert_ne by done. apply Hc.
Qed.

Lemma set_node_mirrors p n node c c1 :
  mirrors c → heap (mem c) !! p = Some n → p ≠ root → t_uuid n = nd_uuid node → nd_uuid node ≠ "" →
  IssueReport.parent_of (t_node n) = nd_parent node →
  mem c1 = set_heap (alter (set_node (nd_row node)) p) (mem c) → rows (db c1) = <[nd_uuid node := nd_row node]> (rows (db c)) → mirrors c1.
Proof.
  intros Hc Hn Hr Hu Hne Hpar H1 H2. destruct (ok_parent _ (mi_ok c Hc) p n Hn Hr) as (q & qn & Hq & Hqn & _).
  split; rewrite ?H1, ?H2.
  - apply set_node_ok, Hc.
  - eapply set_node_placed; [apply Hc|done|done| |apply Hc]. rewrite (mi_placed c Hc p n q Hn Hq). done.
  - rewrite (set_node_rows _ p n) by (try done; apply Hc). by rewrite Hu, (mi_rows c Hc).
  - rewrite lookup_insert_ne by done. apply Hc.
Qed.

Lemma updated_mirrors u node c c' :
  mirrors c → pending_updates_ c = [] → nd_uuid node ≠ "" → in_order u node c → up_op u = UPDATED →
  process_updated R node (lookupTreeNode (nd_uuid node) (mem c)) c = (true, c') → mirrors c'.
Proof.
  intros Hc Hp Hu Ho Hop H%resync_ok. destruct (lookupTreeNode (nd_uuid node) (mem c)) as [cur|] eqn:Hcur.
  2:{ eapply save_reload_mirrors; [apply Hc|apply Hc|done..]. }
  destruct (current_is_row c node cur Hc Hu Hcur) as (n & Hn & Hr & Hnu & Hrow).
  destruct (save_to_spec node _ true c' H) as (H1 & H2 & H3 & H4).
  cbn [db on_tree set_mem mem] in H1, H4. rewrite save_row_rows in H4; [|apply (io_deleted u node c Ho); congruence|apply (io_newer u node c Ho)].
  eapply (set_node_mirrors cur n node c c'); try done. by apply (io_updated u node c Ho).
Qed.

Lemma moved_mirrors u node c c' :
  mirrors c → pending_updates_ c = [] → nd_uuid node ≠ "" → in_order u node c → up_op u = MOVED →
  process_moved R node (lookupTreeNode (nd_parent node) (mem c)) (lookupTreeNode (nd_uuid node) (mem c)) c = (true, c') → mirrors c'.
Proof.
  intros Hc Hp Hu Ho Hop. unfold process_moved. destruct (lookupTreeNode (nd_uuid node) (mem c)) as [cur|] eqn:Hcur.
  2:{ rewrite <- Hcur. eapply added_mirrors; try done. congruence. }
  intros H%resync_ok. destruct (lookupTreeNode (nd_parent node) (mem c)) as [par|] eqn:Hpar.
  2:{ eapply save_reload_mirrors; [apply Hc|apply Hc|done..]. }
  apply and_then_ok in H as (c1 & Hs & [= <-]). destruct (save_to_spec node c true c1 Hs) as (H1 & H2 & H3 & H4).
  rewrite save_row_rows in H4; [|apply (io_deleted u node c Ho); congruence|apply (io_newer u node c Ho)].
  destruct (current_is_row c node cur Hc Hu Hcur) as (n & Hn & Hr & Hnu & Hrow).
  destruct (lookup_node _ _ _ (mi_ok c Hc) Hpar) as (pn & Hpn & Hpu).
  destruct (ok_parent _ (mi_ok c Hc) cur n Hn Hr) as (q & qn & Hq & Hqn & _).
  assert (Hpp : parent_ptr cur (mem c1) = Some q) by (unfold parent_ptr; rewrite H1, Hn; done).
  rewrite Hpp. destruct (decide (q = par)) as [->|Hne].
  - rewrite bool_decide_true by done. eapply (set_node_mirrors cur n node c); try done.
    + rewrite <- Hpu, <- (uuid_of_some _ par pn Hpn). symmetry. by apply (mi_placed c Hc cur n par).
    + cbn. by rewrite H1.
  - rewrite bool_decide_false by congruence. unfold on_tree. rewrite H1.
    assert (Hna : ¬ ∃ k, above (heap (mem c)) cur k par).
    { intros [k Hk]. apply (io_moved u node c Ho Hop). exists k. rewrite <- (mi_rows c Hc), <- Hnu, <- Hpu.
      by eapply above_below; [apply Hc|apply Hc|..]. }
    assert (Hpc : par ≠ cur) by (intros ->; apply Hna; exists 0%nat; constructor).
    destruct (moveNode_rows par cur (nd_row node) (mem c) n q) as [Hrows Hplaced];
      [apply Hc|done|done|done|by eexists|done|done|by rewrite (uuid_of_some _ par pn Hpn)|apply Hc|].
    split; cbn [mem db set_mem].
    + eapply moveNode_ok; [apply Hc|done|done|done|by eexists|done|done].
    + done.
    + by rewrite Hrows, H4, Hnu, (mi_rows c Hc).
    + rewrite H4, lookup_insert_ne by done. apply Hc.
Qed.

Lemma clear_selection_heap cur m : heap (clear_selection cur m) = heap m ∧ uuid_index (clear_selection cur m) = uuid_index m.
Proof. unfold clear_selection. destruct cur; [|done]. destruct (lookupTreeNode _ _); [|done]. by destruct (_ || _). Qed.

Lemma tree_ok_ext m m' : heap m' = heap m → uuid_index m' = uuid_index m → tree_ok m → tree_ok m'.
Proof. intros Hh Hi [A B C D E F G]. split; rewrite ?Hh, ?Hi; done. Qed.

Lemma pocess_mirrors u c c' :
  mirrors c → pending_updates_ c = [] → (∀ node, up_node u = Some node → in_order u node c) →
  pocessUpdate_with R u c = (true, c') → mirrors c'.
Proof.
  intros Hc Hp Ho. unfold pocessUpdate_with. destruct (up_node u) as [node|] eqn:Hn; [|done].
  specialize (Ho node eq_refl). case_bool_decide as Hu; [done|]. cbv zeta.
  destruct (_ && _); [by intros [= <-]|]. destruct (up_op u) eqn:Hop; intros H.
  - eapply added_mirrors; try done. congruence.
  - by eapply updated_mirrors.
  - by eapply moved_mirrors.
  - unfold process_deleted in H. case_bool_decide; [done|]. destruct (_ && _); [done|]. apply resync_ok in H.
    destruct (clear_selection_heap (lookupTreeNode (nd_uuid node) (mem c)) (mem c)) as [Hh Hi].
    refine (save_reload_mirrors node _ c' _ _ _ _ H); [|apply Hc|done|done]. cbn. by eapply tree_ok_ext, Hc.
Qed.

End updates.

(** *** What an update leaves as it was *)
Lemma reload_pending process c : pending_updates_ c = [] → pending_updates_ (loadLocally process 1 true c).2 = [].
Proof.
  intros Hp. unfold loadLocally. cbn [db mem setState set_mem]. destruct (loadFromCache _ _) as [[] [d m]]; cbn [negb]; [|done].
  cbn [apply_rounds pending_updates_ setState set_db set_mem]. rewrite Hp. done.
Qed.

Lemma and_then_pending a b c :
  (∀ x, pending_updates_ x = [] → pending_updates_ (a x).2 = []) → (∀ x, pending_updates_ x = [] → pending_updates_ (b x).2 = []) →
  pending_updates_ c = [] → pending_updates_ (and_then a b c).2 = [].
Proof. intros Ha Hb Hc. unfold and_then. specialize (Ha c Hc). destruct (a c) as [[] x]; [by apply Hb|done]. Qed.

Lemma resync_pending r : pending_updates_ r.2 = [] → pending_updates_ (resyncOnFailure r).2 = [].
Proof. unfold resyncOnFailure. by destruct r as [[] c]. Qed.

Lemma save_to_pending n c : pending_updates_ c = [] → pending_updates_ (save_to n c).2 = [].
Proof. intros Hp. unfold save_to. by destruct (save_node n (db c)). Qed.

Lemma pocess_pending R u c :
  (∀ x, pending_updates_ x = [] → pending_updates_ (R x).2 = []) → pending_updates_ c = [] →
  pending_updates_ (pocessUpdate_with R u c).2 = [].
Proof.
  intros HR Hp.
  assert (Hsr : ∀ n x, pending_updates_ x = [] → pending_updates_ (and_then (save_to n) R x).2 = []).
  { intros n x. apply and_then_pending; [apply save_to_pending|done]. }
  assert (Hst : ∀ n f x, pending_updates_ x = [] → pending_updates_ (and_then (save_to n) (λ c, done (on_tree (f c) c)) x).2 = []).
  { intros n f x. apply and_then_pending; [apply save_to_pending|done]. }
  assert (Hadd : ∀ n p q, pending_updates_ (process_added R n p q c).2 = []).
  { intros n p q. apply resync_pending. destruct q; [by apply Hsr|]. destruct p; [|by apply Hsr].
    by apply (Hst n (λ _, addNode _ _ _)). }
  unfold pocessUpdate_with. destruct (up_node u) as [node|]; [|by apply resync_pending].
  case_bool_decide; [by apply resync_pending|]. cbv zeta. destruct (_ && _); [done|]. destruct (up_op u).
  - apply Hadd.
  - apply resync_pending. destruct (lookupTreeNode _ _); [by apply save_to_pending|by apply Hsr].
  - unfold process_moved. destruct (lookupTreeNode (nd_uuid node) _); [|apply Hadd]. apply resync_pending.
    destruct (lookupTreeNode _ _); [|by apply Hsr].
    apply (Hst node (λ c, if bool_decide (parent_ptr _ (mem c) = Some _) then _ else _)). done.
  - unfold process_deleted. case_bool_decide; [done|]. destruct (_ && _); [done|]. apply resync_pending. by apply Hsr.
Qed.

Lemma pocessUpdate_queues fuel : queues_nothing (pocessUpdate fuel).
Proof.
  intros u c Hp. destruct fuel; cbn [pocessUpdate]; apply pocess_pending; try done. intros x. apply reload_pending.
Qed.

(** A failed update is asked for again. *)
Lemma refused_asks_repair R u c c' :
  (∀ c ok c', tree_ok (mem c) → rows (db c) !! "" = None → pending_updates_ c = [] → R c = (ok, c') → reloaded c ok c') →
  mirrors c → pending_updates_ c = [] →
  (∀ node, up_node u = Some node → up_op u = DELETED → is_Some (lookupTreeNode (nd_parent node) (mem c))) →
  pocessUpdate_with R u c = (false, c') → repairs (mem c') = S (repairs (mem c)).
Proof.
  intros HR Hc Hp Hk.
  assert (Hrs : ∀ r, resyncOnFailure r = (false, c') → r.1 = false ∧ repairs (mem c') = S (repairs (mem r.2))).
  { intros [[] x]; unfold resyncOnFailure; cbn; [done|]. by intros [= <-]. }
  assert (Hsr : ∀ n x, tree_ok (mem x) → rows (db x) !! "" = None → pending_updates_ x = [] → nd_uuid n ≠ "" →
                  (and_then (save_to n) R x).1 = false → repairs (mem (and_then (save_to n) R x).2) = repairs (mem x)).
  { intros n x Hm He Hpx Hu. unfold and_then. destruct (save_to n x) as [[] x1] eqn:Hs.
    - destruct (save_to_spec n x true x1 Hs) as (H1 & H2 & _ & H4). destruct (R x1) as [[] x2] eqn:Hr; [done|]. intros _. cbn.
      destruct (HR x1 false x2) as [_ _ _ _ _ (_ & Hrep & _) _ _ _]; [by rewrite H1|rewrite H4; by apply save_row_key|by rewrite H2|done|].
      by rewrite Hrep, H1.
    - intros _. cbn. destruct (save_to_spec n x false x1 Hs) as (H1 & _). by rewrite H1. }
  assert (Hst : ∀ n f x, (and_then (save_to n) (λ c, done (f c)) x).1 = false → repairs (mem (and_then (save_to n) (λ c, done (f c)) x).2) = repairs (mem x)).
  { intros n f x. unfold and_then. destruct (save_to n x) as [[] x1] eqn:Hs; [done|]. intros _. cbn.
    destruct (save_to_spec n x false x1 Hs) as (H1 & _). by rewrite H1. }
  pose proof (mi_ok c Hc) as Hm. pose proof (mi_key c Hc) as He.
  assert (Hadd : ∀ n p q, nd_uuid n ≠ "" → process_added R n p q c = (false, c') → repairs (mem c') = S (repairs (mem c))).
  { intros n p q Hu [Hf ->]%Hrs. f_equal. destruct q; [by apply Hsr|]. destruct p; [by apply Hst|by apply Hsr]. }
  unfold pocessUpdate_with. destruct (up_node u) as [node|]; [|by intros [_ ->]%Hrs].
  specialize (Hk node eq_refl). case_bool_decide as Hu; [by intros [_ ->]%Hrs|]. cbv zeta. destruct (_ && _); [done|].
  destruct (up_op u) eqn:Hop; intros H.
  - by eapply Hadd.
  - apply Hrs in H as [Hf ->]. f_equal. unfold process_updated in *. destruct (lookupTreeNode (nd_uuid node) _); [|by apply Hsr].
    destruct (save_to _ _) as [ok x] eqn:Hs. destruct (save_to_spec _ _ _ _ Hs) as (H1 & _). cbn. by rewrite H1.
  - unfold process_moved in H. destruct (lookupTreeNode (nd_uuid node) _); [|by eapply Hadd]. apply Hrs in H as [Hf ->]. f_equal.
    destruct (lookupTreeNode _ _); [by apply Hst|by apply Hsr].
  - unfold process_deleted in H. case_bool_decide as Hroot.
    { destruct (lookup_nonempty _ _ _ Hm Hu Hroot) as [? _]. done. }
    destruct (Hk eq_refl) as [q Hq]. rewrite Hq in H. rewrite (bool_decide_false (Some q = None)) in H by done. rewrite andb_false_r in H.
    apply Hrs in H as [Hf ->]. f_equal.
    destruct (clear_selection_heap (lookupTreeNode (nd_uuid node) (mem c)) (mem c)) as [Hh Hi].
    rewrite Hsr; [|cbn; by eapply tree_ok_ext|done|done|done|done]. cbn. unfold clear_selection.
    destruct (lookupTreeNode (nd_uuid node) (mem c)); [|done]. destruct (lookupTreeNode (selected _) _); [|done]. by destruct (_ || _).
Qed.

(** Updates that come one after the other and are applied. *)
Inductive live_run : list Update → Cache → Cache → Prop :=
| live_done c : live_run [] c c
| live_next u us c c1 c2 :
    (∀ node, up_node u = Some node → in_order u node c) →
    pocessUpdate 2 u c = (true, c1) → live_run us c1 c2 → live_run (u :: us) c c2.

Lemma live_run_mirrors us c c' : live_run us c c' → mirrors c → pending_updates_ c = [] → mirrors c' ∧ pending_updates_ c' = [].
Proof.
  induction 1 as [c|u us c c1 c2 Ho Hu Hrun IH]; [done|]. intros Hc Hp. apply IH.
  - cbn [pocessUpdate] in Hu. eapply pocess_mirrors; [|exact Hc|exact Hp|exact Ho|exact Hu].
    intros x ok x' Hm He Hpx Hl. by eapply reload_spec.
  - pose proof (pocessUpdate_queues 2 u c Hp) as Hq. by rewrite Hu in Hq.
Qed.

(** *** The way up *)
Lemma anchored_path m d c :
  tree_ok m → anchored (heap m) d c →
  ∃ l, NoDup l ∧ length l = S d ∧ ∀ x, x ∈ l → is_Some (heap m !! x) ∧ ∃ d', (d' ≤ d)%nat ∧ anchored (heap m) d' x.
Proof.
  intros Hm. induction 1 as [|d c n q Hn Hq Hd (l & Hnd & Hl & Hx)].
  - exists [root]. split_and!; [repeat constructor; apply not_elem_of_nil|done|]. intros x ->%list_elem_of_singleton.
    destruct (ok_root m Hm) as (rn & Hr & _). split; [by eexists|]. exists 0%nat. split; [done|constructor].
  - exists (c :: l). split_and!; [|cbn; lia|].
    + apply NoDup_cons. split; [|done]. intros (_ & d' & Hle & Hd')%Hx.
      assert (Hu : ∀ d1 d2 x, anchored (heap m) d1 x → anchored (heap m) d2 x → d1 = d2).
      { clear - Hm. intros d1 d2 x H1. revert d2. induction H1 as [|d1 x n q Hn Hq _ IH]; intros d2 H2.
        - inversion H2 as [|? ? ? ? Hr Hrp]; [done|]. subst. by rewrite (root_of_ok m _ Hm Hr) in Hrp.
        - inversion H2 as [|? ? n' q' Hn' Hq']; subst.
          + by rewrite (root_of_ok m _ Hm Hn) in Hq.
          + f_equal. apply IH. congruence. }
      assert (Hc : anchored (heap m) (S d) c) by by eapply anchored_child.
      pose proof (Hu _ _ _ Hc Hd'). lia.
    + intros x [->|Hin]%elem_of_cons.
      * split; [by eexists|]. exists (S d). split; [lia|]. by eapply anchored_child.
      * destruct (Hx x Hin) as (Hlive & d' & Hle & Hd'). split; [done|]. exists d'. split; [lia|done].
Qed.

Lemma anchored_bound m d c : tree_ok m → anchored (heap m) d c → (d < size (heap m))%nat.
Proof.
  intros Hm (l & Hnd & Hl & Hx)%anchored_path; [|done].
  assert (Hs : (list_to_set l : gset ptr) ⊆ dom (heap m)).
  { intros x. rewrite elem_of_list_to_set, elem_of_dom. intros Hin. apply (Hx x Hin). }
  apply subseteq_size in Hs. rewrite size_list_to_set, size_dom in Hs by done. lia.
Qed.

Lemma climb_spec m target fuel : ∀ d p,
  tree_ok m → anchored (heap m) d p → (d < fuel)%nat →
  climb fuel target (Some p) m = true ↔ ∃ k a, above (heap m) a k p ∧ uuid_of a m = target.
Proof.
  induction fuel as [|fuel IH]; intros d p Hm Hd Hf; [lia|]. cbn [climb]. case_bool_decide as Hu.
  - split; [|done]. intros _. exists 0%nat, p. split; [constructor|done].
  - inversion Hd as [|d' ? n q Hn Hq Hd']; subst.
    + assert (Hpp : parent_ptr root m = None).
      { unfold parent_ptr. destruct (ok_root m Hm) as (rn & Hr & Hp & _). by rewrite Hr. }
      rewrite Hpp. split; [by destruct fuel|]. intros (k & a & Ha & Hau). exfalso.
      inversion Ha as [|? ? rn ? Hr Hp]; subst; [done|]. by rewrite (root_of_ok m _ Hm Hr) in Hp.
    + assert (Hpp : parent_ptr p m = Some q) by (unfold parent_ptr; by rewrite Hn).
      rewrite Hpp, (IH d' q Hm Hd') by lia. split; intros (k & a & Ha & Hau).
      * exists (S k), a. split; [by eapply above_parent|done].
      * inversion Ha as [|k' ? n' q' Hn' Hq' Ha']; subst; [done|]. exists k', a. split; [|done]. congruence.
Qed.

Lemma isDescent_spec m x y :
  tree_ok m → isDescent x y m = true ↔ ∃ k a p, lookupTreeNode x m = Some p ∧ lookupTreeNode y m = Some a ∧ above (heap m) a (S k) p.
Proof using.
  clear name_gt sha256.
  intros Hm. unfold isDescent. destruct (lookupTreeNode x m) as [p|] eqn:Hp; [|naive_solver].
  destruct (lookup_node m x p Hm Hp) as (n & Hn & _). unfold parent_ptr. rewrite Hn. cbn [mbind option_bind].
  destruct (ok_anchored m Hm p) as [d Hd]; [by eexists|].
  inversion Hd as [|d' ? n' q Hn' Hq Hd']; subst.
  - rewrite (root_of_ok m n Hm Hn). split; [by destruct (size (heap m))|]. intros (k & a & p' & [= <-] & _ & Ha). exfalso.
    inversion Ha as [|? ? rn ? Hr Hrp]; subst. by rewrite (root_of_ok m _ Hm Hr) in Hrp.
  - assert (n' = n) as -> by congruence. rewrite Hq, (climb_spec m y _ d' q Hm Hd' (anchored_bound m d' q Hm Hd')).
    split.
    + intros (k & a & Ha & Hu). exists k, a, p. split; [done|]. split; [|by eapply above_parent].
      assert (Hal : is_Some (heap m !! a)).
      { clear -Hm Ha Hd'. revert d' Hd'. induction Ha as [|k q n z Hn Hz Ha IH]; intros d' Hd'; [by eapply anchored_live|].
        inversion Hd'; subst; [by rewrite (root_of_ok m n Hm Hn) in Hz|]. eapply IH. assert (z = q0) as -> by congruence. done. }
      destruct Hal as [an Han]. rewrite (uuid_of_some m a an Han) in Hu. subst y. by apply lookup_uuid.
    + intros (k & a & p' & [= <-] & Ha & Hab). inversion Hab as [|k' ? n' q' Hn2 Hq' Hab']; subst. exists k, a.
      assert (q' = q) as -> by congruence. split; [done|]. destruct (lookup_node m y a Hm Ha) as (an & Han & Hau). by rewrite (uuid_of_some m a an Han).
Qed.

(** ** The order of the siblings *)
Section ordered.
(** Names compare as a weak order. *)
Context (gt_asym : ∀ a b, name_gt a b = true → name_gt b a = false).
Context (le_trans : ∀ a b c, name_gt a b = false → name_gt b c = false → name_gt a c = false).

Definition name_le (h : gmap ptr TreeNode) (a b : ptr) : Prop := name_gt (name_of h a) (name_of h b) = false.

Definition ordered (m : Tree) : Prop := ∀ p n, heap m !! p = Some n → StronglySorted (name_le (heap m)) (t_children n).

Lemma StronglySorted_names h h' l :
  (∀ c, c ∈ l → name_of h' c = name_of h c) → StronglySorted (name_le h) l → StronglySorted (name_le h') l.
Proof.
  intros Hn. induction 1 as [|c l Hs IH Hf]; constructor.
  - apply IH. intros x Hx. apply Hn. by right.
  - apply Forall_forall. intros x Hx. rewrite Forall_forall in Hf. specialize (Hf x Hx). unfold name_le.
    rewrite (Hn c), (Hn x); [done|by right|by left].
Qed.

(** The row [getInsertRow] finds keeps the order. *)
Lemma insertNode_sorted h h' tn name l :
  (∀ c, c ∈ l → name_of h' c = name_of h c) → name_of h' tn = name → StronglySorted (name_le h) l →
  StronglySorted (name_le h') (insertNode tn (insert_row h name l) l).
Proof using name_gt gt_asym le_trans sha256.
  intros Hn Ht Hs. unfold insertNode.
  assert (Heq : ∀ l, (insert_row h name l ≤ length l)%nat).
  { clear. induction l as [|c l IH]; cbn; [done|]. destruct (name_gt _ _); lia. }
  assert (Hins : StronglySorted (name_le h') (take (insert_row h name l) l ++ tn :: drop (insert_row h name l) l)).
  { induction Hs as [|c l Hs IH Hf]; cbn [insert_row].
    - cbn. repeat constructor.
    - assert (Hl' : StronglySorted (name_le h') l).
      { apply (StronglySorted_names h); [|done]. intros x Hx. apply Hn. by right. }
      rewrite Forall_forall in Hf. destruct (name_gt (name_of h c) name) eqn:Hg; cbn [take drop app].
      + constructor; [constructor; [done|]|].
        * apply Forall_forall. intros x Hx. unfold name_le. rewrite (Hn c), (Hn x); [by apply Hf|by right|by left].
        * apply Forall_forall. intros x Hx. unfold name_le. rewrite Ht.
          assert (Hc : name_gt name (name_of h c) = false) by by apply gt_asym.
          apply elem_of_cons in Hx as [->|Hx]; [rewrite (Hn c); [done|by left]|].
          rewrite (Hn x) by by right. eapply le_trans; [exact Hc|by apply Hf].
      + constructor; [apply IH; intros x Hx; apply Hn; by right|]. apply Forall_forall. intros x Hx.
        unfold name_le. rewrite (Hn c) by by left.
        apply elem_of_app in Hx as [Hx|[->|Hx]%elem_of_cons].
        * apply list_elem_of_lookup_1 in Hx as [i Hi]. apply lookup_take_Some in Hi as [Hi _]. apply list_elem_of_lookup_2 in Hi.
          rewrite (Hn x) by by right. by apply Hf.
        * by rewrite Ht.
        * apply list_elem_of_lookup_1 in Hx as [i Hi]. rewrite lookup_drop in Hi. apply list_elem_of_lookup_2 in Hi.
          rewrite (Hn x) by by right. by apply Hf. }
  destruct (Nat.leb_spec (length l) (insert_row h name l)) as [Hle|]; [|done].
  rewrite take_ge, drop_ge in Hins by done. done.
Qed.

Lemma addNode_ordered parent uuid node m :
  tree_ok m → is_Some (heap m !! parent) → ordered m → ordered (addNode parent uuid node m).
Proof using name_gt gt_asym le_trans sha256.
  intros Hm [pn Hp] Ho. destruct (heap_addNode parent uuid node m pn Hp) as (Hne & Hf & Hh).
  assert (Hname : ∀ x, is_Some (heap m !! x) → name_of (heap (addNode parent uuid node m)) x = name_of (heap m) x).
  { intros x [xn Hx]. unfold name_of. rewrite Hh, Hx. destruct (decide (x = _)) as [->|]; [congruence|].
    destruct (decide (x = parent)) as [->|]; [|done]. by assert (xn = pn) as -> by congruence. }
  assert (Hlive : ∀ p n c, heap m !! p = Some n → c ∈ t_children n → is_Some (heap m !! c)).
  { intros p n c Hn Hc. destruct (ok_child m Hm p n c Hn Hc) as (cn & ? & _). by eexists. }
  intros p n. rewrite Hh. destruct (decide (p = _)) as [->|]; [intros [= <-]; constructor|].
  destruct (decide (p = parent)) as [->|].
  - intros [= <-]. cbn [t_children set_children]. unfold getInsertRow, children. rewrite Hp. cbn [from_option].
    apply insertNode_sorted; [intros c Hc; by eapply Hname, Hlive| |by eapply Ho].
    unfold name_of. rewrite Hh, decide_True; done.
  - intros Hn. apply (StronglySorted_names (heap m)); [|by eapply Ho]. intros c Hc. by eapply Hname, Hlive.
Qed.

Lemma load_round_ordered l : ∀ m l' prog m',
  tree_ok m → placed m → waiting l m → ordered m → load_round l m = (l', prog, m') → ordered m'.
Proof using name_gt gt_asym le_trans sha256.
  induction l as [|[u r] l IH]; intros m l' prog m' Hm Hpl Hw Ho; cbn [load_round]; [by intros [= _ _ <-]|].
  assert (Hw' : waiting l m).
  { destruct Hw as [Hnd Hw]. cbn in Hnd. apply NoDup_cons in Hnd as [_ ?]. split; [done|]. intros v s Hv. apply (Hw v s). by right. }
  destruct (lookupTreeNode (IssueReport.parent_of r) m) as [p|] eqn:Hl.
  - destruct (load_round l (addNode p u r m)) as [[rem prog'] m1] eqn:Hr. intros [= _ _ <-].
    destruct (lookup_node m _ _ Hm Hl) as (pn & Hpn & Hpu). assert (Hlive : is_Some (heap m !! p)) by by eexists.
    destruct Hw as [Hnd Hw]. destruct (Hw u r) as [Hu Hi]; [by left|]. cbn in Hnd. apply NoDup_cons in Hnd as [Hni _].
    eapply (IH (addNode p u r m)); [by apply addNode_ok| | |by apply addNode_ordered|done].
    + apply addNode_placed; try done. by rewrite (uuid_of_some m p pn Hpn).
    + destruct Hw' as [Hnd' Hw']. split; [done|]. intros v s Hv. destruct (Hw' v s Hv) as [Hv0 Hvi]. split; [done|].
      cbn. rewrite lookup_insert_ne; [done|]. intros <-. apply Hni, list_elem_of_fmap. by exists (u, s).
  - destruct (load_round l m) as [[rem prog'] m1] eqn:Hr. intros [= _ _ <-]. by eapply IH.
Qed.

Lemma load_loop_ordered fuel : ∀ l m l' m',
  tree_ok m → placed m → waiting l m → ordered m → load_loop fuel l m = (l', m') → ordered m'.
Proof using name_gt gt_asym le_trans sha256.
  induction fuel as [|fuel IH]; intros l m l' m' Hm Hpl Hw Ho; cbn [load_loop]; [by intros [= _ <-]|].
  destruct (load_round l m) as [[rem prog] m1] eqn:Hr.
  destruct (load_round_loads l m rem prog m1 Hm Hpl Hw Hr) as (Hlo & _ & _).
  pose proof (load_round_ordered l m rem prog m1 Hm Hpl Hw Ho Hr) as Ho1.
  destruct (_ && _); [|by intros [= _ <-]]. by apply IH; [apply Hlo..|].
Qed.

Lemma load_tree_ordered d m ok d' m' :
  tree_ok m → placed m → uuid_index m = ∅ → rows d !! "" = None → ordered m → load_tree d m = (ok, (d', m')) → ordered m'.
Proof using gt_asym le_trans sha256.
  intros Hm Hpl Hi He Ho. unfold load_tree. destruct (validateStoredNodes d) as [ok1 d1] eqn:Hv.
  pose proof (validate_shrinks _ _ _ Hv) as Hsh. destruct ok1; cbn [negb]; [|by intros [= _ _ <-]].
  destruct (statement d1) as [ok2 d2] eqn:Hs. destruct ok2; cbn [negb]; [|by intros [= _ _ <-]]. cbv zeta.
  assert (Hr2 : rows d2 = rows d1) by (revert Hs; unfold statement, rows; destruct (answers d1) as [|[]]; by intros [= <-]).
  assert (He2 : rows d2 !! "" = None) by (rewrite Hr2; by eapply lookup_weaken_None).
  destruct (load_loop _ _ _) as [rem m1] eqn:Hl. intros [= _ _ <-].
  eapply load_loop_ordered; [exact Hm|exact Hpl|by apply query_rows_waiting|exact Ho|exact Hl].
Qed.

Lemma clear_tree_ordered m : tree_ok m → ordered (clear_tree m).
Proof.
  intros Hm p n. destruct (clear_tree_ok m Hm) as (_ & _ & r & _ & Hh). rewrite Hh.
  intros [<- <-]%lookup_singleton_Some. constructor.
Qed.

Lemma moveNode_ordered p cur node m n q :
  tree_ok m → heap m !! cur = Some n → cur ≠ root → t_parent n = Some q → is_Some (heap m !! p) → p ≠ q → p ≠ cur →
  Nodes.n_name node = Nodes.n_name (t_node n) → ordered m → ordered (moveNode p cur node m).
Proof using name_gt gt_asym le_trans sha256.
  intros Hm Hc Hr Hq [pn Hp] Hpq Hpc Hname Ho.
  destruct (ok_parent m Hm cur n Hc Hr) as (q' & qn & Hq' & Hqn & Hin). assert (q' = q) as -> by congruence.
  destruct (moveNode_run p cur node m n pn q qn Hm Hc Hr Hq Hqn Hp Hpq Hpc) as (i & Hi & _ & _ & _ & _ & Hh).
  assert (Hnm : ∀ x, name_of (heap (moveNode p cur node m)) x = name_of (heap m) x).
  { intros x. unfold name_of. rewrite Hh. destruct (decide (x = p)) as [->|]; [by rewrite Hp|].
    destruct (decide (x = cur)) as [->|]; [by rewrite Hc|]. destruct (decide (x = q)) as [->|]; [by rewrite Hqn|done]. }
  intros x xn. rewrite Hh. destruct (decide (x = p)) as [->|].
  { intros [= <-]. cbn [t_children set_children]. unfold getInsertRow, children. rewrite Hp. cbn [from_option].
    apply insertNode_sorted; [by intros c _|rewrite Hnm; unfold name_of; by rewrite Hc|by eapply Ho]. }
  assert (Hrest : ∀ l, StronglySorted (name_le (heap m)) l → StronglySorted (name_le (heap (moveNode p cur node m))) l).
  { intros l. apply StronglySorted_names. by intros c _. }
  destruct (decide (x = cur)) as [->|]; [intros [= <-]; cbn; apply Hrest; by eapply Ho|].
  destruct (decide (x = q)) as [->|]; [|intros Hx; apply Hrest; by eapply Ho]. intros [= <-]. cbn. apply Hrest.
  pose proof (Ho q qn Hqn) as Hs. clear -Hs. rewrite delete_take_drop. revert i. induction Hs as [|c l Hs IH Hf]; intros i; [by rewrite take_nil, drop_nil; constructor|].
  destruct i as [|i]; cbn; [by rewrite drop_0|]. constructor; [apply IH|]. rewrite Forall_forall in Hf |- *. intros x Hx. apply Hf.
  rewrite <- delete_take_drop in Hx. apply (sublist_subseteq (delete i l)); [apply sublist_delete|done].
Qed.
End ordered.

Lemma load_tree_rows d m ok d' m' :
  answers d = [] → load_tree d m = (ok, (d', m')) → rows d' = IssueReport.t_nodes (IssueReport.validateStoredNodes sha256 (tables d)).
Proof.
  intros Ha. unfold load_tree, validateStoredNodes, statement. rewrite Ha. cbn [negb answers tables cursor]. rewrite Ha. cbn [negb].
  cbv zeta. match goal with |- context [load_loop ?n ?l ?t] => destruct (load_loop n l t) as [rem m1] end. by intros [= _ <- _].
Qed.

Lemma load_is_complete process c ok c' :
  tree_ok (mem c) → rows (db c) !! "" = None → pending_updates_ c = [] → answers (db c) = [] →
  loadLocally process 1 true c = (ok, c') →
  rows (db c') = IssueReport.t_nodes (IssueReport.validateStoredNodes sha256 (tables (db c))) ∧
  (ok = true ↔ ∀ u, is_Some (rows (db c') !! u) → ∃ k, hangs (rows (db c')) k u) ∧
  (ok = true → mirrors c' ∧ state c' = VALID).
Proof.
  intros Hm He Hp Ha Hl. pose proof (reload_spec process c ok c' Hm He Hp Hl) as [A B C D E F G H I].
  split; [|split].
  - revert Hl. unfold loadLocally. cbn [db mem setState set_mem loadFromCache MainTreeModel_ops clear].
    destruct (load_tree (db c) (clear_tree (mem c))) as [ok1 [d m]] eqn:Ht. pose proof (load_tree_rows _ _ _ _ _ Ha Ht) as Hr.
    destruct ok1; cbn [negb]; [|by intros [= _ <-]].
    cbn [apply_rounds pending_updates_ setState set_db set_mem]. rewrite Hp. cbn. by intros [= _ <-].
  - split; [intros ->; by apply H|]. intros Hall. destruct ok; [done|]. destruct (I eq_refl Ha) as (u & Hu & Hno). by destruct Hno; apply Hall.
  - intros ->. split; [by apply H|done].
Qed.

Lemma loaded_ordered process c ok c' :
  (∀ a b, name_gt a b = true → name_gt b a = false) →
  (∀ a b c, name_gt a b = false → name_gt b c = false → name_gt a c = false) →
  tree_ok (mem c) → rows (db c) !! "" = None → pending_updates_ c = [] → loadLocally process 1 true c = (ok, c') → ordered (mem c').
Proof.
  intros Ha Ht Hm He Hp. unfold loadLocally. cbn [db mem setState set_mem loadFromCache MainTreeModel_ops clear].
  destruct (clear_tree_ok (mem c) Hm) as (Hcl & Hi & _).
  destruct (load_tree (db c) (clear_tree (mem c))) as [ok1 [d m]] eqn:Hl.
  pose proof (load_tree_ordered Ha Ht _ _ _ _ _ Hcl (clear_tree_placed _ Hm) Hi He (clear_tree_ordered _ Hm) Hl) as Ho.
  destruct ok1; cbn [negb]; [|by intros [= _ <-]].
  cbn [apply_rounds pending_updates_ setState set_db set_mem]. rewrite Hp. cbn. by intros [= _ <-].
Qed.
End tree.

(** C15: As long as the updates come in their order and each is applied, the
    tree shows exactly the rows of the table: it is a tree, the index leads to
    every node, a node hangs below the one its row names and holds what its row
    holds, whether the updates were applied in place or by loading again. *)
Theorem tree_mirrors_table name_gt sha256 us c c' :
  live_run name_gt sha256 us c c' → mirrors c → pending_updates_ c = [] → mirrors c'.
Proof. intros Hr Hc Hp. by apply (live_run_mirrors name_gt sha256 us c c' Hr Hc Hp). Qed.

(** C21: A load whose statements the database accepts ends, leaves the
    validated rows, succeeds exactly when no parents form a cycle, and then
    the tree shows the rows, with all children in the order of their names. *)
Theorem load_shows_table name_gt sha256 c ok c' :
  tree_ok (mem c) → rows (db c) !! "" = None → pending_updates_ c = [] → answers (db c) = [] →
  doLoadLocally name_gt sha256 c = (ok, c') →
  rows (db c') = IssueReport.t_nodes (IssueReport.validateStoredNodes sha256 (tables (db c))) ∧
  (ok = true ↔ ∀ u, is_Some (rows (db c') !! u) → ∃ k, hangs (rows (db c')) k u) ∧
  (ok = true → mirrors c' ∧ state c' = VALID ∧
     ((∀ a b, name_gt a b = true → name_gt b a = false) →
      (∀ a b c, name_gt a b = false → name_gt b c = false → name_gt a c = false) → ordered name_gt (mem c'))).
Proof.
  intros Hm He Hp Ha Hl. destruct (load_is_complete name_gt sha256 _ c ok c' Hm He Hp Ha Hl) as (H1 & H2 & H3).
  split; [done|]. split; [done|]. intros Hok. destruct (H3 Hok) as [H4 H5]. split_and!; [done..|].
  intros Has Htr. by apply (loaded_ordered name_gt sha256 _ c ok c' Has Htr Hm He Hp Hl).
Qed.


(** *** The item model *)

(** C35: What Qt asks of an item model: the children of an index are the
    rows below [rowCount], the index of each has the parent it was asked for,
    and it is the index of its node. *)
Theorem index_parent_inverse p i c :
  tree_ok (mem c) → valid c = true → is_Some (heap (mem c) !! p) → getIndex p (mem c) = Some (i, p) →
  (∀ row, (row < rowCount (Some (i, p)) c)%nat ↔ is_Some (index row 0 (Some (i, p)) c)) ∧
  ∀ row x, index row 0 (Some (i, p)) c = Some x →
    x.1 = row ∧ parent (Some x) c = Some (i, p) ∧ getIndex x.2 (mem c) = Some x.
Proof.
  intros Hm Hv [pn Hp] Hi. unfold rowCount, index, parent. rewrite Hv. cbn [negb Z.eqb].
  split.
  - intros row. split.
    + intros [x Hx]%lookup_lt_is_Some. rewrite Hx. by eexists.
    + intros [x Hx]. destruct (children p (mem c) !! row) eqn:Hr; [|done]. by eapply lookup_lt_Some.
  - intros row x Hx. destruct (children p (mem c) !! row) as [cur|] eqn:Hr; [|done]. injection Hx as <-. cbn [fst snd].
    assert (Hch : children p (mem c) = t_children pn) by (unfold children; by rewrite Hp). rewrite Hch in Hr.
    pose proof (list_elem_of_lookup_2 _ _ _ Hr) as Hin. destruct (ok_child _ Hm p pn cur Hp Hin) as (cn & Hcn & Hcp).
    assert (Hcr : cur ≠ root) by (intros ->; by rewrite (root_of_ok _ cn Hm Hcn) in Hcp).
    split; [done|]. split.
    + assert (Hpp : parent_ptr cur (mem c) = Some p) by (unfold parent_ptr; by rewrite Hcn). rewrite Hpp.
      unfold getIndex in Hi. destruct (decide (p = root)) as [->|Hpr].
      * rewrite bool_decide_true in Hi by done. rewrite bool_decide_true by done. done.
      * rewrite bool_decide_false in Hi by done. rewrite bool_decide_false by done. done.
    + destruct (getIndex_spec _ cur cn Hm Hcn Hcr) as (p' & j & Hp' & Hix & Hj). assert (p' = p) as -> by congruence.
      rewrite Hch in Hj. rewrite Hix. f_equal. f_equal. exact (NoDup_lookup _ _ _ _ (ok_nodup _ Hm p pn Hp) Hj Hr).
Qed.

(** A node can be moved anywhere but to itself or below itself, and the
    search upwards always ends. *)
Theorem canMove_exact m x y :
  tree_ok m → is_Some (lookupTreeNode x m) → is_Some (lookupTreeNode y m) →
  canMove x y m = false ↔ ∃ k a p, lookupTreeNode y m = Some p ∧ lookupTreeNode x m = Some a ∧ above (heap m) a k p.
Proof.
  intros Hm [a Ha] [p Hp]. unfold canMove. destruct (decide (x = y)) as [->|Hne].
  - rewrite bool_decide_true by done. cbn. split; [|done]. intros _. exists 0%nat, a, a. split_and!; [done..|constructor].
  - rewrite bool_decide_false by done. cbn. split.
    + destruct (isDescent y x m) eqn:Hd; [intros _|done].
      apply (isDescent_spec m y x Hm) in Hd as (k & a' & p' & H1 & H2 & H3). by exists (S k), a', p'.
    + intros (k & a' & p' & H1 & H2 & H3). destruct k as [|k].
      * assert (p' = a') as -> by by inversion H3. exfalso. destruct (lookup_node m y a' Hm H1) as (n1 & Hn1 & Hu1), (lookup_node m x a' Hm H2) as (n2 & Hn2 & Hu2). congruence.
      * assert (Hd : isDescent y x m = true) by (apply (isDescent_spec m y x Hm); eauto 10). by rewrite Hd.
Qed.

(** ** Examples *)
Module Example_tree.
Abbreviation Cache := (Cached Tree ClientDb Update).

(** Names compare by their first letter, without regard to case. *)
Definition letter (s : string) : nat :=
  match s with
  | EmptyString => 0
  | String c _ => let n := Ascii.nat_of_ascii c in if (65 <=? n)%nat && (n <=? 90)%nat then n + 32 else n
  end.
Definition gt (a b : string) : bool := (letter b <? letter a)%nat.

Lemma gt_asym a b : gt a b = true → gt b a = false.
Proof. unfold gt. rewrite Nat.ltb_lt, Nat.ltb_ge. lia. Qed.
Lemma gt_trans a b c : gt a b = false → gt b c = false → gt a c = false.
Proof. unfold gt. rewrite !Nat.ltb_ge. lia. Qed.

Definition sha (s : string) : string := s.

#[export] Instance ops : CacheOps Tree ClientDb Node Update := MainTreeModel_ops gt sha.

Definition row (name : string) (parent : option string) (version : Z) : Row :=
  {| Nodes.n_user := "u"; Nodes.n_name := name; Nodes.n_kind := 0; Nodes.n_descr := ""; Nodes.n_active := true;
     Nodes.n_inbox := false; Nodes.n_parent := parent; Nodes.n_version := version; Nodes.n_exclude := false; Nodes.n_category := None |}.

Definition tables_of (t : gmap string Row) : IssueReport.Tables :=
  {| IssueReport.t_nodes := t; IssueReport.t_actions := ∅; IssueReport.t_sessions := ∅; IssueReport.t_blocks := ∅; IssueReport.t_issues := [] |}.

Definition table : gmap string Row :=
  list_to_map [("w", row "Work" None 1); ("h", row "home" None 1); ("p", row "Paint" (Some "h") 1); ("k", row "kitchen" (Some "p") 1);
               ("x", row "Lost" (Some "y") 1)].

Definition started : Cache :=
  {| state := LOCAL; pending_updates_ := []; full_sync_ := false; load_after_sync_ := true; mem := new_tree;
     db := {| tables := tables_of table; cursor := (λ _, (5, 5)) <$> table; answers := [] |} |}.

Definition loaded : Cache := (doLoadLocally gt sha started).2.

Definition names (p : string) (c : Cache) : list string :=
  from_option (λ p, name_of (heap (mem c)) <$> children p (mem c)) [] (lookupTreeNode p (mem c)).

(** The node whose parent is missing is dropped, the others are shown. *)
Example loaded_ok :
  (doLoadLocally gt sha started).1 = true ∧ state loaded = VALID ∧ names "" loaded = ["home"; "Work"] ∧ names "h" loaded = ["Paint"] ∧
  names "p" loaded = ["kitchen"] ∧ nodeNameFromUuid "k" true (mem loaded) = "/home/Paint/kitchen" ∧
  rows (db loaded) !! "x" = None ∧ length (IssueReport.t_issues (tables (db loaded))) = 1%nat.
Proof. vm_compute. done. Qed.

Lemma started_ok : tree_ok (mem started) ∧ rows (db started) !! "" = None.
Proof. split; [apply new_tree_ok|vm_compute; reflexivity]. Qed.

Lemma loaded_mirrors : mirrors loaded.
Proof.
  destruct started_ok as [Hm He]. destruct (doLoadLocally gt sha started) as [ok c'] eqn:Hl.
  destruct (load_is_complete gt sha (pocessUpdate gt sha 1) started ok c' Hm He eq_refl eq_refl Hl) as (_ & _ & H).
  assert (Hok : (doLoadLocally gt sha started).1 = true) by (vm_compute; reflexivity).
  unfold loaded. rewrite Hl in Hok |- *. by apply H.
Qed.

Definition node (uuid name : string) (parent : option string) (version : Z) : Node :=
  {| nd_uuid := uuid; nd_row := row name parent version; nd_deleted := false; nd_updated := 9; nd_updated_id := 9 |}.

(** A new list, and one that moves with all that is below it. *)
Definition add_garden : Update := {| up_op := ADDED; up_node := Some (node "g" "Garden" None 1) |}.
Definition move_paint : Update := {| up_op := MOVED; up_node := Some (node "p" "Paint" (Some "g") 2) |}.
Definition grown : Cache := (pocessUpdate gt sha 2 add_garden loaded).2.
Definition moved : Cache := (pocessUpdate gt sha 2 move_paint grown).2.

Example moved_ok :
  names "" moved = ["Garden"; "home"; "Work"] ∧ names "h" moved = [] ∧ names "g" moved = ["Paint"] ∧
  nodeNameFromUuid "k" true (mem moved) = "/Garden/Paint/kitchen" ∧ canMove "g" "k" (mem moved) = false ∧ canMove "g" "h" (mem moved) = true.
Proof. vm_compute. done. Qed.

(** A list that gets a new name stays in its row: the update does not move
    it, so the siblings are out of order, and the next one that is added
    goes to the row in front of it. *)
Definition rename : Update := {| up_op := UPDATED; up_node := Some (node "h" "Zoo" None 2) |}.
Definition add_alpha : Update := {| up_op := ADDED; up_node := Some (node "m" "Music" None 1) |}.
Definition renamed : Cache := (pocessUpdate gt sha 2 rename loaded).2.

Example renamed_out_of_order :
  names "" renamed = ["Zoo"; "Work"] ∧ names "" (pocessUpdate gt sha 2 add_alpha renamed).2 = ["Music"; "Zoo"; "Work"] ∧
  names "" (doLoadLocally gt sha renamed).2 = ["Work"; "Zoo"].
Proof. vm_compute. done. Qed.

(** When the statement fails, the tree shows the new name and the table
    keeps the old one. *)
Definition failing (c : Cache) : Cache :=
  set_db {| tables := tables (db c); cursor := cursor (db c); answers := [false] |} c.

Example failed_save_is_shown :
  let '(ok, c) := pocessUpdate gt sha 2 rename (failing loaded) in
  ok = false ∧ names "" c = ["Zoo"; "Work"] ∧ (Nodes.n_name <$> rows (db c) !! "h") = Some "home" ∧ repairs (mem c) = 1%nat.
Proof. vm_compute. done. Qed.

(** The parents of two rows form a cycle: the load fails, the tree cannot be
    seen, and every later synchronisation is refused. *)
Definition cyclic : Cache :=
  set_db {| tables := tables_of (list_to_map [("a", row "A" (Some "b") 1); ("b", row "B" (Some "a") 1)]); cursor := ∅; answers := [] |} started.

Example cycle_blocks :
  let '(ok, c) := doLoadLocally gt sha cyclic in
  ok = false ∧ state c = LOADING ∧ rowCount None c = 0%nat ∧
  (synch (T := Node) (pocessUpdate gt sha 2) 1 true {| began := true; committed := true; frozen := db c |} [] true c).1 = false.
Proof. vm_compute. done. Qed.

(** Without a connection the tree is not shown, although it is in memory. *)
Example offline_hides_tree :
  rowCount (Some (0%nat, root)) loaded = 2%nat ∧ rowCount (Some (0%nat, root)) (onOnline false loaded) = 0%nat.
Proof. vm_compute. done. Qed.

(** *** Witnesses *)
Lemma garden_in_order : in_order add_garden (node "g" "Garden" None 1) loaded.
Proof. split; [vm_compute; reflexivity|intros _; reflexivity|intros H; discriminate H..]. Qed.

Lemma tree_mirrors_table_witness : mirrors loaded ∧ mirrors grown.
Proof.
  split; [apply loaded_mirrors|]. apply (tree_mirrors_table gt sha [add_garden] loaded grown); [|apply loaded_mirrors|vm_compute; reflexivity].
  apply (live_next gt sha add_garden [] loaded grown grown); [| |constructor].
  - intros n Hn. injection Hn as <-. apply garden_in_order.
  - unfold grown. assert (H : (pocessUpdate gt sha 2 add_garden loaded).1 = true) by (vm_compute; reflexivity).
    destruct (pocessUpdate gt sha 2 add_garden loaded) as [ok c]. cbn in H |- *. by subst ok.
Defined.

Lemma load_shows_table_witness : tree_ok (mem started) ∧ mirrors loaded ∧ state loaded = VALID ∧ ordered gt (mem loaded).
Proof.
  destruct started_ok as [Hm He]. split; [exact Hm|].
  destruct (doLoadLocally gt sha started) as [ok c'] eqn:Hl.
  pose proof (load_shows_table gt sha started ok c' Hm He eq_refl eq_refl Hl) as (_ & _ & H).
  assert (Hok : (doLoadLocally gt sha started).1 = true) by (vm_compute; reflexivity).
  unfold loaded. rewrite Hl in Hok |- *. destruct (H Hok) as (H1 & H2 & H3).
  split; [exact H1|]. split; [exact H2|]. apply H3; [exact gt_asym|exact gt_trans].
Defined.


Lemma index_parent_inverse_witness :
  is_Some (index 1 0 (Some (0%nat, root)) loaded) ∧
  ∀ row y, index row 0 (Some (0%nat, root)) loaded = Some y → parent (Some y) loaded = Some (0%nat, root).
Proof.
  split; [vm_compute; by eexists|]. intros row y Hy.
  pose proof (index_parent_inverse root 0 loaded (mi_ok loaded loaded_mirrors)) as H.
  destruct H as [_ H]; [vm_compute; reflexivity|vm_compute; by eexists|reflexivity|]. by destruct (H row y Hy) as (_ & Hp & _).
Defined.

Lemma canMove_exact_witness : canMove "h" "k" (mem loaded) = false.
Proof.
  apply (canMove_exact (mem loaded) "h" "k" (mi_ok loaded loaded_mirrors)); [vm_compute; by eexists..|].
  apply (canMove_exact (mem loaded) "h" "k" (mi_ok loaded loaded_mirrors)); [vm_compute; by eexists..|]. vm_compute. reflexivity.
Defined.

(** A sync that brings two lists and breaks off stores neither. *)
Definition two : list (Message (T := Node)) := [Items [node "g" "Garden" None 1; node "m" "Music" None 1]].
Definition fine : Answers (D := ClientDb) := {| began := true; committed := true; frozen := db started |}.

End Example_tree.
