(* ===== verification/CalendarCache.v ===== *)
(** * The client's calendar

    src/src/NextAppUi/CalendarCache.cpp with ActionsOnCurrentCalendar and
    ActionsWorkedOnTodayCache: the time blocks of the user in the local
    table, the objects of those that were looked at, shared with the views,
    the alarms before and at the start and the end of a block, and the
    actions that are on the calendar of the day.

    The calendar is an instance of [CacheOps] (SyncCache.v); its tables are
    those of IssueReport.v and the table [time_block].  Local dates are the
    parameters [date_of] (the day of a moment) and [startOfDay]; the clock,
    the settings and the answers of the database are arguments. *)
From stdpp Require Import sorting.
From S2P Require Import Prelude SyncCache.
From S2P Require SyncIssues IssueReport.

#[local] Open Scope Z_scope.

(** [pb::TimeBlock]; [b_rest] is what is only stored and shown. *)
Record TimeBlock := {
  b_id : string;
  b_start : Z;
  b_end : Z;
  b_deleted : bool;        (* [kind] is [DELETED] *)
  b_actions : list string;
  b_updated : Z;
  b_updated_id : Z;
  b_rest : string
}.

(** [pb::CalendarEvent]; the time span is an optional field of its own. *)
Record CalendarEvent := {
  ce_id : string;
  ce_block : option TimeBlock;
  ce_span : option (Z * Z)
}.

(** ** The tables *)

(** [t_blocks] of the tables is [time_block_actions]. *)
Record ClientDb := {
  tables : IssueReport.Tables;
  blocks : gmap string TimeBlock;
  answers : list bool
}.

Definition refs (d : ClientDb) : gset (string * string) := IssueReport.t_blocks (tables d).
Definition actions (d : ClientDb) : gset string := dom (IssueReport.t_actions (tables d)).

Definition set_tables (t : IssueReport.Tables) (d : ClientDb) : ClientDb :=
  {| tables := t; blocks := blocks d; answers := answers d |}.
Definition set_blocks (f : gmap string TimeBlock → gmap string TimeBlock) (d : ClientDb) : ClientDb :=
  {| tables := tables d; blocks := f (blocks d); answers := answers d |}.
Definition set_refs (f : gset (string * string) → gset (string * string)) (d : ClientDb) : ClientDb :=
  set_tables {| IssueReport.t_nodes := IssueReport.t_nodes (tables d); IssueReport.t_actions := IssueReport.t_actions (tables d);
                IssueReport.t_sessions := IssueReport.t_sessions (tables d); IssueReport.t_blocks := f (refs d);
                IssueReport.t_issues := IssueReport.t_issues (tables d) |} d.

Definition statement (d : ClientDb) : bool * ClientDb :=
  match answers d with
  | [] => (true, d)
  | ok :: l => (ok, {| tables := tables d; blocks := blocks d; answers := l |})
  end.

(** [DELETE FROM time_block_actions WHERE time_block = ?] *)
Definition delete_refs (id : string) : ClientDb → ClientDb := set_refs (filter (λ r : string * string, r.1 ≠ id)).

(** [DELETE FROM time_block WHERE id = ?]; the references go with it. *)
Definition delete_block (id : string) (d : ClientDb) : ClientDb := delete_refs id (set_blocks (delete id) d).

(** [insert_query] *)
Definition newer (tb : TimeBlock) (d : ClientDb) : bool :=
  match blocks d !! b_id tb with Some old => b_updated_id old <=? b_updated_id tb | None => true end.

Definition insert_query (tb : TimeBlock) (d : ClientDb) : ClientDb :=
  if newer tb d then set_blocks <[b_id tb := tb]> d else d.

(** One [INSERT INTO time_block_actions]: refused when a key is missing or
    the row is there, which is ignored. *)
Definition insert_ref (d : ClientDb) (r : string * string) : ClientDb :=
  let '(ok, d) := statement d in
  if ok && bool_decide (is_Some (blocks d !! r.1)) && bool_decide (r.2 ∈ actions d)
  then set_refs (union {[r]}) d else d.

(** [clearSyncIssuesForObject] *)
Definition clearSyncIssues (id : string) (d : ClientDb) : ClientDb :=
  set_tables {| IssueReport.t_nodes := IssueReport.t_nodes (tables d); IssueReport.t_actions := IssueReport.t_actions (tables d);
                IssueReport.t_sessions := IssueReport.t_sessions (tables d); IssueReport.t_blocks := refs d;
                IssueReport.t_issues := List.filter (λ i, negb (IssueReport.about SyncIssues.SYNC_OBJECT_TYPE_TIME_BLOCK id (SyncIssues.issueid i, i)))
                                          (IssueReport.t_issues (tables d)) |} d.

(** The actions of a block, each once, that exist. *)
Fixpoint existing_once (seen existing : gset string) (l : list string) : list string :=
  match l with
  | [] => []
  | a :: l =>
      if bool_decide (a ∈ seen) then existing_once seen existing l else
      if bool_decide (a ∈ existing) then a :: existing_once ({[a]} ∪ seen) existing l
      else existing_once ({[a]} ∪ seen) existing l
  end.

Section calendar.
Context (sha256 : string → string) (date_of startOfDay : Z → Z).

Definition recordMissing (tb : TimeBlock) (d : ClientDb) : ClientDb :=
  set_tables (IssueReport.recordMissingTimeBlockActionIssues sha256 (b_id tb) (b_actions tb) (tables d)) d.

(** [save_]; a statement that fails ends it and what was done before
    stays. *)
Definition save_ (tb : TimeBlock) (d : ClientDb) : bool * ClientDb :=
  let '(ok, d) := statement d in                      (* [loadExistingActionIds] *)
  if negb ok then (false, d) else
  let existing_actions := actions d in
  let d := clearSyncIssues (b_id tb) d in
  let d := if b_deleted tb then d else recordMissing tb d in
  let '(ok, d) := statement d in
  if negb ok then (false, d) else
  let d := delete_refs (b_id tb) d in
  let '(ok, d) := statement d in
  if negb ok then (false, d) else
  if b_deleted tb then (true, delete_block (b_id tb) d) else
  let d := insert_query tb d in
  (true, foldl insert_ref d (map (pair (b_id tb)) (existing_once ∅ existing_actions (b_actions tb)))).

(** [getActionRefs] *)
Definition getActionRefs (items : list TimeBlock) (existing : gset string) : list (string * string) :=
  concat (map (λ tb, if b_deleted tb then [] else map (pair (b_id tb)) (existing_once ∅ existing (b_actions tb))) items).

(** [saveBatch]; the statements of a batch are one transaction. *)
Definition saveBatch_ (full : bool) (items : list TimeBlock) (d : ClientDb) : bool * ClientDb :=
  let '(ok, d) := statement d in
  if negb ok then (false, d) else
  let existing_actions := actions d in
  let '(success, d) :=
    if full then (true, d) else
    let '(ok, d) := statement d in
    if ok : bool then (true, foldl (λ d tb, delete_refs (b_id tb) d) d items) else (false, d) in
  let '(ok, d) := statement d in
  let '(success, d) :=
    if ok : bool then (success, foldl (λ d tb, if b_deleted tb then delete_block (b_id tb) d else insert_query tb d) d items)
    else (false, d) in
  let d := foldl (λ d tb, let d := clearSyncIssues (b_id tb) d in if b_deleted tb then d else recordMissing tb d) d items in
  (success, foldl insert_ref d (getActionRefs items existing_actions)).

(** ** What is in memory *)
Inductive Signal := eventAdded (id : string) | eventRemoved (id : string) | eventUpdated (id : string).

(** [events_] leads to shared objects.  [alarm_requests] and
    [actions_requests] count the calls of [requestAudioTimerUpdate] and of
    [updateActionsOnCalendarCache]. *)
Record Calendar := {
  heap : gmap nat CalendarEvent;
  events_ : gmap string nat;
  signals : list Signal;
  repairs : nat;
  alarm_requests : nat;
  actions_requests : nat;
  current_calendar_date_ : Z
}.

Definition set_events (h : gmap nat CalendarEvent) (e : gmap string nat) (m : Calendar) : Calendar :=
  {| heap := h; events_ := e; signals := signals m; repairs := repairs m; alarm_requests := alarm_requests m;
     actions_requests := actions_requests m; current_calendar_date_ := current_calendar_date_ m |}.
Definition emit (s : Signal) (m : Calendar) : Calendar :=
  {| heap := heap m; events_ := events_ m; signals := signals m ++ [s]; repairs := repairs m; alarm_requests := alarm_requests m;
     actions_requests := actions_requests m; current_calendar_date_ := current_calendar_date_ m |}.
Definition requestIncrementalRepair (m : Calendar) : Calendar :=
  {| heap := heap m; events_ := events_ m; signals := signals m; repairs := S (repairs m); alarm_requests := alarm_requests m;
     actions_requests := actions_requests m; current_calendar_date_ := current_calendar_date_ m |}.
Definition requests (alarms acts : bool) (m : Calendar) : Calendar :=
  {| heap := heap m; events_ := events_ m; signals := signals m; repairs := repairs m;
     alarm_requests := if alarms then S (alarm_requests m) else alarm_requests m;
     actions_requests := if acts then S (actions_requests m) else actions_requests m;
     current_calendar_date_ := current_calendar_date_ m |}.

(** [events_[id] = make_shared(ce)], or the assignment to the object that is
    there. *)
Definition store_event (id : string) (ce : CalendarEvent) (m : Calendar) : Calendar :=
  match events_ m !! id with
  | Some p => set_events (<[p := ce]> (heap m)) (events_ m) m
  | None => let p := fresh (dom (heap m)) in set_events (<[p := ce]> (heap m)) (<[id := p]> (events_ m)) m
  end.

Inductive Operation := ADDED | UPDATED | MOVED | DELETED.

#[export] Instance Operation_eq_dec : EqDecision Operation.
Proof using. clear. solve_decision. Defined.

(** [Update]: its events, or an action. *)
Record Update := { up_op : Operation; up_events : option (list CalendarEvent); up_action : bool }.

(** The start or the end is on the day. *)
Definition on_day (day : Z) (tb : TimeBlock) : bool :=
  bool_decide (day = date_of (b_start tb)) || bool_decide (day = date_of (b_end tb)).

(** The loop over the events of an update; [alarms] and [acts] are what has
    to be updated afterwards. *)
Fixpoint process_events (op : Operation) (today : Z) (l : list CalendarEvent) (alarms acts : bool) (d : ClientDb) (m : Calendar) :
    bool * bool * bool * ClientDb * Calendar :=
  match l with
  | [] => (true, alarms, acts, d, m)
  | ce :: l =>
      match ce_block ce with
      | None => process_events op today l alarms acts d m
      | Some tb =>
          let d := recordMissing tb (clearSyncIssues (b_id tb) d) in
          let alarms' := alarms || on_day today tb in
          let acts' := acts || on_day (current_calendar_date_ m) tb in
          if bool_decide (op = DELETED) then
            if negb (b_deleted tb) then (false, alarms, acts, d, requestIncrementalRepair m) else
            let m := set_events (heap m) (delete (ce_id ce) (events_ m)) m in
            let '(ok, d) := save_ tb d in
            if negb ok then (false, alarms, acts, d, requestIncrementalRepair m) else
            process_events op today l alarms' acts' d (emit (eventRemoved (ce_id ce)) m)
          else if b_deleted tb then (false, alarms, acts, d, requestIncrementalRepair m)
          else
            let '(ok, d) := save_ tb d in
            if negb ok then (false, alarms, acts, d, requestIncrementalRepair m) else
            let m := store_event (ce_id ce) ce m in
            process_events op today l alarms' acts' d
              (emit (if bool_decide (op = UPDATED) then eventUpdated (ce_id ce) else eventAdded (ce_id ce)) m)
      end
  end.

(** [pocessUpdate]; an update that is given up asks for no new alarms. *)
Definition pocessUpdate (today : Z) (u : Update) (d : ClientDb) (m : Calendar) : bool * ClientDb * Calendar :=
  match up_events u with
  | Some l =>
      let '(ok, d) := statement d in
      if negb ok then (false, d, requestIncrementalRepair m) else
      let '(ok, alarms, acts, d, m) := process_events (up_op u) today l false false d m in
      if ok : bool then (true, d, requests alarms acts m) else (false, d, m)
  | None => (true, d, requests false (up_action u && bool_decide (up_op u = DELETED)) m)
  end.

(** *** Reading the calendar *)

(** [SELECT ... WHERE start_time >= ? AND end_time < ? ORDER BY start_time] *)
Definition in_range (from to : Z) (kb : string * TimeBlock) : Prop := from ≤ b_start kb.2 ∧ b_end kb.2 < to.

Definition starts_before (a b : string * TimeBlock) : Prop := b_start a.2 ≤ b_start b.2.

#[export] Instance starts_before_dec a b : Decision (starts_before a b).
Proof using. unfold starts_before. apply _. Defined.

#[export] Instance in_range_dec from to kb : Decision (in_range from to kb).
Proof using. unfold in_range. apply _. Defined.

Definition query_blocks (from to : Z) (d : ClientDb) : list (string * TimeBlock) :=
  merge_sort starts_before (filter (in_range from to) (map_to_list (blocks d))).

(** The object of a row, from the cache or a new one. *)
Definition event_of_row (kb : string * TimeBlock) : CalendarEvent :=
  {| ce_id := b_id kb.2; ce_block := Some kb.2; ce_span := Some (b_start kb.2, b_end kb.2) |}.

Fixpoint take_rows (l : list (string * TimeBlock)) (m : Calendar) : list nat * Calendar :=
  match l with
  | [] => ([], m)
  | kb :: l =>
      let m := match events_ m !! kb.1 with
               | Some _ => m
               | None => let p := fresh (dom (heap m)) in set_events (<[p := event_of_row kb]> (heap m)) (<[kb.1 := p]> (events_ m)) m
               end in
      let '(ps, m') := take_rows l m in
      (from_option (λ p, p :: ps) ps (events_ m !! kb.1), m')
  end.

(** [getCalendarEvents] *)
Definition getCalendarEvents (start stop : Z) (d : ClientDb) (m : Calendar) : list nat * ClientDb * Calendar :=
  let '(ok, d) := statement d in
  if negb ok then ([], d, m) else
  let '(ps, m) := take_rows (query_blocks (startOfDay start) (startOfDay stop) d) m in (ps, d, m).

(** [remove] *)
Definition remove (tb : TimeBlock) (d : ClientDb) : bool * ClientDb :=
  let '(ok, d) := statement d in if ok : bool then (true, delete_block (b_id tb) d) else (false, d).

(** [SELECT tba.action ...] of [updateActionsOnCalendarCache], and
    [setActions]. *)
Definition actions_on_calendar (d : ClientDb) (day : Z) : gset string :=
  list_to_set (omap (λ r : string * string,
    tb ← blocks d !! r.1;
    if bool_decide (r.2 ∈ actions d) && (day <=? date_of (b_start tb)) && (date_of (b_end tb) <=? day)
    then Some r.2 else None) (elements (refs d))).

(** [getFromCache] *)
Definition getFromCache (id : string) (m : Calendar) : option CalendarEvent := p ← events_ m !! id; heap m !! p.

(** ActionsOnCurrentCalendar: the set that the views ask, with the signals it
    has sent. *)
Inductive DaySignal := modelReset | actionAdded (a : string) | actionRemoved (a : string).

Definition OnCalendar : Type := gset string * list DaySignal.

Definition setActions (l : list string) (s : OnCalendar) : OnCalendar := (list_to_set l, s.2 ++ [modelReset]).
Definition clear_actions (s : OnCalendar) : OnCalendar := if bool_decide (s.1 = ∅) then s else (∅, s.2 ++ [modelReset]).
Definition addAction (a : string) (s : OnCalendar) : OnCalendar :=
  if bool_decide (a ∈ s.1) then s else ({[a]} ∪ s.1, s.2 ++ [actionAdded a]).
Definition removeAction (a : string) (s : OnCalendar) : OnCalendar :=
  if bool_decide (a ∈ s.1) then (s.1 ∖ {[a]}, s.2 ++ [actionRemoved a]) else s.

(** The result of [init] of ActionsWorkedOnTodayCache from the rows (action
    and start) of [work_session], when they could be read, and the actions
    of the open sessions: an action of today, and whether it is current. *)
Definition worked_on_today (today : Z) (rows : option (list (string * Z))) (current : list string) : gmap string bool :=
  let worked := foldr (λ r m, if bool_decide (date_of r.2 = today) then <[r.1 := false]> m else m) ∅ (default [] rows) in
  foldl (λ m a, <[a := true]> m) worked current.

(** *** As a cache *)
Definition clear_calendar (m : Calendar) : Calendar := set_events (heap m) ∅ m.

#[export] Instance CalendarCache_ops : CacheOps Calendar ClientDb TimeBlock Update := {
  clear := clear_calendar;
  loadFromCache d m := (true, (d, requests false true m));
  saveBatch := saveBatch_ false;
  save := save_;
  haveBatch := true;
  finalizeSyncPersistence d := (true, d);
  isRelevant u := bool_decide (is_Some (up_events u)) || up_action u;
  getLastUpdate d := foldr Z.max 0 (map (b_updated ∘ snd) (map_to_list (blocks d)));
  getLastUpdatedId d := foldr Z.max 0 (map (b_updated_id ∘ snd) (map_to_list (blocks d)))
}.

(** ** The next alarm *)
Inductive Kind := AE_PRE | AE_START | AE_SOON_ENDING | AE_END.

(** What was found: the moment, the event and the kind; [None] is the
    [next_time] 0. *)
Definition Found : Type := option (Z * nat * Kind).

(** [if (t > now && (!next_time || t < next_time))] *)
Definition consider (now t : Z) (p : nat) (k : Kind) (f : Found) : Found :=
  if (now <? t) && (match f with None => true | Some (next_time, _, _) => t <? next_time end) then Some (t, p, k) else f.

(** The loop of [setAudioTimers]. *)
Fixpoint find_alarm (now pre_start_mins pre_ending_mins : Z) (l : list (nat * CalendarEvent)) (f : Found) : Found :=
  match l with
  | [] => f
  | (p, ev) :: l =>
      match ce_span ev with
      | None => find_alarm now pre_start_mins pre_ending_mins l f
      | Some (starting, ending) =>
          let f := consider now starting p AE_START f in
          let f := if 0 <? pre_start_mins then consider now (starting - pre_start_mins * 60) p AE_PRE f else f in
          if bool_decide (is_Some f) && (now <? starting) then f else
          let f := consider now ending p AE_END f in
          let f := if 0 <? pre_ending_mins then consider now (ending - pre_ending_mins * 60) p AE_SOON_ENDING f else f in
          find_alarm now pre_start_mins pre_ending_mins l f
      end
  end.

(** The settings of the alarms. *)
Record Settings := { enabled : bool; SoonToEndMinutes : Z; SoonToStartMinutes : Z }.

(** [next_event_] and the delay of its timer in milliseconds; [now'] is the
    clock when the timer is started.  When the alarms are switched off the
    old event stays. *)
Definition NextEvent : Type := option (Found * Z).

Definition setAudioTimers (s : Settings) (now now' today : Z) (old : NextEvent) (d : ClientDb) (m : Calendar) :
    NextEvent * ClientDb * Calendar :=
  if negb (enabled s) then (old, d, m) else
  let '(ps, d, m) := getCalendarEvents today (today + 2) d m in
  let all_events := omap (λ p, ev ← heap m !! p; Some (p, ev)) ps in
  match find_alarm now (SoonToStartMinutes s) (SoonToEndMinutes s) all_events None with
  | Some (t, p, k) => (Some (Some (t, p, k), Z.max (t - now') 1 * 1000), d, m)
  | None => (None, d, m)
  end.

(** [onAudioEvent]: the sound that is played. *)
Inductive Sound := simple_ding | ding2 | bell_ding.

Definition sound_of (k : Kind) : Sound :=
  match k with AE_START => simple_ding | AE_PRE | AE_SOON_ENDING => ding2 | AE_END => bell_ding end.

(** ** One run at a time

    [setAudioTimers], [updateActionsOnCalendarCache] and [init] of
    ActionsWorkedOnTodayCache read the database while changes go on: a call
    while one runs is remembered and made up for afterwards.  [version]
    counts the changes, [reading] is the version a run has read and [shown]
    what its result is made from. *)
Record Runner := {
  version : nat;
  scheduled : bool;            (* a timer will call it *)
  running : bool;
  pending : bool;
  reading : option nat;
  shown : nat
}.

Definition run_state (s r p : bool) (rd : option nat) (sh : nat) (x : Runner) : Runner :=
  {| version := version x; scheduled := s; running := r; pending := p; reading := rd; shown := sh |}.

(** A call: it begins to run, or is remembered. *)
Definition call (x : Runner) : Runner :=
  if running x then run_state (scheduled x) true true (reading x) (shown x) x
  else run_state (scheduled x) true (pending x) None (shown x) x.

(** [requestAudioTimerUpdate] *)
Definition request (x : Runner) : Runner := run_state true (running x) (pending x) (reading x) (shown x) x.

(** The timer calls it. *)
Definition fire (x : Runner) : Runner :=
  if scheduled x then call (run_state false (running x) (pending x) (reading x) (shown x) x) else x.

(** The query is answered. *)
Definition read (x : Runner) : Runner :=
  if running x && bool_decide (reading x = None) then run_state (scheduled x) true (pending x) (Some (version x)) (shown x) x else x.

(** The end of a run of the first two: [ScopedExit] schedules what was
    remembered. *)
Definition finish (x : Runner) : Runner :=
  match running x, reading x with
  | true, Some v => if pending x then run_state true false false None v x else run_state (scheduled x) false false None v x
  | _, _ => x
  end.

(** The end of a run of [init]: what was remembered starts it again at
    once and its own result is dropped. *)
Definition finish_again (x : Runner) : Runner :=
  match running x, reading x with
  | true, Some v => if pending x then run_state (scheduled x) true false None (shown x) x else run_state (scheduled x) false false None v x
  | _, _ => x
  end.

(** A change in the data. *)
Definition change (x : Runner) : Runner :=
  {| version := S (version x); scheduled := scheduled x; running := running x; pending := pending x; reading := reading x; shown := shown x |}.

(** ** The references of a block *)
Lemma elem_of_existing_once seen existing l a :
  a ∈ existing_once seen existing l ↔ a ∈ l ∧ (a ∉ seen) ∧ a ∈ existing.
Proof.
  revert seen. induction l as [|b l IH]; intros seen; cbn [existing_once]; [rewrite elem_of_nil; tauto|].
  rewrite elem_of_cons. case_bool_decide as Hs; [rewrite IH; split; [tauto|]; intros ([->|?] & ? & ?); tauto|].
  assert (Hu : a ∉ {[b]} ∪ seen ↔ a ≠ b ∧ a ∉ seen) by (rewrite elem_of_union, elem_of_singleton; tauto).
  case_bool_decide as He; rewrite ?elem_of_cons, IH, Hu; destruct (decide (a = b)) as [->|]; tauto.
Qed.

(** What a change of the tables leaves as it is. *)
Definition same_rows (d d' : ClientDb) : Prop := blocks d' = blocks d ∧ actions d' = actions d.

Lemma same_rows_trans d1 d2 d3 : same_rows d1 d2 → same_rows d2 d3 → same_rows d1 d3.
Proof. intros [? ?] [? ?]. split; congruence. Qed.

Lemma statement_same d ok d' : statement d = (ok, d') → same_rows d d' ∧ refs d' = refs d ∧ tables d' = tables d.
Proof. unfold statement. destruct (answers d) as [|b l]; by intros [= <- <-]. Qed.

Lemma recordMissing_rows block existing seen l t :
  IssueReport.t_actions (IssueReport.recordMissing sha256 block existing seen l t) = IssueReport.t_actions t ∧
  IssueReport.t_blocks (IssueReport.recordMissing sha256 block existing seen l t) = IssueReport.t_blocks t.
Proof.
  revert seen t. induction l as [|a l IH]; intros seen t; cbn [IssueReport.recordMissing]; [done|].
  case_bool_decide; [apply IH|]. cbv zeta. case_bool_decide; [apply IH|]. destruct (IH ({[a]} ∪ seen) (IssueReport.record_issue (IssueReport.makeMissingTimeBlockActionIssue sha256 block a) t)) as [-> ->]. done.
Qed.

Lemma recordMissing_same tb d : same_rows d (recordMissing tb d) ∧ refs (recordMissing tb d) = refs d ∧ answers (recordMissing tb d) = answers d.
Proof.
  unfold recordMissing, IssueReport.recordMissingTimeBlockActionIssues.
  destruct (recordMissing_rows (b_id tb) (dom (IssueReport.t_actions (tables d))) ∅ (b_actions tb) (tables d)) as [Ha Hb].
  split; [split; [done|]|split; [exact Hb|done]]. unfold actions. cbn [tables set_tables]. by rewrite Ha.
Qed.

Lemma insert_ref_same d r : same_rows d (insert_ref d r).
Proof.
  unfold insert_ref. destruct (statement d) as [ok d1] eqn:Hs. apply statement_same in Hs as (H & _). by destruct (_ && _).
Qed.

Lemma insert_refs_same l d : same_rows d (foldl insert_ref d l).
Proof. revert d. induction l as [|r l IH]; intros d; cbn; [done|]. eapply same_rows_trans; [apply insert_ref_same|apply IH]. Qed.

Lemma insert_refs_exact l d :
  answers d = [] → (∀ r, r ∈ l → is_Some (blocks d !! r.1) ∧ r.2 ∈ actions d) →
  refs (foldl insert_ref d l) = list_to_set l ∪ refs d.
Proof.
  revert d. induction l as [|r l IH]; intros d Ha Hl; cbn [foldl list_to_set]; [by rewrite union_empty_l_L|].
  destruct (Hl r) as [Hb Hr]; [by left|].
  assert (Heq : insert_ref d r = set_refs (union {[r]}) d).
  { unfold insert_ref, statement. rewrite Ha. cbn. by rewrite !bool_decide_true. }
  rewrite Heq, IH.
  - cbn. unfold refs. cbn. fold (refs d). set_solver.
  - done.
  - intros r' Hr'. destruct (Hl r') as [? ?]; [by right|]. done.
Qed.

(** What [save_] does to the rows; when it fails it has changed none. *)
Lemma save_rows tb d ok d' :
  save_ tb d = (ok, d') →
  actions d' = actions d ∧
  blocks d' = if ok : bool then if b_deleted tb then delete (b_id tb) (blocks d)
                                else if newer tb d then <[b_id tb := tb]> (blocks d) else blocks d
              else blocks d.
Proof.
  unfold save_. destruct (statement d) as [ok1 d1] eqn:Hs1. apply statement_same in Hs1 as ([Hb1 Ha1] & _).
  destruct ok1; cbn [negb]; [|by intros [= <- <-]].
  cbv zeta. set (d2 := if b_deleted tb then clearSyncIssues (b_id tb) d1 else recordMissing tb (clearSyncIssues (b_id tb) d1)).
  assert (H2 : same_rows d1 d2) by (unfold d2; destruct (b_deleted tb); [done|apply (recordMissing_same tb (clearSyncIssues (b_id tb) d1))]). clearbody d2. destruct H2 as [Hb2 Ha2].
  destruct (statement d2) as [ok3 d3] eqn:Hs3. apply statement_same in Hs3 as ([Hb3 Ha3] & _).
  destruct ok3; cbn [negb]; [|intros [= <- <-]; split; congruence].
  destruct (statement (delete_refs (b_id tb) d3)) as [ok4 d4] eqn:Hs4. apply statement_same in Hs4 as ([Hb4 Ha4] & _).
  assert (Hb : blocks d4 = blocks d) by (rewrite Hb4; cbn; congruence).
  assert (Ha : actions d4 = actions d) by (rewrite Ha4; unfold actions in *; cbn; congruence).
  destruct ok4; cbn [negb]; [|intros [= <- <-]; done].
  destruct (b_deleted tb).
  - intros [= <- <-]. unfold delete_block, delete_refs. cbn. split; [exact Ha|by rewrite Hb].
  - intros [= <- <-]. destruct (insert_refs_same (map (pair (b_id tb)) (existing_once ∅ (actions d1) (b_actions tb))) (insert_query tb d4)) as [Hbf Haf].
    rewrite Hbf, Haf. unfold insert_query, newer. rewrite Hb. destruct (match blocks d !! b_id tb with Some _ => _ | None => _ end); cbn; by rewrite ?Hb.
Qed.

Lemma save_answers tb d : answers d = [] → ∃ d', save_ tb d = (true, d').
Proof.
  intros Ha. unfold save_. unfold statement at 1. rewrite Ha. cbn [negb].
  cbv zeta. set (d2 := if b_deleted tb then clearSyncIssues (b_id tb) d else recordMissing tb (clearSyncIssues (b_id tb) d)).
  assert (H2 : answers d2 = []) by (unfold d2; destruct (b_deleted tb); [done|by rewrite (proj2 (proj2 (recordMissing_same tb (clearSyncIssues (b_id tb) d))))]).
  unfold statement at 1. rewrite H2. cbn [negb]. unfold statement at 1. cbn [answers delete_refs set_refs set_tables]. rewrite H2. cbn [negb].
  destruct (b_deleted tb); by eexists.
Qed.

(** A block that is saved refers to exactly its actions that exist; the
    references of the other blocks stay. *)
Lemma save_refs tb d d' :
  b_deleted tb = false → newer tb d = true → answers d = [] → save_ tb d = (true, d') →
  ∀ b a, (b, a) ∈ refs d' ↔ if decide (b = b_id tb) then a ∈ b_actions tb ∧ a ∈ actions d else (b, a) ∈ refs d.
Proof.
  intros Hd Hn Ha. unfold save_. unfold statement at 1. rewrite Ha. cbn [negb]. rewrite Hd.
  cbv zeta. destruct (recordMissing_same tb (clearSyncIssues (b_id tb) d)) as ([Hb2 Ha2] & Hr2 & Han2).
  cbn [answers set_tables clearSyncIssues] in Han2. unfold statement at 1. rewrite Han2, Ha. cbn [negb]. unfold statement at 1. cbn [answers delete_refs set_refs set_tables].
  rewrite ?Han2, Ha. cbn [negb]. intros [= <-] b a.
  set (d3 := delete_refs (b_id tb) (recordMissing tb (clearSyncIssues (b_id tb) d))).
  assert (Hb3 : blocks d3 = blocks d) by exact Hb2. assert (Ha3 : actions d3 = actions d) by exact Ha2.
  assert (Hr3 : ∀ r, r ∈ refs d3 ↔ r ∈ refs d ∧ r.1 ≠ b_id tb).
  { intros r. unfold d3. unfold delete_refs, refs at 1. cbn. rewrite elem_of_filter. fold (refs (recordMissing tb (clearSyncIssues (b_id tb) d))). rewrite Hr2. change (refs (clearSyncIssues (b_id tb) d)) with (refs d). tauto. }
  assert (Hn3 : newer tb d3 = true) by (unfold newer in *; by rewrite Hb3).
  unfold insert_query. rewrite Hn3.
  rewrite insert_refs_exact.
  - rewrite elem_of_union, elem_of_list_to_set. change (refs (set_blocks _ d3)) with (refs d3). rewrite Hr3. cbn [fst].
    rewrite list_elem_of_In, in_map_iff. destruct (decide (b = b_id tb)) as [->|Hne].
    + split.
      * intros [(x & [= ->] & Hx)|[_ []]]; [|done]. apply list_elem_of_In, elem_of_existing_once in Hx. tauto.
      * intros [H1 H2]. left. exists a. split; [done|]. apply list_elem_of_In, elem_of_existing_once. split_and!; [done|apply not_elem_of_empty|done].
    + split; [intros [(x & [= <- <-] & _)|[? _]]; done|]. intros H. by right.
  - exact (eq_trans Han2 Ha).
  - intros r Hr. apply list_elem_of_In, in_map_iff in Hr as (x & <- & Hx). cbn [fst snd].
    split; [cbn; by rewrite lookup_insert_eq|]. change (actions (set_blocks _ d3)) with (actions d3). rewrite Ha3.
    apply list_elem_of_In, elem_of_existing_once in Hx. tauto.
Qed.

(** ** The cache and its table *)

(** Every object in the cache holds the row of its block, and is the object
    of one block only. *)
Record coherent (d : ClientDb) (m : Calendar) : Prop := {
  co_event id p : events_ m !! id = Some p → ∃ e b, heap m !! p = Some e ∧ ce_block e = Some b ∧ blocks d !! id = Some b;
  co_inj i j p : events_ m !! i = Some p → events_ m !! j = Some p → i = j
}.

(** An event the server sends in its order: its ids agree and it is newer
    than the row. *)
Definition in_order (d : ClientDb) (ce : CalendarEvent) : Prop :=
  ∀ tb, ce_block ce = Some tb → ce_id ce = b_id tb ∧ ∀ old, blocks d !! b_id tb = Some old → b_updated_id old ≤ b_updated_id tb.

Lemma coherent_rows d d' m : blocks d' = blocks d → coherent d m → coherent d' m.
Proof. intros Hb [A B]. split; [|done]. by rewrite Hb. Qed.

Lemma coherent_fields d m m' : heap m' = heap m → events_ m' = events_ m → coherent d m → coherent d m'.
Proof. intros Hh He [A B]. split; rewrite ?Hh, ?He; done. Qed.

(** Nothing but signals and requests changed. *)
Ltac only_signals :=
  match goal with H : coherent ?d _ |- coherent ?d _ => refine (coherent_fields d _ _ _ _ H); reflexivity end.

Lemma in_order_newer d ce tb : in_order d ce → ce_block ce = Some tb → newer tb d = true.
Proof.
  intros Hi Ht. destruct (Hi tb Ht) as [_ Ho]. unfold newer. destruct (blocks d !! b_id tb) as [old|]; [|done].
  by apply Z.leb_le, Ho.
Qed.

Lemma store_coherent d m id ce tb :
  coherent d m → ce_block ce = Some tb → coherent (set_blocks <[id := tb]> d) (store_event id ce m).
Proof.
  intros [A B] Ht. unfold store_event. destruct (events_ m !! id) as [p|] eqn:Hp; split; cbn.
  - intros i q Hq. destruct (decide (i = id)) as [->|Hne].
    + assert (q = p) as -> by congruence. exists ce, tb. by rewrite !lookup_insert_eq.
    + destruct (A i q Hq) as (e & b & He & Hb & Hr). exists e, b. rewrite !lookup_insert_ne; [done|done|].
      intros <-. by apply Hne, (B i id p).
  - exact B.
  - intros i q [[<- <-]|[Hne Hq]]%lookup_insert_Some; [exists ce, tb; by rewrite !lookup_insert_eq|].
    destruct (A i q Hq) as (e & b & He & Hb & Hr). exists e, b. rewrite !lookup_insert_ne; [done|done|].
    intros <-. assert (Hf : fresh (dom (heap m)) ∈ dom (heap m)) by (apply elem_of_dom; by eexists). by apply is_fresh in Hf.
  - assert (Hfr : ∀ i, events_ m !! i ≠ Some (fresh (dom (heap m)))).
    { intros i Hi. destruct (A i _ Hi) as (e & b & He & _).
      assert (Hf : fresh (dom (heap m)) ∈ dom (heap m)) by (apply elem_of_dom; by eexists). by apply is_fresh in Hf. }
    intros i j q [[<- <-]|[Hi Hiq]]%lookup_insert_Some [[<- Hq]|[Hj Hjq]]%lookup_insert_Some.
    + done.
    + by apply Hfr in Hjq.
    + subst q. by apply Hfr in Hiq.
    + by apply (B i j q).
Qed.

Lemma forget_coherent d m id : coherent d m → coherent d (set_events (heap m) (delete id (events_ m)) m).
Proof.
  intros [A B]. split; cbn.
  - intros i p [_ Hp]%lookup_delete_Some. by apply A.
  - intros i j p [_ Hi]%lookup_delete_Some [_ Hj]%lookup_delete_Some. by apply (B i j p).
Qed.

Lemma delete_coherent d m id : coherent d m → coherent (set_blocks (delete id) d) (set_events (heap m) (delete id (events_ m)) m).
Proof.
  intros [A B]. split; cbn.
  - intros i p [Hne Hp]%lookup_delete_Some. destruct (A i p Hp) as (e & b & ? & ? & ?). exists e, b. by rewrite lookup_delete_ne.
  - intros i j p [_ Hi]%lookup_delete_Some [_ Hj]%lookup_delete_Some. by apply (B i j p).
Qed.

Lemma process_events_coherent op today l : ∀ alarms acts d m ok al ac d' m',
  coherent d m → Forall (in_order d) l → NoDup (map ce_id l) →
  process_events op today l alarms acts d m = (ok, al, ac, d', m') → coherent d' m'.
Proof.
  induction l as [|ce l IH]; intros alarms acts d m ok al ac d' m' Hc Hl Hnd; cbn [process_events map]; [by intros [= <- <- <- <- <-]|].
  apply Forall_cons in Hl as [Ho Hl]. cbn in Hnd. apply NoDup_cons in Hnd as [Hni Hnd].
  destruct (ce_block ce) as [tb|] eqn:Ht; [|by apply IH].
  destruct (Ho tb Ht) as [Hid _]. pose proof (in_order_newer d ce tb Ho Ht) as Hnew.
  destruct (recordMissing_same tb (clearSyncIssues (b_id tb) d)) as ([Hb1 _] & _). change (blocks (clearSyncIssues (b_id tb) d)) with (blocks d) in Hb1.
  assert (Hother : ∀ d2, (∀ i, i ≠ b_id tb → blocks d2 !! i = blocks d !! i) → Forall (in_order d2) l).
  { intros d2 H2. apply Forall_forall. intros x Hx tx Htx. rewrite Forall_forall in Hl. destruct (Hl x Hx tx Htx) as [H3 H4].
    split; [done|]. intros old. rewrite H2; [apply H4|]. intros He. apply Hni. rewrite Hid, <- He, <- H3. apply list_elem_of_In, in_map. by apply list_elem_of_In. }
  set (d1 := recordMissing tb (clearSyncIssues (b_id tb) d)) in *. clearbody d1.
  assert (Hc1 : coherent d1 m) by (by eapply coherent_rows).
  assert (Hnew1 : newer tb d1 = true) by (unfold newer in *; by rewrite Hb1).
  case_bool_decide as Hop.
  - destruct (b_deleted tb) eqn:Hdel; cbn [negb]; [|intros [= <- <- <- <- <-]; only_signals].
    destruct (save_ tb d1) as [ok1 d2] eqn:Hs. apply save_rows in Hs as [_ Hb2]. rewrite Hdel in Hb2.
    destruct ok1; cbn [negb].
    + apply IH; [|apply Hother; intros i Hi; by rewrite Hb2, lookup_delete_ne, Hb1|done].
      apply (coherent_fields d2 (set_events (heap m) (delete (ce_id ce) (events_ m)) m)); [done|done|]. rewrite Hid.
      exact (coherent_rows (set_blocks (delete (b_id tb)) d1) d2 _ Hb2 (delete_coherent d1 m (b_id tb) Hc1)).
    + intros [= <- <- <- <- <-]. apply (coherent_fields d2 (set_events (heap m) (delete (ce_id ce) (events_ m)) m)); [done|done|].
      exact (coherent_rows d1 d2 _ Hb2 (forget_coherent d1 m (ce_id ce) Hc1)).
  - destruct (b_deleted tb) eqn:Hdel; [intros [= <- <- <- <- <-]; only_signals|].
    destruct (save_ tb d1) as [ok1 d2] eqn:Hs. apply save_rows in Hs as [_ Hb2]. rewrite Hdel, Hnew1 in Hb2.
    destruct ok1; cbn [negb].
    + apply IH; [|apply Hother; intros i Hi; by rewrite Hb2, lookup_insert_ne, Hb1|done].
      apply (coherent_fields d2 (store_event (ce_id ce) ce m)); [done|done|]. rewrite Hid.
      exact (coherent_rows (set_blocks <[b_id tb := tb]> d1) d2 _ Hb2 (store_coherent d1 m (b_id tb) ce tb Hc1 Ht)).
    + intros [= <- <- <- <- <-]. apply (coherent_fields d2 m); [done|done|]. exact (coherent_rows d1 d2 m Hb2 Hc1).
Qed.

(** An update whose events come in order. *)
Definition update_in_order (d : ClientDb) (u : Update) : Prop :=
  ∀ l, up_events u = Some l → Forall (in_order d) l ∧ NoDup (map ce_id l).

Lemma in_order_same d d' ce : blocks d' = blocks d → in_order d ce → in_order d' ce.
Proof. intros Hb Hi tb Ht. rewrite Hb. by apply Hi. Qed.

Lemma pocessUpdate_coherent today u d m ok d' m' :
  coherent d m → update_in_order d u → pocessUpdate today u d m = (ok, d', m') → coherent d' m'.
Proof.
  intros Hc Ho. unfold pocessUpdate. destruct (up_events u) as [l|] eqn:Hl; [|intros [= <- <- <-]; only_signals].
  destruct (Ho l Hl) as [Hall Hnd]. destruct (statement d) as [ok1 d1] eqn:Hs. apply statement_same in Hs as ([Hb1 _] & _).
  assert (Hc1 : coherent d1 m) by by eapply coherent_rows.
  destruct ok1; cbn [negb]; [|intros [= <- <- <-]; only_signals].
  destruct (process_events (up_op u) today l false false d1 m) as [[[[ok2 al] ac] d2] m2] eqn:Hp.
  assert (Hc2 : coherent d2 m2).
  { eapply process_events_coherent; [exact Hc1| |exact Hnd|exact Hp]. eapply Forall_impl; [exact Hall|]. intros ce. by apply in_order_same. }
  destruct ok2; intros [= <- <- <-]; [only_signals|done].
Qed.

(** *** Reading *)
Lemma take_rows_objects d l : ∀ m ps m',
  coherent d m → (∀ id b, (id, b) ∈ l → blocks d !! id = Some b) → NoDup l.*1 → take_rows l m = (ps, m') →
  coherent d m' ∧ (∀ id p, events_ m !! id = Some p → events_ m' !! id = Some p) ∧
  Forall2 (λ p kb, events_ m' !! kb.1 = Some p ∧ ∃ e, heap m' !! p = Some e ∧ ce_block e = Some kb.2) ps l.
Proof.
  induction l as [|[id b] l IH]; intros m ps m' Hc Hl Hnd; cbn [take_rows fst]; [intros [= <- <-]; done|].
  cbn in Hnd. apply NoDup_cons in Hnd as [Hni Hnd].
  set (m1 := match events_ m !! id with Some _ => m | None => _ end).
  assert (Hb : blocks d !! id = Some b) by (apply Hl; by left).
  assert (H1 : coherent d m1 ∧ (∀ i p, events_ m !! i = Some p → events_ m1 !! i = Some p) ∧ is_Some (events_ m1 !! id)).
  { unfold m1. destruct (events_ m !! id) as [p|] eqn:Hp; [rewrite Hp; by eauto|].
    split_and!.
    - pose proof (store_coherent d m id (event_of_row (id, b)) b Hc eq_refl) as Hs. unfold store_event in Hs. rewrite Hp in Hs.
      eapply coherent_rows; [|exact Hs]. cbn. symmetry. by apply insert_id.
    - intros i p Hi. cbn. rewrite lookup_insert_ne; [done|congruence].
    - cbn. rewrite lookup_insert_eq. by eexists. }
  destruct H1 as (Hc1 & Hmono & [p Hp]). clearbody m1.
  destruct (take_rows l m1) as [ps1 m2] eqn:Ht. destruct (IH m1 ps1 m2 Hc1) as (Hc2 & Hmono2 & Hf); [intros; apply Hl; by right|done|done|].
  rewrite Hp. cbn. intros [= <- <-]. split; [done|]. split; [intros i q Hi; by apply Hmono2, Hmono|].
  constructor; [|done]. cbn. split; [by apply Hmono2|].
  destruct (co_event d m2 Hc2 id p (Hmono2 _ _ Hp)) as (e & b' & He & Heb & Hb'). exists e. split; [done|]. congruence.
Qed.

Lemma query_blocks_rows from to d id b : (id, b) ∈ query_blocks from to d ↔ blocks d !! id = Some b ∧ from ≤ b_start b ∧ b_end b < to.
Proof.
  unfold query_blocks. rewrite merge_sort_Permutation, list_elem_of_filter, elem_of_map_to_list. unfold in_range. cbn. tauto.
Qed.

Lemma query_blocks_nodup from to d : NoDup (query_blocks from to d).*1.
Proof.
  unfold query_blocks. rewrite merge_sort_Permutation.
  assert (Hs : sublist (filter (in_range from to) (map_to_list (blocks d))).*1 (map_to_list (blocks d)).*1).
  { induction (map_to_list (blocks d)) as [|x l IH]; [done|]. rewrite filter_cons. cbn. destruct (decide _); cbn; by constructor. }
  eapply sublist_NoDup; [|exact Hs]. apply NoDup_fst_map_to_list.
Qed.

Lemma query_blocks_sorted from to d : Sorted (λ a b, b_start a.2 ≤ b_start b.2) (query_blocks from to d).
Proof.
  assert (Ht : Total starts_before) by (intros a b; unfold starts_before; lia).
  exact (Sorted_merge_sort starts_before _).
Qed.

Lemma getCalendarEvents_coherent start stop d m ps d' m' :
  coherent d m → getCalendarEvents start stop d m = (ps, d', m') → coherent d' m' ∧ blocks d' = blocks d.
Proof.
  intros Hc. unfold getCalendarEvents. destruct (statement d) as [ok d1] eqn:Hs. apply statement_same in Hs as ([Hb _] & _).
  assert (Hc1 : coherent d1 m) by by eapply coherent_rows.
  destruct ok; cbn [negb]; [|by intros [= <- <- <-]].
  destruct (take_rows _ m) as [ps1 m1] eqn:Ht. intros [= <- <- <-].
  destruct (take_rows_objects d1 (query_blocks (startOfDay start) (startOfDay stop) d1) m ps1 m1 Hc1) as (Hc2 & _); [intros id b; rewrite query_blocks_rows; tauto|apply query_blocks_nodup|done|done].
Qed.

(** *** What may happen *)
Inductive Event :=
| EvUpdate (today : Z) (u : Update)
| EvQuery (start stop : Z)
| EvClear.

Inductive calendar_run : list Event → ClientDb → Calendar → ClientDb → Calendar → Prop :=
| run_nil d m : calendar_run [] d m d m
| run_update today u es d m ok d1 m1 d2 m2 :
    update_in_order d u → pocessUpdate today u d m = (ok, d1, m1) → calendar_run es d1 m1 d2 m2 →
    calendar_run (EvUpdate today u :: es) d m d2 m2
| run_query start stop es d m ps d1 m1 d2 m2 :
    getCalendarEvents start stop d m = (ps, d1, m1) → calendar_run es d1 m1 d2 m2 → calendar_run (EvQuery start stop :: es) d m d2 m2
| run_clear es d m d2 m2 : calendar_run es d (clear_calendar m) d2 m2 → calendar_run (EvClear :: es) d m d2 m2.

Lemma clear_coherent d m : coherent d (clear_calendar m).
Proof. split; cbn; intros *; rewrite lookup_empty; done. Qed.

Lemma calendar_run_coherent es d m d' m' : calendar_run es d m d' m' → coherent d m → coherent d' m'.
Proof.
  induction 1 as [d m|today u es d m ok d1 m1 d2 m2 Ho Hu _ IH|start stop es d m ps d1 m1 d2 m2 Hq _ IH|es d m d2 m2 _ IH]; intros Hc; [done| | |].
  - apply IH. by eapply pocessUpdate_coherent.
  - apply IH. by eapply getCalendarEvents_coherent.
  - apply IH, clear_coherent.
Qed.

(** ** The next alarm

    [covers f t]: what was found is not later than [t]. *)
Definition covers (f : Found) (t : Z) : Prop := match f with Some (next_time, _, _) => next_time ≤ t | None => False end.

Lemma consider_covers now t p k f : now < t → covers (consider now t p k f) t.
Proof.
  intros Ht. unfold consider. rewrite (proj2 (Z.ltb_lt _ _) Ht). destruct f as [[[u q] j]|]; cbn; [|lia].
  destruct (Z.ltb_spec t u); cbn; lia.
Qed.

Lemma consider_keeps now t p k f x : covers f x → covers (consider now t p k f) x.
Proof.
  unfold consider. destruct f as [[[u q] j]|]; cbn; [|done]. destruct (Z.ltb_spec t u); [|by rewrite andb_false_r].
  destruct (now <? t); cbn; lia.
Qed.

Lemma consider_if_keeps (b : bool) now t p k f x : covers f x → covers (if b then consider now t p k f else f) x.
Proof. destruct b; [apply consider_keeps|done]. Qed.

Lemma covers_le f x y : covers f x → x ≤ y → covers f y.
Proof. destruct f as [[[u q] j]|]; cbn; [lia|done]. Qed.

Lemma covers_is_Some f x : covers f x → is_Some f.
Proof. destruct f; [by eexists|done]. Qed.

Lemma find_alarm_keeps now pre pend l f x : covers f x → covers (find_alarm now pre pend l f) x.
Proof.
  revert f. induction l as [|[p ev] l IH]; intros f Hf; cbn [find_alarm]; [done|].
  destruct (ce_span ev) as [[s e]|]; [|by apply IH]. cbv zeta.
  assert (H1 := consider_if_keeps (0 <? pre) now (s - pre * 60) p AE_PRE _ x (consider_keeps now s p AE_START f x Hf)).
  destruct (_ && _); [done|]. by apply IH, consider_if_keeps, consider_keeps.
Qed.

(** The moments an event has. *)
Definition moment (pre pend : Z) (k : Kind) (span : Z * Z) : option Z :=
  match k with
  | AE_START => Some span.1
  | AE_END => Some span.2
  | AE_PRE => if 0 <? pre then Some (span.1 - pre * 60) else None
  | AE_SOON_ENDING => if 0 <? pend then Some (span.2 - pend * 60) else None
  end.

Definition found_in (now pre pend : Z) (l : list (nat * CalendarEvent)) (f : Found) : Prop :=
  ∀ t p k, f = Some (t, p, k) → now < t ∧ ∃ ev span, (p, ev) ∈ l ∧ ce_span ev = Some span ∧ moment pre pend k span = Some t.

Lemma consider_found now pre pend l t p k f :
  found_in now pre pend l f → (∃ ev span, (p, ev) ∈ l ∧ ce_span ev = Some span ∧ moment pre pend k span = Some t) →
  found_in now pre pend l (consider now t p k f).
Proof.
  intros Hf Hm. unfold consider. destruct (_ && _) eqn:Hc; [|done]. apply andb_true_iff in Hc as [Hc _].
  intros ? ? ? [= <- <- <-]. split; [by apply Z.ltb_lt|done].
Qed.

Lemma find_alarm_found now pre pend all l f :
  (∀ x, x ∈ l → x ∈ all) → found_in now pre pend all f → found_in now pre pend all (find_alarm now pre pend l f).
Proof.
  revert f. induction l as [|[p ev] l IH]; intros f Hl Hf; cbn [find_alarm]; [done|].
  assert (Hin : (p, ev) ∈ all) by (apply Hl; by left). assert (Hl' : ∀ x, x ∈ l → x ∈ all) by (intros; apply Hl; by right).
  destruct (ce_span ev) as [[s e]|] eqn:Hs; [|by apply IH]. cbv zeta.
  set (f1 := if 0 <? pre then _ else _).
  assert (H1 : found_in now pre pend all f1).
  { unfold f1. destruct (0 <? pre) eqn:Hp; [apply consider_found|]; [|exists ev, (s, e); cbn; by rewrite Hp|].
    all: apply consider_found; [done|by exists ev, (s, e)]. }
  destruct (_ && _); [done|]. apply IH; [done|].
  destruct (0 <? pend) eqn:Hp; [apply consider_found|]; [|exists ev, (s, e); cbn; by rewrite Hp|].
  all: apply consider_found; [done|by exists ev, (s, e)].
Qed.

(** Spans that do not end before they start, in the order of the starts, as
    the query gives them. *)
Definition span_ok (x : nat * CalendarEvent) : Prop := ∀ s e, ce_span x.2 = Some (s, e) → s ≤ e.

Definition starts_le (x y : nat * CalendarEvent) : Prop :=
  ∀ s e s' e', ce_span x.2 = Some (s, e) → ce_span y.2 = Some (s', e') → s ≤ s'.

(** What the search does not go past: starts and ends to come, and the time
    before the end of what has begun. *)
Lemma find_alarm_covers now pre pend l f :
  StronglySorted starts_le l → Forall span_ok l →
  ∀ p ev s e, (p, ev) ∈ l → ce_span ev = Some (s, e) →
  (now < s → covers (find_alarm now pre pend l f) s) ∧
  (now < e → covers (find_alarm now pre pend l f) e) ∧
  (s ≤ now → 0 < pend → now < e - pend * 60 → covers (find_alarm now pre pend l f) (e - pend * 60)).
Proof.
  revert f. induction l as [|[q ev0] l IH]; intros f Hs Hok p ev s e Hin Hev; [by apply elem_of_nil in Hin|].
  apply StronglySorted_inv in Hs as [Hs Hle]. apply Forall_cons in Hok as [Hok0 Hok]. cbn [find_alarm].
  apply elem_of_cons in Hin as [[= <- <-]|Hin].
  - rewrite Hev. cbv zeta. pose proof (Hok0 s e Hev) as Hse.
    set (f1 := if 0 <? pre then _ else _).
    assert (H1 : now < s → covers f1 s) by (intros; by apply consider_if_keeps, consider_covers).
    destruct (_ && _) eqn:Hb.
    + apply andb_true_iff in Hb as [_ Hb%Z.ltb_lt]. split_and!; intros; [by apply H1|apply covers_le with s; [by apply H1|lia]|lia].
    + split_and!; intros; apply find_alarm_keeps; [apply consider_if_keeps, consider_keeps; by apply H1|by apply consider_if_keeps, consider_covers|].
      rewrite (proj2 (Z.ltb_lt 0 pend)); [by apply consider_covers|done].
  - destruct (ce_span ev0) as [[s0 e0]|] eqn:H0; [|by apply (IH f Hs Hok p ev s e)]. cbv zeta.
    set (f1 := if 0 <? pre then _ else _). destruct (_ && _) eqn:Hb; [|by apply (IH _ Hs Hok p ev s e)].
    apply andb_true_iff in Hb as [_ Hb%Z.ltb_lt].
    assert (H1 : covers f1 s0) by (by apply consider_if_keeps, consider_covers).
    rewrite Forall_forall in Hle. pose proof (Hle _ Hin s0 e0 s e H0 Hev) as Hss.
    rewrite Forall_forall in Hok. pose proof (Hok _ Hin s e Hev) as Hse.
    split_and!; intros; [by apply covers_le with s0|apply covers_le with s0; [done|lia]|lia].
Qed.

(** The time before the first start to come. *)
Lemma find_alarm_covers_pre now pre pend l1 p ev l2 s e f :
  Forall (λ x, ∀ s e, ce_span x.2 = Some (s, e) → s ≤ now) l1 → ce_span ev = Some (s, e) → 0 < pre → now < s - pre * 60 →
  covers (find_alarm now pre pend (l1 ++ (p, ev) :: l2) f) (s - pre * 60).
Proof.
  intros Hl1 Hev Hp Hn. revert f. induction l1 as [|[q ev0] l1 IH]; intros f; cbn [app find_alarm].
  - rewrite Hev, (proj2 (Z.ltb_lt 0 pre) Hp). cbv zeta.
    assert (H1 : ∀ f, covers (consider now (s - pre * 60) p AE_PRE f) (s - pre * 60)) by (intros; by apply consider_covers).
    destruct (_ && _); [apply H1|]. apply find_alarm_keeps, consider_if_keeps, consider_keeps, H1.
  - apply Forall_cons in Hl1 as [H0 Hl1]. destruct (ce_span ev0) as [[s0 e0]|] eqn:He0; [|by apply IH]. cbv zeta.
    rewrite (proj2 (Z.ltb_ge now s0)) by (by apply (H0 s0 e0)). rewrite andb_false_r. by apply IH.
Qed.

(** ** The runs *)
Inductive RStep := Ask | CallNow | ChangedAsk | ChangedCall | Timer | Answered | Done.

(** [again]: which of the two ends a run has. *)
Definition rstep (again : bool) (x : Runner) (s : RStep) : Runner :=
  match s with
  | Ask => request x
  | CallNow => call x
  | ChangedAsk => request (change x)
  | ChangedCall => call (change x)
  | Timer => fire x
  | Answered => read x
  | Done => if again then finish_again x else finish x
  end.

Definition runner0 : Runner := {| version := 0; scheduled := false; running := false; pending := false; reading := None; shown := 0 |}.

(** What is shown is the newest, or a run that will read the newest is on
    its way. *)
Definition runner_inv (x : Runner) : Prop :=
  if running x then match reading x with Some v => v = version x ∨ scheduled x = true ∨ pending x = true | None => True end
  else pending x = false ∧ reading x = None ∧ (shown x = version x ∨ scheduled x = true).

Lemma rstep_inv again x s : runner_inv x → runner_inv (rstep again x s).
Proof.
  destruct x as [v sc ru pe [r|] sh]; destruct sc, ru, pe, s, again; unfold runner_inv; cbn; try tauto; try lia;
    intros; destruct_and?; repeat case_bool_decide; naive_solver.
Qed.

Definition settled (x : Runner) : bool := negb (scheduled x) && negb (running x).

Lemma runner_inv_settled x : runner_inv x → settled x = true → shown x = version x.
Proof.
  unfold runner_inv, settled. destruct (scheduled x), (running x); cbn; try done. intros (_ & _ & [?|?]) _; done.
Qed.

Definition round : list RStep := [Timer; Answered; Done].

Lemma two_rounds_settle again x :
  runner_inv x → settled (foldl (rstep again) x (round ++ round)) = true ∧ version (foldl (rstep again) x (round ++ round)) = version x.
Proof.
  destruct x as [v sc ru pe [r|] sh]; destruct sc, ru, pe, again; unfold runner_inv; cbn; try tauto; by intros (? & ? & ?).
Qed.

(** ** The actions of the day *)

(** The signals tell the set: a view that follows them has it. *)
Definition follow (s : DaySignal) (whole view : gset string) : gset string :=
  match s with modelReset => whole | actionAdded a => {[a]} ∪ view | actionRemoved a => view ∖ {[a]} end.

Lemma day_signals_tell (f : OnCalendar → OnCalendar) (s : OnCalendar) :
  (∃ l, f = setActions l) ∨ (f = clear_actions) ∨ (∃ a, f = addAction a) ∨ (∃ a, f = removeAction a) →
  ∃ new, (f s).2 = s.2 ++ new ∧ (f s).1 = foldl (λ v x, follow x (f s).1 v) s.1 new.
Proof.
  intros [[l ->]|[->|[[a ->]|[a ->]]]]; [by exists [modelReset]| | |]; unfold clear_actions, addAction, removeAction;
    case_bool_decide; first [by exists []; rewrite app_nil_r | by eexists [_]].
Qed.

Lemma worked_on_today_spec today rows current a (b : bool) :
  worked_on_today today rows current !! a = Some b ↔
  if b then a ∈ current else (a ∉ current) ∧ ∃ t, (a, t) ∈ default [] rows ∧ date_of t = today.
Proof.
  unfold worked_on_today. generalize (default [] rows). clear rows. intros rows.
  induction current as [|c current IH] using rev_ind; cbn [foldl].
  - assert (H : ∀ b, foldr (λ (r : string * Z) m, if bool_decide (date_of r.2 = today) then <[r.1 := false]> m else m) (∅ : gmap string bool) rows !! a = Some b ↔
      b = false ∧ ∃ t, (a, t) ∈ rows ∧ date_of t = today).
    { intros c. induction rows as [|[x t] rows IH]; cbn [foldr]; [rewrite lookup_empty; split; [done|intros (_ & t & []%elem_of_nil & _)]|].
      case_bool_decide as Hd; cbn [fst snd] in *.
      - destruct (decide (x = a)) as [->|Hne].
        + rewrite lookup_insert_eq. split; [intros [= <-]; split; [done|]; exists t; split; [by left|done]|by intros [-> _]].
        + rewrite lookup_insert_ne, IH by done. setoid_rewrite elem_of_cons. naive_solver.
      - rewrite IH. setoid_rewrite elem_of_cons. naive_solver. }
    rewrite H. destruct b; rewrite elem_of_nil; naive_solver.
  - rewrite foldl_snoc. assert (Hc : a ∈ current ++ [c] ↔ a ∈ current ∨ a = c) by (by rewrite elem_of_app, list_elem_of_singleton). destruct (decide (c = a)) as [->|Hne].
    + rewrite lookup_insert_eq. destruct b; rewrite Hc; naive_solver.
    + rewrite lookup_insert_ne by done. destruct b; rewrite IH, Hc; naive_solver.
Qed.

(** ** Properties *)


(** C1: a saved block refers to exactly those of its actions that the client
    has, each once, and no reference of another block changes. *)
Theorem saved_block_refers tb d d' :
  b_deleted tb = false → newer tb d = true → answers d = [] → save_ tb d = (true, d') →
  blocks d' !! b_id tb = Some tb ∧
  ∀ b a, (b, a) ∈ refs d' ↔ if decide (b = b_id tb) then a ∈ b_actions tb ∧ a ∈ actions d else (b, a) ∈ refs d.
Proof.
  intros Hd Hn Ha Hs. split; [|by apply (save_refs tb d d')].
  apply save_rows in Hs as [_ ->]. rewrite Hd, Hn. apply lookup_insert_eq.
Qed.

(** C24: over the events of a query the alarm that is set is a moment still
    to come of one of them, and no start, no end and no time before the end
    of a running event lies between now and it; without an alarm nothing
    starts or ends any more.  The time before a start is sure of its alarm
    for the first start to come. *)
Theorem alarm_is_next now pre pend l :
  StronglySorted starts_le l → Forall span_ok l →
  let f := find_alarm now pre pend l None in
  found_in now pre pend l f ∧
  (∀ p ev s e, (p, ev) ∈ l → ce_span ev = Some (s, e) →
     (now < s → covers f s) ∧ (now < e → covers f e) ∧ (s ≤ now → 0 < pend → now < e - pend * 60 → covers f (e - pend * 60))) ∧
  (∀ l1 p ev l2 s e, l = l1 ++ (p, ev) :: l2 → Forall (λ x, ∀ s e, ce_span x.2 = Some (s, e) → s ≤ now) l1 →
     ce_span ev = Some (s, e) → 0 < pre → now < s - pre * 60 → covers f (s - pre * 60)).
Proof.
  intros Hs Hok. split; [by apply find_alarm_found|]. split; [intros *; by apply find_alarm_covers|].
  intros l1 p ev l2 s e ->. intros. by apply find_alarm_covers_pre with e.
Qed.


End calendar.

(** ** Example: a day with two blocks *)
Module Example_calendar.

Definition day_of (t : Z) : Z := t / 86400.
Definition first_of (day : Z) : Z := day * 86400.

Definition block (id : string) (start stop : Z) (acts : list string) (version : Z) : TimeBlock :=
  {| b_id := id; b_start := start; b_end := stop; b_deleted := false; b_actions := acts; b_updated := version;
     b_updated_id := version; b_rest := EmptyString |}.

Definition event (tb : TimeBlock) : CalendarEvent :=
  {| ce_id := b_id tb; ce_block := Some tb; ce_span := Some (b_start tb, b_end tb) |}.

Definition db0 : ClientDb :=
  {| tables := {| IssueReport.t_nodes := ∅; IssueReport.t_actions := {["a1" := {| IssueReport.a_node := "n"; IssueReport.a_origin := EmptyString |}]};
                  IssueReport.t_sessions := ∅; IssueReport.t_blocks := ∅; IssueReport.t_issues := [] |};
     blocks := ∅; answers := [] |}.

Definition calendar0 : Calendar :=
  {| heap := ∅; events_ := ∅; signals := []; repairs := 0; alarm_requests := 0; actions_requests := 0; current_calendar_date_ := 0 |}.

Definition late : TimeBlock := block "t1" 36000 39600 ["a1"; "gone"; "a1"] 1.
Definition early : TimeBlock := block "t2" 28800 32400 [] 1.

Definition added : Update := {| up_op := ADDED; up_events := Some [event late; event early]; up_action := false |}.

Definition after : bool * ClientDb * Calendar := pocessUpdate (λ s, s) day_of 0 added db0 calendar0.
Definition db1 : ClientDb := after.1.2.
Definition asked : list nat * ClientDb * Calendar := getCalendarEvents first_of 0 1 db1 after.2.

Lemma added_in_order : update_in_order db0 added.
Proof.
  intros l [= <-]. split.
  - apply Forall_forall. intros ce [->|[->|[]%elem_of_nil]%elem_of_cons]%elem_of_cons tb [= <-]; (split; [done|by intros old Hold]).
  - repeat constructor; set_solver.
Qed.

Lemma calendar0_coherent : coherent db0 calendar0.
Proof. apply (clear_coherent db0 calendar0). Qed.

Lemma triple_eta {A B C} (x : A * B * C) : x = (x.1.1, x.1.2, x.2).
Proof. by destruct x as [[? ?] ?]. Qed.

Lemma added_runs : calendar_run (λ s, s) day_of first_of [EvUpdate 0 added] db0 calendar0 db1 after.2.
Proof.
  exact (run_update _ _ _ 0 added [] db0 calendar0 after.1.1 db1 after.2 db1 after.2 added_in_order (triple_eta after) (run_nil _ _ _ _ _)).
Qed.


(** The missing action is reported and not referred to. *)
Lemma saved_block_refers_witness :
  (("t1", "a1") ∈ refs (save_ (λ s, s) late db0).2) ∧ length (IssueReport.t_issues (tables (save_ (λ s, s) late db0).2)) = 1%nat.
Proof.
  split; [|vm_compute; reflexivity].
  apply (proj2 (saved_block_refers (λ s, s) late db0 (save_ (λ s, s) late db0).2 eq_refl eq_refl eq_refl eq_refl) "t1" "a1").
  rewrite decide_True by reflexivity. split; [left|]. unfold actions. vm_compute. reflexivity.
Defined.

Definition day : list (nat * CalendarEvent) := [(0%nat, event early); (1%nat, event late)].

Lemma alarm_is_next_witness :
  find_alarm 30000 1 5 day None = Some (32100, 0%nat, AE_SOON_ENDING) ∧ found_in 30000 1 5 day (find_alarm 30000 1 5 day None).
Proof.
  split; [reflexivity|]. apply (alarm_is_next 30000 1 5 day).
  - repeat constructor; intros s e s' e' [= <- <-] [= <- <-]; cbn; lia.
  - repeat constructor; intros s e [= <- <-]; cbn; lia.
Defined.

(** The search ends at the first start to come: the time before the next
    one, one minute later, is passed over. *)
Example later_warning_missed :
  let l := [(0%nat, event (block "x" 300 3600 [] 1)); (1%nat, event (block "y" 660 3600 [] 1))] in
  find_alarm 0 10 5 l None = Some (300, 0%nat, AE_START) ∧ moment 10 5 AE_PRE (660, 3600) = Some 60.
Proof. by split. Qed.

(** A change during a run: the run that is remembered shows it. *)
Example change_during_run :
  let x := foldl (rstep false) runner0 [ChangedCall; Answered; ChangedCall; Done] in
  (shown x, version x, scheduled x) = (1%nat, 2%nat, true) ∧ shown (foldl (rstep false) x round) = 2%nat.
Proof. by split. Qed.

End Example_calendar.
